(* ===== verification/_CoqProject ===== *)
-Q . S2P
Prelude.v
Wire.v
Codec.v
Keys.v
KeyRange.v
Lineage.v
Command.v
Placement.v
CommandCodec.v
CommandRoundtrip.v
ResponseCodec.v
Records.v
ValueCodec.v
ValueRoundtrip.v
Flow.v
LeaseOps.v
GroupOps.v
RangeOps.v
SegmentOps.v
RetentionOps.v
Apply.v
Snapshot.v
Sizes.v
SnapshotRoundtrip.v
Steps.v
Refine.v
Invariants.v
Reachable.v
Keyspace.v
Quorum.v
Promotion.v
GroupSafety.v
SegmentSafety.v
Dedup.v
Encodable.v
Restore.v
Queries.v
BatchState.v
LeaseClock.v
Splits.v
Fencing.v
Scenario.v
Storage.v
DiskLogic.v
CommittedFloor.v
FloorSafety.v
FencingEpochs.v
JournalSafety.v
StorageScenario.v
ChunkTree.v
LogTypes.v
RecordCodec.v
DiskView.v
ProducerState.v
ProducerSnapshot.v
SegmentFiles.v
SegmentScan.v
Manifest.v
ActiveSegment.v
Sealing.v
LogDisk.v
SegmentLog.v
AppendPlan.v
LogOps.v
SealDisk.v
LogSafety.v
SealSafety.v
LogScenario.v
SealScenario.v
KafkaGroups.v
KafkaRounds.v
KafkaMembers.v
KafkaCoordinator.v
KafkaScenario.v
