(* ===== verification/Prelude.v ===== *)
(** * vtop-engine, verified

    vtop-engine is a log broker whose control plane is a replicated state
    machine: a Raft group orders [MetadataCommand]s, and every replica applies
    them to a [MetaStateMachine] (crates/vtop-meta/src/state.rs).  That machine
    decides who leads a range, which epoch fences whom, how ranges split, where
    segments are stored, when their bytes may be deleted and how far each
    consumer group has read.  The data plane obeys what it answers.  This
    library models that machine whole, with its codecs and the pure components
    it is built from; the active segment of the log and the files on which a
    broker keeps what it must not forget, over the repository's own crash
    simulator; the promotion decision of a new leader; and the batch state machine of the older upload pipeline
    (crates/vtop-core/src/state_machine.rs).

    ** Files and the code they model

    Foundations:
    - [Prelude]: machine integers ([int t], a value with its range proof),
      checked and wrapping arithmetic, ordered iteration of a BTreeMap, stable
      sort and dedup, the tactics the library shares.
    - [Wire]: vtop-meta/src/wire.rs, the big-endian writers and the bounded
      reader, with UTF-8 validation of strings.
    - [Keys]: vtop-meta/src/keys.rs, [MetaKey] with encode and decode.
    - [KeyRange], [Lineage]: the routing intervals and the lineage validation
      of vtop-log/src/types.rs.
    - [Command]: vtop-meta/src/command.rs, the commands, errors and responses,
      feature levels, the lease clock-skew rule, bounded error details.
    - [Placement]: vtop-meta/src/placement.rs, rendezvous ranking and the
      selection of replicas.
    - [Records]: the record types of state.rs ([NodeRecord] ... [MetaValue])
      and [key_matches_value].

    The state machine, one definition per handler, every guard and early
    return in the order of the code:
    - [Flow]: the effects of a handler.  [M A] reads and writes the record
      map, may return a response early ([return_], [reject_if]), may panic
      ([unreachable]).  [wp] is its weakest precondition.
    - [LeaseOps]: nodes, topics, grant/acquire/renew/release of leases, the
      transition chain, promotion reports, the feature level and replica sets
      (state.rs 1283-1506, 2218-2825).
    - [GroupOps]: consumer groups, members, assignments, cursors.
    - [RangeOps]: sealed segments and splits.
    - [SegmentOps]: placements, rebalances, replacement proofs, retirement.
    - [RetentionOps]: archive evidence, retention policies, deletion.
    - [Apply]: [MetaStateMachine.apply], the request table, the dispatch
      [apply_inner] and the queries.

    The specification and the proofs:
    - [Steps]: [mstep], the abstract specification: thirty-one guarded atomic
      steps over typed records, independent of request order, error texts and
      byte keys.
    - [Refine]: each handler is a sequence of [mstep]s, or leaves the records
      alone when it rejects.
    - [Invariants], [Reachable]: the epoch chain and the history of leases,
      by induction over the steps, and the refinement of whole logs.
    - [Keyspace], [Quorum], [GroupSafety], [SegmentSafety], [LeaseClock],
      [Splits], [Fencing], [Dedup], [Queries]: the properties of each part.
    - [BatchState]: vtop-core/src/state_machine.rs.
    - [Codec], [CommandCodec], [ResponseCodec], [ValueCodec], [Snapshot]: the
      byte codecs of command.rs and state.rs; [CommandRoundtrip],
      [ValueRoundtrip], [Sizes], [SnapshotRoundtrip]: their round trips;
      [Encodable], [Restore]: every reachable state fits them.
    - [Scenario]: a log of twenty-three commands that drives the machine
      through leases, a replica-set change, sealing, consumers, archiving and
      a split, evaluated by [vm_compute].  The theorems are applied to its
      states, so their hypotheses hold of real runs.

    The data plane's files:
    - [Storage]: vtop-log/src/env.rs and sim.rs, storage with a volatile and a
      durable side.  [SimState] holds inodes, the visible and the durable
      namespace and the operations not yet made durable; a [FaultPlan] makes an
      operation fail, tears a write or crashes the machine, which keeps any
      prefix of the pending operations.  [SimE] is the monad of code over it.
    - [DiskLogic]: a program logic for one file.  [io_spec] says what a
      computation returns and, when it fails, what a crash may leave.
    - [CommittedFloor], [FloorSafety]: vtop-broker/src/committed_floor.rs.
    - [FencingEpochs], [JournalSafety]: vtop-broker/src/fencing_epochs.rs.
    - [Promotion]: vtop-node/src/promotion.rs.
    - [StorageScenario]: concrete disks, lives with faults and the theorems
      applied to them.

    The segment log (crates/vtop-log/src):
    - [ChunkTree]: proof.rs, the Merkle tree over the chunks of a sealed
      segment, its streaming builder, inclusion proofs and their check.
    - [LogTypes]: the records, descriptors, configurations, headers and errors
      of types.rs, codec.rs and codec_v2.rs, with their validation.
    - [RecordCodec]: the frames of both format versions, written and read.
    - [ProducerState]: the idempotence window of each producer (segment.rs
      1580-1840), one record at a time and for a group with its deltas.
    - [ProducerSnapshot]: producer_snapshot.rs, the frontier a segment hands to
      its successor.
    - [SegmentFiles]: the files of a segment, the atomic replacement of a
      sidecar, the commit boundary and the header envelope.
    - [SegmentScan]: the scan of a segment's frames, the search for an offset
      and the reading of a batch.
    - [ActiveSegment]: create, recover, append_group, commit, truncate_to and
      fetch.  [Seg] is the monad of code that changes the segment and calls
      the storage; a segment whose write failed is poisoned.
    - [DiskView], [LogDisk]: a program logic for several files.  A [disk] is a
      durable view of names and contents with the operations still pending;
      [view_spec F G c Q] says that [c] ends in [Q], or fails (without faults
      only if [F]) on a disk whose every crash leaves a view in [G].
    - [SegmentLog]: a file that holds the frames of a log, and what the scan,
      the search and the reads find in it.
    - [AppendPlan], [LogOps], [LogSafety]: each operation against the log as a
      list of records with a committed prefix, then whole lives.
    - [Manifest]: the manifests of a sealed segment, the commit statement with
      its authentication, the checks of a manifest against a scan, the encodings
      of the chunk sidecar and the sparse index.
    - [Sealing]: seal and the publication of the sealed file, the sealed reader
      with the repair of its sidecars, and the inspection of segments.
    - [SealDisk], [SealSafety]: the disks that open to a log, and each step of
      sealing and reading against them.
    - [LogScenario], [SealScenario]: a segment created on an empty disk and driven through
      crashes, then sealed; the theorems of the log applied to it.

    The Kafka gateway (crates/vtop-kafka/src):
    - [KafkaGroups]: groups.rs, the coordinator of consumer groups.  Each
      operation is what the code does under its lock; a request that waits is
      answered on a channel, a number, and [sent] is what was sent so far.
    - [KafkaRounds], [KafkaMembers]: the invariant of a group and what each
      change does to it, to whom is waiting and to the generation.
    - [KafkaCoordinator]: runs of requests and sweeps over all groups.
    - [KafkaScenario]: a group at work, the theorems applied to it, and a run in
      which a healthy member is put out.

    ** Correspondence

    The [BTreeMap] of encoded keys is a [gmap (list u8) MetaValue.t]; where
    the code iterates it in key order the model sorts the entries by their
    bytes ([btree_iter], [btree_range]).  A [Uuid] is its 128-bit value and a
    digest its 256-bit one.  A Rust panic is [None].  An addition that the code
    writes as [+] wraps, as in a release build; one it writes as
    [checked_add] returns an option.  Records are immutable values: a
    [get_mut] followed by assignments is a read and an insert of the updated
    record, placed where the code assigns.

    Classes stand for code outside the repository: [Blake3] for the keyed hash
    that scores replicas (only its output width is used); [Blake3Hash] for the
    checksum of a floor frame, of which the floor theorem assumes
    [detects_tears]: a frame stitched together from two writes of the lives'
    own floors does not pass for a third; [Fmt] for the texts of Uuids and
    quoted strings in error messages, which [FmtText] assumes to be UTF-8 where
    they are encoded; [HeaderJson] for serde_json on segment headers, of which
    [HeaderJsonLaws] assumes that deserializing inverts serializing and that
    the text is not empty; [ManifestJson] for serde_json on manifests and commit
    statements, with the same round trip for the manifests sealing writes
    ([ManifestJsonLaws]); [Blake3Text] for hashes as hexadecimal text and the
    keyed hash; [JsonValue] for serde_json's dynamic values; [HashOrder] for the
    order in which a [HashMap] is traversed, any permutation of its entries.  That the inputs of a chunk tree do not collide is a
    hypothesis of the one theorem that needs it.  [MetadataCommand.names_valid] says that the topic or group name
    of a command is valid UTF-8, which the Rust [String] type guarantees.

    ** What is proved

    - Leadership: an epoch has one holder (C1); a leader that
      lost its lease is refused everything from then on (C2);
      the transition chain has no gap and its records do not change
      (C29); elections respect live leases and the
      clock-skew bound (C30); the statement a leader
      signs determines the record.
    - Keyspace: the unsealed ranges of a topic partition the routing keys
      (C3); seals and lineages are permanent, a sealed range
      holds nothing past its barrier (C35), a split is applied
      once.
    - Replication: every change of a replica set keeps a common member between
      old and new majorities (C18); selection honours
      failure domains.
    - Promotion: a candidate leads exactly from a boundary the answers prove,
      it then holds every acknowledged record (C9), and
      the most complete replica is never refused (C33).
    - Segments: deletion is planned only for archived or expendable, consumed
      data (C20); the records of a segment agree
      (C24) and its lifecycle only advances
      (C25).
    - Consumers: exclusive assignment (C26), cursors that are
      attributed and never lost (C27, C28); every
      cursor is of its topic, range and segment.
    - Kafka consumer groups: a member that was left behind is not heard again
      (C10), a generation has one assignment (C11)
      and one outcome (C14), nobody waits past a deadline
      (C13), and the coordinator keeps its invariant and answers
      nothing twice (C12).
    - The machine: refinement of the specification (C21),
      totality (C22), rejections without effect (C23),
      exactly-once application (C19).
    - Codecs: keys, commands and records (C37); a snapshot restores the
      state it was taken of (C17) and one that is accepted is
      well formed (C36).
    - Files: an acknowledged floor survives every crash
      (C4); the epoch journal recovers what was acknowledged
      (C5), truncation keeps attribution, a transferred history installs whole or
      resumably; the comparison and the clamp of histories are exact
      (C34).
    - The log: what an active segment acknowledged as committed survives every
      crash, a failed operation took place or did not, and a recovery always
      succeeds (C6); an append of a group is an append of its
      records one by one (C15); a producer's sequence is appended once
      and retries get the original offset (C16), across segments too
      (C39); frames are read as they were written
      (C38).
    - Sealed segments: a seal interrupted anywhere loses nothing committed and
      one that returned is final (C7); a sealed segment reads
      back its records below the watermark whatever became of its sidecars
      (C8).
    - Chunks: the streamed tree is the tree of the content (C31);
      a chunk that verifies is in the content (C32), though
      not always where the proof says (C40).
    - Foundations: lineage validation is exact, keys and records round-trip, batch
      transitions follow their diagram.
    - Runs of the model that differ from the comments: in [Scenario],
      [StorageScenario], [LogScenario] and [KafkaScenario].

    ** Bounds

    Loops are over lists or finite maps, except [write_all], [read_exact] and
    the frame reader's loops, whose fuel is the length of the buffer: every
    call that does not fail consumes at least one byte.  The scan of a segment
    has fuel for one turn more than the file has bytes, and a frame is not
    empty; the search for an offset and the reading of a batch have the number
    of offsets to cross.  Instants do not overflow, and the generations
    of a group are followed until they wrap around.  The path length of a chunk proof halves a 64-bit
    count, so 64 turns are enough; the tree is built with the number of leaves
    as fuel.  Integers keep their widths; [apply_total]
    covers counters at their maximum, where the checked ones reject.  The
    request table is bounded by [DEDUP_CAPACITY] as in the code, which is why
    (C19) has a window.

    ** Not modelled

    Consensus, storage and transport of vtop-meta (openraft, files, sockets):
    the committed log is the input.  Of the segment log (vtop-log), the roll to
    a successor, the set of segments of a range, transfer and the offline
    verifier.  A life of a segment begins with a restart of the disk: what a
    recovery without one can leave is shown by a run in [LogScenario].  The
    broker's server, the Kafka gateway but for its group coordinator, the native
    protocol, the batch store
    and the rest of the node process: pure logic in them is left for extension,
    first the segment sets, then the frame codecs, the batcher
    (vtop-core/src/batch.rs) and the store's fence (vtop-state).  Of the
    simulated storage, bit corruption, the clock and the random source: the
    random part of a temporary file's name is an argument.  Adapters, uploads,
    the command line and observability are I/O. *)

From stdpp Require Import prelude gmap strings list sorting pretty.
From Stdlib Require Import ZArith Lia.

#[global] Open Scope Z_scope.

(** * Fixed-width integers

    The Rust integer types the crates use.  [U256] is not a Rust type: a
    [[u8; 32]] digest is carried as its big-endian value, as a [Uuid] (16
    bytes) is carried as [U128]; both are only compared, ordered and written
    to the wire, where the big-endian value is exactly the byte array. *)

Inductive int_ty := U8 | U16 | U32 | U64 | U128 | U256 | I8 | I16 | I32 | I64.

Definition int_bytes (t : int_ty) : nat :=
  match t with
  | U8 => 1 | U16 => 2 | U32 => 4 | U64 => 8 | U128 => 16 | U256 => 32
  | I8 => 1 | I16 => 2 | I32 => 4 | I64 => 8
  end.

Definition int_modulus (t : int_ty) : Z := 2 ^ (8 * Z.of_nat (int_bytes t)).

Definition int_min (t : int_ty) : Z :=
  match t with I8 => - 2 ^ 7 | I16 => - 2 ^ 15 | I32 => - 2 ^ 31 | I64 => - 2 ^ 63 | _ => 0 end.

Definition int_max (t : int_ty) : Z := int_min t + int_modulus t - 1.

Definition in_range (t : int_ty) (z : Z) : bool :=
  (int_min t <=? z) && (z <=? int_max t).

Record int (t : int_ty) := Int {
  ival : Z;
  ival_in_range : in_range t ival = true
}.
Arguments Int {t} _ _.
Arguments ival {t} _.
Arguments ival_in_range {t} _.

#[global] Coercion ival : int >-> Z.

Abbreviation u8 := (int U8).
Abbreviation u16 := (int U16).
Abbreviation u32 := (int U32).
Abbreviation u64 := (int U64).
Abbreviation u128 := (int U128).
Abbreviation i8 := (int I8).
Abbreviation i16 := (int I16).
Abbreviation i32 := (int I32).
Abbreviation i64 := (int I64).

(** A proof of [b = true] that reduces to [eq_refl] when [b] computes, so that
    integers built from concrete values are convertible when they are equal. *)
Definition canonical {b : bool} (H : b = true) : b = true :=
  match b as b' return b' = true → b' = true with
  | true => λ _, eq_refl
  | false => λ H, H
  end H.

Lemma int_eq {t} (a b : int t) : ival a = ival b → a = b.
Proof.
  destruct a as [a Ha], b as [b Hb]; simpl; intros ->.
  f_equal. apply (proof_irrel Ha Hb).
Qed.

Lemma int_neq {t} (a b : int t) : a ≠ b → ival a ≠ ival b.
Proof. intros Hne Heq. by apply Hne, int_eq. Qed.

#[global] Instance int_eq_dec {t} : EqDecision (int t) := λ a b,
  match decide (ival a = ival b) with
  | left H => left (int_eq a b H)
  | right H => right (λ e, H (f_equal ival e))
  end.

(** Conversions: [try_int] is [TryFrom] / the checked operations, [wrap_int]
    the two's-complement truncation of an [as] cast and of release-mode
    arithmetic. *)
Definition try_int (t : int_ty) (z : Z) : option (int t) :=
  match decide (in_range t z = true) with
  | left H => Some (Int z (canonical H))
  | right _ => None
  end.

Lemma int_modulus_pos t : 0 < int_modulus t.
Proof. by destruct t. Qed.

Lemma wrap_in_range t z :
  in_range t (int_min t + (z - int_min t) `mod` int_modulus t) = true.
Proof.
  unfold in_range, int_max.
  pose proof (Z.mod_pos_bound (z - int_min t) (int_modulus t) (int_modulus_pos t)).
  apply andb_true_intro; split; apply Z.leb_le; lia.
Qed.

Definition wrap_int (t : int_ty) (z : Z) : int t :=
  Int (int_min t + (z - int_min t) `mod` int_modulus t) (canonical (wrap_in_range t z)).

Lemma try_int_Some t z (a : int t) : try_int t z = Some a ↔ ival a = z.
Proof.
  unfold try_int. destruct a as [a Ha]; simpl.
  case_decide as H; split; intros Heq; simplify_eq/=; try done.
  f_equal. by apply int_eq.
Qed.

Lemma try_int_None t z : try_int t z = None ↔ ¬ (int_min t <= z <= int_max t).
Proof.
  unfold try_int, in_range. case_decide as H; split; intros Heq; try done.
  - pose proof H as [?%Z.leb_le ?%Z.leb_le]%andb_prop. by destruct Heq.
  - intros [H1 H2]. apply H. apply andb_true_intro; split; by apply Z.leb_le.
Qed.

Lemma try_int_ival {t} (a : int t) : try_int t a = Some a.
Proof. by apply try_int_Some. Qed.

Lemma ival_bounds {t} (a : int t) : int_min t <= a <= int_max t.
Proof.
  destruct a as [a Ha]; simpl. unfold in_range in Ha.
  apply andb_prop in Ha as [?%Z.leb_le ?%Z.leb_le]. lia.
Qed.

#[global] Instance ival_inj t : Inj (=) (=) (@ival t).
Proof. intros a b. apply int_eq. Qed.

#[global] Instance int_countable t : Countable (int t) :=
  inj_countable ival (try_int t) try_int_ival.

#[global] Instance int_inhabited t : Inhabited (int t) := populate (wrap_int t 0).

Lemma wrap_int_small t z :
  int_min t <= z <= int_max t → ival (wrap_int t z) = z.
Proof.
  intros Hz. unfold wrap_int; simpl. unfold int_max in Hz.
  rewrite Z.mod_small; lia.
Qed.

Lemma wrap_int_ival {t} (a : int t) : wrap_int t a = a.
Proof. apply int_eq, wrap_int_small, ival_bounds. Qed.

(** [checked_add], [wrapping_add] (what a plain [+] compiles to without
    overflow checks, the release profile), and the unsigned [MAX]. *)
Definition checked_add {t} (a b : int t) : option (int t) := try_int t (a + b).
Definition wrapping_add {t} (a b : int t) : int t := wrap_int t (a + b).
Definition zero {t} : int t := wrap_int t 0.
Definition one {t} : int t := wrap_int t 1.
Definition u64_MAX : u64 := wrap_int U64 (2 ^ 64 - 1).

(** [x.checked_add(1)] and [x += 1], the two ways the code moves a counter. *)
Abbreviation checked_succ x := (checked_add x one).
Abbreviation wrapping_succ x := (wrapping_add x one).

#[global] Arguments wrap_int : simpl never.
#[global] Arguments try_int : simpl never.
#[global] Arguments checked_add : simpl never.
#[global] Arguments wrapping_add : simpl never.
#[global] Arguments zero : simpl never.
#[global] Arguments one : simpl never.

Lemma checked_add_Some {t} (a b c : int t) :
  checked_add a b = Some c ↔ ival c = a + b.
Proof. apply try_int_Some. Qed.

Lemma checked_add_None {t} (a b : int t) :
  checked_add a b = None ↔ ¬ (int_min t <= a + b <= int_max t).
Proof. apply try_int_None. Qed.

Lemma ival_zero t : ival (@zero t) = 0.
Proof. by destruct t. Qed.

Lemma ival_one t : ival (@one t) = 1.
Proof. by destruct t. Qed.

Lemma checked_succ_u64 (a b : u64) : checked_succ a = Some b → ival b = a + 1.
Proof. intros H%checked_add_Some. by rewrite H, ival_one. Qed.

Lemma u64_bounds (a : u64) : 0 <= a <= 18446744073709551615.
Proof. apply (ival_bounds a). Qed.

Lemma u32_bounds (a : u32) : 0 <= a <= 4294967295.
Proof. apply (ival_bounds a). Qed.

Lemma u64_MAX_val : ival u64_MAX = 18446744073709551615.
Proof. done. Qed.

(** Below the ceiling a wrapping increment is the exact one. *)
Lemma wrapping_succ_u64 (a : u64) : a < u64_MAX → ival (wrapping_succ a) = a + 1.
Proof.
  intros Ha. unfold wrapping_add. rewrite wrap_int_small; rewrite ival_one; [done|].
  pose proof (u64_bounds a). rewrite u64_MAX_val in Ha.
  change (int_min U64) with 0. change (int_max U64) with 18446744073709551615. lia.
Qed.

(** * Ordering of byte strings and integers *)

Definition int_le {t} (a b : int t) : Prop := ival a <= ival b.

#[global] Instance int_le_dec {t} : RelDecision (@int_le t) := λ a b, Z_le_dec a b.
#[global] Instance int_le_total {t} : Total (@int_le t).
Proof. intros a b. unfold int_le. lia. Qed.
#[global] Instance int_le_trans {t} : Transitive (@int_le t).
Proof. intros a b c. unfold int_le. lia. Qed.
#[global] Instance int_le_antisym {t} : AntiSymm (=) (@int_le t).
Proof. intros a b ??. apply int_eq. unfold int_le in *. lia. Qed.
#[global] Instance int_le_refl {t} : Reflexive (@int_le t).
Proof. intros a. unfold int_le. lia. Qed.

(** Lexicographic order on byte strings: Rust's [Ord] on [[u8]]. *)
Fixpoint bytes_le (xs ys : list u8) : bool :=
  match xs, ys with
  | [], _ => true
  | _ :: _, [] => false
  | x :: xs', y :: ys' =>
      if decide (x = y) then bytes_le xs' ys' else bool_decide (ival x < ival y)
  end.

Definition bytes_lt (xs ys : list u8) : bool := negb (bytes_le ys xs).

Lemma bytes_le_refl xs : bytes_le xs xs = true.
Proof. induction xs as [|x xs IH]; simpl; [done|]. by rewrite decide_True. Qed.

Lemma bytes_le_total xs ys : bytes_le xs ys = true ∨ bytes_le ys xs = true.
Proof.
  revert ys; induction xs as [|x xs IH]; intros [|y ys]; simpl; auto.
  destruct (decide (x = y)) as [->|Hne].
  - rewrite decide_True by done. apply IH.
  - rewrite decide_False by done. apply int_neq in Hne.
    destruct (decide (ival x < ival y)); [left|right]; apply bool_decide_eq_true; lia.
Qed.

Lemma bytes_le_trans xs ys zs :
  bytes_le xs ys = true → bytes_le ys zs = true → bytes_le xs zs = true.
Proof.
  revert ys zs; induction xs as [|x xs IH]; intros [|y ys] [|z zs]; simpl; try done.
  repeat case_decide; simplify_eq; rewrite ?bool_decide_eq_true; try done; try lia.
  apply IH.
Qed.

Lemma bytes_le_antisym xs ys : bytes_le xs ys = true → bytes_le ys xs = true → xs = ys.
Proof.
  revert ys; induction xs as [|x xs IH]; intros [|y ys]; simpl; try done.
  repeat case_decide; simplify_eq; rewrite ?bool_decide_eq_true; try done; try lia.
  intros ??. f_equal. by apply IH.
Qed.

(** A common prefix does not affect the order. *)
Lemma bytes_le_app_l ps xs ys : bytes_le (ps ++ xs) (ps ++ ys) = bytes_le xs ys.
Proof. induction ps as [|p ps IH]; simpl; [done|]. by rewrite decide_True. Qed.

(** * Ordered maps

    A [BTreeMap<Vec<u8>, V>] is a [gmap] together with the order its iterators
    walk it in: ascending keys. *)

Section btree.
Context {V : Type}.
Implicit Types (m : gmap (list u8) V).

Definition entry_le (p q : list u8 * V) : Prop := bytes_le p.1 q.1 = true.

#[global] Instance entry_le_dec : RelDecision entry_le :=
  λ p q, bool_eq_dec (bytes_le p.1 q.1) true.
#[global] Instance entry_le_total : Total entry_le.
Proof. intros p q. apply bytes_le_total. Qed.
#[global] Instance entry_le_trans : Transitive entry_le.
Proof. intros p q r. apply bytes_le_trans. Qed.

(** [BTreeMap::iter] *)
Definition btree_iter m : list (list u8 * V) := merge_sort entry_le (map_to_list m).

(** [BTreeMap::range(lo..=hi)] *)
Definition btree_range m (lo hi : list u8) : list (list u8 * V) :=
  filter (λ e, bytes_le lo e.1 && bytes_le e.1 hi = true) (btree_iter m).

Lemma elem_of_btree_iter m k v : (k, v) ∈ btree_iter m ↔ m !! k = Some v.
Proof.
  unfold btree_iter. rewrite merge_sort_Permutation. apply elem_of_map_to_list.
Qed.

Lemma btree_iter_sorted m : StronglySorted entry_le (btree_iter m).
Proof. apply StronglySorted_merge_sort; apply _. Qed.

Lemma elem_of_btree_range m lo hi k v :
  (k, v) ∈ btree_range m lo hi ↔
  m !! k = Some v ∧ bytes_le lo k = true ∧ bytes_le k hi = true.
Proof.
  unfold btree_range. rewrite list_elem_of_filter, elem_of_btree_iter; simpl.
  rewrite andb_true_iff. tauto.
Qed.
End btree.

(** * Sorting and deduplication

    [slice::sort_by] is stable, so it is an insertion sort that keeps equal
    elements in their original order; on a total order with no distinct equal
    elements [sort_unstable] gives the same list.  [Vec::dedup] drops
    consecutive repetitions. *)

Section sorting.
Context {A : Type} (R : relation A) `{!RelDecision R}.

Fixpoint sort_insert (x : A) (l : list A) : list A :=
  match l with
  | [] => [x]
  | y :: l' => if decide (R x y) then x :: y :: l' else y :: sort_insert x l'
  end.

Definition stable_sort (l : list A) : list A := foldr sort_insert [] l.

Lemma sort_insert_Permutation x l : sort_insert x l ≡ₚ x :: l.
Proof.
  induction l as [|y l IH]; simpl; [done|]. case_decide; [done|].
  rewrite IH. apply Permutation_swap.
Qed.

Lemma stable_sort_Permutation l : stable_sort l ≡ₚ l.
Proof.
  induction l as [|x l IH]; simpl; [done|]. by rewrite sort_insert_Permutation, IH.
Qed.

Lemma sort_insert_sorted `{!Total R, !Transitive R} x l :
  StronglySorted R l → StronglySorted R (sort_insert x l).
Proof.
  induction 1 as [|y l Hl IH Hy]; simpl; [by repeat constructor|].
  case_decide as HR.
  - constructor; [by constructor|]. constructor; [done|].
    eapply Forall_impl; [done|]. intros z ?. by transitivity y.
  - constructor; [done|]. rewrite sort_insert_Permutation. constructor; [|done].
    by destruct (total R x y).
Qed.

Lemma stable_sort_sorted `{!Total R, !Transitive R} l : StronglySorted R (stable_sort l).
Proof. induction l; simpl; [constructor|]. by apply sort_insert_sorted. Qed.
End sorting.

Fixpoint dedup `{EqDecision A} (l : list A) : list A :=
  match l with
  | [] => []
  | x :: l' => match l' with
               | [] => [x]
               | y :: _ => if decide (x = y) then dedup l' else x :: dedup l'
               end
  end.

Lemma dedup_elem_of `{EqDecision A} (l : list A) x : x ∈ dedup l ↔ x ∈ l.
Proof.
  induction l as [|y [|z l] IH]; [done|done|].
  change (dedup (y :: z :: l)) with
    (if decide (y = z) then dedup (z :: l) else y :: dedup (z :: l)).
  case_decide as Hyz; [subst; rewrite IH|rewrite elem_of_cons, IH];
    rewrite !elem_of_cons; tauto.
Qed.

Lemma dedup_length `{EqDecision A} (l : list A) : (length (dedup l) <= length l)%nat.
Proof.
  induction l as [|y [|z l] IH]; [done|done|].
  change (dedup (y :: z :: l)) with
    (if decide (y = z) then dedup (z :: l) else y :: dedup (z :: l)).
  case_decide; simpl in *; lia.
Qed.

(** On a sorted list [dedup] keeps one of each. *)
Lemma dedup_sorted `{EqDecision A} (R : relation A) `{!AntiSymm (=) R} (l : list A) :
  StronglySorted R l → NoDup (dedup l) ∧ StronglySorted R (dedup l).
Proof.
  induction 1 as [|y l Hl [IHn IHs] Hy]; [split; constructor|].
  destruct l as [|z l]; [split; [apply NoDup_singleton|by repeat constructor]|].
  change (dedup (y :: z :: l)) with
    (if decide (y = z) then dedup (z :: l) else y :: dedup (z :: l)).
  case_decide as Hyz; [done|]. split.
  - constructor; [|done]. rewrite dedup_elem_of. intros Hin.
    apply elem_of_cons in Hin as [|Hin]; [done|].
    inversion Hl as [|? ? Hl' Hz]; subst. inversion Hy as [|? ? Hyz' _]; subst.
    rewrite Forall_forall in Hz. apply Hyz, (anti_symm R); [done|]. by apply Hz.
  - constructor; [done|]. apply Forall_forall. intros x Hx. rewrite dedup_elem_of in Hx.
    rewrite Forall_forall in Hy. by apply Hy.
Qed.

(** [sort_unstable(); dedup()] loses nothing exactly when there is no
    duplicate: the length test the code uses to detect one. *)
Lemma sort_dedup_length_NoDup {t} (l : list (int t)) :
  length (dedup (stable_sort int_le l)) = length l ↔ NoDup l.
Proof.
  pose proof (stable_sort_Permutation int_le l) as Hp.
  destruct (dedup_sorted int_le _ (stable_sort_sorted int_le l)) as [Hnd _].
  split.
  - intros Hlen. assert (dedup (stable_sort int_le l) ≡ₚ l) as <-; [|done].
    apply submseteq_length_Permutation; [|by rewrite Hlen].
    apply NoDup_submseteq; [done|]. intros x. rewrite dedup_elem_of. by rewrite Hp.
  - intros Hl. apply Nat.le_antisymm.
    + rewrite dedup_length. by rewrite Hp.
    + apply submseteq_length, NoDup_submseteq; [done|].
      intros x Hx. rewrite dedup_elem_of. by rewrite Hp.
Qed.
