(* ===== verification/Wire.v ===== *)
(** Bounded big-endian wire helpers: [crates/vtop-meta/src/wire.rs].

    The [put_*] writers append to a byte vector; here each returns the bytes it
    appends.  [Reader] is a cursor over an immutable slice: its state is the
    unread suffix.  Every read is named, as in the source, so that the decode
    errors are the source's. *)

From stdpp Require Import prelude strings list.
From Stdlib Require Import ZArith Lia Ascii.
From S2P Require Import Prelude.

(** * Results *)

Inductive result (E A : Type) :=
  | Ok (a : A)
  | Err (e : E).
Arguments Ok {E A} _.
Arguments Err {E A} _.

#[global] Instance result_ret E : MRet (result E) := λ _ a, Ok a.
#[global] Instance result_bind E : MBind (result E) := λ _ _ f r,
  match r with Ok a => f a | Err e => Err e end.
#[global] Instance result_fmap E : FMap (result E) := λ _ _ f r,
  match r with Ok a => Ok (f a) | Err e => Err e end.

Definition is_ok {E A} (r : result E A) : bool :=
  match r with Ok _ => true | Err _ => false end.
Definition is_err {E A} (r : result E A) : bool := negb (is_ok r).

Lemma Ok_inj {E A} (a b : A) : @Ok E A a = Ok b → a = b.
Proof. congruence. Qed.

Lemma Ok_pair_inj {E A B} (a a' : A) (b b' : B) : @Ok E _ (a, b) = Ok (a', b') → a = a' ∧ b = b'.
Proof. split; congruence. Qed.

Lemma result_bind_Ok {E A B} (r : result E A) (f : A → result E B) b :
  r ≫= f = Ok b ↔ ∃ a, r = Ok a ∧ f a = Ok b.
Proof. destruct r as [a|e]; simpl; split; [by eauto|by intros (?&[= <-]&?)|done|by intros (?&?&?)]. Qed.

(** * Errors *)

Inductive CodecError :=
  | Truncated (what : string)
  | Trailing (count : Z)
  | UnknownTag (what : string) (tag : Z)
  | BoundExceeded (what : string) (actual maximum : Z)
  | InvalidUtf8 (what : string)
  | InvalidValue (what reason : string).

#[global] Instance CodecError_eq_dec : EqDecision CodecError.
Proof. solve_decision. Defined.

(** * Big-endian integers *)

Fixpoint be_bytes (n : nat) (z : Z) : list u8 :=
  match n with
  | O => []
  | S n' => wrap_int U8 (z `div` 256 ^ Z.of_nat n') :: be_bytes n' z
  end.

Fixpoint be_value_from (acc : Z) (bs : list u8) : Z :=
  match bs with
  | [] => acc
  | b :: bs' => be_value_from (acc * 256 + ival b) bs'
  end.

Definition be_value (bs : list u8) : Z := be_value_from 0 bs.

(** [to_be_bytes] and [from_be_bytes] of an integer type. *)
Definition to_be_bytes {t} (a : int t) : list u8 := be_bytes (int_bytes t) a.
Definition from_be_bytes (t : int_ty) (bs : list u8) : int t := wrap_int t (be_value bs).

Lemma length_be_bytes n z : length (be_bytes n z) = n.
Proof. revert z; induction n; intros z; simpl; [done|]. by rewrite IHn. Qed.

Lemma length_to_be_bytes {t} (a : int t) : length (to_be_bytes a) = int_bytes t.
Proof. apply length_be_bytes. Qed.

Lemma wrap_u8 z : ival (wrap_int U8 z) = z `mod` 256.
Proof. unfold wrap_int; cbn [ival]. change (int_min U8) with 0. by rewrite Z.sub_0_r. Qed.

Lemma be_value_from_be_bytes n acc z :
  be_value_from acc (be_bytes n z) = acc * 256 ^ Z.of_nat n + z `mod` 256 ^ Z.of_nat n.
Proof.
  revert acc; induction n as [|n IH]; intros acc; cbn [be_bytes be_value_from].
  - rewrite Z.pow_0_r, Z.mod_1_r. lia.
  - rewrite IH, wrap_u8, Nat2Z.inj_succ, Z.pow_succ_r by lia.
    pose proof (Z.pow_pos_nonneg 256 (Z.of_nat n)) as Hpos.
    rewrite (Z.mul_comm 256 (256 ^ _)), Z.rem_mul_r by lia. ring.
Qed.

Lemma be_value_be_bytes n z : be_value (be_bytes n z) = z `mod` 256 ^ Z.of_nat n.
Proof. unfold be_value. by rewrite be_value_from_be_bytes. Qed.

Lemma int_modulus_256 t : 256 ^ Z.of_nat (int_bytes t) = int_modulus t.
Proof. by destruct t. Qed.

Lemma from_to_be_bytes {t} (a : int t) : from_be_bytes t (to_be_bytes a) = a.
Proof.
  apply int_eq. unfold from_be_bytes, to_be_bytes.
  rewrite be_value_be_bytes, int_modulus_256. unfold wrap_int; simpl.
  rewrite Zminus_mod_idemp_l. pose proof (ival_bounds a) as [Hlo Hhi]. unfold int_max in Hhi.
  rewrite Z.mod_small by lia. lia.
Qed.

#[global] Instance to_be_bytes_inj t : Inj (=) (=) (@to_be_bytes t).
Proof. intros a b H. by rewrite <-(from_to_be_bytes a), H, from_to_be_bytes. Qed.

Lemma to_be_bytes_app_inj {t} (a b : int t) xs ys :
  to_be_bytes a ++ xs = to_be_bytes b ++ ys → a = b ∧ xs = ys.
Proof.
  intros [?%(inj to_be_bytes) ?]%app_inj_1; [done|]. by rewrite !length_to_be_bytes.
Qed.

Lemma be_value_from_be n (bs : list u8) acc :
  length bs = n → be_bytes n (be_value_from acc bs) = bs.
Proof.
  revert acc bs; induction n as [|n IH]; intros acc [|b bs] Hlen; simplify_eq/=; [done|].
  assert (∀ acc (l : list u8), be_value_from acc l `div` 256 ^ Z.of_nat (length l) = acc) as Hdiv.
  { clear. intros acc l; revert acc; induction l as [|b l IH]; intros acc;
      cbn [be_value_from length].
    - by rewrite Z.pow_0_r, Z.div_1_r.
    - rewrite Nat2Z.inj_succ, Z.pow_succ_r, (Z.mul_comm 256 (256 ^ _)) by lia.
      rewrite <-Z.div_div, IH by lia. pose proof (ival_bounds b) as [Hlo Hhi].
      change (int_min U8) with 0 in Hlo. change (int_max U8) with 255 in Hhi.
      rewrite Z.add_comm, Z.div_add by lia. rewrite Z.div_small; lia. }
  f_equal; [|by apply IH].
  apply int_eq. rewrite wrap_u8, Hdiv. pose proof (ival_bounds b) as [Hlo Hhi].
  change (int_min U8) with 0 in Hlo. change (int_max U8) with 255 in Hhi.
  rewrite Z.add_comm, Z.mod_add by lia. rewrite Z.mod_small; lia.
Qed.

(** Reading back what was read: a decoded integer re-encodes to its bytes. *)
Lemma to_from_be_bytes t bs :
  length bs = int_bytes t → to_be_bytes (from_be_bytes t bs) = bs.
Proof.
  intros Hlen. unfold to_be_bytes, from_be_bytes, wrap_int; cbn [ival].
  assert (∀ z z', z `mod` int_modulus t = z' `mod` int_modulus t →
    be_bytes (int_bytes t) z = be_bytes (int_bytes t) z') as Hmod.
  { intros z z' Hz.
    rewrite <-(be_value_from_be (int_bytes t) (be_bytes (int_bytes t) z) 0)
      by apply length_be_bytes.
    rewrite <-(be_value_from_be (int_bytes t) (be_bytes (int_bytes t) z') 0)
      by apply length_be_bytes.
    by rewrite !be_value_from_be_bytes, int_modulus_256, Hz. }
  rewrite <-(be_value_from_be (int_bytes t) bs 0) at 2 by done. apply Hmod.
  rewrite Z.add_mod_idemp_r by (pose proof (int_modulus_pos t); lia).
  f_equal. unfold be_value. lia.
Qed.

(** Big-endian bytes of unsigned values sort as the values do, so a key that
    ends in a big-endian integer scans in numeric order. *)
Lemma be_bytes_le n z z' :
  0 <= z < 256 ^ Z.of_nat n → 0 <= z' < 256 ^ Z.of_nat n →
  bytes_le (be_bytes n z) (be_bytes n z') = bool_decide (z <= z').
Proof.
  assert (∀ n z z', bytes_le (be_bytes n z) (be_bytes n z') =
    bool_decide (z `mod` 256 ^ Z.of_nat n <= z' `mod` 256 ^ Z.of_nat n)) as Hmod.
  { clear. intros n z z'; induction n as [|n IH]; cbn [be_bytes bytes_le].
    { by rewrite Z.pow_0_r, !Z.mod_1_r. }
    rewrite IH, Nat2Z.inj_succ, Z.pow_succ_r, (Z.mul_comm 256 (256 ^ _)) by lia.
    pose proof (Z.pow_pos_nonneg 256 (Z.of_nat n)) as Hpos.
    rewrite !Z.rem_mul_r by lia.
    pose proof (Z.mod_pos_bound z (256 ^ Z.of_nat n)).
    pose proof (Z.mod_pos_bound z' (256 ^ Z.of_nat n)).
    destruct (decide (wrap_int U8 (z `div` 256 ^ Z.of_nat n) =
      wrap_int U8 (z' `div` 256 ^ Z.of_nat n))) as [Heq|Hne].
    - apply (f_equal ival) in Heq. rewrite !wrap_u8 in Heq. rewrite Heq.
      apply bool_decide_ext. lia.
    - apply int_neq in Hne. rewrite !wrap_u8 in Hne |- *.
      apply bool_decide_ext. nia. }
  intros Hz Hz'. by rewrite Hmod, !Z.mod_small.
Qed.

(** * Strings

    A Rust [String] is a byte string that is valid UTF-8.  Rocq's [string] is a
    sequence of 8-bit characters, so it is the byte string; validity is
    [utf8_valid]. *)

Definition as_bytes (s : string) : list u8 :=
  (λ a, wrap_int U8 (Z.of_N (N_of_ascii a))) <$> String.list_ascii_of_string s.

Definition string_of_bytes (bs : list u8) : string :=
  String.string_of_list_ascii ((λ b : u8, ascii_of_N (Z.to_N b)) <$> bs).

(** [str::len], in bytes. *)
Definition str_len (s : string) : Z := Z.of_nat (String.length s).

Definition in_span (lo hi : Z) (b : u8) : bool := (lo <=? ival b) && (ival b <=? hi).
Definition is_continuation (b : u8) : bool := in_span 128 191 b.

(** Well-formed UTF-8 byte sequences (Unicode table 3-7), what
    [String::from_utf8] accepts. *)
Fixpoint utf8_valid (bs : list u8) : bool :=
  match bs with
  | [] => true
  | b0 :: r0 =>
      if in_span 0 127 b0 then utf8_valid r0
      else match r0 with
      | [] => false
      | b1 :: r1 =>
          if in_span 194 223 b0 then is_continuation b1 && utf8_valid r1
          else match r1 with
          | [] => false
          | b2 :: r2 =>
              if in_span 224 239 b0 then
                in_span (if ival b0 =? 224 then 160 else 128)
                        (if ival b0 =? 237 then 159 else 191) b1 &&
                is_continuation b2 && utf8_valid r2
              else match r2 with
              | [] => false
              | b3 :: r3 =>
                  in_span 240 244 b0 &&
                  in_span (if ival b0 =? 240 then 144 else 128)
                          (if ival b0 =? 244 then 143 else 191) b1 &&
                  is_continuation b2 && is_continuation b3 && utf8_valid r3
              end
          end
      end
  end.

Definition valid_str (s : string) : Prop := utf8_valid (as_bytes s) = true.

(** [String::from_utf8] *)
Definition from_utf8 (bs : list u8) : option string :=
  if utf8_valid bs then Some (string_of_bytes bs) else None.

Lemma length_as_bytes s : Z.of_nat (length (as_bytes s)) = str_len s.
Proof.
  unfold as_bytes, str_len. rewrite length_fmap. f_equal.
  induction s; simpl; [done|]. by f_equal.
Qed.

Lemma string_of_as_bytes s : string_of_bytes (as_bytes s) = s.
Proof.
  unfold string_of_bytes, as_bytes. rewrite <-list_fmap_compose.
  rewrite <-(String.string_of_list_ascii_of_string s) at 2. f_equal.
  induction (String.list_ascii_of_string s) as [|a l IH]; simpl; [done|]. f_equal; [|done].
  clear. by destruct a as [[] [] [] [] [] [] [] []].
Qed.

Lemma as_string_of_bytes bs : as_bytes (string_of_bytes bs) = bs.
Proof.
  unfold string_of_bytes, as_bytes. rewrite String.list_ascii_of_string_of_list_ascii.
  rewrite <-list_fmap_compose. induction bs as [|b bs IH]; simpl; [done|].
  f_equal; [|done]. clear. apply int_eq. rewrite wrap_u8.
  pose proof (ival_bounds b) as [Hlo Hhi].
  change (int_min U8) with 0 in Hlo. change (int_max U8) with 255 in Hhi.
  rewrite N_ascii_embedding by lia. rewrite Z2N.id by lia. apply Z.mod_small. lia.
Qed.

#[global] Instance as_bytes_inj : Inj (=) (=) as_bytes.
Proof. intros a b H. by rewrite <-(string_of_as_bytes a), H, string_of_as_bytes. Qed.

Lemma from_utf8_as_bytes s : valid_str s → from_utf8 (as_bytes s) = Some s.
Proof. intros H. unfold from_utf8. by rewrite H, string_of_as_bytes. Qed.

Lemma from_utf8_Some bs s : from_utf8 bs = Some s → as_bytes s = bs ∧ valid_str s.
Proof.
  unfold from_utf8, valid_str. destruct (utf8_valid bs) eqn:H; [|done].
  intros [= <-]. by rewrite as_string_of_bytes.
Qed.

(** * Writers *)

Abbreviation Uuid := (int U128).
Abbreviation bytes32 := (int U256).

Definition Uuid_nil : Uuid := zero.
Definition Uuid_max : Uuid := wrap_int U128 (2 ^ 128 - 1).
Definition is_nil (u : Uuid) : bool := bool_decide (u = Uuid_nil).
Definition Uuid_from_u128 (z : Z) : Uuid := wrap_int U128 z.

Definition put_u8 (value : u8) : list u8 := to_be_bytes value.
Definition put_u16 (value : u16) : list u8 := to_be_bytes value.
Definition put_u32 (value : u32) : list u8 := to_be_bytes value.
Definition put_u64 (value : u64) : list u8 := to_be_bytes value.
Definition put_i64 (value : i64) : list u8 := to_be_bytes value.
Definition put_uuid (value : Uuid) : list u8 := to_be_bytes value.
Definition put_bytes32 (value : bytes32) : list u8 := to_be_bytes value.

Definition put_bounded_str (value : string) (maximum : Z) (what : string)
    : result CodecError (list u8) :=
  if decide (str_len value > maximum) then Err (BoundExceeded what (str_len value) maximum)
  else Ok (put_u16 (wrap_int U16 (str_len value)) ++ as_bytes value).

(** * Reader *)

Definition Reader (A : Type) : Type := list u8 → result CodecError (A * list u8).

#[global] Instance reader_ret : MRet Reader := λ _ a bs, Ok (a, bs).
#[global] Instance reader_bind : MBind Reader := λ _ _ f c bs,
  match c bs with Ok (a, rest) => f a rest | Err e => Err e end.

Definition fail_with {A} (e : CodecError) : Reader A := λ _, Err e.
Definition remaining : Reader Z := λ bs, Ok (Z.of_nat (length bs), bs).

Definition read_take (count : nat) (what : string) : Reader (list u8) := λ bs,
  if decide (length bs < count)%nat then Err (Truncated what)
  else Ok (take count bs, drop count bs).

Definition read_int (t : int_ty) (what : string) : Reader (int t) :=
  bs ← read_take (int_bytes t) what; mret (from_be_bytes t bs).

Definition read_u8 : string → Reader u8 := read_int U8.
Definition read_u16 : string → Reader u16 := read_int U16.
Definition read_u32 : string → Reader u32 := read_int U32.
Definition read_u64 : string → Reader u64 := read_int U64.
Definition read_i64 : string → Reader i64 := read_int I64.
Definition read_uuid : string → Reader Uuid := read_int U128.
Definition read_bytes32 : string → Reader bytes32 := read_int U256.

(** A strict boolean: any byte other than 0 or 1 is rejected. *)
Definition read_flag (what : string) : Reader bool :=
  b ← read_u8 what;
  if decide (ival b = 0) then mret false
  else if decide (ival b = 1) then mret true
  else fail_with (InvalidValue what "flag byte must be 0 or 1").

Definition read_utf8 (bytes : list u8) (what : string) : Reader string :=
  match from_utf8 bytes with
  | Some s => mret s
  | None => fail_with (InvalidUtf8 what)
  end.

Definition read_bounded_str (maximum : Z) (what : string) : Reader string :=
  len ← read_u16 what;
  if decide (ival len > maximum) then fail_with (BoundExceeded what (ival len) maximum)
  else bytes ← read_take (Z.to_nat len) what; read_utf8 bytes what.

(** Reject trailing bytes; every top-level decode ends with this. *)
Definition read_finish : Reader unit := λ bs,
  if decide (length bs = 0%nat) then Ok (tt, bs)
  else Err (Trailing (Z.of_nat (length bs))).

(** Run a reader over a whole slice. *)
Definition run_reader {A} (c : Reader A) (bs : list u8) : result CodecError A :=
  fst <$> (a ← c; _ ← read_finish; mret a) bs.

(** * Reader laws

    Forward: reading what a writer appended gives the value and the rest.
    Backward: a successful read accounts for exactly the bytes it consumed. *)

Lemma reader_bind_Ok {A B} (c : Reader A) (f : A → Reader B) bs b rest :
  (c ≫= f) bs = Ok (b, rest) ↔ ∃ a mid, c bs = Ok (a, mid) ∧ f a mid = Ok (b, rest).
Proof.
  unfold mbind, reader_bind. destruct (c bs) as [[a mid]|e]; split;
    [by eauto|by intros (?&?&[= <- <-]&?)|done|by intros (?&?&?&?)].
Qed.

Lemma reader_bind_next {A B} (c : Reader A) (f : A → Reader B) bs a mid :
  c bs = Ok (a, mid) → (c ≫= f) bs = f a mid.
Proof. intros H. unfold mbind, reader_bind. by rewrite H. Qed.

Lemma reader_ret_Ok {A} (a b : A) bs rest :
  (mret a : Reader A) bs = Ok (b, rest) ↔ a = b ∧ bs = rest.
Proof. unfold mret, reader_ret. split; [by intros [= -> ->]|by intros [-> ->]]. Qed.

Lemma read_take_app n what xs rest :
  length xs = n → read_take n what (xs ++ rest) = Ok (xs, rest).
Proof.
  intros <-. unfold read_take. rewrite decide_False by (rewrite length_app; lia).
  by rewrite take_app_length, drop_app_length.
Qed.

Lemma read_take_Ok n what bs xs rest :
  read_take n what bs = Ok (xs, rest) → bs = xs ++ rest ∧ length xs = n.
Proof.
  unfold read_take. case_decide; [done|]. intros [= <- <-].
  rewrite take_drop, length_take. split; [done|lia].
Qed.

Lemma read_int_app {t} (a : int t) what rest :
  read_int t what (to_be_bytes a ++ rest) = Ok (a, rest).
Proof.
  unfold read_int. erewrite reader_bind_next by (apply read_take_app, length_to_be_bytes).
  by rewrite from_to_be_bytes.
Qed.

Lemma read_int_Ok {t} what bs (a : int t) rest :
  read_int t what bs = Ok (a, rest) → bs = to_be_bytes a ++ rest.
Proof.
  unfold read_int. rewrite reader_bind_Ok.
  intros (xs & mid & [-> Hlen]%read_take_Ok & [<- <-]%reader_ret_Ok).
  by rewrite to_from_be_bytes.
Qed.

Lemma read_bounded_str_app s maximum what out rest :
  valid_str s → maximum <= 65535 → put_bounded_str s maximum what = Ok out →
  read_bounded_str maximum what (out ++ rest) = Ok (s, rest).
Proof.
  intros Hs Hmax. unfold put_bounded_str, read_bounded_str. case_decide; [done|].
  assert (ival (wrap_int U16 (str_len s)) = str_len s) as Hlen.
  { apply wrap_int_small. change (int_min U16) with 0. change (int_max U16) with 65535.
    unfold str_len in *. lia. }
  intros <-%Ok_inj. rewrite <-app_assoc. unfold put_u16, read_u16.
  rewrite (reader_bind_next _ _ _ _ _ (read_int_app _ _ _)), Hlen, decide_False by lia.
  erewrite reader_bind_next by (apply read_take_app; rewrite <-length_as_bytes; lia).
  unfold read_utf8. by rewrite from_utf8_as_bytes.
Qed.

Lemma read_bounded_str_Ok s maximum what bs rest :
  read_bounded_str maximum what bs = Ok (s, rest) →
  ∃ out, put_bounded_str s maximum what = Ok out ∧ bs = out ++ rest ∧ valid_str s.
Proof.
  unfold read_bounded_str. rewrite reader_bind_Ok.
  intros (len & mid & ->%read_int_Ok & H). case_decide as Hlen; [done|].
  apply reader_bind_Ok in H as (bytes & mid' & [-> Hbytes]%read_take_Ok & H).
  unfold read_utf8 in H. destruct (from_utf8 bytes) as [s'|] eqn:Hs; [|done].
  apply reader_ret_Ok in H as [-> ->]. apply from_utf8_Some in Hs as [<- Hs].
  assert (str_len s = ival len) as Hs'.
  { rewrite <-length_as_bytes, Hbytes. pose proof (ival_bounds len) as [? _].
    change (int_min U16) with 0 in *. lia. }
  unfold put_bounded_str. rewrite decide_False by lia. eexists; split_and!; [done| |done].
  by rewrite Hs', wrap_int_ival, <-app_assoc.
Qed.

Lemma run_reader_Ok {A} (c : Reader A) bs a :
  run_reader c bs = Ok a ↔ c bs = Ok (a, []).
Proof.
  unfold run_reader. split.
  - destruct ((a0 ← c; _ ← read_finish; mret a0) bs) as [[a' rest]|e] eqn:H; [|done].
    intros [= ->]. apply reader_bind_Ok in H as (a' & mid & Hc & H).
    apply reader_bind_Ok in H as ([] & mid' & Hf & [-> ->]%reader_ret_Ok).
    unfold read_finish in Hf. case_decide as Hl; [|done]. simplify_eq.
    by apply nil_length_inv in Hl as ->.
  - intros H. erewrite reader_bind_next by done. done.
Qed.

Lemma read_int_whole {t} (a : int t) what : read_int t what (to_be_bytes a) = Ok (a, []).
Proof. rewrite <-(app_nil_r (to_be_bytes a)). apply read_int_app. Qed.

#[global] Arguments to_be_bytes : simpl never.
#[global] Arguments read_int : simpl never.

(** [read_step] runs one read of the goal's reader on bytes a writer produced;
    [read_inv H] turns a successful run into the facts about each read. *)
Ltac codec_unfold :=
  unfold put_u8, put_u16, put_u32, put_u64, put_i64, put_uuid, put_bytes32,
    read_u8, read_u16, read_u32, read_u64, read_i64, read_uuid, read_bytes32 in *.

Ltac read_step :=
  first
    [ erewrite reader_bind_next by (apply read_int_app)
    | erewrite reader_bind_next by (apply read_int_whole) ].

Ltac read_inv H :=
  lazymatch type of H with
  | (_ ≫= _) _ = Ok _ =>
      let a := fresh "a" in let mid := fresh "mid" in let Hr := fresh "Hr" in
      apply reader_bind_Ok in H as (a & mid & Hr & H); read_inv Hr; read_inv H
  | read_int _ _ _ = Ok _ => apply read_int_Ok in H
  | mret _ _ = Ok _ => apply reader_ret_Ok in H as [? ?]; simplify_eq
  | fail_with _ _ = Ok _ => discriminate H
  | _ => idtac
  end.
