(* ===== verification/Codec.v ===== *)
(** Composing codecs: the writers of [command.rs] and [state.rs] append field after
    field and stop at the first field that does not fit, their readers read the
    fields back in the same order.

    [Codec write read ok] states what one field's pair promises to a record that
    contains it: [read] inverts [write] on the values that satisfy [ok], and
    accepts nothing but what [write] produces from such a value. *)

From stdpp Require Import prelude strings list.
From Stdlib Require Import ZArith Lia.
From S2P Require Import Prelude Wire.

(** * Writers *)

(** The bytes appended by a fallible [encode] function. *)
Abbreviation Writer := (result CodecError (list u8)).

(** A sequence of [put_*(&mut out, ...)?] statements. *)
Fixpoint writes (ws : list Writer) : Writer :=
  match ws with
  | [] => Ok []
  | w :: ws => out ← w; rest ← writes ws; Ok (out ++ rest)
  end.

Lemma writes_cons w ws out rest :
  w = Ok out → writes ws = Ok rest → writes (w :: ws) = Ok (out ++ rest).
Proof. intros -> H. simpl. by rewrite H. Qed.

Lemma writes_inv w ws bs :
  writes (w :: ws) = Ok bs → ∃ out rest, w = Ok out ∧ writes ws = Ok rest ∧ bs = out ++ rest.
Proof.
  simpl. destruct w as [out|]; simpl; [|done]. destruct (writes ws) as [rest|]; simpl; [|done].
  intros <-%Ok_inj. eauto.
Qed.

Lemma writes_nil bs : writes [] = Ok bs → bs = [].
Proof. by intros <-%Ok_inj. Qed.

(** A record is written when each of its fields is. *)
Definition written (w : Writer) : Prop := ∃ out, w = Ok out.

Lemma written_Ok out : written (Ok out).
Proof. by exists out. Qed.

Lemma writes_written ws : Forall written ws → written (writes ws).
Proof.
  induction 1 as [|w ws [out ->] _ [rest IH]]; [by exists []|].
  exists (out ++ rest). by apply writes_cons.
Qed.

(** * The interface of a field *)

Class Codec {A} (write : A → Writer) (read : Reader A) (ok : A → Prop) : Prop := {
  codec_read a out rest : ok a → write a = Ok out → read (out ++ rest) = Ok (a, rest);
  codec_written bs a rest :
    read bs = Ok (a, rest) → ∃ out, write a = Ok out ∧ bs = out ++ rest ∧ ok a;
}.
#[global] Hint Mode Codec ! - ! - : typeclass_instances.

Definition always {A} (_ : A) : Prop := True.

#[global] Instance codec_int t what :
  Codec (λ a : int t, Ok (to_be_bytes a)) (read_int t what) always.
Proof.
  split.
  - intros a out rest _ <-%Ok_inj. apply read_int_app.
  - intros bs a rest ->%read_int_Ok. by eexists.
Qed.

#[global] Instance codec_u8 what : Codec (λ a, Ok (put_u8 a)) (read_u8 what) always :=
  codec_int U8 what.
#[global] Instance codec_u16 what : Codec (λ a, Ok (put_u16 a)) (read_u16 what) always :=
  codec_int U16 what.
#[global] Instance codec_u32 what : Codec (λ a, Ok (put_u32 a)) (read_u32 what) always :=
  codec_int U32 what.
#[global] Instance codec_u64 what : Codec (λ a, Ok (put_u64 a)) (read_u64 what) always :=
  codec_int U64 what.
#[global] Instance codec_i64 what : Codec (λ a, Ok (put_i64 a)) (read_i64 what) always :=
  codec_int I64 what.
#[global] Instance codec_uuid what : Codec (λ a, Ok (put_uuid a)) (read_uuid what) always :=
  codec_int U128 what.
#[global] Instance codec_bytes32 what :
  Codec (λ a, Ok (put_bytes32 a)) (read_bytes32 what) always :=
  codec_int U256 what.

(** [u8::from(flag)] *)
Definition put_flag (b : bool) : list u8 := put_u8 (wrap_int U8 (if b then 1 else 0)).

Lemma flag_byte z : 0 <= z < 2 → ival (wrap_int U8 z) = z.
Proof. intros. apply wrap_int_small. unfold int_max, int_min, int_modulus; simpl. lia. Qed.

#[global] Instance codec_flag what : Codec (λ b, Ok (put_flag b)) (read_flag what) always.
Proof.
  split.
  - intros b out rest _ <-%Ok_inj. unfold read_flag, put_flag, read_u8, put_u8.
    rewrite (reader_bind_next _ _ _ _ _ (read_int_app _ _ _)).
    by destruct b; rewrite flag_byte by lia.
  - intros bs b rest. unfold read_flag, read_u8. rewrite reader_bind_Ok.
    intros (x & mid & ->%read_int_Ok & H). unfold put_flag, put_u8.
    rewrite <-(wrap_int_ival x).
    case_decide as H0; [|case_decide as H1; [|done]]; [rewrite H0|rewrite H1];
      apply reader_ret_Ok in H as [<- ->]; by eexists.
Qed.

(** A string field of at most [maximum] bytes.  The bound is a u16's, as every
    bound in the sources is. *)
Class FitsU16 (maximum : Z) : Prop := fits_u16 : maximum <= 65535.

#[global] Instance codec_str maximum what :
  FitsU16 maximum →
  Codec (λ s, put_bounded_str s maximum what) (read_bounded_str maximum what) valid_str.
Proof.
  intros Hmax. split.
  - intros s out rest Hs. by apply read_bounded_str_app.
  - intros bs s rest (out & Hw & -> & Hs)%read_bounded_str_Ok. eauto.
Qed.

(** A tag byte read as a value of an enum. *)
Section tagged.
Context {A : Type} (wire_tag : A → u8) (from_wire : u8 → result CodecError A).

Definition read_tagged (what : string) : Reader A :=
  tag ← read_u8 what; match from_wire tag with Ok a => mret a | Err e => fail_with e end.

Class WireTag : Prop := wire_tag_spec tag a : from_wire tag = Ok a ↔ tag = wire_tag a.

#[global] Instance codec_tagged what :
  WireTag → Codec (λ a, Ok (put_u8 (wire_tag a))) (read_tagged what) always.
Proof.
  intros Htag. split.
  - intros a out rest _ <-%Ok_inj. unfold read_tagged, read_u8, put_u8.
    rewrite (reader_bind_next _ _ _ _ _ (read_int_app _ _ _)).
    by rewrite (proj2 (Htag (wire_tag a) a) eq_refl).
  - intros bs a rest. unfold read_tagged, read_u8. rewrite reader_bind_Ok.
    intros (tag & mid & ->%read_int_Ok & H).
    destruct (from_wire tag) as [a'|] eqn:Ha; [|done].
    apply reader_ret_Ok in H as [-> ->]. apply Htag in Ha as ->. by eexists.
Qed.
End tagged.

(** A presence byte followed by the value when there is one. *)
Section optional.
Context {A : Type} (write : A → Writer) (read : Reader A) (ok : A → Prop).

Definition write_optional (value : option A) : Writer :=
  match value with
  | None => Ok (put_flag false)
  | Some a => writes [Ok (put_flag true); write a]
  end.

Definition read_optional (what : string) : Reader (option A) :=
  present ← read_flag what;
  if (present : bool) then a ← read; mret (Some a) else mret None.

#[global] Instance codec_optional what :
  Codec write read ok → Codec write_optional (read_optional what) (from_option ok True).
Proof.
  intros Hc. split.
  - intros [a|] out rest Hok Hw; unfold write_optional in Hw.
    + apply writes_inv in Hw as (o1 & o2 & <-%Ok_inj & (o3 & o4 & Hw & <-%Ok_inj & ->)%writes_inv
        & ->).
      rewrite app_nil_r, <-app_assoc. unfold read_optional.
      erewrite reader_bind_next by by apply (codec_read (read:=read_flag what)). simpl.
      erewrite reader_bind_next by by eapply codec_read. done.
    + apply Ok_inj in Hw as <-. unfold read_optional.
      by erewrite reader_bind_next by by apply (codec_read (read:=read_flag what)).
  - intros bs o rest. unfold read_optional. rewrite reader_bind_Ok.
    intros (present & mid & (o1 & <-%Ok_inj & -> & _)%codec_written & H).
    destruct present.
    + apply reader_bind_Ok in H as (a & mid' & (o2 & Hw & -> & Hok)%codec_written & H).
      apply reader_ret_Ok in H as [<- ->]. exists (put_flag true ++ o2 ++ []).
      split_and!; [by repeat apply writes_cons|by rewrite app_nil_r, app_assoc|done].
    + apply reader_ret_Ok in H as [<- ->]. by eexists.
Qed.
End optional.

(** * Counted lists *)

Fixpoint read_many {A} (read : Reader A) (count : nat) : Reader (list A) :=
  match count with
  | O => mret []
  | S count => a ← read; rest ← read_many read count; mret (a :: rest)
  end.

(** A u16 count of at most [maximum], then the elements. *)
Definition write_counted {A} (write : A → Writer) (maximum : Z) (what : string) (l : list A)
    : Writer :=
  let len := Z.of_nat (length l) in
  if decide (len > maximum) then Err (BoundExceeded what len maximum)
  else writes (Ok (put_u16 (wrap_int U16 len)) :: (write <$> l)).

Definition read_counted {A} (read : Reader A) (maximum : Z) (count_what what : string)
    : Reader (list A) :=
  count ← read_u16 count_what;
  if decide (ival count > maximum) then fail_with (BoundExceeded what (ival count) maximum)
  else read_many read (Z.to_nat (ival count)).

Lemma write_counted_written {A} (write : A → Writer) maximum what l :
  Z.of_nat (length l) <= maximum → (∀ a, written (write a)) →
  written (write_counted write maximum what l).
Proof.
  intros Hlen Hw. unfold write_counted. rewrite decide_False by lia. apply writes_written.
  constructor; [apply written_Ok|]. apply Forall_fmap, Forall_true. intros a. apply Hw.
Qed.

Lemma write_counted_length {A} (write : A → Writer) maximum what l out :
  write_counted write maximum what l = Ok out → Z.of_nat (length l) <= maximum.
Proof. unfold write_counted. case_decide; [done|lia]. Qed.

Section counted.
Context {A : Type} (write : A → Writer) (read : Reader A) (ok : A → Prop).
Context `{!Codec write read ok}.

Lemma read_many_app l out rest :
  Forall ok l → writes (write <$> l) = Ok out →
  read_many read (length l) (out ++ rest) = Ok (l, rest).
Proof.
  intros Hl. revert out. induction Hl as [|a l Ha Hl IH]; intros out Hw.
  { by apply writes_nil in Hw as ->. }
  apply writes_inv in Hw as (o1 & o2 & Hw1 & Hw2 & ->). rewrite <-app_assoc. simpl.
  erewrite reader_bind_next by by eapply codec_read.
  by erewrite reader_bind_next by by apply IH.
Qed.

Lemma read_many_Ok n bs l rest :
  read_many read n bs = Ok (l, rest) →
  length l = n ∧ Forall ok l ∧ ∃ out, writes (write <$> l) = Ok out ∧ bs = out ++ rest.
Proof.
  revert bs l rest. induction n as [|n IH]; intros bs l rest; simpl.
  { intros [<- ->]%reader_ret_Ok. split_and!; [done|done|by exists []]. }
  rewrite reader_bind_Ok. intros (a & mid & (o1 & Hw1 & -> & Ha)%codec_written & H).
  apply reader_bind_Ok in H as (l' & mid' & (Hlen & Hl & o2 & Hw2 & ->)%IH & H).
  apply reader_ret_Ok in H as [<- ->]. split_and!; [by simpl; f_equal|by constructor|].
  exists (o1 ++ o2). split; [by apply writes_cons|by rewrite app_assoc].
Qed.

#[global] Instance codec_counted maximum count_what what :
  FitsU16 maximum →
  Codec (write_counted write maximum what) (read_counted read maximum count_what what)
    (Forall ok).
Proof.
  intros Hmax. unfold FitsU16 in Hmax. split.
  - intros l out rest Hl. unfold write_counted, read_counted. case_decide as Hlen; [done|].
    intros (o1 & o2 & <-%Ok_inj & Hw & ->)%writes_inv. rewrite <-app_assoc.
    unfold read_u16, put_u16. rewrite (reader_bind_next _ _ _ _ _ (read_int_app _ _ _)).
    rewrite wrap_int_small by (unfold int_max, int_min, int_modulus; simpl; lia).
    rewrite decide_False, Nat2Z.id by done. by apply read_many_app.
  - intros bs l rest. unfold write_counted, read_counted, read_u16. rewrite reader_bind_Ok.
    intros (count & mid & ->%read_int_Ok & H). case_decide as Hc; [done|].
    apply read_many_Ok in H as (Hlen & Hl & out & Hw & ->).
    assert (Z.of_nat (length l) = ival count) as Hcount.
    { pose proof (ival_bounds count) as [Hlo _]. change (int_min U16) with 0 in Hlo. lia. }
    rewrite Hcount, decide_False by done. eexists. split_and!; [|by rewrite app_assoc|done].
    apply writes_cons; [|done]. by rewrite wrap_int_ival.
Qed.
End counted.

(** * Records of fields *)

Lemma always_intro {A} (a : A) : always a.
Proof. exact I. Qed.
Lemma Forall_always {A} (l : list A) : Forall always l.
Proof. by induction l; constructor. Qed.
Lemma option_always {A} (o : option A) : from_option always True o.
Proof. by destruct o. Qed.

Create HintDb codec discriminated.
#[global] Hint Resolve always_intro Forall_always option_always : codec.
#[global] Hint Resolve written_Ok writes_written write_counted_written : codec.
#[global] Hint Constructors Forall : codec.
#[global] Hint Extern 0 (FitsU16 _) => (vm_compute; discriminate) : typeclass_instances.

(** [if condition { return Err(CodecError::InvalidValue { what, reason }) }] *)
Definition reject_value (P : Prop) `{!Decision P} (what reason : string) : Reader unit :=
  if decide P then fail_with (InvalidValue what reason) else mret tt.

Lemma reject_value_next {A} P `{!Decision P} what reason (k : unit → Reader A) bs :
  ¬ P → (reject_value P what reason ≫= k) bs = k tt bs.
Proof. intros HP. unfold reject_value. by rewrite decide_False. Qed.

Lemma reject_value_Ok {A} P `{!Decision P} what reason (k : unit → Reader A) bs r :
  (reject_value P what reason ≫= k) bs = Ok r → ¬ P ∧ k tt bs = Ok r.
Proof. unfold reject_value. by case_decide. Qed.

Ltac head_of t := lazymatch t with ?f _ => head_of f | _ => t end.

(** Reduce [written (write_x ...)] to its fields. *)
Ltac write_goals :=
  repeat match goal with
  | |- written (writes _) => apply writes_written
  | |- Forall written _ => constructor
  | |- written (Ok _) => apply written_Ok
  end.

(** Split the bytes of a written record into those of its fields. *)
Ltac write_inv :=
  repeat match goal with
  | H : writes (_ :: _) = Ok _ |- _ => apply writes_inv in H as (? & ? & ? & H & ->)
  | H : writes [] = Ok _ |- _ => apply writes_nil in H as ->
  | H : Ok _ = Ok _ |- _ => apply Ok_inj in H; first [subst | fail 1]
  end.

Lemma codec_next {A B} write read ok (k : A → Reader B) a out rest :
  Codec write read ok → write a = Ok out → ok a → (read ≫= k) (out ++ rest) = k a rest.
Proof. intros. by erewrite reader_bind_next by by eapply codec_read. Qed.

Lemma reader_assoc {A B C} (c : Reader A) (f : A → Reader B) (g : B → Reader C) bs :
  ((c ≫= f) ≫= g) bs = (c ≫= λ a, f a ≫= g) bs.
Proof. unfold mbind, reader_bind. by destruct (c bs) as [[]|]. Qed.

Lemma reader_ret_bind {A B} (a : A) (k : A → Reader B) bs : (mret a ≫= k) bs = k a bs.
Proof. done. Qed.

(** Read one field of a written record. *)
Ltac read_field :=
  rewrite ?reader_assoc, <-?app_assoc;
  first
    [ rewrite reader_ret_bind
    | erewrite codec_next;
        [|apply _|cbv beta; first [eassumption|reflexivity]|by auto with codec]
    | rewrite reject_value_next ].

Lemma codec_bind_Ok {A B} write read ok (k : A → Reader B) bs r :
  (read ≫= k) bs = Ok r → Codec write read ok →
  ∃ a out mid, write a = Ok out ∧ bs = out ++ mid ∧ ok a ∧ k a mid = Ok r.
Proof.
  destruct r as [b rest]. rewrite reader_bind_Ok.
  intros (a & mid & Hr & Hk) Hc. apply codec_written in Hr as (out & Hw & -> & Hok). naive_solver.
Qed.

(** Account for the fields of a successful read. *)
Ltac read_fields_inv H :=
  repeat match type of H with
  | (reject_value _ _ _ ≫= _) _ = Ok _ =>
      let Hv := fresh "Hv" in apply reject_value_Ok in H as [Hv H]
  | ((_ ≫= _) ≫= _) _ = Ok _ => rewrite reader_assoc in H
  | (mret _ ≫= _) _ = Ok _ => rewrite reader_ret_bind in H
  | (_ ≫= _) _ = Ok _ =>
      let Hw := fresh "Hw" in let Hok := fresh "Hok" in
      eapply codec_bind_Ok in H; [|apply _];
      destruct H as (? & ? & ? & Hw & -> & Hok & H)
  | mret _ _ = Ok _ => apply reader_ret_Ok in H as [<- ->]
  end.

(** Write a record from its fields. *)
Ltac write_fields := repeat (apply writes_cons; [first [eassumption|reflexivity]|]).
