(* ===== verification/Keys.v ===== *)
(** Typed metadata keys and their canonical binary form:
    [crates/vtop-meta/src/keys.rs].

    Every record lives under an encoded key — shard, category byte, then
    fixed-width ids — and the encoded bytes are the only order that matters.
    The codec is a bijection between the well-formed keys and the byte strings
    [decode] accepts ([decode_encode], [encode_decode]), so distinct keys never
    share a record ([encode_inj]) and every record scan can recover the key. *)

From stdpp Require Import prelude strings list.
From Stdlib Require Import ZArith Lia.
From S2P Require Import Prelude Wire.

Definition META_SHARD_ID : u16 := zero.
Definition MAX_TOPIC_NAME_BYTES : Z := 249.
Definition MAX_GROUP_NAME_BYTES : Z := MAX_TOPIC_NAME_BYTES.

Module MetaKey.

Inductive t :=
  | ClusterConfig
  | Node (node_uuid : Uuid)
  | TopicByName (name : string)
  | Topic (topic_uuid : Uuid)
  | Range (topic_uuid range_uuid : Uuid)
  | Segment (topic_uuid range_uuid segment_uuid : Uuid)
  | Key (key_uuid : Uuid)
  | Request (request_id : Uuid)
  | Group (group_uuid : Uuid)
  | GroupByName (name : string)
  | GroupMember (group_uuid member_uuid : Uuid)
  | GroupCursor (group_uuid topic_uuid range_uuid : Uuid)
  | SegmentPlacement (topic_uuid range_uuid segment_uuid : Uuid)
  | SegmentReplacementProof (topic_uuid range_uuid segment_uuid : Uuid)
  | SegmentRebalanceIntent (topic_uuid range_uuid segment_uuid : Uuid)
  | SegmentTierCopy (topic_uuid range_uuid segment_uuid : Uuid)
  | TopicRetentionPolicy (topic_uuid : Uuid)
  | RangeTransition (topic_uuid range_uuid : Uuid) (fencing_epoch : u64)
  | LineageTransition (topic_uuid transition_id : Uuid)
  | RangeReplicaSet (topic_uuid range_uuid : Uuid).

#[global] Instance t_eq_dec : EqDecision t.
Proof. solve_decision. Defined.

Definition category (k : t) : u8 :=
  wrap_int U8 match k with
  | ClusterConfig => 1
  | Node _ => 2
  | TopicByName _ => 3
  | Topic _ => 4
  | Range _ _ => 5
  | Segment _ _ _ => 6
  | Key _ => 7
  | Request _ => 8
  | Group _ => 9
  | GroupByName _ => 10
  | GroupMember _ _ => 11
  | GroupCursor _ _ _ => 12
  | SegmentPlacement _ _ _ => 13
  | SegmentReplacementProof _ _ _ => 14
  | SegmentRebalanceIntent _ _ _ => 15
  | SegmentTierCopy _ _ _ => 16
  | TopicRetentionPolicy _ => 17
  | RangeTransition _ _ _ => 18
  | LineageTransition _ _ => 19
  | RangeReplicaSet _ _ => 20
  end.

Definition body (k : t) : list u8 :=
  match k with
  | ClusterConfig => []
  | Node node_uuid => put_uuid node_uuid
  | TopicByName name => as_bytes name
  | Topic topic_uuid => put_uuid topic_uuid
  | Range topic_uuid range_uuid => put_uuid topic_uuid ++ put_uuid range_uuid
  | Segment topic_uuid range_uuid segment_uuid
  | SegmentPlacement topic_uuid range_uuid segment_uuid
  | SegmentReplacementProof topic_uuid range_uuid segment_uuid
  | SegmentRebalanceIntent topic_uuid range_uuid segment_uuid
  | SegmentTierCopy topic_uuid range_uuid segment_uuid =>
      put_uuid topic_uuid ++ put_uuid range_uuid ++ put_uuid segment_uuid
  | Key key_uuid => put_uuid key_uuid
  | Request request_id => put_uuid request_id
  | Group group_uuid => put_uuid group_uuid
  | GroupByName name => as_bytes name
  | GroupMember group_uuid member_uuid => put_uuid group_uuid ++ put_uuid member_uuid
  | GroupCursor group_uuid topic_uuid range_uuid =>
      put_uuid group_uuid ++ put_uuid topic_uuid ++ put_uuid range_uuid
  | TopicRetentionPolicy topic_uuid => put_uuid topic_uuid
  | RangeTransition topic_uuid range_uuid fencing_epoch =>
      put_uuid topic_uuid ++ put_uuid range_uuid ++ put_u64 fencing_epoch
  | LineageTransition topic_uuid transition_id =>
      put_uuid topic_uuid ++ put_uuid transition_id
  | RangeReplicaSet topic_uuid range_uuid => put_uuid topic_uuid ++ put_uuid range_uuid
  end.

Definition encode (k : t) : list u8 :=
  put_u16 META_SHARD_ID ++ put_u8 (category k) ++ body k.

(** A name key carries the rest of the slice, bounded and valid UTF-8. *)
Definition read_name (maximum : Z) (what : string) : Reader string :=
  raw ← remaining;
  if decide (raw = 0 ∨ raw > maximum) then fail_with (BoundExceeded what raw maximum)
  else bytes ← read_take (Z.to_nat raw) what; read_utf8 bytes what.

Definition read_segment_ids (mk : Uuid → Uuid → Uuid → t) : Reader t :=
  topic_uuid ← read_uuid "topic uuid";
  range_uuid ← read_uuid "range uuid";
  segment_uuid ← read_uuid "segment uuid";
  mret (mk topic_uuid range_uuid segment_uuid).

Definition decode_body (category : u8) : Reader t :=
  match ival category with
  | 1 => mret ClusterConfig
  | 2 => node_uuid ← read_uuid "node uuid"; mret (Node node_uuid)
  | 3 => name ← read_name MAX_TOPIC_NAME_BYTES "topic name"; mret (TopicByName name)
  | 4 => topic_uuid ← read_uuid "topic uuid"; mret (Topic topic_uuid)
  | 5 =>
      topic_uuid ← read_uuid "topic uuid";
      range_uuid ← read_uuid "range uuid";
      mret (Range topic_uuid range_uuid)
  | 6 => read_segment_ids Segment
  | 7 => key_uuid ← read_uuid "key uuid"; mret (Key key_uuid)
  | 8 => request_id ← read_uuid "request id"; mret (Request request_id)
  | 9 => group_uuid ← read_uuid "group uuid"; mret (Group group_uuid)
  | 10 => name ← read_name MAX_GROUP_NAME_BYTES "group name"; mret (GroupByName name)
  | 11 =>
      group_uuid ← read_uuid "group uuid";
      member_uuid ← read_uuid "member uuid";
      mret (GroupMember group_uuid member_uuid)
  | 12 =>
      group_uuid ← read_uuid "group uuid";
      topic_uuid ← read_uuid "topic uuid";
      range_uuid ← read_uuid "range uuid";
      mret (GroupCursor group_uuid topic_uuid range_uuid)
  | 13 => read_segment_ids SegmentPlacement
  | 14 => read_segment_ids SegmentReplacementProof
  | 15 => read_segment_ids SegmentRebalanceIntent
  | 16 => read_segment_ids SegmentTierCopy
  | 17 => topic_uuid ← read_uuid "topic uuid"; mret (TopicRetentionPolicy topic_uuid)
  | 18 =>
      topic_uuid ← read_uuid "topic uuid";
      range_uuid ← read_uuid "range uuid";
      fencing_epoch ← read_u64 "fencing epoch";
      mret (RangeTransition topic_uuid range_uuid fencing_epoch)
  | 19 =>
      topic_uuid ← read_uuid "topic uuid";
      transition_id ← read_uuid "transition id";
      mret (LineageTransition topic_uuid transition_id)
  | 20 =>
      topic_uuid ← read_uuid "topic uuid";
      range_uuid ← read_uuid "range uuid";
      mret (RangeReplicaSet topic_uuid range_uuid)
  | other => fail_with (UnknownTag "meta key category" other)
  end.

Definition decode_from : Reader t :=
  shard ← read_u16 "meta key shard";
  if decide (shard ≠ META_SHARD_ID) then
    fail_with (InvalidValue "meta key shard" "only shard 0 exists in this format version")
  else
    category ← read_u8 "meta key category";
    decode_body category.

Definition decode (bytes : list u8) : result CodecError t := run_reader decode_from bytes.

(** [Ord for MetaKey]: keys order by their encoded bytes. *)
Definition key_le (a b : t) : bool := bytes_le (encode a) (encode b).

End MetaKey.

(** [validate_topic_name] and [validate_group_name]. *)
Definition validate_topic_name (name : string) : result CodecError unit :=
  if decide (str_len name = 0 ∨ str_len name > MAX_TOPIC_NAME_BYTES)
  then Err (BoundExceeded "topic name" (str_len name) MAX_TOPIC_NAME_BYTES)
  else Ok tt.

Definition validate_group_name (name : string) : result CodecError unit :=
  if decide (str_len name = 0 ∨ str_len name > MAX_GROUP_NAME_BYTES)
  then Err (BoundExceeded "group name" (str_len name) MAX_GROUP_NAME_BYTES)
  else Ok tt.

(** A key that can be stored: a name key carries a valid, bounded name. *)
Definition key_wf (k : MetaKey.t) : Prop :=
  match k with
  | MetaKey.TopicByName name => valid_str name ∧ validate_topic_name name = Ok tt
  | MetaKey.GroupByName name => valid_str name ∧ validate_group_name name = Ok tt
  | _ => True
  end.

(** * The key codec is a bijection *)

Module KeyCodec.
Import MetaKey.

Lemma category_inj_head k1 k2 :
  encode k1 = encode k2 → category k1 = category k2 ∧ body k1 = body k2.
Proof.
  unfold encode. codec_unfold.
  intros [_ H]%to_be_bytes_app_inj. by apply to_be_bytes_app_inj in H.
Qed.

Lemma body_inj k1 k2 : category k1 = category k2 → body k1 = body k2 → k1 = k2.
Proof.
  intros Hc%(f_equal ival).
  destruct k1, k2; try discriminate Hc; clear Hc; cbn [body]; codec_unfold; intros H;
    repeat match type of H with
    | to_be_bytes _ ++ _ = to_be_bytes _ ++ _ => apply to_be_bytes_app_inj in H as [-> H]
    | to_be_bytes _ = to_be_bytes _ => apply (inj to_be_bytes) in H as ->
    | as_bytes _ = as_bytes _ => apply (inj as_bytes) in H as ->
    end; done.
Qed.

#[export] Instance encode_inj : Inj (=) (=) encode.
Proof. intros k1 k2 [Hc Hb]%category_inj_head. by apply body_inj. Qed.

Lemma read_name_whole maximum what name :
  valid_str name → ¬ (str_len name = 0 ∨ str_len name > maximum) →
  read_name maximum what (as_bytes name) = Ok (name, []).
Proof.
  intros Hv Hlen. unfold read_name, remaining.
  erewrite reader_bind_next by done. rewrite length_as_bytes, decide_False by done.
  erewrite reader_bind_next.
  2:{ rewrite <-(app_nil_r (as_bytes name)) at 1. apply read_take_app.
      rewrite <-length_as_bytes. lia. }
  unfold read_utf8. by rewrite from_utf8_as_bytes.
Qed.

Lemma read_name_Ok maximum what bs name rest :
  read_name maximum what bs = Ok (name, rest) →
  bs = as_bytes name ∧ rest = [] ∧ valid_str name ∧
  ¬ (str_len name = 0 ∨ str_len name > maximum).
Proof.
  unfold read_name, remaining. intros H. apply reader_bind_Ok in H as (raw & mid & Hr & H).
  injection Hr as <- <-. case_decide as Hlen; [done|].
  apply reader_bind_Ok in H as (bytes & mid & [-> Hb]%read_take_Ok & H).
  unfold read_utf8 in H. destruct (from_utf8 bytes) as [s|] eqn:Hs; [|done].
  apply reader_ret_Ok in H as [-> ->]. apply from_utf8_Some in Hs as [<- Hs].
  rewrite Nat2Z.id, length_app in Hb. assert (rest = []) as -> by (apply nil_length_inv; lia).
  rewrite app_nil_r, length_as_bytes in *. done.
Qed.

Lemma decode_body_encode k : key_wf k → decode_body (category k) (body k) = Ok (k, []).
Proof.
  intros Hwf. destruct k; cbn [body key_wf] in *; unfold category, decode_body;
    rewrite wrap_int_small by done; cbv iota; unfold read_segment_ids; codec_unfold;
    try (repeat read_step; done).
  all: destruct Hwf as [Hv Hn]; unfold validate_topic_name, validate_group_name in Hn;
    case_decide; [done|].
  all: erewrite reader_bind_next by (by apply read_name_whole); done.
Qed.

Lemma decode_body_Ok c bs k rest :
  decode_body c bs = Ok (k, rest) → c = category k ∧ bs = body k ++ rest ∧ key_wf k.
Proof.
  unfold decode_body. intros H.
  assert (∀ z, 0 <= z < 256 → ival c = z → c = wrap_int U8 z) as Hcat.
  { intros z Hz <-. by rewrite wrap_int_ival. }
  repeat case_match; try discriminate H;
    unfold read_segment_ids in H; codec_unfold; read_inv H; subst;
    try (split_and!; [by apply Hcat|cbn [body]; codec_unfold; by rewrite <-?app_assoc|done]).
  all: match goal with Hn : read_name _ _ _ = Ok _ |- _ =>
         apply read_name_Ok in Hn as (-> & -> & Hv & Hl) end.
  all: split_and!; [by apply Hcat|by rewrite app_nil_r|].
  all: simpl; split; [done|]; unfold validate_topic_name, validate_group_name;
    by rewrite decide_False.
Qed.

End KeyCodec.

(** Decoding inverts encoding on well-formed keys, and accepts nothing else. *)
Lemma decode_encode k : key_wf k → MetaKey.decode (MetaKey.encode k) = Ok k.
Proof.
  intros Hwf. unfold MetaKey.decode, MetaKey.decode_from, MetaKey.encode.
  apply run_reader_Ok. codec_unfold. read_step. rewrite decide_False by (by intros []).
  read_step. by apply KeyCodec.decode_body_encode.
Qed.

Lemma encode_decode bs k : MetaKey.decode bs = Ok k → bs = MetaKey.encode k ∧ key_wf k.
Proof.
  unfold MetaKey.decode, MetaKey.decode_from. rewrite run_reader_Ok. intros H.
  codec_unfold. apply reader_bind_Ok in H as (shard & mid & ->%read_int_Ok & H).
  case_decide as Hs; [done|]. subst shard.
  apply reader_bind_Ok in H as (c & mid' & ->%read_int_Ok & H).
  apply KeyCodec.decode_body_Ok in H as (-> & -> & Hwf).
  unfold MetaKey.encode. codec_unfold. by rewrite app_nil_r.
Qed.

(** The key codec is a bijection between well-formed keys and the byte strings the
    decoder accepts. *)
Theorem key_codec_bijection :
  (∀ k, key_wf k → MetaKey.decode (MetaKey.encode k) = Ok k) ∧
  (∀ bs k, MetaKey.decode bs = Ok k → bs = MetaKey.encode k ∧ key_wf k).
Proof. split; [apply decode_encode|apply encode_decode]. Qed.

(** The keys of one range's transitions sort by epoch, and no other key falls
    between two of them: a range's chain is one contiguous key range. *)
Lemma transition_key_le topic range e1 e2 :
  MetaKey.key_le (MetaKey.RangeTransition topic range e1)
                 (MetaKey.RangeTransition topic range e2) = bool_decide (ival e1 <= ival e2).
Proof.
  unfold MetaKey.key_le, MetaKey.encode, MetaKey.category; cbn [MetaKey.body].
  rewrite !bytes_le_app_l. codec_unfold. unfold to_be_bytes.
  pose proof (u64_bounds e1). pose proof (u64_bounds e2).
  apply be_bytes_le; change (256 ^ Z.of_nat (int_bytes U64)) with 18446744073709551616; lia.
Qed.

Lemma bytes_between_prefix ps xs ys bs :
  bytes_le (ps ++ xs) bs = true → bytes_le bs (ps ++ ys) = true →
  ∃ rest, bs = ps ++ rest.
Proof.
  revert bs; induction ps as [|p ps IH]; intros bs; simpl; [by exists bs|].
  destruct bs as [|b bs]; [done|]. cbn [bytes_le]. destruct (decide (p = b)) as [->|Hne].
  - rewrite decide_True by done. intros H1 H2.
    destruct (IH bs H1 H2) as [rest ->]. by exists rest.
  - rewrite decide_False by done. rewrite !bool_decide_eq_true. lia.
Qed.

Lemma encode_prefix k c topic range rest :
  MetaKey.encode k =
    (put_u16 META_SHARD_ID ++ put_u8 c ++ put_uuid topic ++ put_uuid range) ++ rest →
  MetaKey.category k = c ∧ MetaKey.body k = put_uuid topic ++ put_uuid range ++ rest.
Proof.
  unfold MetaKey.encode. codec_unfold. rewrite <-!app_assoc.
  intros [_ H]%to_be_bytes_app_inj. by apply to_be_bytes_app_inj in H as [-> ->].
Qed.

Lemma transition_keys_contiguous topic range e1 e2 k :
  bytes_le (MetaKey.encode (MetaKey.RangeTransition topic range e1)) (MetaKey.encode k) = true →
  bytes_le (MetaKey.encode k) (MetaKey.encode (MetaKey.RangeTransition topic range e2)) = true →
  ∃ e, k = MetaKey.RangeTransition topic range e.
Proof.
  assert (∀ e, MetaKey.encode (MetaKey.RangeTransition topic range e) =
    (put_u16 META_SHARD_ID ++ put_u8 (wrap_int U8 18) ++ put_uuid topic ++ put_uuid range) ++
    put_u64 e) as Henc.
  { intros e. unfold MetaKey.encode; cbn [MetaKey.body]. by rewrite <-!app_assoc. }
  rewrite !Henc. intros H1 H2.
  destruct (bytes_between_prefix _ _ _ _ H1 H2) as [rest [Hc Hb]%encode_prefix].
  apply (f_equal ival) in Hc. destruct k; try discriminate Hc. clear Hc H1 H2.
  cbn [MetaKey.body] in Hb. codec_unfold.
  apply to_be_bytes_app_inj in Hb as [-> [-> _]%to_be_bytes_app_inj]. by eexists.
Qed.

(** Likewise the segment keys of one range, from the nil to the maximal id. *)
Lemma segment_keys_contiguous topic range s1 s2 k :
  bytes_le (MetaKey.encode (MetaKey.Segment topic range s1)) (MetaKey.encode k) = true →
  bytes_le (MetaKey.encode k) (MetaKey.encode (MetaKey.Segment topic range s2)) = true →
  ∃ s, k = MetaKey.Segment topic range s.
Proof.
  assert (∀ s, MetaKey.encode (MetaKey.Segment topic range s) =
    (put_u16 META_SHARD_ID ++ put_u8 (wrap_int U8 6) ++ put_uuid topic ++ put_uuid range) ++
    put_uuid s) as Henc.
  { intros s. unfold MetaKey.encode; cbn [MetaKey.body]. by rewrite <-!app_assoc. }
  rewrite !Henc. intros H1 H2.
  destruct (bytes_between_prefix _ _ _ _ H1 H2) as [rest [Hc Hb]%encode_prefix].
  apply (f_equal ival) in Hc. destruct k; try discriminate Hc. clear Hc H1 H2.
  cbn [MetaKey.body] in Hb. codec_unfold.
  apply to_be_bytes_app_inj in Hb as [-> [-> _]%to_be_bytes_app_inj]. by eexists.
Qed.

Lemma segment_key_between topic range s :
  bytes_le (MetaKey.encode (MetaKey.Segment topic range Uuid_nil))
           (MetaKey.encode (MetaKey.Segment topic range s)) = true ∧
  bytes_le (MetaKey.encode (MetaKey.Segment topic range s))
           (MetaKey.encode (MetaKey.Segment topic range Uuid_max)) = true.
Proof.
  unfold MetaKey.encode, MetaKey.category; cbn [MetaKey.body].
  rewrite !bytes_le_app_l. codec_unfold. unfold to_be_bytes.
  pose proof (ival_bounds s) as [Hlo Hhi].
  change (int_min U128) with 0 in Hlo.
  change (int_max U128) with 340282366920938463463374607431768211455 in Hhi.
  assert (ival Uuid_nil = 0) as H0 by done.
  assert (ival Uuid_max = 340282366920938463463374607431768211455) as H1 by done.
  rewrite !be_bytes_le;
    try change (256 ^ Z.of_nat (int_bytes U128)) with 340282366920938463463374607431768211456;
    rewrite ?H0, ?H1, ?bool_decide_eq_true; lia.
Qed.
