(* ===== verification/KeyRange.v ===== *)
(** Key intervals: [KeyRange] of [crates/vtop-log/src/types.rs].

    A key range is a buddy-aligned prefix of the 64-bit routing-key space.
    [contains_interval] reads it as a half-open interval; [children_partition]
    is the rule a split relies on: the two children are valid, disjoint and
    together hold exactly the parent's keys. *)

From stdpp Require Import prelude strings list.
From Stdlib Require Import ZArith Lia.
From S2P Require Import Prelude Wire.

Inductive LogError :=
  | InvalidDescriptor (detail : string).

Definition LogError_display (e : LogError) : string :=
  match e with
  | InvalidDescriptor detail => "invalid segment descriptor: " +:+ detail
  end.

Module KeyRange.

Record t := mk { prefix : u64; prefix_bits : u8 }.

#[global] Instance t_eq_dec : EqDecision t.
Proof. solve_decision. Defined.

Definition full : t := mk zero zero.

Definition mask (r : t) : Z :=
  if decide (ival (prefix_bits r) = 0) then 0
  else wrap_int U64 (Z.shiftl u64_MAX (64 - prefix_bits r)).

Definition not64 (z : Z) : Z := Z.lxor z u64_MAX.

Definition validate (r : t) : result LogError unit :=
  if decide (ival (prefix_bits r) > 64) then
    Err (InvalidDescriptor "key-range prefix length cannot exceed 64 bits")
  else if decide (Z.land (prefix r) (not64 (mask r)) ≠ 0) then
    Err (InvalidDescriptor "key-range prefix has non-zero bits outside its prefix length")
  else Ok tt.

Definition new (prefix : u64) (prefix_bits : u8) : result LogError t :=
  let range := mk prefix prefix_bits in
  _ ← validate range; Ok range.

Definition contains (r : t) (key_hash : u64) : bool :=
  is_ok (validate r) &&
  (bool_decide (ival (prefix_bits r) = 0) ||
   bool_decide (Z.land key_hash (mask r) = prefix r)).

Definition children (r : t) : result LogError (t * t) :=
  _ ← validate r;
  if decide (ival (prefix_bits r) = 64) then
    Err (InvalidDescriptor "a single-key range cannot be split")
  else
    let child_bits := wrapping_succ (prefix_bits r) in
    let split_bit := Z.shiftl 1 (64 - child_bits) in
    Ok (mk (prefix r) child_bits, mk (wrap_int U64 (Z.lor (prefix r) split_bit)) child_bits).

Definition buddy (r : t) : result LogError t :=
  _ ← validate r;
  if decide (ival (prefix_bits r) = 0) then
    Err (InvalidDescriptor "the full keyspace has no buddy")
  else
    let buddy_bit := Z.shiftl 1 (64 - prefix_bits r) in
    Ok (mk (wrap_int U64 (Z.lxor (prefix r) buddy_bit)) (prefix_bits r)).

Definition parent (r : t) : result LogError t :=
  _ ← validate r;
  if decide (ival (prefix_bits r) = 0) then
    Err (InvalidDescriptor "the full keyspace has no parent")
  else
    let bits := wrap_int U8 (prefix_bits r - 1) in
    let mask := if decide (ival bits = 0) then 0
                else ival (wrap_int U64 (Z.shiftl u64_MAX (64 - bits))) in
    Ok (mk (wrap_int U64 (Z.land (prefix r) mask)) bits).

End KeyRange.

(** * A key range is an interval *)

Module KeyRangeFacts.
Import KeyRange.

Definition width (r : t) : Z := 2 ^ (64 - prefix_bits r).

Lemma bits_bounds (r : t) : 0 <= prefix_bits r <= 255.
Proof. apply (ival_bounds (prefix_bits r)). Qed.

Lemma u64_shift_max s :
  0 <= s < 64 → ival (wrap_int U64 (Z.shiftl u64_MAX s)) = Z.shiftl (Z.ones (64 - s)) s.
Proof.
  intros Hs. unfold wrap_int; cbn [ival].
  change (int_min U64) with 0. change (int_modulus U64) with (2 ^ 64).
  rewrite Z.sub_0_r, Z.add_0_l, <-Z.land_ones by lia.
  apply Z.bits_inj'. intros i Hi.
  rewrite Z.land_spec, !Z.shiftl_spec by lia.
  change (ival u64_MAX) with (Z.ones 64). rewrite !Z.testbit_ones by lia.
  destruct (Z.leb_spec 0 (i - s)), (Z.ltb_spec (i - s) 64), (Z.leb_spec 0 i),
    (Z.ltb_spec i 64), (Z.ltb_spec (i - s) (64 - s)); simpl; lia.
Qed.

Lemma land_high_bits k s :
  0 <= s <= 64 → 0 <= k < 2 ^ 64 →
  Z.land k (Z.shiftl (Z.ones (64 - s)) s) = k - k `mod` 2 ^ s.
Proof.
  intros Hs Hk.
  assert (Z.land k (Z.shiftl (Z.ones (64 - s)) s) = Z.shiftl (Z.shiftr k s) s) as ->.
  { apply Z.bits_inj'. intros i Hi. rewrite Z.land_spec, !Z.shiftl_spec by lia.
    destruct (decide (s <= i)).
    - rewrite Z.shiftr_spec, Z.testbit_ones by lia. replace (i - s + s) with i by lia.
      destruct (decide (i < 64)).
      + destruct (Z.leb_spec 0 (i - s)), (Z.ltb_spec (i - s) (64 - s));
          rewrite ?andb_true_r; try done; lia.
      + replace (Z.testbit k i) with false; [done|]. symmetry.
        destruct (decide (k = 0)) as [->|]; [apply Z.testbit_0_l|].
        apply Z.bits_above_log2; [lia|]. apply Z.log2_lt_pow2; [lia|].
        eapply Z.lt_le_trans; [apply Hk|]. apply Z.pow_le_mono_r; lia.
    - rewrite !(Z.testbit_neg_r _ (i - s)) by lia. apply andb_false_r. }
  rewrite Z.shiftl_mul_pow2, Z.shiftr_div_pow2, Z.mod_eq by lia. lia.
Qed.

Lemma mask_spec (r : t) k :
  0 <= prefix_bits r <= 64 → 0 <= k < 2 ^ 64 →
  Z.land k (mask r) = k - k `mod` width r.
Proof.
  intros Hb Hk. unfold mask, width. case_decide as H0.
  - rewrite H0, Z.land_0_r, Z.sub_0_r, Z.mod_small by lia. lia.
  - rewrite u64_shift_max by lia. rewrite land_high_bits by lia. done.
Qed.

Lemma not_mask_spec (r : t) k :
  0 <= prefix_bits r <= 64 → 0 <= k < 2 ^ 64 →
  Z.land k (not64 (mask r)) = k `mod` width r.
Proof.
  intros Hb Hk.
  assert (Z.land k (not64 (mask r)) = Z.ldiff k (mask r)) as ->.
  { unfold not64. apply Z.bits_inj'. intros i Hi.
    rewrite Z.land_spec, Z.lxor_spec, Z.ldiff_spec.
    change (ival u64_MAX) with (Z.ones 64). rewrite Z.testbit_ones by lia.
    destruct (Z.leb_spec 0 i), (Z.ltb_spec i 64); simpl; try lia.
    - by destruct (Z.testbit (mask r) i).
    - replace (Z.testbit k i) with false; [done|]. symmetry.
      destruct (decide (k = 0)) as [->|]; [apply Z.testbit_0_l|].
      apply Z.bits_above_log2; [lia|]. apply Z.log2_lt_pow2; [lia|].
      eapply Z.lt_le_trans; [apply Hk|]. apply Z.pow_le_mono_r; lia. }
  assert (Z.ldiff k (mask r) = Z.ldiff k (Z.land k (mask r))) as ->.
  { apply Z.bits_inj'. intros i Hi. rewrite !Z.ldiff_spec, Z.land_spec.
    by destruct (Z.testbit k i), (Z.testbit (mask r) i). }
  rewrite <-Z.sub_nocarry_ldiff; [rewrite mask_spec by done; lia|].
  apply Z.bits_inj'. intros i Hi. rewrite Z.ldiff_spec, Z.land_spec, Z.bits_0.
  by destruct (Z.testbit k i), (Z.testbit (mask r) i).
Qed.

(** A range is valid when its prefix is aligned to its width. *)
Lemma validate_Ok (r : t) :
  validate r = Ok tt ↔ prefix_bits r <= 64 ∧ prefix r `mod` width r = 0.
Proof.
  unfold validate. pose proof (bits_bounds r). pose proof (u64_bounds (prefix r)).
  case_decide; [split; [done|lia]|]. rewrite not_mask_spec by lia.
  case_decide; split; try done; by intros [? ?].
Qed.

Lemma contains_interval (r : t) (k : u64) :
  contains r k = true ↔
  validate r = Ok tt ∧ prefix r <= k < prefix r + width r.
Proof.
  unfold contains. pose proof (bits_bounds r). pose proof (u64_bounds (prefix r)).
  pose proof (u64_bounds k).
  destruct (validate r) as [[]|e] eqn:Hv; cbn [is_ok andb]; [|split; [done|by intros [? _]]].
  apply validate_Ok in Hv as [Hb Ha]. rewrite orb_true_iff, !bool_decide_eq_true.
  rewrite mask_spec by lia.
  assert (0 < width r) as Hw by (apply Z.pow_pos_nonneg; lia).
  pose proof (Z.mod_pos_bound k (width r) Hw).
  split.
  - intros [Hz|He]; (split; [done|]); [|lia].
    unfold width in *. rewrite Hz in *. change (2 ^ (64 - 0)) with 18446744073709551616 in *.
    rewrite Z.mod_small in Ha by lia. lia.
  - intros [_ Hk]. right.
    assert (k `mod` width r = k - prefix r) as ->; [|lia].
    symmetry. apply (Z.mod_unique_pos _ _ (prefix r `div` width r)); [lia|].
    pose proof (Z.div_mod (prefix r) (width r)). lia.
Qed.

Lemma width_child (r c : t) :
  ival (prefix_bits c) = prefix_bits r + 1 → prefix_bits r < 64 → width r = 2 * width c.
Proof.
  intros Hc Hb. unfold width. rewrite Hc, <-Z.pow_succ_r; [f_equal; lia|lia].
Qed.

(** A prefix aligned to a width has the bit below the width clear. *)
Lemma lor_split_bit p w :
  0 <= w → 0 <= p → p `mod` 2 ^ (w + 1) = 0 → Z.lor p (Z.shiftl 1 w) = p + 2 ^ w.
Proof.
  intros Hw Hp Ha. rewrite Z.shiftl_1_l. symmetry. rewrite <-Z.lxor_lor;
    [rewrite <-Z.add_nocarry_lxor; [done|]|].
  all: apply Z.bits_inj'; intros i Hi; rewrite Z.land_spec, Z.pow2_bits_eqb, Z.bits_0 by lia;
    destruct (Z.eqb_spec w i) as [<-|]; [|apply andb_false_r]; rewrite andb_true_r;
    rewrite <-(Z.mod_pow2_bits_low p (w + 1) w) by lia; by rewrite Ha, Z.testbit_0_l.
Qed.

(** A valid range of some width ends inside the key space. *)
Lemma aligned_fits (r : t) : validate r = Ok tt → prefix r + width r <= 2 ^ 64.
Proof.
  intros [Hb Ha]%validate_Ok. pose proof (bits_bounds r). pose proof (u64_bounds (prefix r)).
  assert (2 ^ 64 = 2 ^ prefix_bits r * width r) as E.
  { unfold width. rewrite <-Z.pow_add_r by lia. f_equal. lia. }
  assert (0 < width r) by (apply Z.pow_pos_nonneg; lia).
  pose proof (Z.div_mod (prefix r) (width r) ltac:(lia)) as Hd. rewrite Ha, Z.add_0_r in Hd.
  set (q := prefix r `div` width r) in *.
  assert (q < 2 ^ prefix_bits r) as Hq; [|rewrite E; nia].
  apply (Z.mul_lt_mono_pos_l (width r)); [lia|]. rewrite <-Hd, (Z.mul_comm (width r)), <-E.
  change (2 ^ 64) with 18446744073709551616. lia.
Qed.

(** The children of a valid range: aligned, and each half of it. *)
Lemma children_Ok (r l rt : t) :
  children r = Ok (l, rt) →
  validate r = Ok tt ∧ prefix_bits r < 64 ∧ validate l = Ok tt ∧ validate rt = Ok tt ∧
  ival (prefix l) = prefix r ∧ ival (prefix rt) = prefix r + width l ∧
  width r = 2 * width l ∧ width rt = width l.
Proof.
  unfold children. rewrite result_bind_Ok. intros ([] & Hv & H). case_decide as H64; [done|].
  pose proof (bits_bounds r) as Hbb. pose proof (u64_bounds (prefix r)) as Hpb.
  pose proof (proj1 (validate_Ok r) Hv) as [Hb Ha].
  set (cb := wrapping_succ (prefix_bits r)) in *.
  assert (ival cb = prefix_bits r + 1) as Hcb.
  { unfold cb, wrapping_add. rewrite wrap_int_small; rewrite ival_one; [done|].
    change (int_min U8) with 0. change (int_max U8) with 255. lia. }
  apply Ok_pair_inj in H as [<- <-].
  set (l := mk (prefix r) cb).
  assert (width r = 2 * width l) as Hw by (apply width_child; [exact Hcb|lia]).
  assert (width r = 2 ^ (64 - cb + 1)) as Hw' by (unfold width; rewrite Hcb; f_equal; lia).
  assert (0 < width l) as Hpos by (apply Z.pow_pos_nonneg; [lia|]; change (prefix_bits l) with cb; lia).
  pose proof (aligned_fits r Hv) as Hfit.
  set (rp := wrap_int U64 (Z.lor (prefix r) (Z.shiftl 1 (64 - cb)))).
  assert (ival rp = prefix r + width l) as Hrp.
  { unfold rp. rewrite Hw' in Ha. rewrite lor_split_bit by lia.
    rewrite wrap_int_small; [done|].
    change (int_min U64) with 0. change (int_max U64) with (2 ^ 64 - 1).
    change (2 ^ (64 - cb)) with (width l). lia. }
  assert (prefix r `mod` width l = 0) as Hal.
  { apply Z.mod_divide; [lia|]. exists (2 * (prefix r `div` width r)).
    pose proof (Z.div_mod (prefix r) (width r)). lia. }
  split_and!; try done; try lia.
  - apply validate_Ok; split; [cbn [prefix_bits l]; lia|done].
  - apply validate_Ok; split; [cbn [prefix_bits]; lia|].
    change (width (mk rp cb)) with (width l). cbn [prefix]. rewrite Hrp.
    rewrite Z.add_mod, Hal, Z.mod_same, Z.mod_0_l by lia. done.
Qed.

End KeyRangeFacts.

(** A split's intervals: every key of the parent lies in exactly one child,
    every key of a child lies in the parent. *)
Lemma children_partition (r l rt : KeyRange.t) (k : u64) :
  KeyRange.children r = Ok (l, rt) →
  KeyRange.contains r k = xorb (KeyRange.contains l k) (KeyRange.contains rt k) ∧
  ¬ (KeyRange.contains l k = true ∧ KeyRange.contains rt k = true).
Proof.
  intros (Hv & Hb & Hl & Hr & Hpl & Hpr & Hw & Hwr)%KeyRangeFacts.children_Ok.
  assert (0 < KeyRangeFacts.width l) as Hpos.
  { pose proof (KeyRangeFacts.bits_bounds r). assert (0 < KeyRangeFacts.width r); [|lia].
    apply Z.pow_pos_nonneg; lia. }
  pose proof (KeyRangeFacts.contains_interval r k) as Cr.
  pose proof (KeyRangeFacts.contains_interval l k) as Cl.
  pose proof (KeyRangeFacts.contains_interval rt k) as Crt.
  rewrite Hv in Cr. rewrite Hl, Hpl in Cl. rewrite Hr, Hpr, Hwr in Crt. rewrite Hw in Cr.
  destruct (KeyRange.contains r k), (KeyRange.contains l k), (KeyRange.contains rt k);
    simpl; split; try done; intuition lia.
Qed.
