(* ===== verification/Lineage.v ===== *)
(** Range lineage: [ParentRange] and [RangeLineage] of
    [crates/vtop-log/src/types.rs], the descriptor a data node carries for a
    range.  [validate] accepts a root, a child of a split or the merge of two
    buddies; [keys_of_parents] shows what that means for the keys. *)

From stdpp Require Import prelude strings list.
From Stdlib Require Import ZArith Lia.
From S2P Require Import Prelude Wire KeyRange.

Module ParentRange.
Record t := mk { range_id : Uuid; generation : u64; key_range : KeyRange.t }.
#[global] Instance t_eq_dec : EqDecision t.
Proof. solve_decision. Defined.
End ParentRange.

Module RangeLineage.
Record t := mk {
  range_id : Uuid;
  generation : u64;
  key_range : KeyRange.t;
  parents : list ParentRange.t
}.
#[global] Instance t_eq_dec : EqDecision t.
Proof. solve_decision. Defined.

Definition root (range_id : Uuid) : t := mk range_id zero KeyRange.full [].

(** [for parent in &self.parents { parent.key_range.validate()?; }] *)
Fixpoint validate_parents (l : list ParentRange.t) : result LogError unit :=
  match l with
  | [] => Ok tt
  | parent :: rest =>
      _ ← KeyRange.validate (ParentRange.key_range parent); validate_parents rest
  end.

Definition err {A} (detail : string) : result LogError A := Err (InvalidDescriptor detail).

(** The match on the parents; [None] is its [unreachable!]. *)
Definition validate_shape (self : t) : option (result LogError unit) :=
  match parents self with
  | [parent] =>
      Some (halves ← KeyRange.children (ParentRange.key_range parent);
            if decide (key_range self ≠ halves.1 ∧ key_range self ≠ halves.2) then
              err "single-parent lineage must be an exact buddy split child"
            else Ok tt)
  | [p1; p2] =>
      let mismatch :=
        err "two-parent lineage must merge exact buddy ranges into their parent" in
      Some (buddy ← KeyRange.buddy (ParentRange.key_range p1);
            if decide (buddy ≠ ParentRange.key_range p2) then mismatch else
            parent ← KeyRange.parent (ParentRange.key_range p1);
            if decide (parent ≠ key_range self) then mismatch else
            parent ← KeyRange.parent (ParentRange.key_range p2);
            if decide (parent ≠ key_range self) then mismatch else Ok tt)
  | _ => None
  end.

Definition not_older (self : t) (parent : ParentRange.t) : bool :=
  bool_decide (ParentRange.range_id parent = range_id self)
  || bool_decide (ival (generation self) <= ival (ParentRange.generation parent)).

(** [validate]; [None] when it panics. *)
Definition validate (self : t) : option (result LogError unit) :=
  match KeyRange.validate (key_range self) with
  | Err e => Some (Err e)
  | Ok _ =>
      if decide (generation self = zero) then
        if decide (parents self ≠ [] ∨ key_range self ≠ KeyRange.full) then
          Some (err "generation-zero lineage must be the parentless full keyspace")
        else Some (Ok tt)
      else if decide (parents self = [] ∨ (2 < length (parents self))%nat) then
        Some (err "non-root range lineage must name one split parent or two merge parents")
      else
        match validate_parents (parents self) with
        | Err e => Some (Err e)
        | Ok _ =>
            if existsb (not_older self) (parents self) then
              Some (err "range parents must be distinct older generations")
            else if decide (length (dedup (stable_sort int_le
                                (ParentRange.range_id <$> parents self)))
                            ≠ length (parents self)) then
              Some (err "range lineage contains duplicate parents")
            else if existsb (λ p, bool_decide (ival (ParentRange.generation p)
                                               ≠ generation self - 1)) (parents self) then
              Some (err "range lineage must name direct parents from the previous generation")
            else validate_shape self
        end
  end.
End RangeLineage.

(** * Merging *)

Module LineageFacts.
Import KeyRange KeyRangeFacts.

Lemma bit_clear q w :
  0 <= w → q `mod` 2 ^ (w + 1) = 0 → Z.land q (2 ^ w) = 0.
Proof.
  intros Hw Hq. apply Z.bits_inj'. intros i Hi.
  rewrite Z.land_spec, Z.pow2_bits_eqb, Z.bits_0 by lia.
  destruct (Z.eqb_spec w i) as [<-|]; [|apply andb_false_r]. rewrite andb_true_r.
  rewrite <-(Z.mod_pow2_bits_low q (w + 1) w), Hq by lia. apply Z.testbit_0_l.
Qed.

(** Flipping the bit of its width moves an aligned prefix to its buddy. *)
Lemma lxor_bit p w :
  0 <= w → 0 <= p → p `mod` 2 ^ w = 0 →
  (p `mod` 2 ^ (w + 1) = 0 ∧ Z.lxor p (Z.shiftl 1 w) = p + 2 ^ w) ∨
  (p `mod` 2 ^ (w + 1) = 2 ^ w ∧ Z.lxor p (Z.shiftl 1 w) = p - 2 ^ w ∧ 2 ^ w <= p).
Proof.
  intros Hw Hp Ha. assert (0 < 2 ^ w) by (apply Z.pow_pos_nonneg; lia).
  assert (2 ^ (w + 1) = 2 ^ w * 2) as E by (rewrite Z.pow_add_r, Z.pow_1_r by lia; done).
  assert (p `mod` 2 ^ (w + 1) = 0 ∨ p `mod` 2 ^ (w + 1) = 2 ^ w) as Hm.
  { rewrite E, Z.rem_mul_r, Ha by lia.
    assert ((p `div` 2 ^ w) `mod` 2 = 0 ∨ (p `div` 2 ^ w) `mod` 2 = 1) as [->| ->];
      [pose proof (Z.mod_pos_bound (p `div` 2 ^ w) 2); lia|lia..]. }
  destruct Hm as [Hm|Hm]; [left|right]; (split; [done|]).
  - rewrite <-lor_split_bit by done. rewrite Z.shiftl_1_l. by apply Z.lxor_lor, bit_clear.
  - pose proof (Z.div_mod p (2 ^ (w + 1)) ltac:(lia)) as Hd. rewrite Hm in Hd.
    set (q := p - 2 ^ w). assert (q `mod` 2 ^ (w + 1) = 0) as Hq.
    { apply Z.mod_divide; [lia|]. exists (p `div` 2 ^ (w + 1)). unfold q. lia. }
    assert (0 <= q) as Hq0 by (pose proof (Z.mod_le p (2 ^ (w + 1))); unfold q; lia).
    split; [|unfold q in Hq0; lia]. replace p with (Z.lor q (Z.shiftl 1 w)) at 1
      by (rewrite lor_split_bit by done; unfold q; lia).
    rewrite Z.shiftl_1_l, <-Z.lxor_lor by by apply bit_clear.
    by rewrite Z.lxor_assoc, Z.lxor_nilpotent, Z.lxor_0_r.
Qed.

(** The parent of a range starts where the pair it belongs to starts. *)
Lemma parent_Ok (r p : t) :
  parent r = Ok p →
  validate r = Ok tt ∧ 0 < prefix_bits r ∧ ival (prefix_bits p) = prefix_bits r - 1 ∧
  width p = 2 * width r ∧ ival (prefix p) = prefix r - prefix r `mod` (2 * width r) ∧
  validate p = Ok tt.
Proof.
  unfold parent. rewrite result_bind_Ok. intros ([] & Hv & H). case_decide as H0; [done|].
  pose proof (proj1 (validate_Ok r) Hv) as [Hb Ha].
  pose proof (bits_bounds r). pose proof (u64_bounds (prefix r)) as Hp64.
  set (bits := wrap_int U8 (prefix_bits r - 1)) in *.
  assert (ival bits = prefix_bits r - 1) as Hbits.
  { unfold bits. apply wrap_int_small. change (int_min U8) with 0. change (int_max U8) with 255. lia. }
  apply Ok_inj in H as <-. set (p := mk _ bits).
  assert (width p = 2 * width r) as Hw.
  { unfold width, p. cbn [prefix_bits]. rewrite Hbits, <-Z.pow_succ_r by lia. f_equal. lia. }
  assert (ival (prefix p) = prefix r - prefix r `mod` width p) as Hp.
  { pose proof (mask_spec (mk (prefix r) bits) (prefix r)) as Hm. unfold mask in Hm.
    cbn [prefix_bits] in Hm. unfold p. cbn [prefix]. rewrite Hm; [|rewrite Hbits; lia|lia].
    rewrite wrap_int_small; [done|]. change (int_min U64) with 0.
    change (int_max U64) with 18446744073709551615.
    assert (0 < width (mk (prefix r) bits)) as Hpos
      by (apply Z.pow_pos_nonneg; cbn [prefix_bits]; lia).
    pose proof (Z.mod_pos_bound (prefix r) _ Hpos).
    pose proof (Z.mod_le (prefix r) (width (mk (prefix r) bits))). lia. }
  assert (0 < width r) by (apply Z.pow_pos_nonneg; lia).
  split_and!; try done; try lia; [by rewrite Hp, Hw|]. apply validate_Ok. split.
  - unfold p. cbn [prefix_bits]. lia.
  - rewrite Hp. apply Z.mod_divide; [lia|]. exists (prefix r `div` width p).
    pose proof (Z.div_mod (prefix r) (width p)). lia.
Qed.

(** A range and its buddy are the two halves of their parent. *)
Lemma buddy_Ok (r b : t) :
  buddy r = Ok b →
  validate r = Ok tt ∧ validate b = Ok tt ∧ prefix_bits b = prefix_bits r ∧ 0 < prefix_bits r ∧
  ((prefix r `mod` (2 * width r) = 0 ∧ ival (prefix b) = prefix r + width r) ∨
   (prefix r `mod` (2 * width r) = width r ∧ ival (prefix b) = prefix r - width r)).
Proof.
  unfold buddy. rewrite result_bind_Ok. intros ([] & Hv & H). case_decide as H0; [done|].
  pose proof (proj1 (validate_Ok r) Hv) as [Hb Ha].
  pose proof (bits_bounds r). pose proof (u64_bounds (prefix r)) as Hp64.
  assert (0 < width r) as Hpos by (apply Z.pow_pos_nonneg; lia).
  assert (2 ^ (64 - prefix_bits r + 1) = 2 * width r) as E
    by (unfold width; rewrite Z.pow_add_r, Z.pow_1_r by lia; lia).
  apply Ok_inj in H as <-. set (b := mk _ _).
  assert (0 <= Z.lxor (prefix r) (Z.shiftl 1 (64 - prefix_bits r)) < 2 ^ 64 ∧
    ((prefix r `mod` (2 * width r) = 0 ∧ Z.lxor (prefix r) (Z.shiftl 1 (64 - prefix_bits r))
        = prefix r + width r) ∨
     (prefix r `mod` (2 * width r) = width r ∧
        Z.lxor (prefix r) (Z.shiftl 1 (64 - prefix_bits r)) = prefix r - width r))) as [Hr Hcases].
  { destruct (lxor_bit (prefix r) (64 - prefix_bits r)) as [[Hm Hx]|(Hm & Hx & Hge)];
      [lia|lia|exact Ha|..]; rewrite E in Hm; fold (width r) in Hx; rewrite Hx.
    - split; [|by left].
      assert (prefix r + 2 * width r <= 2 ^ 64) as Hfit; [|lia].
      assert (∃ p, parent r = Ok p) as [p Hp].
      { unfold parent. rewrite Hv. simpl. rewrite decide_False by done. by eexists. }
      apply parent_Ok in Hp as (_ & _ & _ & Hw & Hpp & Hvp). rewrite Hm in Hpp.
      pose proof (aligned_fits p Hvp). lia.
    - fold (width r) in Hge. change (2 ^ 64) with 18446744073709551616. split; [lia|].
      by right. }
  assert (ival (prefix b) = Z.lxor (prefix r) (Z.shiftl 1 (64 - prefix_bits r))) as Hpb.
  { unfold b. cbn [prefix]. apply wrap_int_small. change (int_min U64) with 0.
    change (int_max U64) with (2 ^ 64 - 1). lia. }
  rewrite Hpb. split_and!; try done; [|lia]. apply validate_Ok. split; [done|].
  change (width b) with (width r). rewrite Hpb.
  destruct Hcases as [[_ ->]|[_ ->]].
  - by rewrite Z.add_mod, Ha, Z.mod_same, Z.mod_0_l by lia.
  - by rewrite Zminus_mod, Ha, Z.mod_same, Z.mod_0_l by lia.
Qed.

(** Merging two buddies gives exactly their keys. *)
Lemma merge_partition (r b p : t) (k : u64) :
  buddy r = Ok b → parent r = Ok p →
  contains p k = xorb (contains r k) (contains b k) ∧
  ¬ (contains r k = true ∧ contains b k = true).
Proof.
  intros (Hr & Hb & Hbits & _ & Hcases)%buddy_Ok (_ & H0 & _ & Hw & Hp & Hvp)%parent_Ok.
  assert (width b = width r) as Hwb by (unfold width; by rewrite Hbits).
  assert (0 < width r) by (apply validate_Ok in Hr as [? _]; apply Z.pow_pos_nonneg; lia).
  pose proof (contains_interval r k) as Cr. pose proof (contains_interval b k) as Cb.
  pose proof (contains_interval p k) as Cp.
  rewrite Hr in Cr. rewrite Hb, Hwb in Cb. rewrite Hvp, Hw, Hp in Cp.
  destruct (contains r k), (contains b k), (contains p k);
    simpl; split; try done; intuition lia.
Qed.

End LineageFacts.

(** * What a valid lineage is *)

Module ValidLineage.
Import RangeLineage.

(** A root, a child of a split, or the merge of two buddies. *)
Inductive valid (self : t) : Prop :=
  | Root :
      generation self = zero → parents self = [] → key_range self = KeyRange.full → valid self
  | Split p l r :
      parents self = [p] → ParentRange.range_id p ≠ range_id self →
      ival (generation self) = ParentRange.generation p + 1 →
      KeyRange.children (ParentRange.key_range p) = Ok (l, r) →
      key_range self = l ∨ key_range self = r → valid self
  | Merge p q :
      parents self = [p; q] → ParentRange.range_id p ≠ range_id self →
      ParentRange.range_id q ≠ range_id self →
      ParentRange.range_id p ≠ ParentRange.range_id q →
      ival (generation self) = ParentRange.generation p + 1 →
      ParentRange.generation q = ParentRange.generation p →
      KeyRange.buddy (ParentRange.key_range p) = Ok (ParentRange.key_range q) →
      KeyRange.parent (ParentRange.key_range p) = Ok (key_range self) →
      KeyRange.parent (ParentRange.key_range q) = Ok (key_range self) → valid self.

Lemma validate_parents_Ok l :
  validate_parents l = Ok tt ↔
  Forall (λ p, KeyRange.validate (ParentRange.key_range p) = Ok tt) l.
Proof.
  induction l as [|p l IH]; simpl; [by split; [constructor|]|].
  rewrite result_bind_Ok, Forall_cons, <-IH. split; [by intros ([] & ? & ?)|].
  intros [? ?]. by exists ().
Qed.

(** The checks every non-root lineage passes before its shape is looked at. *)
Definition direct_parents (self : t) : Prop :=
  NoDup (ParentRange.range_id <$> parents self) ∧
  Forall (λ p, ParentRange.range_id p ≠ range_id self ∧
               ival (ParentRange.generation p) = generation self - 1) (parents self).

Lemma existsb_false {A} (f : A → bool) l : existsb f l = false ↔ Forall (λ x, f x = false) l.
Proof.
  induction l as [|x l IH]; simpl; [by split; [constructor|]|].
  by rewrite orb_false_iff, Forall_cons, IH.
Qed.

Lemma direct_parents_checks self :
  generation self ≠ zero →
  existsb (not_older self) (parents self) = false ∧
  length (dedup (stable_sort int_le (ParentRange.range_id <$> parents self)))
    = length (parents self) ∧
  existsb (λ p, bool_decide (ival (ParentRange.generation p) ≠ generation self - 1))
    (parents self) = false ↔ direct_parents self.
Proof.
  intros Hg. apply int_neq in Hg. rewrite ival_zero in Hg. pose proof (u64_bounds (generation self)).
  rewrite <-(length_fmap ParentRange.range_id (parents self)), sort_dedup_length_NoDup.
  unfold direct_parents. rewrite !existsb_false, !Forall_forall. unfold not_older. split.
  - intros (H1 & H2 & H3). split; [done|]. intros p Hp. specialize (H1 p Hp). specialize (H3 p Hp).
    apply orb_false_iff in H1 as [?%bool_decide_eq_false _].
    apply bool_decide_eq_false, dec_stable in H3. done.
  - intros [H2 H3]. split_and!; [|done|]; intros p Hp; destruct (H3 p Hp) as [? Hgen].
    + rewrite bool_decide_eq_false_2 by done. simpl. apply bool_decide_eq_false_2. lia.
    + apply bool_decide_eq_false_2. by intros [].
Qed.

(** Non-root validation, check by check. *)
Lemma validate_non_root self :
  generation self ≠ zero →
  validate self = Some (Ok tt) ↔
  KeyRange.validate (key_range self) = Ok tt ∧
  ¬ (parents self = [] ∨ (2 < length (parents self))%nat) ∧
  Forall (λ p, KeyRange.validate (ParentRange.key_range p) = Ok tt) (parents self) ∧
  direct_parents self ∧ validate_shape self = Some (Ok tt).
Proof.
  intros Hg. rewrite <-validate_parents_Ok, <-(direct_parents_checks self Hg). unfold validate, err.
  destruct (KeyRange.validate (key_range self)) as [[]|]; [|naive_solver].
  rewrite decide_False by done. case_decide; [naive_solver|].
  destruct (validate_parents (parents self)) as [[]|]; [|naive_solver].
  destruct (existsb (not_older self) _); [naive_solver|]. case_decide; [naive_solver|].
  destruct (existsb _ _); naive_solver.
Qed.

Lemma shape_one self p :
  parents self = [p] →
  validate_shape self = Some (Ok tt) ↔
  ∃ l r, KeyRange.children (ParentRange.key_range p) = Ok (l, r) ∧
    (key_range self = l ∨ key_range self = r).
Proof.
  intros Hp. unfold validate_shape, err. rewrite Hp.
  destruct (KeyRange.children _) as [[l r]|e]; simpl; [|naive_solver].
  case_decide as Hne; split; try done.
  - intros (? & ? & [= <- <-] & [|]); tauto.
  - intros _. exists l, r. split; [done|]. destruct (decide (key_range self = l)); [by left|].
    right. apply dec_stable. naive_solver.
Qed.

Lemma shape_two self p q :
  parents self = [p; q] →
  validate_shape self = Some (Ok tt) ↔
  KeyRange.buddy (ParentRange.key_range p) = Ok (ParentRange.key_range q) ∧
  KeyRange.parent (ParentRange.key_range p) = Ok (key_range self) ∧
  KeyRange.parent (ParentRange.key_range q) = Ok (key_range self).
Proof.
  intros Hp. unfold validate_shape, err. rewrite Hp.
  destruct (KeyRange.buddy _) as [b|e]; simpl; [|naive_solver].
  case_decide as H1; [naive_solver|]. subst.
  destruct (KeyRange.parent (ParentRange.key_range p)) as [k|e]; simpl; [|naive_solver].
  case_decide as H2; [naive_solver|]. subst.
  destruct (KeyRange.parent (ParentRange.key_range q)) as [k|e]; simpl; [|naive_solver].
  case_decide as H3; [naive_solver|]. subst. done.
Qed.

Lemma full_valid : KeyRange.validate KeyRange.full = Ok tt.
Proof. by vm_compute. Qed.

Lemma validate_valid self : validate self = Some (Ok tt) → valid self.
Proof.
  intros Hv. destruct (decide (generation self = zero)) as [Hg|Hg].
  - unfold validate in Hv. destruct (KeyRange.validate _); [|done]. rewrite decide_True in Hv by done.
    case_decide as Hc; [done|].
    apply Root; [done|..]; apply dec_stable; naive_solver.
  - apply validate_non_root in Hv as (_ & Hlen & _ & (Hnd & Hdir) & Hshape); [|done].
    destruct (parents self) as [|p [|q [|? ?]]] eqn:Hp; [tauto| | |simpl in Hlen; lia].
    + apply (shape_one _ p Hp) in Hshape as (l & r & Hc & Hk).
      apply Forall_singleton in Hdir as [? ?]. eapply (Split self p l r); try done. lia.
    + apply (shape_two _ p q Hp) in Hshape as (? & ? & ?).
      apply Forall_cons in Hdir as [[? ?] [? ?]%Forall_singleton].
      simpl in Hnd. apply NoDup_cons in Hnd as [Hpq%not_elem_of_cons _].
      apply (Merge self p q); try done; [tauto|lia|]. apply int_eq. lia.
Qed.

Lemma valid_validate self : valid self → validate self = Some (Ok tt).
Proof.
  intros [Hg Hp Hk|p l r Hp Hid Hg Hc Hk|p q Hp Hid Hid' Hpq Hg Hgq Hb Hpp Hqq].
  - unfold validate. rewrite Hk, full_valid, decide_True by done.
    rewrite decide_False by (intros [|]; done). done.
  - pose proof (u64_bounds (ParentRange.generation p)).
    apply validate_non_root; [intros E; rewrite E, ival_zero in Hg; lia|]. rewrite Hp.
    pose proof (KeyRangeFacts.children_Ok _ _ _ Hc) as (Hv & _ & Hl & Hr & _).
    split_and!; [by destruct Hk as [-> | ->]|simpl; intros [|]; [done|lia]|by apply Forall_singleton| |].
    + unfold direct_parents. rewrite Hp. split; [apply NoDup_singleton|].
      apply Forall_singleton. split; [done|lia].
    + apply (shape_one _ p Hp). by exists l, r.
  - pose proof (u64_bounds (ParentRange.generation p)).
    apply validate_non_root; [intros E; rewrite E, ival_zero in Hg; lia|]. rewrite Hp.
    pose proof (LineageFacts.buddy_Ok _ _ Hb) as (Hv & Hv' & _).
    pose proof (LineageFacts.parent_Ok _ _ Hpp) as (_ & _ & _ & _ & _ & Hvs).
    split_and!; [done|simpl; intros [|]; [done|lia]|by repeat constructor| |].
    + unfold direct_parents. rewrite Hp. split.
      * simpl. apply NoDup_cons. split; [|apply NoDup_singleton]. by rewrite list_elem_of_singleton.
      * repeat constructor; try done; rewrite ?Hgq; lia.
    + by apply (shape_two _ p q Hp).
Qed.

Lemma validate_total self : validate self ≠ None.
Proof.
  unfold validate. destruct (KeyRange.validate _); [|done].
  case_decide; [by case_decide|]. case_decide as Hlen; [done|]. destruct (validate_parents _); [|done].
  destruct (existsb _ _); [done|]. case_decide; [done|]. destruct (existsb _ _); [done|].
  unfold validate_shape. destruct (parents self) as [|? [|? [|? ?]]]; try done; simpl in *; tauto || lia.
Qed.

End ValidLineage.

(** * Theorems *)

(** Validation of a lineage never panics, and accepts exactly a parentless full
    range of generation zero, an exact half of one parent of the previous
    generation, or the merge of two distinct buddies of the previous
    generation. *)
Theorem lineage_validate_iff self :
  RangeLineage.validate self ≠ None ∧
  (RangeLineage.validate self = Some (Ok tt) ↔ ValidLineage.valid self).
Proof.
  split; [apply ValidLineage.validate_total|].
  split; [apply ValidLineage.validate_valid|apply ValidLineage.valid_validate].
Qed.

(** A range with a valid lineage holds no key its parents do not: a split child's
    keys are its parent's, and a merged range holds exactly the keys of its two
    parents, each of which was held by one of them. *)
Theorem lineage_keys self k :
  RangeLineage.validate self = Some (Ok tt) →
  match RangeLineage.parents self with
  | [] => KeyRange.contains (RangeLineage.key_range self) k = true
  | [p] => KeyRange.contains (RangeLineage.key_range self) k = true →
           KeyRange.contains (ParentRange.key_range p) k = true
  | [p; q] => KeyRange.contains (RangeLineage.key_range self) k
              = xorb (KeyRange.contains (ParentRange.key_range p) k)
                  (KeyRange.contains (ParentRange.key_range q) k)
  | _ => False
  end.
Proof.
  intros [Hg -> ->|p l r -> _ _ Hc Hk|p q -> _ _ _ _ _ Hb Hp _]%ValidLineage.validate_valid.
  - apply KeyRangeFacts.contains_interval. split; [apply ValidLineage.full_valid|].
    pose proof (u64_bounds k). change (0 <= k < 0 + 18446744073709551616). lia.
  - destruct (children_partition _ _ _ k Hc) as [-> Hdisj]. destruct Hk as [-> | ->]; intros Hin;
      rewrite Hin; [destruct (KeyRange.contains r k)|destruct (KeyRange.contains l k)]; try done;
      by destruct Hdisj.
  - by apply LineageFacts.merge_partition.
Qed.
