(* ===== verification/Command.v ===== *)
(** Metadata commands, responses and rejections:
    [crates/vtop-meta/src/command.rs].

    The types the replicated log carries and [apply] consumes and returns, the
    bounded rejection details, the feature-level gate of each command kind, and
    the clock-skew bound of the lease-election pair. *)

From stdpp Require Import prelude strings list.
From Stdlib Require Import ZArith Lia.
From S2P Require Import Prelude Wire Keys.

Definition MAX_NODE_ADDR_BYTES : Z := 256.
Definition MAX_ERROR_DETAIL_BYTES : Z := 256.
Definition MAX_ASSIGNED_RANGES : Z := 16.
Definition MAX_TIER_BACKEND_ID_BYTES : Z := 64.
Definition MAX_TIER_OBJECT_URI_BYTES : Z := 512.
Definition MAX_TIER_VERSION_ID_BYTES : Z := 128.
Definition MAX_TRANSITION_QUORUM : Z := 32.

Definition BASELINE_FEATURE_LEVEL : u32 := wrap_int U32 3.
Definition SUPPORTED_FEATURE_LEVEL : u32 := wrap_int U32 5.

Definition NOT_LEASEHOLDER : string :=
  "the commit is not the range's leaseholder's at the current fencing epoch".
Definition NOT_ASSIGNED : string := "member is not assigned the cursor topic/range".

(** * Field types *)

Module CommandEnvelope.
Record t := mk { request_id : Uuid; issued_at_ms : i64 }.
#[global] Instance t_eq_dec : EqDecision t.
Proof. solve_decision. Defined.
End CommandEnvelope.

Module NodeState.
Inductive t := Active | Draining | Dead.
#[global] Instance t_eq_dec : EqDecision t.
Proof. solve_decision. Defined.

(** [as_str], which is also the [Display] form. *)
Definition as_str (s : t) : string :=
  match s with Active => "active" | Draining => "draining" | Dead => "dead" end.

Definition wire_tag (s : t) : u8 :=
  wrap_int U8 match s with Active => 1 | Draining => 2 | Dead => 3 end.

Definition from_wire (tag : u8) : result CodecError t :=
  match ival tag with
  | 1 => Ok Active
  | 2 => Ok Draining
  | 3 => Ok Dead
  | other => Err (UnknownTag "node state" other)
  end.
End NodeState.

Module VerificationMethod.
Inductive t := AuthenticatedContentRoot.
#[global] Instance t_eq_dec : EqDecision t.
Proof. solve_decision. Defined.

Definition wire_tag (m : t) : u8 :=
  wrap_int U8 match m with AuthenticatedContentRoot => 1 end.

Definition from_wire (tag : u8) : result CodecError t :=
  match ival tag with
  | 1 => Ok AuthenticatedContentRoot
  | other => Err (UnknownTag "verification method" other)
  end.
End VerificationMethod.

Module RangeAssignment.
Record t := mk { topic_uuid : Uuid; range_uuid : Uuid }.
#[global] Instance t_eq_dec : EqDecision t.
Proof. solve_decision. Defined.
End RangeAssignment.

Module QuorumAnswer.
Record t := mk { node_uuid : Uuid; offset : u64 }.
#[global] Instance t_eq_dec : EqDecision t.
Proof. solve_decision. Defined.
End QuorumAnswer.

Module PromotionRefusal.
Inductive t := QuorumUnavailable | LeaderBehind | CandidateBehindVoters | BelowPublished.
#[global] Instance t_eq_dec : EqDecision t.
Proof. solve_decision. Defined.

Definition wire_tag (r : t) : u8 :=
  wrap_int U8 match r with
  | QuorumUnavailable => 1 | LeaderBehind => 2 | CandidateBehindVoters => 3
  | BelowPublished => 4
  end.

Definition from_wire (tag : u8) : result CodecError t :=
  match ival tag with
  | 1 => Ok QuorumUnavailable
  | 2 => Ok LeaderBehind
  | 3 => Ok CandidateBehindVoters
  | 4 => Ok BelowPublished
  | other => Err (UnknownTag "promotion refusal" other)
  end.
End PromotionRefusal.

Module PromotionOutcome.
Inductive t :=
  | Established (boundary_offset sealed_prefix_end : option u64)
      (quorum : list QuorumAnswer.t) (votes required : u32)
  | Refused (reason : PromotionRefusal.t).
#[global] Instance t_eq_dec : EqDecision t.
Proof. solve_decision. Defined.
End PromotionOutcome.

(** * Rejections and responses *)

(** [str::is_char_boundary] *)
Definition is_char_boundary (bs : list u8) (i : nat) : bool :=
  bool_decide (i = 0%nat) || bool_decide (i = length bs) ||
  match bs !! i with Some b => negb (is_continuation b) | None => false end.

(** The loop [while !detail.is_char_boundary(cut) { cut -= 1 }]. *)
Fixpoint boundary_at_or_below (bs : list u8) (cut : nat) : nat :=
  if is_char_boundary bs cut then cut
  else match cut with O => O | S cut' => boundary_at_or_below bs cut' end.

Definition bound_detail (detail : string) : string :=
  if decide (str_len detail > MAX_ERROR_DETAIL_BYTES) then
    let cut := boundary_at_or_below (as_bytes detail) (Z.to_nat MAX_ERROR_DETAIL_BYTES) in
    string_of_bytes (take cut (as_bytes detail))
  else detail.

Module MetadataError.
Inductive t :=
  | GenerationMismatch (expected actual : u64)
  | EpochMismatch (expected actual : u64)
  | LineageMismatch (expected actual : u64)
  | AlreadyExists
  | NotFound
  | InvalidTransition (detail : string)
  | Limit (detail : string).
#[global] Instance t_eq_dec : EqDecision t.
Proof. solve_decision. Defined.

Definition invalid_transition (detail : string) : t := InvalidTransition (bound_detail detail).
Definition limit (detail : string) : t := Limit (bound_detail detail).
End MetadataError.

Module MetadataResponse.
Inductive t :=
  | Ack (generation : u64)
  | TopicCreated (topic_uuid : Uuid) (topic_epoch : u64) (root_range_uuid : Uuid)
  | LeaseGranted (fencing_epoch : u64)
  | GroupCreated (group_uuid : Uuid) (generation : u64)
  | MemberJoined (member_generation group_generation : u64)
  | CursorCommitted (checkpoint_generation : u64)
  | TransitionRecorded (fencing_epoch : u64)
  | Rejected (error : MetadataError.t).
#[global] Instance t_eq_dec : EqDecision t.
Proof. solve_decision. Defined.
End MetadataResponse.

(** [reject] of state.rs *)
Definition reject (error : MetadataError.t) : MetadataResponse.t :=
  MetadataResponse.Rejected error.

Definition is_rejected (r : MetadataResponse.t) : bool :=
  match r with MetadataResponse.Rejected _ => true | _ => false end.

(** * Commands *)

Module MetadataCommand.

Inductive t :=
  | RegisterNode (env : CommandEnvelope.t) (node_uuid : Uuid) (addr : string)
      (expected_generation : option u64)
  | SetNodeState (env : CommandEnvelope.t) (node_uuid : Uuid) (state : NodeState.t)
      (expected_generation : u64)
  | CreateTopic (env : CommandEnvelope.t) (name : string) (topic_uuid root_range_uuid : Uuid)
  | GrantRangeLease (env : CommandEnvelope.t) (topic_uuid range_uuid holder_node_uuid : Uuid)
      (expected_range_generation : u64)
  | ReleaseRangeLease (env : CommandEnvelope.t) (topic_uuid range_uuid : Uuid)
      (expected_fencing_epoch : u64)
  | AcquireRangeLease (env : CommandEnvelope.t) (topic_uuid range_uuid holder_node_uuid : Uuid)
      (expected_range_generation lease_duration_ms : u64)
  | RenewRangeLease (env : CommandEnvelope.t) (topic_uuid range_uuid holder_node_uuid : Uuid)
      (expected_fencing_epoch lease_duration_ms : u64)
  | ReportPromotionOutcome (env : CommandEnvelope.t)
      (topic_uuid range_uuid holder_node_uuid : Uuid) (fencing_epoch : u64)
      (outcome : PromotionOutcome.t)
  | SplitRange (env : CommandEnvelope.t)
      (topic_uuid parent_range_uuid left_range_uuid right_range_uuid transition_id : Uuid)
      (barrier_offset expected_range_generation : u64) (holder_node_uuid : Uuid)
      (fencing_epoch : u64)
  | RegisterSealedSegment (env : CommandEnvelope.t)
      (topic_uuid range_uuid segment_uuid : Uuid)
      (segment_generation base_offset next_offset : u64) (content_root : bytes32)
      (sealed_by_epoch expected_range_generation : u64)
  | MarkSegmentVerified (env : CommandEnvelope.t) (topic_uuid range_uuid segment_uuid : Uuid)
      (content_root : bytes32) (expected_generation : u64)
  | PutKeyRecord (env : CommandEnvelope.t) (key_uuid : Uuid) (scheme : u16)
      (public_material_digest : bytes32)
  | CreateConsumerGroup (env : CommandEnvelope.t) (name : string) (group_uuid : Uuid)
  | JoinConsumerGroup (env : CommandEnvelope.t) (group_uuid member_uuid : Uuid)
      (expected_group_generation : u64)
  | LeaveConsumerGroup (env : CommandEnvelope.t) (group_uuid member_uuid : Uuid)
      (expected_member_generation : u64)
  | AssignMemberRanges (env : CommandEnvelope.t) (group_uuid member_uuid : Uuid)
      (ranges : list RangeAssignment.t) (expected_member_generation : u64)
  | CommitGroupCursor (env : CommandEnvelope.t)
      (group_uuid member_uuid topic_uuid range_uuid : Uuid)
      (topic_epoch range_generation : u64) (segment_uuid : Uuid) (segment_generation : u64)
      (segment_root : bytes32) (record_offset record_index : u64)
      (lineage_transition_id : option Uuid) (expected_checkpoint_generation : option u64)
  | HeartbeatMember (env : CommandEnvelope.t) (group_uuid member_uuid : Uuid)
  | EnsureGroupMemberForRange (env : CommandEnvelope.t) (name : string)
      (group_uuid member_uuid topic_uuid range_uuid holder_node_uuid : Uuid)
      (fencing_epoch : u64)
  | CommitGroupCursorFenced (env : CommandEnvelope.t)
      (group_uuid member_uuid topic_uuid range_uuid : Uuid)
      (topic_epoch range_generation : u64) (segment_uuid : Uuid) (segment_generation : u64)
      (segment_root : bytes32) (record_offset record_index : u64)
      (lineage_transition_id : option Uuid) (expected_checkpoint_generation : option u64)
      (holder_node_uuid : Uuid) (fencing_epoch : u64)
  | CommitGroupCursorCoordinated (env : CommandEnvelope.t)
      (group_uuid member_uuid topic_uuid range_uuid : Uuid)
      (coordinator_topic_uuid coordinator_range_uuid : Uuid)
      (topic_epoch range_generation : u64) (segment_uuid : Uuid) (segment_generation : u64)
      (segment_root : bytes32) (record_offset record_index : u64)
      (lineage_transition_id : option Uuid) (expected_checkpoint_generation : option u64)
      (holder_node_uuid : Uuid) (fencing_epoch : u64)
  | EnsureGroupMemberCoordinated (env : CommandEnvelope.t) (name : string)
      (group_uuid member_uuid topic_uuid range_uuid : Uuid)
      (coordinator_topic_uuid coordinator_range_uuid holder_node_uuid : Uuid)
      (fencing_epoch : u64)
  | ExpireStaleMember (env : CommandEnvelope.t) (group_uuid member_uuid : Uuid)
      (stale_before_apply_index : u64)
  | SetNodePlacementAttrs (env : CommandEnvelope.t) (node_uuid : Uuid)
      (failure_domain : string) (placement_weight : u32) (expected_generation : u64)
  | CommitSegmentPlacement (env : CommandEnvelope.t)
      (topic_uuid range_uuid segment_uuid : Uuid) (replication_factor : u8)
      (replica_nodes : list Uuid) (expected_segment_generation : u64)
      (expected_placement_generation : option u64)
  | CommitReplacementProof (env : CommandEnvelope.t)
      (topic_uuid range_uuid segment_uuid : Uuid) (expected_segment_generation : u64)
      (content_root : bytes32) (expected_length_bytes : u64)
      (source_node_uuid destination_node_uuid : Uuid) (fencing_epoch : u64)
      (verification_method : VerificationMethod.t) (verifier_node_uuid : Uuid)
      (verified_term : u64)
  | PlanReplicaRetirement (env : CommandEnvelope.t)
      (topic_uuid range_uuid segment_uuid retiring_node_uuid : Uuid)
      (expected_segment_generation fencing_epoch : u64)
  | ConfirmReplicaRetired (env : CommandEnvelope.t)
      (topic_uuid range_uuid segment_uuid retiring_node_uuid : Uuid)
      (expected_segment_generation : u64)
  | ProposeRebalance (env : CommandEnvelope.t)
      (topic_uuid range_uuid segment_uuid from_node_uuid to_node_uuid : Uuid)
      (expected_placement_generation : u64)
  | CancelRebalance (env : CommandEnvelope.t) (topic_uuid range_uuid segment_uuid : Uuid)
      (expected_placement_generation : u64)
  | CommitTierEvidence (env : CommandEnvelope.t)
      (topic_uuid range_uuid segment_uuid : Uuid) (expected_segment_generation : u64)
      (content_root : bytes32) (byte_length : u64) (backend_id object_uri : string)
      (object_version_id manifest_version_id : option string)
      (manifest_core_digest : bytes32) (verification_method : VerificationMethod.t)
      (verifier_node_uuid : Uuid) (fencing_epoch verified_term : u64)
  | SetTopicRetentionPolicy (env : CommandEnvelope.t) (topic_uuid : Uuid)
      (unarchived_deletion_allowed : bool) (expected_generation : option u64)
  | PlanRetention (env : CommandEnvelope.t) (topic_uuid range_uuid segment_uuid : Uuid)
      (expected_segment_generation fencing_epoch : u64)
  | ConfirmRetentionExpired (env : CommandEnvelope.t)
      (topic_uuid range_uuid segment_uuid : Uuid) (expected_segment_generation : u64)
  | CancelRetention (env : CommandEnvelope.t) (topic_uuid range_uuid segment_uuid : Uuid)
      (expected_segment_generation : u64)
  | SetFeatureLevel (env : CommandEnvelope.t) (feature_level : u32)
  | SetRangeReplicaSet (env : CommandEnvelope.t) (topic_uuid range_uuid : Uuid)
      (members : list Uuid) (expected_generation : u64).

(** The metadata feature level a command kind needs. *)
Definition feature_level (c : t) : u32 :=
  wrap_int U32 match c with
  | ReportPromotionOutcome _ _ _ _ _ _ => 2
  | CommitGroupCursorFenced _ _ _ _ _ _ _ _ _ _ _ _ _ _ _ _
  | EnsureGroupMemberForRange _ _ _ _ _ _ _ _
  | CommitGroupCursorCoordinated _ _ _ _ _ _ _ _ _ _ _ _ _ _ _ _ _ _
  | EnsureGroupMemberCoordinated _ _ _ _ _ _ _ _ _ _ => 3
  | SplitRange _ _ _ _ _ _ _ _ _ _ | SetFeatureLevel _ _ => 4
  | SetRangeReplicaSet _ _ _ _ _ => 5
  | _ => 1
  end.

Definition envelope (c : t) : CommandEnvelope.t :=
  match c with
  | RegisterNode env _ _ _
  | SetNodeState env _ _ _
  | CreateTopic env _ _ _
  | GrantRangeLease env _ _ _ _
  | AcquireRangeLease env _ _ _ _ _
  | RenewRangeLease env _ _ _ _ _
  | ReportPromotionOutcome env _ _ _ _ _
  | ReleaseRangeLease env _ _ _
  | SplitRange env _ _ _ _ _ _ _ _ _
  | RegisterSealedSegment env _ _ _ _ _ _ _ _ _
  | MarkSegmentVerified env _ _ _ _ _
  | PutKeyRecord env _ _ _
  | CreateConsumerGroup env _ _
  | JoinConsumerGroup env _ _ _
  | LeaveConsumerGroup env _ _ _
  | AssignMemberRanges env _ _ _ _
  | CommitGroupCursor env _ _ _ _ _ _ _ _ _ _ _ _ _
  | CommitGroupCursorFenced env _ _ _ _ _ _ _ _ _ _ _ _ _ _ _
  | EnsureGroupMemberForRange env _ _ _ _ _ _ _
  | CommitGroupCursorCoordinated env _ _ _ _ _ _ _ _ _ _ _ _ _ _ _ _ _
  | EnsureGroupMemberCoordinated env _ _ _ _ _ _ _ _ _
  | HeartbeatMember env _ _
  | ExpireStaleMember env _ _ _
  | SetNodePlacementAttrs env _ _ _ _
  | CommitSegmentPlacement env _ _ _ _ _ _ _
  | CommitReplacementProof env _ _ _ _ _ _ _ _ _ _ _ _
  | PlanReplicaRetirement env _ _ _ _ _ _
  | ConfirmReplicaRetired env _ _ _ _ _
  | ProposeRebalance env _ _ _ _ _ _
  | CancelRebalance env _ _ _ _
  | CommitTierEvidence env _ _ _ _ _ _ _ _ _ _ _ _ _ _ _
  | SetTopicRetentionPolicy env _ _ _
  | PlanRetention env _ _ _ _ _
  | ConfirmRetentionExpired env _ _ _ _
  | CancelRetention env _ _ _ _
  | SetFeatureLevel env _
  | SetRangeReplicaSet env _ _ _ _ => env
  end.

(** The strings of a command are Rust strings, hence valid UTF-8; names are
    what reaches a record key. *)
Definition names_valid (c : t) : Prop :=
  match c with
  | CreateTopic _ name _ _ | CreateConsumerGroup _ name _
  | EnsureGroupMemberForRange _ name _ _ _ _ _ _
  | EnsureGroupMemberCoordinated _ name _ _ _ _ _ _ _ _ => valid_str name
  | _ => True
  end.

End MetadataCommand.

(** * The lease clock-skew bound *)

Definition MIN_LEASE_SKEW_BOUND_MS : Z := 1000.

Definition lease_skew_bound_ms (lease_duration_ms : u64) : Z :=
  Z.min (Z.max (lease_duration_ms `div` 20) MIN_LEASE_SKEW_BOUND_MS)
        (lease_duration_ms `div` 10).

Module LeaseClockSkew.
Record t := mk { request_id : Uuid; skew_ms : i64; bound_ms : Z }.

Definition is_within_bound (s : t) : bool := Z.abs (skew_ms s) <=? bound_ms s.
End LeaseClockSkew.

(** [i64::saturating_sub] *)
Definition i64_saturating_sub (a b : i64) : i64 :=
  wrap_int I64 (Z.max (int_min I64) (Z.min (int_max I64) (a - b))).

Definition lease_clock_skew (c : MetadataCommand.t) (leader_now_ms : i64)
    : option LeaseClockSkew.t :=
  match c with
  | MetadataCommand.AcquireRangeLease env _ _ _ _ lease_duration_ms
  | MetadataCommand.RenewRangeLease env _ _ _ _ lease_duration_ms =>
      Some (LeaseClockSkew.mk (CommandEnvelope.request_id env)
        (i64_saturating_sub (CommandEnvelope.issued_at_ms env) leader_now_ms)
        (lease_skew_bound_ms lease_duration_ms))
  | _ => None
  end.

(** * Error details *)

Module DetailFacts.

(** A continuation byte inside a character is no boundary. *)
Lemma not_boundary bs i b :
  (0 < i)%nat → (i < length bs)%nat → bs !! i = Some b → is_continuation b = true →
  is_char_boundary bs i = false.
Proof.
  intros H0 Hlen Hb Hc. unfold is_char_boundary. rewrite Hb, Hc, !bool_decide_eq_false_2 by lia. done.
Qed.

Lemma boundary_drop c bs i :
  (0 < length c)%nat → (length c < i)%nat → is_char_boundary (c ++ bs) i = true →
  is_char_boundary bs (i - length c) = true.
Proof.
  intros Hc Hi. unfold is_char_boundary. rewrite length_app, lookup_app_r by lia.
  rewrite !orb_true_iff, !bool_decide_eq_true. intuition lia.
Qed.

(** A valid sequence starts with one whole character. *)
Lemma utf8_first bs :
  utf8_valid bs = true → bs ≠ [] →
  ∃ c rest, bs = c ++ rest ∧ (0 < length c)%nat ∧ utf8_valid rest = true ∧
    (∀ rest', utf8_valid rest' = true → utf8_valid (c ++ rest') = true) ∧
    Forall (λ b, is_continuation b = true) (tail c).
Proof.
  unfold is_continuation, in_span. destruct bs as [|b0 r0]; [done|]. cbn [utf8_valid]. unfold is_continuation, in_span.
  destruct (_ && _) eqn:E0.
  { intros Hr _. exists [b0], r0. split_and!; simpl; [done|lia|done| |constructor].
    intros rest' Hr'. unfold in_span. by rewrite E0. }
  destruct r0 as [|b1 r1]; [done|]. destruct ((194 <=? ival b0) && _) eqn:E1.
  { intros [Hc Hr]%andb_true_iff _. exists [b0; b1], r1. split_and!; simpl; [done|lia|done| |].
    - intros rest' Hr'. unfold is_continuation, in_span. by rewrite E0, E1, Hc.
    - by constructor. }
  destruct r1 as [|b2 r2]; [done|]. destruct ((224 <=? ival b0) && _) eqn:E2.
  { intros [[Hb Hc]%andb_true_iff Hr]%andb_true_iff _. exists [b0; b1; b2], r2.
    split_and!; simpl; [done|lia|done| |].
    - intros rest' Hr'. unfold is_continuation, in_span. by rewrite E0, E1, E2, Hb, Hc.
    - repeat constructor; [|done]. destruct (ival b0 =? 224), (ival b0 =? 237); lia. }
  destruct r2 as [|b3 r3]; [done|]. rewrite !andb_true_iff. intros ((((Hb & Hb1) & Hb2) & Hb3) & Hr) _.
  exists [b0; b1; b2; b3], r3. split_and!; simpl; [done|lia|done| |].
  - intros rest' Hr'. unfold is_continuation, in_span. rewrite E0, E1, E2.
    rewrite !andb_true_iff. tauto.
  - repeat constructor; try (apply andb_true_iff; tauto).
    destruct (ival b0 =? 240), (ival b0 =? 244); lia.
Qed.

(** Cutting valid text at a boundary leaves valid text. *)
Lemma utf8_cut bs i :
  utf8_valid bs = true → is_char_boundary bs i = true → utf8_valid (take i bs) = true.
Proof.
  remember (length bs) as n eqn:Hn. revert bs i Hn.
  induction (lt_wf n) as [n _ IH]. intros bs i -> Hv Hi.
  destruct (decide (bs = [])) as [->|Hne]; [by rewrite take_nil|].
  destruct (utf8_first bs Hv Hne) as (c & rest & -> & Hc & Hrest & Happ & Hcont).
  destruct (decide (i = 0%nat)) as [->|Hi0]; [done|].
  destruct (decide (i < length c)%nat) as [Hlt|Hge].
  - exfalso. destruct (lookup_lt_is_Some_2 c i Hlt) as [b Hb].
    rewrite (not_boundary (c ++ rest) i b) in Hi; [done|lia| | |].
    + rewrite length_app. lia.
    + by rewrite lookup_app_l.
    + destruct c as [|c0 c]; [done|]. destruct i as [|i]; [done|]. simpl in *.
      by eapply Forall_lookup_1 in Hcont.
  - rewrite take_app, take_ge by lia. apply Happ.
    destruct (decide (i = length c)) as [->|]; [by rewrite Nat.sub_diag|].
    eapply IH; [|done|done|]; [rewrite length_app; lia|]. apply boundary_drop; [done|lia|done].
Qed.

Lemma boundary_found bs cut :
  (boundary_at_or_below bs cut <= cut)%nat ∧
  is_char_boundary bs (boundary_at_or_below bs cut) = true.
Proof.
  induction cut as [|cut IH]; simpl; [done|].
  destruct (is_char_boundary bs (S cut)) eqn:Hb; [done|]. destruct IH. split; [lia|done].
Qed.

End DetailFacts.

(** An error detail always fits the wire: it is valid text of at most
    MAX_ERROR_DETAIL_BYTES bytes, cut from the front of the original between two
    characters, and not cut at all when it fits. *)
Lemma error_detail_bounded detail :
  valid_str detail →
  valid_str (bound_detail detail) ∧ str_len (bound_detail detail) <= MAX_ERROR_DETAIL_BYTES ∧
  (∃ rest, as_bytes detail = as_bytes (bound_detail detail) ++ rest) ∧
  (str_len detail <= MAX_ERROR_DETAIL_BYTES → bound_detail detail = detail).
Proof.
  intros Hv. unfold bound_detail. case_decide as Hlen.
  2: { split_and!; [done|lia| |done]. exists []. by rewrite app_nil_r. }
  destruct (DetailFacts.boundary_found (as_bytes detail) (Z.to_nat MAX_ERROR_DETAIL_BYTES))
    as [Hle Hb].
  set (cut := boundary_at_or_below _ _) in *. unfold valid_str.
  rewrite <-length_as_bytes, as_string_of_bytes. split_and!; [by apply DetailFacts.utf8_cut| | |lia].
  - rewrite length_take. unfold MAX_ERROR_DETAIL_BYTES in *. lia.
  - exists (drop cut (as_bytes detail)). by rewrite take_drop.
Qed.
