(* ===== verification/Placement.v ===== *)
(** Deterministic replica placement: [crates/vtop-meta/src/placement.rs].

    Hard constraints filter, then weighted rendezvous hashing ranks, then a
    greedy pass picks the replica set.  The BLAKE3 hash is third-party code: a
    parameter ([Blake3]) the ranking uses and no theorem depends on. *)

From stdpp Require Import prelude strings list pretty.
From Stdlib Require Import ZArith Lia.
From S2P Require Import Prelude Wire.

Definition MAX_REPLICAS : nat := 8.
Definition MAX_TRANSIENT_REPLICAS : nat := (MAX_REPLICAS + 1)%nat.
Definition MAX_FAILURE_DOMAIN_BYTES : Z := 64.
Definition DEFAULT_PLACEMENT_WEIGHT : u32 := wrap_int U32 100.
Definition MIN_PLACEMENT_WEIGHT : Z := 1.

Definition RENDEZVOUS_DERIVE_KEY : string := "vtop-meta/placement/rendezvous/v1".

(** [blake3::Hasher::new_derive_key(context)] updated with [input] and
    finalized. *)
Class Blake3 := blake3_derive_key : string → list u8 → bytes32.

Module PlacementCandidate.
Record t := mk { node_uuid : Uuid; failure_domain : string; weight : u32 }.
End PlacementCandidate.

Inductive PlacementError :=
  | InvalidReplicationFactor (rf : nat)
  | InsufficientEligibleNodes (requested available : nat).

Definition PlacementError_display (e : PlacementError) : string :=
  match e with
  | InvalidReplicationFactor rf =>
      "replication factor " +:+ pretty rf +:+ " must be 1..=" +:+ pretty MAX_REPLICAS
  | InsufficientEligibleNodes requested available =>
      "need " +:+ pretty requested +:+ " eligible replica(s), only " +:+ pretty available +:+
      " available"
  end.

Section placement.
Context `{!Blake3}.

Definition rendezvous_score (segment_uuid node_uuid : Uuid) (weight : u32) : u128 :=
  let weight := Z.max weight MIN_PLACEMENT_WEIGHT in
  let digest := blake3_derive_key RENDEZVOUS_DERIVE_KEY
                  (put_uuid segment_uuid ++ put_uuid node_uuid) in
  let hash := from_be_bytes U64 (take 8 (to_be_bytes digest)) in
  wrap_int U128 (hash * weight).

(** A ranked candidate: score, node and failure domain. *)
Abbreviation ranked := (u128 * Uuid * string)%type.

(** Descending score, then ascending node id. *)
Definition ranked_before (l r : ranked) : Prop :=
  ival r.1.1 < ival l.1.1 ∨ (ival l.1.1 = ival r.1.1 ∧ ival l.1.2 <= ival r.1.2).

#[global] Instance ranked_before_dec : RelDecision ranked_before.
Proof. intros l r. unfold ranked_before. apply _. Defined.

Definition rank (segment_uuid : Uuid) (candidates : list PlacementCandidate.t)
    : list ranked :=
  stable_sort ranked_before
    ((λ c, (rendezvous_score segment_uuid (PlacementCandidate.node_uuid c)
              (PlacementCandidate.weight c),
            PlacementCandidate.node_uuid c, PlacementCandidate.failure_domain c)) <$>
     filter (λ c, PlacementCandidate.weight c >= MIN_PLACEMENT_WEIGHT) candidates).

(** The greedy pass: [selected] and [used_domains] so far, in order. *)
Fixpoint select_loop (requested : nat) (distinct : bool) (ranked : list ranked)
    (selected : list Uuid) (used_domains : list string)
    : result PlacementError (list Uuid) :=
  match ranked with
  | [] => Err (InsufficientEligibleNodes requested (length selected))
  | (_, node_uuid, domain) :: ranked' =>
      if decide (node_uuid ∈ selected) then
        select_loop requested distinct ranked' selected used_domains
      else if distinct && bool_decide (domain ∈ used_domains) then
        select_loop requested distinct ranked' selected used_domains
      else
        let selected' := selected ++ [node_uuid] in
        if decide (length selected' = requested) then Ok selected'
        else select_loop requested distinct ranked' selected' (used_domains ++ [domain])
  end.

Definition select_replicas (segment_uuid : Uuid) (candidates : list PlacementCandidate.t)
    (replication_factor : nat) (require_distinct_failure_domains : bool)
    : result PlacementError (list Uuid) :=
  if decide (1 ≤ replication_factor ≤ MAX_REPLICAS)%nat then
    select_loop replication_factor require_distinct_failure_domains
      (rank segment_uuid candidates) [] []
  else Err (InvalidReplicationFactor replication_factor).

(** * The selected set *)

Lemma elem_of_rank segment candidates s u d :
  (s, u, d) ∈ rank segment candidates →
  ∃ c, c ∈ candidates ∧ PlacementCandidate.node_uuid c = u ∧
       PlacementCandidate.failure_domain c = d ∧
       PlacementCandidate.weight c >= MIN_PLACEMENT_WEIGHT.
Proof.
  unfold rank. rewrite stable_sort_Permutation, list_elem_of_fmap.
  intros (c & [= -> -> ->] & [Hw Hc]%list_elem_of_filter). eauto.
Qed.

(** What the loop keeps true of the nodes selected so far: they are distinct,
    each came from a ranked entry, and — when distinct domains are required —
    their domains are the ones recorded, without repetition. *)
Definition selection_inv (all : list ranked) (distinct : bool)
    (selected : list Uuid) (used : list string) : Prop :=
  NoDup selected ∧
  Forall2 (λ u d, ∃ s, (s, u, d) ∈ all) selected used ∧
  (distinct = true → NoDup used).

Lemma selection_inv_snoc all distinct selected used s u d :
  selection_inv all distinct selected used → (s, u, d) ∈ all →
  u ∉ selected → distinct && bool_decide (d ∈ used) = false →
  selection_inv all distinct (selected ++ [u]) (used ++ [d]).
Proof.
  intros (Hnd & Hall & Hdom) Hin Hu Hd. split_and!.
  - apply NoDup_app. split_and!; [done| |apply NoDup_singleton].
    by intros x Hx ->%list_elem_of_singleton.
  - apply Forall2_app; [done|]. constructor; [by eauto|constructor].
  - intros ->. simpl in Hd. apply bool_decide_eq_false in Hd.
    apply NoDup_app. split_and!; [by apply Hdom| |apply NoDup_singleton].
    by intros x Hx ->%list_elem_of_singleton.
Qed.

Lemma select_loop_Ok requested distinct todo all selected used out :
  (∀ x, x ∈ todo → x ∈ all) → selection_inv all distinct selected used →
  select_loop requested distinct todo selected used = Ok out →
  length out = requested ∧ ∃ used', selection_inv all distinct out used'.
Proof.
  revert selected used; induction todo as [|[[s u] d] todo IH];
    intros selected used Hsub Hinv; simpl; [done|].
  assert (∀ x, x ∈ todo → x ∈ all) as Hsub' by (intros x Hx; apply Hsub; by right).
  destruct (decide (u ∈ selected)); [by apply IH|].
  destruct (distinct && bool_decide (d ∈ used)) eqn:Hd; [by apply IH|].
  assert (selection_inv all distinct (selected ++ [u]) (used ++ [d])) as Hinv'.
  { eapply selection_inv_snoc; try done. apply Hsub. left. }
  destruct (decide (length (selected ++ [u]) = requested)) as [Hlen|]; [|by apply IH].
  intros <-%Ok_inj. split; [done|]. by eexists.
Qed.
End placement.

(** What a committed placement rests on: the selected replicas are exactly as
    many as asked for, all distinct, all eligible candidates, and — when the
    caller requires it — in pairwise distinct failure domains. *)
Lemma select_replicas_sound `{!Blake3} segment candidates rf distinct out :
  select_replicas segment candidates rf distinct = Ok out →
  length out = rf ∧ (1 ≤ rf ≤ MAX_REPLICAS)%nat ∧ NoDup out ∧
  ∃ domains, Forall2 (λ u d, ∃ c, c ∈ candidates ∧ PlacementCandidate.node_uuid c = u ∧
      PlacementCandidate.failure_domain c = d ∧
      PlacementCandidate.weight c >= MIN_PLACEMENT_WEIGHT) out domains ∧
    (distinct = true → NoDup domains).
Proof.
  unfold select_replicas. case_decide as Hrf; [|done]. intros Hs.
  eapply (select_loop_Ok _ _ _ (rank segment candidates)) in Hs as (Hlen & used & Hnd & Hall & Hd).
  - split_and!; try done; try lia. exists used. split; [|done].
    eapply Forall2_impl; [done|]. intros u d [s Hud]. by apply elem_of_rank in Hud.
  - done.
  - split_and!; [constructor|constructor|intros _; constructor].
Qed.
