(* ===== verification/CommandCodec.v ===== *)
(** The command codec of [crates/vtop-meta/src/command.rs]: what the replicated log
    and the admin transport carry.

    One [write_*] and one [read_*] per command, the arms of
    [MetadataCommand::encode] and [MetadataCommand::decode_from], with the fields
    in the order the code appends and reads them. *)

From stdpp Require Import prelude strings list.
From Stdlib Require Import ZArith Lia.
From S2P Require Import Prelude Wire Codec Keys Command Placement.

(** * Field codecs *)

Abbreviation emit := (@Ok CodecError (list u8)).

Definition put_kind (kind : Z) : list u8 := put_u16 (wrap_int U16 kind).

Definition encode_envelope (env : CommandEnvelope.t) : Writer :=
  writes
    [emit (put_uuid (CommandEnvelope.request_id env));
     emit (put_i64 (CommandEnvelope.issued_at_ms env))].

Definition decode_envelope : Reader CommandEnvelope.t :=
  request_id ← read_uuid "request id";
  issued_at_ms ← read_i64 "issued-at millis";
  mret (CommandEnvelope.mk request_id issued_at_ms).

Definition encode_optional_u64 : option u64 → Writer :=
  write_optional (λ value, emit (put_u64 value)).
Definition decode_optional_u64 (what : string) : Reader (option u64) :=
  read_optional (read_u64 what) what.

Definition encode_optional_uuid : option Uuid → Writer :=
  write_optional (λ value, emit (put_uuid value)).
Definition decode_optional_uuid (what : string) : Reader (option Uuid) :=
  read_optional (read_uuid what) what.

Definition write_assignment (range : RangeAssignment.t) : Writer :=
  writes
    [emit (put_uuid (RangeAssignment.topic_uuid range));
     emit (put_uuid (RangeAssignment.range_uuid range))].

Definition read_assignment : Reader RangeAssignment.t :=
  topic_uuid ← read_uuid "assigned topic uuid";
  range_uuid ← read_uuid "assigned range uuid";
  mret (RangeAssignment.mk topic_uuid range_uuid).

Definition encode_range_assignments : list RangeAssignment.t → Writer :=
  write_counted write_assignment MAX_ASSIGNED_RANGES "assigned ranges".
Definition decode_range_assignments : Reader (list RangeAssignment.t) :=
  read_counted read_assignment MAX_ASSIGNED_RANGES "assigned range count" "assigned ranges".

Definition encode_uuid_list (values : list Uuid) (maximum : Z) (what : string) : Writer :=
  write_counted (λ value, emit (put_uuid value)) maximum what values.
Definition decode_uuid_list (maximum : Z) (what : string) : Reader (list Uuid) :=
  read_counted (read_uuid what) maximum what what.

Definition write_answer (answer : QuorumAnswer.t) : Writer :=
  writes
    [emit (put_uuid (QuorumAnswer.node_uuid answer));
     emit (put_u64 (QuorumAnswer.offset answer))].

Definition read_answer : Reader QuorumAnswer.t :=
  node_uuid ← read_uuid "promotion quorum node";
  offset ← read_u64 "promotion quorum offset";
  mret (QuorumAnswer.mk node_uuid offset).

Definition encode_promotion_outcome (outcome : PromotionOutcome.t) : Writer :=
  match outcome with
  | PromotionOutcome.Established boundary_offset sealed_prefix_end quorum votes required =>
      writes
        [emit (put_u8 (wrap_int U8 1)); encode_optional_u64 boundary_offset;
         encode_optional_u64 sealed_prefix_end;
         write_counted write_answer MAX_TRANSITION_QUORUM "promotion quorum answers" quorum;
         emit (put_u32 votes); emit (put_u32 required)]
  | PromotionOutcome.Refused reason =>
      writes
        [emit (put_u8 (wrap_int U8 2)); emit (put_u8 (PromotionRefusal.wire_tag reason))]
  end.

Definition decode_promotion_outcome : Reader PromotionOutcome.t :=
  tag ← read_u8 "promotion outcome";
  match ival tag with
  | 1 =>
      boundary_offset ← decode_optional_u64 "promotion boundary offset";
      sealed_prefix_end ← decode_optional_u64 "promotion sealed prefix end";
      quorum ← read_counted read_answer MAX_TRANSITION_QUORUM
                 "promotion quorum answer count" "promotion quorum answers";
      votes ← read_u32 "promotion votes";
      required ← read_u32 "promotion required votes";
      mret (PromotionOutcome.Established boundary_offset sealed_prefix_end quorum votes
              required)
  | 2 =>
      reason ← read_tagged PromotionRefusal.from_wire "promotion refusal";
      mret (PromotionOutcome.Refused reason)
  | other => fail_with (UnknownTag "promotion outcome" other)
  end.

Definition require_nonempty (what s : string) : Reader unit :=
  reject_value (s = EmptyString) what "must not be empty".

(** A trailing field added after the format was fixed: [None] writes nothing, and
    a reader takes it only when bytes remain. *)
Definition write_extension {A} (write : A → Writer) (value : option A) : Writer :=
  match value with
  | None => emit []
  | Some a => writes [emit (put_flag true); write a]
  end.

Definition read_extension {A} (read : Reader A) (what : string) : Reader (option A) :=
  rest ← remaining;
  if decide (rest = 0) then mret None
  else
    present ← read_flag what;
    if (present : bool) then a ← read; mret (Some a)
    else fail_with (InvalidValue what "legacy None must omit the extension").

Module CommandCodec.

Abbreviation COMMAND_KIND_REGISTER_NODE := 1%Z.
Abbreviation COMMAND_KIND_SET_NODE_STATE := 2%Z.
Abbreviation COMMAND_KIND_CREATE_TOPIC := 3%Z.
Abbreviation COMMAND_KIND_GRANT_RANGE_LEASE := 4%Z.
Abbreviation COMMAND_KIND_RELEASE_RANGE_LEASE := 5%Z.
Abbreviation COMMAND_KIND_REGISTER_SEALED_SEGMENT := 6%Z.
Abbreviation COMMAND_KIND_MARK_SEGMENT_VERIFIED := 7%Z.
Abbreviation COMMAND_KIND_PUT_KEY_RECORD := 8%Z.
Abbreviation COMMAND_KIND_CREATE_CONSUMER_GROUP := 9%Z.
Abbreviation COMMAND_KIND_JOIN_CONSUMER_GROUP := 10%Z.
Abbreviation COMMAND_KIND_LEAVE_CONSUMER_GROUP := 11%Z.
Abbreviation COMMAND_KIND_ASSIGN_MEMBER_RANGES := 12%Z.
Abbreviation COMMAND_KIND_COMMIT_GROUP_CURSOR := 13%Z.
Abbreviation COMMAND_KIND_HEARTBEAT_MEMBER := 14%Z.
Abbreviation COMMAND_KIND_EXPIRE_STALE_MEMBER := 15%Z.
Abbreviation COMMAND_KIND_SET_NODE_PLACEMENT_ATTRS := 16%Z.
Abbreviation COMMAND_KIND_COMMIT_SEGMENT_PLACEMENT := 17%Z.
Abbreviation COMMAND_KIND_COMMIT_REPLACEMENT_PROOF := 18%Z.
Abbreviation COMMAND_KIND_PLAN_REPLICA_RETIREMENT := 19%Z.
Abbreviation COMMAND_KIND_CONFIRM_REPLICA_RETIRED := 20%Z.
Abbreviation COMMAND_KIND_PROPOSE_REBALANCE := 21%Z.
Abbreviation COMMAND_KIND_CANCEL_REBALANCE := 22%Z.
Abbreviation COMMAND_KIND_COMMIT_TIER_EVIDENCE := 23%Z.
Abbreviation COMMAND_KIND_SET_TOPIC_RETENTION_POLICY := 24%Z.
Abbreviation COMMAND_KIND_PLAN_RETENTION := 25%Z.
Abbreviation COMMAND_KIND_CONFIRM_RETENTION_EXPIRED := 26%Z.
Abbreviation COMMAND_KIND_CANCEL_RETENTION := 27%Z.
Abbreviation COMMAND_KIND_ACQUIRE_RANGE_LEASE := 28%Z.
Abbreviation COMMAND_KIND_RENEW_RANGE_LEASE := 29%Z.
Abbreviation COMMAND_KIND_REPORT_PROMOTION_OUTCOME := 30%Z.
Abbreviation COMMAND_KIND_COMMIT_GROUP_CURSOR_FENCED := 31%Z.
Abbreviation COMMAND_KIND_ENSURE_GROUP_MEMBER_FOR_RANGE := 32%Z.
Abbreviation COMMAND_KIND_COMMIT_GROUP_CURSOR_COORDINATED := 33%Z.
Abbreviation COMMAND_KIND_ENSURE_GROUP_MEMBER_COORDINATED := 34%Z.
Abbreviation COMMAND_KIND_SPLIT_RANGE := 35%Z.
Abbreviation COMMAND_KIND_SET_FEATURE_LEVEL := 36%Z.
Abbreviation COMMAND_KIND_SET_RANGE_REPLICA_SET := 37%Z.

Definition write_register_node (env : CommandEnvelope.t) (node_uuid : Uuid) (addr : string)
    (expected_generation : option u64) : Writer :=
  writes
    [emit (put_kind COMMAND_KIND_REGISTER_NODE); encode_envelope env;
     emit (put_uuid node_uuid); put_bounded_str addr MAX_NODE_ADDR_BYTES "node address";
     encode_optional_u64 expected_generation].

Definition read_register_node : Reader MetadataCommand.t :=
  env ← decode_envelope;
  node_uuid ← read_uuid "node uuid";
  addr ← read_bounded_str MAX_NODE_ADDR_BYTES "node address";
  require_nonempty "node address" addr;;
  expected_generation ← decode_optional_u64 "expected generation";
  mret (MetadataCommand.RegisterNode env node_uuid addr expected_generation).

Definition write_set_node_state (env : CommandEnvelope.t) (node_uuid : Uuid)
    (state : NodeState.t) (expected_generation : u64) : Writer :=
  writes
    [emit (put_kind COMMAND_KIND_SET_NODE_STATE); encode_envelope env;
     emit (put_uuid node_uuid); emit (put_u8 (NodeState.wire_tag state));
     emit (put_u64 expected_generation)].

Definition read_set_node_state : Reader MetadataCommand.t :=
  env ← decode_envelope;
  node_uuid ← read_uuid "node uuid";
  state ← read_tagged NodeState.from_wire "node state";
  expected_generation ← read_u64 "expected generation";
  mret (MetadataCommand.SetNodeState env node_uuid state expected_generation).

Definition write_create_topic (env : CommandEnvelope.t) (name : string)
    (topic_uuid root_range_uuid : Uuid) : Writer :=
  writes
    [emit (put_kind COMMAND_KIND_CREATE_TOPIC); encode_envelope env;
     put_bounded_str name MAX_TOPIC_NAME_BYTES "topic name"; emit (put_uuid topic_uuid);
     emit (put_uuid root_range_uuid)].

Definition read_create_topic : Reader MetadataCommand.t :=
  env ← decode_envelope;
  name ← read_bounded_str MAX_TOPIC_NAME_BYTES "topic name";
  require_nonempty "topic name" name;;
  topic_uuid ← read_uuid "topic uuid";
  root_range_uuid ← read_uuid "root range uuid";
  mret (MetadataCommand.CreateTopic env name topic_uuid root_range_uuid).

Definition write_grant_range_lease (env : CommandEnvelope.t)
    (topic_uuid range_uuid holder_node_uuid : Uuid) (expected_range_generation : u64) : Writer :=
  writes
    [emit (put_kind COMMAND_KIND_GRANT_RANGE_LEASE); encode_envelope env;
     emit (put_uuid topic_uuid); emit (put_uuid range_uuid); emit (put_uuid holder_node_uuid);
     emit (put_u64 expected_range_generation)].

Definition read_grant_range_lease : Reader MetadataCommand.t :=
  env ← decode_envelope;
  topic_uuid ← read_uuid "topic uuid";
  range_uuid ← read_uuid "range uuid";
  holder_node_uuid ← read_uuid "holder node uuid";
  expected_range_generation ← read_u64 "expected range generation";
  mret (MetadataCommand.GrantRangeLease env topic_uuid range_uuid holder_node_uuid
        expected_range_generation).

Definition write_release_range_lease (env : CommandEnvelope.t) (topic_uuid range_uuid : Uuid)
    (expected_fencing_epoch : u64) : Writer :=
  writes
    [emit (put_kind COMMAND_KIND_RELEASE_RANGE_LEASE); encode_envelope env;
     emit (put_uuid topic_uuid); emit (put_uuid range_uuid);
     emit (put_u64 expected_fencing_epoch)].

Definition read_release_range_lease : Reader MetadataCommand.t :=
  env ← decode_envelope;
  topic_uuid ← read_uuid "topic uuid";
  range_uuid ← read_uuid "range uuid";
  expected_fencing_epoch ← read_u64 "expected fencing epoch";
  mret (MetadataCommand.ReleaseRangeLease env topic_uuid range_uuid expected_fencing_epoch).

Definition write_acquire_range_lease (env : CommandEnvelope.t)
    (topic_uuid range_uuid holder_node_uuid : Uuid)
    (expected_range_generation lease_duration_ms : u64) : Writer :=
  writes
    [emit (put_kind COMMAND_KIND_ACQUIRE_RANGE_LEASE); encode_envelope env;
     emit (put_uuid topic_uuid); emit (put_uuid range_uuid); emit (put_uuid holder_node_uuid);
     emit (put_u64 expected_range_generation); emit (put_u64 lease_duration_ms)].

Definition read_acquire_range_lease : Reader MetadataCommand.t :=
  env ← decode_envelope;
  topic_uuid ← read_uuid "topic uuid";
  range_uuid ← read_uuid "range uuid";
  holder_node_uuid ← read_uuid "holder node uuid";
  expected_range_generation ← read_u64 "expected range generation";
  lease_duration_ms ← read_u64 "lease duration ms";
  mret (MetadataCommand.AcquireRangeLease env topic_uuid range_uuid holder_node_uuid
        expected_range_generation lease_duration_ms).

Definition write_renew_range_lease (env : CommandEnvelope.t)
    (topic_uuid range_uuid holder_node_uuid : Uuid)
    (expected_fencing_epoch lease_duration_ms : u64) : Writer :=
  writes
    [emit (put_kind COMMAND_KIND_RENEW_RANGE_LEASE); encode_envelope env;
     emit (put_uuid topic_uuid); emit (put_uuid range_uuid); emit (put_uuid holder_node_uuid);
     emit (put_u64 expected_fencing_epoch); emit (put_u64 lease_duration_ms)].

Definition read_renew_range_lease : Reader MetadataCommand.t :=
  env ← decode_envelope;
  topic_uuid ← read_uuid "topic uuid";
  range_uuid ← read_uuid "range uuid";
  holder_node_uuid ← read_uuid "holder node uuid";
  expected_fencing_epoch ← read_u64 "expected fencing epoch";
  lease_duration_ms ← read_u64 "lease duration ms";
  mret (MetadataCommand.RenewRangeLease env topic_uuid range_uuid holder_node_uuid
        expected_fencing_epoch lease_duration_ms).

Definition write_report_promotion_outcome (env : CommandEnvelope.t)
    (topic_uuid range_uuid holder_node_uuid : Uuid) (fencing_epoch : u64)
    (outcome : PromotionOutcome.t) : Writer :=
  writes
    [emit (put_kind COMMAND_KIND_REPORT_PROMOTION_OUTCOME); encode_envelope env;
     emit (put_uuid topic_uuid); emit (put_uuid range_uuid); emit (put_uuid holder_node_uuid);
     emit (put_u64 fencing_epoch); encode_promotion_outcome outcome].

Definition read_report_promotion_outcome : Reader MetadataCommand.t :=
  env ← decode_envelope;
  topic_uuid ← read_uuid "topic uuid";
  range_uuid ← read_uuid "range uuid";
  holder_node_uuid ← read_uuid "holder node uuid";
  fencing_epoch ← read_u64 "fencing epoch";
  outcome ← decode_promotion_outcome;
  mret (MetadataCommand.ReportPromotionOutcome env topic_uuid range_uuid holder_node_uuid
        fencing_epoch outcome).

Definition write_split_range (env : CommandEnvelope.t)
    (topic_uuid parent_range_uuid left_range_uuid right_range_uuid transition_id : Uuid)
    (barrier_offset expected_range_generation : u64) (holder_node_uuid : Uuid)
    (fencing_epoch : u64) : Writer :=
  writes
    [emit (put_kind COMMAND_KIND_SPLIT_RANGE); encode_envelope env; emit (put_uuid topic_uuid);
     emit (put_uuid parent_range_uuid); emit (put_uuid left_range_uuid);
     emit (put_uuid right_range_uuid); emit (put_uuid transition_id);
     emit (put_u64 barrier_offset); emit (put_u64 expected_range_generation);
     emit (put_uuid holder_node_uuid); emit (put_u64 fencing_epoch)].

Definition read_split_range : Reader MetadataCommand.t :=
  env ← decode_envelope;
  topic_uuid ← read_uuid "topic uuid";
  parent_range_uuid ← read_uuid "parent range uuid";
  left_range_uuid ← read_uuid "left range uuid";
  right_range_uuid ← read_uuid "right range uuid";
  transition_id ← read_uuid "transition id";
  barrier_offset ← read_u64 "barrier offset";
  expected_range_generation ← read_u64 "expected range generation";
  holder_node_uuid ← read_uuid "holder node uuid";
  fencing_epoch ← read_u64 "fencing epoch";
  mret (MetadataCommand.SplitRange env topic_uuid parent_range_uuid left_range_uuid
        right_range_uuid transition_id barrier_offset expected_range_generation
        holder_node_uuid fencing_epoch).

Definition write_set_feature_level (env : CommandEnvelope.t) (feature_level : u32) : Writer :=
  writes
    [emit (put_kind COMMAND_KIND_SET_FEATURE_LEVEL); encode_envelope env;
     emit (put_u32 feature_level)].

Definition read_set_feature_level : Reader MetadataCommand.t :=
  env ← decode_envelope;
  feature_level ← read_u32 "feature level";
  mret (MetadataCommand.SetFeatureLevel env feature_level).

Definition write_set_range_replica_set (env : CommandEnvelope.t) (topic_uuid range_uuid : Uuid)
    (members : list Uuid) (expected_generation : u64) : Writer :=
  writes
    [emit (put_kind COMMAND_KIND_SET_RANGE_REPLICA_SET); encode_envelope env;
     emit (put_uuid topic_uuid); emit (put_uuid range_uuid);
     encode_uuid_list members (Z.of_nat MAX_REPLICAS) "replica set members";
     emit (put_u64 expected_generation)].

Definition read_set_range_replica_set : Reader MetadataCommand.t :=
  env ← decode_envelope;
  topic_uuid ← read_uuid "topic uuid";
  range_uuid ← read_uuid "range uuid";
  members ← decode_uuid_list (Z.of_nat MAX_REPLICAS) "replica set members";
  expected_generation ← read_u64 "expected replica set generation";
  mret (MetadataCommand.SetRangeReplicaSet env topic_uuid range_uuid members
        expected_generation).

Definition write_register_sealed_segment (env : CommandEnvelope.t)
    (topic_uuid range_uuid segment_uuid : Uuid) (segment_generation base_offset next_offset : u64)
    (content_root : bytes32) (sealed_by_epoch expected_range_generation : u64) : Writer :=
  writes
    [emit (put_kind COMMAND_KIND_REGISTER_SEALED_SEGMENT); encode_envelope env;
     emit (put_uuid topic_uuid); emit (put_uuid range_uuid); emit (put_uuid segment_uuid);
     emit (put_u64 segment_generation); emit (put_u64 base_offset); emit (put_u64 next_offset);
     emit (put_bytes32 content_root); emit (put_u64 sealed_by_epoch);
     emit (put_u64 expected_range_generation)].

Definition read_register_sealed_segment : Reader MetadataCommand.t :=
  env ← decode_envelope;
  topic_uuid ← read_uuid "topic uuid";
  range_uuid ← read_uuid "range uuid";
  segment_uuid ← read_uuid "segment uuid";
  segment_generation ← read_u64 "segment generation";
  base_offset ← read_u64 "base offset";
  next_offset ← read_u64 "next offset";
  content_root ← read_bytes32 "content root";
  sealed_by_epoch ← read_u64 "sealed-by epoch";
  expected_range_generation ← read_u64 "expected range generation";
  mret (MetadataCommand.RegisterSealedSegment env topic_uuid range_uuid segment_uuid
        segment_generation base_offset next_offset content_root sealed_by_epoch
        expected_range_generation).

Definition write_mark_segment_verified (env : CommandEnvelope.t)
    (topic_uuid range_uuid segment_uuid : Uuid) (content_root : bytes32)
    (expected_generation : u64) : Writer :=
  writes
    [emit (put_kind COMMAND_KIND_MARK_SEGMENT_VERIFIED); encode_envelope env;
     emit (put_uuid topic_uuid); emit (put_uuid range_uuid); emit (put_uuid segment_uuid);
     emit (put_bytes32 content_root); emit (put_u64 expected_generation)].

Definition read_mark_segment_verified : Reader MetadataCommand.t :=
  env ← decode_envelope;
  topic_uuid ← read_uuid "topic uuid";
  range_uuid ← read_uuid "range uuid";
  segment_uuid ← read_uuid "segment uuid";
  content_root ← read_bytes32 "content root";
  expected_generation ← read_u64 "expected generation";
  mret (MetadataCommand.MarkSegmentVerified env topic_uuid range_uuid segment_uuid content_root
        expected_generation).

Definition write_put_key_record (env : CommandEnvelope.t) (key_uuid : Uuid) (scheme : u16)
    (public_material_digest : bytes32) : Writer :=
  writes
    [emit (put_kind COMMAND_KIND_PUT_KEY_RECORD); encode_envelope env;
     emit (put_uuid key_uuid); emit (put_u16 scheme); emit (put_bytes32 public_material_digest)].

Definition read_put_key_record : Reader MetadataCommand.t :=
  env ← decode_envelope;
  key_uuid ← read_uuid "key uuid";
  scheme ← read_u16 "key scheme";
  public_material_digest ← read_bytes32 "public material digest";
  mret (MetadataCommand.PutKeyRecord env key_uuid scheme public_material_digest).

Definition write_create_consumer_group (env : CommandEnvelope.t) (name : string)
    (group_uuid : Uuid) : Writer :=
  writes
    [emit (put_kind COMMAND_KIND_CREATE_CONSUMER_GROUP); encode_envelope env;
     put_bounded_str name MAX_GROUP_NAME_BYTES "group name"; emit (put_uuid group_uuid)].

Definition read_create_consumer_group : Reader MetadataCommand.t :=
  env ← decode_envelope;
  name ← read_bounded_str MAX_GROUP_NAME_BYTES "group name";
  require_nonempty "group name" name;;
  group_uuid ← read_uuid "group uuid";
  mret (MetadataCommand.CreateConsumerGroup env name group_uuid).

Definition write_join_consumer_group (env : CommandEnvelope.t) (group_uuid member_uuid : Uuid)
    (expected_group_generation : u64) : Writer :=
  writes
    [emit (put_kind COMMAND_KIND_JOIN_CONSUMER_GROUP); encode_envelope env;
     emit (put_uuid group_uuid); emit (put_uuid member_uuid);
     emit (put_u64 expected_group_generation)].

Definition read_join_consumer_group : Reader MetadataCommand.t :=
  env ← decode_envelope;
  group_uuid ← read_uuid "group uuid";
  member_uuid ← read_uuid "member uuid";
  expected_group_generation ← read_u64 "expected group generation";
  mret (MetadataCommand.JoinConsumerGroup env group_uuid member_uuid expected_group_generation).

Definition write_leave_consumer_group (env : CommandEnvelope.t) (group_uuid member_uuid : Uuid)
    (expected_member_generation : u64) : Writer :=
  writes
    [emit (put_kind COMMAND_KIND_LEAVE_CONSUMER_GROUP); encode_envelope env;
     emit (put_uuid group_uuid); emit (put_uuid member_uuid);
     emit (put_u64 expected_member_generation)].

Definition read_leave_consumer_group : Reader MetadataCommand.t :=
  env ← decode_envelope;
  group_uuid ← read_uuid "group uuid";
  member_uuid ← read_uuid "member uuid";
  expected_member_generation ← read_u64 "expected member generation";
  mret (MetadataCommand.LeaveConsumerGroup env group_uuid member_uuid
        expected_member_generation).

Definition write_assign_member_ranges (env : CommandEnvelope.t) (group_uuid member_uuid : Uuid)
    (ranges : list RangeAssignment.t) (expected_member_generation : u64) : Writer :=
  writes
    [emit (put_kind COMMAND_KIND_ASSIGN_MEMBER_RANGES); encode_envelope env;
     emit (put_uuid group_uuid); emit (put_uuid member_uuid); encode_range_assignments ranges;
     emit (put_u64 expected_member_generation)].

Definition read_assign_member_ranges : Reader MetadataCommand.t :=
  env ← decode_envelope;
  group_uuid ← read_uuid "group uuid";
  member_uuid ← read_uuid "member uuid";
  ranges ← decode_range_assignments;
  expected_member_generation ← read_u64 "expected member generation";
  mret (MetadataCommand.AssignMemberRanges env group_uuid member_uuid ranges
        expected_member_generation).

Definition write_commit_group_cursor (env : CommandEnvelope.t)
    (group_uuid member_uuid topic_uuid range_uuid : Uuid) (topic_epoch range_generation : u64)
    (segment_uuid : Uuid) (segment_generation : u64) (segment_root : bytes32)
    (record_offset record_index : u64) (lineage_transition_id : option Uuid)
    (expected_checkpoint_generation : option u64) : Writer :=
  writes
    [emit (put_kind COMMAND_KIND_COMMIT_GROUP_CURSOR); encode_envelope env;
     emit (put_uuid group_uuid); emit (put_uuid member_uuid); emit (put_uuid topic_uuid);
     emit (put_uuid range_uuid); emit (put_u64 topic_epoch); emit (put_u64 range_generation);
     emit (put_uuid segment_uuid); emit (put_u64 segment_generation);
     emit (put_bytes32 segment_root); emit (put_u64 record_offset);
     emit (put_u64 record_index); encode_optional_uuid lineage_transition_id;
     encode_optional_u64 expected_checkpoint_generation].

Definition read_commit_group_cursor : Reader MetadataCommand.t :=
  env ← decode_envelope;
  group_uuid ← read_uuid "group uuid";
  member_uuid ← read_uuid "member uuid";
  topic_uuid ← read_uuid "topic uuid";
  range_uuid ← read_uuid "range uuid";
  topic_epoch ← read_u64 "topic epoch";
  range_generation ← read_u64 "range generation";
  segment_uuid ← read_uuid "segment uuid";
  segment_generation ← read_u64 "segment generation";
  segment_root ← read_bytes32 "segment root";
  record_offset ← read_u64 "record offset";
  record_index ← read_u64 "record index";
  lineage_transition_id ← decode_optional_uuid "lineage transition id";
  expected_checkpoint_generation ← decode_optional_u64 "expected checkpoint generation";
  mret (MetadataCommand.CommitGroupCursor env group_uuid member_uuid topic_uuid range_uuid
        topic_epoch range_generation segment_uuid segment_generation segment_root record_offset
        record_index lineage_transition_id expected_checkpoint_generation).

Definition write_ensure_group_member_for_range (env : CommandEnvelope.t) (name : string)
    (group_uuid member_uuid topic_uuid range_uuid holder_node_uuid : Uuid) (fencing_epoch : u64)
    : Writer :=
  writes
    [emit (put_kind COMMAND_KIND_ENSURE_GROUP_MEMBER_FOR_RANGE); encode_envelope env;
     put_bounded_str name MAX_GROUP_NAME_BYTES "group name"; emit (put_uuid group_uuid);
     emit (put_uuid member_uuid); emit (put_uuid topic_uuid); emit (put_uuid range_uuid);
     emit (put_uuid holder_node_uuid); emit (put_u64 fencing_epoch)].

Definition read_ensure_group_member_for_range : Reader MetadataCommand.t :=
  env ← decode_envelope;
  name ← read_bounded_str MAX_GROUP_NAME_BYTES "group name";
  require_nonempty "group name" name;;
  group_uuid ← read_uuid "group uuid";
  member_uuid ← read_uuid "member uuid";
  topic_uuid ← read_uuid "topic uuid";
  range_uuid ← read_uuid "range uuid";
  holder_node_uuid ← read_uuid "holder node uuid";
  fencing_epoch ← read_u64 "fencing epoch";
  mret (MetadataCommand.EnsureGroupMemberForRange env name group_uuid member_uuid topic_uuid
        range_uuid holder_node_uuid fencing_epoch).

Definition write_commit_group_cursor_fenced (env : CommandEnvelope.t)
    (group_uuid member_uuid topic_uuid range_uuid : Uuid) (topic_epoch range_generation : u64)
    (segment_uuid : Uuid) (segment_generation : u64) (segment_root : bytes32)
    (record_offset record_index : u64) (lineage_transition_id : option Uuid)
    (expected_checkpoint_generation : option u64) (holder_node_uuid : Uuid) (fencing_epoch : u64)
    : Writer :=
  writes
    [emit (put_kind COMMAND_KIND_COMMIT_GROUP_CURSOR_FENCED); encode_envelope env;
     emit (put_uuid group_uuid); emit (put_uuid member_uuid); emit (put_uuid topic_uuid);
     emit (put_uuid range_uuid); emit (put_u64 topic_epoch); emit (put_u64 range_generation);
     emit (put_uuid segment_uuid); emit (put_u64 segment_generation);
     emit (put_bytes32 segment_root); emit (put_u64 record_offset);
     emit (put_u64 record_index); encode_optional_uuid lineage_transition_id;
     encode_optional_u64 expected_checkpoint_generation; emit (put_uuid holder_node_uuid);
     emit (put_u64 fencing_epoch)].

Definition read_commit_group_cursor_fenced : Reader MetadataCommand.t :=
  env ← decode_envelope;
  group_uuid ← read_uuid "group uuid";
  member_uuid ← read_uuid "member uuid";
  topic_uuid ← read_uuid "topic uuid";
  range_uuid ← read_uuid "range uuid";
  topic_epoch ← read_u64 "topic epoch";
  range_generation ← read_u64 "range generation";
  segment_uuid ← read_uuid "segment uuid";
  segment_generation ← read_u64 "segment generation";
  segment_root ← read_bytes32 "segment root";
  record_offset ← read_u64 "record offset";
  record_index ← read_u64 "record index";
  lineage_transition_id ← decode_optional_uuid "lineage transition id";
  expected_checkpoint_generation ← decode_optional_u64 "expected checkpoint generation";
  holder_node_uuid ← read_uuid "holder node uuid";
  fencing_epoch ← read_u64 "fencing epoch";
  mret (MetadataCommand.CommitGroupCursorFenced env group_uuid member_uuid topic_uuid
        range_uuid topic_epoch range_generation segment_uuid segment_generation segment_root
        record_offset record_index lineage_transition_id expected_checkpoint_generation
        holder_node_uuid fencing_epoch).

Definition write_commit_group_cursor_coordinated (env : CommandEnvelope.t)
    (group_uuid member_uuid topic_uuid range_uuid coordinator_topic_uuid
     coordinator_range_uuid : Uuid)
    (topic_epoch range_generation : u64) (segment_uuid : Uuid) (segment_generation : u64)
    (segment_root : bytes32) (record_offset record_index : u64)
    (lineage_transition_id : option Uuid) (expected_checkpoint_generation : option u64)
    (holder_node_uuid : Uuid) (fencing_epoch : u64) : Writer :=
  writes
    [emit (put_kind COMMAND_KIND_COMMIT_GROUP_CURSOR_COORDINATED); encode_envelope env;
     emit (put_uuid group_uuid); emit (put_uuid member_uuid); emit (put_uuid topic_uuid);
     emit (put_uuid range_uuid); emit (put_uuid coordinator_topic_uuid);
     emit (put_uuid coordinator_range_uuid); emit (put_u64 topic_epoch);
     emit (put_u64 range_generation); emit (put_uuid segment_uuid);
     emit (put_u64 segment_generation); emit (put_bytes32 segment_root);
     emit (put_u64 record_offset); emit (put_u64 record_index);
     encode_optional_uuid lineage_transition_id;
     encode_optional_u64 expected_checkpoint_generation; emit (put_uuid holder_node_uuid);
     emit (put_u64 fencing_epoch)].

Definition read_commit_group_cursor_coordinated : Reader MetadataCommand.t :=
  env ← decode_envelope;
  group_uuid ← read_uuid "group uuid";
  member_uuid ← read_uuid "member uuid";
  topic_uuid ← read_uuid "topic uuid";
  range_uuid ← read_uuid "range uuid";
  coordinator_topic_uuid ← read_uuid "coordinator topic uuid";
  coordinator_range_uuid ← read_uuid "coordinator range uuid";
  topic_epoch ← read_u64 "topic epoch";
  range_generation ← read_u64 "range generation";
  segment_uuid ← read_uuid "segment uuid";
  segment_generation ← read_u64 "segment generation";
  segment_root ← read_bytes32 "segment root";
  record_offset ← read_u64 "record offset";
  record_index ← read_u64 "record index";
  lineage_transition_id ← decode_optional_uuid "lineage transition id";
  expected_checkpoint_generation ← decode_optional_u64 "expected checkpoint generation";
  holder_node_uuid ← read_uuid "holder node uuid";
  fencing_epoch ← read_u64 "fencing epoch";
  mret (MetadataCommand.CommitGroupCursorCoordinated env group_uuid member_uuid topic_uuid
        range_uuid coordinator_topic_uuid coordinator_range_uuid topic_epoch range_generation
        segment_uuid segment_generation segment_root record_offset record_index
        lineage_transition_id expected_checkpoint_generation holder_node_uuid fencing_epoch).

Definition write_ensure_group_member_coordinated (env : CommandEnvelope.t) (name : string)
    (group_uuid member_uuid topic_uuid range_uuid coordinator_topic_uuid
     coordinator_range_uuid holder_node_uuid : Uuid)
    (fencing_epoch : u64) : Writer :=
  writes
    [emit (put_kind COMMAND_KIND_ENSURE_GROUP_MEMBER_COORDINATED); encode_envelope env;
     put_bounded_str name MAX_GROUP_NAME_BYTES "group name"; emit (put_uuid group_uuid);
     emit (put_uuid member_uuid); emit (put_uuid topic_uuid); emit (put_uuid range_uuid);
     emit (put_uuid coordinator_topic_uuid); emit (put_uuid coordinator_range_uuid);
     emit (put_uuid holder_node_uuid); emit (put_u64 fencing_epoch)].

Definition read_ensure_group_member_coordinated : Reader MetadataCommand.t :=
  env ← decode_envelope;
  name ← read_bounded_str MAX_GROUP_NAME_BYTES "group name";
  require_nonempty "group name" name;;
  group_uuid ← read_uuid "group uuid";
  member_uuid ← read_uuid "member uuid";
  topic_uuid ← read_uuid "topic uuid";
  range_uuid ← read_uuid "range uuid";
  coordinator_topic_uuid ← read_uuid "coordinator topic uuid";
  coordinator_range_uuid ← read_uuid "coordinator range uuid";
  holder_node_uuid ← read_uuid "holder node uuid";
  fencing_epoch ← read_u64 "fencing epoch";
  mret (MetadataCommand.EnsureGroupMemberCoordinated env name group_uuid member_uuid topic_uuid
        range_uuid coordinator_topic_uuid coordinator_range_uuid holder_node_uuid fencing_epoch).

Definition write_heartbeat_member (env : CommandEnvelope.t) (group_uuid member_uuid : Uuid)
    : Writer :=
  writes
    [emit (put_kind COMMAND_KIND_HEARTBEAT_MEMBER); encode_envelope env;
     emit (put_uuid group_uuid); emit (put_uuid member_uuid)].

Definition read_heartbeat_member : Reader MetadataCommand.t :=
  env ← decode_envelope;
  group_uuid ← read_uuid "group uuid";
  member_uuid ← read_uuid "member uuid";
  mret (MetadataCommand.HeartbeatMember env group_uuid member_uuid).

Definition write_expire_stale_member (env : CommandEnvelope.t) (group_uuid member_uuid : Uuid)
    (stale_before_apply_index : u64) : Writer :=
  writes
    [emit (put_kind COMMAND_KIND_EXPIRE_STALE_MEMBER); encode_envelope env;
     emit (put_uuid group_uuid); emit (put_uuid member_uuid);
     emit (put_u64 stale_before_apply_index)].

Definition read_expire_stale_member : Reader MetadataCommand.t :=
  env ← decode_envelope;
  group_uuid ← read_uuid "group uuid";
  member_uuid ← read_uuid "member uuid";
  stale_before_apply_index ← read_u64 "stale-before apply index";
  mret (MetadataCommand.ExpireStaleMember env group_uuid member_uuid stale_before_apply_index).

Definition write_set_node_placement_attrs (env : CommandEnvelope.t) (node_uuid : Uuid)
    (failure_domain : string) (placement_weight : u32) (expected_generation : u64) : Writer :=
  writes
    [emit (put_kind COMMAND_KIND_SET_NODE_PLACEMENT_ATTRS); encode_envelope env;
     emit (put_uuid node_uuid);
     put_bounded_str failure_domain MAX_FAILURE_DOMAIN_BYTES "failure domain";
     emit (put_u32 placement_weight); emit (put_u64 expected_generation)].

Definition read_set_node_placement_attrs : Reader MetadataCommand.t :=
  env ← decode_envelope;
  node_uuid ← read_uuid "node uuid";
  failure_domain ← read_bounded_str MAX_FAILURE_DOMAIN_BYTES "failure domain";
  placement_weight ← read_u32 "placement weight";
  reject_value (ival placement_weight < MIN_PLACEMENT_WEIGHT) "placement weight" "must be >= 1";;
  expected_generation ← read_u64 "expected generation";
  mret (MetadataCommand.SetNodePlacementAttrs env node_uuid failure_domain placement_weight
        expected_generation).

Definition write_commit_segment_placement (env : CommandEnvelope.t)
    (topic_uuid range_uuid segment_uuid : Uuid) (replication_factor : u8)
    (replica_nodes : list Uuid) (expected_segment_generation : u64)
    (expected_placement_generation : option u64) : Writer :=
  writes
    [emit (put_kind COMMAND_KIND_COMMIT_SEGMENT_PLACEMENT); encode_envelope env;
     emit (put_uuid topic_uuid); emit (put_uuid range_uuid); emit (put_uuid segment_uuid);
     emit (put_u8 replication_factor);
     encode_uuid_list replica_nodes (Z.of_nat MAX_REPLICAS) "replica nodes";
     emit (put_u64 expected_segment_generation);
     encode_optional_u64 expected_placement_generation].

Definition read_commit_segment_placement : Reader MetadataCommand.t :=
  env ← decode_envelope;
  topic_uuid ← read_uuid "topic uuid";
  range_uuid ← read_uuid "range uuid";
  segment_uuid ← read_uuid "segment uuid";
  replication_factor ← read_u8 "replication factor";
  reject_value (ival replication_factor = 0 ∨ ival replication_factor > Z.of_nat MAX_REPLICAS)
    "replication factor" "must be 1..=MAX_REPLICAS";;
  replica_nodes ← decode_uuid_list (Z.of_nat MAX_REPLICAS) "replica nodes";
  reject_value (Z.of_nat (length replica_nodes) ≠ ival replication_factor)
    "replica nodes" "length must equal replication_factor";;
  expected_segment_generation ← read_u64 "expected segment generation";
  expected_placement_generation ← decode_optional_u64 "expected placement generation";
  mret (MetadataCommand.CommitSegmentPlacement env topic_uuid range_uuid segment_uuid
        replication_factor replica_nodes expected_segment_generation
        expected_placement_generation).

Definition write_commit_replacement_proof (env : CommandEnvelope.t)
    (topic_uuid range_uuid segment_uuid : Uuid) (expected_segment_generation : u64)
    (content_root : bytes32) (expected_length_bytes : u64)
    (source_node_uuid destination_node_uuid : Uuid) (fencing_epoch : u64)
    (verification_method : VerificationMethod.t) (verifier_node_uuid : Uuid) (verified_term : u64)
    : Writer :=
  writes
    [emit (put_kind COMMAND_KIND_COMMIT_REPLACEMENT_PROOF); encode_envelope env;
     emit (put_uuid topic_uuid); emit (put_uuid range_uuid); emit (put_uuid segment_uuid);
     emit (put_u64 expected_segment_generation); emit (put_bytes32 content_root);
     emit (put_u64 expected_length_bytes); emit (put_uuid source_node_uuid);
     emit (put_uuid destination_node_uuid); emit (put_u64 fencing_epoch);
     emit (put_u8 (VerificationMethod.wire_tag verification_method));
     emit (put_uuid verifier_node_uuid); emit (put_u64 verified_term)].

Definition read_commit_replacement_proof : Reader MetadataCommand.t :=
  env ← decode_envelope;
  topic_uuid ← read_uuid "topic uuid";
  range_uuid ← read_uuid "range uuid";
  segment_uuid ← read_uuid "segment uuid";
  expected_segment_generation ← read_u64 "expected segment generation";
  content_root ← read_bytes32 "content root";
  expected_length_bytes ← read_u64 "expected length bytes";
  source_node_uuid ← read_uuid "source node uuid";
  destination_node_uuid ← read_uuid "destination node uuid";
  fencing_epoch ← read_u64 "fencing epoch";
  verification_method ← read_tagged VerificationMethod.from_wire "verification method";
  verifier_node_uuid ← read_uuid "verifier node uuid";
  verified_term ← read_u64 "verified term";
  mret (MetadataCommand.CommitReplacementProof env topic_uuid range_uuid segment_uuid
        expected_segment_generation content_root expected_length_bytes source_node_uuid
        destination_node_uuid fencing_epoch verification_method verifier_node_uuid
        verified_term).

Definition write_plan_replica_retirement (env : CommandEnvelope.t)
    (topic_uuid range_uuid segment_uuid retiring_node_uuid : Uuid)
    (expected_segment_generation fencing_epoch : u64) : Writer :=
  writes
    [emit (put_kind COMMAND_KIND_PLAN_REPLICA_RETIREMENT); encode_envelope env;
     emit (put_uuid topic_uuid); emit (put_uuid range_uuid); emit (put_uuid segment_uuid);
     emit (put_uuid retiring_node_uuid); emit (put_u64 expected_segment_generation);
     emit (put_u64 fencing_epoch)].

Definition read_plan_replica_retirement : Reader MetadataCommand.t :=
  env ← decode_envelope;
  topic_uuid ← read_uuid "topic uuid";
  range_uuid ← read_uuid "range uuid";
  segment_uuid ← read_uuid "segment uuid";
  retiring_node_uuid ← read_uuid "retiring node uuid";
  expected_segment_generation ← read_u64 "expected segment generation";
  fencing_epoch ← read_u64 "fencing epoch";
  mret (MetadataCommand.PlanReplicaRetirement env topic_uuid range_uuid segment_uuid
        retiring_node_uuid expected_segment_generation fencing_epoch).

Definition write_confirm_replica_retired (env : CommandEnvelope.t)
    (topic_uuid range_uuid segment_uuid retiring_node_uuid : Uuid)
    (expected_segment_generation : u64) : Writer :=
  writes
    [emit (put_kind COMMAND_KIND_CONFIRM_REPLICA_RETIRED); encode_envelope env;
     emit (put_uuid topic_uuid); emit (put_uuid range_uuid); emit (put_uuid segment_uuid);
     emit (put_uuid retiring_node_uuid); emit (put_u64 expected_segment_generation)].

Definition read_confirm_replica_retired : Reader MetadataCommand.t :=
  env ← decode_envelope;
  topic_uuid ← read_uuid "topic uuid";
  range_uuid ← read_uuid "range uuid";
  segment_uuid ← read_uuid "segment uuid";
  retiring_node_uuid ← read_uuid "retiring node uuid";
  expected_segment_generation ← read_u64 "expected segment generation";
  mret (MetadataCommand.ConfirmReplicaRetired env topic_uuid range_uuid segment_uuid
        retiring_node_uuid expected_segment_generation).

Definition write_propose_rebalance (env : CommandEnvelope.t)
    (topic_uuid range_uuid segment_uuid from_node_uuid to_node_uuid : Uuid)
    (expected_placement_generation : u64) : Writer :=
  writes
    [emit (put_kind COMMAND_KIND_PROPOSE_REBALANCE); encode_envelope env;
     emit (put_uuid topic_uuid); emit (put_uuid range_uuid); emit (put_uuid segment_uuid);
     emit (put_uuid from_node_uuid); emit (put_uuid to_node_uuid);
     emit (put_u64 expected_placement_generation)].

Definition read_propose_rebalance : Reader MetadataCommand.t :=
  env ← decode_envelope;
  topic_uuid ← read_uuid "topic uuid";
  range_uuid ← read_uuid "range uuid";
  segment_uuid ← read_uuid "segment uuid";
  from_node_uuid ← read_uuid "rebalance source node uuid";
  to_node_uuid ← read_uuid "rebalance destination node uuid";
  expected_placement_generation ← read_u64 "expected placement generation";
  mret (MetadataCommand.ProposeRebalance env topic_uuid range_uuid segment_uuid from_node_uuid
        to_node_uuid expected_placement_generation).

Definition write_cancel_rebalance (env : CommandEnvelope.t)
    (topic_uuid range_uuid segment_uuid : Uuid) (expected_placement_generation : u64) : Writer :=
  writes
    [emit (put_kind COMMAND_KIND_CANCEL_REBALANCE); encode_envelope env;
     emit (put_uuid topic_uuid); emit (put_uuid range_uuid); emit (put_uuid segment_uuid);
     emit (put_u64 expected_placement_generation)].

Definition read_cancel_rebalance : Reader MetadataCommand.t :=
  env ← decode_envelope;
  topic_uuid ← read_uuid "topic uuid";
  range_uuid ← read_uuid "range uuid";
  segment_uuid ← read_uuid "segment uuid";
  expected_placement_generation ← read_u64 "expected placement generation";
  mret (MetadataCommand.CancelRebalance env topic_uuid range_uuid segment_uuid
        expected_placement_generation).

Definition write_commit_tier_evidence (env : CommandEnvelope.t)
    (topic_uuid range_uuid segment_uuid : Uuid) (expected_segment_generation : u64)
    (content_root : bytes32) (byte_length : u64) (backend_id object_uri : string)
    (object_version_id manifest_version_id : option string) (manifest_core_digest : bytes32)
    (verification_method : VerificationMethod.t) (verifier_node_uuid : Uuid)
    (fencing_epoch verified_term : u64) : Writer :=
  writes
    [emit (put_kind COMMAND_KIND_COMMIT_TIER_EVIDENCE); encode_envelope env;
     emit (put_uuid topic_uuid); emit (put_uuid range_uuid); emit (put_uuid segment_uuid);
     emit (put_u64 expected_segment_generation); emit (put_bytes32 content_root);
     emit (put_u64 byte_length);
     put_bounded_str backend_id MAX_TIER_BACKEND_ID_BYTES "backend id";
     put_bounded_str object_uri MAX_TIER_OBJECT_URI_BYTES "object uri";
     write_optional
       (λ version_id,
          put_bounded_str version_id MAX_TIER_VERSION_ID_BYTES "manifest version id")
       manifest_version_id;
     emit (put_bytes32 manifest_core_digest);
     emit (put_u8 (VerificationMethod.wire_tag verification_method));
     emit (put_uuid verifier_node_uuid); emit (put_u64 fencing_epoch);
     emit (put_u64 verified_term);
     write_extension
       (λ version_id,
          put_bounded_str version_id MAX_TIER_VERSION_ID_BYTES "object version id")
       object_version_id].

Definition read_commit_tier_evidence : Reader MetadataCommand.t :=
  env ← decode_envelope;
  topic_uuid ← read_uuid "topic uuid";
  range_uuid ← read_uuid "range uuid";
  segment_uuid ← read_uuid "segment uuid";
  expected_segment_generation ← read_u64 "expected segment generation";
  content_root ← read_bytes32 "content root";
  byte_length ← read_u64 "byte length";
  reject_value (ival byte_length = 0) "byte length" "must be > 0";;
  backend_id ← read_bounded_str MAX_TIER_BACKEND_ID_BYTES "backend id";
  require_nonempty "backend id" backend_id;;
  object_uri ← read_bounded_str MAX_TIER_OBJECT_URI_BYTES "object uri";
  require_nonempty "object uri" object_uri;;
  manifest_version_id ← read_optional
    (read_bounded_str MAX_TIER_VERSION_ID_BYTES "manifest version id")
    "manifest version presence";
  manifest_core_digest ← read_bytes32 "manifest core digest";
  verification_method ← read_tagged VerificationMethod.from_wire "verification method";
  verifier_node_uuid ← read_uuid "verifier node uuid";
  fencing_epoch ← read_u64 "fencing epoch";
  verified_term ← read_u64 "verified term";
  object_version_id ← read_extension
    (read_bounded_str MAX_TIER_VERSION_ID_BYTES "object version id")
    "object version presence";
  mret (MetadataCommand.CommitTierEvidence env topic_uuid range_uuid segment_uuid
        expected_segment_generation content_root byte_length backend_id object_uri
        object_version_id manifest_version_id manifest_core_digest verification_method
        verifier_node_uuid fencing_epoch verified_term).

Definition write_set_topic_retention_policy (env : CommandEnvelope.t) (topic_uuid : Uuid)
    (unarchived_deletion_allowed : bool) (expected_generation : option u64) : Writer :=
  writes
    [emit (put_kind COMMAND_KIND_SET_TOPIC_RETENTION_POLICY); encode_envelope env;
     emit (put_uuid topic_uuid); emit (put_flag unarchived_deletion_allowed);
     encode_optional_u64 expected_generation].

Definition read_set_topic_retention_policy : Reader MetadataCommand.t :=
  env ← decode_envelope;
  topic_uuid ← read_uuid "topic uuid";
  unarchived_deletion_allowed ← read_flag "unarchived deletion allowed";
  expected_generation ← decode_optional_u64 "expected generation";
  mret (MetadataCommand.SetTopicRetentionPolicy env topic_uuid unarchived_deletion_allowed
        expected_generation).

Definition write_plan_retention (env : CommandEnvelope.t)
    (topic_uuid range_uuid segment_uuid : Uuid) (expected_segment_generation fencing_epoch : u64)
    : Writer :=
  writes
    [emit (put_kind COMMAND_KIND_PLAN_RETENTION); encode_envelope env;
     emit (put_uuid topic_uuid); emit (put_uuid range_uuid); emit (put_uuid segment_uuid);
     emit (put_u64 expected_segment_generation); emit (put_u64 fencing_epoch)].

Definition read_plan_retention : Reader MetadataCommand.t :=
  env ← decode_envelope;
  topic_uuid ← read_uuid "topic uuid";
  range_uuid ← read_uuid "range uuid";
  segment_uuid ← read_uuid "segment uuid";
  expected_segment_generation ← read_u64 "expected segment generation";
  fencing_epoch ← read_u64 "fencing epoch";
  mret (MetadataCommand.PlanRetention env topic_uuid range_uuid segment_uuid
        expected_segment_generation fencing_epoch).

Definition write_confirm_retention_expired (env : CommandEnvelope.t)
    (topic_uuid range_uuid segment_uuid : Uuid) (expected_segment_generation : u64) : Writer :=
  writes
    [emit (put_kind COMMAND_KIND_CONFIRM_RETENTION_EXPIRED); encode_envelope env;
     emit (put_uuid topic_uuid); emit (put_uuid range_uuid); emit (put_uuid segment_uuid);
     emit (put_u64 expected_segment_generation)].

Definition read_confirm_retention_expired : Reader MetadataCommand.t :=
  env ← decode_envelope;
  topic_uuid ← read_uuid "topic uuid";
  range_uuid ← read_uuid "range uuid";
  segment_uuid ← read_uuid "segment uuid";
  expected_segment_generation ← read_u64 "expected segment generation";
  mret (MetadataCommand.ConfirmRetentionExpired env topic_uuid range_uuid segment_uuid
        expected_segment_generation).

Definition write_cancel_retention (env : CommandEnvelope.t)
    (topic_uuid range_uuid segment_uuid : Uuid) (expected_segment_generation : u64) : Writer :=
  writes
    [emit (put_kind COMMAND_KIND_CANCEL_RETENTION); encode_envelope env;
     emit (put_uuid topic_uuid); emit (put_uuid range_uuid); emit (put_uuid segment_uuid);
     emit (put_u64 expected_segment_generation)].

Definition read_cancel_retention : Reader MetadataCommand.t :=
  env ← decode_envelope;
  topic_uuid ← read_uuid "topic uuid";
  range_uuid ← read_uuid "range uuid";
  segment_uuid ← read_uuid "segment uuid";
  expected_segment_generation ← read_u64 "expected segment generation";
  mret (MetadataCommand.CancelRetention env topic_uuid range_uuid segment_uuid
        expected_segment_generation).

Definition encode (c : MetadataCommand.t) : Writer :=
  match c with
  | MetadataCommand.RegisterNode env node_uuid addr expected_generation =>
        write_register_node env node_uuid addr expected_generation
  | MetadataCommand.SetNodeState env node_uuid state expected_generation =>
        write_set_node_state env node_uuid state expected_generation
  | MetadataCommand.CreateTopic env name topic_uuid root_range_uuid =>
        write_create_topic env name topic_uuid root_range_uuid
  | MetadataCommand.GrantRangeLease env topic_uuid range_uuid holder_node_uuid
      expected_range_generation =>
        write_grant_range_lease env topic_uuid range_uuid holder_node_uuid
        expected_range_generation
  | MetadataCommand.ReleaseRangeLease env topic_uuid range_uuid expected_fencing_epoch =>
        write_release_range_lease env topic_uuid range_uuid expected_fencing_epoch
  | MetadataCommand.AcquireRangeLease env topic_uuid range_uuid holder_node_uuid
      expected_range_generation lease_duration_ms =>
        write_acquire_range_lease env topic_uuid range_uuid holder_node_uuid
        expected_range_generation lease_duration_ms
  | MetadataCommand.RenewRangeLease env topic_uuid range_uuid holder_node_uuid
      expected_fencing_epoch lease_duration_ms =>
        write_renew_range_lease env topic_uuid range_uuid holder_node_uuid
        expected_fencing_epoch lease_duration_ms
  | MetadataCommand.ReportPromotionOutcome env topic_uuid range_uuid holder_node_uuid
      fencing_epoch outcome =>
        write_report_promotion_outcome env topic_uuid range_uuid holder_node_uuid fencing_epoch
        outcome
  | MetadataCommand.SplitRange env topic_uuid parent_range_uuid left_range_uuid
      right_range_uuid transition_id barrier_offset expected_range_generation holder_node_uuid
      fencing_epoch =>
        write_split_range env topic_uuid parent_range_uuid left_range_uuid right_range_uuid
        transition_id barrier_offset expected_range_generation holder_node_uuid fencing_epoch
  | MetadataCommand.SetFeatureLevel env feature_level => write_set_feature_level env feature_level
  | MetadataCommand.SetRangeReplicaSet env topic_uuid range_uuid members
      expected_generation =>
        write_set_range_replica_set env topic_uuid range_uuid members expected_generation
  | MetadataCommand.RegisterSealedSegment env topic_uuid range_uuid segment_uuid
      segment_generation base_offset next_offset content_root sealed_by_epoch
      expected_range_generation =>
        write_register_sealed_segment env topic_uuid range_uuid segment_uuid segment_generation
        base_offset next_offset content_root sealed_by_epoch expected_range_generation
  | MetadataCommand.MarkSegmentVerified env topic_uuid range_uuid segment_uuid content_root
      expected_generation =>
        write_mark_segment_verified env topic_uuid range_uuid segment_uuid content_root
        expected_generation
  | MetadataCommand.PutKeyRecord env key_uuid scheme public_material_digest =>
        write_put_key_record env key_uuid scheme public_material_digest
  | MetadataCommand.CreateConsumerGroup env name group_uuid =>
        write_create_consumer_group env name group_uuid
  | MetadataCommand.JoinConsumerGroup env group_uuid member_uuid expected_group_generation
      =>
        write_join_consumer_group env group_uuid member_uuid expected_group_generation
  | MetadataCommand.LeaveConsumerGroup env group_uuid member_uuid
      expected_member_generation =>
        write_leave_consumer_group env group_uuid member_uuid expected_member_generation
  | MetadataCommand.AssignMemberRanges env group_uuid member_uuid ranges
      expected_member_generation =>
        write_assign_member_ranges env group_uuid member_uuid ranges expected_member_generation
  | MetadataCommand.CommitGroupCursor env group_uuid member_uuid topic_uuid range_uuid
      topic_epoch range_generation segment_uuid segment_generation segment_root record_offset
      record_index lineage_transition_id expected_checkpoint_generation =>
        write_commit_group_cursor env group_uuid member_uuid topic_uuid range_uuid topic_epoch
        range_generation segment_uuid segment_generation segment_root record_offset
        record_index lineage_transition_id expected_checkpoint_generation
  | MetadataCommand.EnsureGroupMemberForRange env name group_uuid member_uuid topic_uuid
      range_uuid holder_node_uuid fencing_epoch =>
        write_ensure_group_member_for_range env name group_uuid member_uuid topic_uuid
        range_uuid holder_node_uuid fencing_epoch
  | MetadataCommand.CommitGroupCursorFenced env group_uuid member_uuid topic_uuid
      range_uuid topic_epoch range_generation segment_uuid segment_generation segment_root
      record_offset record_index lineage_transition_id expected_checkpoint_generation
      holder_node_uuid fencing_epoch =>
        write_commit_group_cursor_fenced env group_uuid member_uuid topic_uuid range_uuid
        topic_epoch range_generation segment_uuid segment_generation segment_root record_offset
        record_index lineage_transition_id expected_checkpoint_generation holder_node_uuid
        fencing_epoch
  | MetadataCommand.CommitGroupCursorCoordinated env group_uuid member_uuid topic_uuid
      range_uuid coordinator_topic_uuid coordinator_range_uuid topic_epoch range_generation
      segment_uuid segment_generation segment_root record_offset record_index
      lineage_transition_id expected_checkpoint_generation holder_node_uuid fencing_epoch =>
        write_commit_group_cursor_coordinated env group_uuid member_uuid topic_uuid range_uuid
        coordinator_topic_uuid coordinator_range_uuid topic_epoch range_generation segment_uuid
        segment_generation segment_root record_offset record_index lineage_transition_id
        expected_checkpoint_generation holder_node_uuid fencing_epoch
  | MetadataCommand.EnsureGroupMemberCoordinated env name group_uuid member_uuid topic_uuid
      range_uuid coordinator_topic_uuid coordinator_range_uuid holder_node_uuid fencing_epoch
      =>
        write_ensure_group_member_coordinated env name group_uuid member_uuid topic_uuid
        range_uuid coordinator_topic_uuid coordinator_range_uuid holder_node_uuid fencing_epoch
  | MetadataCommand.HeartbeatMember env group_uuid member_uuid =>
        write_heartbeat_member env group_uuid member_uuid
  | MetadataCommand.ExpireStaleMember env group_uuid member_uuid stale_before_apply_index
      =>
        write_expire_stale_member env group_uuid member_uuid stale_before_apply_index
  | MetadataCommand.SetNodePlacementAttrs env node_uuid failure_domain placement_weight
      expected_generation =>
        write_set_node_placement_attrs env node_uuid failure_domain placement_weight
        expected_generation
  | MetadataCommand.CommitSegmentPlacement env topic_uuid range_uuid segment_uuid
      replication_factor replica_nodes expected_segment_generation
      expected_placement_generation =>
        write_commit_segment_placement env topic_uuid range_uuid segment_uuid
        replication_factor replica_nodes expected_segment_generation
        expected_placement_generation
  | MetadataCommand.CommitReplacementProof env topic_uuid range_uuid segment_uuid
      expected_segment_generation content_root expected_length_bytes source_node_uuid
      destination_node_uuid fencing_epoch verification_method verifier_node_uuid verified_term
      =>
        write_commit_replacement_proof env topic_uuid range_uuid segment_uuid
        expected_segment_generation content_root expected_length_bytes source_node_uuid
        destination_node_uuid fencing_epoch verification_method verifier_node_uuid
        verified_term
  | MetadataCommand.PlanReplicaRetirement env topic_uuid range_uuid segment_uuid
      retiring_node_uuid expected_segment_generation fencing_epoch =>
        write_plan_replica_retirement env topic_uuid range_uuid segment_uuid retiring_node_uuid
        expected_segment_generation fencing_epoch
  | MetadataCommand.ConfirmReplicaRetired env topic_uuid range_uuid segment_uuid
      retiring_node_uuid expected_segment_generation =>
        write_confirm_replica_retired env topic_uuid range_uuid segment_uuid retiring_node_uuid
        expected_segment_generation
  | MetadataCommand.ProposeRebalance env topic_uuid range_uuid segment_uuid from_node_uuid
      to_node_uuid expected_placement_generation =>
        write_propose_rebalance env topic_uuid range_uuid segment_uuid from_node_uuid
        to_node_uuid expected_placement_generation
  | MetadataCommand.CancelRebalance env topic_uuid range_uuid segment_uuid
      expected_placement_generation =>
        write_cancel_rebalance env topic_uuid range_uuid segment_uuid
        expected_placement_generation
  | MetadataCommand.CommitTierEvidence env topic_uuid range_uuid segment_uuid
      expected_segment_generation content_root byte_length backend_id object_uri
      object_version_id manifest_version_id manifest_core_digest verification_method
      verifier_node_uuid fencing_epoch verified_term =>
        write_commit_tier_evidence env topic_uuid range_uuid segment_uuid
        expected_segment_generation content_root byte_length backend_id object_uri
        object_version_id manifest_version_id manifest_core_digest verification_method
        verifier_node_uuid fencing_epoch verified_term
  | MetadataCommand.SetTopicRetentionPolicy env topic_uuid unarchived_deletion_allowed
      expected_generation =>
        write_set_topic_retention_policy env topic_uuid unarchived_deletion_allowed
        expected_generation
  | MetadataCommand.PlanRetention env topic_uuid range_uuid segment_uuid
      expected_segment_generation fencing_epoch =>
        write_plan_retention env topic_uuid range_uuid segment_uuid expected_segment_generation
        fencing_epoch
  | MetadataCommand.ConfirmRetentionExpired env topic_uuid range_uuid segment_uuid
      expected_segment_generation =>
        write_confirm_retention_expired env topic_uuid range_uuid segment_uuid
        expected_segment_generation
  | MetadataCommand.CancelRetention env topic_uuid range_uuid segment_uuid
      expected_segment_generation =>
        write_cancel_retention env topic_uuid range_uuid segment_uuid
        expected_segment_generation
  end.

Definition decode_from : Reader MetadataCommand.t :=
  kind ← read_u16 "command kind";
  match ival kind with
  | COMMAND_KIND_REGISTER_NODE => read_register_node
  | COMMAND_KIND_SET_NODE_STATE => read_set_node_state
  | COMMAND_KIND_CREATE_TOPIC => read_create_topic
  | COMMAND_KIND_GRANT_RANGE_LEASE => read_grant_range_lease
  | COMMAND_KIND_ACQUIRE_RANGE_LEASE => read_acquire_range_lease
  | COMMAND_KIND_RENEW_RANGE_LEASE => read_renew_range_lease
  | COMMAND_KIND_REPORT_PROMOTION_OUTCOME => read_report_promotion_outcome
  | COMMAND_KIND_RELEASE_RANGE_LEASE => read_release_range_lease
  | COMMAND_KIND_SPLIT_RANGE => read_split_range
  | COMMAND_KIND_SET_FEATURE_LEVEL => read_set_feature_level
  | COMMAND_KIND_SET_RANGE_REPLICA_SET => read_set_range_replica_set
  | COMMAND_KIND_REGISTER_SEALED_SEGMENT => read_register_sealed_segment
  | COMMAND_KIND_MARK_SEGMENT_VERIFIED => read_mark_segment_verified
  | COMMAND_KIND_PUT_KEY_RECORD => read_put_key_record
  | COMMAND_KIND_CREATE_CONSUMER_GROUP => read_create_consumer_group
  | COMMAND_KIND_JOIN_CONSUMER_GROUP => read_join_consumer_group
  | COMMAND_KIND_LEAVE_CONSUMER_GROUP => read_leave_consumer_group
  | COMMAND_KIND_ASSIGN_MEMBER_RANGES => read_assign_member_ranges
  | COMMAND_KIND_COMMIT_GROUP_CURSOR => read_commit_group_cursor
  | COMMAND_KIND_ENSURE_GROUP_MEMBER_FOR_RANGE => read_ensure_group_member_for_range
  | COMMAND_KIND_COMMIT_GROUP_CURSOR_FENCED => read_commit_group_cursor_fenced
  | COMMAND_KIND_COMMIT_GROUP_CURSOR_COORDINATED => read_commit_group_cursor_coordinated
  | COMMAND_KIND_ENSURE_GROUP_MEMBER_COORDINATED => read_ensure_group_member_coordinated
  | COMMAND_KIND_HEARTBEAT_MEMBER => read_heartbeat_member
  | COMMAND_KIND_EXPIRE_STALE_MEMBER => read_expire_stale_member
  | COMMAND_KIND_SET_NODE_PLACEMENT_ATTRS => read_set_node_placement_attrs
  | COMMAND_KIND_COMMIT_SEGMENT_PLACEMENT => read_commit_segment_placement
  | COMMAND_KIND_COMMIT_REPLACEMENT_PROOF => read_commit_replacement_proof
  | COMMAND_KIND_PLAN_REPLICA_RETIREMENT => read_plan_replica_retirement
  | COMMAND_KIND_CONFIRM_REPLICA_RETIRED => read_confirm_replica_retired
  | COMMAND_KIND_PROPOSE_REBALANCE => read_propose_rebalance
  | COMMAND_KIND_CANCEL_REBALANCE => read_cancel_rebalance
  | COMMAND_KIND_COMMIT_TIER_EVIDENCE => read_commit_tier_evidence
  | COMMAND_KIND_SET_TOPIC_RETENTION_POLICY => read_set_topic_retention_policy
  | COMMAND_KIND_PLAN_RETENTION => read_plan_retention
  | COMMAND_KIND_CONFIRM_RETENTION_EXPIRED => read_confirm_retention_expired
  | COMMAND_KIND_CANCEL_RETENTION => read_cancel_retention
  | other => fail_with (UnknownTag "command kind" other)
  end.

Definition decode (bytes : list u8) : result CodecError MetadataCommand.t :=
  run_reader decode_from bytes.

End CommandCodec.
