(* ===== verification/CommandRoundtrip.v ===== *)
(** The command codec is a bijection: [CommandCodec.decode] inverts
    [CommandCodec.encode] on the commands that fit the wire ([wire_ok]), and
    accepts no other bytes. *)

From stdpp Require Import prelude strings list.
From Stdlib Require Import ZArith Lia.
From S2P Require Import Prelude Wire Codec Keys Command Placement CommandCodec.

(** * Fields *)

Ltac solve_wire_tag from_wire :=
  intros tag a; split;
  [ unfold from_wire; intros H; rewrite <-(wrap_int_ival tag);
    repeat case_match; try discriminate H; by apply Ok_inj in H as <-
  | intros ->; by destruct a ].

#[global] Instance node_state_tag : WireTag NodeState.wire_tag NodeState.from_wire.
Proof. solve_wire_tag NodeState.from_wire. Qed.
#[global] Instance verification_method_tag :
  WireTag VerificationMethod.wire_tag VerificationMethod.from_wire.
Proof. solve_wire_tag VerificationMethod.from_wire. Qed.
#[global] Instance promotion_refusal_tag :
  WireTag PromotionRefusal.wire_tag PromotionRefusal.from_wire.
Proof. solve_wire_tag PromotionRefusal.from_wire. Qed.

(** A record that is nothing but its fields. *)
Ltac solve_record_codec :=
  split;
  [ intros [] out rest _ ?; write_inv; do 5 try read_field; done
  | intros bs a rest Hr; read_fields_inv Hr;
    eexists; split_and!; [write_fields; reflexivity|by rewrite ?app_nil_r, <-?app_assoc|done] ].

#[global] Instance codec_envelope : Codec encode_envelope decode_envelope always.
Proof. unfold encode_envelope, decode_envelope. solve_record_codec. Qed.
#[global] Instance codec_assignment : Codec write_assignment read_assignment always.
Proof. unfold write_assignment, read_assignment. solve_record_codec. Qed.
#[global] Instance codec_answer : Codec write_answer read_answer always.
Proof. unfold write_answer, read_answer. solve_record_codec. Qed.

#[global] Instance codec_optional_u64 what :
  Codec encode_optional_u64 (decode_optional_u64 what) (from_option always True).
Proof. unfold encode_optional_u64, decode_optional_u64. apply _. Qed.
#[global] Instance codec_optional_uuid what :
  Codec encode_optional_uuid (decode_optional_uuid what) (from_option always True).
Proof. unfold encode_optional_uuid, decode_optional_uuid. apply _. Qed.
#[global] Instance codec_range_assignments :
  Codec encode_range_assignments decode_range_assignments (Forall always).
Proof. unfold encode_range_assignments, decode_range_assignments. apply _. Qed.
#[global] Instance codec_uuid_list maximum what :
  FitsU16 maximum →
  Codec (λ values, encode_uuid_list values maximum what) (decode_uuid_list maximum what)
    (Forall always).
Proof. intros. unfold encode_uuid_list, decode_uuid_list. apply _. Qed.

Lemma u8_of_ival (x : u8) z : ival x = z → x = wrap_int U8 z.
Proof. intros <-. by rewrite wrap_int_ival. Qed.
Lemma u16_of_ival (x : u16) z : ival x = z → x = wrap_int U16 z.
Proof. intros <-. by rewrite wrap_int_ival. Qed.

#[global] Instance codec_promotion_outcome :
  Codec encode_promotion_outcome decode_promotion_outcome always.
Proof.
  unfold encode_promotion_outcome, decode_promotion_outcome. split.
  - intros [] out rest _ Hw; write_inv; read_field; rewrite wrap_int_small by done; cbv iota;
      do 5 try read_field; done.
  - intros bs a rest Hr.
    apply reader_bind_Ok in Hr as (tag & ? & (? & <-%Ok_inj & -> & _)%codec_written & Hr).
    destruct (ival tag) as [|[[]|[]|]|] eqn:Htag; try discriminate Hr;
      apply u8_of_ival in Htag as ->; read_fields_inv Hr;
      (eexists; split_and!; [write_fields; reflexivity|by rewrite ?app_nil_r, <-?app_assoc|done]).
Qed.

(** * Commands that fit the wire *)

Definition text_ok (maximum : Z) (s : string) : Prop := valid_str s ∧ str_len s <= maximum.
Definition name_ok (maximum : Z) (s : string) : Prop := text_ok maximum s ∧ s ≠ EmptyString.

Definition outcome_ok (outcome : PromotionOutcome.t) : Prop :=
  match outcome with
  | PromotionOutcome.Established _ _ quorum _ _ =>
      Z.of_nat (length quorum) <= MAX_TRANSITION_QUORUM
  | PromotionOutcome.Refused _ => True
  end.

Section wire_ok.
Import MetadataCommand.

Definition wire_ok (c : MetadataCommand.t) : Prop :=
  match c with
  | RegisterNode _ _ addr _ => name_ok MAX_NODE_ADDR_BYTES addr
  | CreateTopic _ name _ _ => name_ok MAX_TOPIC_NAME_BYTES name
  | ReportPromotionOutcome _ _ _ _ _ outcome => outcome_ok outcome
  | SetRangeReplicaSet _ _ _ members _ => (length members <= MAX_REPLICAS)%nat
  | CreateConsumerGroup _ name _
  | EnsureGroupMemberForRange _ name _ _ _ _ _ _
  | EnsureGroupMemberCoordinated _ name _ _ _ _ _ _ _ _ => name_ok MAX_GROUP_NAME_BYTES name
  | AssignMemberRanges _ _ _ ranges _ => Z.of_nat (length ranges) <= MAX_ASSIGNED_RANGES
  | SetNodePlacementAttrs _ _ failure_domain placement_weight _ =>
      text_ok MAX_FAILURE_DOMAIN_BYTES failure_domain ∧
      MIN_PLACEMENT_WEIGHT <= ival placement_weight
  | CommitSegmentPlacement _ _ _ _ replication_factor replica_nodes _ _ =>
      1 <= ival replication_factor <= Z.of_nat MAX_REPLICAS ∧
      Z.of_nat (length replica_nodes) = ival replication_factor
  | CommitTierEvidence _ _ _ _ _ _ byte_length backend_id object_uri object_version_id
      manifest_version_id _ _ _ _ _ =>
      ival byte_length ≠ 0 ∧ name_ok MAX_TIER_BACKEND_ID_BYTES backend_id ∧
      name_ok MAX_TIER_OBJECT_URI_BYTES object_uri ∧
      from_option (text_ok MAX_TIER_VERSION_ID_BYTES) True object_version_id ∧
      from_option (text_ok MAX_TIER_VERSION_ID_BYTES) True manifest_version_id
  | _ => True
  end.
End wire_ok.

Lemma text_written maximum what s : text_ok maximum s → written (put_bounded_str s maximum what).
Proof. intros [_ Hlen]. unfold put_bounded_str. rewrite decide_False by lia. apply written_Ok. Qed.

Lemma name_written maximum what s : name_ok maximum s → written (put_bounded_str s maximum what).
Proof. intros [Hs _]. by apply text_written. Qed.

Lemma optional_written {A} (write : A → Writer) (ok : A → Prop) o :
  (∀ a, ok a → written (write a)) → from_option ok True o → written (write_optional write o).
Proof. intros Hw Ho. destruct o; unfold write_optional; auto 6 with codec. Qed.

Lemma extension_written {A} (write : A → Writer) (ok : A → Prop) o :
  (∀ a, ok a → written (write a)) → from_option ok True o → written (write_extension write o).
Proof. intros Hw Ho. destruct o; unfold write_extension; auto 6 with codec. Qed.

Lemma envelope_written env : written (encode_envelope env).
Proof. unfold encode_envelope. auto with codec. Qed.
Lemma optional_u64_written o : written (encode_optional_u64 o).
Proof. destruct o; unfold encode_optional_u64, write_optional; auto 6 with codec. Qed.
Lemma optional_uuid_written o : written (encode_optional_uuid o).
Proof. destruct o; unfold encode_optional_uuid, write_optional; auto 6 with codec. Qed.
Lemma outcome_written o : outcome_ok o → written (encode_promotion_outcome o).
Proof.
  destruct o; cbn [outcome_ok encode_promotion_outcome]; intros; unfold write_answer;
    auto 12 using optional_u64_written with codec.
Qed.

Lemma text_valid maximum s : text_ok maximum s → valid_str s.
Proof. by intros [? _]. Qed.

Lemma option_valid maximum o :
  from_option (text_ok maximum) True o → from_option valid_str True o.
Proof. destruct o; simpl; [apply text_valid|done]. Qed.

#[global] Hint Extern 1 (valid_str _) => (eapply text_valid; eassumption) : codec.
#[global] Hint Extern 1 (from_option valid_str True _) =>
  (eapply option_valid; eassumption) : codec.

(** What a written field says about its value. *)
Lemma written_text maximum what s out :
  put_bounded_str s maximum what = Ok out → valid_str s → text_ok maximum s.
Proof. unfold put_bounded_str. case_decide; [done|]. intros _ Hs. split; [done|lia]. Qed.

Lemma written_name maximum what s out :
  put_bounded_str s maximum what = Ok out → valid_str s → s ≠ EmptyString → name_ok maximum s.
Proof. intros. split; [by eapply written_text|done]. Qed.

Lemma written_optional_text maximum what o out :
  write_optional (λ s, put_bounded_str s maximum what) o = Ok out →
  from_option valid_str True o → from_option (text_ok maximum) True o.
Proof.
  destruct o as [s|]; [|done]. unfold write_optional. intros Hw Hs. write_inv.
  by eapply written_text.
Qed.

Lemma written_extension_text maximum what o out :
  write_extension (λ s, put_bounded_str s maximum what) o = Ok out →
  from_option valid_str True o → from_option (text_ok maximum) True o.
Proof.
  destruct o as [s|]; [|done]. unfold write_extension. intros Hw Hs. write_inv.
  by eapply written_text.
Qed.

Lemma written_outcome o out : encode_promotion_outcome o = Ok out → outcome_ok o.
Proof.
  destruct o; [|done]. unfold encode_promotion_outcome. intros Hw. write_inv.
  by eapply write_counted_length.
Qed.

#[global] Hint Resolve written_text written_name written_optional_text written_extension_text
  written_outcome write_counted_length : codec.

(** The trailing field ends its record. *)
Section extension.
Context {A : Type} (write : A → Writer) (read : Reader A) (ok : A → Prop).
Context `{!Codec write read ok}.

Lemma read_extension_end what o out :
  from_option ok True o → write_extension write o = Ok out →
  read_extension read what (out ++ []) = Ok (o, []).
Proof.
  intros Ho Hw. unfold read_extension. destruct o as [a|]; unfold write_extension in Hw.
  - write_inv. erewrite reader_bind_next by reflexivity. rewrite decide_False.
    2: { rewrite !length_app. unfold put_flag, put_u8. rewrite length_to_be_bytes. simpl. lia. }
    rewrite <-!app_assoc.
    erewrite reader_bind_next by by apply (codec_read (read:=read_flag what)). simpl.
    by erewrite reader_bind_next by by eapply codec_read.
  - by write_inv.
Qed.

Lemma read_extension_Ok what bs o rest :
  read_extension read what bs = Ok (o, rest) →
  ∃ out, write_extension write o = Ok out ∧ bs = out ++ rest ∧ from_option ok True o.
Proof.
  unfold read_extension. rewrite reader_bind_Ok. intros (n & mid & [= <- <-] & H).
  case_decide as Hn.
  - apply reader_ret_Ok in H as [<- ->]. by exists [].
  - apply reader_bind_Ok in H as ([] & ? & (? & <-%Ok_inj & -> & _)%codec_written & H); [|done].
    simpl in H. read_fields_inv H. eexists.
    split_and!; [unfold write_extension; write_fields; reflexivity| |done].
    by rewrite app_nil_r, app_assoc.
Qed.
End extension.

#[global] Hint Resolve text_written name_written envelope_written optional_u64_written
  optional_uuid_written outcome_written : codec.
#[global] Hint Extern 1 (written (write_optional _ _)) =>
  (eapply optional_written; [|eassumption]) : codec.
#[global] Hint Extern 1 (written (write_extension _ _)) =>
  (eapply extension_written; [|eassumption]) : codec.

(** * The round trips *)

Section roundtrip.
Import MetadataCommand CommandCodec.

Lemma encode_written c : wire_ok c → written (encode c).
Proof.
  destruct c; cbn [wire_ok encode]; intros; destruct_and?;
    match goal with |- written ?w => let f := head_of w in unfold f end;
    write_goals; auto with codec.
  all: unfold encode_range_assignments, encode_uuid_list; apply write_counted_written;
    [lia|]; unfold write_assignment; auto 6 with codec.
Qed.

Lemma decode_encode_from c out : wire_ok c → encode c = Ok out → decode_from out = Ok (c, []).
Proof.
  intros Hok Hw. unfold decode_from.
  destruct c; cbn [wire_ok encode] in *;
    match type of Hw with ?w = _ => let f := head_of w in unfold f in Hw end;
    unfold name_ok in *; destruct_and?;
    write_inv; unfold put_kind in *; read_field; rewrite wrap_int_small by done; cbv iota.
  all: match goal with |- ?r _ = Ok _ => let f := head_of r in unfold f end.
  all: unfold require_nonempty; repeat read_field; try done.
  all: try (unfold MIN_PLACEMENT_WEIGHT in *; lia).
  erewrite reader_bind_next; [done|]. eapply read_extension_end; [apply _| |done]. auto with codec.
Qed.

Lemma encode_decode_from bs c rest :
  decode_from bs = Ok (c, rest) → wire_ok c ∧ ∃ out, encode c = Ok out ∧ bs = out ++ rest.
Proof.
  intros Hr. unfold decode_from in Hr.
  apply reader_bind_Ok in Hr as (kind & mid & (? & <-%Ok_inj & -> & _)%codec_written & Hr).
  destruct (ival kind) as [|p|] eqn:Hkind; try discriminate Hr.
  repeat (destruct p as [p|p|]; try discriminate Hr).
  all: apply u16_of_ival in Hkind as ->.
  all: match type of Hr with ?r _ = Ok _ => let f := head_of r in unfold f in Hr end.
  all: unfold require_nonempty in Hr; read_fields_inv Hr.
  all: try (apply reader_bind_Ok in Hr as (? & ? & Hx & Hr);
    eapply read_extension_Ok in Hx as (? & ? & -> & ?); [|apply _]; read_fields_inv Hr).
  all: split;
   [ cbn [wire_ok]; unfold encode_range_assignments, encode_uuid_list in *;
     repeat match goal with Hw : write_counted _ _ _ _ = Ok _ |- _ =>
       apply write_counted_length in Hw end;
     split_and?; unfold MIN_PLACEMENT_WEIGHT in *; eauto with codec; try lia
   | eexists; split;
      [cbn [encode]; match goal with |- ?w = _ => let f := head_of w in unfold f end;
       write_fields; reflexivity
      |by rewrite <-?app_assoc] ].
Qed.
End roundtrip.

(** C37. What the raft log carries: a command that fits the wire has an encoding, and a
    byte string decodes to a command exactly when it is that command's encoding. *)
Theorem command_codec_bijection :
  (∀ c, wire_ok c → ∃ bytes, CommandCodec.encode c = Ok bytes) ∧
  (∀ c bytes, CommandCodec.decode bytes = Ok c ↔ wire_ok c ∧ CommandCodec.encode c = Ok bytes).
Proof.
  split; [apply encode_written|]. intros c bytes. unfold CommandCodec.decode.
  rewrite run_reader_Ok. split.
  - intros (Hok & out & Hw & ->)%encode_decode_from. by rewrite app_nil_r.
  - intros [Hok Hw]. by apply decode_encode_from.
Qed.

Lemma wire_ok_names c : wire_ok c → MetadataCommand.names_valid c.
Proof. by destruct c; [..|done]; simpl; try done; intros [[]]. Qed.
