(* ===== verification/ResponseCodec.v ===== *)
(** The response codec of [crates/vtop-meta/src/command.rs]: what a client gets
    back, and what a snapshot keeps for every request it remembers. *)

From stdpp Require Import prelude strings list.
From Stdlib Require Import ZArith Lia.
From S2P Require Import Prelude Wire Codec Keys Command Placement CommandCodec.
From S2P Require Import CommandRoundtrip.

Module ErrorCodec.
Import MetadataError.

Abbreviation ERROR_KIND_GENERATION_MISMATCH := 1%Z.
Abbreviation ERROR_KIND_EPOCH_MISMATCH := 2%Z.
Abbreviation ERROR_KIND_ALREADY_EXISTS := 3%Z.
Abbreviation ERROR_KIND_NOT_FOUND := 4%Z.
Abbreviation ERROR_KIND_INVALID_TRANSITION := 5%Z.
Abbreviation ERROR_KIND_LIMIT := 6%Z.
Abbreviation ERROR_KIND_LINEAGE_MISMATCH := 7%Z.

Definition encode_into (e : t) : Writer :=
  match e with
  | GenerationMismatch expected actual =>
      writes [emit (put_kind ERROR_KIND_GENERATION_MISMATCH);
              emit (put_u64 expected); emit (put_u64 actual)]
  | EpochMismatch expected actual =>
      writes [emit (put_kind ERROR_KIND_EPOCH_MISMATCH);
              emit (put_u64 expected); emit (put_u64 actual)]
  | LineageMismatch expected actual =>
      writes [emit (put_kind ERROR_KIND_LINEAGE_MISMATCH);
              emit (put_u64 expected); emit (put_u64 actual)]
  | AlreadyExists => writes [emit (put_kind ERROR_KIND_ALREADY_EXISTS)]
  | NotFound => writes [emit (put_kind ERROR_KIND_NOT_FOUND)]
  | InvalidTransition detail =>
      writes [emit (put_kind ERROR_KIND_INVALID_TRANSITION);
              put_bounded_str detail MAX_ERROR_DETAIL_BYTES "error detail"]
  | Limit detail =>
      writes [emit (put_kind ERROR_KIND_LIMIT);
              put_bounded_str detail MAX_ERROR_DETAIL_BYTES "error detail"]
  end.

Definition decode_from : Reader t :=
  kind ← read_u16 "error kind";
  match ival kind with
  | ERROR_KIND_GENERATION_MISMATCH =>
      expected ← read_u64 "expected generation";
      actual ← read_u64 "actual generation";
      mret (GenerationMismatch expected actual)
  | ERROR_KIND_EPOCH_MISMATCH =>
      expected ← read_u64 "expected epoch";
      actual ← read_u64 "actual epoch";
      mret (EpochMismatch expected actual)
  | ERROR_KIND_LINEAGE_MISMATCH =>
      expected ← read_u64 "expected lineage generation";
      actual ← read_u64 "actual lineage generation";
      mret (LineageMismatch expected actual)
  | ERROR_KIND_ALREADY_EXISTS => mret AlreadyExists
  | ERROR_KIND_NOT_FOUND => mret NotFound
  | ERROR_KIND_INVALID_TRANSITION =>
      detail ← read_bounded_str MAX_ERROR_DETAIL_BYTES "error detail";
      mret (InvalidTransition detail)
  | ERROR_KIND_LIMIT =>
      detail ← read_bounded_str MAX_ERROR_DETAIL_BYTES "error detail";
      mret (Limit detail)
  | other => fail_with (UnknownTag "error kind" other)
  end.
End ErrorCodec.

Module ResponseCodec.
Import MetadataResponse.

Abbreviation RESPONSE_KIND_ACK := 1%Z.
Abbreviation RESPONSE_KIND_TOPIC_CREATED := 2%Z.
Abbreviation RESPONSE_KIND_LEASE_GRANTED := 3%Z.
Abbreviation RESPONSE_KIND_REJECTED := 4%Z.
Abbreviation RESPONSE_KIND_GROUP_CREATED := 5%Z.
Abbreviation RESPONSE_KIND_MEMBER_JOINED := 6%Z.
Abbreviation RESPONSE_KIND_CURSOR_COMMITTED := 7%Z.
Abbreviation RESPONSE_KIND_TRANSITION_RECORDED := 8%Z.

Definition encode_into (r : t) : Writer :=
  match r with
  | Ack generation => writes [emit (put_kind RESPONSE_KIND_ACK); emit (put_u64 generation)]
  | TopicCreated topic_uuid topic_epoch root_range_uuid =>
      writes [emit (put_kind RESPONSE_KIND_TOPIC_CREATED); emit (put_uuid topic_uuid);
              emit (put_u64 topic_epoch); emit (put_uuid root_range_uuid)]
  | LeaseGranted fencing_epoch =>
      writes [emit (put_kind RESPONSE_KIND_LEASE_GRANTED); emit (put_u64 fencing_epoch)]
  | TransitionRecorded fencing_epoch =>
      writes [emit (put_kind RESPONSE_KIND_TRANSITION_RECORDED); emit (put_u64 fencing_epoch)]
  | GroupCreated group_uuid generation =>
      writes [emit (put_kind RESPONSE_KIND_GROUP_CREATED); emit (put_uuid group_uuid);
              emit (put_u64 generation)]
  | MemberJoined member_generation group_generation =>
      writes [emit (put_kind RESPONSE_KIND_MEMBER_JOINED); emit (put_u64 member_generation);
              emit (put_u64 group_generation)]
  | CursorCommitted checkpoint_generation =>
      writes [emit (put_kind RESPONSE_KIND_CURSOR_COMMITTED);
              emit (put_u64 checkpoint_generation)]
  | Rejected error =>
      writes [emit (put_kind RESPONSE_KIND_REJECTED); ErrorCodec.encode_into error]
  end.

Definition encode (r : t) : Writer := encode_into r.

Definition decode_from : Reader t :=
  kind ← read_u16 "response kind";
  match ival kind with
  | RESPONSE_KIND_ACK => generation ← read_u64 "generation"; mret (Ack generation)
  | RESPONSE_KIND_TOPIC_CREATED =>
      topic_uuid ← read_uuid "topic uuid";
      topic_epoch ← read_u64 "topic epoch";
      root_range_uuid ← read_uuid "root range uuid";
      mret (TopicCreated topic_uuid topic_epoch root_range_uuid)
  | RESPONSE_KIND_LEASE_GRANTED =>
      fencing_epoch ← read_u64 "fencing epoch"; mret (LeaseGranted fencing_epoch)
  | RESPONSE_KIND_TRANSITION_RECORDED =>
      fencing_epoch ← read_u64 "fencing epoch"; mret (TransitionRecorded fencing_epoch)
  | RESPONSE_KIND_GROUP_CREATED =>
      group_uuid ← read_uuid "group uuid";
      generation ← read_u64 "group generation";
      mret (GroupCreated group_uuid generation)
  | RESPONSE_KIND_MEMBER_JOINED =>
      member_generation ← read_u64 "member generation";
      group_generation ← read_u64 "group generation";
      mret (MemberJoined member_generation group_generation)
  | RESPONSE_KIND_CURSOR_COMMITTED =>
      checkpoint_generation ← read_u64 "checkpoint generation";
      mret (CursorCommitted checkpoint_generation)
  | RESPONSE_KIND_REJECTED => error ← ErrorCodec.decode_from; mret (Rejected error)
  | other => fail_with (UnknownTag "response kind" other)
  end.

Definition decode (bytes : list u8) : result CodecError t := run_reader decode_from bytes.
End ResponseCodec.

(** * Round trips *)

Definition error_ok (e : MetadataError.t) : Prop :=
  match e with
  | MetadataError.InvalidTransition detail | MetadataError.Limit detail =>
      text_ok MAX_ERROR_DETAIL_BYTES detail
  | _ => True
  end.

Definition response_ok (r : MetadataResponse.t) : Prop :=
  match r with MetadataResponse.Rejected error => error_ok error | _ => True end.

(** One arm per kind on both sides. *)
Ltac kinds_read := intros [] out rest Hok Hw; cbn in Hok;
  write_inv; unfold put_kind in *; read_field; rewrite wrap_int_small by done; cbv iota;
  repeat read_field; done.

Ltac kinds_written :=
  intros bs a rest Hr;
  apply reader_bind_Ok in Hr as (kind & mid & (? & <-%Ok_inj & -> & _)%codec_written & Hr);
  let p := fresh "p" in
  destruct (ival kind) as [|p|] eqn:Hkind; try discriminate Hr;
  repeat (destruct p as [p|p|]; try discriminate Hr);
  apply u16_of_ival in Hkind as ->; read_fields_inv Hr;
  (eexists; split_and!;
   [write_fields; reflexivity|by rewrite <-?app_assoc|cbn; eauto with codec]).

#[global] Instance codec_error : Codec ErrorCodec.encode_into ErrorCodec.decode_from error_ok.
Proof.
  unfold ErrorCodec.encode_into, ErrorCodec.decode_from. split; [kinds_read|kinds_written].
Qed.

#[global] Instance codec_response :
  Codec ResponseCodec.encode_into ResponseCodec.decode_from response_ok.
Proof.
  unfold ResponseCodec.encode_into, ResponseCodec.decode_from.
  split; [kinds_read|kinds_written].
Qed.
