(* ===== verification/Records.v ===== *)
(** The records of the metadata state machine: the types of
    [crates/vtop-meta/src/state.rs], one module per struct, fields named as in
    the source.  Where [apply] mutates a record in place, the module has the
    functional update it performs. *)

From stdpp Require Import prelude gmap strings list.
From Stdlib Require Import ZArith Lia.
From S2P Require Import Prelude Wire Keys Command Placement.

Module RangeReplicaSetRecord.
Record t := mk { generation : u64; members : list Uuid; recorded_at_epoch : u64 }.
#[global] Instance t_eq_dec : EqDecision t.
Proof. solve_decision. Defined.
End RangeReplicaSetRecord.

Module ClusterConfigRecord.
Record t := mk { feature_level : u32 }.
#[global] Instance t_eq_dec : EqDecision t.
Proof. solve_decision. Defined.
End ClusterConfigRecord.

Module NodeRecord.
Record t := mk {
  addr : string;
  state : NodeState.t;
  generation : u64;
  failure_domain : string;
  placement_weight : u32
}.
#[global] Instance t_eq_dec : EqDecision t.
Proof. solve_decision. Defined.
End NodeRecord.

Module TopicRecord.
Record t := mk { name : string; topic_epoch : u64; generation : u64 }.
#[global] Instance t_eq_dec : EqDecision t.
Proof. solve_decision. Defined.
End TopicRecord.

Module TopicNameRecord.
Record t := mk { topic_uuid : Uuid; latest_epoch : u64 }.
#[global] Instance t_eq_dec : EqDecision t.
Proof. solve_decision. Defined.
End TopicNameRecord.

Module LeaseRecord.
Record t := mk {
  holder_node_uuid : Uuid;
  fencing_epoch : u64;
  granted_apply_index : u64;
  expires_at_ms : option i64
}.
#[global] Instance t_eq_dec : EqDecision t.
Proof. solve_decision. Defined.

(** A lease with no deadline is always live. *)
Definition is_live_at (l : t) (now_ms : i64) : bool :=
  match expires_at_ms l with
  | None => true
  | Some deadline => bool_decide (ival now_ms < ival deadline)
  end.

Definition set_expires_at_ms (e : option i64) (l : t) : t :=
  mk (holder_node_uuid l) (fencing_epoch l) (granted_apply_index l) e.
End LeaseRecord.

Module SealedParent.
Record t := mk { barrier_offset : u64; transition_id : Uuid }.
#[global] Instance t_eq_dec : EqDecision t.
Proof. solve_decision. Defined.
End SealedParent.

Module RangeRecord.
Record t := mk {
  generation : u64;
  key_prefix : u64;
  key_prefix_bits : u8;
  fencing_epoch : u64;
  lineage_generation : u64;
  parents : list Uuid;
  sealed_at : option SealedParent.t;
  lease : option LeaseRecord.t
}.
#[global] Instance t_eq_dec : EqDecision t.
Proof. solve_decision. Defined.

Definition set_generation (g : u64) (r : t) : t :=
  mk g (key_prefix r) (key_prefix_bits r) (fencing_epoch r) (lineage_generation r)
    (parents r) (sealed_at r) (lease r).
Definition set_fencing_epoch (e : u64) (r : t) : t :=
  mk (generation r) (key_prefix r) (key_prefix_bits r) e (lineage_generation r)
    (parents r) (sealed_at r) (lease r).
Definition set_sealed_at (s : option SealedParent.t) (r : t) : t :=
  mk (generation r) (key_prefix r) (key_prefix_bits r) (fencing_epoch r)
    (lineage_generation r) (parents r) s (lease r).
Definition set_lease (l : option LeaseRecord.t) (r : t) : t :=
  mk (generation r) (key_prefix r) (key_prefix_bits r) (fencing_epoch r)
    (lineage_generation r) (parents r) (sealed_at r) l.
End RangeRecord.

Module SegmentState.
Inductive t :=
  | SealedUnverified | Verified | Repairing | RetirePlanned | Retired | Quarantined
  | RetentionPlanned | RetentionExpired.
#[global] Instance t_eq_dec : EqDecision t.
Proof. solve_decision. Defined.
End SegmentState.

Module SegmentRecord.
Record t := mk {
  segment_generation : u64;
  base_offset : u64;
  next_offset : u64;
  content_root : bytes32;
  state : SegmentState.t;
  sealed_by_epoch : u64
}.
#[global] Instance t_eq_dec : EqDecision t.
Proof. solve_decision. Defined.

(** Every lifecycle mutation sets the state and the generation together. *)
Definition set_state (s : SegmentState.t) (g : u64) (r : t) : t :=
  mk g (base_offset r) (next_offset r) (content_root r) s (sealed_by_epoch r).
End SegmentRecord.

Module KeyState.
Inductive t := Active.
#[global] Instance t_eq_dec : EqDecision t.
Proof. solve_decision. Defined.
End KeyState.

Module KeyRecord.
Record t := mk { scheme : u16; public_material_digest : bytes32; state : KeyState.t }.
#[global] Instance t_eq_dec : EqDecision t.
Proof. solve_decision. Defined.
End KeyRecord.

Module ConsumerGroupRecord.
Record t := mk { name : string; generation : u64 }.
#[global] Instance t_eq_dec : EqDecision t.
Proof. solve_decision. Defined.

Definition set_generation (g : u64) (r : t) : t := mk (name r) g.
End ConsumerGroupRecord.

Module GroupNameRecord.
Record t := mk { group_uuid : Uuid }.
#[global] Instance t_eq_dec : EqDecision t.
Proof. solve_decision. Defined.
End GroupNameRecord.

Module GroupMemberRecord.
Record t := mk {
  generation : u64;
  last_heartbeat_apply_index : u64;
  assigned : list RangeAssignment.t
}.
#[global] Instance t_eq_dec : EqDecision t.
Proof. solve_decision. Defined.

Definition set_heartbeat (i : u64) (r : t) : t := mk (generation r) i (assigned r).
Definition set_assigned (a : list RangeAssignment.t) (g : u64) (r : t) : t :=
  mk g (last_heartbeat_apply_index r) a.
End GroupMemberRecord.

Module CursorCheckpointRecord.
Record t := mk {
  topic_epoch : u64;
  range_generation : u64;
  segment_uuid : Uuid;
  segment_generation : u64;
  segment_root : bytes32;
  record_offset : u64;
  record_index : u64;
  lineage_transition_id : option Uuid;
  checkpoint_generation : u64;
  committed_by_member : Uuid
}.
#[global] Instance t_eq_dec : EqDecision t.
Proof. solve_decision. Defined.
End CursorCheckpointRecord.

Module GroupCursorPosition.
Record t := mk {
  topic_uuid : Uuid;
  topic_name : option string;
  range_uuid : Uuid;
  group_uuid : Uuid;
  group_name : option string;
  record_offset : u64
}.
End GroupCursorPosition.

Module SegmentPlacementRecord.
Record t := mk {
  generation : u64;
  declared_replication_factor : u8;
  replica_nodes : list Uuid;
  committed_apply_index : u64
}.
#[global] Instance t_eq_dec : EqDecision t.
Proof. solve_decision. Defined.

(** The in-place mutation of a move or a retirement: the list, the generation
    and the apply index change and the declared factor stays. *)
Definition set_replicas (nodes : list Uuid) (g i : u64) (r : t) : t :=
  mk g (declared_replication_factor r) nodes i.
End SegmentPlacementRecord.

Module RebalanceIntentRecord.
Record t := mk {
  from_node_uuid : Uuid;
  to_node_uuid : Uuid;
  proposed_at_apply_index : u64;
  placement_generation_at_proposal : u64
}.
#[global] Instance t_eq_dec : EqDecision t.
Proof. solve_decision. Defined.
End RebalanceIntentRecord.

Module ReplacementProofRecord.
Record t := mk {
  generation : u64;
  segment_generation : u64;
  content_root : bytes32;
  expected_length_bytes : u64;
  source_node_uuid : Uuid;
  destination_node_uuid : Uuid;
  fencing_epoch : u64;
  verification_method : VerificationMethod.t;
  verifier_node_uuid : Uuid;
  verified_at_apply_index : u64;
  verified_term : u64
}.
#[global] Instance t_eq_dec : EqDecision t.
Proof. solve_decision. Defined.
End ReplacementProofRecord.

Module TierCopyRecord.
Record t := mk {
  generation : u64;
  segment_generation : u64;
  content_root : bytes32;
  byte_length : u64;
  backend_id : string;
  object_uri : string;
  object_version_id : option string;
  manifest_version_id : option string;
  manifest_core_digest : bytes32;
  verification_method : VerificationMethod.t;
  verifier_node_uuid : Uuid;
  verified_at_apply_index : u64;
  verified_term : u64;
  fencing_epoch : u64
}.
#[global] Instance t_eq_dec : EqDecision t.
Proof. solve_decision. Defined.
End TierCopyRecord.

Module TopicRetentionPolicyRecord.
Record t := mk { generation : u64; unarchived_deletion_allowed : bool }.
#[global] Instance t_eq_dec : EqDecision t.
Proof. solve_decision. Defined.
End TopicRetentionPolicyRecord.

Module GrantKind.
Inductive t := Election | Administrative.
#[global] Instance t_eq_dec : EqDecision t.
Proof. solve_decision. Defined.
End GrantKind.

Module TransitionOutcome.
Inductive t :=
  | Pending
  | Reported (outcome : PromotionOutcome.t) (reported_at_ms : i64)
      (reported_apply_index : u64).
#[global] Instance t_eq_dec : EqDecision t.
Proof. solve_decision. Defined.
End TransitionOutcome.

Module LineageTransitionRecord.
Record t := mk {
  parent_range_uuid : Uuid;
  barrier_offset : u64;
  left_range_uuid : Uuid;
  right_range_uuid : Uuid;
  sealed_by_epoch : u64;
  issued_at_ms : i64
}.
#[global] Instance t_eq_dec : EqDecision t.
Proof. solve_decision. Defined.
End LineageTransitionRecord.

Module RangeTransitionRecord.
Record t := mk {
  epoch_from : u64;
  epoch_to : u64;
  holder_from : option Uuid;
  holder_to : Uuid;
  grant : GrantKind.t;
  granted_at_ms : i64;
  granted_apply_index : u64;
  outcome : TransitionOutcome.t
}.
#[global] Instance t_eq_dec : EqDecision t.
Proof. solve_decision. Defined.

Definition set_outcome (o : TransitionOutcome.t) (r : t) : t :=
  mk (epoch_from r) (epoch_to r) (holder_from r) (holder_to r) (grant r) (granted_at_ms r)
    (granted_apply_index r) o.
End RangeTransitionRecord.

Module MetaValue.
Inductive t :=
  | Node (node : NodeRecord.t)
  | Topic (topic : TopicRecord.t)
  | TopicName (name : TopicNameRecord.t)
  | Range (range : RangeRecord.t)
  | Segment (segment : SegmentRecord.t)
  | Key (key : KeyRecord.t)
  | Group (group : ConsumerGroupRecord.t)
  | GroupName (name : GroupNameRecord.t)
  | GroupMember (member : GroupMemberRecord.t)
  | GroupCursor (cursor : CursorCheckpointRecord.t)
  | SegmentPlacement (placement : SegmentPlacementRecord.t)
  | ReplacementProof (proof : ReplacementProofRecord.t)
  | RebalanceIntent (intent : RebalanceIntentRecord.t)
  | TierCopy (tier : TierCopyRecord.t)
  | TopicRetentionPolicy (policy : TopicRetentionPolicyRecord.t)
  | RangeTransition (transition : RangeTransitionRecord.t)
  | LineageTransition (transition : LineageTransitionRecord.t)
  | ClusterConfig (config : ClusterConfigRecord.t)
  | RangeReplicaSet (set : RangeReplicaSetRecord.t).
#[global] Instance t_eq_dec : EqDecision t.
Proof. solve_decision. Defined.
End MetaValue.

(** [key_matches_value]: the value variant each key category holds. *)
Definition key_matches_value (key : MetaKey.t) (value : MetaValue.t) : bool :=
  match key, value with
  | MetaKey.Node _, MetaValue.Node _
  | MetaKey.Topic _, MetaValue.Topic _
  | MetaKey.TopicByName _, MetaValue.TopicName _
  | MetaKey.Range _ _, MetaValue.Range _
  | MetaKey.Segment _ _ _, MetaValue.Segment _
  | MetaKey.Key _, MetaValue.Key _
  | MetaKey.Group _, MetaValue.Group _
  | MetaKey.GroupByName _, MetaValue.GroupName _
  | MetaKey.GroupMember _ _, MetaValue.GroupMember _
  | MetaKey.GroupCursor _ _ _, MetaValue.GroupCursor _
  | MetaKey.SegmentPlacement _ _ _, MetaValue.SegmentPlacement _
  | MetaKey.SegmentReplacementProof _ _ _, MetaValue.ReplacementProof _
  | MetaKey.SegmentRebalanceIntent _ _ _, MetaValue.RebalanceIntent _
  | MetaKey.LineageTransition _ _, MetaValue.LineageTransition _
  | MetaKey.SegmentTierCopy _ _ _, MetaValue.TierCopy _
  | MetaKey.TopicRetentionPolicy _, MetaValue.TopicRetentionPolicy _
  | MetaKey.RangeTransition _ _ _, MetaValue.RangeTransition _
  | MetaKey.ClusterConfig, MetaValue.ClusterConfig _
  | MetaKey.RangeReplicaSet _ _, MetaValue.RangeReplicaSet _ => true
  | _, _ => false
  end.
