(* ===== verification/ValueCodec.v ===== *)
(** The record codec of [crates/vtop-meta/src/state.rs]: [MetaValue::encode] and
    [MetaValue::decode], one [write_*] and one [read_*] per variant. *)

From stdpp Require Import prelude strings list.
From Stdlib Require Import ZArith Lia.
From S2P Require Import Prelude Wire Codec Keys Command Placement CommandCodec Records.

Module ValueCodec.

Abbreviation VALUE_TAG_NODE := 1%Z.
Abbreviation VALUE_TAG_NODE_V2 := 12%Z.
Abbreviation VALUE_TAG_TOPIC := 2%Z.
Abbreviation VALUE_TAG_TOPIC_NAME := 3%Z.
Abbreviation VALUE_TAG_RANGE := 4%Z.
Abbreviation VALUE_TAG_SEGMENT := 5%Z.
Abbreviation VALUE_TAG_KEY := 6%Z.
Abbreviation VALUE_TAG_GROUP := 7%Z.
Abbreviation VALUE_TAG_GROUP_NAME := 8%Z.
Abbreviation VALUE_TAG_GROUP_MEMBER := 9%Z.
Abbreviation VALUE_TAG_GROUP_MEMBER_V2 := 11%Z.
Abbreviation VALUE_TAG_GROUP_CURSOR := 10%Z.
Abbreviation VALUE_TAG_SEGMENT_PLACEMENT := 13%Z.
Abbreviation VALUE_TAG_REPLACEMENT_PROOF := 14%Z.
Abbreviation VALUE_TAG_REBALANCE_INTENT := 15%Z.
Abbreviation VALUE_TAG_RANGE_V2 := 16%Z.
Abbreviation VALUE_TAG_SEGMENT_TIER_COPY := 17%Z.
Abbreviation VALUE_TAG_TOPIC_RETENTION_POLICY := 18%Z.
Abbreviation VALUE_TAG_RANGE_TRANSITION := 19%Z.
Abbreviation VALUE_TAG_RANGE_V3 := 20%Z.
Abbreviation VALUE_TAG_LINEAGE_TRANSITION := 21%Z.
Abbreviation VALUE_TAG_CLUSTER_CONFIG := 22%Z.
Abbreviation VALUE_TAG_RANGE_REPLICA_SET := 23%Z.

Definition put_tag (tag : Z) : list u8 := put_u8 (wrap_int U8 tag).

(** * Fields *)

Definition node_state_tag (state : NodeState.t) : u8 :=
  wrap_int U8
    match state with NodeState.Active => 1 | NodeState.Draining => 2 | NodeState.Dead => 3 end.

Definition segment_state_tag (state : SegmentState.t) : u8 :=
  wrap_int U8
    match state with
    | SegmentState.SealedUnverified => 1
    | SegmentState.Verified => 2
    | SegmentState.Repairing => 3
    | SegmentState.RetirePlanned => 4
    | SegmentState.Retired => 5
    | SegmentState.Quarantined => 6
    | SegmentState.RetentionPlanned => 7
    | SegmentState.RetentionExpired => 8
    end.

Definition segment_state_from (tag : u8) : result CodecError SegmentState.t :=
  match ival tag with
  | 1 => Ok SegmentState.SealedUnverified
  | 2 => Ok SegmentState.Verified
  | 3 => Ok SegmentState.Repairing
  | 4 => Ok SegmentState.RetirePlanned
  | 5 => Ok SegmentState.Retired
  | 6 => Ok SegmentState.Quarantined
  | 7 => Ok SegmentState.RetentionPlanned
  | 8 => Ok SegmentState.RetentionExpired
  | other => Err (UnknownTag "segment state" other)
  end.

Definition key_state_tag (state : KeyState.t) : u8 :=
  wrap_int U8 match state with KeyState.Active => 1 end.

Definition key_state_from (tag : u8) : result CodecError KeyState.t :=
  match ival tag with
  | 1 => Ok KeyState.Active
  | other => Err (UnknownTag "key state" other)
  end.

Definition grant_kind_tag (grant : GrantKind.t) : u8 :=
  wrap_int U8 match grant with GrantKind.Election => 1 | GrantKind.Administrative => 2 end.

Definition grant_kind_from (tag : u8) : result CodecError GrantKind.t :=
  match ival tag with
  | 1 => Ok GrantKind.Election
  | 2 => Ok GrantKind.Administrative
  | other => Err (UnknownTag "transition grant kind" other)
  end.

Definition encode_assigned_ranges : list RangeAssignment.t → Writer :=
  write_counted write_assignment MAX_ASSIGNED_RANGES "assigned ranges".
Definition decode_assigned_ranges : Reader (list RangeAssignment.t) :=
  read_counted read_assignment MAX_ASSIGNED_RANGES "assigned range count" "assigned ranges".

Definition encode_replica_nodes : list Uuid → Writer :=
  write_counted (λ node, emit (put_uuid node)) (Z.of_nat MAX_TRANSIENT_REPLICAS)
    "replica nodes".
Definition decode_replica_nodes : Reader (list Uuid) :=
  read_counted (read_uuid "replica node uuid") (Z.of_nat MAX_TRANSIENT_REPLICAS)
    "replica node count" "replica nodes".

(** * Nodes, topics and ranges *)

Definition write_node (node : NodeRecord.t) : Writer :=
  writes
    [emit (put_tag VALUE_TAG_NODE_V2);
     put_bounded_str (NodeRecord.addr node) MAX_NODE_ADDR_BYTES "node address";
     emit (put_u8 (node_state_tag (NodeRecord.state node)));
     emit (put_u64 (NodeRecord.generation node));
     put_bounded_str (NodeRecord.failure_domain node) MAX_FAILURE_DOMAIN_BYTES
       "failure domain";
     emit (put_u32 (NodeRecord.placement_weight node))].

(** Node records from before placement omit its attributes. *)
Definition read_node_v1 : Reader MetaValue.t :=
  addr ← read_bounded_str MAX_NODE_ADDR_BYTES "node address";
  state ← read_tagged NodeState.from_wire "node state";
  generation ← read_u64 "node generation";
  mret (MetaValue.Node
          (NodeRecord.mk addr state generation EmptyString DEFAULT_PLACEMENT_WEIGHT)).

Definition read_node : Reader MetaValue.t :=
  addr ← read_bounded_str MAX_NODE_ADDR_BYTES "node address";
  state ← read_tagged NodeState.from_wire "node state";
  generation ← read_u64 "node generation";
  failure_domain ← read_bounded_str MAX_FAILURE_DOMAIN_BYTES "failure domain";
  placement_weight ← read_u32 "placement weight";
  mret (MetaValue.Node
          (NodeRecord.mk addr state generation failure_domain placement_weight)).

Definition write_topic (topic : TopicRecord.t) : Writer :=
  writes
    [emit (put_tag VALUE_TAG_TOPIC);
     put_bounded_str (TopicRecord.name topic) MAX_TOPIC_NAME_BYTES "topic name";
     emit (put_u64 (TopicRecord.topic_epoch topic));
     emit (put_u64 (TopicRecord.generation topic))].

Definition read_topic : Reader MetaValue.t :=
  name ← read_bounded_str MAX_TOPIC_NAME_BYTES "topic name";
  topic_epoch ← read_u64 "topic epoch";
  generation ← read_u64 "topic generation";
  mret (MetaValue.Topic (TopicRecord.mk name topic_epoch generation)).

Definition write_topic_name (name : TopicNameRecord.t) : Writer :=
  writes
    [emit (put_tag VALUE_TAG_TOPIC_NAME);
     emit (put_uuid (TopicNameRecord.topic_uuid name));
     emit (put_u64 (TopicNameRecord.latest_epoch name))].

Definition read_topic_name : Reader MetaValue.t :=
  topic_uuid ← read_uuid "topic uuid";
  latest_epoch ← read_u64 "latest topic epoch";
  mret (MetaValue.TopicName (TopicNameRecord.mk topic_uuid latest_epoch)).

(** The seal of a split parent. *)
Definition write_seal (sealed_at : option SealedParent.t) : Writer :=
  match sealed_at with
  | None => emit (put_tag 0)
  | Some sealed =>
      writes
        [emit (put_tag 1); emit (put_u64 (SealedParent.barrier_offset sealed));
         emit (put_uuid (SealedParent.transition_id sealed))]
  end.

Definition read_seal : Reader (option SealedParent.t) :=
  presence ← read_u8 "seal presence";
  match ival presence with
  | 0 => mret None
  | 1 =>
      barrier_offset ← read_u64 "barrier offset";
      transition_id ← read_uuid "transition id";
      mret (Some (SealedParent.mk barrier_offset transition_id))
  | _ => fail_with (InvalidValue "range seal presence" "seal presence must be 0 or 1")
  end.

(** Presence byte 1 is a lease with no deadline, 2 one that carries an expiry. *)
Definition write_lease (lease : option LeaseRecord.t) : Writer :=
  match lease with
  | None => emit (put_tag 0)
  | Some lease =>
      writes
        [emit (put_tag (match LeaseRecord.expires_at_ms lease with None => 1 | Some _ => 2 end));
         emit (put_uuid (LeaseRecord.holder_node_uuid lease));
         emit (put_u64 (LeaseRecord.fencing_epoch lease));
         emit (put_u64 (LeaseRecord.granted_apply_index lease));
         emit (match LeaseRecord.expires_at_ms lease with
               | None => []
               | Some expires_at_ms => put_i64 expires_at_ms
               end)]
  end.

Definition read_lease_body (expiry : Reader (option i64)) : Reader (option LeaseRecord.t) :=
  holder_node_uuid ← read_uuid "lease holder uuid";
  fencing_epoch ← read_u64 "lease fencing epoch";
  granted_apply_index ← read_u64 "lease apply index";
  expires_at_ms ← expiry;
  mret (Some (LeaseRecord.mk holder_node_uuid fencing_epoch granted_apply_index expires_at_ms)).

Definition read_expiry : Reader (option i64) :=
  expires_at_ms ← read_i64 "lease expiry ms"; mret (Some expires_at_ms).

Definition read_lease : Reader (option LeaseRecord.t) :=
  presence ← read_u8 "lease presence";
  match ival presence with
  | 0 => mret None
  | 1 => read_lease_body (mret None)
  | 2 => read_lease_body read_expiry
  | _ => fail_with (InvalidValue "lease presence" "lease presence byte must be 0, 1, or 2")
  end.

Definition lineage_bearing (range : RangeRecord.t) : bool :=
  negb (bool_decide (RangeRecord.parents range = []))
  || bool_decide (is_Some (RangeRecord.sealed_at range)).

(** The tag of a range is the oldest that can carry it. *)
Definition range_tag (range : RangeRecord.t) : Z :=
  if lineage_bearing range then VALUE_TAG_RANGE_V3
  else if decide (ival (RangeRecord.lineage_generation range) = 0) then VALUE_TAG_RANGE
  else VALUE_TAG_RANGE_V2.

Definition write_lineage (range : RangeRecord.t) : Writer :=
  if lineage_bearing range then
    writes
      [emit (put_u64 (RangeRecord.lineage_generation range));
       emit (put_u8 (wrap_int U8 (Z.of_nat (length (RangeRecord.parents range)))));
       writes ((λ parent, emit (put_uuid parent)) <$> RangeRecord.parents range);
       write_seal (RangeRecord.sealed_at range)]
  else if decide (ival (RangeRecord.lineage_generation range) ≠ 0) then
    emit (put_u64 (RangeRecord.lineage_generation range))
  else emit [].

Definition write_range (range : RangeRecord.t) : Writer :=
  writes
    [emit (put_tag (range_tag range));
     emit (put_u64 (RangeRecord.generation range));
     emit (put_u64 (RangeRecord.key_prefix range));
     emit (put_u8 (RangeRecord.key_prefix_bits range));
     emit (put_u64 (RangeRecord.fencing_epoch range));
     write_lineage range;
     write_lease (RangeRecord.lease range)].

(** The lineage generation, parents and seal a range tag carries. *)
Definition read_lineage_generation (tag : Z) : Reader u64 :=
  if decide (tag = VALUE_TAG_RANGE_V2 ∨ tag = VALUE_TAG_RANGE_V3) then
    lineage_generation ← read_u64 "lineage generation";
    reject_value (ival lineage_generation = 0 ∧ tag = VALUE_TAG_RANGE_V2)
      "range lineage generation"
      "v2 range records must carry a nonzero lineage generation";;
    mret lineage_generation
  else mret zero.

Definition read_parents_seal (tag : Z) : Reader (list Uuid * option SealedParent.t) :=
  if decide (tag = VALUE_TAG_RANGE_V3) then
    parent_count ← read_u8 "parent count";
    reject_value (ival parent_count > 2)
      "range parents" "a range has at most two parents (a merge)";;
    parents ← read_many (read_uuid "parent range uuid") (Z.to_nat (ival parent_count));
    sealed_at ← read_seal;
    reject_value (parents = [] ∧ sealed_at = None)
      "range lineage state"
      "v3 range records must carry parents or a seal; without either the record re-encodes as a legacy tag";;
    mret (parents, sealed_at)
  else mret ([], None).

Definition read_range (tag : Z) : Reader MetaValue.t :=
  generation ← read_u64 "range generation";
  key_prefix ← read_u64 "key prefix";
  key_prefix_bits ← read_u8 "key prefix bits";
  fencing_epoch ← read_u64 "fencing epoch";
  lineage_generation ← read_lineage_generation tag;
  lineage ← read_parents_seal tag;
  lease ← read_lease;
  mret (MetaValue.Range
          (RangeRecord.mk generation key_prefix key_prefix_bits fencing_epoch
             lineage_generation lineage.1 lineage.2 lease)).

Definition write_lineage_transition (transition : LineageTransitionRecord.t) : Writer :=
  writes
    [emit (put_tag VALUE_TAG_LINEAGE_TRANSITION);
     emit (put_uuid (LineageTransitionRecord.parent_range_uuid transition));
     emit (put_u64 (LineageTransitionRecord.barrier_offset transition));
     emit (put_uuid (LineageTransitionRecord.left_range_uuid transition));
     emit (put_uuid (LineageTransitionRecord.right_range_uuid transition));
     emit (put_u64 (LineageTransitionRecord.sealed_by_epoch transition));
     emit (put_i64 (LineageTransitionRecord.issued_at_ms transition))].

Definition read_lineage_transition : Reader MetaValue.t :=
  parent_range_uuid ← read_uuid "parent range uuid";
  barrier_offset ← read_u64 "barrier offset";
  left_range_uuid ← read_uuid "left range uuid";
  right_range_uuid ← read_uuid "right range uuid";
  sealed_by_epoch ← read_u64 "sealed-by epoch";
  issued_at_ms ← read_i64 "issued-at ms";
  mret (MetaValue.LineageTransition
          (LineageTransitionRecord.mk parent_range_uuid barrier_offset left_range_uuid
             right_range_uuid sealed_by_epoch issued_at_ms)).

(** * Segments, keys and groups *)

Definition write_segment (segment : SegmentRecord.t) : Writer :=
  writes
    [emit (put_tag VALUE_TAG_SEGMENT);
     emit (put_u64 (SegmentRecord.segment_generation segment));
     emit (put_u64 (SegmentRecord.base_offset segment));
     emit (put_u64 (SegmentRecord.next_offset segment));
     emit (put_bytes32 (SegmentRecord.content_root segment));
     emit (put_u8 (segment_state_tag (SegmentRecord.state segment)));
     emit (put_u64 (SegmentRecord.sealed_by_epoch segment))].

Definition read_segment : Reader MetaValue.t :=
  segment_generation ← read_u64 "segment generation";
  base_offset ← read_u64 "base offset";
  next_offset ← read_u64 "next offset";
  content_root ← read_bytes32 "content root";
  state ← read_tagged segment_state_from "segment state";
  sealed_by_epoch ← read_u64 "sealed-by epoch";
  mret (MetaValue.Segment
          (SegmentRecord.mk segment_generation base_offset next_offset content_root state
             sealed_by_epoch)).

Definition write_key (key : KeyRecord.t) : Writer :=
  writes
    [emit (put_tag VALUE_TAG_KEY); emit (put_u16 (KeyRecord.scheme key));
     emit (put_bytes32 (KeyRecord.public_material_digest key));
     emit (put_u8 (key_state_tag (KeyRecord.state key)))].

Definition read_key : Reader MetaValue.t :=
  scheme ← read_u16 "key scheme";
  public_material_digest ← read_bytes32 "public material digest";
  state ← read_tagged key_state_from "key state";
  mret (MetaValue.Key (KeyRecord.mk scheme public_material_digest state)).

Definition write_group (group : ConsumerGroupRecord.t) : Writer :=
  writes
    [emit (put_tag VALUE_TAG_GROUP);
     put_bounded_str (ConsumerGroupRecord.name group) MAX_GROUP_NAME_BYTES "group name";
     emit (put_u64 (ConsumerGroupRecord.generation group))].

Definition read_group : Reader MetaValue.t :=
  name ← read_bounded_str MAX_GROUP_NAME_BYTES "group name";
  generation ← read_u64 "group generation";
  mret (MetaValue.Group (ConsumerGroupRecord.mk name generation)).

Definition write_group_name (name : GroupNameRecord.t) : Writer :=
  writes
    [emit (put_tag VALUE_TAG_GROUP_NAME); emit (put_uuid (GroupNameRecord.group_uuid name))].

Definition read_group_name : Reader MetaValue.t :=
  group_uuid ← read_uuid "group uuid";
  mret (MetaValue.GroupName (GroupNameRecord.mk group_uuid)).

Definition write_group_member (member : GroupMemberRecord.t) : Writer :=
  writes
    [emit (put_tag VALUE_TAG_GROUP_MEMBER_V2);
     emit (put_u64 (GroupMemberRecord.generation member));
     emit (put_u64 (GroupMemberRecord.last_heartbeat_apply_index member));
     encode_assigned_ranges (GroupMemberRecord.assigned member)].

(** Member records from before heartbeats count as never heartbeated. *)
Definition read_group_member_v1 : Reader MetaValue.t :=
  generation ← read_u64 "member generation";
  assigned ← decode_assigned_ranges;
  mret (MetaValue.GroupMember (GroupMemberRecord.mk generation zero assigned)).

Definition read_group_member : Reader MetaValue.t :=
  generation ← read_u64 "member generation";
  last_heartbeat_apply_index ← read_u64 "member last heartbeat apply index";
  assigned ← decode_assigned_ranges;
  mret (MetaValue.GroupMember
          (GroupMemberRecord.mk generation last_heartbeat_apply_index assigned)).

Definition write_group_cursor (cursor : CursorCheckpointRecord.t) : Writer :=
  writes
    [emit (put_tag VALUE_TAG_GROUP_CURSOR);
     emit (put_u64 (CursorCheckpointRecord.topic_epoch cursor));
     emit (put_u64 (CursorCheckpointRecord.range_generation cursor));
     emit (put_uuid (CursorCheckpointRecord.segment_uuid cursor));
     emit (put_u64 (CursorCheckpointRecord.segment_generation cursor));
     emit (put_bytes32 (CursorCheckpointRecord.segment_root cursor));
     emit (put_u64 (CursorCheckpointRecord.record_offset cursor));
     emit (put_u64 (CursorCheckpointRecord.record_index cursor));
     write_optional (λ id, emit (put_uuid id))
       (CursorCheckpointRecord.lineage_transition_id cursor);
     emit (put_u64 (CursorCheckpointRecord.checkpoint_generation cursor));
     emit (put_uuid (CursorCheckpointRecord.committed_by_member cursor))].

Definition read_group_cursor : Reader MetaValue.t :=
  topic_epoch ← read_u64 "topic epoch";
  range_generation ← read_u64 "range generation";
  segment_uuid ← read_uuid "segment uuid";
  segment_generation ← read_u64 "segment generation";
  segment_root ← read_bytes32 "segment root";
  record_offset ← read_u64 "record offset";
  record_index ← read_u64 "record index";
  lineage_transition_id ← read_optional (read_uuid "lineage transition id")
                            "lineage transition presence";
  checkpoint_generation ← read_u64 "checkpoint generation";
  committed_by_member ← read_uuid "committed-by member";
  mret (MetaValue.GroupCursor
          (CursorCheckpointRecord.mk topic_epoch range_generation segment_uuid
             segment_generation segment_root record_offset record_index lineage_transition_id
             checkpoint_generation committed_by_member)).

(** * Placement, proofs and archive copies *)

Definition write_segment_placement (placement : SegmentPlacementRecord.t) : Writer :=
  writes
    [emit (put_tag VALUE_TAG_SEGMENT_PLACEMENT);
     emit (put_u64 (SegmentPlacementRecord.generation placement));
     emit (put_u8 (SegmentPlacementRecord.declared_replication_factor placement));
     emit (put_u64 (SegmentPlacementRecord.committed_apply_index placement));
     encode_replica_nodes (SegmentPlacementRecord.replica_nodes placement)].

Definition read_segment_placement : Reader MetaValue.t :=
  generation ← read_u64 "placement generation";
  declared_replication_factor ← read_u8 "replication factor";
  committed_apply_index ← read_u64 "placement apply index";
  replica_nodes ← decode_replica_nodes;
  mret (MetaValue.SegmentPlacement
          (SegmentPlacementRecord.mk generation declared_replication_factor replica_nodes
             committed_apply_index)).

Definition write_replacement_proof (proof : ReplacementProofRecord.t) : Writer :=
  writes
    [emit (put_tag VALUE_TAG_REPLACEMENT_PROOF);
     emit (put_u64 (ReplacementProofRecord.generation proof));
     emit (put_u64 (ReplacementProofRecord.segment_generation proof));
     emit (put_bytes32 (ReplacementProofRecord.content_root proof));
     emit (put_u64 (ReplacementProofRecord.expected_length_bytes proof));
     emit (put_uuid (ReplacementProofRecord.source_node_uuid proof));
     emit (put_uuid (ReplacementProofRecord.destination_node_uuid proof));
     emit (put_u64 (ReplacementProofRecord.fencing_epoch proof));
     emit (put_u8 (VerificationMethod.wire_tag
                     (ReplacementProofRecord.verification_method proof)));
     emit (put_uuid (ReplacementProofRecord.verifier_node_uuid proof));
     emit (put_u64 (ReplacementProofRecord.verified_at_apply_index proof));
     emit (put_u64 (ReplacementProofRecord.verified_term proof))].

Definition read_replacement_proof : Reader MetaValue.t :=
  generation ← read_u64 "proof generation";
  segment_generation ← read_u64 "proof segment generation";
  content_root ← read_bytes32 "proof content root";
  expected_length_bytes ← read_u64 "proof expected length";
  source_node_uuid ← read_uuid "proof source node";
  destination_node_uuid ← read_uuid "proof destination node";
  fencing_epoch ← read_u64 "proof fencing epoch";
  verification_method ← read_tagged VerificationMethod.from_wire "proof verification method";
  verifier_node_uuid ← read_uuid "proof verifier node";
  verified_at_apply_index ← read_u64 "proof verified apply index";
  verified_term ← read_u64 "proof verified term";
  mret (MetaValue.ReplacementProof
          (ReplacementProofRecord.mk generation segment_generation content_root
             expected_length_bytes source_node_uuid destination_node_uuid fencing_epoch
             verification_method verifier_node_uuid verified_at_apply_index verified_term)).

Definition write_rebalance_intent (intent : RebalanceIntentRecord.t) : Writer :=
  writes
    [emit (put_tag VALUE_TAG_REBALANCE_INTENT);
     emit (put_uuid (RebalanceIntentRecord.from_node_uuid intent));
     emit (put_uuid (RebalanceIntentRecord.to_node_uuid intent));
     emit (put_u64 (RebalanceIntentRecord.proposed_at_apply_index intent));
     emit (put_u64 (RebalanceIntentRecord.placement_generation_at_proposal intent))].

Definition read_rebalance_intent : Reader MetaValue.t :=
  from_node_uuid ← read_uuid "rebalance source node";
  to_node_uuid ← read_uuid "rebalance destination node";
  proposed_at_apply_index ← read_u64 "rebalance proposed apply index";
  placement_generation_at_proposal ← read_u64 "rebalance placement generation at proposal";
  mret (MetaValue.RebalanceIntent
          (RebalanceIntentRecord.mk from_node_uuid to_node_uuid proposed_at_apply_index
             placement_generation_at_proposal)).

Definition write_tier_copy (tier : TierCopyRecord.t) : Writer :=
  writes
    [emit (put_tag VALUE_TAG_SEGMENT_TIER_COPY);
     emit (put_u64 (TierCopyRecord.generation tier));
     emit (put_u64 (TierCopyRecord.segment_generation tier));
     emit (put_bytes32 (TierCopyRecord.content_root tier));
     emit (put_u64 (TierCopyRecord.byte_length tier));
     put_bounded_str (TierCopyRecord.backend_id tier) MAX_TIER_BACKEND_ID_BYTES
       "tier backend id";
     put_bounded_str (TierCopyRecord.object_uri tier) MAX_TIER_OBJECT_URI_BYTES
       "tier object uri";
     write_optional
       (λ version_id,
          put_bounded_str version_id MAX_TIER_VERSION_ID_BYTES "tier manifest version id")
       (TierCopyRecord.manifest_version_id tier);
     emit (put_bytes32 (TierCopyRecord.manifest_core_digest tier));
     emit (put_u8 (VerificationMethod.wire_tag (TierCopyRecord.verification_method tier)));
     emit (put_uuid (TierCopyRecord.verifier_node_uuid tier));
     emit (put_u64 (TierCopyRecord.verified_at_apply_index tier));
     emit (put_u64 (TierCopyRecord.verified_term tier));
     emit (put_u64 (TierCopyRecord.fencing_epoch tier));
     write_extension
       (λ version_id,
          put_bounded_str version_id MAX_TIER_VERSION_ID_BYTES "tier object version id")
       (TierCopyRecord.object_version_id tier)].

Definition read_tier_copy : Reader MetaValue.t :=
  generation ← read_u64 "tier generation";
  segment_generation ← read_u64 "tier segment generation";
  content_root ← read_bytes32 "tier content root";
  byte_length ← read_u64 "tier byte length";
  reject_value (ival byte_length = 0) "tier byte length" "must be > 0";;
  backend_id ← read_bounded_str MAX_TIER_BACKEND_ID_BYTES "tier backend id";
  require_nonempty "tier backend id" backend_id;;
  object_uri ← read_bounded_str MAX_TIER_OBJECT_URI_BYTES "tier object uri";
  require_nonempty "tier object uri" object_uri;;
  manifest_version_id ← read_optional
    (read_bounded_str MAX_TIER_VERSION_ID_BYTES "tier manifest version id")
    "tier manifest version presence";
  manifest_core_digest ← read_bytes32 "tier manifest core digest";
  verification_method ← read_tagged VerificationMethod.from_wire "tier verification method";
  verifier_node_uuid ← read_uuid "tier verifier node";
  verified_at_apply_index ← read_u64 "tier verified apply index";
  verified_term ← read_u64 "tier verified term";
  fencing_epoch ← read_u64 "tier fencing epoch";
  object_version_id ← read_extension
    (read_bounded_str MAX_TIER_VERSION_ID_BYTES "tier object version id")
    "tier object version presence";
  mret (MetaValue.TierCopy
          (TierCopyRecord.mk generation segment_generation content_root byte_length backend_id
             object_uri object_version_id manifest_version_id manifest_core_digest
             verification_method verifier_node_uuid verified_at_apply_index verified_term
             fencing_epoch)).

(** * Transitions, policies and configuration *)

Definition write_outcome (outcome : TransitionOutcome.t) : Writer :=
  match outcome with
  | TransitionOutcome.Pending => emit (put_flag false)
  | TransitionOutcome.Reported outcome reported_at_ms reported_apply_index =>
      writes
        [emit (put_flag true); encode_promotion_outcome outcome; emit (put_i64 reported_at_ms);
         emit (put_u64 reported_apply_index)]
  end.

Definition read_outcome : Reader TransitionOutcome.t :=
  reported ← read_flag "transition outcome presence";
  if (reported : bool) then
    outcome ← decode_promotion_outcome;
    reported_at_ms ← read_i64 "transition reported at";
    reported_apply_index ← read_u64 "transition reported apply index";
    mret (TransitionOutcome.Reported outcome reported_at_ms reported_apply_index)
  else mret TransitionOutcome.Pending.

Definition write_range_transition (transition : RangeTransitionRecord.t) : Writer :=
  writes
    [emit (put_tag VALUE_TAG_RANGE_TRANSITION);
     emit (put_u64 (RangeTransitionRecord.epoch_from transition));
     emit (put_u64 (RangeTransitionRecord.epoch_to transition));
     write_optional (λ holder, emit (put_uuid holder))
       (RangeTransitionRecord.holder_from transition);
     emit (put_uuid (RangeTransitionRecord.holder_to transition));
     emit (put_u8 (grant_kind_tag (RangeTransitionRecord.grant transition)));
     emit (put_i64 (RangeTransitionRecord.granted_at_ms transition));
     emit (put_u64 (RangeTransitionRecord.granted_apply_index transition));
     write_outcome (RangeTransitionRecord.outcome transition)].

Definition read_range_transition : Reader MetaValue.t :=
  epoch_from ← read_u64 "transition epoch from";
  epoch_to ← read_u64 "transition epoch to";
  holder_from ← read_optional (read_uuid "transition holder from")
                  "transition holder-from presence";
  holder_to ← read_uuid "transition holder to";
  grant ← read_tagged grant_kind_from "transition grant kind";
  granted_at_ms ← read_i64 "transition granted at";
  granted_apply_index ← read_u64 "transition granted apply index";
  outcome ← read_outcome;
  mret (MetaValue.RangeTransition
          (RangeTransitionRecord.mk epoch_from epoch_to holder_from holder_to grant
             granted_at_ms granted_apply_index outcome)).

Definition write_topic_retention_policy (policy : TopicRetentionPolicyRecord.t) : Writer :=
  writes
    [emit (put_tag VALUE_TAG_TOPIC_RETENTION_POLICY);
     emit (put_u64 (TopicRetentionPolicyRecord.generation policy));
     emit (put_flag (TopicRetentionPolicyRecord.unarchived_deletion_allowed policy))].

Definition read_topic_retention_policy : Reader MetaValue.t :=
  generation ← read_u64 "retention policy generation";
  unarchived_deletion_allowed ← read_flag "unarchived deletion allowed";
  mret (MetaValue.TopicRetentionPolicy
          (TopicRetentionPolicyRecord.mk generation unarchived_deletion_allowed)).

Definition write_cluster_config (config : ClusterConfigRecord.t) : Writer :=
  writes
    [emit (put_tag VALUE_TAG_CLUSTER_CONFIG);
     emit (put_u32 (ClusterConfigRecord.feature_level config))].

Definition read_cluster_config : Reader MetaValue.t :=
  feature_level ← read_u32 "feature level";
  mret (MetaValue.ClusterConfig (ClusterConfigRecord.mk feature_level)).

(** [members.windows(2).any(|pair| pair[0] >= pair[1])] *)
Fixpoint out_of_order (members : list Uuid) : bool :=
  match members with
  | a :: ((b :: _) as rest) => (ival b <=? ival a) || out_of_order rest
  | _ => false
  end.

Definition write_range_replica_set (set : RangeReplicaSetRecord.t) : Writer :=
  writes
    [emit (put_tag VALUE_TAG_RANGE_REPLICA_SET);
     emit (put_u64 (RangeReplicaSetRecord.generation set));
     emit (put_u64 (RangeReplicaSetRecord.recorded_at_epoch set));
     encode_replica_nodes (RangeReplicaSetRecord.members set)].

Definition read_range_replica_set : Reader MetaValue.t :=
  generation ← read_u64 "replica set generation";
  recorded_at_epoch ← read_u64 "replica set recorded-at epoch";
  members ← decode_replica_nodes;
  reject_value
    (members = [] ∨ (MAX_REPLICAS < length members)%nat ∨ out_of_order members = true)
    "replica set members" "must be 1 to MAX_REPLICAS distinct node ids, sorted";;
  mret (MetaValue.RangeReplicaSet
          (RangeReplicaSetRecord.mk generation members recorded_at_epoch)).

(** * The codec *)

Definition encode (v : MetaValue.t) : Writer :=
  match v with
  | MetaValue.Node node => write_node node
  | MetaValue.Topic topic => write_topic topic
  | MetaValue.TopicName name => write_topic_name name
  | MetaValue.Range range => write_range range
  | MetaValue.Segment segment => write_segment segment
  | MetaValue.Key key => write_key key
  | MetaValue.Group group => write_group group
  | MetaValue.GroupName name => write_group_name name
  | MetaValue.GroupMember member => write_group_member member
  | MetaValue.GroupCursor cursor => write_group_cursor cursor
  | MetaValue.SegmentPlacement placement => write_segment_placement placement
  | MetaValue.ReplacementProof proof => write_replacement_proof proof
  | MetaValue.RebalanceIntent intent => write_rebalance_intent intent
  | MetaValue.TierCopy tier => write_tier_copy tier
  | MetaValue.LineageTransition transition => write_lineage_transition transition
  | MetaValue.RangeTransition transition => write_range_transition transition
  | MetaValue.TopicRetentionPolicy policy => write_topic_retention_policy policy
  | MetaValue.ClusterConfig config => write_cluster_config config
  | MetaValue.RangeReplicaSet set => write_range_replica_set set
  end.

Definition decode_from : Reader MetaValue.t :=
  tag ← read_u8 "record value tag";
  match ival tag with
  | VALUE_TAG_NODE => read_node_v1
  | VALUE_TAG_NODE_V2 => read_node
  | VALUE_TAG_TOPIC => read_topic
  | VALUE_TAG_TOPIC_NAME => read_topic_name
  | VALUE_TAG_RANGE => read_range VALUE_TAG_RANGE
  | VALUE_TAG_RANGE_V2 => read_range VALUE_TAG_RANGE_V2
  | VALUE_TAG_RANGE_V3 => read_range VALUE_TAG_RANGE_V3
  | VALUE_TAG_LINEAGE_TRANSITION => read_lineage_transition
  | VALUE_TAG_SEGMENT => read_segment
  | VALUE_TAG_KEY => read_key
  | VALUE_TAG_GROUP => read_group
  | VALUE_TAG_GROUP_NAME => read_group_name
  | VALUE_TAG_GROUP_MEMBER => read_group_member_v1
  | VALUE_TAG_GROUP_MEMBER_V2 => read_group_member
  | VALUE_TAG_GROUP_CURSOR => read_group_cursor
  | VALUE_TAG_SEGMENT_PLACEMENT => read_segment_placement
  | VALUE_TAG_REPLACEMENT_PROOF => read_replacement_proof
  | VALUE_TAG_REBALANCE_INTENT => read_rebalance_intent
  | VALUE_TAG_SEGMENT_TIER_COPY => read_tier_copy
  | VALUE_TAG_RANGE_TRANSITION => read_range_transition
  | VALUE_TAG_TOPIC_RETENTION_POLICY => read_topic_retention_policy
  | VALUE_TAG_CLUSTER_CONFIG => read_cluster_config
  | VALUE_TAG_RANGE_REPLICA_SET => read_range_replica_set
  | other => fail_with (UnknownTag "record value tag" other)
  end.

Definition decode (bytes : list u8) : result CodecError MetaValue.t :=
  run_reader decode_from bytes.

(** [RangeTransitionRecord::canonical_bytes] *)
Definition canonical_bytes (transition : RangeTransitionRecord.t) : Writer :=
  encode (MetaValue.RangeTransition transition).

(** [RangeTransitionRecord::signing_input]: the bytes a transition's MAC covers. *)
Definition signing_input (transition : RangeTransitionRecord.t) (topic_uuid range_uuid : Uuid)
    : Writer :=
  writes
    [emit (MetaKey.encode
             (MetaKey.RangeTransition topic_uuid range_uuid
                (RangeTransitionRecord.epoch_to transition)));
     canonical_bytes transition].

End ValueCodec.
