(* ===== verification/ValueRoundtrip.v ===== *)
(** Records survive a snapshot: [ValueCodec.decode] inverts [ValueCodec.encode] on the
    records that fit ([value_ok]), accepts only such records, and accepts no bytes
    but their encoding, the two tags of older releases apart. *)

From stdpp Require Import prelude strings list.
From Stdlib Require Import ZArith Lia.
From S2P Require Import Prelude Wire Codec Keys Command Placement CommandCodec Records.
From S2P Require Import CommandRoundtrip ValueCodec.
Import ValueCodec KeyCodec.

(** * Fields *)

#[global] Instance segment_state_wire : WireTag segment_state_tag segment_state_from.
Proof. solve_wire_tag segment_state_from. Qed.
#[global] Instance key_state_wire : WireTag key_state_tag key_state_from.
Proof. solve_wire_tag key_state_from. Qed.
#[global] Instance grant_kind_wire : WireTag grant_kind_tag grant_kind_from.
Proof. solve_wire_tag grant_kind_from. Qed.

#[global] Instance codec_assigned_ranges :
  Codec encode_assigned_ranges decode_assigned_ranges (Forall always).
Proof. unfold encode_assigned_ranges, decode_assigned_ranges. apply _. Qed.
#[global] Instance codec_replica_nodes :
  Codec encode_replica_nodes decode_replica_nodes (Forall always).
Proof. unfold encode_replica_nodes, decode_replica_nodes. apply _. Qed.

(** Read the tag byte in front of a field, and dispatch on it. *)
Ltac read_tag := unfold put_tag; read_field; rewrite wrap_int_small by done; cbv iota.

Ltac tag_inv Hr :=
  let tag := fresh "tag" in let Htag := fresh "Htag" in let p := fresh "p" in
  apply reader_bind_Ok in Hr as (tag & ? & (? & <-%Ok_inj & -> & _)%codec_written & Hr);
  destruct (ival tag) as [|p|] eqn:Htag; try discriminate Hr;
  repeat (destruct p as [p|p|]; try discriminate Hr);
  apply u8_of_ival in Htag as ->.

Ltac close_written :=
  eexists; split_and!; [write_fields; reflexivity|by rewrite ?app_nil_r, <-?app_assoc|done].

#[global] Instance codec_seal : Codec write_seal read_seal always.
Proof.
  unfold write_seal, read_seal. split.
  - intros [[]|] out rest _ Hw; write_inv; read_tag; repeat read_field; done.
  - intros bs a rest Hr. tag_inv Hr; read_fields_inv Hr; [by eexists|close_written].
Qed.

#[global] Instance codec_lease : Codec write_lease read_lease always.
Proof.
  unfold write_lease, read_lease, read_lease_body, read_expiry. split.
  - intros [[h e i [x|]]|] out rest _ Hw;
      cbn [LeaseRecord.holder_node_uuid LeaseRecord.fencing_epoch
           LeaseRecord.granted_apply_index LeaseRecord.expires_at_ms] in Hw; write_inv; read_tag;
      repeat read_field; done.
  - intros bs a rest Hr. tag_inv Hr; read_fields_inv Hr; [by eexists|close_written..].
Qed.

#[global] Instance codec_outcome : Codec write_outcome read_outcome always.
Proof.
  unfold write_outcome, read_outcome. split.
  - intros [|] out rest _ Hw; write_inv; read_field; cbv iota;
      repeat read_field; done.
  - intros bs a rest Hr. eapply codec_bind_Ok in Hr; [|apply _].
    destruct Hr as ([] & ? & ? & <-%Ok_inj & -> & _ & Hr); read_fields_inv Hr;
      [close_written|by eexists].
Qed.

(** * The lineage of a range *)

Lemma not_lineage_bearing range :
  lineage_bearing range = false →
  RangeRecord.parents range = [] ∧ RangeRecord.sealed_at range = None.
Proof.
  unfold lineage_bearing. intros [Hp Hs]%orb_false_iff.
  apply negb_false_iff, bool_decide_eq_true in Hp. apply bool_decide_eq_false in Hs.
  by rewrite <-eq_None_not_Some in Hs.
Qed.

Lemma legacy_range range :
  RangeRecord.parents range = [] → RangeRecord.sealed_at range = None →
  lineage_bearing range = false.
Proof. intros Hp Hs. unfold lineage_bearing. by rewrite Hp, Hs. Qed.

Section lineage.
Context {B : Type} (k : u64 → list Uuid * option SealedParent.t → Reader B).

Definition read_lineage (tag : Z) : Reader B :=
  lineage_generation ← read_lineage_generation tag;
  lineage ← read_parents_seal tag;
  k lineage_generation lineage.

Lemma read_lineage_next range out rest :
  (length (RangeRecord.parents range) <= 2)%nat → write_lineage range = Ok out →
  read_lineage (range_tag range) (out ++ rest)
  = k (RangeRecord.lineage_generation range)
      (RangeRecord.parents range, RangeRecord.sealed_at range) rest.
Proof.
  unfold write_lineage, range_tag, read_lineage, read_lineage_generation, read_parents_seal.
  intros Hlen. destruct (lineage_bearing range) eqn:Hb; intros Hw.
  - repeat (rewrite decide_True by tauto). write_inv. read_field. read_field; [|by intros []].
    do 2 read_field.
    assert (ival (wrap_int U8 (Z.of_nat (length (RangeRecord.parents range))))
            = Z.of_nat (length (RangeRecord.parents range))) as Hn.
    { apply wrap_int_small. unfold int_max, int_min, int_modulus; simpl. lia. }
    read_field; [|lia]. rewrite Hn, Nat2Z.id, reader_assoc.
    erewrite reader_bind_next 
      by (eapply read_many_app; [apply _|apply Forall_always|done]).
    read_field. read_field.
    2: { intros [Hp Hs]. unfold lineage_bearing in Hb. rewrite Hp, Hs in Hb. done. }
    done.
  - destruct (not_lineage_bearing range Hb) as [-> ->].
    destruct (decide (ival (RangeRecord.lineage_generation range) = 0)) as [Hg|Hg].
    + rewrite decide_False in Hw by tauto. write_inv.
      rewrite !decide_False by lia. rewrite !reader_ret_bind.
      f_equal. apply int_eq. by rewrite Hg.
    + rewrite decide_True in Hw by done. write_inv.
      rewrite (decide_True (P := _ ∨ _)) by tauto. rewrite decide_False by lia.
      read_field. read_field; [|by intros []]. by do 2 read_field.
Qed.

Lemma read_lineage_Ok tag bs r :
  tag = VALUE_TAG_RANGE ∨ tag = VALUE_TAG_RANGE_V2 ∨ tag = VALUE_TAG_RANGE_V3 →
  read_lineage tag bs = Ok r →
  ∃ lineage_generation parents sealed_at out mid,
    (length parents <= 2)%nat ∧ bs = out ++ mid ∧
    k lineage_generation (parents, sealed_at) mid = Ok r ∧
    ∀ range, RangeRecord.lineage_generation range = lineage_generation →
      RangeRecord.parents range = parents → RangeRecord.sealed_at range = sealed_at →
      range_tag range = tag ∧ write_lineage range = Ok out.
Proof.
  unfold read_lineage, read_lineage_generation, read_parents_seal.
  intros [-> | [-> | ->]] Hr.
  - rewrite !decide_False in Hr by lia. rewrite !reader_ret_bind in Hr.
    eexists zero, [], None, [], bs. split_and!; [simpl; lia|done|done|].
    intros range Hg Hp Hs. unfold range_tag, write_lineage.
    rewrite (legacy_range range Hp Hs), Hg. by rewrite decide_True, decide_False by (simpl; tauto).
  - rewrite (decide_True (P := _ ∨ _)), decide_False in Hr by lia. read_fields_inv Hr.
    eexists _, [], None, _, _. split_and!; [simpl; lia|done|done|].
    intros range Hg Hp Hs. unfold range_tag, write_lineage.
    rewrite (legacy_range range Hp Hs), Hg. by rewrite decide_False, decide_True by tauto.
  - rewrite !decide_True in Hr by lia. read_fields_inv Hr. write_inv. destruct r as [b rest].
    apply reader_bind_Ok in Hr as (parents & mid & Hp & Hr).
    eapply read_many_Ok in Hp as (Hlen & _ & out & Hps & ->); [|apply _]. read_fields_inv Hr.
    pose proof (ival_bounds x2) as [Hlo _]. change (int_min U8) with 0 in Hlo.
    match goal with Hs : write_seal _ = Ok ?seal |- _ =>
      eexists _, _, _, (put_u64 x ++ put_u8 x2 ++ out ++ seal ++ []), _ end.
    split_and!; [| |exact Hr|]; [lia|by rewrite <-!app_assoc|].
    intros range Hg Hps' Hs. assert (lineage_bearing range = true) as Hb.
    { destruct (lineage_bearing range) eqn:Hb; [done|].
      apply not_lineage_bearing in Hb. naive_solver. }
    unfold range_tag, write_lineage. rewrite Hb, Hg, Hps', Hs. split; [done|].
    repeat apply writes_cons; try done. by rewrite Hlen, Z2Nat.id, wrap_int_ival.
Qed.
End lineage.

(** * Records that fit *)

Definition tier_ok (tier : TierCopyRecord.t) : Prop :=
  ival (TierCopyRecord.byte_length tier) ≠ 0 ∧
  name_ok MAX_TIER_BACKEND_ID_BYTES (TierCopyRecord.backend_id tier) ∧
  name_ok MAX_TIER_OBJECT_URI_BYTES (TierCopyRecord.object_uri tier) ∧
  from_option (text_ok MAX_TIER_VERSION_ID_BYTES) True (TierCopyRecord.object_version_id tier) ∧
  from_option (text_ok MAX_TIER_VERSION_ID_BYTES) True (TierCopyRecord.manifest_version_id tier).

Definition replica_set_ok (members : list Uuid) : Prop :=
  members ≠ [] ∧ (length members <= MAX_REPLICAS)%nat ∧ out_of_order members = false.

Definition value_ok (v : MetaValue.t) : Prop :=
  match v with
  | MetaValue.Node node =>
      text_ok MAX_NODE_ADDR_BYTES (NodeRecord.addr node) ∧
      text_ok MAX_FAILURE_DOMAIN_BYTES (NodeRecord.failure_domain node)
  | MetaValue.Topic topic => text_ok MAX_TOPIC_NAME_BYTES (TopicRecord.name topic)
  | MetaValue.Range range => (length (RangeRecord.parents range) <= 2)%nat
  | MetaValue.Group group => text_ok MAX_GROUP_NAME_BYTES (ConsumerGroupRecord.name group)
  | MetaValue.GroupMember member =>
      Z.of_nat (length (GroupMemberRecord.assigned member)) <= MAX_ASSIGNED_RANGES
  | MetaValue.SegmentPlacement placement =>
      (length (SegmentPlacementRecord.replica_nodes placement) <= MAX_TRANSIENT_REPLICAS)%nat
  | MetaValue.TierCopy tier => tier_ok tier
  | MetaValue.RangeTransition transition =>
      match RangeTransitionRecord.outcome transition with
      | TransitionOutcome.Pending => True
      | TransitionOutcome.Reported outcome _ _ => outcome_ok outcome
      end
  | MetaValue.RangeReplicaSet set => replica_set_ok (RangeReplicaSetRecord.members set)
  | _ => True
  end.

Lemma seal_written seal : written (write_seal seal).
Proof. destruct seal; unfold write_seal; write_goals. Qed.
Lemma lease_written lease : written (write_lease lease).
Proof. destruct lease; unfold write_lease; write_goals. Qed.
Lemma lineage_written range : written (write_lineage range).
Proof.
  unfold write_lineage. repeat case_match; write_goals; [|apply seal_written].
  apply Forall_fmap, Forall_true. intros. apply written_Ok.
Qed.
Lemma write_optional_uuid_written (o : option Uuid) :
  written (write_optional (λ id, emit (put_uuid id)) o).
Proof. destruct o; unfold write_optional; write_goals. Qed.

#[global] Hint Resolve lease_written lineage_written write_optional_uuid_written : codec.

Lemma value_written v : value_ok v → written (encode v).
Proof.
  destruct v; cbn [value_ok encode]; unfold tier_ok, replica_set_ok; intros; destruct_and?;
    match goal with |- written ?w => let f := head_of w in unfold f end;
    write_goals; auto with codec.
  - apply write_counted_written; [done|]. intros. unfold write_assignment. write_goals.
  - apply write_counted_written; [lia|]. intros. write_goals.
  - unfold write_outcome. case_match; write_goals. by apply outcome_written.
  - apply write_counted_written; [|intros; write_goals].
    unfold MAX_TRANSIENT_REPLICAS, MAX_REPLICAS in *. lia.
Qed.

(** * The round trips *)

Lemma decode_range_tag range bs :
  decode_from (put_tag (range_tag range) ++ bs) = read_range (range_tag range) bs.
Proof.
  unfold decode_from, put_tag. read_field. unfold range_tag.
  destruct (lineage_bearing range); [done|]. by case_decide.
Qed.

Lemma decode_range range out :
  value_ok (MetaValue.Range range) → write_range range = Ok out →
  decode_from out = Ok (MetaValue.Range range, []).
Proof.
  intros Hok Hw. unfold write_range in Hw. write_inv. rewrite decode_range_tag.
  unfold read_range. do 4 read_field.
  etransitivity; [by apply (read_lineage_next (λ lg l, lease ← read_lease;
    mret (MetaValue.Range (RangeRecord.mk _ _ _ _ lg l.1 l.2 lease))))|].
  read_field. by destruct range.
Qed.

Lemma decode_encode_value v out : value_ok v → encode v = Ok out → decode_from out = Ok (v, []).
Proof.
  intros Hok Hw.
  destruct v as [[]|[]|[]|range|[]|[]|[]|[]|[]|[]|[]|[]|[]|[]|[]|[]|[]|[]|[]].
  4: by apply decode_range.
  all: unfold decode_from; cbn [value_ok encode] in *;
    unfold tier_ok, replica_set_ok, name_ok in *; destruct_and?;
    match type of Hw with ?w = _ => let f := head_of w in unfold f in Hw end; write_inv.
  all: read_tag; match goal with |- ?r _ = Ok _ => let f := head_of r in unfold f end.
  all: unfold require_nonempty; repeat read_field; try done.
  all: try (erewrite reader_bind_next; [done|]; eapply read_extension_end;
    [apply _| |eassumption]; by auto with codec).
  simpl in *. intros [?|[?|?]]; [done|lia|congruence].
Qed.

(** Bytes only an older release wrote: a node without placement attributes, a
    member without a heartbeat. *)
Definition legacy (bytes : list u8) : Prop :=
  head bytes = Some (wrap_int U8 VALUE_TAG_NODE) ∨
  head bytes = Some (wrap_int U8 VALUE_TAG_GROUP_MEMBER).

Lemma decoded_range tag bs v rest :
  tag = VALUE_TAG_RANGE ∨ tag = VALUE_TAG_RANGE_V2 ∨ tag = VALUE_TAG_RANGE_V3 →
  read_range tag bs = Ok (v, rest) →
  value_ok v ∧ ∃ out, encode v = Ok out ∧ put_tag tag ++ bs = out ++ rest.
Proof.
  intros Htag Hr. unfold read_range in Hr. do 4 (eapply codec_bind_Ok in Hr; [|apply _];
    destruct Hr as (? & ? & ? & ? & -> & _ & Hr)).
  apply (read_lineage_Ok (λ lg l, lease ← read_lease;
    mret (MetaValue.Range (RangeRecord.mk _ _ _ _ lg l.1 l.2 lease)))) in Hr
    as (lg & parents & seal & out & mid & Hlen & -> & Hr & Hrange); [|done].
  read_fields_inv Hr. split; [done|]. cbn [encode fst snd].
  match goal with |- ∃ _, write_range ?range = _ ∧ _ =>
    destruct (Hrange range eq_refl eq_refl eq_refl) as [<- Hlineage];
    exists (put_tag (range_tag range) ++ x0 ++ x3 ++ x5 ++ x7 ++ out ++ x8 ++ []) end.
  split; [|by rewrite <-!app_assoc]. unfold write_range. write_fields. done.
Qed.

Lemma encode_decode_value bs v rest :
  decode_from bs = Ok (v, rest) →
  value_ok v ∧ (legacy bs ∨ ∃ out, encode v = Ok out ∧ bs = out ++ rest).
Proof.
  unfold decode_from. intros Hr. tag_inv Hr.
  all: try (apply decoded_range in Hr as [? ?]; [by auto|tauto]).
  all: match type of Hr with ?r _ = Ok _ => let f := head_of r in unfold f in Hr end.
  all: unfold require_nonempty in Hr; read_fields_inv Hr.
  all: try (apply reader_bind_Ok in Hr as (? & ? & Hx & Hr);
    eapply read_extension_Ok in Hx as (? & ? & -> & ?); [|apply _]; read_fields_inv Hr).
  all: split;
   [
   | first [ right; eexists; split;
      [cbn [encode]; match goal with |- ?w = _ => let f := head_of w in unfold f end;
       write_fields; reflexivity
      |by rewrite <-?app_assoc] | by left; left | by left; right ] ].
  all: unfold encode_assigned_ranges, encode_replica_nodes in *;
    repeat match goal with Hw : write_counted _ _ _ _ = Ok _ |- _ =>
      apply write_counted_length in Hw end;
    simpl; unfold tier_ok, replica_set_ok; simpl; split_and?; eauto with codec; try lia.
  - destruct (out_of_order x2); tauto.
  - destruct x12; [done|]. match goal with Hw : write_outcome _ = Ok _ |- _ =>
      unfold write_outcome in Hw end. write_inv. by eapply written_outcome.
  - split; [done|]. by vm_compute.
Qed.

(** A record that fits is written and read back as it was; what the decoder accepts
    fits, and is that record's encoding unless an older release wrote it. *)
Theorem value_codec_roundtrip :
  (∀ v, value_ok v → ∃ bytes, encode v = Ok bytes ∧ decode bytes = Ok v) ∧
  (∀ bytes v, decode bytes = Ok v → value_ok v ∧ (legacy bytes ∨ encode v = Ok bytes)).
Proof.
  unfold decode. split.
  - intros v Hok. destruct (value_written v Hok) as [bytes Hw]. exists bytes.
    split; [done|]. rewrite run_reader_Ok. by apply decode_encode_value.
  - intros bytes v. rewrite run_reader_Ok. intros [Hok Hw]%encode_decode_value.
    split; [done|]. destruct Hw as [?|(out & Hw & ->)]; [by left|right]. by rewrite app_nil_r.
Qed.

(** A transition's MAC covers its place: two statements with the same signed bytes are
    the same record of the same range's chain. *)
Theorem signing_input_injective transition topic_uuid range_uuid transition' topic_uuid'
    range_uuid' bytes :
  value_ok (MetaValue.RangeTransition transition) →
  value_ok (MetaValue.RangeTransition transition') →
  signing_input transition topic_uuid range_uuid = Ok bytes →
  signing_input transition' topic_uuid' range_uuid' = Ok bytes →
  transition = transition' ∧ topic_uuid = topic_uuid' ∧ range_uuid = range_uuid'.
Proof.
  unfold signing_input, canonical_bytes. intros Hok Hok' H H'.
  apply writes_inv in H as (? & ? & <-%Ok_inj & (o1 & ? & Hv & ->%writes_nil & ->)%writes_inv & ->).
  apply writes_inv in H'
    as (? & ? & <-%Ok_inj & (o2 & ? & Hv' & ->%writes_nil & ->)%writes_inv & Heq).
  apply app_inj_1 in Heq as [Hkey Hvalue]; [|done].
  apply (inj MetaKey.encode) in Hkey. rewrite !app_nil_r in Hvalue. subst o2.
  apply decode_encode_value in Hv, Hv'; [|done..]. rewrite Hv in Hv'.
  injection Hkey as -> -> _. injection Hv' as ->. done.
Qed.
