(* ===== verification/Flow.v ===== *)
(** The effects of [apply_inner]'s handlers: the record map they mutate, early
    [return]s that keep what was mutated so far, and [unreachable!] panics.

    A handler is a computation [M A].  Its weakest precondition [wp] counts a
    panic as failure, so every specification proved with it is also a proof that
    no [unreachable!] of the handler is reached.  [record], [put] and [del] are
    the record map seen through typed keys. *)

From stdpp Require Import prelude gmap strings list pretty.
From Stdlib Require Import ZArith Lia.
From S2P Require Import Prelude Wire Keys Command Placement Records.
Import KeyCodec.

#[global] Arguments MetaKey.encode : simpl never.
#[global] Arguments MetaKey.decode : simpl never.

(** [records: BTreeMap<Vec<u8>, MetaValue>] *)
Abbreviation RecordMap := (gmap (list u8) MetaValue.t).

(** * Typed access *)

Definition record (s : RecordMap) (key : MetaKey.t) : option MetaValue.t :=
  s !! MetaKey.encode key.
Definition put (key : MetaKey.t) (v : MetaValue.t) (s : RecordMap) : RecordMap :=
  <[MetaKey.encode key := v]> s.
Definition del (key : MetaKey.t) (s : RecordMap) : RecordMap :=
  delete (MetaKey.encode key) s.

Lemma record_lookup s key : record s key = s !! MetaKey.encode key.
Proof. done. Qed.

Lemma record_put key v s : record (put key v s) key = Some v.
Proof. apply lookup_insert_eq. Qed.

Lemma record_put_ne key key' v s :
  key ≠ key' → record (put key v s) key' = record s key'.
Proof. intros ?. apply lookup_insert_ne. by intros ?%(inj MetaKey.encode). Qed.

Lemma record_del key s : record (del key s) key = None.
Proof. apply lookup_delete_eq. Qed.

Lemma record_del_ne key key' s :
  key ≠ key' → record (del key s) key' = record s key'.
Proof. intros ?. apply lookup_delete_ne. by intros ?%(inj MetaKey.encode). Qed.

Lemma record_empty key : record ∅ key = None.
Proof. apply lookup_empty. Qed.

Lemma record_put_case key key' v s :
  record (put key v s) key' = if decide (key = key') then Some v else record s key'.
Proof. destruct (decide _) as [->|]; [apply record_put|by apply record_put_ne]. Qed.

Lemma record_del_case key key' s :
  record (del key s) key' = if decide (key = key') then None else record s key'.
Proof. destruct (decide _) as [->|]; [apply record_del|by apply record_del_ne]. Qed.

#[global] Opaque record put del.

(** * Computations *)

Inductive outcome (A : Type) :=
  | Next (a : A) (s : RecordMap)
  | Done (response : MetadataResponse.t) (s : RecordMap)
  | Panic.
Arguments Next {A} _ _.
Arguments Done {A} _ _.
Arguments Panic {A}.

Definition M (A : Type) : Type := RecordMap → outcome A.

#[global] Instance M_ret : MRet M := λ A a s, Next a s.
#[global] Instance M_bind : MBind M := λ A B k c s,
  match c s with
  | Next a s' => k a s'
  | Done r s' => Done r s'
  | Panic => Panic
  end.

(** [return response] *)
Definition return_ {A} (response : MetadataResponse.t) : M A := λ s, Done response s.
(** [unreachable!(...)] *)
Definition unreachable {A} : M A := λ _, Panic.
(** [if condition { return reject(error) }] *)
Definition reject_if (P : Prop) `{!Decision P} (error : MetadataError.t) : M () :=
  if decide P then return_ (reject error) else mret tt.
(** [let Some(x) = o else { return reject(error) }] *)
Definition some_or {A} (o : option A) (error : MetadataError.t) : M A :=
  match o with Some a => mret a | None => return_ (reject error) end.
(** [let Some(x) = o else { unreachable!() }] *)
Definition some_or_panic {A} (o : option A) : M A :=
  match o with Some a => mret a | None => unreachable end.

Definition get (key : MetaKey.t) : M (option MetaValue.t) := λ s, Next (record s key) s.
Definition insert_record (key : MetaKey.t) (v : MetaValue.t) : M () :=
  λ s, Next tt (put key v s).
Definition remove_record (key : MetaKey.t) : M () := λ s, Next tt (del key s).
(** A read-only method of [&self]. *)
Definition query {A} (f : RecordMap → A) : M A := λ s, Next (f s) s.

(** The state and response after a handler; [None] when it panicked. *)
Definition run (c : M MetadataResponse.t) (s : RecordMap)
    : option (MetadataResponse.t * RecordMap) :=
  match c s with
  | Next r s' | Done r s' => Some (r, s')
  | Panic => None
  end.

(** * Variant patterns of [MetaValue] *)

Definition as_Node (v : MetaValue.t) : option NodeRecord.t :=
  match v with MetaValue.Node x => Some x | _ => None end.
Definition as_Topic (v : MetaValue.t) : option TopicRecord.t :=
  match v with MetaValue.Topic x => Some x | _ => None end.
Definition as_TopicName (v : MetaValue.t) : option TopicNameRecord.t :=
  match v with MetaValue.TopicName x => Some x | _ => None end.
Definition as_Range (v : MetaValue.t) : option RangeRecord.t :=
  match v with MetaValue.Range x => Some x | _ => None end.
Definition as_Segment (v : MetaValue.t) : option SegmentRecord.t :=
  match v with MetaValue.Segment x => Some x | _ => None end.
Definition as_Key (v : MetaValue.t) : option KeyRecord.t :=
  match v with MetaValue.Key x => Some x | _ => None end.
Definition as_Group (v : MetaValue.t) : option ConsumerGroupRecord.t :=
  match v with MetaValue.Group x => Some x | _ => None end.
Definition as_GroupName (v : MetaValue.t) : option GroupNameRecord.t :=
  match v with MetaValue.GroupName x => Some x | _ => None end.
Definition as_GroupMember (v : MetaValue.t) : option GroupMemberRecord.t :=
  match v with MetaValue.GroupMember x => Some x | _ => None end.
Definition as_GroupCursor (v : MetaValue.t) : option CursorCheckpointRecord.t :=
  match v with MetaValue.GroupCursor x => Some x | _ => None end.
Definition as_SegmentPlacement (v : MetaValue.t) : option SegmentPlacementRecord.t :=
  match v with MetaValue.SegmentPlacement x => Some x | _ => None end.
Definition as_ReplacementProof (v : MetaValue.t) : option ReplacementProofRecord.t :=
  match v with MetaValue.ReplacementProof x => Some x | _ => None end.
Definition as_RebalanceIntent (v : MetaValue.t) : option RebalanceIntentRecord.t :=
  match v with MetaValue.RebalanceIntent x => Some x | _ => None end.
Definition as_TierCopy (v : MetaValue.t) : option TierCopyRecord.t :=
  match v with MetaValue.TierCopy x => Some x | _ => None end.
Definition as_TopicRetentionPolicy (v : MetaValue.t) : option TopicRetentionPolicyRecord.t :=
  match v with MetaValue.TopicRetentionPolicy x => Some x | _ => None end.
Definition as_RangeTransition (v : MetaValue.t) : option RangeTransitionRecord.t :=
  match v with MetaValue.RangeTransition x => Some x | _ => None end.
Definition as_LineageTransition (v : MetaValue.t) : option LineageTransitionRecord.t :=
  match v with MetaValue.LineageTransition x => Some x | _ => None end.
Definition as_ClusterConfig (v : MetaValue.t) : option ClusterConfigRecord.t :=
  match v with MetaValue.ClusterConfig x => Some x | _ => None end.
Definition as_RangeReplicaSet (v : MetaValue.t) : option RangeReplicaSetRecord.t :=
  match v with MetaValue.RangeReplicaSet x => Some x | _ => None end.

(** [let Some(MetaValue::V(x)) = self.records.get(&key) else { return
    reject(error) }]: a record of another variant also takes the else branch. *)
Definition fetch {A} (as_ : MetaValue.t → option A) (key : MetaKey.t)
    (error : MetadataError.t) : M A :=
  v ← get key; some_or (v ≫= as_) error.

(** The same with an [unreachable!] else branch. *)
Definition fetch_again {A} (as_ : MetaValue.t → option A) (key : MetaKey.t) : M A :=
  v ← get key; some_or_panic (v ≫= as_).

(** [match self.record(&key) { None => return reject(error), Some(V(x)) => x,
    Some(_) => unreachable!() }] *)
Definition fetch_strict {A} (as_ : MetaValue.t → option A) (key : MetaKey.t)
    (error : MetadataError.t) : M A :=
  v ← get key; v ← some_or v error; some_or_panic (as_ v).

(** [match self.records.get(&key) { Some(V(x)) => Some(x), Some(_) =>
    unreachable!(), None => None }] *)
Definition fetch_optional {A} (as_ : MetaValue.t → option A) (key : MetaKey.t)
    : M (option A) :=
  v ← get key;
  match v with
  | None => mret None
  | Some v => x ← some_or_panic (as_ v); mret (Some x)
  end.

(** * Formatting

    [Display] of [Uuid] and [Debug] of [str] only reach the text of a rejection.
    The first is the [uuid] crate's and the second escapes by the Unicode tables
    of the toolchain, so both are parameters.  Integers print in decimal. *)
Class Fmt := { uuid_display : Uuid → string; str_debug : string → string }.

Definition int_display {t} (x : int t) : string := pretty (ival x).

(** * Weakest preconditions *)

Definition wp {A} (c : M A) (Q : A → RecordMap → Prop)
    (R : MetadataResponse.t → RecordMap → Prop) (s : RecordMap) : Prop :=
  match c s with
  | Next a s' => Q a s'
  | Done r s' => R r s'
  | Panic => False
  end.

(** A handler meets [R] when both of its exits do. *)
Abbreviation wp_handler c R s := (wp c R R s).

Lemma wp_run c R s :
  wp_handler c R s → ∃ r s', run c s = Some (r, s') ∧ R r s'.
Proof. unfold wp, run. destruct (c s); naive_solver. Qed.

Lemma run_wp (c : M MetadataResponse.t) (R : MetadataResponse.t → RecordMap → Prop) s r s' :
  wp_handler c R s → run c s = Some (r, s') → R r s'.
Proof. unfold wp, run. by destruct (c s); intros ? [= <- <-]. Qed.

Section wp_rules.
Context {A : Type} (Q : A → RecordMap → Prop) (R : MetadataResponse.t → RecordMap → Prop).
Implicit Types s : RecordMap.

Lemma wp_ret a s : Q a s → wp (mret a) Q R s.
Proof. done. Qed.

Lemma wp_bind {B} (c : M B) (k : B → M A) s :
  wp c (λ b s', wp (k b) Q R s') R s → wp (c ≫= k) Q R s.
Proof. unfold wp, mbind, M_bind. by destruct (c s). Qed.

Lemma wp_return r s : R r s → wp (return_ r : M A) Q R s.
Proof. done. Qed.

Lemma wp_some_or (o : option A) e s :
  (o = None → R (reject e) s) → (∀ a, o = Some a → Q a s) → wp (some_or o e) Q R s.
Proof. destruct o; intros; [apply wp_ret|apply wp_return]; auto. Qed.

Lemma wp_some_or_panic (o : option A) a s :
  o = Some a → Q a s → wp (some_or_panic o) Q R s.
Proof. by intros ->. Qed.

Lemma wp_query (f : RecordMap → A) s : Q (f s) s → wp (query f) Q R s.
Proof. done. Qed.

Lemma wp_fetch as_ key e s :
  (record s key ≫= as_ = None → R (reject e) s) →
  (∀ v a, record s key = Some v → as_ v = Some a → Q a s) →
  wp (fetch as_ key e) Q R s.
Proof.
  unfold fetch, wp, mbind, M_bind, get. destruct (record s key) as [v|]; simpl; [|auto].
  destruct (as_ v) eqn:?; simpl; eauto.
Qed.

Lemma wp_fetch_again as_ key a s :
  record s key ≫= as_ = Some a → Q a s → wp (fetch_again as_ key) Q R s.
Proof. unfold fetch_again, wp, mbind, M_bind, get. by intros ->. Qed.

Lemma wp_fetch_strict as_ key e s :
  (∀ v, record s key = Some v → as_ v ≠ None) →
  (record s key = None → R (reject e) s) →
  (∀ v a, record s key = Some v → as_ v = Some a → Q a s) →
  wp (fetch_strict as_ key e) Q R s.
Proof.
  unfold fetch_strict, wp, mbind, M_bind, get. destruct (record s key) as [v|]; simpl; [|auto].
  intros Hty. specialize (Hty v eq_refl). destruct (as_ v) eqn:?; simpl; eauto.
Qed.
End wp_rules.

Lemma wp_fetch_optional {A} (Q : option A → RecordMap → Prop) R as_ key s :
  (∀ v, record s key = Some v → as_ v ≠ None) →
  (record s key = None → Q None s) →
  (∀ v a, record s key = Some v → as_ v = Some a → Q (Some a) s) →
  wp (fetch_optional as_ key) Q R s.
Proof.
  unfold fetch_optional, wp, mbind, M_bind, get.
  destruct (record s key) as [v|]; simpl; [|auto].
  intros Hty. specialize (Hty v eq_refl). destruct (as_ v) eqn:?; simpl; eauto.
Qed.

Lemma wp_get (Q : option MetaValue.t → RecordMap → Prop) R key s :
  Q (record s key) s → wp (get key) Q R s.
Proof. done. Qed.

Lemma wp_insert_record (Q : () → RecordMap → Prop) R key v s :
  Q tt (put key v s) → wp (insert_record key v) Q R s.
Proof. done. Qed.

Lemma wp_remove_record (Q : () → RecordMap → Prop) R key s :
  Q tt (del key s) → wp (remove_record key) Q R s.
Proof. done. Qed.

Lemma wp_reject_if (Q : () → RecordMap → Prop) R P `{!Decision P} e s :
  (P → R (reject e) s) → (¬ P → Q tt s) → wp (reject_if P e) Q R s.
Proof. unfold reject_if. destruct (decide P); intros; [apply wp_return|apply wp_ret]; auto. Qed.

(** * Well-typed record maps *)

(** Every record sits under a well-formed key of the category its variant
    belongs to: what the [unreachable!]s of the handlers rely on. *)
Definition typed (s : RecordMap) : Prop :=
  (∀ bs v, s !! bs = Some v → ∃ key, key_wf key ∧ bs = MetaKey.encode key) ∧
  (∀ key v, record s key = Some v → key_matches_value key v = true).

(** A full scan meets a record exactly under its key. *)
Lemma elem_of_scan s key v :
  (MetaKey.encode key, v) ∈ btree_iter s ↔ record s key = Some v.
Proof. rewrite record_lookup. apply elem_of_btree_iter. Qed.

Lemma typed_empty : typed ∅.
Proof. split; [intros bs v; by rewrite lookup_empty|intros key v; by rewrite record_empty]. Qed.

Lemma typed_put key v s :
  key_wf key → key_matches_value key v = true → typed s → typed (put key v s).
Proof.
  intros Hwf Hm [Hk Ht]. split.
  - intros bs w. Transparent put. unfold put. Opaque put.
    rewrite lookup_insert. case_decide; subst; eauto.
  - intros key' w. rewrite record_put_case. case_decide; [naive_solver|eauto].
Qed.

Lemma typed_del key s : typed s → typed (del key s).
Proof.
  intros [Hk Ht]. split.
  - intros bs w. Transparent del. unfold del. Opaque del.
    rewrite lookup_delete. case_decide; [done|eauto].
  - intros key' w. rewrite record_del_case. case_decide; [done|eauto].
Qed.

(** * Variants and categories

    [Variant] relates a [MetaValue] pattern to its constructor, [Holds] a key to
    the constructor of the records stored under it. *)

Class Variant {A} (as_ : MetaValue.t → option A) (wrap : A → MetaValue.t) : Prop :=
  variant_as : ∀ v a, as_ v = Some a ↔ v = wrap a.
Class Holds {A} (key : MetaKey.t) (wrap : A → MetaValue.t) : Prop :=
  holds_matches : ∀ v, key_matches_value key v = true ↔ ∃ a, v = wrap a.

Ltac solve_variant := intros [] ?; simpl; split; congruence.
Ltac solve_holds :=
  intros []; simpl;
  (split;
   [ intros H; first [discriminate H | eexists; reflexivity]
   | intros [? H]; first [reflexivity | discriminate H] ]).

#[global] Instance variant_Node : Variant as_Node MetaValue.Node.
Proof. solve_variant. Qed.
#[global] Instance variant_Topic : Variant as_Topic MetaValue.Topic.
Proof. solve_variant. Qed.
#[global] Instance variant_TopicName : Variant as_TopicName MetaValue.TopicName.
Proof. solve_variant. Qed.
#[global] Instance variant_Range : Variant as_Range MetaValue.Range.
Proof. solve_variant. Qed.
#[global] Instance variant_Segment : Variant as_Segment MetaValue.Segment.
Proof. solve_variant. Qed.
#[global] Instance variant_Key : Variant as_Key MetaValue.Key.
Proof. solve_variant. Qed.
#[global] Instance variant_Group : Variant as_Group MetaValue.Group.
Proof. solve_variant. Qed.
#[global] Instance variant_GroupName : Variant as_GroupName MetaValue.GroupName.
Proof. solve_variant. Qed.
#[global] Instance variant_GroupMember : Variant as_GroupMember MetaValue.GroupMember.
Proof. solve_variant. Qed.
#[global] Instance variant_GroupCursor : Variant as_GroupCursor MetaValue.GroupCursor.
Proof. solve_variant. Qed.
#[global] Instance variant_SegmentPlacement :
  Variant as_SegmentPlacement MetaValue.SegmentPlacement.
Proof. solve_variant. Qed.
#[global] Instance variant_ReplacementProof :
  Variant as_ReplacementProof MetaValue.ReplacementProof.
Proof. solve_variant. Qed.
#[global] Instance variant_RebalanceIntent :
  Variant as_RebalanceIntent MetaValue.RebalanceIntent.
Proof. solve_variant. Qed.
#[global] Instance variant_TierCopy : Variant as_TierCopy MetaValue.TierCopy.
Proof. solve_variant. Qed.
#[global] Instance variant_TopicRetentionPolicy :
  Variant as_TopicRetentionPolicy MetaValue.TopicRetentionPolicy.
Proof. solve_variant. Qed.
#[global] Instance variant_RangeTransition :
  Variant as_RangeTransition MetaValue.RangeTransition.
Proof. solve_variant. Qed.
#[global] Instance variant_LineageTransition :
  Variant as_LineageTransition MetaValue.LineageTransition.
Proof. solve_variant. Qed.
#[global] Instance variant_ClusterConfig : Variant as_ClusterConfig MetaValue.ClusterConfig.
Proof. solve_variant. Qed.
#[global] Instance variant_RangeReplicaSet :
  Variant as_RangeReplicaSet MetaValue.RangeReplicaSet.
Proof. solve_variant. Qed.

#[global] Instance holds_Node n : Holds (MetaKey.Node n) MetaValue.Node.
Proof. solve_holds. Qed.
#[global] Instance holds_Topic t : Holds (MetaKey.Topic t) MetaValue.Topic.
Proof. solve_holds. Qed.
#[global] Instance holds_TopicByName n : Holds (MetaKey.TopicByName n) MetaValue.TopicName.
Proof. solve_holds. Qed.
#[global] Instance holds_Range t r : Holds (MetaKey.Range t r) MetaValue.Range.
Proof. solve_holds. Qed.
#[global] Instance holds_Segment t r g : Holds (MetaKey.Segment t r g) MetaValue.Segment.
Proof. solve_holds. Qed.
#[global] Instance holds_Group g : Holds (MetaKey.Group g) MetaValue.Group.
Proof. solve_holds. Qed.
#[global] Instance holds_GroupByName n : Holds (MetaKey.GroupByName n) MetaValue.GroupName.
Proof. solve_holds. Qed.
#[global] Instance holds_GroupMember g m :
  Holds (MetaKey.GroupMember g m) MetaValue.GroupMember.
Proof. solve_holds. Qed.
#[global] Instance holds_GroupCursor g t r :
  Holds (MetaKey.GroupCursor g t r) MetaValue.GroupCursor.
Proof. solve_holds. Qed.
#[global] Instance holds_SegmentPlacement t r g :
  Holds (MetaKey.SegmentPlacement t r g) MetaValue.SegmentPlacement.
Proof. solve_holds. Qed.
#[global] Instance holds_SegmentReplacementProof t r g :
  Holds (MetaKey.SegmentReplacementProof t r g) MetaValue.ReplacementProof.
Proof. solve_holds. Qed.
#[global] Instance holds_SegmentRebalanceIntent t r g :
  Holds (MetaKey.SegmentRebalanceIntent t r g) MetaValue.RebalanceIntent.
Proof. solve_holds. Qed.
#[global] Instance holds_SegmentTierCopy t r g :
  Holds (MetaKey.SegmentTierCopy t r g) MetaValue.TierCopy.
Proof. solve_holds. Qed.
#[global] Instance holds_TopicRetentionPolicy t :
  Holds (MetaKey.TopicRetentionPolicy t) MetaValue.TopicRetentionPolicy.
Proof. solve_holds. Qed.
#[global] Instance holds_RangeTransition t r e :
  Holds (MetaKey.RangeTransition t r e) MetaValue.RangeTransition.
Proof. solve_holds. Qed.
#[global] Instance holds_LineageTransition t i :
  Holds (MetaKey.LineageTransition t i) MetaValue.LineageTransition.
Proof. solve_holds. Qed.
#[global] Instance holds_ClusterConfig : Holds MetaKey.ClusterConfig MetaValue.ClusterConfig.
Proof. solve_holds. Qed.
#[global] Instance holds_RangeReplicaSet t r :
  Holds (MetaKey.RangeReplicaSet t r) MetaValue.RangeReplicaSet.
Proof. solve_holds. Qed.

Lemma typed_lookup {A} {key : MetaKey.t} {wrap : A → MetaValue.t} `{!Holds key wrap} s v :
  typed s → record s key = Some v → ∃ a, v = wrap a.
Proof. intros [_ Ht] Hv. apply holds_matches. by apply Ht. Qed.

(** The fetches against their variants: a record of the pattern's constructor or
    the else branch. *)
Section wp_variants.
Context {A} {as_ : MetaValue.t → option A} {wrap : A → MetaValue.t} `{!Variant as_ wrap}.
Implicit Types s : RecordMap.

Lemma as_wrap a : as_ (wrap a) = Some a.
Proof. by apply variant_as. Qed.

Lemma bind_variant (o : option MetaValue.t) a : o ≫= as_ = Some a ↔ o = Some (wrap a).
Proof.
  destruct o as [v|]; simpl; [|split; discriminate].
  rewrite variant_as. split; congruence.
Qed.

Lemma wp_fetch_as Q R key e s :
  R (reject e) s → (∀ a, record s key = Some (wrap a) → Q a s) → wp (fetch as_ key e) Q R s.
Proof. intros ? HQ. apply wp_fetch; [done|]. intros v a Hv ->%variant_as. auto. Qed.

Lemma wp_fetch_again_as Q R key a s :
  record s key = Some (wrap a) → Q a s → wp (fetch_again as_ key) Q R s.
Proof. intros. apply wp_fetch_again with a; [by apply bind_variant|done]. Qed.

Lemma wp_fetch_strict_as Q R key `{!Holds key wrap} e s :
  typed s → R (reject e) s → (∀ a, record s key = Some (wrap a) → Q a s) →
  wp (fetch_strict as_ key e) Q R s.
Proof.
  intros Hty ? HQ. apply wp_fetch_strict; [|done|].
  - intros v Hv. destruct (typed_lookup s v Hty Hv) as [a ->]. by rewrite as_wrap.
  - intros v a Hv ->%variant_as. auto.
Qed.

Lemma wp_fetch_optional_as Q R key `{!Holds key wrap} s :
  typed s →
  (∀ o, record s key = wrap <$> o → Q o s) → wp (fetch_optional as_ key) Q R s.
Proof.
  intros Hty HQ. apply wp_fetch_optional.
  - intros v Hv. destruct (typed_lookup s v Hty Hv) as [a ->]. by rewrite as_wrap.
  - intros Hn. by apply HQ.
  - intros v a Hv ->%variant_as. by apply HQ.
Qed.

(** Under [typed] a failed pattern is an absent record. *)
Lemma bind_variant_typed s key `{!Holds key wrap} :
  typed s → record s key = wrap <$> (record s key ≫= as_).
Proof.
  intros Hty. destruct (record s key) as [v|] eqn:Hv; [|done]. simpl.
  destruct (typed_lookup s v Hty Hv) as [a ->]. by rewrite as_wrap.
Qed.
End wp_variants.

(** * Automation

    [key_ne] separates record keys; [rec_simpl] evaluates lookups through
    updates; [wp_step] advances one operation of a handler, discharging the
    rejection branches with the [flow] hints. *)
Create HintDb flow discriminated.

Ltac rec_simpl :=
  repeat first
    [ rewrite record_put
    | rewrite record_put_ne by (first [discriminate | congruence])
    | rewrite record_del
    | rewrite record_del_ne by (first [discriminate | congruence]) ].
Ltac rec_simpl_in H :=
  repeat first
    [ rewrite record_put in H
    | rewrite record_put_ne in H by (first [discriminate | congruence])
    | rewrite record_del in H
    | rewrite record_del_ne in H by (first [discriminate | congruence]) ].

Ltac reject_done := solve [eauto with flow | done].

Ltac wp_step :=
  lazymatch goal with
  | |- wp (mret _) _ _ _ => apply wp_ret
  | |- wp (_ ≫= _) _ _ _ => apply wp_bind
  | |- wp (return_ _) _ _ _ => apply wp_return
  | |- wp (reject_if _ _) _ _ _ => apply wp_reject_if; [intros _; try reject_done|intros ?]
  | |- wp (some_or _ _) _ _ _ => apply wp_some_or; [intros _; try reject_done|intros ??]
  | |- wp (some_or_panic _) _ _ _ => eapply wp_some_or_panic; [eassumption|]
  | |- wp (query _) _ _ _ => apply wp_query
  | |- wp (get _) _ _ _ => apply wp_get
  | |- wp (insert_record _ _) _ _ _ => apply wp_insert_record
  | |- wp (remove_record _) _ _ _ => apply wp_remove_record
  | |- wp (fetch _ _ _) _ _ _ => apply wp_fetch_as; [try reject_done|intros ??]
  | |- wp (fetch_strict _ _ _) _ _ _ =>
      apply wp_fetch_strict_as; [apply _|assumption|try reject_done|intros ??]
  | |- wp (fetch_optional _ _) _ _ _ =>
      apply wp_fetch_optional_as; [apply _|assumption|intros ??]
  | |- wp (fetch_again _ _) _ _ _ =>
      eapply wp_fetch_again_as; [rec_simpl; eassumption|]
  | |- wp (match ?o with _ => _ end) _ _ _ => destruct o eqn:?
  end; cbn beta zeta.
Ltac wp_steps := repeat wp_step.

(** Turns a goal about a completed run into a weakest-precondition goal. *)
Ltac wp_of_run H :=
  lazymatch type of H with
  | run ?c ?s = Some (?r, ?s') =>
      pattern r, s';
      lazymatch goal with |- ?P r s' => refine (run_wp c P s r s' _ H) end;
      clear H; cbn beta
  end.
