(* ===== verification/LeaseOps.v ===== *)
(** Handlers of [MetaStateMachine] ([crates/vtop-meta/src/state.rs]) for nodes,
    topics, range leases, epoch transitions, the recorded replica set and the
    cluster feature level. *)

From stdpp Require Import prelude gmap strings list pretty.
From Stdlib Require Import ZArith Lia.
From S2P Require Import Prelude Wire Keys Command Placement Records Flow.

Section handlers.
Context `{Fmt}.

(** * Nodes and topics *)

Definition register_node (node_uuid : Uuid) (addr : string)
    (expected_generation : option u64) : M MetadataResponse.t :=
  reject_if (str_len addr = 0 ∨ str_len addr > MAX_NODE_ADDR_BYTES)
    (MetadataError.limit ("node address must be 1..=" +:+ pretty MAX_NODE_ADDR_BYTES
       +:+ " bytes, got " +:+ pretty (str_len addr)));;
  existing ← get (MetaKey.Node node_uuid);
  match existing, expected_generation with
  | None, None =>
      insert_record (MetaKey.Node node_uuid)
        (MetaValue.Node
           (NodeRecord.mk addr NodeState.Active zero "" DEFAULT_PLACEMENT_WEIGHT));;
      mret (MetadataResponse.Ack zero)
  | None, Some _ => return_ (reject MetadataError.NotFound)
  | Some _, None => return_ (reject MetadataError.AlreadyExists)
  | Some (MetaValue.Node node), Some expected =>
      reject_if (NodeRecord.generation node ≠ expected)
        (MetadataError.GenerationMismatch expected (NodeRecord.generation node));;
      let generation := wrapping_succ (NodeRecord.generation node) in
      insert_record (MetaKey.Node node_uuid)
        (MetaValue.Node
           (NodeRecord.mk addr NodeState.Active generation
              (NodeRecord.failure_domain node) (NodeRecord.placement_weight node)));;
      mret (MetadataResponse.Ack generation)
  | Some _, Some _ => unreachable
  end.

(** The guarded transitions of [set_node_state]. *)
Definition node_transition_allowed (from target : NodeState.t) : bool :=
  match from, target with
  | NodeState.Active, NodeState.Draining
  | NodeState.Active, NodeState.Dead
  | NodeState.Draining, NodeState.Active
  | NodeState.Draining, NodeState.Dead => true
  | _, _ => false
  end.

Definition set_node_state (node_uuid : Uuid) (target : NodeState.t)
    (expected_generation : u64) : M MetadataResponse.t :=
  node ← fetch as_Node (MetaKey.Node node_uuid) MetadataError.NotFound;
  reject_if (NodeRecord.generation node ≠ expected_generation)
    (MetadataError.GenerationMismatch expected_generation (NodeRecord.generation node));;
  reject_if (node_transition_allowed (NodeRecord.state node) target = false)
    (MetadataError.invalid_transition ("node state "
       +:+ NodeState.as_str (NodeRecord.state node) +:+ " -> "
       +:+ NodeState.as_str target +:+ " is not allowed"));;
  let generation := wrapping_succ (NodeRecord.generation node) in
  insert_record (MetaKey.Node node_uuid)
    (MetaValue.Node
       (NodeRecord.mk (NodeRecord.addr node) target generation
          (NodeRecord.failure_domain node) (NodeRecord.placement_weight node)));;
  mret (MetadataResponse.Ack generation).

(** The root range covers the full key interval. *)
Definition root_range : RangeRecord.t :=
  RangeRecord.mk zero zero zero zero zero [] None None.

Definition create_topic (name : string) (topic_uuid root_range_uuid : Uuid)
    : M MetadataResponse.t :=
  reject_if (is_err (validate_topic_name name) = true)
    (MetadataError.limit ("topic name must be 1..=" +:+ pretty MAX_TOPIC_NAME_BYTES
       +:+ " bytes, got " +:+ pretty (str_len name)));;
  topic ← get (MetaKey.Topic topic_uuid);
  reject_if (is_Some topic) MetadataError.AlreadyExists;;
  range ← get (MetaKey.Range topic_uuid root_range_uuid);
  reject_if (is_Some range) MetadataError.AlreadyExists;;
  named ← fetch_optional as_TopicName (MetaKey.TopicByName name);
  let prior_epoch := from_option TopicNameRecord.latest_epoch zero named in
  let topic_epoch := wrapping_succ prior_epoch in
  insert_record (MetaKey.TopicByName name)
    (MetaValue.TopicName (TopicNameRecord.mk topic_uuid topic_epoch));;
  insert_record (MetaKey.Topic topic_uuid)
    (MetaValue.Topic (TopicRecord.mk name topic_epoch zero));;
  insert_record (MetaKey.Range topic_uuid root_range_uuid) (MetaValue.Range root_range);;
  mret (MetadataResponse.TopicCreated topic_uuid topic_epoch root_range_uuid).

(** * Leases *)

(** The holder check shared by grant, acquire and renew: a registered, active
    node; [role] is the word the rejection uses. *)
Definition require_active_node (role : string) (holder_node_uuid : Uuid) : M () :=
  node ← fetch_strict as_Node (MetaKey.Node holder_node_uuid) MetadataError.NotFound;
  reject_if (NodeRecord.state node ≠ NodeState.Active)
    (MetadataError.invalid_transition ("lease " +:+ role +:+ " "
       +:+ uuid_display holder_node_uuid +:+ " is "
       +:+ NodeState.as_str (NodeRecord.state node) +:+ ", not active")).

Definition mint_transition (topic_uuid range_uuid : Uuid)
    (transition : RangeTransitionRecord.t) : M () :=
  insert_record
    (MetaKey.RangeTransition topic_uuid range_uuid (RangeTransitionRecord.epoch_to transition))
    (MetaValue.RangeTransition transition).

Definition lease_holder (range : RangeRecord.t) : option Uuid :=
  LeaseRecord.holder_node_uuid <$> RangeRecord.lease range.

(** The range after a grant: the minted epoch, the new lease, the next
    generation. *)
Definition granted_range (holder_node_uuid : Uuid) (fencing_epoch apply_index : u64)
    (expires_at_ms : option i64) (range : RangeRecord.t) : RangeRecord.t :=
  RangeRecord.set_generation (wrapping_succ (RangeRecord.generation range))
    (RangeRecord.set_lease
       (Some (LeaseRecord.mk holder_node_uuid fencing_epoch apply_index expires_at_ms))
       (RangeRecord.set_fencing_epoch fencing_epoch range)).

Definition grant_range_lease (apply_index : u64) (now_ms : i64)
    (topic_uuid range_uuid holder_node_uuid : Uuid) (expected_range_generation : u64)
    : M MetadataResponse.t :=
  require_active_node "holder" holder_node_uuid;;
  range ← fetch as_Range (MetaKey.Range topic_uuid range_uuid) MetadataError.NotFound;
  reject_if (RangeRecord.generation range ≠ expected_range_generation)
    (MetadataError.GenerationMismatch expected_range_generation
       (RangeRecord.generation range));;
  fencing_epoch ← some_or (checked_succ (RangeRecord.fencing_epoch range))
    (MetadataError.limit "fencing epoch space is exhausted");
  insert_record (MetaKey.Range topic_uuid range_uuid)
    (MetaValue.Range (granted_range holder_node_uuid fencing_epoch apply_index None range));;
  mint_transition topic_uuid range_uuid
    (RangeTransitionRecord.mk (RangeRecord.fencing_epoch range) fencing_epoch
       (lease_holder range) holder_node_uuid GrantKind.Administrative now_ms apply_index
       TransitionOutcome.Pending);;
  mret (MetadataResponse.LeaseGranted fencing_epoch).

(** [i64::checked_add_unsigned] *)
Definition checked_add_unsigned (a : i64) (b : u64) : option i64 := try_int I64 (a + b).

(** The refusals of an election against the lease in place: an administrative
    lease is off-limits, and so is a live one held by someone else. *)
Definition election_guard (existing : option LeaseRecord.t) (holder_node_uuid : Uuid)
    (now_ms : i64) : M () :=
  match existing with
  | None => mret tt
  | Some existing =>
      reject_if (LeaseRecord.expires_at_ms existing = None)
        (MetadataError.invalid_transition
           "range holds an administrative lease with no deadline; it cannot be acquired by election, only released or re-granted");;
      reject_if (LeaseRecord.holder_node_uuid existing ≠ holder_node_uuid
                 ∧ LeaseRecord.is_live_at existing now_ms = true)
        (MetadataError.invalid_transition ("range lease is held by "
           +:+ uuid_display (LeaseRecord.holder_node_uuid existing)
           +:+ " and is still live"))
  end.

Definition acquire_range_lease (apply_index : u64) (now_ms : i64)
    (topic_uuid range_uuid holder_node_uuid : Uuid)
    (expected_range_generation lease_duration_ms : u64) : M MetadataResponse.t :=
  reject_if (lease_duration_ms = zero)
    (MetadataError.invalid_transition
       "lease duration must be greater than zero; a zero-length lease would expire before its holder could renew it");;
  require_active_node "candidate" holder_node_uuid;;
  expires_at_ms ← some_or (checked_add_unsigned now_ms lease_duration_ms)
    (MetadataError.limit "lease deadline overflows the representable time range");
  range ← fetch as_Range (MetaKey.Range topic_uuid range_uuid) MetadataError.NotFound;
  reject_if (RangeRecord.generation range ≠ expected_range_generation)
    (MetadataError.GenerationMismatch expected_range_generation
       (RangeRecord.generation range));;
  election_guard (RangeRecord.lease range) holder_node_uuid now_ms;;
  fencing_epoch ← some_or (checked_succ (RangeRecord.fencing_epoch range))
    (MetadataError.limit "fencing epoch space is exhausted");
  insert_record (MetaKey.Range topic_uuid range_uuid)
    (MetaValue.Range
       (granted_range holder_node_uuid fencing_epoch apply_index (Some expires_at_ms) range));;
  mint_transition topic_uuid range_uuid
    (RangeTransitionRecord.mk (RangeRecord.fencing_epoch range) fencing_epoch
       (lease_holder range) holder_node_uuid GrantKind.Election now_ms apply_index
       TransitionOutcome.Pending);;
  mret (MetadataResponse.LeaseGranted fencing_epoch).

(** [i64::max] *)
Definition i64_max (a b : i64) : i64 := if decide (ival a ≤ ival b) then b else a.

Definition renew_range_lease (now_ms : i64)
    (topic_uuid range_uuid holder_node_uuid : Uuid)
    (expected_fencing_epoch lease_duration_ms : u64) : M MetadataResponse.t :=
  reject_if (lease_duration_ms = zero)
    (MetadataError.invalid_transition "lease duration must be greater than zero");;
  expires_at_ms ← some_or (checked_add_unsigned now_ms lease_duration_ms)
    (MetadataError.limit "lease deadline overflows the representable time range");
  range ← fetch as_Range (MetaKey.Range topic_uuid range_uuid) MetadataError.NotFound;
  lease ← some_or (RangeRecord.lease range)
    (MetadataError.invalid_transition "range holds no lease to renew");
  reject_if (LeaseRecord.holder_node_uuid lease ≠ holder_node_uuid)
    (MetadataError.invalid_transition ("range lease is held by "
       +:+ uuid_display (LeaseRecord.holder_node_uuid lease) +:+ ", not "
       +:+ uuid_display holder_node_uuid));;
  reject_if (LeaseRecord.fencing_epoch lease ≠ expected_fencing_epoch)
    (MetadataError.EpochMismatch expected_fencing_epoch (LeaseRecord.fencing_epoch lease));;
  current_deadline ← some_or (LeaseRecord.expires_at_ms lease)
    (MetadataError.invalid_transition
       "range holds an administrative lease with no deadline; it cannot be renewed, only released or re-granted");
  reject_if (ival now_ms >= ival current_deadline)
    (MetadataError.invalid_transition ("range lease expired at "
       +:+ int_display current_deadline +:+ "; acquire it instead of renewing"));;
  require_active_node "holder" holder_node_uuid;;
  let extended := i64_max current_deadline expires_at_ms in
  range ← fetch_again as_Range (MetaKey.Range topic_uuid range_uuid);
  lease ← some_or_panic (RangeRecord.lease range);
  insert_record (MetaKey.Range topic_uuid range_uuid)
    (MetaValue.Range
       (RangeRecord.set_lease (Some (LeaseRecord.set_expires_at_ms (Some extended) lease))
          range));;
  mret (MetadataResponse.LeaseGranted expected_fencing_epoch).

Definition release_range_lease (topic_uuid range_uuid : Uuid) (expected_fencing_epoch : u64)
    : M MetadataResponse.t :=
  range ← fetch as_Range (MetaKey.Range topic_uuid range_uuid) MetadataError.NotFound;
  reject_if (RangeRecord.fencing_epoch range ≠ expected_fencing_epoch)
    (MetadataError.EpochMismatch expected_fencing_epoch (RangeRecord.fencing_epoch range));;
  reject_if (RangeRecord.lease range = None)
    (MetadataError.invalid_transition "range holds no lease to release");;
  let generation := wrapping_succ (RangeRecord.generation range) in
  insert_record (MetaKey.Range topic_uuid range_uuid)
    (MetaValue.Range
       (RangeRecord.set_generation generation (RangeRecord.set_lease None range)));;
  mret (MetadataResponse.Ack generation).

(** * Epoch transitions *)

Definition quorum_too_long (outcome : PromotionOutcome.t) : bool :=
  match outcome with
  | PromotionOutcome.Established _ _ quorum _ _ =>
      bool_decide (Z.of_nat (length quorum) > MAX_TRANSITION_QUORUM)
  | PromotionOutcome.Refused _ => false
  end.

Definition is_established (outcome : TransitionOutcome.t) : bool :=
  match outcome with
  | TransitionOutcome.Reported (PromotionOutcome.Established _ _ _ _ _) _ _ => true
  | _ => false
  end.

Definition report_promotion_outcome (apply_index : u64) (now_ms : i64)
    (topic_uuid range_uuid holder_node_uuid : Uuid) (fencing_epoch : u64)
    (outcome : PromotionOutcome.t) : M MetadataResponse.t :=
  reject_if (quorum_too_long outcome = true)
    (MetadataError.limit ("a promotion report may carry at most "
       +:+ pretty MAX_TRANSITION_QUORUM +:+ " quorum answers"));;
  transition ← fetch as_RangeTransition
    (MetaKey.RangeTransition topic_uuid range_uuid fencing_epoch) MetadataError.NotFound;
  reject_if (RangeTransitionRecord.holder_to transition ≠ holder_node_uuid)
    (MetadataError.invalid_transition ("epoch " +:+ int_display fencing_epoch
       +:+ " was granted to " +:+ uuid_display (RangeTransitionRecord.holder_to transition)
       +:+ ", not " +:+ uuid_display holder_node_uuid));;
  reject_if (is_established (RangeTransitionRecord.outcome transition) = true)
    (MetadataError.invalid_transition ("epoch " +:+ int_display fencing_epoch
       +:+ " is already recorded as established; an established transition is final"));;
  insert_record (MetaKey.RangeTransition topic_uuid range_uuid fencing_epoch)
    (MetaValue.RangeTransition
       (RangeTransitionRecord.set_outcome
          (TransitionOutcome.Reported outcome now_ms apply_index) transition));;
  mret (MetadataResponse.TransitionRecorded fencing_epoch).

(** The part of a range's transition chain from [from_epoch] upward, in key
    order: [records.range(start..=end)]. *)
Definition transition_entries (s : RecordMap) (topic_uuid range_uuid : Uuid)
    (from_epoch : u64) : list (list u8 * MetaValue.t) :=
  btree_range s
    (MetaKey.encode (MetaKey.RangeTransition topic_uuid range_uuid from_epoch))
    (MetaKey.encode (MetaKey.RangeTransition topic_uuid range_uuid u64_MAX)).

Definition range_transitions (s : RecordMap) (topic_uuid range_uuid : Uuid)
    (from_epoch : u64) (limit : nat) : list RangeTransitionRecord.t :=
  omap (λ e, as_RangeTransition e.2)
    (take limit (transition_entries s topic_uuid range_uuid from_epoch)).

(** * The recorded replica set *)

Definition range_replica_set (s : RecordMap) (topic_uuid range_uuid : Uuid)
    : option RangeReplicaSetRecord.t :=
  record s (MetaKey.RangeReplicaSet topic_uuid range_uuid) ≫= as_RangeReplicaSet.

(** The majority of a replica set. *)
Definition majority (members : list Uuid) : nat := (length members / 2 + 1)%nat.

(** Members whose fence answer is at or above the offset [own]. *)
Definition holding (members : list Uuid) (quorum : list QuorumAnswer.t) (own : u64)
    : list Uuid :=
  filter (λ member, Exists (λ answer, QuorumAnswer.node_uuid answer = member
                                      ∧ ival own <= ival (QuorumAnswer.offset answer)) quorum)
    members.

(** The closure of [established_under]: does this transition prove the range was
    led under [members] with the leader's whole log on a majority of them? *)
Definition establishes (members : list Uuid) (value : MetaValue.t) : bool :=
  match value with
  | MetaValue.RangeTransition
      (RangeTransitionRecord.mk _ _ _ holder_to _ _ _
         (TransitionOutcome.Reported (PromotionOutcome.Established _ _ quorum _ _) _ _)) =>
      match quorum with
      | [] => bool_decide (members = [holder_to])
      | _ =>
          if decide (holder_to ∈ members) then
            match list_find (λ answer, QuorumAnswer.node_uuid answer = holder_to) quorum with
            | None => false
            | Some (_, own) =>
                bool_decide
                  (majority members
                   <= length (holding members quorum (QuorumAnswer.offset own)))%nat
            end
          else false
      end
  | _ => false
  end.

Definition established_under (s : RecordMap) (topic_uuid range_uuid : Uuid)
    (set : RangeReplicaSetRecord.t) : bool :=
  match checked_succ (RangeReplicaSetRecord.recorded_at_epoch set) with
  | None => false
  | Some from =>
      existsb (λ e, establishes (RangeReplicaSetRecord.members set) e.2)
        (transition_entries s topic_uuid range_uuid from)
  end.

(** The number of members two sets do not share. *)
Definition changed_members (sorted current : list Uuid) : nat :=
  (length (filter (λ node, node ∉ current) sorted)
   + length (filter (λ node, node ∉ sorted) current))%nat.

(** [set_range_replica_set] against an already recorded set: the same members
    are an idempotent acknowledgement, anything else must be one member away and
    the current set must have been led under. *)
Definition replica_set_change_guard (topic_uuid range_uuid : Uuid) (sorted : list Uuid)
    (current : option RangeReplicaSetRecord.t) : M () :=
  match current with
  | None => mret tt
  | Some current =>
      (if decide (RangeReplicaSetRecord.members current = sorted)
       then return_ (MetadataResponse.Ack (RangeReplicaSetRecord.generation current))
       else mret tt);;
      let changed := changed_members sorted (RangeReplicaSetRecord.members current) in
      reject_if (changed ≠ 1%nat)
        (MetadataError.invalid_transition
           ("a replica set changes by one member at a time; this change adds or removes "
            +:+ pretty changed));;
      established ← query (λ s, established_under s topic_uuid range_uuid current);
      reject_if (established = false)
        (MetadataError.invalid_transition
           ("the range has not been led under the current replica set (recorded at fencing epoch "
            +:+ int_display (RangeReplicaSetRecord.recorded_at_epoch current)
            +:+ ") with its leader's whole log on a majority of it; wait for a promotion under it, and if one was established while its leader was ahead of the replicas, restart that leader once it has caught them up so the next promotion proves it, then retry"))
  end.

(** [range.lease.take()], counted as a mutation when there was one. *)
Definition cleared_lease (range : RangeRecord.t) : RangeRecord.t :=
  match RangeRecord.lease range with
  | None => range
  | Some _ =>
      RangeRecord.set_generation (wrapping_succ (RangeRecord.generation range))
        (RangeRecord.set_lease None range)
  end.

Definition set_range_replica_set (topic_uuid range_uuid : Uuid) (members : list Uuid)
    (expected_generation : u64) : M MetadataResponse.t :=
  range ← fetch as_Range (MetaKey.Range topic_uuid range_uuid) MetadataError.NotFound;
  let fencing_epoch := RangeRecord.fencing_epoch range in
  let sorted := dedup (stable_sort int_le members) in
  reject_if (sorted = [] ∨ length sorted ≠ length members)
    (MetadataError.invalid_transition "a replica set names one or more distinct nodes");;
  missing ← query (λ s, list_find (λ node, record s (MetaKey.Node node) = None) sorted);
  match missing with
  | Some (_, missing) =>
      return_ (reject (MetadataError.invalid_transition
        ("replica set member " +:+ uuid_display missing +:+ " is not a registered node")))
  | None => mret tt
  end;;
  current ← query (λ s, range_replica_set s topic_uuid range_uuid);
  let actual_generation := from_option RangeReplicaSetRecord.generation zero current in
  reject_if (expected_generation ≠ actual_generation)
    (MetadataError.GenerationMismatch expected_generation actual_generation);;
  replica_set_change_guard topic_uuid range_uuid sorted current;;
  range ← fetch_again as_Range (MetaKey.Range topic_uuid range_uuid);
  insert_record (MetaKey.Range topic_uuid range_uuid)
    (MetaValue.Range (cleared_lease range));;
  let generation := wrapping_succ actual_generation in
  insert_record (MetaKey.RangeReplicaSet topic_uuid range_uuid)
    (MetaValue.RangeReplicaSet (RangeReplicaSetRecord.mk generation sorted fencing_epoch));;
  mret (MetadataResponse.Ack generation).

(** * The cluster feature level *)

Definition feature_level (s : RecordMap) : u32 :=
  match record s MetaKey.ClusterConfig with
  | Some (MetaValue.ClusterConfig config) => ClusterConfigRecord.feature_level config
  | _ => BASELINE_FEATURE_LEVEL
  end.

Definition set_feature_level (requested : u32) : M MetadataResponse.t :=
  reject_if (ival requested > ival SUPPORTED_FEATURE_LEVEL)
    (MetadataError.invalid_transition ("feature level " +:+ int_display requested
       +:+ " is newer than this release supports (" +:+ int_display SUPPORTED_FEATURE_LEVEL
       +:+ ")"));;
  current ← query feature_level;
  (if decide (ival requested > ival current)
   then insert_record MetaKey.ClusterConfig
          (MetaValue.ClusterConfig (ClusterConfigRecord.mk requested))
   else mret tt);;
  level ← query feature_level;
  mret (MetadataResponse.Ack (wrap_int U64 (ival level))).

End handlers.
