(* ===== verification/GroupOps.v ===== *)
(** Handlers of [MetaStateMachine] ([crates/vtop-meta/src/state.rs]) for consumer
    groups: membership, exclusive range assignment, liveness, and the
    lineage-aware durable cursors. *)

From stdpp Require Import prelude gmap strings list pretty.
From Stdlib Require Import ZArith Lia.
From S2P Require Import Prelude Wire Keys Command Placement Records Flow LeaseOps.

(** * Membership *)

(** [matches!(self.records.get(&key), Some(MetaValue::V(_)))] *)
Definition require {A} (as_ : MetaValue.t → option A) (key : MetaKey.t)
    (error : MetadataError.t) : M () :=
  _ ← fetch as_ key error; mret tt.

Definition put_key_record (key_uuid : Uuid) (scheme : u16) (public_material_digest : bytes32)
    : M MetadataResponse.t :=
  existing ← get (MetaKey.Key key_uuid);
  reject_if (is_Some existing) MetadataError.AlreadyExists;;
  insert_record (MetaKey.Key key_uuid)
    (MetaValue.Key (KeyRecord.mk scheme public_material_digest KeyState.Active));;
  mret (MetadataResponse.Ack zero).

Definition group_name_limit (name : string) : MetadataError.t :=
  MetadataError.limit ("group name must be 1..=" +:+ pretty MAX_GROUP_NAME_BYTES
    +:+ " bytes, got " +:+ pretty (str_len name)).

Definition create_consumer_group (name : string) (group_uuid : Uuid) : M MetadataResponse.t :=
  reject_if (is_err (validate_group_name name) = true) (group_name_limit name);;
  group ← get (MetaKey.Group group_uuid);
  reject_if (is_Some group) MetadataError.AlreadyExists;;
  named ← get (MetaKey.GroupByName name);
  reject_if (is_Some named) MetadataError.AlreadyExists;;
  insert_record (MetaKey.GroupByName name)
    (MetaValue.GroupName (GroupNameRecord.mk group_uuid));;
  insert_record (MetaKey.Group group_uuid)
    (MetaValue.Group (ConsumerGroupRecord.mk name zero));;
  mret (MetadataResponse.GroupCreated group_uuid zero).

(** The closing step of a membership change: the group's generation moves. *)
Definition set_group_generation (group_uuid : Uuid) (generation : u64) : M () :=
  group ← fetch_again as_Group (MetaKey.Group group_uuid);
  insert_record (MetaKey.Group group_uuid)
    (MetaValue.Group (ConsumerGroupRecord.set_generation generation group)).

Definition group_exhausted : MetadataError.t :=
  MetadataError.limit "group generation space is exhausted".
Definition member_exhausted : MetadataError.t :=
  MetadataError.limit "member generation space is exhausted".

Definition join_consumer_group (apply_index : u64) (group_uuid member_uuid : Uuid)
    (expected_group_generation : u64) : M MetadataResponse.t :=
  group ← fetch as_Group (MetaKey.Group group_uuid) MetadataError.NotFound;
  reject_if (ConsumerGroupRecord.generation group ≠ expected_group_generation)
    (MetadataError.GenerationMismatch expected_group_generation
       (ConsumerGroupRecord.generation group));;
  member ← get (MetaKey.GroupMember group_uuid member_uuid);
  reject_if (is_Some member) MetadataError.AlreadyExists;;
  next_group_generation ← some_or (checked_succ (ConsumerGroupRecord.generation group))
    group_exhausted;
  insert_record (MetaKey.GroupMember group_uuid member_uuid)
    (MetaValue.GroupMember (GroupMemberRecord.mk zero apply_index []));;
  set_group_generation group_uuid next_group_generation;;
  mret (MetadataResponse.MemberJoined zero next_group_generation).

Definition leave_consumer_group (group_uuid member_uuid : Uuid)
    (expected_member_generation : u64) : M MetadataResponse.t :=
  group ← fetch as_Group (MetaKey.Group group_uuid) MetadataError.NotFound;
  next_group_generation ← some_or (checked_succ (ConsumerGroupRecord.generation group))
    group_exhausted;
  member ← fetch as_GroupMember (MetaKey.GroupMember group_uuid member_uuid)
    MetadataError.NotFound;
  reject_if (GroupMemberRecord.generation member ≠ expected_member_generation)
    (MetadataError.GenerationMismatch expected_member_generation
       (GroupMemberRecord.generation member));;
  remove_record (MetaKey.GroupMember group_uuid member_uuid);;
  set_group_generation group_uuid next_group_generation;;
  mret (MetadataResponse.Ack next_group_generation).

Definition heartbeat_member (apply_index : u64) (group_uuid member_uuid : Uuid)
    : M MetadataResponse.t :=
  require as_Group (MetaKey.Group group_uuid) MetadataError.NotFound;;
  member ← fetch as_GroupMember (MetaKey.GroupMember group_uuid member_uuid)
    MetadataError.NotFound;
  reject_if (ival apply_index < ival (GroupMemberRecord.last_heartbeat_apply_index member))
    (MetadataError.invalid_transition "heartbeat apply index would rewind member liveness");;
  insert_record (MetaKey.GroupMember group_uuid member_uuid)
    (MetaValue.GroupMember (GroupMemberRecord.set_heartbeat apply_index member));;
  mret (MetadataResponse.Ack (GroupMemberRecord.generation member)).

Definition expire_stale_member (group_uuid member_uuid : Uuid)
    (stale_before_apply_index : u64) : M MetadataResponse.t :=
  group ← fetch as_Group (MetaKey.Group group_uuid) MetadataError.NotFound;
  next_group_generation ← some_or (checked_succ (ConsumerGroupRecord.generation group))
    group_exhausted;
  member ← fetch as_GroupMember (MetaKey.GroupMember group_uuid member_uuid)
    MetadataError.NotFound;
  reject_if (ival (GroupMemberRecord.last_heartbeat_apply_index member)
             >= ival stale_before_apply_index)
    (MetadataError.invalid_transition "member heartbeat is still within the live window");;
  remove_record (MetaKey.GroupMember group_uuid member_uuid);;
  set_group_generation group_uuid next_group_generation;;
  mret (MetadataResponse.Ack next_group_generation).

(** * Assignment *)

(** The scan over all records for another member of the group that already holds
    one of [ranges]. *)
Definition held_by_other (group_uuid member_uuid : Uuid) (ranges : list RangeAssignment.t)
    (entry : list u8 * MetaValue.t) : bool :=
  match MetaKey.decode entry.1, entry.2 with
  | Ok (MetaKey.GroupMember other_group other_member), MetaValue.GroupMember other =>
      bool_decide (other_group = group_uuid) && bool_decide (other_member ≠ member_uuid) &&
      existsb (λ assignment, bool_decide (assignment ∈ GroupMemberRecord.assigned other)) ranges
  | _, _ => false
  end.

Definition range_taken (s : RecordMap) (group_uuid member_uuid : Uuid)
    (ranges : list RangeAssignment.t) : bool :=
  existsb (held_by_other group_uuid member_uuid ranges) (btree_iter s).

(** The first loop of [assign_member_ranges], with the pairs [seen] so far. *)
Fixpoint check_assignments (seen ranges : list RangeAssignment.t) : M () :=
  match ranges with
  | [] => mret tt
  | assignment :: rest =>
      require as_Range (MetaKey.Range (RangeAssignment.topic_uuid assignment)
                          (RangeAssignment.range_uuid assignment)) MetadataError.NotFound;;
      reject_if (assignment ∈ seen)
        (MetadataError.invalid_transition
           "assigned ranges contain a duplicate topic/range pair");;
      check_assignments (assignment :: seen) rest
  end.

Definition reject_if_taken (group_uuid member_uuid : Uuid) (ranges : list RangeAssignment.t)
    : M () :=
  taken ← query (λ s, range_taken s group_uuid member_uuid ranges);
  reject_if (taken = true)
    (MetadataError.invalid_transition "range is already assigned to another group member").

Definition assign_member_ranges (group_uuid member_uuid : Uuid)
    (ranges : list RangeAssignment.t) (expected_member_generation : u64)
    : M MetadataResponse.t :=
  reject_if (Z.of_nat (length ranges) > MAX_ASSIGNED_RANGES)
    (MetadataError.limit ("assigned ranges must be <= " +:+ pretty MAX_ASSIGNED_RANGES
       +:+ ", got " +:+ pretty (length ranges)));;
  check_assignments [] ranges;;
  reject_if_taken group_uuid member_uuid ranges;;
  require as_Group (MetaKey.Group group_uuid) MetadataError.NotFound;;
  member ← fetch as_GroupMember (MetaKey.GroupMember group_uuid member_uuid)
    MetadataError.NotFound;
  reject_if (GroupMemberRecord.generation member ≠ expected_member_generation)
    (MetadataError.GenerationMismatch expected_member_generation
       (GroupMemberRecord.generation member));;
  next_member_generation ← some_or (checked_succ (GroupMemberRecord.generation member))
    member_exhausted;
  insert_record (MetaKey.GroupMember group_uuid member_uuid)
    (MetaValue.GroupMember
       (GroupMemberRecord.set_assigned ranges next_member_generation member));;
  group ← fetch_again as_Group (MetaKey.Group group_uuid);
  next_group_generation ← some_or (checked_succ (ConsumerGroupRecord.generation group))
    group_exhausted;
  insert_record (MetaKey.Group group_uuid)
    (MetaValue.Group (ConsumerGroupRecord.set_generation next_group_generation group));;
  mret (MetadataResponse.Ack next_member_generation).

(** [ensure_group_member_for_range] on the member record: [true] when the
    membership changed.  The heartbeat is written before the refusals. *)
Definition ensure_member (apply_index : u64) (group_uuid member_uuid : Uuid)
    (assignment : RangeAssignment.t) : M bool :=
  let member_key := MetaKey.GroupMember group_uuid member_uuid in
  existing ← get member_key;
  match existing ≫= as_GroupMember with
  | Some member =>
      let member := GroupMemberRecord.set_heartbeat apply_index member in
      insert_record member_key (MetaValue.GroupMember member);;
      if decide (assignment ∈ GroupMemberRecord.assigned member) then mret false
      else
        reject_if (Z.of_nat (length (GroupMemberRecord.assigned member))
                   >= MAX_ASSIGNED_RANGES)
          (MetadataError.limit ("assigned ranges must be <= " +:+ pretty MAX_ASSIGNED_RANGES));;
        next ← some_or (checked_succ (GroupMemberRecord.generation member)) member_exhausted;
        insert_record member_key
          (MetaValue.GroupMember
             (GroupMemberRecord.set_assigned
                (GroupMemberRecord.assigned member ++ [assignment]) next member));;
        mret true
  | None =>
      insert_record member_key
        (MetaValue.GroupMember (GroupMemberRecord.mk zero apply_index [assignment]));;
      mret true
  end.

(** The group record made when it is not there yet, bound to its name. *)
Definition ensure_group (name : string) (group_uuid : Uuid) : M () :=
  group ← get (MetaKey.Group group_uuid);
  match group ≫= as_Group with
  | Some _ => mret tt
  | None =>
      insert_record (MetaKey.GroupByName name)
        (MetaValue.GroupName (GroupNameRecord.mk group_uuid));;
      insert_record (MetaKey.Group group_uuid)
        (MetaValue.Group (ConsumerGroupRecord.mk name zero))
  end.

(** The name, when bound, must name this group. *)
Definition name_guard (name : string) (group_uuid : Uuid) : M () :=
  named ← get (MetaKey.GroupByName name);
  match named ≫= as_GroupName with
  | Some named =>
      reject_if (GroupNameRecord.group_uuid named ≠ group_uuid) MetadataError.AlreadyExists
  | None => mret tt
  end.

Definition ensure_group_member_for_range (apply_index : u64) (name : string)
    (group_uuid member_uuid topic_uuid range_uuid : Uuid) : M MetadataResponse.t :=
  reject_if (is_err (validate_group_name name) = true) (group_name_limit name);;
  require as_Range (MetaKey.Range topic_uuid range_uuid) MetadataError.NotFound;;
  name_guard name group_uuid;;
  ensure_group name group_uuid;;
  let assignment := RangeAssignment.mk topic_uuid range_uuid in
  reject_if_taken group_uuid member_uuid [assignment];;
  changed ← ensure_member apply_index group_uuid member_uuid assignment;
  group ← fetch_again as_Group (MetaKey.Group group_uuid);
  if (changed : bool) then
    next ← some_or (checked_succ (ConsumerGroupRecord.generation group)) group_exhausted;
    insert_record (MetaKey.Group group_uuid)
      (MetaValue.Group (ConsumerGroupRecord.set_generation next group));;
    mret (MetadataResponse.Ack next)
  else mret (MetadataResponse.Ack (ConsumerGroupRecord.generation group)).

(** * Cursors *)

Module CommitCursorArgs.
Record t := mk {
  group_uuid : Uuid;
  member_uuid : Uuid;
  topic_uuid : Uuid;
  range_uuid : Uuid;
  topic_epoch : u64;
  range_generation : u64;
  segment_uuid : Uuid;
  segment_generation : u64;
  segment_root : bytes32;
  record_offset : u64;
  record_index : u64;
  lineage_transition_id : option Uuid;
  expected_checkpoint_generation : option u64
}.
End CommitCursorArgs.

Section cursors.
Context (args : CommitCursorArgs.t).
Import CommitCursorArgs.

Definition cursor_is_forward_or_equal (existing : CursorCheckpointRecord.t)
    : result MetadataError.t unit :=
  if decide (segment_uuid args = CursorCheckpointRecord.segment_uuid existing) then
    if decide (segment_generation args ≠ CursorCheckpointRecord.segment_generation existing
               ∨ segment_root args ≠ CursorCheckpointRecord.segment_root existing) then
      Err (MetadataError.invalid_transition
             "same segment identity changed generation or root")
    else if decide
        (ival (record_offset args) < ival (CursorCheckpointRecord.record_offset existing)
         ∨ (record_offset args = CursorCheckpointRecord.record_offset existing
            ∧ ival (record_index args) < ival (CursorCheckpointRecord.record_index existing))) then
      Err (MetadataError.invalid_transition "cursor moved backward within the same segment")
    else Ok tt
  else if decide (ival (record_offset args)
                  <= ival (CursorCheckpointRecord.record_offset existing)) then
    Err (MetadataError.invalid_transition
           "cursor did not advance across segment identity change")
  else Ok tt.

(** A cursor of the pre-lineage release, accepted once and normalized. *)
Definition legacy_cursor_generation (range : RangeRecord.t) (existing : option MetaValue.t)
    : bool :=
  match existing with
  | Some (MetaValue.GroupCursor existing) =>
      bool_decide (RangeRecord.lineage_generation range = zero)
      && bool_decide (range_generation args ≠ zero)
      && bool_decide (CursorCheckpointRecord.range_generation existing = range_generation args)
  | _ => false
  end.

(** A pinned cursor must name a registered segment and an offset inside it; an
    unpinned one carries no segment fields. *)
Definition cursor_segment_guard : M () :=
  if is_nil (segment_uuid args) then
    nil_segment ← get (MetaKey.Segment (topic_uuid args) (range_uuid args) Uuid_nil);
    reject_if (is_Some nil_segment)
      (MetadataError.invalid_transition
         "a segment registered under the reserved nil id cannot be pinned; nil marks an unpinned cursor");;
    reject_if (segment_generation args ≠ zero ∨ segment_root args ≠ zero
               ∨ record_index args ≠ zero)
      (MetadataError.invalid_transition
         "an unpinned cursor (nil segment) carries no segment generation, root or record index")
  else
    segment ← fetch as_Segment
      (MetaKey.Segment (topic_uuid args) (range_uuid args) (segment_uuid args))
      MetadataError.NotFound;
    reject_if (SegmentRecord.segment_generation segment ≠ segment_generation args)
      (MetadataError.GenerationMismatch (segment_generation args)
         (SegmentRecord.segment_generation segment));;
    reject_if (SegmentRecord.content_root segment ≠ segment_root args)
      (MetadataError.invalid_transition "segment root does not match the registered segment");;
    reject_if (ival (record_offset args) < ival (SegmentRecord.base_offset segment)
               ∨ ival (record_offset args) > ival (SegmentRecord.next_offset segment))
      (MetadataError.invalid_transition ("record offset " +:+ int_display (record_offset args)
         +:+ " is outside sealed segment [" +:+ int_display (SegmentRecord.base_offset segment)
         +:+ ", " +:+ int_display (SegmentRecord.next_offset segment) +:+ "]")).

(** The rules an update must meet against the cursor in place. *)
Definition cursor_update_guard (legacy : bool) (committed_range_generation : u64)
    (existing : CursorCheckpointRecord.t) : M () :=
  reject_if (CursorCheckpointRecord.topic_epoch existing ≠ topic_epoch args)
    (MetadataError.EpochMismatch (topic_epoch args)
       (CursorCheckpointRecord.topic_epoch existing));;
  let now_nil := is_nil (segment_uuid args) in
  let was_nil := is_nil (CursorCheckpointRecord.segment_uuid existing) in
  reject_if ((now_nil || was_nil) = true ∧ legacy = false
             ∧ CursorCheckpointRecord.range_generation existing ≠ committed_range_generation)
    (MetadataError.invalid_transition
       "an unpinned cursor does not advance across a lineage change; the transition rule that carries it is not served yet");;
  if now_nil && was_nil then mret tt
  else if xorb now_nil was_nil then
    reject_if (ival (record_offset args) < ival (CursorCheckpointRecord.record_offset existing))
      (MetadataError.invalid_transition "cursor moved backward across a pin change")
  else
    match cursor_is_forward_or_equal existing with
    | Err error => return_ (reject error)
    | Ok _ => mret tt
    end.

Definition checkpoint (range_generation checkpoint_generation : u64)
    : CursorCheckpointRecord.t :=
  CursorCheckpointRecord.mk (topic_epoch args) range_generation (segment_uuid args)
    (segment_generation args) (segment_root args) (record_offset args) (record_index args)
    (lineage_transition_id args) checkpoint_generation (member_uuid args).

Definition commit_group_cursor : M MetadataResponse.t :=
  require as_Group (MetaKey.Group (group_uuid args)) MetadataError.NotFound;;
  member ← fetch as_GroupMember (MetaKey.GroupMember (group_uuid args) (member_uuid args))
    MetadataError.NotFound;
  reject_if (RangeAssignment.mk (topic_uuid args) (range_uuid args)
             ∉ GroupMemberRecord.assigned member)
    (MetadataError.invalid_transition NOT_ASSIGNED);;
  topic ← fetch as_Topic (MetaKey.Topic (topic_uuid args)) MetadataError.NotFound;
  reject_if (TopicRecord.topic_epoch topic ≠ topic_epoch args)
    (MetadataError.EpochMismatch (topic_epoch args) (TopicRecord.topic_epoch topic));;
  range ← fetch as_Range (MetaKey.Range (topic_uuid args) (range_uuid args))
    MetadataError.NotFound;
  let cursor_key := MetaKey.GroupCursor (group_uuid args) (topic_uuid args) (range_uuid args) in
  existing_cursor ← get cursor_key;
  let legacy := legacy_cursor_generation range existing_cursor in
  let committed_range_generation := RangeRecord.lineage_generation range in
  reject_if (committed_range_generation ≠ range_generation args ∧ legacy = false)
    (MetadataError.LineageMismatch (range_generation args) committed_range_generation);;
  cursor_segment_guard;;
  match existing_cursor, expected_checkpoint_generation args with
  | None, None =>
      insert_record cursor_key
        (MetaValue.GroupCursor (checkpoint committed_range_generation zero));;
      mret (MetadataResponse.CursorCommitted zero)
  | None, Some _ => return_ (reject MetadataError.NotFound)
  | Some _, None => return_ (reject MetadataError.AlreadyExists)
  | Some (MetaValue.GroupCursor existing), Some expected =>
      reject_if (CursorCheckpointRecord.checkpoint_generation existing ≠ expected)
        (MetadataError.GenerationMismatch expected
           (CursorCheckpointRecord.checkpoint_generation existing));;
      cursor_update_guard legacy committed_range_generation existing;;
      next_generation ← some_or
        (checked_succ (CursorCheckpointRecord.checkpoint_generation existing))
        (MetadataError.limit "checkpoint generation space is exhausted");
      insert_record cursor_key
        (MetaValue.GroupCursor (checkpoint committed_range_generation next_generation));;
      mret (MetadataResponse.CursorCommitted next_generation)
  | Some _, Some _ => unreachable
  end.

End cursors.
