(* ===== verification/RangeOps.v ===== *)
(** Handlers of [MetaStateMachine] ([crates/vtop-meta/src/state.rs]) for sealed
    segments and range splits. *)

From stdpp Require Import prelude gmap strings list pretty.
From Stdlib Require Import ZArith Lia.
From S2P Require Import Prelude Wire Keys KeyRange Command Placement Records Flow LeaseOps.

Module SplitRangeArgs.
Record t := mk {
  issued_at_ms : i64;
  topic_uuid : Uuid;
  parent_range_uuid : Uuid;
  left_range_uuid : Uuid;
  right_range_uuid : Uuid;
  transition_id : Uuid;
  barrier_offset : u64;
  expected_range_generation : u64;
  holder_node_uuid : Uuid;
  fencing_epoch : u64
}.
End SplitRangeArgs.

Section handlers.
Context `{Fmt}.

(** [self.not_the_leaseholder(..)] followed by [return refusal]: the range must
    be held, by this node, at this epoch. *)
Definition not_the_leaseholder (s : RecordMap) (topic_uuid range_uuid holder_node_uuid : Uuid)
    (fencing_epoch : u64) : option MetadataResponse.t :=
  match record s (MetaKey.Range topic_uuid range_uuid) with
  | Some (MetaValue.Range range) =>
      let held :=
        match RangeRecord.lease range with
        | Some lease =>
            bool_decide (LeaseRecord.holder_node_uuid lease = holder_node_uuid)
            && bool_decide (LeaseRecord.fencing_epoch lease = fencing_epoch)
        | None => false
        end in
      if held then None
      else Some (reject (MetadataError.invalid_transition NOT_LEASEHOLDER))
  | _ => Some (reject MetadataError.NotFound)
  end.

Definition leaseholder_gate (topic_uuid range_uuid holder_node_uuid : Uuid)
    (fencing_epoch : u64) : M () :=
  refusal ← query (λ s, not_the_leaseholder s topic_uuid range_uuid holder_node_uuid
                          fencing_epoch);
  match refusal with Some refusal => return_ refusal | None => mret tt end.

(** * Sealed segments *)

(** A sealed parent publishes nothing past its barrier. *)
Definition seal_guard (sealed_at : option SealedParent.t) (next_offset : u64) : M () :=
  match sealed_at with
  | None => mret tt
  | Some sealed =>
      reject_if (ival next_offset > ival (SealedParent.barrier_offset sealed))
        (MetadataError.invalid_transition ("range is sealed at barrier "
           +:+ int_display (SealedParent.barrier_offset sealed) +:+ ": a segment ending at "
           +:+ int_display next_offset +:+ " would publish past the lineage transition"))
  end.

Definition register_sealed_segment (topic_uuid range_uuid segment_uuid : Uuid)
    (segment_generation base_offset next_offset : u64) (content_root : bytes32)
    (sealed_by_epoch expected_range_generation : u64) : M MetadataResponse.t :=
  reject_if (is_nil segment_uuid = true)
    (MetadataError.invalid_transition
       "the nil segment id is reserved for unpinned cursors; a segment cannot register under it");;
  range ← fetch as_Range (MetaKey.Range topic_uuid range_uuid) MetadataError.NotFound;
  lease ← some_or (RangeRecord.lease range)
    (MetadataError.invalid_transition "range holds no active lease to seal under");
  reject_if (sealed_by_epoch ≠ LeaseRecord.fencing_epoch lease)
    (MetadataError.EpochMismatch sealed_by_epoch (LeaseRecord.fencing_epoch lease));;
  reject_if (RangeRecord.generation range ≠ expected_range_generation)
    (MetadataError.GenerationMismatch expected_range_generation
       (RangeRecord.generation range));;
  reject_if (ival next_offset < ival base_offset)
    (MetadataError.invalid_transition ("segment offsets regress: next "
       +:+ int_display next_offset +:+ " < base " +:+ int_display base_offset));;
  seal_guard (RangeRecord.sealed_at range) next_offset;;
  existing ← get (MetaKey.Segment topic_uuid range_uuid segment_uuid);
  reject_if (is_Some existing) MetadataError.AlreadyExists;;
  insert_record (MetaKey.Segment topic_uuid range_uuid segment_uuid)
    (MetaValue.Segment
       (SegmentRecord.mk segment_generation base_offset next_offset content_root
          SegmentState.SealedUnverified sealed_by_epoch));;
  range ← fetch_again as_Range (MetaKey.Range topic_uuid range_uuid);
  let generation := wrapping_succ (RangeRecord.generation range) in
  insert_record (MetaKey.Range topic_uuid range_uuid)
    (MetaValue.Range (RangeRecord.set_generation generation range));;
  mret (MetadataResponse.Ack generation).

Definition segment_exhausted : MetadataError.t :=
  MetadataError.limit "segment generation space is exhausted".

Definition mark_segment_verified (topic_uuid range_uuid segment_uuid : Uuid)
    (content_root : bytes32) (expected_generation : u64) : M MetadataResponse.t :=
  segment ← fetch as_Segment (MetaKey.Segment topic_uuid range_uuid segment_uuid)
    MetadataError.NotFound;
  reject_if (SegmentRecord.segment_generation segment ≠ expected_generation)
    (MetadataError.GenerationMismatch expected_generation
       (SegmentRecord.segment_generation segment));;
  reject_if (SegmentRecord.content_root segment ≠ content_root)
    (MetadataError.invalid_transition "content root does not match the sealed segment");;
  reject_if (SegmentRecord.state segment ≠ SegmentState.SealedUnverified)
    (MetadataError.invalid_transition "verification requires SEALED_UNVERIFIED");;
  next_generation ← some_or (checked_succ (SegmentRecord.segment_generation segment))
    segment_exhausted;
  insert_record (MetaKey.Segment topic_uuid range_uuid segment_uuid)
    (MetaValue.Segment
       (SegmentRecord.set_state SegmentState.Verified next_generation segment));;
  mret (MetadataResponse.Ack next_generation).

(** * Splits *)

(** [iterator.max().unwrap_or(0)], and the running [max] of a loop from zero. *)
Definition u64_max (a b : u64) : u64 := if decide (ival a <= ival b) then b else a.
Definition max_or_zero (l : list u64) : u64 := foldl u64_max zero l.

Definition segment_entries (s : RecordMap) (topic_uuid range_uuid : Uuid)
    : list (list u8 * MetaValue.t) :=
  btree_range s (MetaKey.encode (MetaKey.Segment topic_uuid range_uuid Uuid_nil))
    (MetaKey.encode (MetaKey.Segment topic_uuid range_uuid Uuid_max)).

Definition registered_end (s : RecordMap) (topic_uuid range_uuid : Uuid) : u64 :=
  max_or_zero (omap (λ e, SegmentRecord.next_offset <$> as_Segment e.2)
                 (segment_entries s topic_uuid range_uuid)).

(** The offset of a record that is a cursor on this range. *)
Definition cursor_on (topic_uuid range_uuid : Uuid) (entry : list u8 * MetaValue.t)
    : option u64 :=
  match entry.2, MetaKey.decode entry.1 with
  | MetaValue.GroupCursor cursor, Ok (MetaKey.GroupCursor _ cursor_topic cursor_range) =>
      if decide (cursor_topic = topic_uuid ∧ cursor_range = range_uuid)
      then Some (CursorCheckpointRecord.record_offset cursor) else None
  | _, _ => None
  end.

Definition cursor_end (s : RecordMap) (topic_uuid range_uuid : Uuid) : u64 :=
  max_or_zero (omap (cursor_on topic_uuid range_uuid) (btree_iter s)).

Section split.
Context (args : SplitRangeArgs.t).
Import SplitRangeArgs.

Definition split_id_guard : M () :=
  reject_if ((is_nil (left_range_uuid args) || is_nil (right_range_uuid args)
              || is_nil (transition_id args)) = true)
    (MetadataError.invalid_transition
       "split names a nil id; child and transition ids must be real");;
  reject_if (left_range_uuid args = right_range_uuid args
             ∨ left_range_uuid args = parent_range_uuid args
             ∨ right_range_uuid args = parent_range_uuid args)
    (MetadataError.invalid_transition
       "split ids must be three distinct ranges: a parent and two children").

(** A sealed parent: a replay that matches what it replays is acknowledged, any
    other split of it is refused.  Passes only for an unsealed parent. *)
Definition split_replay (parent : RangeRecord.t) : M () :=
  match RangeRecord.sealed_at parent with
  | None => mret tt
  | Some sealed =>
      if decide (SealedParent.transition_id sealed = transition_id args) then
        recorded ← fetch_again as_LineageTransition
          (MetaKey.LineageTransition (topic_uuid args) (transition_id args));
        reject_if
          (LineageTransitionRecord.left_range_uuid recorded ≠ left_range_uuid args
           ∨ LineageTransitionRecord.right_range_uuid recorded ≠ right_range_uuid args
           ∨ LineageTransitionRecord.barrier_offset recorded ≠ barrier_offset args)
          (MetadataError.invalid_transition ("transition "
             +:+ uuid_display (transition_id args)
             +:+ " is recorded with different children or barrier; a replay must match what it replays"));;
        return_ (MetadataResponse.Ack (RangeRecord.generation parent))
      else
        return_ (reject (MetadataError.invalid_transition
          ("range is already split under transition "
           +:+ uuid_display (SealedParent.transition_id sealed)
           +:+ "; its key interval has moved on")))
  end.

(** The barrier sits below no registered segment and no durable cursor. *)
Definition barrier_guard : M () :=
  registered_end ← query (λ s, registered_end s (topic_uuid args) (parent_range_uuid args));
  reject_if (ival (barrier_offset args) < ival registered_end)
    (MetadataError.invalid_transition ("barrier " +:+ int_display (barrier_offset args)
       +:+ " sits below already-registered segment coverage ending at "
       +:+ int_display registered_end
       +:+ "; the split would strand durable records past the seal"));;
  cursor_end ← query (λ s, cursor_end s (topic_uuid args) (parent_range_uuid args));
  reject_if (ival (barrier_offset args) < ival cursor_end)
    (MetadataError.invalid_transition ("barrier " +:+ int_display (barrier_offset args)
       +:+ " sits below a group's durable cursor at " +:+ int_display cursor_end
       +:+ "; the split would retire history a committed position still names")).

Definition split_child (lineage_generation : u64) (interval : KeyRange.t) : MetaValue.t :=
  MetaValue.Range
    (RangeRecord.mk zero (KeyRange.prefix interval) (KeyRange.prefix_bits interval) zero
       lineage_generation [parent_range_uuid args] None None).

(** The children count their quorums over the parent's recorded set. *)
Definition inherit_replica_set (inherited_set : option (list Uuid)) : M () :=
  match inherited_set with
  | None => mret tt
  | Some members =>
      let set := MetaValue.RangeReplicaSet (RangeReplicaSetRecord.mk one members zero) in
      insert_record (MetaKey.RangeReplicaSet (topic_uuid args) (left_range_uuid args)) set;;
      insert_record (MetaKey.RangeReplicaSet (topic_uuid args) (right_range_uuid args)) set
  end.

(** The mutations of a split, after every refusal. *)
Definition split_commit (parent : RangeRecord.t) (left_interval right_interval : KeyRange.t)
    : M MetadataResponse.t :=
  let child_lineage_generation := wrapping_succ (RangeRecord.lineage_generation parent) in
  let parent_generation := wrapping_succ (RangeRecord.generation parent) in
  let parent_key := MetaKey.Range (topic_uuid args) (parent_range_uuid args) in
  let left_key := MetaKey.Range (topic_uuid args) (left_range_uuid args) in
  let right_key := MetaKey.Range (topic_uuid args) (right_range_uuid args) in
  let transition_key := MetaKey.LineageTransition (topic_uuid args) (transition_id args) in
  left ← get left_key;
  right ← get right_key;
  transition ← get transition_key;
  reject_if (is_Some left ∨ is_Some right ∨ is_Some transition) MetadataError.AlreadyExists;;
  inherited_set ← query (λ s, RangeReplicaSetRecord.members <$>
                                range_replica_set s (topic_uuid args) (parent_range_uuid args));
  parent ← fetch_again as_Range parent_key;
  insert_record parent_key
    (MetaValue.Range
       (RangeRecord.set_sealed_at
          (Some (SealedParent.mk (barrier_offset args) (transition_id args)))
          (RangeRecord.set_generation parent_generation parent)));;
  insert_record left_key (split_child child_lineage_generation left_interval);;
  insert_record right_key (split_child child_lineage_generation right_interval);;
  inherit_replica_set inherited_set;;
  insert_record transition_key
    (MetaValue.LineageTransition
       (LineageTransitionRecord.mk (parent_range_uuid args) (barrier_offset args)
          (left_range_uuid args) (right_range_uuid args) (fencing_epoch args)
          (issued_at_ms args)));;
  mret (MetadataResponse.Ack parent_generation).

Definition split_range : M MetadataResponse.t :=
  split_id_guard;;
  let parent_key := MetaKey.Range (topic_uuid args) (parent_range_uuid args) in
  parent ← fetch as_Range parent_key MetadataError.NotFound;
  split_replay parent;;
  leaseholder_gate (topic_uuid args) (parent_range_uuid args) (holder_node_uuid args)
    (fencing_epoch args);;
  parent ← fetch_again as_Range parent_key;
  reject_if (RangeRecord.generation parent ≠ expected_range_generation args)
    (MetadataError.GenerationMismatch (expected_range_generation args)
       (RangeRecord.generation parent));;
  barrier_guard;;
  match KeyRange.children
          (KeyRange.mk (RangeRecord.key_prefix parent) (RangeRecord.key_prefix_bits parent)) with
  | Err error =>
      return_ (reject (MetadataError.invalid_transition
        ("the parent's key interval cannot split: " +:+ LogError_display error)))
  | Ok (left_interval, right_interval) => split_commit parent left_interval right_interval
  end.

End split.
End handlers.
