(* ===== verification/SegmentOps.v ===== *)
(** Handlers of [MetaStateMachine] ([crates/vtop-meta/src/state.rs]) for segment
    placement, verified replica moves, cold-tier evidence and retention. *)

From stdpp Require Import prelude gmap strings list pretty.
From Stdlib Require Import ZArith Lia.
From S2P Require Import Prelude Wire Keys Command Placement Records Flow LeaseOps GroupOps RangeOps.

Module CommitReplacementProofArgs.
Record t := mk {
  topic_uuid : Uuid;
  range_uuid : Uuid;
  segment_uuid : Uuid;
  expected_segment_generation : u64;
  content_root : bytes32;
  expected_length_bytes : u64;
  source_node_uuid : Uuid;
  destination_node_uuid : Uuid;
  fencing_epoch : u64;
  verification_method : VerificationMethod.t;
  verifier_node_uuid : Uuid;
  verified_term : u64
}.
End CommitReplacementProofArgs.

Module CommitTierEvidenceArgs.
Record t := mk {
  topic_uuid : Uuid;
  range_uuid : Uuid;
  segment_uuid : Uuid;
  expected_segment_generation : u64;
  content_root : bytes32;
  byte_length : u64;
  backend_id : string;
  object_uri : string;
  object_version_id : option string;
  manifest_version_id : option string;
  manifest_core_digest : bytes32;
  verification_method : VerificationMethod.t;
  verifier_node_uuid : Uuid;
  fencing_epoch : u64;
  verified_term : u64
}.
End CommitTierEvidenceArgs.

Section handlers.
Context `{Fmt, Blake3}.

(** * Node attributes and candidates *)

Definition set_node_placement_attrs (node_uuid : Uuid) (failure_domain : string)
    (placement_weight : u32) (expected_generation : u64) : M MetadataResponse.t :=
  reject_if (str_len failure_domain > MAX_FAILURE_DOMAIN_BYTES)
    (MetadataError.limit ("failure domain must be 0..=" +:+ pretty MAX_FAILURE_DOMAIN_BYTES
       +:+ " bytes, got " +:+ pretty (str_len failure_domain)));;
  reject_if (ival placement_weight < MIN_PLACEMENT_WEIGHT)
    (MetadataError.limit ("placement weight must be >= " +:+ pretty MIN_PLACEMENT_WEIGHT));;
  node ← fetch as_Node (MetaKey.Node node_uuid) MetadataError.NotFound;
  reject_if (NodeRecord.generation node ≠ expected_generation)
    (MetadataError.GenerationMismatch expected_generation (NodeRecord.generation node));;
  let generation := wrapping_succ (NodeRecord.generation node) in
  insert_record (MetaKey.Node node_uuid)
    (MetaValue.Node
       (NodeRecord.mk (NodeRecord.addr node) (NodeRecord.state node) generation
          failure_domain placement_weight));;
  mret (MetadataResponse.Ack generation).

(** One record as a placement candidate: an active node with some weight. *)
Definition as_candidate (entry : list u8 * MetaValue.t) : option PlacementCandidate.t :=
  match MetaKey.decode entry.1, entry.2 with
  | Ok (MetaKey.Node node_uuid), MetaValue.Node node =>
      if decide (NodeRecord.state node = NodeState.Active
                 ∧ MIN_PLACEMENT_WEIGHT <= ival (NodeRecord.placement_weight node))
      then Some (PlacementCandidate.mk node_uuid (NodeRecord.failure_domain node)
                   (NodeRecord.placement_weight node))
      else None
  | _, _ => None
  end.

Definition active_placement_candidates (s : RecordMap) : list PlacementCandidate.t :=
  omap as_candidate (btree_iter s).

(** * Placement *)

Definition placement_exhausted : MetadataError.t :=
  MetadataError.limit "placement generation space is exhausted".

(** The argument checks of [commit_segment_placement]. *)
Definition placement_shape_guard (replication_factor : u8) (replica_nodes : list Uuid) : M () :=
  let rf := Z.to_nat (ival replication_factor) in
  reject_if (¬ (1 <= rf <= MAX_REPLICAS)%nat)
    (MetadataError.limit ("replication factor must be 1..=" +:+ pretty MAX_REPLICAS
       +:+ ", got " +:+ int_display replication_factor));;
  reject_if (length replica_nodes ≠ rf)
    (MetadataError.invalid_transition ("replica set length " +:+ pretty (length replica_nodes)
       +:+ " does not match replication_factor " +:+ int_display replication_factor));;
  reject_if (length (dedup (stable_sort int_le replica_nodes)) ≠ length replica_nodes)
    (MetadataError.invalid_transition "replica set contains duplicate node ids").

(** The proposal must be the deterministic assignment. *)
Definition placement_choice_guard (segment_uuid : Uuid) (rf : nat)
    (replica_nodes : list Uuid) : M () :=
  candidates ← query active_placement_candidates;
  match select_replicas segment_uuid candidates rf (bool_decide (1 < rf)%nat) with
  | Err error => return_ (reject (MetadataError.invalid_transition (PlacementError_display error)))
  | Ok expected =>
      reject_if (replica_nodes ≠ expected)
        (MetadataError.invalid_transition
           "proposed replica set does not match deterministic placement")
  end.

Definition commit_segment_placement (apply_index : u64)
    (topic_uuid range_uuid segment_uuid : Uuid) (replication_factor : u8)
    (replica_nodes : list Uuid) (expected_segment_generation : u64)
    (expected_placement_generation : option u64) : M MetadataResponse.t :=
  placement_shape_guard replication_factor replica_nodes;;
  segment ← fetch as_Segment (MetaKey.Segment topic_uuid range_uuid segment_uuid)
    MetadataError.NotFound;
  reject_if (SegmentRecord.segment_generation segment ≠ expected_segment_generation)
    (MetadataError.GenerationMismatch expected_segment_generation
       (SegmentRecord.segment_generation segment));;
  reject_if (SegmentRecord.state segment ≠ SegmentState.Verified)
    (MetadataError.invalid_transition "placement requires a verified segment");;
  intent ← get (MetaKey.SegmentRebalanceIntent topic_uuid range_uuid segment_uuid);
  reject_if (is_Some intent)
    (MetadataError.invalid_transition "placement is locked by an active rebalance intent");;
  placement_choice_guard segment_uuid (Z.to_nat (ival replication_factor)) replica_nodes;;
  let placement_key := MetaKey.SegmentPlacement topic_uuid range_uuid segment_uuid in
  placement ← get placement_key;
  match placement, expected_placement_generation with
  | None, None =>
      insert_record placement_key
        (MetaValue.SegmentPlacement
           (SegmentPlacementRecord.mk zero replication_factor replica_nodes apply_index));;
      mret (MetadataResponse.Ack zero)
  | None, Some _ => return_ (reject MetadataError.NotFound)
  | Some _, None => return_ (reject MetadataError.AlreadyExists)
  | Some (MetaValue.SegmentPlacement existing), Some expected_generation =>
      reject_if (SegmentPlacementRecord.generation existing ≠ expected_generation)
        (MetadataError.GenerationMismatch expected_generation
           (SegmentPlacementRecord.generation existing));;
      next_generation ← some_or (checked_succ (SegmentPlacementRecord.generation existing))
        placement_exhausted;
      insert_record placement_key
        (MetaValue.SegmentPlacement
           (SegmentPlacementRecord.mk next_generation replication_factor replica_nodes
              apply_index));;
      mret (MetadataResponse.Ack next_generation)
  | Some _, Some _ => unreachable
  end.

(** * The lease gate of the segment handlers *)

(** The range holds a lease, at the epoch the command names; [what] completes the
    rejection. *)
Definition require_lease_epoch (what : string) (topic_uuid range_uuid : Uuid)
    (fencing_epoch : u64) : M () :=
  range ← fetch as_Range (MetaKey.Range topic_uuid range_uuid) MetadataError.NotFound;
  lease ← some_or (RangeRecord.lease range)
    (MetadataError.invalid_transition ("range holds no active lease for " +:+ what));
  reject_if (fencing_epoch ≠ LeaseRecord.fencing_epoch lease)
    (MetadataError.EpochMismatch fencing_epoch (LeaseRecord.fencing_epoch lease)).

(** * Replacement proofs *)

Section proofs.
Import CommitReplacementProofArgs.
Context (args : CommitReplacementProofArgs.t).

Fixpoint require_not_dead (nodes : list Uuid) : M () :=
  match nodes with
  | [] => mret tt
  | node_uuid :: rest =>
      node ← fetch as_Node (MetaKey.Node node_uuid) MetadataError.NotFound;
      reject_if (NodeRecord.state node = NodeState.Dead)
        (MetadataError.invalid_transition "replacement proof references a dead node");;
      require_not_dead rest
  end.

(** During a rebalance only the intended move may be proven. *)
Definition proof_intent_guard : M () :=
  intent ← get (MetaKey.SegmentRebalanceIntent (topic_uuid args) (range_uuid args)
                  (segment_uuid args));
  match intent ≫= as_RebalanceIntent with
  | None => mret tt
  | Some intent =>
      reject_if (RebalanceIntentRecord.from_node_uuid intent ≠ source_node_uuid args
                 ∨ RebalanceIntentRecord.to_node_uuid intent ≠ destination_node_uuid args)
        (MetadataError.invalid_transition
           "replacement proof does not match the active rebalance intent")
  end.

(** The generation of the proof: zero, or the successor of a proof of the same
    identity committed under another epoch. *)
Definition proof_generation (existing : option ReplacementProofRecord.t) : M u64 :=
  match existing with
  | None => mret zero
  | Some existing =>
      reject_if (ReplacementProofRecord.fencing_epoch existing = fencing_epoch args)
        MetadataError.AlreadyExists;;
      reject_if
        (ReplacementProofRecord.segment_generation existing ≠ expected_segment_generation args
         ∨ ReplacementProofRecord.content_root existing ≠ content_root args
         ∨ ReplacementProofRecord.expected_length_bytes existing ≠ expected_length_bytes args
         ∨ ReplacementProofRecord.source_node_uuid existing ≠ source_node_uuid args
         ∨ ReplacementProofRecord.destination_node_uuid existing ≠ destination_node_uuid args
         ∨ ReplacementProofRecord.verification_method existing ≠ verification_method args)
        (MetadataError.invalid_transition
           "stale replacement proof identity does not match the new proof");;
      some_or (checked_succ (ReplacementProofRecord.generation existing))
        (MetadataError.limit "replacement proof generation space is exhausted")
  end.

Definition commit_replacement_proof (apply_index : u64) : M MetadataResponse.t :=
  reject_if (source_node_uuid args = destination_node_uuid args)
    (MetadataError.invalid_transition "replacement source and destination must differ");;
  reject_if (expected_length_bytes args = zero)
    (MetadataError.limit "replacement expected length must be > 0");;
  reject_if (verification_method args ≠ VerificationMethod.AuthenticatedContentRoot)
    (MetadataError.invalid_transition "unsupported verification method for replacement proof");;
  require_lease_epoch "replacement proof" (topic_uuid args) (range_uuid args)
    (fencing_epoch args);;
  segment ← fetch as_Segment
    (MetaKey.Segment (topic_uuid args) (range_uuid args) (segment_uuid args))
    MetadataError.NotFound;
  reject_if (SegmentRecord.segment_generation segment ≠ expected_segment_generation args)
    (MetadataError.GenerationMismatch (expected_segment_generation args)
       (SegmentRecord.segment_generation segment));;
  reject_if (SegmentRecord.state segment ≠ SegmentState.Verified
             ∧ SegmentRecord.state segment ≠ SegmentState.Repairing)
    (MetadataError.invalid_transition
       "replacement proof requires a verified or repairing segment");;
  reject_if (SegmentRecord.content_root segment ≠ content_root args)
    (MetadataError.invalid_transition
       "replacement proof content root does not match sealed segment");;
  require_not_dead [source_node_uuid args; destination_node_uuid args; verifier_node_uuid args];;
  proof_intent_guard;;
  let proof_key := MetaKey.SegmentReplacementProof (topic_uuid args) (range_uuid args)
                     (segment_uuid args) in
  existing ← fetch_optional as_ReplacementProof proof_key;
  proof_generation ← proof_generation existing;
  insert_record proof_key
    (MetaValue.ReplacementProof
       (ReplacementProofRecord.mk proof_generation (expected_segment_generation args)
          (content_root args) (expected_length_bytes args) (source_node_uuid args)
          (destination_node_uuid args) (fencing_epoch args) (verification_method args)
          (verifier_node_uuid args) apply_index (verified_term args)));;
  mret (MetadataResponse.Ack proof_generation).

End proofs.

(** * Replica retirement *)

(** While a rebalance is in flight only its source may be retired. *)
Definition retirement_intent_guard (topic_uuid range_uuid segment_uuid retiring_node_uuid : Uuid)
    : M () :=
  intent ← get (MetaKey.SegmentRebalanceIntent topic_uuid range_uuid segment_uuid);
  match intent ≫= as_RebalanceIntent with
  | None => mret tt
  | Some intent =>
      reject_if (RebalanceIntentRecord.from_node_uuid intent ≠ retiring_node_uuid)
        (MetadataError.invalid_transition
           "segment has an active rebalance intent for a different node")
  end.

Definition not_proof_source : MetadataError.t :=
  MetadataError.invalid_transition "retiring node is not the replacement proof source".

Definition plan_replica_retirement
    (topic_uuid range_uuid segment_uuid retiring_node_uuid : Uuid)
    (expected_segment_generation fencing_epoch : u64) : M MetadataResponse.t :=
  require_lease_epoch "retirement planning" topic_uuid range_uuid fencing_epoch;;
  retirement_intent_guard topic_uuid range_uuid segment_uuid retiring_node_uuid;;
  proof ← fetch as_ReplacementProof
    (MetaKey.SegmentReplacementProof topic_uuid range_uuid segment_uuid)
    (MetadataError.invalid_transition
       "replica retirement requires a committed replacement proof");
  reject_if (ReplacementProofRecord.segment_generation proof ≠ expected_segment_generation)
    (MetadataError.GenerationMismatch expected_segment_generation
       (ReplacementProofRecord.segment_generation proof));;
  reject_if (ReplacementProofRecord.fencing_epoch proof ≠ fencing_epoch)
    (MetadataError.EpochMismatch fencing_epoch (ReplacementProofRecord.fencing_epoch proof));;
  reject_if (ReplacementProofRecord.destination_node_uuid proof = retiring_node_uuid)
    (MetadataError.invalid_transition "cannot retire the verified replacement destination");;
  reject_if (ReplacementProofRecord.source_node_uuid proof ≠ retiring_node_uuid)
    not_proof_source;;
  placement ← fetch as_SegmentPlacement
    (MetaKey.SegmentPlacement topic_uuid range_uuid segment_uuid)
    (MetadataError.invalid_transition
       "replica retirement requires a committed segment placement");
  reject_if (ReplacementProofRecord.destination_node_uuid proof
             ∉ SegmentPlacementRecord.replica_nodes placement)
    (MetadataError.invalid_transition
       "placement does not contain the verified replacement destination");;
  reject_if (retiring_node_uuid ∉ SegmentPlacementRecord.replica_nodes placement)
    (MetadataError.invalid_transition
       "placement does not contain the retiring source replica");;
  segment ← fetch as_Segment (MetaKey.Segment topic_uuid range_uuid segment_uuid)
    MetadataError.NotFound;
  reject_if (SegmentRecord.segment_generation segment ≠ expected_segment_generation)
    (MetadataError.GenerationMismatch expected_segment_generation
       (SegmentRecord.segment_generation segment));;
  reject_if (SegmentRecord.content_root segment ≠ ReplacementProofRecord.content_root proof)
    (MetadataError.invalid_transition
       "segment content root no longer matches replacement proof");;
  reject_if (SegmentRecord.state segment ≠ SegmentState.Verified)
    (MetadataError.invalid_transition "retirement planning requires a verified segment");;
  next_generation ← some_or (checked_succ (SegmentRecord.segment_generation segment))
    segment_exhausted;
  insert_record (MetaKey.Segment topic_uuid range_uuid segment_uuid)
    (MetaValue.Segment
       (SegmentRecord.set_state SegmentState.RetirePlanned next_generation segment));;
  mret (MetadataResponse.Ack next_generation).

(** Does the proof complete this intent? *)
Definition completes_rebalance (intent : option MetaValue.t) (retiring destination : Uuid)
    : bool :=
  match intent with
  | Some (MetaValue.RebalanceIntent intent) =>
      bool_decide (RebalanceIntentRecord.from_node_uuid intent = retiring)
      && bool_decide (RebalanceIntentRecord.to_node_uuid intent = destination)
  | _ => false
  end.

(** The placement a confirmed retirement shrinks, with its next generation. *)
Definition retirement_placement (placement : option SegmentPlacementRecord.t)
    (retiring destination : Uuid) : M (option u64) :=
  match placement with
  | None => mret None
  | Some placement =>
      reject_if (destination ∉ SegmentPlacementRecord.replica_nodes placement)
        (MetadataError.invalid_transition
           "placement no longer contains the verified replacement destination");;
      reject_if (retiring ∉ SegmentPlacementRecord.replica_nodes placement)
        (MetadataError.invalid_transition
           "placement no longer contains the retiring source replica");;
      next ← some_or (checked_succ (SegmentPlacementRecord.generation placement))
        placement_exhausted;
      mret (Some next)
  end.

(** [if let Some(MetaValue::V(x)) = self.records.get_mut(&key) { update x }] *)
Definition update_if {A} (as_ : MetaValue.t → option A) (wrap : A → MetaValue.t)
    (key : MetaKey.t) (f : A → A) : M () :=
  v ← get key;
  match v ≫= as_ with
  | Some a => insert_record key (wrap (f a))
  | None => mret tt
  end.

Definition confirm_replica_retired (apply_index : u64)
    (topic_uuid range_uuid segment_uuid retiring_node_uuid : Uuid)
    (expected_segment_generation : u64) : M MetadataResponse.t :=
  let proof_key := MetaKey.SegmentReplacementProof topic_uuid range_uuid segment_uuid in
  let intent_key := MetaKey.SegmentRebalanceIntent topic_uuid range_uuid segment_uuid in
  let segment_key := MetaKey.Segment topic_uuid range_uuid segment_uuid in
  let placement_key := MetaKey.SegmentPlacement topic_uuid range_uuid segment_uuid in
  proof ← fetch as_ReplacementProof proof_key
    (MetadataError.invalid_transition
       "replica retirement confirmation requires a committed replacement proof");
  reject_if (ReplacementProofRecord.source_node_uuid proof ≠ retiring_node_uuid)
    not_proof_source;;
  let destination := ReplacementProofRecord.destination_node_uuid proof in
  intent ← get intent_key;
  let completes := completes_rebalance intent retiring_node_uuid destination in
  segment ← fetch as_Segment segment_key MetadataError.NotFound;
  reject_if (SegmentRecord.segment_generation segment ≠ expected_segment_generation)
    (MetadataError.GenerationMismatch expected_segment_generation
       (SegmentRecord.segment_generation segment));;
  reject_if (SegmentRecord.state segment ≠ SegmentState.RetirePlanned)
    (MetadataError.invalid_transition "retirement confirmation requires RETIRE_PLANNED");;
  next_generation ← some_or (checked_succ (SegmentRecord.segment_generation segment))
    segment_exhausted;
  placement ← get placement_key;
  next_placement_generation ← retirement_placement (placement ≫= as_SegmentPlacement)
    retiring_node_uuid destination;
  update_if as_Segment MetaValue.Segment segment_key
    (SegmentRecord.set_state
       (match next_placement_generation with
        | Some _ => SegmentState.Verified
        | None => SegmentState.Retired
        end) next_generation);;
  match next_placement_generation with
  | Some next =>
      update_if as_SegmentPlacement MetaValue.SegmentPlacement placement_key
        (λ placement, SegmentPlacementRecord.set_replicas
           (filter (λ node, node ≠ retiring_node_uuid)
              (SegmentPlacementRecord.replica_nodes placement)) next apply_index placement)
  | None => mret tt
  end;;
  (if completes then remove_record intent_key else mret tt);;
  remove_record proof_key;;
  mret (MetadataResponse.Ack next_generation).

(** * Rebalance *)

(** The distinct-failure-domain check over the replicas that survive the move. *)
Fixpoint check_survivors (to_domain : string) (survivors : list Uuid) : M () :=
  match survivors with
  | [] => mret tt
  | survivor :: rest =>
      survivor_node ← fetch as_Node (MetaKey.Node survivor)
        (MetadataError.invalid_transition ("surviving replica " +:+ uuid_display survivor
           +:+ " has no node record"));
      reject_if (NodeRecord.failure_domain survivor_node = to_domain)
        (MetadataError.invalid_transition ("rebalance destination shares failure domain "
           +:+ str_debug to_domain +:+ " with surviving replica " +:+ uuid_display survivor));;
      check_survivors to_domain rest
  end.

(** The semantic guards of [propose_rebalance] on the destination node. *)
Definition destination_guard (to_node_uuid : Uuid) (to_node : NodeRecord.t) : M () :=
  reject_if (NodeRecord.state to_node ≠ NodeState.Active)
    (MetadataError.invalid_transition ("rebalance destination " +:+ uuid_display to_node_uuid
       +:+ " is " +:+ NodeState.as_str (NodeRecord.state to_node) +:+ ", not active"));;
  reject_if (ival (NodeRecord.placement_weight to_node) < MIN_PLACEMENT_WEIGHT)
    (MetadataError.invalid_transition "rebalance destination has no placement weight").

Definition propose_rebalance (apply_index : u64)
    (topic_uuid range_uuid segment_uuid from_node_uuid to_node_uuid : Uuid)
    (expected_placement_generation : u64) : M MetadataResponse.t :=
  let intent_key := MetaKey.SegmentRebalanceIntent topic_uuid range_uuid segment_uuid in
  let placement_key := MetaKey.SegmentPlacement topic_uuid range_uuid segment_uuid in
  segment ← fetch as_Segment (MetaKey.Segment topic_uuid range_uuid segment_uuid)
    MetadataError.NotFound;
  placement ← fetch as_SegmentPlacement placement_key MetadataError.NotFound;
  to_node ← fetch as_Node (MetaKey.Node to_node_uuid) MetadataError.NotFound;
  reject_if (SegmentPlacementRecord.generation placement ≠ expected_placement_generation)
    (MetadataError.GenerationMismatch expected_placement_generation
       (SegmentPlacementRecord.generation placement));;
  intent ← get intent_key;
  reject_if (is_Some intent) MetadataError.AlreadyExists;;
  reject_if (SegmentRecord.state segment ≠ SegmentState.Verified)
    (MetadataError.invalid_transition "rebalance requires a verified segment");;
  proof ← get (MetaKey.SegmentReplacementProof topic_uuid range_uuid segment_uuid);
  reject_if (is_Some proof)
    (MetadataError.invalid_transition "segment already has a committed replacement proof");;
  reject_if (from_node_uuid = to_node_uuid)
    (MetadataError.invalid_transition "rebalance source and destination must differ");;
  reject_if (from_node_uuid ∉ SegmentPlacementRecord.replica_nodes placement)
    (MetadataError.invalid_transition "rebalance source is not in the current placement");;
  reject_if (to_node_uuid ∈ SegmentPlacementRecord.replica_nodes placement)
    (MetadataError.invalid_transition "rebalance destination is already in the placement");;
  destination_guard to_node_uuid to_node;;
  reject_if (MAX_TRANSIENT_REPLICAS
             <= length (SegmentPlacementRecord.replica_nodes placement))%nat
    (MetadataError.limit ("placement already holds " +:+ pretty MAX_TRANSIENT_REPLICAS
       +:+ " replicas"));;
  (if decide (ival (SegmentPlacementRecord.declared_replication_factor placement) > 1)
   then check_survivors (NodeRecord.failure_domain to_node)
          (filter (λ node, node ≠ from_node_uuid)
             (SegmentPlacementRecord.replica_nodes placement))
   else mret tt);;
  next_placement_generation ← some_or
    (checked_succ (SegmentPlacementRecord.generation placement)) placement_exhausted;
  insert_record intent_key
    (MetaValue.RebalanceIntent
       (RebalanceIntentRecord.mk from_node_uuid to_node_uuid apply_index
          expected_placement_generation));;
  placement ← fetch_again as_SegmentPlacement placement_key;
  insert_record placement_key
    (MetaValue.SegmentPlacement
       (SegmentPlacementRecord.set_replicas
          (SegmentPlacementRecord.replica_nodes placement ++ [to_node_uuid])
          next_placement_generation apply_index placement));;
  mret (MetadataResponse.Ack next_placement_generation).

(** Once the move's proof is committed it may not be cancelled. *)
Definition cancel_proof_guard (proof : option ReplacementProofRecord.t)
    (intent : RebalanceIntentRecord.t) : M () :=
  match proof with
  | None => mret tt
  | Some proof =>
      reject_if (ReplacementProofRecord.source_node_uuid proof
                   = RebalanceIntentRecord.from_node_uuid intent
                 ∧ ReplacementProofRecord.destination_node_uuid proof
                   = RebalanceIntentRecord.to_node_uuid intent)
        (MetadataError.invalid_transition
           "cannot cancel a rebalance whose replacement proof is committed")
  end.

Definition cancel_rebalance (apply_index : u64) (topic_uuid range_uuid segment_uuid : Uuid)
    (expected_placement_generation : u64) : M MetadataResponse.t :=
  let intent_key := MetaKey.SegmentRebalanceIntent topic_uuid range_uuid segment_uuid in
  let placement_key := MetaKey.SegmentPlacement topic_uuid range_uuid segment_uuid in
  intent ← fetch as_RebalanceIntent intent_key MetadataError.NotFound;
  placement ← fetch as_SegmentPlacement placement_key MetadataError.NotFound;
  reject_if (SegmentPlacementRecord.generation placement ≠ expected_placement_generation)
    (MetadataError.GenerationMismatch expected_placement_generation
       (SegmentPlacementRecord.generation placement));;
  proof ← get (MetaKey.SegmentReplacementProof topic_uuid range_uuid segment_uuid);
  cancel_proof_guard (proof ≫= as_ReplacementProof) intent;;
  next_placement_generation ← some_or
    (checked_succ (SegmentPlacementRecord.generation placement)) placement_exhausted;
  remove_record intent_key;;
  placement ← fetch_again as_SegmentPlacement placement_key;
  insert_record placement_key
    (MetaValue.SegmentPlacement
       (SegmentPlacementRecord.set_replicas
          (filter (λ node, node ≠ RebalanceIntentRecord.to_node_uuid intent)
             (SegmentPlacementRecord.replica_nodes placement))
          next_placement_generation apply_index placement));;
  mret (MetadataResponse.Ack next_placement_generation).

End handlers.
