(* ===== verification/RetentionOps.v ===== *)
(** Handlers of [MetaStateMachine] ([crates/vtop-meta/src/state.rs]) for cold-tier
    evidence and retention: the gate in front of deleting a segment's last local
    bytes. *)

From stdpp Require Import prelude gmap strings list pretty.
From Stdlib Require Import ZArith Lia.
From S2P Require Import Prelude Wire Keys Command Placement Records Flow LeaseOps GroupOps.
From S2P Require Import RangeOps SegmentOps.

(** * Cold-tier evidence *)

Section tier.
Import CommitTierEvidenceArgs.
Context (args : CommitTierEvidenceArgs.t).

Definition version_id_guard (what : string) (minimum : Z) (version_id : option string) : M () :=
  match version_id with
  | None => mret tt
  | Some version_id =>
      reject_if (str_len version_id < minimum ∨ str_len version_id > MAX_TIER_VERSION_ID_BYTES)
        (MetadataError.limit (what +:+ pretty MAX_TIER_VERSION_ID_BYTES +:+ " bytes, got "
           +:+ pretty (str_len version_id)))
  end.

(** The bounds [commit_tier_evidence] re-checks. *)
Definition tier_bounds_guard : M () :=
  reject_if (byte_length args = zero) (MetadataError.limit "tier byte length must be > 0");;
  reject_if (str_len (backend_id args) = 0
             ∨ str_len (backend_id args) > MAX_TIER_BACKEND_ID_BYTES)
    (MetadataError.limit ("tier backend id must be 1..=" +:+ pretty MAX_TIER_BACKEND_ID_BYTES
       +:+ " bytes, got " +:+ pretty (str_len (backend_id args))));;
  reject_if (str_len (object_uri args) = 0
             ∨ str_len (object_uri args) > MAX_TIER_OBJECT_URI_BYTES)
    (MetadataError.limit ("tier object uri must be 1..=" +:+ pretty MAX_TIER_OBJECT_URI_BYTES
       +:+ " bytes, got " +:+ pretty (str_len (object_uri args))));;
  version_id_guard "tier manifest version id must be <= " 0 (manifest_version_id args);;
  version_id_guard "tier object version id must be 1..=" 1 (object_version_id args).

Definition commit_tier_evidence (apply_index : u64) : M MetadataResponse.t :=
  tier_bounds_guard;;
  reject_if (verification_method args ≠ VerificationMethod.AuthenticatedContentRoot)
    (MetadataError.invalid_transition "unsupported verification method for tier evidence");;
  require_lease_epoch "tier evidence" (topic_uuid args) (range_uuid args) (fencing_epoch args);;
  segment ← fetch as_Segment
    (MetaKey.Segment (topic_uuid args) (range_uuid args) (segment_uuid args))
    MetadataError.NotFound;
  reject_if (SegmentRecord.segment_generation segment ≠ expected_segment_generation args)
    (MetadataError.GenerationMismatch (expected_segment_generation args)
       (SegmentRecord.segment_generation segment));;
  reject_if (SegmentRecord.state segment ≠ SegmentState.Verified)
    (MetadataError.invalid_transition "tier evidence requires a verified segment");;
  reject_if (SegmentRecord.content_root segment ≠ content_root args)
    (MetadataError.invalid_transition
       "tier evidence content root does not match the sealed segment");;
  verifier ← fetch as_Node (MetaKey.Node (verifier_node_uuid args)) MetadataError.NotFound;
  reject_if (NodeRecord.state verifier = NodeState.Dead)
    (MetadataError.invalid_transition "tier evidence verifier node is dead");;
  let tier_key := MetaKey.SegmentTierCopy (topic_uuid args) (range_uuid args)
                    (segment_uuid args) in
  existing ← get tier_key;
  reject_if (is_Some existing) MetadataError.AlreadyExists;;
  insert_record tier_key
    (MetaValue.TierCopy
       (TierCopyRecord.mk zero (expected_segment_generation args) (content_root args)
          (byte_length args) (backend_id args) (object_uri args) (object_version_id args)
          (manifest_version_id args) (manifest_core_digest args) (verification_method args)
          (verifier_node_uuid args) apply_index (verified_term args) (fencing_epoch args)));;
  mret (MetadataResponse.Ack zero).

End tier.

(** * Retention *)

Definition set_topic_retention_policy (topic_uuid : Uuid) (unarchived_deletion_allowed : bool)
    (expected_generation : option u64) : M MetadataResponse.t :=
  require as_Topic (MetaKey.Topic topic_uuid) MetadataError.NotFound;;
  let policy_key := MetaKey.TopicRetentionPolicy topic_uuid in
  policy ← get policy_key;
  match policy, expected_generation with
  | None, None =>
      insert_record policy_key
        (MetaValue.TopicRetentionPolicy
           (TopicRetentionPolicyRecord.mk zero unarchived_deletion_allowed));;
      mret (MetadataResponse.Ack zero)
  | None, Some _ => return_ (reject MetadataError.NotFound)
  | Some _, None => return_ (reject MetadataError.AlreadyExists)
  | Some (MetaValue.TopicRetentionPolicy policy), Some expected =>
      reject_if (TopicRetentionPolicyRecord.generation policy ≠ expected)
        (MetadataError.GenerationMismatch expected
           (TopicRetentionPolicyRecord.generation policy));;
      next_generation ← some_or (checked_succ (TopicRetentionPolicyRecord.generation policy))
        (MetadataError.limit "retention policy generation space is exhausted");
      insert_record policy_key
        (MetaValue.TopicRetentionPolicy
           (TopicRetentionPolicyRecord.mk next_generation unarchived_deletion_allowed));;
      mret (MetadataResponse.Ack next_generation)
  | Some _, Some _ => unreachable
  end.

Definition unarchived_deletion_allowed (s : RecordMap) (topic_uuid : Uuid) : bool :=
  match record s (MetaKey.TopicRetentionPolicy topic_uuid) with
  | Some (MetaValue.TopicRetentionPolicy policy) =>
      TopicRetentionPolicyRecord.unarchived_deletion_allowed policy
  | _ => false
  end.

(** The evidence gate: a pinned cold copy of these bytes, or the topic's explicit
    opt-out.  A copy of other bytes rejects without reaching the policy. *)
Definition evidence_gate (topic_uuid range_uuid segment_uuid : Uuid) (content_root : bytes32)
    : M () :=
  evidence ← fetch_optional as_TierCopy
    (MetaKey.SegmentTierCopy topic_uuid range_uuid segment_uuid);
  archived ← match evidence with
             | Some evidence =>
                 reject_if (TierCopyRecord.content_root evidence ≠ content_root)
                   (MetadataError.invalid_transition
                      "tier evidence content root does not match the sealed segment");;
                 mret (bool_decide (is_Some (TierCopyRecord.object_version_id evidence)))
             | None => mret false
             end;
  if (archived : bool) then mret tt
  else
    allowed ← query (λ s, unarchived_deletion_allowed s topic_uuid);
    reject_if (allowed = false)
      (MetadataError.invalid_transition
         "retention requires pinned tier evidence or an explicit unarchived-deletion policy").

Section retention.
Context `{Fmt}.

(** The first cursor, in key order, of a group on this range that still needs
    offsets below [segment_next_offset]. *)
Definition cursor_below (topic_uuid range_uuid : Uuid) (segment_next_offset : u64)
    (entry : list u8 * MetaValue.t) : option (Uuid * u64) :=
  match MetaKey.decode entry.1, entry.2 with
  | Ok (MetaKey.GroupCursor group_uuid cursor_topic cursor_range),
    MetaValue.GroupCursor cursor =>
      if decide ((cursor_topic = topic_uuid ∧ cursor_range = range_uuid)
                 ∧ ival (CursorCheckpointRecord.record_offset cursor)
                   < ival segment_next_offset)
      then Some (group_uuid, CursorCheckpointRecord.record_offset cursor) else None
  | _, _ => None
  end.

Definition cursor_protection (topic_uuid range_uuid : Uuid) (segment_next_offset : u64)
    : M () :=
  blocking ← query (λ s, head (omap (cursor_below topic_uuid range_uuid segment_next_offset)
                                 (btree_iter s)));
  match blocking with
  | None => mret tt
  | Some (group_uuid, record_offset) =>
      return_ (reject (MetadataError.invalid_transition ("group cursor "
        +:+ uuid_display group_uuid +:+ " at offset " +:+ int_display record_offset
        +:+ " is below segment end " +:+ int_display segment_next_offset)))
  end.

Definition plan_retention (topic_uuid range_uuid segment_uuid : Uuid)
    (expected_segment_generation fencing_epoch : u64) : M MetadataResponse.t :=
  require_lease_epoch "retention planning" topic_uuid range_uuid fencing_epoch;;
  let segment_key := MetaKey.Segment topic_uuid range_uuid segment_uuid in
  segment ← fetch as_Segment segment_key MetadataError.NotFound;
  reject_if (SegmentRecord.segment_generation segment ≠ expected_segment_generation)
    (MetadataError.GenerationMismatch expected_segment_generation
       (SegmentRecord.segment_generation segment));;
  reject_if (SegmentRecord.state segment ≠ SegmentState.Verified)
    (MetadataError.invalid_transition "retention planning requires a verified segment");;
  intent ← get (MetaKey.SegmentRebalanceIntent topic_uuid range_uuid segment_uuid);
  reject_if (is_Some intent)
    (MetadataError.invalid_transition "segment has an active rebalance intent");;
  proof ← get (MetaKey.SegmentReplacementProof topic_uuid range_uuid segment_uuid);
  reject_if (is_Some proof)
    (MetadataError.invalid_transition
       "segment has a committed replacement proof; complete or resolve the replica retirement first");;
  evidence_gate topic_uuid range_uuid segment_uuid (SegmentRecord.content_root segment);;
  cursor_protection topic_uuid range_uuid (SegmentRecord.next_offset segment);;
  segment ← fetch_again as_Segment segment_key;
  next_generation ← some_or (checked_succ (SegmentRecord.segment_generation segment))
    segment_exhausted;
  insert_record segment_key
    (MetaValue.Segment
       (SegmentRecord.set_state SegmentState.RetentionPlanned next_generation segment));;
  mret (MetadataResponse.Ack next_generation).

(** The generation the emptied placement will carry, when there is one. *)
Definition expired_placement (placement : option SegmentPlacementRecord.t) : M (option u64) :=
  match placement with
  | None => mret None
  | Some placement =>
      next ← some_or (checked_succ (SegmentPlacementRecord.generation placement))
        placement_exhausted;
      mret (Some next)
  end.

Definition confirm_retention_expired (apply_index : u64)
    (topic_uuid range_uuid segment_uuid : Uuid) (expected_segment_generation : u64)
    : M MetadataResponse.t :=
  let segment_key := MetaKey.Segment topic_uuid range_uuid segment_uuid in
  let placement_key := MetaKey.SegmentPlacement topic_uuid range_uuid segment_uuid in
  segment ← fetch as_Segment segment_key MetadataError.NotFound;
  reject_if (SegmentRecord.segment_generation segment ≠ expected_segment_generation)
    (MetadataError.GenerationMismatch expected_segment_generation
       (SegmentRecord.segment_generation segment));;
  reject_if (SegmentRecord.state segment ≠ SegmentState.RetentionPlanned)
    (MetadataError.invalid_transition "retention confirmation requires RETENTION_PLANNED");;
  next_generation ← some_or (checked_succ (SegmentRecord.segment_generation segment))
    segment_exhausted;
  placement ← get placement_key;
  next_placement_generation ← expired_placement (placement ≫= as_SegmentPlacement);
  update_if as_Segment MetaValue.Segment segment_key
    (SegmentRecord.set_state SegmentState.RetentionExpired next_generation);;
  match next_placement_generation with
  | Some next =>
      update_if as_SegmentPlacement MetaValue.SegmentPlacement placement_key
        (SegmentPlacementRecord.set_replicas [] next apply_index)
  | None => mret tt
  end;;
  mret (MetadataResponse.Ack next_generation).

Definition cancel_retention (topic_uuid range_uuid segment_uuid : Uuid)
    (expected_segment_generation : u64) : M MetadataResponse.t :=
  segment ← fetch as_Segment (MetaKey.Segment topic_uuid range_uuid segment_uuid)
    MetadataError.NotFound;
  reject_if (SegmentRecord.segment_generation segment ≠ expected_segment_generation)
    (MetadataError.GenerationMismatch expected_segment_generation
       (SegmentRecord.segment_generation segment));;
  reject_if (SegmentRecord.state segment ≠ SegmentState.RetentionPlanned)
    (MetadataError.invalid_transition "retention cancellation requires RETENTION_PLANNED");;
  mret (reject (MetadataError.invalid_transition
    "retention cannot be cancelled after deletion is authorized")).

End retention.
