(* ===== verification/Apply.v ===== *)
(** [MetaStateMachine] ([crates/vtop-meta/src/state.rs]): the dispatch of a
    command to its handler, the exactly-once table around it, and the read-only
    views. *)

From stdpp Require Import prelude gmap strings list pretty.
From Stdlib Require Import ZArith Lia.
From S2P Require Import Prelude Wire Keys Command Placement Records Flow LeaseOps GroupOps.
From S2P Require Import RangeOps SegmentOps RetentionOps.

Section apply.
Context `{Fmt, Blake3}.

Definition apply_inner (apply_index : u64) (command : MetadataCommand.t)
    : M MetadataResponse.t :=
  let now env := CommandEnvelope.issued_at_ms env in
  match command with
  | MetadataCommand.RegisterNode _ node_uuid addr expected_generation =>
      register_node node_uuid addr expected_generation
  | MetadataCommand.SetNodeState _ node_uuid state expected_generation =>
      set_node_state node_uuid state expected_generation
  | MetadataCommand.CreateTopic _ name topic_uuid root_range_uuid =>
      create_topic name topic_uuid root_range_uuid
  | MetadataCommand.GrantRangeLease env topic_uuid range_uuid holder_node_uuid
      expected_range_generation =>
      grant_range_lease apply_index (now env) topic_uuid range_uuid holder_node_uuid
        expected_range_generation
  | MetadataCommand.ReportPromotionOutcome env topic_uuid range_uuid holder_node_uuid
      fencing_epoch outcome =>
      report_promotion_outcome apply_index (now env) topic_uuid range_uuid holder_node_uuid
        fencing_epoch outcome
  | MetadataCommand.AcquireRangeLease env topic_uuid range_uuid holder_node_uuid
      expected_range_generation lease_duration_ms =>
      acquire_range_lease apply_index (now env) topic_uuid range_uuid holder_node_uuid
        expected_range_generation lease_duration_ms
  | MetadataCommand.RenewRangeLease env topic_uuid range_uuid holder_node_uuid
      expected_fencing_epoch lease_duration_ms =>
      renew_range_lease (now env) topic_uuid range_uuid holder_node_uuid
        expected_fencing_epoch lease_duration_ms
  | MetadataCommand.ReleaseRangeLease _ topic_uuid range_uuid expected_fencing_epoch =>
      release_range_lease topic_uuid range_uuid expected_fencing_epoch
  | MetadataCommand.SetFeatureLevel _ feature_level => set_feature_level feature_level
  | MetadataCommand.SetRangeReplicaSet _ topic_uuid range_uuid members expected_generation =>
      set_range_replica_set topic_uuid range_uuid members expected_generation
  | MetadataCommand.SplitRange env topic_uuid parent_range_uuid left_range_uuid
      right_range_uuid transition_id barrier_offset expected_range_generation
      holder_node_uuid fencing_epoch =>
      split_range
        (SplitRangeArgs.mk (now env) topic_uuid parent_range_uuid left_range_uuid
           right_range_uuid transition_id barrier_offset expected_range_generation
           holder_node_uuid fencing_epoch)
  | MetadataCommand.RegisterSealedSegment _ topic_uuid range_uuid segment_uuid
      segment_generation base_offset next_offset content_root sealed_by_epoch
      expected_range_generation =>
      register_sealed_segment topic_uuid range_uuid segment_uuid segment_generation
        base_offset next_offset content_root sealed_by_epoch expected_range_generation
  | MetadataCommand.MarkSegmentVerified _ topic_uuid range_uuid segment_uuid content_root
      expected_generation =>
      mark_segment_verified topic_uuid range_uuid segment_uuid content_root
        expected_generation
  | MetadataCommand.PutKeyRecord _ key_uuid scheme public_material_digest =>
      put_key_record key_uuid scheme public_material_digest
  | MetadataCommand.CreateConsumerGroup _ name group_uuid =>
      create_consumer_group name group_uuid
  | MetadataCommand.JoinConsumerGroup _ group_uuid member_uuid expected_group_generation =>
      join_consumer_group apply_index group_uuid member_uuid expected_group_generation
  | MetadataCommand.LeaveConsumerGroup _ group_uuid member_uuid expected_member_generation =>
      leave_consumer_group group_uuid member_uuid expected_member_generation
  | MetadataCommand.AssignMemberRanges _ group_uuid member_uuid ranges
      expected_member_generation =>
      assign_member_ranges group_uuid member_uuid ranges expected_member_generation
  | MetadataCommand.CommitGroupCursor _ group_uuid member_uuid topic_uuid range_uuid
      topic_epoch range_generation segment_uuid segment_generation segment_root
      record_offset record_index lineage_transition_id expected_checkpoint_generation =>
      commit_group_cursor
        (CommitCursorArgs.mk group_uuid member_uuid topic_uuid range_uuid topic_epoch
           range_generation segment_uuid segment_generation segment_root record_offset
           record_index lineage_transition_id expected_checkpoint_generation)
  | MetadataCommand.EnsureGroupMemberForRange _ name group_uuid member_uuid topic_uuid
      range_uuid holder_node_uuid fencing_epoch =>
      leaseholder_gate topic_uuid range_uuid holder_node_uuid fencing_epoch;;
      ensure_group_member_for_range apply_index name group_uuid member_uuid topic_uuid
        range_uuid
  | MetadataCommand.CommitGroupCursorFenced _ group_uuid member_uuid topic_uuid range_uuid
      topic_epoch range_generation segment_uuid segment_generation segment_root
      record_offset record_index lineage_transition_id expected_checkpoint_generation
      holder_node_uuid fencing_epoch =>
      leaseholder_gate topic_uuid range_uuid holder_node_uuid fencing_epoch;;
      commit_group_cursor
        (CommitCursorArgs.mk group_uuid member_uuid topic_uuid range_uuid topic_epoch
           range_generation segment_uuid segment_generation segment_root record_offset
           record_index lineage_transition_id expected_checkpoint_generation)
  | MetadataCommand.EnsureGroupMemberCoordinated _ name group_uuid member_uuid topic_uuid
      range_uuid coordinator_topic_uuid coordinator_range_uuid holder_node_uuid
      fencing_epoch =>
      leaseholder_gate coordinator_topic_uuid coordinator_range_uuid holder_node_uuid
        fencing_epoch;;
      ensure_group_member_for_range apply_index name group_uuid member_uuid topic_uuid
        range_uuid
  | MetadataCommand.CommitGroupCursorCoordinated _ group_uuid member_uuid topic_uuid
      range_uuid coordinator_topic_uuid coordinator_range_uuid topic_epoch
      range_generation segment_uuid segment_generation segment_root record_offset
      record_index lineage_transition_id expected_checkpoint_generation holder_node_uuid
      fencing_epoch =>
      leaseholder_gate coordinator_topic_uuid coordinator_range_uuid holder_node_uuid
        fencing_epoch;;
      commit_group_cursor
        (CommitCursorArgs.mk group_uuid member_uuid topic_uuid range_uuid topic_epoch
           range_generation segment_uuid segment_generation segment_root record_offset
           record_index lineage_transition_id expected_checkpoint_generation)
  | MetadataCommand.HeartbeatMember _ group_uuid member_uuid =>
      heartbeat_member apply_index group_uuid member_uuid
  | MetadataCommand.ExpireStaleMember _ group_uuid member_uuid stale_before_apply_index =>
      expire_stale_member group_uuid member_uuid stale_before_apply_index
  | MetadataCommand.SetNodePlacementAttrs _ node_uuid failure_domain placement_weight
      expected_generation =>
      set_node_placement_attrs node_uuid failure_domain placement_weight expected_generation
  | MetadataCommand.CommitSegmentPlacement _ topic_uuid range_uuid segment_uuid
      replication_factor replica_nodes expected_segment_generation
      expected_placement_generation =>
      commit_segment_placement apply_index topic_uuid range_uuid segment_uuid
        replication_factor replica_nodes expected_segment_generation
        expected_placement_generation
  | MetadataCommand.CommitReplacementProof _ topic_uuid range_uuid segment_uuid
      expected_segment_generation content_root expected_length_bytes source_node_uuid
      destination_node_uuid fencing_epoch verification_method verifier_node_uuid
      verified_term =>
      commit_replacement_proof
        (CommitReplacementProofArgs.mk topic_uuid range_uuid segment_uuid
           expected_segment_generation content_root expected_length_bytes source_node_uuid
           destination_node_uuid fencing_epoch verification_method verifier_node_uuid
           verified_term) apply_index
  | MetadataCommand.PlanReplicaRetirement _ topic_uuid range_uuid segment_uuid
      retiring_node_uuid expected_segment_generation fencing_epoch =>
      plan_replica_retirement topic_uuid range_uuid segment_uuid retiring_node_uuid
        expected_segment_generation fencing_epoch
  | MetadataCommand.ConfirmReplicaRetired _ topic_uuid range_uuid segment_uuid
      retiring_node_uuid expected_segment_generation =>
      confirm_replica_retired apply_index topic_uuid range_uuid segment_uuid
        retiring_node_uuid expected_segment_generation
  | MetadataCommand.ProposeRebalance _ topic_uuid range_uuid segment_uuid from_node_uuid
      to_node_uuid expected_placement_generation =>
      propose_rebalance apply_index topic_uuid range_uuid segment_uuid from_node_uuid
        to_node_uuid expected_placement_generation
  | MetadataCommand.CancelRebalance _ topic_uuid range_uuid segment_uuid
      expected_placement_generation =>
      cancel_rebalance apply_index topic_uuid range_uuid segment_uuid
        expected_placement_generation
  | MetadataCommand.CommitTierEvidence _ topic_uuid range_uuid segment_uuid
      expected_segment_generation content_root byte_length backend_id object_uri
      object_version_id manifest_version_id manifest_core_digest verification_method
      verifier_node_uuid fencing_epoch verified_term =>
      commit_tier_evidence
        (CommitTierEvidenceArgs.mk topic_uuid range_uuid segment_uuid
           expected_segment_generation content_root byte_length backend_id object_uri
           object_version_id manifest_version_id manifest_core_digest verification_method
           verifier_node_uuid fencing_epoch verified_term) apply_index
  | MetadataCommand.SetTopicRetentionPolicy _ topic_uuid unarchived_deletion_allowed
      expected_generation =>
      set_topic_retention_policy topic_uuid unarchived_deletion_allowed expected_generation
  | MetadataCommand.PlanRetention _ topic_uuid range_uuid segment_uuid
      expected_segment_generation fencing_epoch =>
      plan_retention topic_uuid range_uuid segment_uuid expected_segment_generation
        fencing_epoch
  | MetadataCommand.ConfirmRetentionExpired _ topic_uuid range_uuid segment_uuid
      expected_segment_generation =>
      confirm_retention_expired apply_index topic_uuid range_uuid segment_uuid
        expected_segment_generation
  | MetadataCommand.CancelRetention _ topic_uuid range_uuid segment_uuid
      expected_segment_generation =>
      cancel_retention topic_uuid range_uuid segment_uuid expected_segment_generation
  end.

End apply.

(** * The exactly-once table *)

Definition DEDUP_CAPACITY : nat := Z.to_nat 65536.

Module MetaStateMachine.

Record t := mk {
  records : RecordMap;
  dedup_order : list Uuid;
  dedup_responses : gmap Uuid MetadataResponse.t
}.

Definition new : t := mk ∅ [] ∅.

(** [if self.dedup_order.len() == DEDUP_CAPACITY] evict the oldest request. *)
Definition evict (m : t) : t :=
  if decide (length (dedup_order m) = DEDUP_CAPACITY) then
    match dedup_order m with
    | [] => m
    | evicted :: order => mk (records m) order (delete evicted (dedup_responses m))
    end
  else m.

Definition remember (request_id : Uuid) (response : MetadataResponse.t) (m : t) : t :=
  let m := evict m in
  mk (records m) (dedup_order m ++ [request_id])
    (<[request_id := response]> (dedup_responses m)).

Definition has_applied_request (m : t) (request_id : Uuid) : bool :=
  bool_decide (is_Some (dedup_responses m !! request_id)).

Definition applied_response (m : t) (request_id : Uuid) : option MetadataResponse.t :=
  dedup_responses m !! request_id.

Definition record_count (m : t) : nat := size (records m).
Definition dedup_len (m : t) : nat := length (dedup_order m).

Definition set_records (s : RecordMap) (m : t) : t :=
  mk s (dedup_order m) (dedup_responses m).

Section apply.
Context `{Fmt, Blake3}.

(** [apply]; [None] when a handler panics. *)
Definition apply (apply_index : u64) (command : MetadataCommand.t) (m : t)
    : option (MetadataResponse.t * t) :=
  let request_id := CommandEnvelope.request_id (MetadataCommand.envelope command) in
  match dedup_responses m !! request_id with
  | Some original => Some (original, m)
  | None =>
      '(response, s) ← run (apply_inner apply_index command) (records m);
      Some (response, remember request_id response (set_records s m))
  end.

(** The state after a log of (index, command) entries, with the responses. *)
Fixpoint apply_log (log : list (u64 * MetadataCommand.t)) (m : t)
    : option (list MetadataResponse.t * t) :=
  match log with
  | [] => Some ([], m)
  | (apply_index, command) :: rest =>
      '(response, m) ← apply apply_index command m;
      '(responses, m) ← apply_log rest m;
      Some (response :: responses, m)
  end.

End apply.
End MetaStateMachine.

(** * Observability: the cursors a metrics scrape reads *)

Fixpoint take_while {A} (f : A → bool) (l : list A) : list A :=
  match l with
  | [] => []
  | x :: l' => if f x then x :: take_while f l' else []
  end.

(** [key.starts_with(prefix)] *)
Definition starts_with (prefix key : list u8) : bool :=
  bool_decide (take (length prefix) key = prefix).

Definition cursor_prefix : list u8 :=
  take 3 (MetaKey.encode (MetaKey.GroupCursor Uuid_nil Uuid_nil Uuid_nil)).

(** One entry as a position, with the names its labels use. *)
Definition cursor_position (s : RecordMap) (entry : list u8 * MetaValue.t)
    : option GroupCursorPosition.t :=
  match MetaKey.decode entry.1, entry.2 with
  | Ok (MetaKey.GroupCursor group_uuid topic_uuid range_uuid), MetaValue.GroupCursor cursor =>
      Some (GroupCursorPosition.mk topic_uuid
              (TopicRecord.name <$> (record s (MetaKey.Topic topic_uuid) ≫= as_Topic))
              range_uuid group_uuid
              (ConsumerGroupRecord.name <$> (record s (MetaKey.Group group_uuid) ≫= as_Group))
              (CursorCheckpointRecord.record_offset cursor))
  | _, _ => None
  end.

(** The loop: stop, flagging that there were more, one position past [limit]. *)
Fixpoint collect_positions (s : RecordMap) (limit : nat)
    (entries : list (list u8 * MetaValue.t)) (positions : list GroupCursorPosition.t)
    : list GroupCursorPosition.t * bool :=
  match entries with
  | [] => (positions, false)
  | entry :: rest =>
      match cursor_position s entry with
      | None => collect_positions s limit rest positions
      | Some position =>
          if decide (limit <= length positions)%nat then (positions, true)
          else collect_positions s limit rest (positions ++ [position])
      end
  end.

Definition group_cursor_positions (s : RecordMap) (limit : nat)
    : list GroupCursorPosition.t * bool :=
  collect_positions s limit
    (take_while (λ e, starts_with cursor_prefix e.1)
       (filter (λ e, bytes_le cursor_prefix e.1 = true) (btree_iter s))) [].
