(* ===== verification/Snapshot.v ===== *)
(** Snapshots of the metadata state: [encode_snapshot] and [decode_snapshot] of
    [crates/vtop-meta/src/state.rs].

    A snapshot is the records in key order followed by the queue of remembered
    requests.  Decoding refuses anything the state machine would not have written:
    keys out of order, a value of another category than its key, a transition whose
    epochs do not advance, a request that appears twice. *)

From stdpp Require Import prelude gmap strings list.
From Stdlib Require Import ZArith Lia.
From S2P Require Import Prelude Wire Codec Keys Command Placement CommandCodec ResponseCodec.
From S2P Require Import Records ValueCodec Flow Apply.

Definition SNAPSHOT_PAYLOAD_VERSION : Z := 1.
Definition MAX_SNAPSHOT_KEY_BYTES : Z := 256.
Definition MAX_SNAPSHOT_VALUE_BYTES : Z := 1024.
Definition MAX_SNAPSHOT_RESPONSE_BYTES : Z := 1024.
Definition MAX_SNAPSHOT_RECORDS : Z := 2 ^ 24.

Definition len {A} (l : list A) : Z := Z.of_nat (length l).

(** [put_u32(&mut out, encoded.len() as u32); out.extend_from_slice(&encoded)] *)
Definition write_block (w : Writer) : Writer :=
  encoded ← w; writes [emit (put_u32 (wrap_int U32 (len encoded))); emit encoded].

(** * Encoding *)

Definition write_record (entry : list u8 * MetaValue.t) : Writer :=
  if decide (len entry.1 > MAX_SNAPSHOT_KEY_BYTES)
  then Err (BoundExceeded "snapshot key" (len entry.1) MAX_SNAPSHOT_KEY_BYTES)
  else
    writes
      [emit (put_u16 (wrap_int U16 (len entry.1))); emit entry.1;
       write_block (ValueCodec.encode entry.2)].

Definition write_records (records : RecordMap) : Writer :=
  let record_count := Z.of_nat (size records) in
  if decide (record_count > MAX_SNAPSHOT_RECORDS)
  then Err (BoundExceeded "snapshot record count" record_count MAX_SNAPSHOT_RECORDS)
  else writes (emit (put_u32 (wrap_int U32 record_count)) :: (write_record <$> btree_iter records)).

Definition write_request (request_id : Uuid) (response : MetadataResponse.t) : Writer :=
  writes [emit (put_uuid request_id); write_block (ResponseCodec.encode response)].

(** The loop over [dedup_order]: [None] is the [expect] on a request the table does
    not have. *)
Fixpoint write_requests (responses : gmap Uuid MetadataResponse.t) (order : list Uuid)
    : option Writer :=
  match order with
  | [] => Some (emit [])
  | request_id :: order =>
      response ← responses !! request_id;
      match write_request request_id response with
      | Err e => Some (Err e)
      | Ok out => rest ← write_requests responses order; Some (writes [emit out; rest])
      end
  end.

Definition encode_snapshot (m : MetaStateMachine.t) : option Writer :=
  match
    writes [emit (put_kind SNAPSHOT_PAYLOAD_VERSION);
            write_records (MetaStateMachine.records m)]
  with
  | Err e => Some (Err e)
  | Ok records =>
      requests ← write_requests (MetaStateMachine.dedup_responses m)
                   (MetaStateMachine.dedup_order m);
      Some (writes
              [emit records;
               emit (put_u32 (wrap_int U32 (len (MetaStateMachine.dedup_order m)))); requests])
  end.

(** * Decoding *)

(** A nested [decode(...)?] on a slice already taken. *)
Definition lift_result {A} (r : result CodecError A) : Reader A :=
  match r with Ok a => mret a | Err e => fail_with e end.

(** A length of at most [maximum], the bytes, and their own decoder. *)
Definition read_block {A} (decode : list u8 → result CodecError A) (maximum : Z)
    (len_what bytes_what : string) : Reader A :=
  length ← read_u32 len_what;
  if decide (ival length > maximum) then
    fail_with (BoundExceeded bytes_what (ival length) maximum)
  else
    bytes ← read_take (Z.to_nat (ival length)) bytes_what;
    lift_result (decode bytes).

(** [prior >= key] *)
Definition not_ascending (previous_key : option (list u8)) (key : list u8) : bool :=
  match previous_key with Some prior => bytes_le key prior | None => false end.

Definition epochs_disagree (key : MetaKey.t) (value : MetaValue.t) : bool :=
  match key, value with
  | MetaKey.RangeTransition _ _ fencing_epoch, MetaValue.RangeTransition transition =>
      negb (bool_decide (RangeTransitionRecord.epoch_to transition = fencing_epoch))
      || (ival (RangeTransitionRecord.epoch_to transition)
          <=? ival (RangeTransitionRecord.epoch_from transition))
  | _, _ => false
  end.

Definition read_record (previous_key : option (list u8)) : Reader (list u8 * MetaValue.t) :=
  key_len ← read_u16 "snapshot key length";
  if decide (ival key_len > MAX_SNAPSHOT_KEY_BYTES) then
    fail_with (BoundExceeded "snapshot key" (ival key_len) MAX_SNAPSHOT_KEY_BYTES)
  else
    key ← read_take (Z.to_nat (ival key_len)) "snapshot key";
    reject_value (not_ascending previous_key key = true)
      "snapshot key order" "keys must be strictly ascending";;
    typed_key ← lift_result (MetaKey.decode key);
    value ← read_block ValueCodec.decode MAX_SNAPSHOT_VALUE_BYTES
              "snapshot value length" "snapshot value";
    reject_value (key_matches_value typed_key value = false)
      "snapshot record" "value type does not match its key category";;
    reject_value (epochs_disagree typed_key value = true)
      "snapshot record" "transition epochs disagree with the key or do not advance";;
    mret (key, value).

Fixpoint read_records (count : nat) (previous_key : option (list u8)) (records : RecordMap)
    : Reader RecordMap :=
  match count with
  | O => mret records
  | S count =>
      entry ← read_record previous_key;
      read_records count (Some entry.1) (<[entry.1 := entry.2]> records)
  end.

Fixpoint read_requests (count : nat) (order : list Uuid)
    (responses : gmap Uuid MetadataResponse.t)
    : Reader (list Uuid * gmap Uuid MetadataResponse.t) :=
  match count with
  | O => mret (order, responses)
  | S count =>
      request_id ← read_uuid "dedup request id";
      response ← read_block ResponseCodec.decode MAX_SNAPSHOT_RESPONSE_BYTES
                   "dedup response length" "dedup response";
      reject_value (is_Some (responses !! request_id))
        "dedup entry" "request id appears twice in the FIFO";;
      read_requests count (order ++ [request_id]) (<[request_id := response]> responses)
  end.

Definition decode_snapshot_from : Reader MetaStateMachine.t :=
  version ← read_u16 "snapshot payload version";
  if decide (ival version ≠ SNAPSHOT_PAYLOAD_VERSION) then
    fail_with (UnknownTag "snapshot payload version" (ival version))
  else
    record_count ← read_u32 "snapshot record count";
    if decide (ival record_count > MAX_SNAPSHOT_RECORDS) then
      fail_with (BoundExceeded "snapshot record count" (ival record_count)
                   MAX_SNAPSHOT_RECORDS)
    else
      records ← read_records (Z.to_nat (ival record_count)) None ∅;
      dedup_count ← read_u32 "dedup entry count";
      if decide (ival dedup_count > Z.of_nat DEDUP_CAPACITY) then
        fail_with (BoundExceeded "dedup entry count" (ival dedup_count)
                     (Z.of_nat DEDUP_CAPACITY))
      else
        table ← read_requests (Z.to_nat (ival dedup_count)) [] ∅;
        mret (MetaStateMachine.mk records table.1 table.2).

Definition decode_snapshot (bytes : list u8) : result CodecError MetaStateMachine.t :=
  run_reader decode_snapshot_from bytes.
