(* ===== verification/Sizes.v ===== *)
(** How large an encoding gets: the arithmetic behind the length bounds a snapshot
    decoder enforces. *)

From stdpp Require Import prelude strings list.
From Stdlib Require Import ZArith Lia.
From S2P Require Import Prelude Wire Codec Keys Command Placement CommandCodec ResponseCodec.
From S2P Require Import CommandRoundtrip Records ValueCodec ValueRoundtrip Flow Apply Snapshot.
Import ValueCodec.

(** What a writer appends is at most [n] bytes. *)
Definition at_most (n : Z) (w : Writer) : Prop := ∀ out, w = Ok out → len out <= n.

Lemma at_most_weaken n n' w : at_most n w → n <= n' → at_most n' w.
Proof. intros Hw Hn out Ho. specialize (Hw out Ho). lia. Qed.

Lemma at_most_nil : at_most 0 (writes []).
Proof. by intros out ->%writes_nil. Qed.

Lemma at_most_cons w ws n m :
  at_most n w → at_most m (writes ws) → at_most (n + m) (writes (w :: ws)).
Proof.
  intros Hw Hws out (o1 & o2 & H1 & H2 & ->)%writes_inv. unfold len. rewrite length_app.
  specialize (Hw o1 H1). specialize (Hws o2 H2). unfold len in *. lia.
Qed.

Lemma at_most_int {t} (a : int t) : at_most (Z.of_nat (int_bytes t)) (emit (to_be_bytes a)).
Proof. intros out <-%Ok_inj. unfold len. by rewrite length_to_be_bytes. Qed.

Lemma at_most_u8 a : at_most 1 (emit (put_u8 a)). Proof. exact (at_most_int _). Qed.
Lemma at_most_tag a : at_most 1 (emit (put_tag a)). Proof. exact (at_most_int _). Qed.
Lemma at_most_flag a : at_most 1 (emit (put_flag a)). Proof. exact (at_most_int _). Qed.
Lemma at_most_u16 a : at_most 2 (emit (put_u16 a)). Proof. exact (at_most_int _). Qed.
Lemma at_most_kind a : at_most 2 (emit (put_kind a)). Proof. exact (at_most_int _). Qed.
Lemma at_most_u32 a : at_most 4 (emit (put_u32 a)). Proof. exact (at_most_int _). Qed.
Lemma at_most_u64 a : at_most 8 (emit (put_u64 a)). Proof. exact (at_most_int _). Qed.
Lemma at_most_i64 a : at_most 8 (emit (put_i64 a)). Proof. exact (at_most_int _). Qed.
Lemma at_most_uuid a : at_most 16 (emit (put_uuid a)). Proof. exact (at_most_int _). Qed.
Lemma at_most_bytes32 a : at_most 32 (emit (put_bytes32 a)). Proof. exact (at_most_int _). Qed.

Lemma at_most_str s maximum what : at_most (2 + maximum) (put_bounded_str s maximum what).
Proof.
  unfold put_bounded_str. case_decide; [done|]. intros out <-%Ok_inj. unfold len, put_u16.
  rewrite length_app, length_to_be_bytes, Nat2Z.inj_add, length_as_bytes. simpl. lia.
Qed.

Create HintDb size discriminated.
#[global] Hint Resolve at_most_u8 at_most_tag at_most_flag at_most_u16 at_most_kind at_most_u32
  at_most_u64 at_most_i64 at_most_uuid at_most_bytes32 at_most_str : size.

(** Bound a record by the sum of its fields. *)
Ltac size_fields :=
  match goal with |- at_most _ (writes _) =>
    eapply at_most_weaken;
    [ repeat (apply at_most_cons; [by eauto with size|]); apply at_most_nil
    | vm_compute; discriminate ]
  end.

Lemma at_most_optional {A} (write : A → Writer) n o :
  0 <= n → (∀ a, at_most n (write a)) → at_most (1 + n) (write_optional write o).
Proof.
  intros Hn Hw. destruct o; unfold write_optional.
  - apply (at_most_weaken (1 + (n + 0))); [|lia].
    apply at_most_cons; [apply at_most_flag|]. apply at_most_cons; [apply Hw|apply at_most_nil].
  - eapply at_most_weaken; [apply at_most_flag|lia].
Qed.

Lemma at_most_extension {A} (write : A → Writer) n o :
  0 <= n → (∀ a, at_most n (write a)) → at_most (1 + n) (write_extension write o).
Proof.
  intros Hn Hw. destruct o; unfold write_extension.
  - apply (at_most_weaken (1 + (n + 0))); [|lia].
    apply at_most_cons; [apply at_most_flag|]. apply at_most_cons; [apply Hw|apply at_most_nil].
  - intros out <-%Ok_inj. unfold len. simpl. lia.
Qed.

Lemma at_most_each {A} (write : A → Writer) n l :
  (∀ a, at_most n (write a)) → at_most (len l * n) (writes (write <$> l)).
Proof.
  intros Hw. induction l as [|a l IH]; intros out Ho.
  { by apply writes_nil in Ho as ->. }
  apply writes_inv in Ho as (o1 & o2 & H1 & H2 & ->).
  specialize (Hw a o1 H1). specialize (IH o2 H2). unfold len in *.
  rewrite length_app. cbn [length]. lia.
Qed.

Lemma at_most_counted {A} (write : A → Writer) n maximum what l :
  0 <= n → (∀ a, at_most n (write a)) →
  at_most (2 + maximum * n) (write_counted write maximum what l).
Proof.
  intros Hn Hw. unfold write_counted. case_decide as Hlen; [done|].
  intros out (o1 & o2 & H1 & H2 & ->)%writes_inv.
  apply at_most_u16 in H1. apply (at_most_each _ n) in H2; [|done].
  unfold len in *. rewrite length_app. nia.
Qed.

(** * Records *)

Lemma at_most_assignment a : at_most 32 (write_assignment a).
Proof. unfold write_assignment. size_fields. Qed.
Lemma at_most_answer a : at_most 24 (write_answer a).
Proof. unfold write_answer. size_fields. Qed.
Lemma at_most_optional_u64 o : at_most 9 (encode_optional_u64 o).
Proof. apply (at_most_optional _ 8); [lia|]. apply at_most_u64. Qed.
Lemma at_most_optional_uuid (o : option Uuid) :
  at_most 17 (write_optional (λ id, emit (put_uuid id)) o).
Proof. apply (at_most_optional _ 16); [lia|]. apply at_most_uuid. Qed.
Lemma at_most_optional_str o maximum what :
  0 <= maximum → at_most (3 + maximum) (write_optional (λ s, put_bounded_str s maximum what) o).
Proof.
  intros. eapply at_most_weaken; [apply (at_most_optional _ (2 + maximum))|]; [lia| |lia].
  intros. apply at_most_str.
Qed.
Lemma at_most_extension_str o maximum what :
  0 <= maximum → at_most (3 + maximum) (write_extension (λ s, put_bounded_str s maximum what) o).
Proof.
  intros. eapply at_most_weaken; [apply (at_most_extension _ (2 + maximum))|]; [lia| |lia].
  intros. apply at_most_str.
Qed.
Lemma at_most_assigned l : at_most 514 (encode_assigned_ranges l).
Proof. apply (at_most_counted _ 32 MAX_ASSIGNED_RANGES); [lia|]. apply at_most_assignment. Qed.
Lemma at_most_replicas l : at_most 146 (encode_replica_nodes l).
Proof.
  apply (at_most_counted _ 16 (Z.of_nat MAX_TRANSIENT_REPLICAS)); [lia|]. apply at_most_uuid.
Qed.
Lemma at_most_answers l what :
  at_most 770 (write_counted write_answer MAX_TRANSITION_QUORUM what l).
Proof. apply (at_most_counted _ 24 MAX_TRANSITION_QUORUM); [lia|]. apply at_most_answer. Qed.
#[global] Hint Resolve at_most_optional_u64 at_most_optional_uuid at_most_assigned
  at_most_replicas at_most_answers : size.
#[global] Hint Extern 0 (at_most _ (write_optional _ _)) =>
  (apply at_most_optional_str; vm_compute; discriminate) : size.
#[global] Hint Extern 0 (at_most _ (write_extension _ _)) =>
  (apply at_most_extension_str; vm_compute; discriminate) : size.

Lemma at_most_promotion o : at_most 797 (encode_promotion_outcome o).
Proof. destruct o; unfold encode_promotion_outcome; size_fields. Qed.
#[global] Hint Resolve at_most_promotion : size.

Lemma at_most_outcome o : at_most 814 (write_outcome o).
Proof.
  destruct o; unfold write_outcome; [|size_fields].
  eapply at_most_weaken; [apply at_most_flag|lia].
Qed.
Lemma at_most_seal o : at_most 25 (write_seal o).
Proof.
  destruct o; unfold write_seal; [size_fields|]. eapply at_most_weaken; [apply at_most_tag|lia].
Qed.
Lemma at_most_expiry (o : option i64) :
  at_most 8 (emit match o with None => [] | Some e => put_i64 e end).
Proof. destruct o; [apply at_most_i64|]. by intros out <-%Ok_inj. Qed.
#[global] Hint Resolve at_most_outcome at_most_seal at_most_expiry : size.

Lemma at_most_lease o : at_most 41 (write_lease o).
Proof.
  destruct o; unfold write_lease; [size_fields|]. eapply at_most_weaken; [apply at_most_tag|lia].
Qed.

Lemma at_most_parents (l : list Uuid) :
  (length l <= 2)%nat → at_most 32 (writes ((λ parent, emit (put_uuid parent)) <$> l)).
Proof.
  intros Hl. eapply at_most_weaken; [apply (at_most_each _ 16); intros; apply at_most_uuid|].
  unfold len. lia.
Qed.
#[global] Hint Resolve at_most_lease at_most_parents : size.

Lemma at_most_lineage range :
  (length (RangeRecord.parents range) <= 2)%nat → at_most 66 (write_lineage range).
Proof.
  intros Hp. unfold write_lineage. repeat case_match.
  - size_fields.
  - eapply at_most_weaken; [apply at_most_u64|lia].
  - by intros out <-%Ok_inj.
Qed.
#[global] Hint Resolve at_most_lineage : size.

(** A record that fits is within the bound its snapshot decoder enforces. *)
Lemma value_size v : value_ok v → at_most MAX_SNAPSHOT_VALUE_BYTES (encode v).
Proof.
  destruct v; cbn [value_ok encode]; intros Hok;
    match goal with |- at_most _ ?w => let f := head_of w in unfold f end; size_fields.
Qed.

(** So is a response. *)
Lemma response_size r : at_most MAX_SNAPSHOT_RESPONSE_BYTES (ResponseCodec.encode r).
Proof.
  unfold ResponseCodec.encode. destruct r; cbn [ResponseCodec.encode_into]; try size_fields.
  eapply at_most_weaken; [apply at_most_cons; [apply at_most_kind|]|].
  - apply at_most_cons; [|apply at_most_nil].
    assert (at_most 260 (ErrorCodec.encode_into error)) as He; [|exact He].
    destruct error; cbn [ErrorCodec.encode_into]; size_fields.
  - vm_compute. discriminate.
Qed.

(** And a well-formed key. *)
Lemma key_size key : key_wf key → len (MetaKey.encode key) <= MAX_SNAPSHOT_KEY_BYTES.
Proof.
  intros Hwf. change MAX_SNAPSHOT_KEY_BYTES with (3 + 253).
  assert (len (MetaKey.body key) <= 253) as Hb.
  { unfold len. destruct key; cbn [MetaKey.body key_wf] in *; unfold put_uuid, put_u64;
      rewrite ?length_app, ?length_to_be_bytes; try (vm_compute; discriminate);
      rewrite length_as_bytes; destruct Hwf as [_ Hwf];
      unfold validate_topic_name, validate_group_name, MAX_GROUP_NAME_BYTES,
        MAX_TOPIC_NAME_BYTES in Hwf; repeat case_decide; try done; lia. }
  unfold MetaKey.encode, len in *. rewrite !length_app, !Nat2Z.inj_add. unfold put_u16, put_u8.
  rewrite !length_to_be_bytes. change (Z.of_nat (int_bytes U16)) with 2.
  change (Z.of_nat (int_bytes U8)) with 1. lia.
Qed.
