(* ===== verification/SnapshotRoundtrip.v ===== *)
(** A snapshot restores the state it was taken of: [decode_snapshot] against
    [encode_snapshot].

    [snapshot_ok] is what a state needs to have a snapshot, and what the decoder
    guarantees of any bytes it accepts. *)

From stdpp Require Import prelude gmap strings list sorting.
From Stdlib Require Import ZArith Lia.
From S2P Require Import Prelude Wire Codec Keys Command Placement CommandCodec CommandRoundtrip.
From S2P Require Import ResponseCodec Records ValueCodec ValueRoundtrip Flow Apply Snapshot Sizes.
Import MetaStateMachine.

(** * What a snapshot can hold *)

(** The key and the value of a record agree. *)
Definition entry_ok (entry : list u8 * MetaValue.t) : Prop :=
  ∃ key, key_wf key ∧ entry.1 = MetaKey.encode key ∧ key_matches_value key entry.2 = true ∧
    epochs_disagree key entry.2 = false ∧ value_ok entry.2.

(** [dedup_responses] and [dedup_order] hold the same requests, each once, within
    the capacity. *)
Record requests_ok (order : list Uuid) (responses : gmap Uuid MetadataResponse.t) : Prop := {
  requests_distinct : NoDup order;
  requests_agree : ∀ id, id ∈ order ↔ is_Some (responses !! id);
  requests_bounded : (length order <= DEDUP_CAPACITY)%nat;
  requests_fit : map_Forall (λ _, response_ok) responses
}.

Record snapshot_ok (m : t) : Prop := {
  snapshot_entries : map_Forall (λ k v, entry_ok (k, v)) (records m);
  snapshot_count : Z.of_nat (size (records m)) <= MAX_SNAPSHOT_RECORDS;
  snapshot_requests : requests_ok (dedup_order m) (dedup_responses m)
}.

(** * A length-prefixed block *)

Lemma block_written w maximum :
  written w → at_most maximum w → written (write_block w).
Proof. intros [out ->] _. unfold write_block, mbind, result_bind. write_goals. Qed.

Lemma read_block_next {A B} decode maximum len_what bytes_what (k : A → Reader B) w a out bytes
    rest :
  w = Ok out → len out <= maximum → maximum < 2 ^ 32 → decode out = Ok a →
  write_block w = Ok bytes →
  (read_block decode maximum len_what bytes_what ≫= k) (bytes ++ rest) = k a rest.
Proof.
  intros -> Hlen Hmax Hd Hw.
  assert (bytes = put_u32 (wrap_int U32 (len out)) ++ out ++ []) as -> by by apply Ok_inj in Hw.
  assert (ival (wrap_int U32 (len out)) = len out) as Hv.
  { apply wrap_int_small. change (int_min U32) with 0. change (int_max U32) with (2 ^ 32 - 1).
    unfold len in *. lia. }
  unfold read_block. read_field. cbv beta. rewrite decide_False by lia.
  rewrite reader_assoc, Hv, app_nil_l. unfold len. rewrite Nat2Z.id.
  erewrite reader_bind_next by by apply read_take_app. by rewrite Hd.
Qed.

Lemma read_block_Ok {A B} decode maximum len_what bytes_what (k : A → Reader B) bs r :
  (read_block decode maximum len_what bytes_what ≫= k) bs = Ok r →
  ∃ a out rest, decode out = Ok a ∧ len out <= maximum ∧ k a rest = Ok r.
Proof.
  unfold read_block. rewrite reader_assoc. intros H. read_fields_inv H.
  case_decide as Hlen; [done|]. rewrite reader_assoc in H. destruct r as [b rest].
  apply reader_bind_Ok in H as (out & mid & Ht & H).
  apply read_take_Ok in Ht as [-> Hout]. destruct (decode out) as [a|] eqn:Hd; [|done].
  exists a, out, mid. split_and!; [done| |done]. unfold len.
  pose proof (ival_bounds x) as Hb. cbn in Hb. lia.
Qed.

(** * Records *)

Definition restore_records (acc : RecordMap) (l : list (list u8 * MetaValue.t)) : RecordMap :=
  foldl (λ m entry, <[entry.1 := entry.2]> m) acc l.

(** The keys strictly ascend, starting after [previous]. *)
Fixpoint ascending (previous : option (list u8)) (l : list (list u8 * MetaValue.t)) : Prop :=
  match l with
  | [] => True
  | entry :: l => not_ascending previous entry.1 = false ∧ ascending (Some entry.1) l
  end.

Lemma sorted_ascending previous l :
  StronglySorted entry_le l → NoDup l.*1 →
  Forall (λ entry, not_ascending previous entry.1 = false) l → ascending previous l.
Proof.
  intros Hs. revert previous. induction Hs as [|e l Hs IH Hle]; intros previous Hnd Hprev; [done|].
  apply NoDup_cons in Hnd as [Hnot Hnd]. apply Forall_cons in Hprev as [He _].
  split; [done|]. apply IH; [done|]. rewrite Forall_forall in *. intros e' He'. simpl.
  apply not_true_is_false. intros Hle'. apply Hnot.
  rewrite (bytes_le_antisym e.1 e'.1); [by apply list_elem_of_fmap_2|by apply Hle|done].
Qed.

Lemma NoDup_btree_keys {V} (m : gmap (list u8) V) : NoDup (btree_iter m).*1.
Proof. unfold btree_iter. rewrite merge_sort_Permutation. apply NoDup_fst_map_to_list. Qed.

Lemma btree_ascending (records : RecordMap) : ascending None (btree_iter records).
Proof.
  apply sorted_ascending; [apply btree_iter_sorted|apply NoDup_btree_keys|].
  by apply Forall_true.
Qed.

Lemma restore_records_lookup acc l k :
  NoDup l.*1 →
  restore_records acc l !! k =
    match list_to_map (M := RecordMap) l !! k with Some v => Some v | None => acc !! k end.
Proof.
  unfold restore_records. revert acc. induction l as [|[k' v] l IH]; intros acc Hnd; [done|].
  apply NoDup_cons in Hnd as [Hnot Hnd]. cbn [foldl]. rewrite IH by done.
  rewrite list_to_map_cons. cbn [fst snd] in *. rewrite !lookup_insert.
  case_decide as Hk; [subst|done]. by rewrite not_elem_of_list_to_map_1.
Qed.

Lemma restore_btree (records : RecordMap) : restore_records ∅ (btree_iter records) = records.
Proof.
  apply map_eq. intros k. rewrite restore_records_lookup by apply NoDup_btree_keys.
  rewrite lookup_empty.
  assert (list_to_map (M := RecordMap) (btree_iter records) = records) as ->;
    [|by destruct (records !! k)].
  transitivity (list_to_map (M := RecordMap) (map_to_list records)); [|apply list_to_map_to_list].
  apply list_to_map_proper; [apply NoDup_btree_keys|]. apply merge_sort_Permutation.
Qed.

Lemma length_btree_iter {V} (m : gmap (list u8) V) : length (btree_iter m) = size m.
Proof. unfold btree_iter. by rewrite merge_sort_Permutation, length_map_to_list. Qed.

Lemma record_written entry : entry_ok entry → written (write_record entry).
Proof.
  intros (key & Hwf & Hk & _ & _ & Hv). unfold write_record. rewrite Hk.
  rewrite decide_False by (pose proof (key_size key Hwf); lia). write_goals.
  eapply block_written; [by apply value_written|by apply value_size].
Qed.

Lemma read_record_next {B} previous entry (k : _ → Reader B) out rest :
  entry_ok entry → not_ascending previous entry.1 = false → write_record entry = Ok out →
  (read_record previous ≫= k) (out ++ rest) = k entry rest.
Proof.
  destruct entry as [bs v]. intros (key & Hwf & Hk & Hm & He & Hv) Hasc Hw. cbn [fst snd] in *.
  subst bs. pose proof (key_size key Hwf) as Hs. unfold write_record in Hw. cbn [fst snd] in Hw.
  rewrite decide_False in Hw by lia.
  apply writes_inv in Hw as (? & ? & <-%Ok_inj & Hw & ->).
  apply writes_inv in Hw as (? & ? & <-%Ok_inj & Hw & ->).
  apply writes_inv in Hw as (bytes & ? & Hw & ->%writes_nil & ->).
  destruct (value_written v Hv) as [vs Hvs]. pose proof (value_size v Hv vs Hvs) as Hvl.
  assert (ival (wrap_int U16 (len (MetaKey.encode key))) = len (MetaKey.encode key)) as Hl.
  { apply wrap_int_small. change (int_min U16) with 0. change (int_max U16) with 65535.
    unfold len, MAX_SNAPSHOT_KEY_BYTES in *. lia. }
  unfold read_record. read_field. rewrite decide_False by lia. rewrite reader_assoc, Hl.
  unfold len at 1. rewrite Nat2Z.id. erewrite reader_bind_next by by apply read_take_app.
  rewrite reader_assoc, reject_value_next by by rewrite Hasc.
  rewrite decode_encode by done. unfold lift_result. rewrite reader_assoc, reader_ret_bind.
  rewrite reader_assoc.
  erewrite read_block_next; [|exact Hvs|done|done| |done].
  2: { unfold ValueCodec.decode. rewrite run_reader_Ok. by apply decode_encode_value. }
  rewrite reader_assoc, reject_value_next by by rewrite Hm.
  rewrite reader_assoc, reject_value_next by by rewrite He. done.
Qed.

Lemma read_records_next previous acc l out rest :
  Forall entry_ok l → ascending previous l → writes (write_record <$> l) = Ok out →
  read_records (length l) previous acc (out ++ rest) = Ok (restore_records acc l, rest).
Proof.
  intros Hok. revert previous acc out. induction Hok as [|e l He Hl IH];
    intros previous acc out Hasc Hw.
  - by apply writes_nil in Hw as ->.
  - destruct Hasc as [Ha Hasc]. apply writes_inv in Hw as (o & os & Hw & Hws & ->).
    cbn [length read_records]. rewrite <-app_assoc, (read_record_next _ e) by done. by apply IH.
Qed.

Lemma read_record_Ok {B} previous (k : _ → Reader B) bs r :
  (read_record previous ≫= k) bs = Ok r →
  ∃ entry rest, entry_ok entry ∧ not_ascending previous entry.1 = false ∧ k entry rest = Ok r.
Proof.
  destruct r as [b r]. unfold read_record. rewrite reader_assoc. intros H. read_fields_inv H.
  case_decide; [done|]. rewrite reader_assoc in H.
  apply reader_bind_Ok in H as (key & mid & _ & H). rewrite reader_assoc in H.
  apply reject_value_Ok in H as [Hasc H]. rewrite reader_assoc in H.
  destruct (MetaKey.decode key) as [typed_key|] eqn:Hkey; [|done].
  unfold lift_result in H. rewrite reader_ret_bind in H. rewrite reader_assoc in H.
  apply read_block_Ok in H as (v & out & rest & Hv & _ & H).
  rewrite reader_assoc in H. apply reject_value_Ok in H as [Hm H].
  rewrite reader_assoc in H. apply reject_value_Ok in H as [He H]. rewrite reader_ret_bind in H.
  apply encode_decode in Hkey as [-> Hwf]. exists (MetaKey.encode typed_key, v), rest.
  split_and!; [|by apply not_true_is_false|done]. exists typed_key.
  split_and!; [done|done|by apply not_false_is_true|by apply not_true_is_false|].
  unfold ValueCodec.decode in Hv. rewrite run_reader_Ok in Hv.
  by apply encode_decode_value in Hv as [? _].
Qed.

Definition entries_ok : RecordMap → Prop := map_Forall (λ k v, entry_ok (k, v)).

(** The records read are entries, at most as many as announced. *)
Lemma read_records_Ok n previous acc bs records rest :
  read_records n previous acc bs = Ok (records, rest) → entries_ok acc →
  entries_ok records ∧ (size records <= size acc + n)%nat.
Proof.
  revert previous acc bs. induction n as [|n IH]; intros previous acc bs H Hacc.
  - apply reader_ret_Ok in H as [<- _]. split; [done|lia].
  - cbn [read_records] in H. apply read_record_Ok in H as ([k v] & mid & He & _ & H).
    apply IH in H as [Hr Hs]; [|by apply map_Forall_insert_2]. split; [done|]. simpl in *.
    destruct (acc !! k) eqn:Hk.
    + rewrite map_size_insert_Some in Hs by done. lia.
    + rewrite map_size_insert_None in Hs by done. lia.
Qed.

(** * Remembered requests *)

Lemma response_written r : response_ok r → written (ResponseCodec.encode r).
Proof.
  intros Hok. unfold ResponseCodec.encode. destruct r; cbn [ResponseCodec.encode_into];
    write_goals. destruct error; cbn [ErrorCodec.encode_into]; write_goals; by apply text_written.
Qed.

Lemma decode_response r out :
  response_ok r → ResponseCodec.encode r = Ok out → ResponseCodec.decode out = Ok r.
Proof.
  intros Hok Hw. unfold ResponseCodec.decode. rewrite run_reader_Ok, <-(app_nil_r out).
  by eapply codec_read.
Qed.

Lemma decoded_response_ok r out : ResponseCodec.decode out = Ok r → response_ok r.
Proof.
  unfold ResponseCodec.decode. rewrite run_reader_Ok.
  by intros (? & _ & _ & ?)%codec_written.
Qed.

Lemma request_written id r : response_ok r → written (write_request id r).
Proof.
  intros Hok. unfold write_request. write_goals.
  eapply block_written; [by apply response_written|apply response_size].
Qed.

Section requests.
Context (responses : gmap Uuid MetadataResponse.t).
Context (Hfit : map_Forall (λ _, response_ok) responses).

Lemma requests_written order :
  (∀ id, id ∈ order → is_Some (responses !! id)) →
  ∃ out, write_requests responses order = Some (Ok out).
Proof.
  induction order as [|id order IH]; intros Hin; [by exists []|].
  destruct (Hin id) as [r Hr]; [by left|]. destruct IH as [rest Hrest]; [by intros; apply Hin; right|].
  destruct (request_written id r) as [out Hout]; [by eapply Hfit|].
  exists (out ++ rest ++ []). cbn [write_requests]. by rewrite Hr; simpl; rewrite Hout, Hrest.
Qed.

(** [acc] after the requests of [order] were read into it. *)
Lemma read_requests_next order before acc out rest :
  NoDup order → (∀ id, id ∈ order → acc !! id = None) →
  write_requests responses order = Some (Ok out) →
  ∃ acc', read_requests (length order) before acc (out ++ rest) = Ok ((before ++ order, acc'), rest) ∧
    ∀ id, acc' !! id = if decide (id ∈ order) then responses !! id else acc !! id.
Proof.
  revert before acc out. induction order as [|id order IH]; intros before acc out Hnd Hnew Hw.
  { injection Hw as <-. exists acc. by rewrite app_nil_r. }
  apply NoDup_cons in Hnd as [Hnot Hnd]. cbn [write_requests] in Hw.
  destruct (responses !! id) as [r|] eqn:Hr; [|done]. simpl in Hw.
  destruct (write_request id r) as [o|] eqn:Ho; [|done].
  destruct (write_requests responses order) as [[os|]|] eqn:Hos; [|done..].
  simpl in Hw. injection Hw as <-.
  assert (response_ok r) as Hok by by eapply Hfit.
  destruct (response_written r Hok) as [bs Hbs].
  edestruct (IH (before ++ [id]) (<[id := r]> acc)) as (acc' & Hread & Hacc'); [done| |reflexivity|].
  { intros id' Hid'. rewrite lookup_insert_ne by naive_solver. apply Hnew. by right. }
  exists acc'. split.
  - cbn [length read_requests]. unfold write_request in Ho. write_inv. read_field.
    erewrite read_block_next; [|exact Hbs|by eapply response_size|done|by apply decode_response|done].
    rewrite reject_value_next by (rewrite Hnew; [by intros []|by left]). cbn [app].
    rewrite <-app_assoc in Hread. exact Hread.
  - intros id'. rewrite Hacc'. destruct (decide (id' = id)) as [->|Hne].
    + rewrite decide_False, (decide_True (P := id ∈ id :: order)), lookup_insert_eq by (done || by left).
      done.
    + rewrite lookup_insert_ne by done. repeat case_decide; set_solver.
Qed.
End requests.

(** The table read holds each request once, as many as announced. *)
Lemma read_requests_Ok n before acc bs table rest :
  read_requests n before acc bs = Ok (table, rest) →
  (length before + n <= DEDUP_CAPACITY)%nat → requests_ok before acc →
  requests_ok table.1 table.2.
Proof.
  revert before acc bs. induction n as [|n IH]; intros before acc bs H Hlen Hacc.
  { by apply reader_ret_Ok in H as [<- _]. }
  cbn [read_requests] in H. read_fields_inv H.
  apply read_block_Ok in H as (r & out & mid & Hr & _ & H).
  apply reject_value_Ok in H as [Hnew H]. apply decoded_response_ok in Hr.
  apply IH in H; [done|rewrite length_app; simpl; lia|].
  destruct Hacc as [Hnd Hag Hb Hfit]. split.
  - apply NoDup_app. split_and!; [done| |apply NoDup_singleton].
    intros id' Hid' ->%list_elem_of_singleton. by apply Hnew, Hag.
  - intros id'. rewrite elem_of_app, list_elem_of_singleton, Hag, lookup_insert_is_Some.
    destruct (decide (x = id')); naive_solver.
  - rewrite length_app. simpl. lia.
  - by apply map_Forall_insert_2.
Qed.

(** * Snapshots *)

Lemma records_written records :
  entries_ok records → Z.of_nat (size records) <= MAX_SNAPSHOT_RECORDS →
  ∃ out, writes (write_record <$> btree_iter records) = Ok out ∧
    write_records records = Ok (put_u32 (wrap_int U32 (Z.of_nat (size records))) ++ out).
Proof.
  intros Hok Hsize. destruct (writes_written (write_record <$> btree_iter records)) as [out Hout].
  { apply Forall_fmap, Forall_forall. intros [k v] Hin%elem_of_btree_iter.
    apply record_written. by apply (Hok k v). }
  exists out. split; [done|]. unfold write_records. rewrite decide_False by lia.
  by apply writes_cons.
Qed.

Lemma count_fits n : 0 <= n <= 2 ^ 24 → ival (wrap_int U32 n) = n.
Proof.
  intros. apply wrap_int_small. change (int_min U32) with 0. change (int_max U32) with (2 ^ 32 - 1).
  lia.
Qed.

Lemma snapshot_layout m :
  snapshot_ok m → ∃ rs qs,
    writes (write_record <$> btree_iter (records m)) = Ok rs ∧
    write_requests (dedup_responses m) (dedup_order m) = Some (Ok qs) ∧
    encode_snapshot m = Some (Ok (
      put_kind SNAPSHOT_PAYLOAD_VERSION ++ put_u32 (wrap_int U32 (Z.of_nat (size (records m)))) ++
      rs ++ put_u32 (wrap_int U32 (len (dedup_order m))) ++ qs)).
Proof.
  intros [Hent Hcount [Hnd Hag Hcap Hfit]].
  destruct (records_written _ Hent Hcount) as (rs & Hrs & Hrecords).
  destruct (requests_written _ Hfit (dedup_order m)) as [qs Hqs]; [by intros; apply Hag|].
  exists rs, qs. split_and!; [done|done|]. unfold encode_snapshot.
  rewrite (writes_cons _ _ _ _ eq_refl (writes_cons _ [] _ [] Hrecords eq_refl)), Hqs.
  unfold mbind, option_bind.
  rewrite (writes_cons _ _ _ _ eq_refl (writes_cons _ _ _ _ eq_refl (writes_cons _ [] _ [] eq_refl eq_refl))).
  by rewrite !app_nil_r, <-!app_assoc.
Qed.

(** A state that fits has a snapshot, and the snapshot restores exactly that state:
    its records, the remembered answers and the order they are forgotten in. *)
Lemma snapshot_written m :
  snapshot_ok m → ∃ bytes, encode_snapshot m = Some (Ok bytes) ∧ decode_snapshot bytes = Ok m.
Proof.
  intros Hok. destruct (snapshot_layout m Hok) as (rs & qs & Hrs & Hqs & Henc).
  eexists. split; [exact Henc|]. clear Henc.
  destruct m as [records order responses], Hok as [Hent Hcount [Hnd Hag Hcap Hfit]].
  cbn [MetaStateMachine.records dedup_order dedup_responses] in *.
  unfold decode_snapshot. rewrite run_reader_Ok. unfold decode_snapshot_from, put_kind. read_field.
  rewrite (wrap_int_small U16 SNAPSHOT_PAYLOAD_VERSION) by done.
  rewrite decide_False by (intros []; done).
  read_field. rewrite count_fits by (unfold MAX_SNAPSHOT_RECORDS in *; lia).
  rewrite decide_False by lia. rewrite Nat2Z.id, <-length_btree_iter.
  erewrite reader_bind_next; [|eapply read_records_next; [|apply btree_ascending|done]].
  2: { apply Forall_forall. intros [k v] Hin%elem_of_btree_iter. by apply (Hent k v). }
  read_field. unfold DEDUP_CAPACITY in *. unfold len. rewrite count_fits by lia.
  rewrite decide_False by lia. rewrite Nat2Z.id, restore_btree.
  destruct (read_requests_next responses Hfit order [] ∅ qs []) as (acc & Hread & Hacc); [done..|].
  rewrite app_nil_r in Hread. erewrite reader_bind_next by exact Hread.
  apply reader_ret_Ok. split; [|done]. cbn [app fst snd]. f_equal. apply map_eq. intros id.
  rewrite Hacc. case_decide as Hin; [done|]. rewrite lookup_empty, Hag in *.
  by apply eq_None_not_Some in Hin.
Qed.

(** C36. Whatever bytes a node is handed, a snapshot it accepts is a state it could have
    reached the shape of: well-typed records within their bounds, epochs that advance,
    and a request table that agrees with its queue. *)
Theorem snapshot_accepted_ok bytes m : decode_snapshot bytes = Ok m → snapshot_ok m.
Proof.
  unfold decode_snapshot. rewrite run_reader_Ok. unfold decode_snapshot_from. intros H.
  read_fields_inv H. case_decide; [done|]. read_fields_inv H. case_decide as Hn; [done|].
  apply reader_bind_Ok in H as (records & mid & Hr & H).
  apply read_records_Ok in Hr as [Hent Hsize]; [|apply map_Forall_empty].
  read_fields_inv H. case_decide as Hq; [done|].
  apply reader_bind_Ok in H as (table & mid' & Ht & [<- _]%reader_ret_Ok).
  rewrite map_size_empty in Hsize. split; cbn; [done| |].
  - pose proof (u32_bounds x2). lia.
  - eapply read_requests_Ok; [done| |].
    + simpl. pose proof (u32_bounds x1). lia.
    + split; [apply NoDup_nil_2| |simpl; lia|apply map_Forall_empty].
      intros id. rewrite lookup_empty, elem_of_nil. split; [done|by intros []].
Qed.
