(* ===== verification/Steps.v ===== *)
(** The abstract specification of the metadata records: the atomic changes a
    command may make to them, each with the guard it is made under.

    [mstep] forgets the order of checks, the rejections and the generations a
    caller names; it keeps what the safety argument needs.  [Refine] shows that
    every command's effect is a sequence of these steps, and the invariants of
    the later files are proved once per step. *)

From stdpp Require Import prelude gmap strings list relations sorting.
From Stdlib Require Import ZArith Lia.
From S2P Require Import Prelude Wire Keys KeyRange Command Placement Records Flow.
From S2P Require Import LeaseOps GroupOps RangeOps SegmentOps RetentionOps.

(** * Guards *)

(** A range may be handed to [assignments] of member [m]: they are few, distinct,
    exist, and belong to no other member of the group. *)
Definition unheld (s : RecordMap) (g m : Uuid) (a : RangeAssignment.t) : Prop :=
  ∀ m' other, m' ≠ m →
    record s (MetaKey.GroupMember g m') = Some (MetaValue.GroupMember other) →
    a ∉ GroupMemberRecord.assigned other.

Definition range_exists (s : RecordMap) (a : RangeAssignment.t) : Prop :=
  ∃ range, record s (MetaKey.Range (RangeAssignment.topic_uuid a) (RangeAssignment.range_uuid a))
           = Some (MetaValue.Range range).

Definition assignable (s : RecordMap) (g m : Uuid) (l : list RangeAssignment.t) : Prop :=
  Z.of_nat (length l) <= MAX_ASSIGNED_RANGES ∧ NoDup l ∧
  Forall (range_exists s) l ∧ Forall (unheld s g m) l.

(** An election respects the lease in place. *)
Definition electable (existing : option LeaseRecord.t) (holder : Uuid) (now_ms : i64) : Prop :=
  ∀ lease, existing = Some lease →
    LeaseRecord.expires_at_ms lease ≠ None ∧
    (LeaseRecord.holder_node_uuid lease = holder ∨ LeaseRecord.is_live_at lease now_ms = false).

(** A cursor commit names a place inside a registered segment, or no segment. *)
Definition cursor_place (s : RecordMap) (args : CommitCursorArgs.t) : Prop :=
  if is_nil (CommitCursorArgs.segment_uuid args) then
    CommitCursorArgs.segment_generation args = zero ∧
    CommitCursorArgs.segment_root args = zero ∧ CommitCursorArgs.record_index args = zero
  else
    ∃ segment,
      record s (MetaKey.Segment (CommitCursorArgs.topic_uuid args)
                  (CommitCursorArgs.range_uuid args) (CommitCursorArgs.segment_uuid args))
        = Some (MetaValue.Segment segment) ∧
      SegmentRecord.segment_generation segment = CommitCursorArgs.segment_generation args ∧
      SegmentRecord.content_root segment = CommitCursorArgs.segment_root args ∧
      ival (SegmentRecord.base_offset segment) <= ival (CommitCursorArgs.record_offset args)
        <= ival (SegmentRecord.next_offset segment).

(** How a cursor may move: a cursor with a segment on either side never moves
    back; one without a segment on both sides moves freely in its lineage. *)
Definition cursor_moves (args : CommitCursorArgs.t)
    (existing : CursorCheckpointRecord.t) : Prop :=
  CursorCheckpointRecord.topic_epoch existing = CommitCursorArgs.topic_epoch args ∧
  (is_nil (CommitCursorArgs.segment_uuid args) = false ∨
   is_nil (CursorCheckpointRecord.segment_uuid existing) = false →
   ival (CursorCheckpointRecord.record_offset existing)
     <= ival (CommitCursorArgs.record_offset args)).

(** The evidence that authorizes deleting a segment's bytes. *)
Definition deletable (s : RecordMap) (t r g : Uuid) (root : bytes32) : Prop :=
  (∃ copy version,
     record s (MetaKey.SegmentTierCopy t r g) = Some (MetaValue.TierCopy copy) ∧
     TierCopyRecord.content_root copy = root ∧
     TierCopyRecord.object_version_id copy = Some version) ∨
  unarchived_deletion_allowed s t = true.

(** Every durable cursor on the range is at or past [offset]. *)
Definition consumed (s : RecordMap) (t r : Uuid) (offset : u64) : Prop :=
  ∀ group cursor,
    record s (MetaKey.GroupCursor group t r) = Some (MetaValue.GroupCursor cursor) →
    ival offset <= ival (CursorCheckpointRecord.record_offset cursor).

(** The split barrier covers all registered segments and durable cursors. *)
Definition barrier_covers (s : RecordMap) (t r : Uuid) (barrier : u64) : Prop :=
  (∀ g segment, record s (MetaKey.Segment t r g) = Some (MetaValue.Segment segment) →
     ival (SegmentRecord.next_offset segment) <= ival barrier) ∧
  (∀ group cursor,
     record s (MetaKey.GroupCursor group t r) = Some (MetaValue.GroupCursor cursor) →
     ival (CursorCheckpointRecord.record_offset cursor) <= ival barrier).

(** The move a proof is about is the one in flight, if one is. *)
Definition matches_intent (s : RecordMap) (t r g source destination : Uuid) : Prop :=
  ∀ intent,
    record s (MetaKey.SegmentRebalanceIntent t r g) = Some (MetaValue.RebalanceIntent intent) →
    RebalanceIntentRecord.from_node_uuid intent = source ∧
    RebalanceIntentRecord.to_node_uuid intent = destination.

(** The range is leased at this epoch. *)
Definition leased_at (s : RecordMap) (t r : Uuid) (epoch : u64) : Prop :=
  ∃ range lease,
    record s (MetaKey.Range t r) = Some (MetaValue.Range range) ∧
    RangeRecord.lease range = Some lease ∧ LeaseRecord.fencing_epoch lease = epoch.

(** * Effects *)

Definition topic_created (name : string) (t r : Uuid) (epoch : u64) (s : RecordMap) : RecordMap :=
  put (MetaKey.Range t r) (MetaValue.Range root_range)
    (put (MetaKey.Topic t) (MetaValue.Topic (TopicRecord.mk name epoch zero))
       (put (MetaKey.TopicByName name) (MetaValue.TopicName (TopicNameRecord.mk t epoch)) s)).

Definition group_created (name : string) (g : Uuid) (s : RecordMap) : RecordMap :=
  put (MetaKey.Group g) (MetaValue.Group (ConsumerGroupRecord.mk name zero))
    (put (MetaKey.GroupByName name) (MetaValue.GroupName (GroupNameRecord.mk g)) s).

Definition sealed (barrier : u64) (id : Uuid) (range : RangeRecord.t) : RangeRecord.t :=
  RangeRecord.set_sealed_at (Some (SealedParent.mk barrier id))
    (RangeRecord.set_generation (wrapping_succ (RangeRecord.generation range)) range).

(** The replica sets the children of a split inherit. *)
Definition inherit (args : SplitRangeArgs.t) (set : option RangeReplicaSetRecord.t)
    (s : RecordMap) : RecordMap :=
  match set with
  | None => s
  | Some set =>
      let child := MetaValue.RangeReplicaSet
                     (RangeReplicaSetRecord.mk one (RangeReplicaSetRecord.members set) zero) in
      put (MetaKey.RangeReplicaSet (SplitRangeArgs.topic_uuid args)
             (SplitRangeArgs.right_range_uuid args)) child
        (put (MetaKey.RangeReplicaSet (SplitRangeArgs.topic_uuid args)
                (SplitRangeArgs.left_range_uuid args)) child s)
  end.

Definition split_effect (args : SplitRangeArgs.t) (parent : RangeRecord.t)
    (left right : KeyRange.t) (set : option RangeReplicaSetRecord.t) (s : RecordMap)
    : RecordMap :=
  let t := SplitRangeArgs.topic_uuid args in
  let lineage := wrapping_succ (RangeRecord.lineage_generation parent) in
  put (MetaKey.LineageTransition t (SplitRangeArgs.transition_id args))
    (MetaValue.LineageTransition
       (LineageTransitionRecord.mk (SplitRangeArgs.parent_range_uuid args)
          (SplitRangeArgs.barrier_offset args) (SplitRangeArgs.left_range_uuid args)
          (SplitRangeArgs.right_range_uuid args) (SplitRangeArgs.fencing_epoch args)
          (SplitRangeArgs.issued_at_ms args)))
    (inherit args set
       (put (MetaKey.Range t (SplitRangeArgs.right_range_uuid args))
          (split_child args lineage right)
          (put (MetaKey.Range t (SplitRangeArgs.left_range_uuid args))
             (split_child args lineage left)
             (put (MetaKey.Range t (SplitRangeArgs.parent_range_uuid args))
                (MetaValue.Range
                   (sealed (SplitRangeArgs.barrier_offset args)
                      (SplitRangeArgs.transition_id args) parent)) s)))).

(** [node] leaves the replica list. *)
Definition without (node : Uuid) (nodes : list Uuid) : list Uuid :=
  filter (λ n, n ≠ node) nodes.

(** * Steps *)

Section steps.
Context `{Blake3}.

Inductive mstep (s : RecordMap) : RecordMap → Prop :=
  | S_node n node : mstep s (put (MetaKey.Node n) (MetaValue.Node node) s)
  | S_create_topic name t r named :
      valid_str name → validate_topic_name name = Ok tt →
      record s (MetaKey.Topic t) = None → record s (MetaKey.Range t r) = None →
      record s (MetaKey.TopicByName name) = MetaValue.TopicName <$> named →
      mstep s (topic_created name t r
                 (wrapping_succ (from_option TopicNameRecord.latest_epoch zero named)) s)
  | S_grant t r range node holder epoch index now_ms expires kind :
      record s (MetaKey.Node holder) = Some (MetaValue.Node node) →
      NodeRecord.state node = NodeState.Active →
      record s (MetaKey.Range t r) = Some (MetaValue.Range range) →
      checked_succ (RangeRecord.fencing_epoch range) = Some epoch →
      (kind = GrantKind.Election → electable (RangeRecord.lease range) holder now_ms) →
      mstep s
        (put (MetaKey.RangeTransition t r epoch)
           (MetaValue.RangeTransition
              (RangeTransitionRecord.mk (RangeRecord.fencing_epoch range) epoch
                 (lease_holder range) holder kind now_ms index TransitionOutcome.Pending))
           (put (MetaKey.Range t r)
              (MetaValue.Range (granted_range holder epoch index expires range)) s))
  | S_renew t r range lease deadline extended :
      record s (MetaKey.Range t r) = Some (MetaValue.Range range) →
      RangeRecord.lease range = Some lease →
      LeaseRecord.expires_at_ms lease = Some deadline → ival deadline <= ival extended →
      mstep s
        (put (MetaKey.Range t r)
           (MetaValue.Range
              (RangeRecord.set_lease
                 (Some (LeaseRecord.set_expires_at_ms (Some extended) lease)) range)) s)
  | S_release t r range :
      record s (MetaKey.Range t r) = Some (MetaValue.Range range) →
      RangeRecord.lease range ≠ None →
      mstep s (put (MetaKey.Range t r) (MetaValue.Range (cleared_lease range)) s)
  | S_report t r epoch transition outcome :
      record s (MetaKey.RangeTransition t r epoch)
        = Some (MetaValue.RangeTransition transition) →
      is_established (RangeTransitionRecord.outcome transition) = false →
      mstep s
        (put (MetaKey.RangeTransition t r epoch)
           (MetaValue.RangeTransition (RangeTransitionRecord.set_outcome outcome transition)) s)
  | S_replica_set t r range members current :
      record s (MetaKey.Range t r) = Some (MetaValue.Range range) →
      members ≠ [] → NoDup members → StronglySorted int_le members →
      Forall (λ n, record s (MetaKey.Node n) ≠ None) members →
      record s (MetaKey.RangeReplicaSet t r) = MetaValue.RangeReplicaSet <$> current →
      (∀ set, current = Some set →
         changed_members members (RangeReplicaSetRecord.members set) = 1%nat ∧
         established_under s t r set = true) →
      mstep s
        (put (MetaKey.RangeReplicaSet t r)
           (MetaValue.RangeReplicaSet
              (RangeReplicaSetRecord.mk
                 (wrapping_succ (from_option RangeReplicaSetRecord.generation zero current))
                 members (RangeRecord.fencing_epoch range)))
           (put (MetaKey.Range t r) (MetaValue.Range (cleared_lease range)) s))
  | S_feature level :
      ival (feature_level s) < ival level <= ival SUPPORTED_FEATURE_LEVEL →
      mstep s (put MetaKey.ClusterConfig
                 (MetaValue.ClusterConfig (ClusterConfigRecord.mk level)) s)
  | S_register_segment t r g range segment :
      is_nil g = false →
      record s (MetaKey.Range t r) = Some (MetaValue.Range range) →
      leased_at s t r (SegmentRecord.sealed_by_epoch segment) →
      ival (SegmentRecord.base_offset segment) <= ival (SegmentRecord.next_offset segment) →
      (∀ seal, RangeRecord.sealed_at range = Some seal →
         ival (SegmentRecord.next_offset segment) <= ival (SealedParent.barrier_offset seal)) →
      record s (MetaKey.Segment t r g) = None →
      SegmentRecord.state segment = SegmentState.SealedUnverified →
      mstep s
        (put (MetaKey.Range t r)
           (MetaValue.Range
              (RangeRecord.set_generation (wrapping_succ (RangeRecord.generation range)) range))
           (put (MetaKey.Segment t r g) (MetaValue.Segment segment) s))
  | S_verify t r g segment generation :
      record s (MetaKey.Segment t r g) = Some (MetaValue.Segment segment) →
      SegmentRecord.state segment = SegmentState.SealedUnverified →
      checked_succ (SegmentRecord.segment_generation segment) = Some generation →
      mstep s
        (put (MetaKey.Segment t r g)
           (MetaValue.Segment
              (SegmentRecord.set_state SegmentState.Verified generation segment)) s)
  | S_key k key :
      record s (MetaKey.Key k) = None →
      mstep s (put (MetaKey.Key k) (MetaValue.Key key) s)
  | S_create_group name g :
      valid_str name → validate_group_name name = Ok tt →
      record s (MetaKey.Group g) = None →
      (∀ named, record s (MetaKey.GroupByName name) = Some (MetaValue.GroupName named) →
         GroupNameRecord.group_uuid named = g) →
      mstep s (group_created name g s)
  | S_group_generation g group generation :
      record s (MetaKey.Group g) = Some (MetaValue.Group group) →
      checked_succ (ConsumerGroupRecord.generation group) = Some generation →
      mstep s
        (put (MetaKey.Group g)
           (MetaValue.Group (ConsumerGroupRecord.set_generation generation group)) s)
  | S_member_new g m group index assigned :
      record s (MetaKey.Group g) = Some (MetaValue.Group group) →
      record s (MetaKey.GroupMember g m) = None →
      assignable s g m assigned →
      mstep s
        (put (MetaKey.GroupMember g m)
           (MetaValue.GroupMember (GroupMemberRecord.mk zero index assigned)) s)
  | S_member_assign g m member assigned generation :
      record s (MetaKey.GroupMember g m) = Some (MetaValue.GroupMember member) →
      checked_succ (GroupMemberRecord.generation member) = Some generation →
      assignable s g m assigned →
      mstep s
        (put (MetaKey.GroupMember g m)
           (MetaValue.GroupMember (GroupMemberRecord.set_assigned assigned generation member)) s)
  | S_member_push g m member a generation :
      record s (MetaKey.GroupMember g m) = Some (MetaValue.GroupMember member) →
      checked_succ (GroupMemberRecord.generation member) = Some generation →
      a ∉ GroupMemberRecord.assigned member →
      Z.of_nat (length (GroupMemberRecord.assigned member)) < MAX_ASSIGNED_RANGES →
      range_exists s a → unheld s g m a →
      mstep s
        (put (MetaKey.GroupMember g m)
           (MetaValue.GroupMember
              (GroupMemberRecord.set_assigned (GroupMemberRecord.assigned member ++ [a])
                 generation member)) s)
  | S_heartbeat g m member index :
      record s (MetaKey.GroupMember g m) = Some (MetaValue.GroupMember member) →
      mstep s
        (put (MetaKey.GroupMember g m)
           (MetaValue.GroupMember (GroupMemberRecord.set_heartbeat index member)) s)
  | S_member_gone g m : mstep s (del (MetaKey.GroupMember g m) s)
  | S_cursor args member topic range existing generation :
      record s (MetaKey.GroupMember (CommitCursorArgs.group_uuid args)
                  (CommitCursorArgs.member_uuid args)) = Some (MetaValue.GroupMember member) →
      RangeAssignment.mk (CommitCursorArgs.topic_uuid args) (CommitCursorArgs.range_uuid args)
        ∈ GroupMemberRecord.assigned member →
      record s (MetaKey.Topic (CommitCursorArgs.topic_uuid args))
        = Some (MetaValue.Topic topic) →
      TopicRecord.topic_epoch topic = CommitCursorArgs.topic_epoch args →
      record s (MetaKey.Range (CommitCursorArgs.topic_uuid args)
                  (CommitCursorArgs.range_uuid args)) = Some (MetaValue.Range range) →
      cursor_place s args →
      record s (MetaKey.GroupCursor (CommitCursorArgs.group_uuid args)
                  (CommitCursorArgs.topic_uuid args) (CommitCursorArgs.range_uuid args))
        = MetaValue.GroupCursor <$> existing →
      match existing with
      | None => generation = zero
      | Some existing =>
          checked_succ (CursorCheckpointRecord.checkpoint_generation existing)
            = Some generation ∧
          cursor_moves args existing
      end →
      mstep s
        (put (MetaKey.GroupCursor (CommitCursorArgs.group_uuid args)
                (CommitCursorArgs.topic_uuid args) (CommitCursorArgs.range_uuid args))
           (MetaValue.GroupCursor
              (checkpoint args (RangeRecord.lineage_generation range) generation)) s)
  | S_place t r g segment rf nodes index existing generation :
      record s (MetaKey.Segment t r g) = Some (MetaValue.Segment segment) →
      SegmentRecord.state segment = SegmentState.Verified →
      record s (MetaKey.SegmentRebalanceIntent t r g) = None →
      (1 <= Z.to_nat (ival rf) <= MAX_REPLICAS)%nat → length nodes = Z.to_nat (ival rf) →
      NoDup nodes →
      select_replicas g (active_placement_candidates s) (Z.to_nat (ival rf))
        (bool_decide (1 < Z.to_nat (ival rf))%nat) = Ok nodes →
      record s (MetaKey.SegmentPlacement t r g) = MetaValue.SegmentPlacement <$> existing →
      match existing with
      | None => generation = zero
      | Some existing =>
          checked_succ (SegmentPlacementRecord.generation existing) = Some generation
      end →
      mstep s
        (put (MetaKey.SegmentPlacement t r g)
           (MetaValue.SegmentPlacement (SegmentPlacementRecord.mk generation rf nodes index)) s)
  | S_proof t r g segment proof :
      leased_at s t r (ReplacementProofRecord.fencing_epoch proof) →
      record s (MetaKey.Segment t r g) = Some (MetaValue.Segment segment) →
      SegmentRecord.state segment = SegmentState.Verified ∨
      SegmentRecord.state segment = SegmentState.Repairing →
      SegmentRecord.content_root segment = ReplacementProofRecord.content_root proof →
      ReplacementProofRecord.source_node_uuid proof
        ≠ ReplacementProofRecord.destination_node_uuid proof →
      matches_intent s t r g (ReplacementProofRecord.source_node_uuid proof)
        (ReplacementProofRecord.destination_node_uuid proof) →
      mstep s
        (put (MetaKey.SegmentReplacementProof t r g) (MetaValue.ReplacementProof proof) s)
  | S_plan_retire t r g segment proof placement generation :
      leased_at s t r (ReplacementProofRecord.fencing_epoch proof) →
      record s (MetaKey.SegmentReplacementProof t r g)
        = Some (MetaValue.ReplacementProof proof) →
      ReplacementProofRecord.source_node_uuid proof
        ≠ ReplacementProofRecord.destination_node_uuid proof →
      record s (MetaKey.SegmentPlacement t r g) = Some (MetaValue.SegmentPlacement placement) →
      ReplacementProofRecord.destination_node_uuid proof
        ∈ SegmentPlacementRecord.replica_nodes placement →
      ReplacementProofRecord.source_node_uuid proof
        ∈ SegmentPlacementRecord.replica_nodes placement →
      record s (MetaKey.Segment t r g) = Some (MetaValue.Segment segment) →
      SegmentRecord.state segment = SegmentState.Verified →
      checked_succ (SegmentRecord.segment_generation segment) = Some generation →
      mstep s
        (put (MetaKey.Segment t r g)
           (MetaValue.Segment
              (SegmentRecord.set_state SegmentState.RetirePlanned generation segment)) s)
  | S_retired_placed t r g segment proof placement generation next index :
      record s (MetaKey.SegmentReplacementProof t r g)
        = Some (MetaValue.ReplacementProof proof) →
      record s (MetaKey.Segment t r g) = Some (MetaValue.Segment segment) →
      SegmentRecord.state segment = SegmentState.RetirePlanned →
      checked_succ (SegmentRecord.segment_generation segment) = Some generation →
      record s (MetaKey.SegmentPlacement t r g) = Some (MetaValue.SegmentPlacement placement) →
      ReplacementProofRecord.destination_node_uuid proof
        ∈ SegmentPlacementRecord.replica_nodes placement →
      ReplacementProofRecord.source_node_uuid proof
        ∈ SegmentPlacementRecord.replica_nodes placement →
      checked_succ (SegmentPlacementRecord.generation placement) = Some next →
      let moved :=
        put (MetaKey.SegmentPlacement t r g)
          (MetaValue.SegmentPlacement
             (SegmentPlacementRecord.set_replicas
                (without (ReplacementProofRecord.source_node_uuid proof)
                   (SegmentPlacementRecord.replica_nodes placement)) next index placement))
          (put (MetaKey.Segment t r g)
             (MetaValue.Segment
                (SegmentRecord.set_state SegmentState.Verified generation segment)) s) in
      mstep s
        (del (MetaKey.SegmentReplacementProof t r g)
           (if completes_rebalance (record s (MetaKey.SegmentRebalanceIntent t r g))
                 (ReplacementProofRecord.source_node_uuid proof)
                 (ReplacementProofRecord.destination_node_uuid proof)
            then del (MetaKey.SegmentRebalanceIntent t r g) moved else moved))
  | S_retired_unplaced t r g segment proof generation :
      record s (MetaKey.SegmentReplacementProof t r g)
        = Some (MetaValue.ReplacementProof proof) →
      record s (MetaKey.Segment t r g) = Some (MetaValue.Segment segment) →
      SegmentRecord.state segment = SegmentState.RetirePlanned →
      checked_succ (SegmentRecord.segment_generation segment) = Some generation →
      record s (MetaKey.SegmentPlacement t r g) = None →
      let moved :=
        put (MetaKey.Segment t r g)
          (MetaValue.Segment
             (SegmentRecord.set_state SegmentState.Retired generation segment)) s in
      mstep s
        (del (MetaKey.SegmentReplacementProof t r g)
           (if completes_rebalance (record s (MetaKey.SegmentRebalanceIntent t r g))
                 (ReplacementProofRecord.source_node_uuid proof)
                 (ReplacementProofRecord.destination_node_uuid proof)
            then del (MetaKey.SegmentRebalanceIntent t r g) moved else moved))
  | S_propose t r g segment placement intent next :
      record s (MetaKey.Segment t r g) = Some (MetaValue.Segment segment) →
      SegmentRecord.state segment = SegmentState.Verified →
      record s (MetaKey.SegmentPlacement t r g) = Some (MetaValue.SegmentPlacement placement) →
      record s (MetaKey.SegmentRebalanceIntent t r g) = None →
      record s (MetaKey.SegmentReplacementProof t r g) = None →
      RebalanceIntentRecord.from_node_uuid intent
        ∈ SegmentPlacementRecord.replica_nodes placement →
      RebalanceIntentRecord.to_node_uuid intent
        ∉ SegmentPlacementRecord.replica_nodes placement →
      (length (SegmentPlacementRecord.replica_nodes placement) < MAX_TRANSIENT_REPLICAS)%nat →
      checked_succ (SegmentPlacementRecord.generation placement) = Some next →
      mstep s
        (put (MetaKey.SegmentPlacement t r g)
           (MetaValue.SegmentPlacement
              (SegmentPlacementRecord.set_replicas
                 (SegmentPlacementRecord.replica_nodes placement
                    ++ [RebalanceIntentRecord.to_node_uuid intent]) next
                 (RebalanceIntentRecord.proposed_at_apply_index intent) placement))
           (put (MetaKey.SegmentRebalanceIntent t r g) (MetaValue.RebalanceIntent intent) s))
  | S_cancel t r g placement intent next index :
      record s (MetaKey.SegmentRebalanceIntent t r g)
        = Some (MetaValue.RebalanceIntent intent) →
      record s (MetaKey.SegmentPlacement t r g) = Some (MetaValue.SegmentPlacement placement) →
      (∀ proof, record s (MetaKey.SegmentReplacementProof t r g)
                  = Some (MetaValue.ReplacementProof proof) →
         ¬ (ReplacementProofRecord.source_node_uuid proof
              = RebalanceIntentRecord.from_node_uuid intent ∧
            ReplacementProofRecord.destination_node_uuid proof
              = RebalanceIntentRecord.to_node_uuid intent)) →
      checked_succ (SegmentPlacementRecord.generation placement) = Some next →
      mstep s
        (put (MetaKey.SegmentPlacement t r g)
           (MetaValue.SegmentPlacement
              (SegmentPlacementRecord.set_replicas
                 (without (RebalanceIntentRecord.to_node_uuid intent)
                    (SegmentPlacementRecord.replica_nodes placement)) next index placement))
           (del (MetaKey.SegmentRebalanceIntent t r g) s))
  | S_tier t r g segment copy :
      leased_at s t r (TierCopyRecord.fencing_epoch copy) →
      record s (MetaKey.Segment t r g) = Some (MetaValue.Segment segment) →
      SegmentRecord.state segment = SegmentState.Verified →
      SegmentRecord.content_root segment = TierCopyRecord.content_root copy →
      record s (MetaKey.SegmentTierCopy t r g) = None →
      mstep s (put (MetaKey.SegmentTierCopy t r g) (MetaValue.TierCopy copy) s)
  | S_policy t topic policy :
      record s (MetaKey.Topic t) = Some (MetaValue.Topic topic) →
      mstep s
        (put (MetaKey.TopicRetentionPolicy t) (MetaValue.TopicRetentionPolicy policy) s)
  | S_plan_retention t r g segment epoch generation :
      leased_at s t r epoch →
      record s (MetaKey.Segment t r g) = Some (MetaValue.Segment segment) →
      SegmentRecord.state segment = SegmentState.Verified →
      record s (MetaKey.SegmentRebalanceIntent t r g) = None →
      record s (MetaKey.SegmentReplacementProof t r g) = None →
      deletable s t r g (SegmentRecord.content_root segment) →
      consumed s t r (SegmentRecord.next_offset segment) →
      checked_succ (SegmentRecord.segment_generation segment) = Some generation →
      mstep s
        (put (MetaKey.Segment t r g)
           (MetaValue.Segment
              (SegmentRecord.set_state SegmentState.RetentionPlanned generation segment)) s)
  | S_expired t r g segment generation
      (placement : option (SegmentPlacementRecord.t * u64)) index :
      record s (MetaKey.Segment t r g) = Some (MetaValue.Segment segment) →
      SegmentRecord.state segment = SegmentState.RetentionPlanned →
      checked_succ (SegmentRecord.segment_generation segment) = Some generation →
      record s (MetaKey.SegmentPlacement t r g)
        = MetaValue.SegmentPlacement <$> (fst <$> placement) →
      (∀ p next, placement = Some (p, next) →
         checked_succ (SegmentPlacementRecord.generation p) = Some next) →
      let expired :=
        put (MetaKey.Segment t r g)
          (MetaValue.Segment
             (SegmentRecord.set_state SegmentState.RetentionExpired generation segment)) s in
      mstep s
        (match placement with
         | None => expired
         | Some (p, next) =>
             put (MetaKey.SegmentPlacement t r g)
               (MetaValue.SegmentPlacement
                  (SegmentPlacementRecord.set_replicas [] next index p)) expired
         end)
  | S_split args parent left right set :
      SplitRangeArgs.left_range_uuid args ≠ SplitRangeArgs.right_range_uuid args →
      SplitRangeArgs.left_range_uuid args ≠ SplitRangeArgs.parent_range_uuid args →
      SplitRangeArgs.right_range_uuid args ≠ SplitRangeArgs.parent_range_uuid args →
      record s (MetaKey.Range (SplitRangeArgs.topic_uuid args)
                  (SplitRangeArgs.parent_range_uuid args)) = Some (MetaValue.Range parent) →
      RangeRecord.sealed_at parent = None →
      leased_at s (SplitRangeArgs.topic_uuid args) (SplitRangeArgs.parent_range_uuid args)
        (SplitRangeArgs.fencing_epoch args) →
      barrier_covers s (SplitRangeArgs.topic_uuid args) (SplitRangeArgs.parent_range_uuid args)
        (SplitRangeArgs.barrier_offset args) →
      KeyRange.children
        (KeyRange.mk (RangeRecord.key_prefix parent) (RangeRecord.key_prefix_bits parent))
        = Ok (left, right) →
      record s (MetaKey.Range (SplitRangeArgs.topic_uuid args)
                  (SplitRangeArgs.left_range_uuid args)) = None →
      record s (MetaKey.Range (SplitRangeArgs.topic_uuid args)
                  (SplitRangeArgs.right_range_uuid args)) = None →
      record s (MetaKey.LineageTransition (SplitRangeArgs.topic_uuid args)
                  (SplitRangeArgs.transition_id args)) = None →
      record s (MetaKey.RangeReplicaSet (SplitRangeArgs.topic_uuid args)
                  (SplitRangeArgs.parent_range_uuid args))
        = MetaValue.RangeReplicaSet <$> set →
      mstep s (split_effect args parent left right set s).

End steps.
