(* ===== verification/Refine.v ===== *)
(** The handlers implement the abstract steps: started in a well-typed record map
    whose seals are recorded, every command runs without reaching an
    [unreachable!], its effect is a sequence of [mstep]s, and, for every command
    but the two membership assignments, a rejection leaves the records as they
    were. *)

From stdpp Require Import prelude gmap strings list relations sorting.
From Stdlib Require Import ZArith Lia.
From S2P Require Import Prelude Wire Keys KeyRange Command Placement Records Flow.
From S2P Require Import LeaseOps GroupOps RangeOps SegmentOps RetentionOps Apply Steps.
Import KeyCodec.

(** A seal always has the transition record it was written with. *)
Definition seals_recorded (s : RecordMap) : Prop :=
  ∀ t r range seal,
    record s (MetaKey.Range t r) = Some (MetaValue.Range range) →
    RangeRecord.sealed_at range = Some seal →
    ∃ transition,
      record s (MetaKey.LineageTransition t (SealedParent.transition_id seal))
        = Some (MetaValue.LineageTransition transition).

(** The commands whose rejections mutate nothing. *)
Definition atomic (c : MetadataCommand.t) : bool :=
  match c with
  | MetadataCommand.AssignMemberRanges _ _ _ _ _
  | MetadataCommand.EnsureGroupMemberForRange _ _ _ _ _ _ _ _
  | MetadataCommand.EnsureGroupMemberCoordinated _ _ _ _ _ _ _ _ _ _ => false
  | _ => true
  end.

(** One entry per handler: its refinement lemma. *)
Create HintDb refine discriminated.
#[global] Hint Constants Opaque : refine.

Section refine.
Context `{Fmt, Blake3}.
Implicit Types s : RecordMap.

Definition refines (all_or_nothing : bool) (s : RecordMap) (r : MetadataResponse.t)
    (s' : RecordMap) : Prop :=
  rtc mstep s s' ∧ (all_or_nothing = true → is_rejected r = true → s' = s).

Lemma refines_reject b s e : refines b s (reject e) s.
Proof. split; [apply rtc_refl|done]. Qed.

Lemma refines_same b s r : refines b s r s.
Proof. split; [apply rtc_refl|done]. Qed.

Lemma refines_steps b s r s' : is_rejected r = false → rtc mstep s s' → refines b s r s'.
Proof. intros Hr Hs. split; [done|]. by rewrite Hr. Qed.

Lemma refines_one b s r s' : is_rejected r = false → mstep s s' → refines b s r s'.
Proof. intros. apply refines_steps; [done|]. by apply rtc_once. Qed.

Lemma refines_false s r s' : rtc mstep s s' → refines false s r s'.
Proof. split; [done|discriminate]. Qed.

Hint Resolve refines_reject refines_same : flow.

(** * Nodes, topics, features *)

Lemma register_node_refines s n addr g :
  typed s → wp_handler (register_node n addr g) (refines true s) s.
Proof.
  intros Hty. unfold register_node. wp_steps; auto with flow.
  all: try (by apply refines_one, S_node).
  all: destruct (typed_lookup s _ Hty Heqo) as [? [=]].
Qed.

Lemma set_node_state_refines s n st g :
  wp_handler (set_node_state n st g) (refines true s) s.
Proof. unfold set_node_state. wp_steps. by apply refines_one, S_node. Qed.

Lemma set_node_placement_attrs_refines s n d w g :
  wp_handler (set_node_placement_attrs n d w g) (refines true s) s.
Proof. unfold set_node_placement_attrs. wp_steps. by apply refines_one, S_node. Qed.

Lemma not_or_and (P Q : Prop) : ¬ (P ∨ Q) → ¬ P ∧ ¬ Q.
Proof. tauto. Qed.

Lemma not_is_Some {A} (o : option A) : ¬ is_Some o → o = None.
Proof. by rewrite <-eq_None_not_Some. Qed.

Lemma not_is_err {E A} (x : result E A) : ¬ is_err x = true → ∃ a, x = Ok a.
Proof. destruct x; simpl; [eauto|done]. Qed.

Lemma create_topic_refines s name t r :
  typed s → valid_str name → wp_handler (create_topic name t r) (refines true s) s.
Proof.
  intros Hty Hv. unfold create_topic. wp_steps.
  apply refines_one; [done|].
  destruct (not_is_err _ H1) as [[] ?].
  apply S_create_topic; auto using not_is_Some.
Qed.

Lemma set_feature_level_refines s l : wp_handler (set_feature_level l) (refines true s) s.
Proof.
  unfold set_feature_level. wp_steps; auto with flow.
  apply refines_one; [done|]. apply S_feature. lia.
Qed.

(** * Leases and replica sets *)

Lemma wp_require_active_node Q R role n s :
  (∀ e, R (reject e) s) →
  typed s →
  (∀ node, record s (MetaKey.Node n) = Some (MetaValue.Node node) →
     NodeRecord.state node = NodeState.Active → Q tt s) →
  wp (require_active_node role n) Q R s.
Proof.
  intros Hrej Hty HQ. unfold require_active_node. wp_steps.
  eapply HQ; [eassumption|]. by apply dec_stable.
Qed.

Lemma grant_range_lease_refines s i now t r h g :
  typed s → wp_handler (grant_range_lease i now t r h g) (refines true s) s.
Proof.
  intros Hty. unfold grant_range_lease, mint_transition. wp_step.
  apply wp_require_active_node; [auto with flow|done|]; intros node Hn Hactive. wp_steps.
  apply refines_one; [done|]. by eapply S_grant.
Qed.

Lemma wp_election_guard Q R existing h now s :
  (∀ e, R (reject e) s) →
  (electable existing h now → Q tt s) →
  wp (election_guard existing h now) Q R s.
Proof.
  intros Hrej HQ. unfold election_guard. wp_steps; apply HQ; [|done].
  intros lease [= ->]. split; [done|].
  destruct (decide (LeaseRecord.holder_node_uuid lease = h)); [by left|right].
  apply not_true_is_false. naive_solver.
Qed.

Lemma acquire_range_lease_refines s i now t r h g d :
  typed s → wp_handler (acquire_range_lease i now t r h g d) (refines true s) s.
Proof.
  intros Hty. unfold acquire_range_lease, mint_transition. wp_steps.
  apply wp_require_active_node; [auto with flow|done|]; intros node Hn Hactive.
  wp_steps. apply wp_election_guard; [auto with flow|]; intros Hel. wp_steps.
  apply refines_one; [done|]. by eapply S_grant.
Qed.

Lemma renew_range_lease_refines s now t r h e d :
  typed s → wp_handler (renew_range_lease now t r h e d) (refines true s) s.
Proof.
  intros Hty. unfold renew_range_lease. wp_steps.
  apply wp_require_active_node; [auto with flow|done|]; intros node Hn Hactive.
  wp_steps.
  apply refines_one; [done|]. eapply S_renew; [done..|]. unfold i64_max. case_decide; lia.
Qed.

Lemma release_range_lease_refines s t r e :
  wp_handler (release_range_lease t r e) (refines true s) s.
Proof.
  unfold release_range_lease. wp_steps. apply refines_one; [done|].
  replace (RangeRecord.set_generation _ _) with (cleared_lease a).
  - by apply S_release.
  - unfold cleared_lease. by destruct (RangeRecord.lease a).
Qed.

Lemma report_promotion_outcome_refines s i now t r h e o :
  wp_handler (report_promotion_outcome i now t r h e o) (refines true s) s.
Proof.
  unfold report_promotion_outcome. wp_steps. apply refines_one; [done|].
  apply S_report; [done|]. by apply not_true_is_false.
Qed.

(** The distinctness check of a member list. *)
Lemma sort_dedup_facts (members : list Uuid) :
  NoDup (dedup (stable_sort int_le members)) ∧
  StronglySorted int_le (dedup (stable_sort int_le members)).
Proof. apply (dedup_sorted int_le), stable_sort_sorted; apply _. Qed.

Lemma wp_replica_set_change_guard Q t r members current s :
  ((∀ set, current = Some set →
      changed_members members (RangeReplicaSetRecord.members set) = 1%nat ∧
      established_under s t r set = true) → Q tt s) →
  wp (replica_set_change_guard t r members current) Q (refines true s) s.
Proof.
  intros HQ. unfold replica_set_change_guard. wp_steps; auto with flow; apply HQ; [|done].
  intros set [= <-]. split; [by apply dec_stable|by apply not_false_is_true].
Qed.

Lemma set_range_replica_set_refines s t r members g :
  typed s → wp_handler (set_range_replica_set t r members g) (refines true s) s.
Proof.
  intros Hty. unfold set_range_replica_set. do 9 wp_step; [wp_steps; auto with flow|].
  do 5 wp_step.
  apply wp_replica_set_change_guard; intros Hchange. wp_steps.
  apply refines_one; [done|]. apply not_or_and in H2 as [? ?%dec_stable].
  destruct (sort_dedup_facts members).
  apply S_replica_set; [done..| | |exact Hchange].
  - by apply list_find_None in Heqo.
  - unfold range_replica_set. apply (bind_variant_typed s _ Hty).
Qed.

(** * Groups *)

Lemma range_taken_false s g m ranges :
  range_taken s g m ranges = false → Forall (unheld s g m) ranges.
Proof.
  intros Ht. apply Forall_forall. intros a Ha m' other Hne Hrec Hin.
  assert (range_taken s g m ranges = true); [|congruence].
  apply existsb_exists. exists (MetaKey.encode (MetaKey.GroupMember g m'), MetaValue.GroupMember other).
  split; [by apply list_elem_of_In, elem_of_scan|].
  unfold held_by_other; cbn [fst snd]. rewrite decode_encode by done.
  rewrite !bool_decide_eq_true_2 by done. cbn [andb].
  apply existsb_exists. exists a. split; [by apply list_elem_of_In|].
  by apply bool_decide_eq_true_2.
Qed.

Lemma wp_reject_if_taken Q b g m ranges s s0 :
  (∀ e, refines b s0 (reject e) s) → (Forall (unheld s g m) ranges → Q tt s) →
  wp (reject_if_taken g m ranges) Q (refines b s0) s.
Proof.
  intros Hr HQ. unfold reject_if_taken. wp_steps.
  apply HQ, range_taken_false. by apply not_true_is_false.
Qed.

Lemma wp_check_assignments Q seen ranges s :
  (NoDup ranges → Forall (λ a, a ∉ seen) ranges → Forall (range_exists s) ranges → Q tt s) →
  wp (check_assignments seen ranges) Q (refines false s) s.
Proof.
  revert seen. induction ranges as [|a ranges IH]; intros seen HQ; simpl.
  { apply wp_ret, HQ; constructor. }
  unfold require. wp_steps. apply IH. intros Hnd Hseen Hex. apply HQ.
  - constructor; [|done]. intros Hin. eapply Forall_forall in Hseen; [|done].
    by apply Hseen; left.
  - constructor; [done|]. eapply Forall_impl; [exact Hseen|].
    intros x Hx Hin. by apply Hx; right.
  - constructor; [|done]. by eexists.
Qed.

Lemma put_key_record_refines s k sch d : wp_handler (put_key_record k sch d) (refines true s) s.
Proof.
  unfold put_key_record. wp_steps. apply refines_one; [done|].
  apply S_key. by apply not_is_Some.
Qed.

Lemma create_consumer_group_refines s name g :
  valid_str name → wp_handler (create_consumer_group name g) (refines true s) s.
Proof.
  intros Hv. unfold create_consumer_group. wp_steps. apply refines_one; [done|].
  destruct (not_is_err _ H1) as [[] ?].
  apply S_create_group; [done..|by apply not_is_Some|].
  intros named Hnamed. by rewrite (not_is_Some _ H3) in Hnamed.
Qed.

Lemma assignable_nil s g m : assignable s g m [].
Proof. split_and!; [done|constructor..]. Qed.

Lemma join_consumer_group_refines s i g m e :
  wp_handler (join_consumer_group i g m e) (refines true s) s.
Proof.
  unfold join_consumer_group, set_group_generation. wp_steps.
  apply refines_steps; [done|]. eapply rtc_l; [|apply rtc_once].
  - eapply S_member_new; [done|by apply not_is_Some|apply assignable_nil].
  - apply S_group_generation; [by rec_simpl|done].
Qed.

Lemma leave_consumer_group_refines s g m e :
  wp_handler (leave_consumer_group g m e) (refines true s) s.
Proof.
  unfold leave_consumer_group, set_group_generation. wp_steps.
  apply refines_steps; [done|]. eapply rtc_l; [apply S_member_gone|apply rtc_once].
  apply S_group_generation; [by rec_simpl|done].
Qed.

Lemma expire_stale_member_refines s g m e :
  wp_handler (expire_stale_member g m e) (refines true s) s.
Proof.
  unfold expire_stale_member, set_group_generation. wp_steps.
  apply refines_steps; [done|]. eapply rtc_l; [apply S_member_gone|apply rtc_once].
  apply S_group_generation; [by rec_simpl|done].
Qed.

Lemma heartbeat_member_refines s i g m : wp_handler (heartbeat_member i g m) (refines true s) s.
Proof.
  unfold heartbeat_member, require. wp_steps. apply refines_one; [done|]. by apply S_heartbeat.
Qed.

Lemma assign_member_ranges_refines s g m ranges e :
  wp_handler (assign_member_ranges g m ranges e) (refines false s) s.
Proof.
  unfold assign_member_ranges, require. wp_steps.
  apply wp_check_assignments; intros Hnd _ Hex. wp_steps.
  apply wp_reject_if_taken; [auto with flow|]; intros Hun. wp_steps.
  all: apply refines_false; eapply rtc_l;
    [apply (S_member_assign _ g m a0 ranges a1); [done..|split_and!; [lia|done..]]|].
  - apply rtc_refl.
  - apply rtc_once, S_group_generation; [by rec_simpl|done].
Qed.

Lemma wp_name_guard Q b name g s :
  ((∀ named, record s (MetaKey.GroupByName name) = Some (MetaValue.GroupName named) →
      GroupNameRecord.group_uuid named = g) → Q tt s) →
  wp (name_guard name g) Q (refines b s) s.
Proof.
  intros HQ. unfold name_guard. do 2 wp_step.
  destruct (record s (MetaKey.GroupByName name) ≫= as_GroupName) as [named|] eqn:Hn.
  - wp_steps. apply bind_variant in Hn. apply HQ. rewrite Hn. intros ? [= <-]. by apply dec_stable.
  - wp_steps. apply HQ. intros named Hnamed. by rewrite Hnamed in Hn.
Qed.

(** The group is there afterwards, and no record of another category moved. *)
Lemma wp_ensure_group Q b name g s :
  typed s → valid_str name → validate_group_name name = Ok tt →
  (∀ named, record s (MetaKey.GroupByName name) = Some (MetaValue.GroupName named) →
     GroupNameRecord.group_uuid named = g) →
  (∀ s' group, rtc mstep s s' → typed s' →
     record s' (MetaKey.Group g) = Some (MetaValue.Group group) →
     (∀ t r, record s' (MetaKey.Range t r) = record s (MetaKey.Range t r)) → Q tt s') →
  wp (ensure_group name g) Q (refines b s) s.
Proof.
  intros Hty Hv Hval Hnamed HQ. unfold ensure_group. do 2 wp_step.
  pose proof (bind_variant_typed s (MetaKey.Group g) Hty) as Hg.
  destruct (record s (MetaKey.Group g) ≫= as_Group) as [group|]; wp_steps.
  - by apply (HQ s group); [apply rtc_refl|..].
  - eapply HQ.
    + apply rtc_once. by apply (S_create_group _ name g).
    + do 2 (apply typed_put; [done|done|]). done.
    + by rec_simpl.
    + intros. by rec_simpl.
Qed.

Lemma wp_ensure_member Q s0 i g m a group s :
  typed s → rtc mstep s0 s → range_exists s a → unheld s g m a →
  record s (MetaKey.Group g) = Some (MetaValue.Group group) →
  (∀ b s', rtc mstep s0 s' → record s' (MetaKey.Group g) = Some (MetaValue.Group group) →
     Q b s') →
  wp (ensure_member i g m a) Q (refines false s0) s.
Proof.
  intros Hty Hs Hex Hun Hg HQ. unfold ensure_member. do 2 wp_step.
  pose proof (bind_variant_typed s (MetaKey.GroupMember g m) Hty) as Hm.
  destruct (record s (MetaKey.GroupMember g m) ≫= as_GroupMember) as [member|]; simpl in Hm.
  - set (beat := put (MetaKey.GroupMember g m)
                   (MetaValue.GroupMember (GroupMemberRecord.set_heartbeat i member)) s).
    assert (rtc mstep s0 beat) by (eapply rtc_r; [done|]; by apply S_heartbeat).
    wp_steps; try (by apply refines_false).
    + apply HQ; [done|]. by unfold beat; rec_simpl.
    + apply HQ; [|by unfold beat; rec_simpl]. eapply rtc_r; [done|]. unfold beat.
      apply S_member_push; [by rec_simpl|done|done|lia| |].
      * destruct Hex as [range Hr]. exists range. by rec_simpl.
      * intros m' other Hne. rec_simpl. by apply Hun.
  - wp_steps. apply HQ; [|by rec_simpl]. eapply rtc_r; [done|].
    eapply S_member_new; [done..|]. split_and!.
    + simpl. unfold MAX_ASSIGNED_RANGES. lia.
    + apply NoDup_singleton.
    + by constructor.
    + by constructor.
Qed.

Lemma ensure_group_member_for_range_refines s i name g m t r :
  typed s → valid_str name →
  wp_handler (ensure_group_member_for_range i name g m t r) (refines false s) s.
Proof.
  intros Hty Hv. unfold ensure_group_member_for_range, require. do 6 wp_step.
  destruct (not_is_err _ H1) as [[] Hval]. wp_step.
  apply wp_name_guard; intros Hnamed. wp_step.
  apply wp_ensure_group; [done..|]. intros s1 group Hs1 Hty1 Hg Hranges. wp_step.
  apply wp_reject_if_taken; [intros; by apply refines_false|]. intros [Hun _]%Forall_cons. wp_step.
  eapply wp_ensure_member; [done|done| |done|done|].
  { exists a. by rewrite Hranges. }
  intros changed s2 Hs2 Hg2. wp_steps; apply refines_false; [|done].
  eapply rtc_r; [done|]. by apply S_group_generation.
Qed.

(** * Cursors *)

Lemma wp_cursor_segment_guard Q R args s :
  (∀ e, R (reject e) s) →
  (cursor_place s args → Q tt s) → wp (cursor_segment_guard args) Q R s.
Proof.
  intros Hrej HQ. unfold cursor_segment_guard. wp_steps; apply HQ; unfold cursor_place; rewrite Heqb.
  - apply not_or_and in H2 as [?%dec_stable [?%dec_stable ?%dec_stable]%not_or_and]. done.
  - apply not_or_and in H4 as [??]. exists a.
    split_and!; [done|by apply dec_stable|by apply dec_stable|lia..].
Qed.

Lemma cursor_forward args existing :
  cursor_is_forward_or_equal args existing = Ok tt →
  ival (CursorCheckpointRecord.record_offset existing)
    <= ival (CommitCursorArgs.record_offset args).
Proof.
  unfold cursor_is_forward_or_equal. intros Hok.
  repeat case_decide; try discriminate; lia.
Qed.

Lemma wp_cursor_update_guard Q R legacy lineage args existing s :
  (∀ e, R (reject e) s) →
  (cursor_moves args existing → Q tt s) →
  wp (cursor_update_guard args legacy lineage existing) Q R s.
Proof.
  intros Hrej HQ. unfold cursor_update_guard. do 4 wp_step.
  assert (CursorCheckpointRecord.topic_epoch existing = CommitCursorArgs.topic_epoch args)
    by by apply dec_stable.
  destruct (is_nil (CommitCursorArgs.segment_uuid args)) eqn:Hn,
    (is_nil (CursorCheckpointRecord.segment_uuid existing)) eqn:Hw; simpl; wp_steps;
    auto with flow; apply HQ; (split; [done|]); rewrite Hn, Hw; try lia.
  intros _. destruct a. by apply cursor_forward.
Qed.

Lemma commit_group_cursor_refines s args :
  typed s → wp_handler (commit_group_cursor args) (refines true s) s.
Proof.
  intros Hty. unfold commit_group_cursor, require. wp_steps.
  apply wp_cursor_segment_guard; [auto with flow|]; intros Hplace.
  match goal with |- context [record s ?k] =>
    destruct (record s k) as [v|] eqn:Hc; [destruct (typed_lookup s v Hty Hc) as [existing ->]|]
  end; wp_steps; auto with flow.
  - apply wp_cursor_update_guard; [auto with flow|]; intros Hmoves. wp_steps. apply refines_one; [done|].
    apply (S_cursor _ args a0 a1 a2 (Some existing) a3); first [done|by apply dec_stable].
  - apply refines_one; [done|].
    apply (S_cursor _ args a0 a1 a2 None zero); first [done|by apply dec_stable].
Qed.

(** * Segments and splits *)

Lemma wp_leaseholder_gate Q b t r h e s :
  (leased_at s t r e → Q tt s) → wp (leaseholder_gate t r h e) Q (refines b s) s.
Proof.
  intros HQ. unfold leaseholder_gate. wp_steps; auto with flow.
  apply HQ. unfold not_the_leaseholder in Heqo.
  destruct (record s (MetaKey.Range t r)) as [[]|] eqn:Hr; try discriminate.
  destruct (RangeRecord.lease range) as [lease|] eqn:Hl; [|discriminate].
  destruct (bool_decide_reflect (LeaseRecord.fencing_epoch lease = e)) as [He|];
    [by exists range, lease|].
  by rewrite andb_false_r in Heqo.
Qed.

Lemma wp_seal_guard Q R seal next s :
  (∀ e, R (reject e) s) →
  ((∀ sealed, seal = Some sealed → ival next <= ival (SealedParent.barrier_offset sealed)) →
   Q tt s) →
  wp (seal_guard seal next) Q R s.
Proof.
  intros Hrej HQ. unfold seal_guard. wp_steps; apply HQ; [|done].
  intros ? [= <-]. lia.
Qed.

Lemma register_sealed_segment_refines s t r g sg b n root e rg :
  wp_handler (register_sealed_segment t r g sg b n root e rg) (refines true s) s.
Proof.
  unfold register_sealed_segment. wp_steps. apply wp_seal_guard; [auto with flow|]; intros Hseal. wp_steps.
  apply refines_one; [done|].
  apply S_register_segment; simpl; [by apply not_true_is_false|done| |lia|done
    |by apply not_is_Some|done].
  exists a, a0. split_and!; [done..|]. symmetry. by apply dec_stable.
Qed.

Lemma mark_segment_verified_refines s t r g root e :
  wp_handler (mark_segment_verified t r g root e) (refines true s) s.
Proof.
  unfold mark_segment_verified. wp_steps. apply refines_one; [done|].
  apply S_verify; [done|by apply dec_stable|done].
Qed.

Lemma u64_max_le a b : ival a <= ival (u64_max a b) ∧ ival b <= ival (u64_max a b).
Proof. unfold u64_max. case_decide; lia. Qed.

Lemma max_or_zero_ge l x : x ∈ l → ival x <= ival (max_or_zero l).
Proof.
  unfold max_or_zero. generalize (zero : u64) as acc.
  assert (∀ l acc, ival acc <= ival (foldl u64_max acc l)) as Hacc.
  { clear. induction l as [|y l IH]; intros acc; simpl; [lia|].
    pose proof (u64_max_le acc y). specialize (IH (u64_max acc y)). lia. }
  induction l as [|y l IH]; intros acc Hin; simpl; [by apply not_elem_of_nil in Hin|].
  apply elem_of_cons in Hin as [->|Hin]; [|by apply IH].
  pose proof (u64_max_le acc y). specialize (Hacc l (u64_max acc y)). lia.
Qed.

Lemma registered_end_ge s t r g segment :
  record s (MetaKey.Segment t r g) = Some (MetaValue.Segment segment) →
  ival (SegmentRecord.next_offset segment) <= ival (registered_end s t r).
Proof.
  intros Hr. apply max_or_zero_ge, list_elem_of_omap.
  exists (MetaKey.encode (MetaKey.Segment t r g), MetaValue.Segment segment). split; [|done].
  unfold segment_entries. rewrite elem_of_btree_range, <-record_lookup.
  split; [done|apply segment_key_between].
Qed.

Lemma cursor_end_ge s t r group cursor :
  record s (MetaKey.GroupCursor group t r) = Some (MetaValue.GroupCursor cursor) →
  ival (CursorCheckpointRecord.record_offset cursor) <= ival (cursor_end s t r).
Proof.
  intros Hr. apply max_or_zero_ge, list_elem_of_omap.
  exists (MetaKey.encode (MetaKey.GroupCursor group t r), MetaValue.GroupCursor cursor).
  split; [by apply elem_of_scan|].
  unfold cursor_on; cbn [fst snd]. rewrite decode_encode by done.
  by rewrite decide_True.
Qed.

Lemma wp_barrier_guard Q R args s :
  (∀ e, R (reject e) s) →
  (barrier_covers s (SplitRangeArgs.topic_uuid args) (SplitRangeArgs.parent_range_uuid args)
     (SplitRangeArgs.barrier_offset args) → Q tt s) →
  wp (barrier_guard args) Q R s.
Proof.
  intros Hrej HQ. unfold barrier_guard. wp_steps. apply HQ. split.
  - intros g segment ?%registered_end_ge. lia.
  - intros group cursor ?%cursor_end_ge. lia.
Qed.

Lemma wp_split_replay Q args parent s :
  seals_recorded s →
  record s (MetaKey.Range (SplitRangeArgs.topic_uuid args)
              (SplitRangeArgs.parent_range_uuid args)) = Some (MetaValue.Range parent) →
  (RangeRecord.sealed_at parent = None → Q tt s) →
  wp (split_replay args parent) Q (refines true s) s.
Proof.
  intros Hseals Hparent HQ. unfold split_replay.
  destruct (RangeRecord.sealed_at parent) as [seal|] eqn:Hs; [|wp_steps; by apply HQ].
  wp_step; [|wp_steps; auto with flow].
  destruct (Hseals _ _ _ _ Hparent Hs) as [transition Ht]. rewrite e in Ht.
  wp_steps; auto with flow.
Qed.

Lemma wp_inherit_replica_set Q R args set s :
  Q tt (inherit args set s) →
  wp (inherit_replica_set args (RangeReplicaSetRecord.members <$> set)) Q R s.
Proof. intros HQ. unfold inherit_replica_set. destruct set; simpl; by wp_steps. Qed.

Lemma split_range_refines s args :
  typed s → seals_recorded s → wp_handler (split_range args) (refines true s) s.
Proof.
  intros Hty Hseals. unfold split_range, split_id_guard. wp_steps.
  apply wp_split_replay; [done..|]; intros Hunsealed. wp_steps.
  apply wp_leaseholder_gate; intros Hlease. wp_steps.
  apply wp_barrier_guard; [auto with flow|]; intros Hbarrier. wp_steps; auto with flow.
  unfold split_commit. wp_steps. apply wp_inherit_replica_set. wp_steps.
  apply refines_one; [done|].
  apply not_or_and in H2 as [? [??]%not_or_and].
  apply not_or_and in H5 as [? [??]%not_or_and].
  apply S_split; auto using not_is_Some. unfold range_replica_set.
  apply (bind_variant_typed s _ Hty).
Qed.

(** * Placement and replica moves *)

Lemma wp_placement_shape_guard Q R rf nodes s :
  (∀ e, R (reject e) s) →
  ((1 <= Z.to_nat (ival rf) <= MAX_REPLICAS)%nat → length nodes = Z.to_nat (ival rf) →
   NoDup nodes → Q tt s) →
  wp (placement_shape_guard rf nodes) Q R s.
Proof.
  intros Hrej HQ. unfold placement_shape_guard. wp_steps.
  apply HQ; [by apply dec_stable..|]. apply sort_dedup_length_NoDup. by apply dec_stable.
Qed.

Lemma wp_placement_choice_guard Q R g rf nodes s :
  (∀ e, R (reject e) s) →
  (select_replicas g (active_placement_candidates s) rf (bool_decide (1 < rf)%nat) = Ok nodes →
   Q tt s) →
  wp (placement_choice_guard g rf nodes) Q R s.
Proof.
  intros Hrej HQ. unfold placement_choice_guard. wp_steps; auto with flow.
  apply HQ. f_equal. symmetry. by apply dec_stable.
Qed.

Lemma commit_segment_placement_refines s i t r g rf nodes sg pg :
  typed s → wp_handler (commit_segment_placement i t r g rf nodes sg pg) (refines true s) s.
Proof.
  intros Hty. unfold commit_segment_placement. wp_steps.
  apply wp_placement_shape_guard; [auto with flow|]; intros Hrf Hlen Hnd. wp_steps.
  apply wp_placement_choice_guard; [auto with flow|]; intros Hsel. wp_steps; auto with flow.
  all: try (destruct (typed_lookup s _ Hty Heqo) as [? [=]]).
  - apply refines_one; [done|].
    eapply (S_place _ t r g a rf nodes i (Some _)); simpl;
      first [done|by apply not_is_Some|by apply dec_stable].
  - apply refines_one; [done|].
    apply (S_place _ t r g a rf nodes i None zero); simpl;
      first [done|by apply not_is_Some|by apply dec_stable].
Qed.

Lemma wp_require_lease_epoch Q R what t r e s :
  (∀ e, R (reject e) s) →
  (leased_at s t r e → Q tt s) → wp (require_lease_epoch what t r e) Q R s.
Proof.
  intros Hrej HQ. unfold require_lease_epoch. wp_steps. apply HQ. exists a, a0.
  split_and!; [done..|]. symmetry. by apply dec_stable.
Qed.

Lemma wp_require_not_dead Q R nodes s :
  (∀ e, R (reject e) s) →
  Q tt s → wp (require_not_dead nodes) Q R s.
Proof. intros Hrej HQ. induction nodes as [|n nodes IH]; simpl; by wp_steps. Qed.

Lemma wp_proof_intent_guard Q R args s :
  (∀ e, R (reject e) s) →
  (matches_intent s (CommitReplacementProofArgs.topic_uuid args)
     (CommitReplacementProofArgs.range_uuid args) (CommitReplacementProofArgs.segment_uuid args)
     (CommitReplacementProofArgs.source_node_uuid args)
     (CommitReplacementProofArgs.destination_node_uuid args) → Q tt s) →
  wp (proof_intent_guard args) Q R s.
Proof.
  intros Hrej HQ. unfold proof_intent_guard. do 2 wp_step.
  match goal with |- context [record s ?k ≫= _] =>
    destruct (record s k ≫= as_RebalanceIntent) as [intent|] eqn:Hi end; wp_steps; apply HQ.
  - apply bind_variant in Hi. intros intent'. rewrite Hi. intros [= <-].
    apply not_or_and in H1 as [?%dec_stable ?%dec_stable]. done.
  - intros intent' Hi'. by rewrite Hi' in Hi.
Qed.

Lemma wp_proof_generation Q R args existing s :
  (∀ e, R (reject e) s) →
  (∀ g, Q g s) → wp (proof_generation args existing) Q R s.
Proof. intros Hrej HQ. unfold proof_generation. by wp_steps. Qed.

Lemma commit_replacement_proof_refines s args i :
  typed s → wp_handler (commit_replacement_proof args i) (refines true s) s.
Proof.
  intros Hty. unfold commit_replacement_proof. wp_steps.
  apply wp_require_lease_epoch; [auto with flow|]; intros Hlease. wp_steps.
  apply wp_require_not_dead; [auto with flow|]. wp_steps.
  apply wp_proof_intent_guard; [auto with flow|]; intros Hintent. wp_steps.
  apply wp_proof_generation; [auto with flow|]; intros pg. wp_steps.
  apply refines_one; [done|].
  eapply S_proof; simpl; [done|done| |by apply dec_stable|done|done].
  destruct (SegmentRecord.state a); first [by left|by right|by exfalso; auto].
Qed.

Lemma wp_retirement_intent_guard Q R t r g n s :
  (∀ e, R (reject e) s) →
  Q tt s → wp (retirement_intent_guard t r g n) Q R s.
Proof. intros Hrej HQ. unfold retirement_intent_guard. by wp_steps. Qed.

Lemma plan_replica_retirement_refines s t r g n sg e :
  wp_handler (plan_replica_retirement t r g n sg e) (refines true s) s.
Proof.
  unfold plan_replica_retirement. wp_steps.
  apply wp_require_lease_epoch; [auto with flow|]; intros Hlease. wp_steps.
  apply wp_retirement_intent_guard; [auto with flow|]. wp_steps.
  apply refines_one; [done|].
  repeat match goal with Hnn : ¬ (_ ≠ _) |- _ => apply dec_stable in Hnn end. subst.
  eapply (S_plan_retire _ t r g _ a a0); try done; by apply dec_stable.
Qed.

Lemma wp_update_if {A} {as_ : MetaValue.t → option A} {wrap} `{!Variant as_ wrap} Q R key f a s :
  record s key = Some (wrap a) → Q tt (put key (wrap (f a)) s) →
  wp (update_if as_ wrap key f) Q R s.
Proof.
  intros Hr HQ. unfold update_if. do 2 wp_step. rewrite Hr. simpl. rewrite as_wrap. by wp_steps.
Qed.

Lemma confirm_replica_retired_refines s i t r g n sg :
  typed s → wp_handler (confirm_replica_retired i t r g n sg) (refines true s) s.
Proof.
  intros Hty. unfold confirm_replica_retired, retirement_placement. wp_steps.
  all: repeat match goal with Hnn : ¬ (_ ≠ _) |- _ => apply dec_stable in Hnn end; subst.
  all: eapply wp_update_if; [by rec_simpl|]; wp_steps.
  { apply bind_variant in Heqo. eapply wp_update_if; [by rec_simpl|].
    pose proof (S_retired_placed s t r g a0 a t0 a1 a2 i) as Hstep; simpl in Hstep.
    wp_steps; apply refines_one; try done;
      apply Hstep; first [done|by apply dec_stable]. }
  all: pose proof (bind_variant_typed s (MetaKey.SegmentPlacement t r g) Hty) as Hp;
    rewrite Heqo in Hp;
    pose proof (S_retired_unplaced s t r g a0 a a1) as Hstep; simpl in Hstep;
    rewrite Heqb in Hstep; apply refines_one; [done|by apply Hstep].
Qed.

Lemma wp_check_survivors Q R d nodes s :
  (∀ e, R (reject e) s) →
  Q tt s → wp (check_survivors d nodes) Q R s.
Proof. intros Hrej HQ. induction nodes as [|n nodes IH]; simpl; by wp_steps. Qed.

Lemma propose_rebalance_refines s i t r g n1 n2 pg :
  wp_handler (propose_rebalance i t r g n1 n2 pg) (refines true s) s.
Proof.
  unfold propose_rebalance, destination_guard. wp_steps; [apply wp_check_survivors; [auto with flow|]|]; wp_steps.
  all: apply refines_one; [done|];
    apply (S_propose _ t r g a a0 (RebalanceIntentRecord.mk n1 n2 i pg));
    simpl; first [done|by apply not_is_Some|by apply dec_stable|lia].
Qed.

Lemma cancel_rebalance_refines s i t r g pg :
  typed s → wp_handler (cancel_rebalance i t r g pg) (refines true s) s.
Proof.
  intros Hty. unfold cancel_rebalance, cancel_proof_guard. wp_steps.
  all: apply refines_one; [done|]; apply S_cancel; try done.
  - apply bind_variant in Heqo. rewrite Heqo. by intros ? [= <-].
  - intros proof Hp. by rewrite Hp in Heqo.
Qed.

(** * Tier evidence and retention *)

Lemma wp_version_id_guard Q R what lo v s :
  (∀ e, R (reject e) s) →
  Q tt s → wp (version_id_guard what lo v) Q R s.
Proof. intros Hrej HQ. unfold version_id_guard. by wp_steps. Qed.

Lemma commit_tier_evidence_refines s args i :
  wp_handler (commit_tier_evidence args i) (refines true s) s.
Proof.
  unfold commit_tier_evidence, tier_bounds_guard. wp_steps.
  apply wp_version_id_guard; [auto with flow|]. wp_steps. apply wp_version_id_guard; [auto with flow|]. wp_steps.
  apply wp_require_lease_epoch; [auto with flow|]; intros Hlease. wp_steps. apply refines_one; [done|].
  eapply S_tier; simpl; first [done|by apply not_is_Some|by apply dec_stable].
Qed.

Lemma set_topic_retention_policy_refines s t b g :
  typed s → wp_handler (set_topic_retention_policy t b g) (refines true s) s.
Proof.
  intros Hty. unfold set_topic_retention_policy, require. wp_steps; auto with flow.
  all: try (destruct (typed_lookup s _ Hty Heqo) as [? [=]]).
  all: apply refines_one; [done|]; by eapply S_policy.
Qed.

Lemma wp_evidence_gate Q R t r g root s :
  (∀ e, R (reject e) s) →
  typed s → (deletable s t r g root → Q tt s) →
  wp (evidence_gate t r g root) Q R s.
Proof.
  intros Hrej Hty HQ. unfold evidence_gate. wp_steps; apply HQ.
  all: try (right; by apply not_false_is_true).
  left. apply bool_decide_eq_true in Heqb as [version ?].
  exists t0, version. split_and!; [by simplify_eq/=|by apply dec_stable|done].
Qed.

Lemma wp_cursor_protection Q R t r offset s :
  (∀ e, R (reject e) s) →
  (consumed s t r offset → Q tt s) → wp (cursor_protection t r offset) Q R s.
Proof.
  intros Hrej HQ. unfold cursor_protection. wp_steps; auto with flow.
  apply HQ. intros group cursor Hr. apply Z.nlt_ge. intros Hlt.
  assert ((group, CursorCheckpointRecord.record_offset cursor)
            ∈ omap (cursor_below t r offset) (btree_iter s)) as Hin.
  { apply list_elem_of_omap.
    exists (MetaKey.encode (MetaKey.GroupCursor group t r), MetaValue.GroupCursor cursor).
    split; [by apply elem_of_scan|]. unfold cursor_below; cbn [fst snd].
    rewrite decode_encode by done. by rewrite decide_True. }
  apply head_None in Heqo. rewrite Heqo in Hin. by apply not_elem_of_nil in Hin.
Qed.

Lemma plan_retention_refines s t r g sg e :
  typed s → wp_handler (plan_retention t r g sg e) (refines true s) s.
Proof.
  intros Hty. unfold plan_retention. wp_steps.
  apply wp_require_lease_epoch; [auto with flow|]; intros Hlease. wp_steps.
  apply wp_evidence_gate; [auto with flow|done|]; intros Hdel. wp_steps.
  apply wp_cursor_protection; [auto with flow|]; intros Hcons. wp_steps. apply refines_one; [done|].
  eapply S_plan_retention; first [done|by apply not_is_Some|by apply dec_stable].
Qed.

Lemma confirm_retention_expired_refines s i t r g sg :
  typed s → wp_handler (confirm_retention_expired i t r g sg) (refines true s) s.
Proof.
  intros Hty. unfold confirm_retention_expired, expired_placement. wp_steps.
  all: pose proof (bind_variant_typed s (MetaKey.SegmentPlacement t r g) Hty) as Hp;
    rewrite Heqo in Hp; eapply wp_update_if; [by rec_simpl|]; wp_steps.
  - eapply wp_update_if; [by rec_simpl|]. wp_steps. apply refines_one; [done|].
    eapply (S_expired _ t r g a a0 (Some (_, _)) i); try done; [by apply dec_stable|].
    by intros ? ? [= <- <-].
  - apply refines_one; [done|].
    by apply (S_expired _ t r g a a0 None i); first [done|apply dec_stable].
Qed.

Lemma cancel_retention_refines s t r g sg :
  wp_handler (cancel_retention t r g sg) (refines true s) s.
Proof. unfold cancel_retention. wp_steps; auto with flow. Qed.

(** * Every command *)

Hint Resolve register_node_refines set_node_state_refines
  set_node_placement_attrs_refines create_topic_refines
  set_feature_level_refines grant_range_lease_refines
  acquire_range_lease_refines renew_range_lease_refines
  release_range_lease_refines report_promotion_outcome_refines
  set_range_replica_set_refines put_key_record_refines
  create_consumer_group_refines join_consumer_group_refines
  leave_consumer_group_refines expire_stale_member_refines
  heartbeat_member_refines assign_member_ranges_refines
  ensure_group_member_for_range_refines commit_group_cursor_refines
  register_sealed_segment_refines mark_segment_verified_refines
  split_range_refines commit_segment_placement_refines
  commit_replacement_proof_refines plan_replica_retirement_refines
  confirm_replica_retired_refines propose_rebalance_refines
  cancel_rebalance_refines commit_tier_evidence_refines
  set_topic_retention_policy_refines plan_retention_refines
  confirm_retention_expired_refines cancel_retention_refines
  : refine.

Lemma apply_inner_refines s i c :
  typed s → seals_recorded s → MetadataCommand.names_valid c →
  wp_handler (apply_inner i c) (refines (atomic c) s) s.
Proof.
  intros Hty Hseals Hnames. destruct c; simpl in Hnames |- *.
  all: try (wp_steps; apply wp_leaseholder_gate; intros _; wp_steps).
  all: auto with refine.
Qed.

End refine.
