(* ===== verification/Invariants.v ===== *)
(** Invariants of the metadata records, each proved once over the abstract steps:
    well-typed records and recorded seals, the fencing-epoch chain of a range,
    the evolution of ranges and segments, and what a reachable state is. *)

From stdpp Require Import prelude gmap strings list relations sorting.
From Stdlib Require Import ZArith Lia.
From S2P Require Import Prelude Wire Keys KeyRange Command Placement Records Flow.
From S2P Require Import LeaseOps GroupOps RangeOps SegmentOps RetentionOps Apply Steps Refine.

(** Case analysis on a lookup through the updates of a step: updates of another
    category drop out, updates of the same one split on the key. *)
Ltac rec_cases H :=
  repeat lazymatch type of H with
  | record (put ?k ?v ?s) ?key = _ =>
      first
        [ rewrite (record_put_ne k key v s) in H by discriminate
        | rewrite (record_put_case k key v s) in H;
          destruct (decide (k = key)); simplify_eq ]
  | record (del ?k ?s) ?key = _ =>
      first
        [ rewrite (record_del_ne k key s) in H by discriminate
        | rewrite (record_del_case k key s) in H;
          destruct (decide (k = key)); simplify_eq ]
  | record (if ?b then _ else _) _ = _ => destruct b
  | record (match ?o with _ => _ end) _ = _ => destruct o as [[??]|]
  end.

(** The same in a goal. *)
Ltac rec_goal :=
  repeat lazymatch goal with
  | |- context [record (put ?k ?v ?s) ?key] =>
      first
        [ rewrite (record_put_ne k key v s) by discriminate
        | rewrite (record_put_case k key v s); destruct (decide (k = key)); simplify_eq ]
  | |- context [record (del ?k ?s) ?key] =>
      first
        [ rewrite (record_del_ne k key s) by discriminate
        | rewrite (record_del_case k key s); destruct (decide (k = key)); simplify_eq ]
  | |- context [record (if ?b then _ else _) _] => destruct b
  | |- context [record (match ?o with _ => _ end) _] => destruct o as [[??]|]
  end.

Ltac step_cases Hstep :=
  destruct Hstep; unfold topic_created, group_created, split_effect, inherit in *; cbn zeta in *;
  repeat match goal with x := _ : RecordMap |- _ => subst x end.

Section invariants.
Context `{Blake3}.
Implicit Types s : RecordMap.

(** * Types *)

Lemma typed_inherit args set s : typed s → typed (inherit args set s).
Proof. intros Hty. destruct set; simpl; [|done]. by repeat apply typed_put. Qed.

Lemma typed_step s s' : typed s → mstep s s' → typed s'.
Proof.
  intros Hty Hstep. destruct Hstep; unfold topic_created, group_created, split_effect; cbn zeta.
  all: repeat case_match.
  all: repeat first [apply typed_put; [done|done|] | apply typed_del | apply typed_inherit].
  all: done.
Qed.

(** * Ranges *)

(** What never changes about a range, and what only moves forward. *)
Definition range_evolves (x x' : RangeRecord.t) : Prop :=
  RangeRecord.key_prefix x' = RangeRecord.key_prefix x ∧
  RangeRecord.key_prefix_bits x' = RangeRecord.key_prefix_bits x ∧
  RangeRecord.lineage_generation x' = RangeRecord.lineage_generation x ∧
  RangeRecord.parents x' = RangeRecord.parents x ∧
  ival (RangeRecord.fencing_epoch x) <= ival (RangeRecord.fencing_epoch x') ∧
  (∀ seal, RangeRecord.sealed_at x = Some seal → RangeRecord.sealed_at x' = Some seal).

#[export] Instance range_evolves_preorder : PreOrder range_evolves.
Proof.
  split; [intros x; by split_and!|].
  intros x y z (?&?&?&?&?&Hxy) (?&?&?&?&?&Hyz). split_and!; try congruence; [lia|auto].
Qed.

Lemma cleared_evolves x : range_evolves x (cleared_lease x).
Proof. unfold cleared_lease. by destruct (RangeRecord.lease x). Qed.

Lemma granted_evolves x h e i d :
  checked_succ (RangeRecord.fencing_epoch x) = Some e →
  range_evolves x (granted_range h e i d x).
Proof. intros ?%checked_succ_u64. split_and!; simpl; try done. lia. Qed.

(** A range record is never removed and only evolves. *)
Lemma range_kept s s' t r x :
  mstep s s' → record s (MetaKey.Range t r) = Some (MetaValue.Range x) →
  ∃ x', record s' (MetaKey.Range t r) = Some (MetaValue.Range x') ∧ range_evolves x x'.
Proof.
  intros Hstep Hr. step_cases Hstep.
  all: repeat case_match; rec_goal; try congruence.
  all: try (by exists x; split; [|reflexivity]).
  all: eexists; (split; [reflexivity|]); simplify_eq; auto using granted_evolves, cleared_evolves.
  all: split_and!; simpl; try done; congruence.
Qed.

(** A range that was not there is a root or a child of a split: unsealed, with no
    lease and no epoch yet. *)
Lemma range_fresh s s' t r x :
  mstep s s' → record s (MetaKey.Range t r) = None →
  record s' (MetaKey.Range t r) = Some (MetaValue.Range x) →
  RangeRecord.sealed_at x = None ∧ RangeRecord.lease x = None ∧
  RangeRecord.fencing_epoch x = zero.
Proof.
  intros Hstep Hn Hr. step_cases Hstep.
  all: repeat case_match; rec_cases Hr; try congruence; try done.
  all: unfold split_child in *; by simplify_eq.
Qed.

(** * The epoch chain of a range *)

(** How a step touches a range and its transitions: the five shapes the chain
    argument needs. *)
Inductive chain_change s s' (t r : Uuid) : Prop :=
  | CC_frame :
      record s' (MetaKey.Range t r) = record s (MetaKey.Range t r) →
      (∀ e, record s' (MetaKey.RangeTransition t r e) = record s (MetaKey.RangeTransition t r e)) →
      chain_change s s' t r
  | CC_range x x' :
      record s (MetaKey.Range t r) = Some (MetaValue.Range x) →
      record s' (MetaKey.Range t r) = Some (MetaValue.Range x') →
      RangeRecord.fencing_epoch x' = RangeRecord.fencing_epoch x →
      (∀ l', RangeRecord.lease x' = Some l' →
         ∃ l, RangeRecord.lease x = Some l ∧
           LeaseRecord.holder_node_uuid l' = LeaseRecord.holder_node_uuid l ∧
           LeaseRecord.fencing_epoch l' = LeaseRecord.fencing_epoch l) →
      (∀ e, record s' (MetaKey.RangeTransition t r e) = record s (MetaKey.RangeTransition t r e)) →
      chain_change s s' t r
  | CC_grant x x' l epoch tr :
      record s (MetaKey.Range t r) = Some (MetaValue.Range x) →
      checked_succ (RangeRecord.fencing_epoch x) = Some epoch →
      record s' (MetaKey.Range t r) = Some (MetaValue.Range x') →
      RangeRecord.fencing_epoch x' = epoch →
      RangeRecord.lease x' = Some l → LeaseRecord.fencing_epoch l = epoch →
      LeaseRecord.holder_node_uuid l = RangeTransitionRecord.holder_to tr →
      RangeTransitionRecord.epoch_to tr = epoch →
      RangeTransitionRecord.epoch_from tr = RangeRecord.fencing_epoch x →
      (∀ e, record s' (MetaKey.RangeTransition t r e) =
         if decide (epoch = e) then Some (MetaValue.RangeTransition tr)
         else record s (MetaKey.RangeTransition t r e)) →
      chain_change s s' t r
  | CC_report epoch tr o :
      record s' (MetaKey.Range t r) = record s (MetaKey.Range t r) →
      record s (MetaKey.RangeTransition t r epoch) = Some (MetaValue.RangeTransition tr) →
      is_established (RangeTransitionRecord.outcome tr) = false →
      (∀ e, record s' (MetaKey.RangeTransition t r e) =
         if decide (epoch = e)
         then Some (MetaValue.RangeTransition (RangeTransitionRecord.set_outcome o tr))
         else record s (MetaKey.RangeTransition t r e)) →
      chain_change s s' t r
  | CC_fresh x' :
      record s (MetaKey.Range t r) = None →
      record s' (MetaKey.Range t r) = Some (MetaValue.Range x') →
      RangeRecord.fencing_epoch x' = zero → RangeRecord.lease x' = None →
      (∀ e, record s' (MetaKey.RangeTransition t r e) = record s (MetaKey.RangeTransition t r e)) →
      chain_change s s' t r.

Lemma cleared_lease_none x : RangeRecord.lease (cleared_lease x) = None.
Proof. unfold cleared_lease. by destruct (RangeRecord.lease x) eqn:?. Qed.

Lemma cleared_lease_epoch x :
  RangeRecord.fencing_epoch (cleared_lease x) = RangeRecord.fencing_epoch x.
Proof. unfold cleared_lease. by destruct (RangeRecord.lease x). Qed.

(** Separates the record keys of a goal, with the hypotheses at hand. *)
Ltac frame_records := intros; repeat case_match; rec_simpl; reflexivity.

Definition lease_kept (x x' : RangeRecord.t) : Prop :=
  RangeRecord.fencing_epoch x' = RangeRecord.fencing_epoch x ∧
  ∀ l', RangeRecord.lease x' = Some l' →
    ∃ l, RangeRecord.lease x = Some l ∧
      LeaseRecord.holder_node_uuid l' = LeaseRecord.holder_node_uuid l ∧
      LeaseRecord.fencing_epoch l' = LeaseRecord.fencing_epoch l.

Lemma lease_kept_same x x' :
  RangeRecord.fencing_epoch x' = RangeRecord.fencing_epoch x →
  RangeRecord.lease x' = RangeRecord.lease x → lease_kept x x'.
Proof. intros He Hl. split; [done|]. rewrite Hl. eauto. Qed.

Lemma lease_kept_cleared x : lease_kept x (cleared_lease x).
Proof. split; [apply cleared_lease_epoch|]. by rewrite cleared_lease_none. Qed.

(** A step that rewrites one range record and no transition. *)
Lemma chain_range_put s s' t r t0 r0 x x' :
  record s (MetaKey.Range t0 r0) = Some (MetaValue.Range x) → lease_kept x x' →
  (∀ t r, record s' (MetaKey.Range t r) =
     record (put (MetaKey.Range t0 r0) (MetaValue.Range x') s) (MetaKey.Range t r)) →
  (∀ e, record s' (MetaKey.RangeTransition t r e) = record s (MetaKey.RangeTransition t r e)) →
  chain_change s s' t r.
Proof.
  intros Hx [He Hl] Hr Ht. specialize (Hr t r). rewrite record_put_case in Hr.
  destruct (decide _) as [[= -> ->]|]; [by eapply CC_range|by apply CC_frame].
Qed.

Lemma chain_grant s t0 r0 range holder epoch index now_ms expires kind t r :
  record s (MetaKey.Range t0 r0) = Some (MetaValue.Range range) →
  checked_succ (RangeRecord.fencing_epoch range) = Some epoch →
  chain_change s
    (put (MetaKey.RangeTransition t0 r0 epoch)
       (MetaValue.RangeTransition
          (RangeTransitionRecord.mk (RangeRecord.fencing_epoch range) epoch
             (lease_holder range) holder kind now_ms index TransitionOutcome.Pending))
       (put (MetaKey.Range t0 r0)
          (MetaValue.Range (granted_range holder epoch index expires range)) s)) t r.
Proof.
  intros Hr He. destruct (decide (MetaKey.Range t0 r0 = MetaKey.Range t r)) as [[= -> ->]|Hne].
  - eapply (CC_grant _ _ _ _ range _ _ epoch
      (RangeTransitionRecord.mk (RangeRecord.fencing_epoch range) epoch
         (lease_holder range) holder kind now_ms index TransitionOutcome.Pending));
      [done|done|rec_simpl; reflexivity|reflexivity..|].
    intros e. rewrite record_put_case. repeat case_decide; simplify_eq; by rec_simpl.
  - assert (∀ e, MetaKey.RangeTransition t0 r0 epoch ≠ MetaKey.RangeTransition t r e)
      by congruence.
    apply CC_frame; frame_records.
Qed.

Lemma chain_report s t0 r0 epoch tr o t r :
  record s (MetaKey.RangeTransition t0 r0 epoch) = Some (MetaValue.RangeTransition tr) →
  is_established (RangeTransitionRecord.outcome tr) = false →
  chain_change s
    (put (MetaKey.RangeTransition t0 r0 epoch)
       (MetaValue.RangeTransition (RangeTransitionRecord.set_outcome o tr)) s) t r.
Proof.
  intros Ht He. destruct (decide (MetaKey.Range t0 r0 = MetaKey.Range t r)) as [[= -> ->]|Hne].
  - apply (CC_report _ _ _ _ epoch tr o); [frame_records|done|done|].
    intros e. rewrite record_put_case. repeat case_decide; by simplify_eq.
  - assert (∀ e, MetaKey.RangeTransition t0 r0 epoch ≠ MetaKey.RangeTransition t r e)
      by congruence.
    apply CC_frame; frame_records.
Qed.

(** Only the parent and the two children of a split are touched. *)
Lemma split_effect_ranges args parent left right set s t r :
  let t0 := SplitRangeArgs.topic_uuid args in
  let lineage := wrapping_succ (RangeRecord.lineage_generation parent) in
  record (split_effect args parent left right set s) (MetaKey.Range t r) =
    if decide (MetaKey.Range t0 (SplitRangeArgs.right_range_uuid args) = MetaKey.Range t r)
    then Some (split_child args lineage right)
    else if decide (MetaKey.Range t0 (SplitRangeArgs.left_range_uuid args) = MetaKey.Range t r)
    then Some (split_child args lineage left)
    else if decide (MetaKey.Range t0 (SplitRangeArgs.parent_range_uuid args) = MetaKey.Range t r)
    then Some (MetaValue.Range
                 (sealed (SplitRangeArgs.barrier_offset args)
                    (SplitRangeArgs.transition_id args) parent))
    else record s (MetaKey.Range t r).
Proof.
  cbn zeta. unfold split_effect, inherit. destruct set.
  all: repeat rewrite record_put_ne by discriminate.
  all: by rewrite !record_put_case.
Qed.

Lemma split_effect_transitions args parent left right set s t r e :
  record (split_effect args parent left right set s) (MetaKey.RangeTransition t r e)
    = record s (MetaKey.RangeTransition t r e).
Proof. unfold split_effect, inherit. destruct set; by rec_simpl. Qed.

Lemma chain_split args parent left right set s t r :
  SplitRangeArgs.left_range_uuid args ≠ SplitRangeArgs.parent_range_uuid args →
  SplitRangeArgs.right_range_uuid args ≠ SplitRangeArgs.parent_range_uuid args →
  record s (MetaKey.Range (SplitRangeArgs.topic_uuid args)
              (SplitRangeArgs.parent_range_uuid args)) = Some (MetaValue.Range parent) →
  record s (MetaKey.Range (SplitRangeArgs.topic_uuid args)
              (SplitRangeArgs.left_range_uuid args)) = None →
  record s (MetaKey.Range (SplitRangeArgs.topic_uuid args)
              (SplitRangeArgs.right_range_uuid args)) = None →
  chain_change s (split_effect args parent left right set s) t r.
Proof.
  intros Hlp Hrp Hp Hl Hr.
  pose proof (split_effect_ranges args parent left right set s t r) as Hrange. cbn zeta in Hrange.
  pose proof (split_effect_transitions args parent left right set s t r) as Htr.
  repeat case_decide; simplify_eq; try (by apply CC_frame).
  1, 2: by eapply CC_fresh; [done|exact Hrange|done..].
  eapply CC_range; [exact Hp|exact Hrange|done| |exact Htr]. simpl. eauto.
Qed.

Lemma chain_step s s' t r : mstep s s' → chain_change s s' t r.
Proof.
  intros Hstep. destruct Hstep; try (by apply chain_split).
  all: unfold topic_created, group_created.
  all: repeat match goal with x := _ : RecordMap |- _ => subst x end.
  all: try (apply CC_frame; frame_records).
  all: try (by apply chain_grant).
  all: try (by apply chain_report).
  - (* a topic's root range *)
    destruct (decide (MetaKey.Range t0 r0 = MetaKey.Range t r)) as [[= -> ->]|].
    + eapply (CC_fresh _ _ _ _ root_range); [done|by rec_simpl|done|done|frame_records].
    + apply CC_frame; frame_records.
  - (* a renewal *)
    eapply chain_range_put; [done| |done|frame_records].
    split; [done|]. intros l' [= <-]. by exists lease.
  - (* a release *)
    eapply chain_range_put; [done|apply lease_kept_cleared|done|frame_records].
  - (* a replica-set change *)
    eapply chain_range_put; [done|apply lease_kept_cleared|frame_records..].
  - (* a registration *)
    eapply (chain_range_put _ _ _ _ t0 r0 range (RangeRecord.set_generation _ range));
      [done|by apply lease_kept_same| |frame_records].
    intros t' r'. rewrite !(record_put_case (MetaKey.Range t0 r0)). case_decide; by rec_simpl.
Qed.

(** The transitions of a range are exactly the epochs 1..fencing epoch, each the
    successor of the one before, and a lease is the grant of the last one. *)
Record chain_ok s (t r : Uuid) (x : RangeRecord.t) : Prop := {
  chain_epochs e :
    record s (MetaKey.RangeTransition t r e) ≠ None ↔
    1 <= ival e <= ival (RangeRecord.fencing_epoch x);
  chain_links e tr :
    record s (MetaKey.RangeTransition t r e) = Some (MetaValue.RangeTransition tr) →
    RangeTransitionRecord.epoch_to tr = e ∧ ival (RangeTransitionRecord.epoch_from tr) = e - 1;
  chain_lease l :
    RangeRecord.lease x = Some l →
    LeaseRecord.fencing_epoch l = RangeRecord.fencing_epoch x ∧
    ∃ tr, record s (MetaKey.RangeTransition t r (RangeRecord.fencing_epoch x))
            = Some (MetaValue.RangeTransition tr) ∧
      RangeTransitionRecord.holder_to tr = LeaseRecord.holder_node_uuid l
}.

Definition epoch_chain s : Prop :=
  ∀ t r,
    (∀ x, record s (MetaKey.Range t r) = Some (MetaValue.Range x) → chain_ok s t r x) ∧
    (record s (MetaKey.Range t r) = None →
       ∀ e, record s (MetaKey.RangeTransition t r e) = None).

(** [chain_ok] only looks at the transitions of its own range. *)
Lemma chain_ok_frame s s' t r x x' :
  (∀ e, record s' (MetaKey.RangeTransition t r e) = record s (MetaKey.RangeTransition t r e)) →
  lease_kept x x' → chain_ok s t r x → chain_ok s' t r x'.
Proof.
  intros Ht [He Hl] [H1 H2 H3]. split.
  - intros e. by rewrite Ht, He.
  - intros e tr. rewrite Ht. apply H2.
  - intros l' (l & Hlease & -> & ->)%Hl. rewrite He, Ht. by apply H3.
Qed.

Lemma chain_ok_grant s s' t r x x' l epoch tr :
  chain_ok s t r x →
  checked_succ (RangeRecord.fencing_epoch x) = Some epoch →
  RangeRecord.fencing_epoch x' = epoch → RangeRecord.lease x' = Some l →
  LeaseRecord.fencing_epoch l = epoch →
  LeaseRecord.holder_node_uuid l = RangeTransitionRecord.holder_to tr →
  RangeTransitionRecord.epoch_to tr = epoch →
  RangeTransitionRecord.epoch_from tr = RangeRecord.fencing_epoch x →
  (∀ e, record s' (MetaKey.RangeTransition t r e) =
     if decide (epoch = e) then Some (MetaValue.RangeTransition tr)
     else record s (MetaKey.RangeTransition t r e)) →
  chain_ok s' t r x'.
Proof.
  intros [H1 H2 H3] Hs%checked_succ_u64 <- Hl Hle Hh Hto Hfrom Ht.
  pose proof (u64_bounds (RangeRecord.fencing_epoch x)). split.
  - intros e. rewrite Ht. case_decide as Heq.
    + subst e. split; [lia|done].
    + rewrite H1, Hs. apply int_neq in Heq. lia.
  - intros e tr'. rewrite Ht. case_decide; [|apply H2].
    intros [= <-]. subst e. rewrite Hto, Hfrom. split; [done|lia].
  - rewrite Hl. intros ? [= <-]. split; [done|].
    exists tr. by rewrite Ht, decide_True.
Qed.

Lemma chain_ok_report s s' t r x epoch tr o :
  chain_ok s t r x →
  record s (MetaKey.RangeTransition t r epoch) = Some (MetaValue.RangeTransition tr) →
  (∀ e, record s' (MetaKey.RangeTransition t r e) =
     if decide (epoch = e)
     then Some (MetaValue.RangeTransition (RangeTransitionRecord.set_outcome o tr))
     else record s (MetaKey.RangeTransition t r e)) →
  chain_ok s' t r x.
Proof.
  intros [H1 H2 H3] Hrec Ht. split.
  - intros e. rewrite Ht. case_decide; [|apply H1]. subst e. rewrite <-H1, Hrec. done.
  - intros e tr'. rewrite Ht. case_decide; [|apply H2]. subst e. intros [= <-].
    by apply H2 in Hrec.
  - intros l [Hle (tr' & Htr' & Hh)]%H3. split; [done|]. rewrite Ht. case_decide; [|eauto].
    subst epoch. rewrite Hrec in Htr'. simplify_eq. eauto.
Qed.

Lemma epoch_chain_step s s' : epoch_chain s → mstep s s' → epoch_chain s'.
Proof.
  intros Hinv Hstep t r. destruct (Hinv t r) as [Hsome Hnone].
  destruct (chain_step s s' t r Hstep)
    as [Hr Ht|x x' Hx Hx' He Hl Ht|x x' l epoch tr Hx Hs Hx' He Hl Hle Hh Hto Hfrom Ht
       |epoch tr o Hr Htr _ Ht|x' Hx Hx' He Hl Ht].
  - rewrite Hr. split; [|intros ? e; rewrite Ht; auto].
    intros x Hx. eapply chain_ok_frame; [done|by apply lease_kept_same|auto].
  - rewrite Hx'. split; [|done]. intros ? [= <-]. eapply chain_ok_frame; [done|by split|auto].
  - rewrite Hx'. split; [|done]. intros ? [= <-]. eapply chain_ok_grant; eauto.
  - rewrite Hr. split; [intros x Hx; eapply chain_ok_report; eauto|].
    intros Hn. by rewrite (Hnone Hn) in Htr.
  - rewrite Hx'. split; [|done]. intros ? [= <-]. specialize (Hnone Hx). split.
    + intros e. rewrite Ht, Hnone, He. rewrite ival_zero. split; [done|lia].
    + intros e tr. by rewrite Ht, Hnone.
    + by rewrite Hl.
Qed.

Lemma epoch_chain_empty : epoch_chain ∅.
Proof. intros t r. split; intros; by rewrite record_empty in *. Qed.

(** The holder and the identity of an epoch's transition are written once, and an
    established outcome is final. *)
Definition transition_evolves (tr tr' : RangeTransitionRecord.t) : Prop :=
  (∃ o, tr' = RangeTransitionRecord.set_outcome o tr) ∧
  (is_established (RangeTransitionRecord.outcome tr) = true → tr' = tr).

#[export] Instance transition_evolves_preorder : PreOrder transition_evolves.
Proof.
  split.
  - intros []. by split; [eexists|].
  - intros x y z [[o ->] Hxy] [[o' ->] Hyz]. split; [by exists o'|].
    intros Hx. rewrite Hyz; [auto|]. by rewrite (Hxy Hx).
Qed.

Lemma transition_kept s s' t r e tr :
  epoch_chain s → typed s → mstep s s' →
  record s (MetaKey.RangeTransition t r e) = Some (MetaValue.RangeTransition tr) →
  ∃ tr', record s' (MetaKey.RangeTransition t r e) = Some (MetaValue.RangeTransition tr') ∧
    transition_evolves tr tr'.
Proof.
  intros Hinv Hty Hstep Hrec.
  destruct (chain_step s s' t r Hstep)
    as [_ Ht|? ? _ _ _ _ Ht|x x' l epoch tr0 Hx Hs _ _ _ _ _ _ _ Ht|epoch tr0 o _ Htr He Ht
       |? _ _ _ _ Ht]; rewrite Ht.
  1, 2, 5: by exists tr; split; [|reflexivity].
  - rewrite decide_False; [by exists tr; split; [|reflexivity]|]. intros ->.
    apply checked_succ_u64 in Hs. destruct (Hinv t r) as [Hsome _].
    destruct (Hsome x Hx) as [H1 _ _].
    assert (1 <= ival e <= ival (RangeRecord.fencing_epoch x)) by (apply H1; by rewrite Hrec).
    lia.
  - case_decide; [subst|by exists tr; split; [|reflexivity]].
    simplify_eq. eexists. split; [done|]. split; [by eexists|congruence].
Qed.

(** * Seals *)

Lemma lineage_kept s s' t i v :
  mstep s s' → record s (MetaKey.LineageTransition t i) = Some v →
  record s' (MetaKey.LineageTransition t i) = Some v.
Proof. intros Hstep Hr. step_cases Hstep; repeat case_match; rec_goal; congruence. Qed.

Lemma cleared_lease_sealed x : RangeRecord.sealed_at (cleared_lease x) = RangeRecord.sealed_at x.
Proof. unfold cleared_lease. by destruct (RangeRecord.lease x). Qed.

(** Only a split seals, and it writes its transition and covers what is there. *)
Lemma newly_sealed s s' t r x x' seal :
  mstep s s' →
  record s (MetaKey.Range t r) = Some (MetaValue.Range x) → RangeRecord.sealed_at x = None →
  record s' (MetaKey.Range t r) = Some (MetaValue.Range x') →
  RangeRecord.sealed_at x' = Some seal →
  barrier_covers s t r (SealedParent.barrier_offset seal) ∧
  (∀ g, record s' (MetaKey.Segment t r g) = record s (MetaKey.Segment t r g)) ∧
  ∃ tr, record s' (MetaKey.LineageTransition t (SealedParent.transition_id seal))
          = Some (MetaValue.LineageTransition tr) ∧
    LineageTransitionRecord.parent_range_uuid tr = r ∧
    LineageTransitionRecord.barrier_offset tr = SealedParent.barrier_offset seal.
Proof.
  intros Hstep Hx Hs0 Hr Hs. destruct Hstep; unfold topic_created, group_created in Hr.
  all: repeat match goal with y := _ : RecordMap |- _ => subst y end.
  all: try (rec_cases Hr; rewrite ?cleared_lease_sealed in Hs; simpl in Hs; congruence).
  rewrite split_effect_ranges in Hr. repeat case_decide; simplify_eq/=.
  split_and!; [done|intros; unfold split_effect, inherit; destruct set; by rec_simpl|].
  eexists. split; [unfold split_effect; by rec_simpl|done].
Qed.

Lemma seals_step s s' : typed s → seals_recorded s → mstep s s' → seals_recorded s'.
Proof.
  intros Hty Hinv Hstep t r x' seal Hr Hs.
  destruct (record s (MetaKey.Range t r)) as [v|] eqn:Hx.
  - destruct (typed_lookup s v Hty Hx) as [x ->].
    destruct (RangeRecord.sealed_at x) as [seal0|] eqn:Hs0.
    + destruct (range_kept _ _ _ _ _ Hstep Hx) as (x1 & Hx1 & _&_&_&_&_& Hseal).
      simplify_eq. rewrite (Hseal _ Hs0) in Hs. simplify_eq.
      destruct (Hinv _ _ _ _ Hx Hs0) as [tr Htr]. exists tr. by eapply lineage_kept.
    + destruct (newly_sealed _ _ _ _ _ _ _ Hstep Hx Hs0 Hr Hs) as (_ & _ & tr & ? & _). eauto.
  - destruct (range_fresh _ _ _ _ _ Hstep Hx Hr). congruence.
Qed.

End invariants.
