(* ===== verification/Reachable.v ===== *)
(** Reachable states of the metadata state machine and the safety of the range
    leases over them: every command completes, rejections change nothing,
    fencing epochs only rise and each belongs to one holder. *)

From stdpp Require Import prelude gmap strings list relations sorting.
From Stdlib Require Import ZArith Lia.
From S2P Require Import Prelude Wire Keys KeyRange Command Placement Records Flow.
From S2P Require Import LeaseOps GroupOps RangeOps SegmentOps RetentionOps Apply Steps.
From S2P Require Import Refine Invariants.

Section rstate.
Context `{Blake3}.
Implicit Types s : RecordMap.

(** Record maps reachable by abstract steps from the empty one. *)
Definition rstate s : Prop := rtc mstep ∅ s.

Lemma rstate_ind (I : RecordMap → Prop) :
  I ∅ → (∀ s s', rstate s → I s → mstep s s' → I s') → ∀ s, rstate s → I s.
Proof.
  intros H0 Hstep s Hs.
  refine (rtc_ind_r (R:=mstep) I ∅ H0 _ s Hs).
  intros s1 s2 Hs1 H12 IH. by eapply Hstep.
Qed.

Lemma rstate_step s s' : rstate s → mstep s s' → rstate s'.
Proof. intros. by eapply rtc_r. Qed.

Lemma rstate_steps s s' : rstate s → rtc mstep s s' → rstate s'.
Proof. unfold rstate. intros. by etrans. Qed.

Lemma rstate_typed s : rstate s → typed s.
Proof. apply rstate_ind; [apply typed_empty|]. eauto using typed_step. Qed.

Lemma rstate_seals s : rstate s → seals_recorded s.
Proof.
  apply rstate_ind; [intros ? ? ? ? Hr; by rewrite record_empty in Hr|].
  eauto using seals_step, rstate_typed.
Qed.

Lemma rstate_chain s : rstate s → epoch_chain s.
Proof. apply rstate_ind; [apply epoch_chain_empty|]. eauto using epoch_chain_step. Qed.

Lemma range_kept_steps s s' t r x :
  rtc mstep s s' → record s (MetaKey.Range t r) = Some (MetaValue.Range x) →
  ∃ x', record s' (MetaKey.Range t r) = Some (MetaValue.Range x') ∧ range_evolves x x'.
Proof.
  intros Hss. revert x. induction Hss as [s|s1 s2 s3 H12 _ IH]; intros x Hx.
  - by exists x; split; [|reflexivity].
  - destruct (range_kept _ _ _ _ _ H12 Hx) as (x2 & Hx2 & ?).
    destruct (IH _ Hx2) as (x3 & ? & ?). exists x3. split; [done|by etrans].
Qed.

Lemma transition_kept_steps s s' t r e tr :
  rstate s → rtc mstep s s' →
  record s (MetaKey.RangeTransition t r e) = Some (MetaValue.RangeTransition tr) →
  ∃ tr', record s' (MetaKey.RangeTransition t r e) = Some (MetaValue.RangeTransition tr') ∧
    transition_evolves tr tr'.
Proof.
  intros Hs Hss. revert tr Hs. induction Hss as [s|s1 s2 s3 H12 _ IH]; intros tr Hs Htr.
  - by exists tr; split; [|reflexivity].
  - destruct (transition_kept _ _ _ _ _ _ (rstate_chain _ Hs) (rstate_typed _ Hs) H12 Htr)
      as (tr2 & Htr2 & ?).
    destruct (IH tr2) as (tr3 & ? & ?); [by eapply rstate_step|done|].
    exists tr3. split; [done|by etrans].
Qed.

(** The feature level only rises, and never past what the release supports. *)
Lemma feature_level_step s s' :
  ival (feature_level s) <= ival SUPPORTED_FEATURE_LEVEL → mstep s s' →
  ival (feature_level s) <= ival (feature_level s') <= ival SUPPORTED_FEATURE_LEVEL.
Proof.
  intros Hle Hstep.
  assert (record s' MetaKey.ClusterConfig = record s MetaKey.ClusterConfig ∨
    ∃ level, record s' MetaKey.ClusterConfig
             = Some (MetaValue.ClusterConfig (ClusterConfigRecord.mk level)) ∧
      ival (feature_level s) < ival level <= ival SUPPORTED_FEATURE_LEVEL)
    as [Hsame|(level & Hnew & ?)].
  { step_cases Hstep; repeat case_match; rec_goal; eauto. }
  - assert (feature_level s' = feature_level s) as ->; [|lia].
    unfold feature_level. by rewrite Hsame.
  - assert (feature_level s' = level) as ->; [|lia]. unfold feature_level. by rewrite Hnew.
Qed.

Lemma feature_level_steps s s' :
  ival (feature_level s) <= ival SUPPORTED_FEATURE_LEVEL → rtc mstep s s' →
  ival (feature_level s) <= ival (feature_level s') <= ival SUPPORTED_FEATURE_LEVEL.
Proof.
  intros Hle Hss. induction Hss as [s|s1 s2 s3 H12 _ IH]; [lia|].
  pose proof (feature_level_step _ _ Hle H12). lia.
Qed.

Lemma rstate_feature_level s : rstate s → ival (feature_level s) <= ival SUPPORTED_FEATURE_LEVEL.
Proof.
  intros Hs. apply (feature_level_steps ∅ s); [|done].
  unfold feature_level. rewrite record_empty. by vm_compute.
Qed.

End rstate.

(** * Machine states *)

Section machine.
Context `{Fmt, Blake3}.
Implicit Types m : MetaStateMachine.t.

(** The states a log of commands with valid names leads to. *)
Inductive reachable : MetaStateMachine.t → Prop :=
  | reachable_new : reachable MetaStateMachine.new
  | reachable_apply m i c r m' :
      reachable m → MetadataCommand.names_valid c →
      MetaStateMachine.apply i c m = Some (r, m') → reachable m'.

Lemma remember_records id r m :
  MetaStateMachine.records (MetaStateMachine.remember id r m) = MetaStateMachine.records m.
Proof.
  unfold MetaStateMachine.remember, MetaStateMachine.evict; simpl.
  by repeat case_match.
Qed.

(** What [apply] does to the records, whether or not the request is a replay. *)
Lemma apply_spec m i c :
  rstate (MetaStateMachine.records m) → MetadataCommand.names_valid c →
  ∃ r m', MetaStateMachine.apply i c m = Some (r, m') ∧
    rtc mstep (MetaStateMachine.records m) (MetaStateMachine.records m') ∧
    (atomic c = true → is_rejected r = true →
       MetaStateMachine.records m' = MetaStateMachine.records m).
Proof.
  intros Hs Hnames. unfold MetaStateMachine.apply.
  destruct (MetaStateMachine.dedup_responses m !! _) as [original|].
  { exists original, m. split_and!; [done|apply rtc_refl|done]. }
  destruct (wp_run _ _ _ (apply_inner_refines _ i c (rstate_typed _ Hs) (rstate_seals _ Hs) Hnames))
    as (r & s' & Hrun & Hsteps & Hatomic).
  rewrite Hrun. simpl. eexists r, _. split; [done|]. by rewrite remember_records.
Qed.

Lemma reachable_rstate m : reachable m → rstate (MetaStateMachine.records m).
Proof.
  induction 1 as [|m i c r m' _ IH Hnames Happly]; [apply rtc_refl|].
  destruct (apply_spec m i c IH Hnames) as (r' & m'' & Happly' & Hsteps & _).
  rewrite Happly in Happly'. simplify_eq. by eapply rstate_steps.
Qed.

Lemma apply_steps m i c r m' :
  reachable m → MetadataCommand.names_valid c → MetaStateMachine.apply i c m = Some (r, m') →
  rtc mstep (MetaStateMachine.records m) (MetaStateMachine.records m').
Proof.
  intros Hm Hnames Happly.
  destruct (apply_spec m i c (reachable_rstate _ Hm) Hnames) as (?&?& Happly' & Hsteps &_).
  by simplify_eq.
Qed.

(** The commands of a log entry. *)
Definition log_valid (log : list (u64 * MetadataCommand.t)) : Prop :=
  Forall (λ e, MetadataCommand.names_valid e.2) log.

Lemma apply_log_steps log m rs m' :
  reachable m → log_valid log → MetaStateMachine.apply_log log m = Some (rs, m') →
  reachable m' ∧ rtc mstep (MetaStateMachine.records m) (MetaStateMachine.records m').
Proof.
  revert m rs. induction log as [|[i c] log IH]; intros m rs Hm Hlog Happly; simpl in Happly.
  { simplify_eq. split; [done|apply rtc_refl]. }
  apply Forall_cons in Hlog as [Hc Hlog].
  destruct (MetaStateMachine.apply i c m) as [[r m1]|] eqn:H1; [|done]. simpl in Happly.
  destruct (MetaStateMachine.apply_log log m1) as [[rs' m2]|] eqn:H2; [|done]. simplify_eq/=.
  assert (reachable m1) as Hm1 by by eapply reachable_apply.
  destruct (IH m1 rs' Hm1 Hlog H2) as [? ?]. split; [done|].
  etrans; [by eapply apply_steps|done].
Qed.

(** A request that is not in the table runs its handler. *)
Lemma apply_fresh m i c r m' :
  MetaStateMachine.has_applied_request m
    (CommandEnvelope.request_id (MetadataCommand.envelope c)) = false →
  MetaStateMachine.apply i c m = Some (r, m') →
  run (apply_inner i c) (MetaStateMachine.records m) = Some (r, MetaStateMachine.records m').
Proof.
  unfold MetaStateMachine.has_applied_request, MetaStateMachine.apply. intros Hf Happly.
  apply bool_decide_eq_false in Hf.
  destruct (MetaStateMachine.dedup_responses m !! _) as [original|]; [by destruct Hf|].
  destruct (run _ _) as [[r0 s]|]; [|done]. simpl in Happly. simplify_eq.
  by rewrite remember_records.
Qed.

(** * Completion and rejection *)


(** C22. In every reachable state every command completes: no handler reaches an
    [unreachable!], and the state it leaves is again reachable. *)
Theorem apply_total m i c :
  reachable m → MetadataCommand.names_valid c →
  ∃ r m', MetaStateMachine.apply i c m = Some (r, m') ∧ reachable m'.
Proof.
  intros Hm Hc. destruct (apply_spec m i c (reachable_rstate _ Hm) Hc) as (r & m' & Ha & _).
  exists r, m'. split; [done|]. by eapply reachable_apply.
Qed.

(** C23. A rejected command leaves every record as it was, for every command but
    AssignMemberRanges and the two EnsureGroupMember commands. *)
Theorem rejected_unchanged m i c r m' :
  reachable m → MetadataCommand.names_valid c → atomic c = true →
  MetaStateMachine.apply i c m = Some (r, m') → is_rejected r = true →
  MetaStateMachine.records m' = MetaStateMachine.records m.
Proof.
  intros Hm Hc Hat Happly Hr.
  destruct (apply_spec m i c (reachable_rstate _ Hm) Hc) as (r' & m'' & Ha & _ & Hsame).
  simplify_eq. auto.
Qed.

(** * Fencing *)

Lemma reachable_chain m : reachable m → epoch_chain (MetaStateMachine.records m).
Proof. intros. by apply rstate_chain, reachable_rstate. Qed.

(** Along any log a range keeps its key interval, parents and lineage, never loses
    its seal, and its fencing epoch never moves back. *)
Theorem range_history log m rs m' t r x :
  reachable m → log_valid log → MetaStateMachine.apply_log log m = Some (rs, m') →
  record (MetaStateMachine.records m) (MetaKey.Range t r) = Some (MetaValue.Range x) →
  ∃ x', record (MetaStateMachine.records m') (MetaKey.Range t r) = Some (MetaValue.Range x') ∧
    range_evolves x x'.
Proof.
  intros Hm Hlog Happly Hx. destruct (apply_log_steps _ _ _ _ Hm Hlog Happly) as [_ Hsteps].
  by eapply range_kept_steps.
Qed.

(** C1. A fencing epoch belongs to one holder: of two leases a range ever has, the
    later one has the higher epoch or is the same holder's. *)
Theorem epoch_has_one_holder log m rs m' t r x x' l l' :
  reachable m → log_valid log → MetaStateMachine.apply_log log m = Some (rs, m') →
  record (MetaStateMachine.records m) (MetaKey.Range t r) = Some (MetaValue.Range x) →
  record (MetaStateMachine.records m') (MetaKey.Range t r) = Some (MetaValue.Range x') →
  RangeRecord.lease x = Some l → RangeRecord.lease x' = Some l' →
  ival (LeaseRecord.fencing_epoch l) < ival (LeaseRecord.fencing_epoch l') ∨
  (LeaseRecord.fencing_epoch l = LeaseRecord.fencing_epoch l' ∧
   LeaseRecord.holder_node_uuid l = LeaseRecord.holder_node_uuid l').
Proof.
  intros Hm Hlog Happly Hx Hx' Hl Hl'.
  destruct (apply_log_steps _ _ _ _ Hm Hlog Happly) as [Hm' Hsteps].
  destruct (range_kept_steps _ _ _ _ _ Hsteps Hx) as (x1 & Hx1 & _&_&_&_& Hle &_). simplify_eq.
  destruct (chain_lease _ _ _ _ (proj1 (reachable_chain _ Hm t r) _ Hx) _ Hl)
    as (He & tr & Htr & Hh).
  destruct (chain_lease _ _ _ _ (proj1 (reachable_chain _ Hm' t r) _ Hx') _ Hl')
    as (He' & tr' & Htr' & Hh').
  destruct (transition_kept_steps _ _ _ _ _ _ (reachable_rstate _ Hm) Hsteps Htr)
    as (tr1 & Htr1 & [o ->] & _).
  rewrite He, He'. destruct (decide (RangeRecord.fencing_epoch x = RangeRecord.fencing_epoch x'))
    as [Heq|Hne].
  - right. split; [done|]. rewrite Heq in Htr1. simplify_eq. by rewrite <-Hh, <-Hh'.
  - left. apply int_neq in Hne. lia.
Qed.

(** C29. The transition records of a range are exactly its epochs 1..fencing epoch,
    each the successor of the one before, and a lease is the grant of the
    current one. *)
Theorem chain_gapless m t r x :
  reachable m →
  record (MetaStateMachine.records m) (MetaKey.Range t r) = Some (MetaValue.Range x) →
  chain_ok (MetaStateMachine.records m) t r x.
Proof. intros Hm Hx. by apply (reachable_chain _ Hm t r). Qed.

(** A transition's epochs, holders and grant are written once, and once it is
    reported established its record never changes again. *)
Theorem transition_history log m rs m' t r e tr :
  reachable m → log_valid log → MetaStateMachine.apply_log log m = Some (rs, m') →
  record (MetaStateMachine.records m) (MetaKey.RangeTransition t r e)
    = Some (MetaValue.RangeTransition tr) →
  ∃ tr', record (MetaStateMachine.records m') (MetaKey.RangeTransition t r e)
           = Some (MetaValue.RangeTransition tr') ∧ transition_evolves tr tr'.
Proof.
  intros Hm Hlog Happly Htr. destruct (apply_log_steps _ _ _ _ Hm Hlog Happly) as [_ Hsteps].
  eapply transition_kept_steps; [by apply reachable_rstate|done..].
Qed.

(** Along any log the cluster's feature level never falls, and it never passes the
    level this release supports. *)
Theorem feature_level_history log m rs m' :
  reachable m → log_valid log → MetaStateMachine.apply_log log m = Some (rs, m') →
  ival (feature_level (MetaStateMachine.records m))
    <= ival (feature_level (MetaStateMachine.records m')) <= ival SUPPORTED_FEATURE_LEVEL.
Proof.
  intros Hm Hlog Happly. destruct (apply_log_steps _ _ _ _ Hm Hlog Happly) as [_ Hsteps].
  by apply feature_level_steps; [apply rstate_feature_level, reachable_rstate|].
Qed.

(** * Elections and renewals *)

(** An election that succeeds mints the next epoch for an active node, never
    displaces an administrative lease or another holder's live one, and sets the
    deadline the command asked for. *)
Lemma acquire_spec s i now t r h g d response s' :
  typed s → run (acquire_range_lease i now t r h g d) s = Some (response, s') →
  is_rejected response = false →
  ∃ x x' epoch deadline,
    response = MetadataResponse.LeaseGranted epoch ∧
    record s (MetaKey.Range t r) = Some (MetaValue.Range x) ∧
    record s' (MetaKey.Range t r) = Some (MetaValue.Range x') ∧
    ival epoch = RangeRecord.fencing_epoch x + 1 ∧
    RangeRecord.fencing_epoch x' = epoch ∧
    RangeRecord.lease x' = Some (LeaseRecord.mk h epoch i (Some deadline)) ∧
    ival deadline = now + d ∧ 0 < ival d ∧
    electable (RangeRecord.lease x) h now.
Proof.
  intros Hty Hrun. wp_of_run Hrun. unfold acquire_range_lease, mint_transition. wp_steps.
  apply wp_require_active_node; [done..|]. intros node _ _. wp_steps.
  apply wp_election_guard; [done|]. intros Hel. wp_steps. intros _.
  match goal with Hs : checked_succ _ = Some _ |- _ => apply checked_succ_u64 in Hs end.
  match goal with Hd : d ≠ zero |- _ => apply int_neq in Hd; rewrite ival_zero in Hd end.
  match goal with Hd : checked_add_unsigned _ _ = Some _ |- _ => apply try_int_Some in Hd end.
  pose proof (u64_bounds d). eexists _, _, _, _.
  split_and!; [done|eassumption|rec_simpl; done|done|done|done|done|lia|done].
Qed.

(** A renewal that succeeds was made by the current holder at the current epoch
    before its deadline; it moves neither epoch nor generation and never
    shortens the lease. *)
Theorem renew_sound s now t r h e d response s' :
  typed s → run (renew_range_lease now t r h e d) s = Some (response, s') →
  is_rejected response = false →
  ∃ x x' l deadline extended,
    response = MetadataResponse.LeaseGranted e ∧
    record s (MetaKey.Range t r) = Some (MetaValue.Range x) ∧
    record s' (MetaKey.Range t r) = Some (MetaValue.Range x') ∧
    RangeRecord.lease x = Some l ∧ LeaseRecord.holder_node_uuid l = h ∧
    LeaseRecord.fencing_epoch l = e ∧
    LeaseRecord.expires_at_ms l = Some deadline ∧ ival now < ival deadline ∧
    RangeRecord.lease x' = Some (LeaseRecord.set_expires_at_ms (Some extended) l) ∧
    ival extended = Z.max deadline (now + d) ∧
    RangeRecord.fencing_epoch x' = RangeRecord.fencing_epoch x ∧
    RangeRecord.generation x' = RangeRecord.generation x.
Proof.
  intros Hty Hrun. wp_of_run Hrun. unfold renew_range_lease. wp_steps.
  apply wp_require_active_node; [done..|]. intros node _ _. wp_steps. intros _.
  match goal with Hd : checked_add_unsigned _ _ = Some _ |- _ => apply try_int_Some in Hd end.
  eexists _, _, _, _, _.
  split_and!; [done|eassumption|rec_simpl; done|eassumption|by apply dec_stable
    |by apply dec_stable|eassumption|lia|done| |done|done].
  unfold i64_max. case_decide; lia.
Qed.

End machine.
