(* ===== verification/Keyspace.v ===== *)
(** The key space of a topic: splits keep the unsealed ranges of a topic a
    partition of the 64-bit routing keys, and a sealed range holds no segment
    past its barrier. *)

From stdpp Require Import prelude gmap strings list relations sorting.
From Stdlib Require Import ZArith Lia.
From S2P Require Import Prelude Wire Keys KeyRange Command Placement Records Flow.
From S2P Require Import LeaseOps GroupOps RangeOps SegmentOps RetentionOps Apply Steps.
From S2P Require Import Refine Invariants Reachable.

(** * Leaves *)

Definition interval (x : RangeRecord.t) : KeyRange.t :=
  KeyRange.mk (RangeRecord.key_prefix x) (RangeRecord.key_prefix_bits x).

Definition leaf_of (v : option MetaValue.t) : option KeyRange.t :=
  match v with
  | Some (MetaValue.Range x) =>
      match RangeRecord.sealed_at x with None => Some (interval x) | Some _ => None end
  | _ => None
  end.

(** The key interval of an unsealed range. *)
Definition leaf (s : RecordMap) (t r : Uuid) : option KeyRange.t :=
  leaf_of (record s (MetaKey.Range t r)).

(** Range [r] of topic [t] is the one that takes writes for routing key [k]. *)
Definition serves (s : RecordMap) (t r : Uuid) (k : u64) : Prop :=
  ∃ range, leaf s t r = Some range ∧ KeyRange.contains range k = true.

Definition partitioned (s : RecordMap) : Prop :=
  (∀ t, record s (MetaKey.Topic t) ≠ None →
     ∀ k, ∃ r, serves s t r k ∧ ∀ r', serves s t r' k → r' = r) ∧
  (∀ t r, record s (MetaKey.Range t r) ≠ None → record s (MetaKey.Topic t) ≠ None).

Lemma contains_full k : KeyRange.contains (KeyRange.mk zero zero) k = true.
Proof. vm_compute. reflexivity. Qed.

Section keyspace.
Context `{Blake3}.
Implicit Types s : RecordMap.

Lemma topic_kept s s' t :
  mstep s s' → record s (MetaKey.Topic t) ≠ None → record s' (MetaKey.Topic t) ≠ None.
Proof. intros Hstep Hr. step_cases Hstep; repeat case_match; rec_goal; congruence. Qed.

(** Every step but a topic creation and a split leaves the leaves alone. *)
Inductive leaf_change s s' : Prop :=
  | LC_frame :
      (∀ t r, leaf s' t r = leaf s t r) →
      (∀ t r, record s' (MetaKey.Range t r) ≠ None → record s (MetaKey.Range t r) ≠ None) →
      (∀ t, record s' (MetaKey.Topic t) ≠ None → record s (MetaKey.Topic t) ≠ None) →
      leaf_change s s'
  | LC_topic t0 r0 :
      record s (MetaKey.Topic t0) = None →
      (∀ t r, record s' (MetaKey.Range t r) =
         if decide (MetaKey.Range t0 r0 = MetaKey.Range t r)
         then Some (MetaValue.Range root_range) else record s (MetaKey.Range t r)) →
      (∀ t, t ≠ t0 → record s' (MetaKey.Topic t) = record s (MetaKey.Topic t)) →
      record s' (MetaKey.Topic t0) ≠ None →
      leaf_change s s'
  | LC_split t0 p l r parent left right :
      l ≠ r → l ≠ p → r ≠ p →
      leaf s t0 p = Some parent → KeyRange.children parent = Ok (left, right) →
      record s (MetaKey.Range t0 l) = None → record s (MetaKey.Range t0 r) = None →
      (∀ t r0, leaf s' t r0 =
         if decide (MetaKey.Range t0 r = MetaKey.Range t r0) then Some right
         else if decide (MetaKey.Range t0 l = MetaKey.Range t r0) then Some left
         else if decide (MetaKey.Range t0 p = MetaKey.Range t r0) then None
         else leaf s t r0) →
      (∀ t r0, t ≠ t0 → record s' (MetaKey.Range t r0) = record s (MetaKey.Range t r0)) →
      (∀ t, record s' (MetaKey.Topic t) = record s (MetaKey.Topic t)) →
      leaf_change s s'.

Lemma leaf_cleared x : leaf_of (Some (MetaValue.Range (cleared_lease x)))
  = leaf_of (Some (MetaValue.Range x)).
Proof. unfold cleared_lease. by destruct (RangeRecord.lease x). Qed.

Lemma leaf_step_split args parent left right set s :
  SplitRangeArgs.left_range_uuid args ≠ SplitRangeArgs.right_range_uuid args →
  SplitRangeArgs.left_range_uuid args ≠ SplitRangeArgs.parent_range_uuid args →
  SplitRangeArgs.right_range_uuid args ≠ SplitRangeArgs.parent_range_uuid args →
  record s (MetaKey.Range (SplitRangeArgs.topic_uuid args)
              (SplitRangeArgs.parent_range_uuid args)) = Some (MetaValue.Range parent) →
  RangeRecord.sealed_at parent = None →
  KeyRange.children (interval parent) = Ok (left, right) →
  record s (MetaKey.Range (SplitRangeArgs.topic_uuid args)
              (SplitRangeArgs.left_range_uuid args)) = None →
  record s (MetaKey.Range (SplitRangeArgs.topic_uuid args)
              (SplitRangeArgs.right_range_uuid args)) = None →
  leaf_change s (split_effect args parent left right set s).
Proof.
  intros Hlr Hlp Hrp Hp Hs Hch Hl Hr.
  eapply (LC_split _ _ (SplitRangeArgs.topic_uuid args) (SplitRangeArgs.parent_range_uuid args)
    (SplitRangeArgs.left_range_uuid args) (SplitRangeArgs.right_range_uuid args)
    (interval parent) left right); try done.
  - unfold leaf. rewrite Hp. simpl. by rewrite Hs.
  - intros t r0. unfold leaf. rewrite split_effect_ranges.
    repeat case_decide; simpl; [by destruct right|by destruct left|done..].
  - intros t r0 Hne. rewrite split_effect_ranges. rewrite !decide_False by congruence. done.
  - intros t. unfold split_effect, inherit. destruct set; by rec_simpl.
Qed.

Lemma leaf_step s s' : mstep s s' → leaf_change s s'.
Proof.
  intros Hstep. destruct Hstep; try (by eapply leaf_step_split).
  all: unfold topic_created, group_created.
  all: repeat match goal with y := _ : RecordMap |- _ => subst y end.
  2: { apply (LC_topic _ _ t r); [done|intros; rec_goal; done|intros; by rec_simpl|by rec_simpl]. }
  all: apply LC_frame; [intros t1 r1; unfold leaf|intros t1 r1|intros t1]; repeat case_match.
  all: rec_goal; try done; try congruence.
  all: try (match goal with Hr : record _ (MetaKey.Range _ _) = Some _ |- _ => rewrite Hr end);
    rewrite ?leaf_cleared; done.
Qed.

Lemma serves_frame s s' t r k :
  leaf s' t r = leaf s t r → serves s' t r k ↔ serves s t r k.
Proof. unfold serves. by intros ->. Qed.

Lemma partitioned_topic s s' t0 r0 :
  partitioned s → record s (MetaKey.Topic t0) = None →
  (∀ t r, record s' (MetaKey.Range t r) =
     if decide (MetaKey.Range t0 r0 = MetaKey.Range t r)
     then Some (MetaValue.Range root_range) else record s (MetaKey.Range t r)) →
  (∀ t, t ≠ t0 → record s' (MetaKey.Topic t) = record s (MetaKey.Topic t)) →
  record s' (MetaKey.Topic t0) ≠ None →
  partitioned s'.
Proof.
  intros [Hpart Hown] Hnew Hranges Htopics Ht0. split.
  - intros t Ht k. destruct (decide (t = t0)) as [->|Hne].
    + exists r0. assert (leaf s' t0 r0 = Some (interval root_range)) as Hleaf
        by (unfold leaf; by rewrite Hranges, decide_True).
      split; [eexists; split; [exact Hleaf|apply contains_full]|].
      intros r' (range & Hr' & _). unfold leaf in Hr'. rewrite Hranges in Hr'.
      case_decide; [congruence|]. destruct (record s (MetaKey.Range t0 r')) eqn:Hrec; [|done].
      exfalso. apply (Hown t0 r'); congruence.
    + rewrite Htopics in Ht by done. destruct (Hpart t Ht k) as (r & Hr & Huniq).
      assert (∀ r, leaf s' t r = leaf s t r) as Hleaf
        by (intros r1; unfold leaf; by rewrite Hranges, decide_False by congruence).
      exists r. split; [by apply (serves_frame s)|].
      intros r' Hr'. apply Huniq. by apply (serves_frame s s').
  - intros t r. rewrite Hranges. case_decide; simplify_eq; [done|].
    intros Hr. destruct (decide (t = t0)) as [->|]; [done|]. rewrite Htopics by done. eauto.
Qed.

Lemma partitioned_split s s' t0 p l r parent left right :
  partitioned s → l ≠ r → l ≠ p → r ≠ p →
  leaf s t0 p = Some parent → KeyRange.children parent = Ok (left, right) →
  record s (MetaKey.Range t0 l) = None → record s (MetaKey.Range t0 r) = None →
  (∀ t r0, leaf s' t r0 =
     if decide (MetaKey.Range t0 r = MetaKey.Range t r0) then Some right
     else if decide (MetaKey.Range t0 l = MetaKey.Range t r0) then Some left
     else if decide (MetaKey.Range t0 p = MetaKey.Range t r0) then None
     else leaf s t r0) →
  (∀ t, record s (MetaKey.Topic t) ≠ None →
     ∀ k, ∃ r, serves s' t r k ∧ ∀ r', serves s' t r' k → r' = r).
Proof.
  intros [Hpart Hown] Hlr Hlp Hrp Hp Hch Hl Hr Hleaf t Ht k.
  destruct (Hpart t Ht k) as (r1 & Hr1 & Huniq).
  destruct (decide (t = t0)) as [->|Hne].
  2: { assert (∀ r, leaf s' t r = leaf s t r) as Hsame
         by (intros r2; rewrite Hleaf, !decide_False by congruence; done).
       exists r1. split; [by apply (serves_frame s)|].
       intros r' Hr'. apply Huniq. by apply (serves_frame s s'). }
  destruct (children_partition _ _ _ k Hch) as [Hx Hdisj].
  assert (leaf s' t0 l = Some left) as Hl'
    by (rewrite Hleaf, decide_False, decide_True by congruence; done).
  assert (leaf s' t0 r = Some right) as Hr' by (rewrite Hleaf, decide_True by done; done).
  assert (∀ r2, serves s' t0 r2 k →
    (r2 = l ∧ KeyRange.contains left k = true) ∨ (r2 = r ∧ KeyRange.contains right k = true) ∨
    (r2 ≠ p ∧ serves s t0 r2 k)) as Hcases.
  { intros r2 (range & Hr2 & Hc). rewrite Hleaf in Hr2.
    repeat case_decide; simplify_eq; [by right; left|by left|]. right; right.
    split; [congruence|by eexists]. }
  destruct (decide (r1 = p)) as [->|Hr1p].
  - destruct Hr1 as (range & Hrange & Hc). rewrite Hp in Hrange. simplify_eq.
    rewrite Hc in Hx. destruct (KeyRange.contains left k) eqn:Hcl,
      (KeyRange.contains right k) eqn:Hcr; try done.
    + exists l. split; [by eexists|].
      intros r2 [[? ?]|[[? ?]|[Hne2 ?%Huniq]]]%Hcases; by subst.
    + exists r. split; [by eexists|].
      intros r2 [[? ?]|[[? ?]|[Hne2 ?%Huniq]]]%Hcases; by subst.
  - assert (KeyRange.contains parent k = false) as Hcp.
    { apply not_true_is_false. intros Hc. apply Hr1p. symmetry. apply Huniq. by eexists. }
    rewrite Hcp in Hx. destruct Hr1 as (range & Hrange & Hc).
    assert (r1 ≠ l ∧ r1 ≠ r) as [? ?].
    { unfold leaf in Hrange. split; intros ->; by rewrite ?Hl, ?Hr in Hrange. }
    exists r1. split.
    + exists range. rewrite Hleaf, !decide_False by congruence. done.
    + intros r2 [[? Hcl]|[[? Hcr]|[_ ?]]]%Hcases; [..|auto].
      all: destruct (KeyRange.contains left k), (KeyRange.contains right k);
        simpl in *; first [done|by exfalso; apply Hdisj].
Qed.

Lemma partitioned_step s s' : partitioned s → mstep s s' → partitioned s'.
Proof.
  intros Hinv Hstep. destruct (leaf_step s s' Hstep)
    as [Hleaf Hranges Htopics|t0 r0 ????|t0 p l r parent left right ??????? Hleaf Hranges Htopics].
  - destruct Hinv as [Hpart Hown]. split; [|eauto using topic_kept].
    intros t Ht%Htopics k. destruct (Hpart t Ht k) as (r & Hr & Huniq).
    exists r. split; [by apply (serves_frame s)|]. intros r' Hr'. apply Huniq.
    by apply (serves_frame s s').
  - by eapply partitioned_topic.
  - split.
    + intros t Ht. rewrite Htopics in Ht. revert t Ht. by eapply (partitioned_split s s' t0 p l r).
    + destruct Hinv as [Hpart Hown]. intros t r1 Hr1. rewrite Htopics.
      destruct (decide (t = t0)) as [->|]; [|rewrite Hranges in Hr1 by done; eauto].
      apply (Hown t0 p). intros Hn.
      match goal with Hp : leaf s t0 p = Some _ |- _ => unfold leaf in Hp; by rewrite Hn in Hp end.
Qed.

Lemma rstate_partitioned s : rstate s → partitioned s.
Proof.
  apply rstate_ind; [|eauto using partitioned_step].
  split; intros ? *; by rewrite record_empty.
Qed.

(** * Barriers *)

(** Of a registered segment only the state and the generation change, and it is
    never removed. *)
Definition segment_evolves (x x' : SegmentRecord.t) : Prop :=
  SegmentRecord.base_offset x' = SegmentRecord.base_offset x ∧
  SegmentRecord.next_offset x' = SegmentRecord.next_offset x ∧
  SegmentRecord.content_root x' = SegmentRecord.content_root x ∧
  SegmentRecord.sealed_by_epoch x' = SegmentRecord.sealed_by_epoch x ∧
  ival (SegmentRecord.segment_generation x) <= ival (SegmentRecord.segment_generation x').

#[export] Instance segment_evolves_preorder : PreOrder segment_evolves.
Proof.
  split; [intros x; by split_and!|].
  intros x y z (?&?&?&?&?) (?&?&?&?&?). split_and!; try congruence. lia.
Qed.

Lemma set_state_evolves x st g :
  checked_succ (SegmentRecord.segment_generation x) = Some g →
  segment_evolves x (SegmentRecord.set_state st g x).
Proof. intros ?%checked_succ_u64. split_and!; simpl; try done. lia. Qed.

Lemma segment_kept s s' t r g x :
  mstep s s' → record s (MetaKey.Segment t r g) = Some (MetaValue.Segment x) →
  ∃ x', record s' (MetaKey.Segment t r g) = Some (MetaValue.Segment x') ∧ segment_evolves x x'.
Proof.
  intros Hstep Hr. step_cases Hstep.
  all: repeat case_match; rec_goal; try congruence.
  all: try (by exists x; split; [|reflexivity]).
  all: eexists; (split; [reflexivity|]); simplify_eq; by apply set_state_evolves.
Qed.

(** A segment that was not there is registered under the range's lease, below its
    barrier. *)
Lemma segment_fresh s s' t r g x :
  mstep s s' → record s (MetaKey.Segment t r g) = None →
  record s' (MetaKey.Segment t r g) = Some (MetaValue.Segment x) →
  ∃ range, record s (MetaKey.Range t r) = Some (MetaValue.Range range) ∧
    leased_at s t r (SegmentRecord.sealed_by_epoch x) ∧
    (∀ seal, RangeRecord.sealed_at range = Some seal →
       ival (SegmentRecord.next_offset x) <= ival (SealedParent.barrier_offset seal)) ∧
    ival (SegmentRecord.base_offset x) <= ival (SegmentRecord.next_offset x) ∧
    SegmentRecord.state x = SegmentState.SealedUnverified.
Proof.
  intros Hstep Hn Hr. step_cases Hstep.
  all: repeat case_match; rec_cases Hr; try congruence. eauto 10.
Qed.

Definition barriers_hold s : Prop :=
  ∀ t r range seal g x,
    record s (MetaKey.Range t r) = Some (MetaValue.Range range) →
    RangeRecord.sealed_at range = Some seal →
    record s (MetaKey.Segment t r g) = Some (MetaValue.Segment x) →
    ival (SegmentRecord.next_offset x) <= ival (SealedParent.barrier_offset seal).

Lemma barriers_step s s' : typed s → barriers_hold s → mstep s s' → barriers_hold s'.
Proof.
  intros Hty Hinv Hstep t r range' seal g x' Hr' Hseal Hx'.
  destruct (record s (MetaKey.Range t r)) as [v|] eqn:Hr.
  2: { destruct (range_fresh _ _ _ _ _ Hstep Hr Hr'). congruence. }
  destruct (typed_lookup s v Hty Hr) as [range ->].
  destruct (range_kept _ _ _ _ _ Hstep Hr) as (? & ? & _&_&_&_&_& Hkeep). simplify_eq.
  destruct (record s (MetaKey.Segment t r g)) as [w|] eqn:Hx.
  - destruct (typed_lookup s w Hty Hx) as [x ->].
    destruct (segment_kept _ _ _ _ _ _ Hstep Hx) as (? & ? & _ & Hnext & _). simplify_eq.
    rewrite Hnext. destruct (RangeRecord.sealed_at range) as [seal0|] eqn:Hs0.
    + rewrite (Hkeep _ eq_refl) in Hseal. simplify_eq. by eapply Hinv.
    + destruct (newly_sealed _ _ _ _ _ _ _ Hstep Hr Hs0 Hr' Hseal) as [[Hb _] _]. eauto.
  - destruct (segment_fresh _ _ _ _ _ _ Hstep Hx Hx') as (? & ? & _ & Hb & _). simplify_eq.
    destruct (RangeRecord.sealed_at range) as [seal0|] eqn:Hs0.
    + rewrite (Hkeep _ eq_refl) in Hseal. simplify_eq. by apply Hb.
    + destruct (newly_sealed _ _ _ _ _ _ _ Hstep Hr Hs0 Hr' Hseal) as (_ & Hsegs & _).
      rewrite Hsegs in Hx'. congruence.
Qed.

Lemma rstate_barriers s : rstate s → barriers_hold s.
Proof.
  apply rstate_ind; [intros ?????? Hr; by rewrite record_empty in Hr|].
  eauto using barriers_step, rstate_typed.
Qed.

End keyspace.

(** * Theorems *)

Section theorems.
Context `{Fmt, Blake3}.

(** C3. In every reachable state the unsealed ranges of a topic partition the routing
    keys: every 64-bit key is taken by exactly one of them. *)
Theorem keyspace_partitioned m t k :
  reachable m → record (MetaStateMachine.records m) (MetaKey.Topic t) ≠ None →
  ∃ r, serves (MetaStateMachine.records m) t r k ∧
    ∀ r', serves (MetaStateMachine.records m) t r' k → r' = r.
Proof.
  intros Hm Ht. destruct (rstate_partitioned _ (reachable_rstate _ Hm)) as [Hpart _]. eauto.
Qed.

(** C35. A sealed range never holds a segment that ends past its barrier, whether it
    was registered before the split or after it. *)
Theorem sealed_range_bounded m t r range seal g x :
  reachable m →
  record (MetaStateMachine.records m) (MetaKey.Range t r) = Some (MetaValue.Range range) →
  RangeRecord.sealed_at range = Some seal →
  record (MetaStateMachine.records m) (MetaKey.Segment t r g) = Some (MetaValue.Segment x) →
  ival (SegmentRecord.next_offset x) <= ival (SealedParent.barrier_offset seal).
Proof. intros Hm. by apply (rstate_barriers _ (reachable_rstate _ Hm)). Qed.

End theorems.
