(* ===== verification/Quorum.v ===== *)
(** Recorded replica sets: a change replaces one member of a set the range was
    led under, so any majority of the old set meets any majority of the new. *)

From stdpp Require Import prelude gmap strings list relations sorting.
From Stdlib Require Import ZArith Lia.
From S2P Require Import Prelude Wire Keys KeyRange Command Placement Records Flow.
From S2P Require Import LeaseOps GroupOps RangeOps SegmentOps RetentionOps Apply Steps.
From S2P Require Import Refine Invariants Reachable.
Import KeyCodec.

(** * Majorities of sets one member apart *)

(** A majority of [members]: distinct members, at least [majority] of them. *)
Definition is_quorum (q members : list Uuid) : Prop :=
  NoDup q ∧ q ⊆ members ∧ (majority members <= length q)%nat.

Lemma filter_in_out (l k : list Uuid) :
  (length (filter (λ x, x ∈ k) l) + length (filter (λ x, x ∉ k) l) = length l)%nat.
Proof.
  induction l as [|x l IH]; [done|]. rewrite !filter_cons.
  repeat case_decide; simpl; try tauto; lia.
Qed.

Lemma NoDup_subset_length {A} (l k : list A) : NoDup l → l ⊆ k → (length l <= length k)%nat.
Proof. intros Hl Hlk. apply submseteq_length, NoDup_submseteq; done. Qed.

(** Two distinct lists share as many elements counted from either side. *)
Lemma common_length (l k : list Uuid) :
  NoDup l → NoDup k →
  (length (filter (λ x, x ∈ k) l) = length (filter (λ x, x ∈ l) k))%nat.
Proof.
  intros Hl Hk. apply Nat.le_antisymm; apply NoDup_subset_length.
  1, 3: by apply NoDup_filter.
  all: intros x; rewrite !list_elem_of_filter; tauto.
Qed.

Lemma filter_nil_subset (l k : list Uuid) :
  length (filter (λ x, x ∉ k) l) = 0%nat → l ⊆ k.
Proof.
  intros Hnil%nil_length_inv x Hx. apply dec_stable. intros Hn.
  assert (x ∈ filter (λ x, x ∉ k) l) as Hin by by apply list_elem_of_filter.
  rewrite Hnil in Hin. by apply not_elem_of_nil in Hin.
Qed.

(** Sublists of [u] whose lengths exceed it together share an element. *)
Lemma pigeonhole (q1 q2 u : list Uuid) :
  NoDup q1 → NoDup q2 → q1 ⊆ u → q2 ⊆ u → (length u < length q1 + length q2)%nat →
  ∃ n, n ∈ q1 ∧ n ∈ q2.
Proof.
  intros Hnd1 Hnd2 H1 H2 Hlen.
  destruct (decide (Exists (λ n, n ∈ q2) q1)) as [Hex|Hno].
  { by apply Exists_exists in Hex. }
  exfalso. assert (length (q1 ++ q2) <= length u)%nat; [|rewrite length_app in *; lia].
  apply NoDup_subset_length; [|by apply list_subseteq_app_iff_l].
  apply NoDup_app. split_and!; [done| |done].
  intros n Hn1 Hn2. apply Hno, Exists_exists. eauto.
Qed.

Lemma majorities_intersect old new q1 q2 :
  NoDup old → NoDup new → changed_members new old = 1%nat →
  is_quorum q1 old → is_quorum q2 new → ∃ n, n ∈ q1 ∧ n ∈ q2.
Proof.
  unfold changed_members, is_quorum, majority.
  intros Ho Hn Hch (Hq1 & Hs1 & Hl1) (Hq2 & Hs2 & Hl2).
  pose proof (filter_in_out new old) as Hcn.
  pose proof (filter_in_out old new) as Hco.
  rewrite (common_length new old) in Hcn by done.
  pose proof (Nat.div_mod_eq (length old) 2). pose proof (Nat.mod_upper_bound (length old) 2).
  pose proof (Nat.div_mod_eq (length new) 2). pose proof (Nat.mod_upper_bound (length new) 2).
  destruct (length (filter (λ x, x ∉ old) new)) eqn:Hadd.
  - apply filter_nil_subset in Hadd. apply (pigeonhole q1 q2 old); try done; [by etrans|lia].
  - assert (length (filter (λ x, x ∉ new) old) = 0%nat) as Hdel by lia.
    apply filter_nil_subset in Hdel as Hsub.
    apply (pigeonhole q1 q2 new); try done; [by etrans|lia].
Qed.

(** * The recorded sets *)

Section sets.
Context `{Blake3}.
Implicit Types s : RecordMap.

Record set_ok s (t r : Uuid) (set : RangeReplicaSetRecord.t) : Prop := {
  set_nonempty : RangeReplicaSetRecord.members set ≠ [];
  set_distinct : NoDup (RangeReplicaSetRecord.members set);
  set_sorted : StronglySorted int_le (RangeReplicaSetRecord.members set);
  set_registered :
    Forall (λ n, record s (MetaKey.Node n) ≠ None) (RangeReplicaSetRecord.members set);
  set_range : ∃ x, record s (MetaKey.Range t r) = Some (MetaValue.Range x) ∧
    ival (RangeReplicaSetRecord.recorded_at_epoch set) <= ival (RangeRecord.fencing_epoch x)
}.

Definition sets_ok s : Prop :=
  ∀ t r set, record s (MetaKey.RangeReplicaSet t r) = Some (MetaValue.RangeReplicaSet set) →
    set_ok s t r set.

Lemma node_kept s s' n :
  mstep s s' → record s (MetaKey.Node n) ≠ None → record s' (MetaKey.Node n) ≠ None.
Proof. intros Hstep Hr. step_cases Hstep; repeat case_match; rec_goal; congruence. Qed.

Lemma set_ok_step s s' t r set : mstep s s' → set_ok s t r set → set_ok s' t r set.
Proof.
  intros Hstep [? ? ? Hn (x & Hx & He)]. split; try done.
  - eapply Forall_impl; [exact Hn|]. intros n. by apply node_kept.
  - destruct (range_kept _ _ _ _ _ Hstep Hx) as (x' & Hx' & _&_&_&_&?&_).
    exists x'. split; [done|lia].
Qed.

Lemma set_ok_recorded s t r range members current :
  let s' :=
    put (MetaKey.RangeReplicaSet t r)
      (MetaValue.RangeReplicaSet
         (RangeReplicaSetRecord.mk
            (wrapping_succ (from_option RangeReplicaSetRecord.generation zero current))
            members (RangeRecord.fencing_epoch range)))
      (put (MetaKey.Range t r) (MetaValue.Range (cleared_lease range)) s) in
  members ≠ [] → NoDup members → StronglySorted int_le members →
  Forall (λ n, record s (MetaKey.Node n) ≠ None) members →
  set_ok s' t r
    (RangeReplicaSetRecord.mk
       (wrapping_succ (from_option RangeReplicaSetRecord.generation zero current))
       members (RangeRecord.fencing_epoch range)).
Proof.
  intros s' ? ? ? Hn. split; simpl; try done.
  - eapply Forall_impl; [exact Hn|]. intros n. unfold s'. by rec_simpl.
  - exists (cleared_lease range). unfold s'. rec_simpl. by rewrite cleared_lease_epoch.
Qed.

(** The children of a split inherit their parent's set. *)
Lemma set_ok_inherited args parent left right set s t r :
  sets_ok s →
  record s (MetaKey.RangeReplicaSet (SplitRangeArgs.topic_uuid args)
              (SplitRangeArgs.parent_range_uuid args))
    = Some (MetaValue.RangeReplicaSet set) →
  t = SplitRangeArgs.topic_uuid args →
  r = SplitRangeArgs.left_range_uuid args ∨ r = SplitRangeArgs.right_range_uuid args →
  set_ok (split_effect args parent left right (Some set) s) t r
    (RangeReplicaSetRecord.mk one (RangeReplicaSetRecord.members set) zero).
Proof.
  intros Hinv Hset -> Hr. destruct (Hinv _ _ _ Hset) as [? ? ? Hn _]. split; simpl; try done.
  - eapply Forall_impl; [exact Hn|]. intros n. unfold split_effect, inherit. by rec_simpl.
  - rewrite split_effect_ranges. unfold split_child.
    destruct (decide (SplitRangeArgs.right_range_uuid args = r)) as [<-|Hne].
    + rewrite decide_True by done. by eexists.
    + destruct Hr as [->|]; [|congruence].
      rewrite decide_False, decide_True by congruence. by eexists.
Qed.

Lemma sets_ok_step s s' : sets_ok s → mstep s s' → sets_ok s'.
Proof.
  intros Hinv Hstep t r set' Hset.
  destruct (decide (record s (MetaKey.RangeReplicaSet t r)
                    = Some (MetaValue.RangeReplicaSet set'))) as [Hold|Hnew].
  { eapply set_ok_step; eauto. }
  destruct Hstep; try (step_cases I; repeat case_match; rec_cases Hset; congruence).
  all: unfold topic_created, group_created in Hset.
  all: repeat match goal with y := _ : RecordMap |- _ => subst y end.
  all: try (repeat case_match; rec_cases Hset; congruence).
  - rec_cases Hset; [by apply set_ok_recorded|congruence].
  - destruct set as [set|]; unfold split_effect, inherit in Hset.
    + rec_cases Hset; first [congruence|apply set_ok_inherited; eauto].
    + rec_cases Hset; congruence.
Qed.

Lemma rstate_sets s : rstate s → sets_ok s.
Proof.
  apply rstate_ind; [intros ? ? ? Hr; by rewrite record_empty in Hr|].
  eauto using sets_ok_step.
Qed.

(** * Evidence that a set was led under *)

(** A promotion at [epoch] whose leader is in the set and whose whole log a
    majority of the set answered for; a promotion without a quorum counts only for
    a set of its leader alone. *)
Definition led_under (members : list Uuid) (tr : RangeTransitionRecord.t) : Prop :=
  ∃ boundary prefix quorum votes required at_ms index,
    RangeTransitionRecord.outcome tr =
      TransitionOutcome.Reported
        (PromotionOutcome.Established boundary prefix quorum votes required) at_ms index ∧
    ((quorum = [] ∧ members = [RangeTransitionRecord.holder_to tr]) ∨
     RangeTransitionRecord.holder_to tr ∈ members ∧
     ∃ own, own ∈ quorum ∧ QuorumAnswer.node_uuid own = RangeTransitionRecord.holder_to tr ∧
       ∃ q, is_quorum q members ∧
         ∀ n, n ∈ q → ∃ answer, answer ∈ quorum ∧ QuorumAnswer.node_uuid answer = n ∧
           ival (QuorumAnswer.offset own) <= ival (QuorumAnswer.offset answer)).

Lemma establishes_led members v :
  NoDup members → establishes members v = true → ∃ tr, v = MetaValue.RangeTransition tr ∧ led_under members tr.
Proof.
  intros Hnd He. destruct v as [| | | | | | | | | | | | | | |tr| | |]; try done.
  destruct tr as [from to hf holder grant at_ms index [|[boundary prefix quorum votes required|] rat ri]];
    try done. simpl in He.
  eexists. split; [done|]. exists boundary, prefix, quorum, votes, required, rat, ri.
  split; [done|]. simpl. destruct quorum as [|a quorum].
  { left. by apply bool_decide_eq_true in He. }
  right. case_decide; [|done]. split; [done|].
  destruct (list_find _ (a :: quorum)) as [[i own]|] eqn:Hown; [|done].
  apply list_find_Some in Hown as (Hi & Hnode & _). apply bool_decide_eq_true in He.
  exists own. split; [by eapply list_elem_of_lookup_2|]. split; [done|].
  exists (holding members (a :: quorum) (QuorumAnswer.offset own)). split.
  - split_and!; [by apply NoDup_filter| |done].
    intros n. unfold holding. rewrite list_elem_of_filter. tauto.
  - intros n [Hex _]%list_elem_of_filter. apply Exists_exists in Hex as (answer & ? & ? & ?). eauto.
Qed.

Lemma established_led s t r set :
  typed s → NoDup (RangeReplicaSetRecord.members set) → established_under s t r set = true →
  ∃ e tr, record s (MetaKey.RangeTransition t r e) = Some (MetaValue.RangeTransition tr) ∧
    ival (RangeReplicaSetRecord.recorded_at_epoch set) < ival e ∧
    led_under (RangeReplicaSetRecord.members set) tr.
Proof.
  intros Hty Hnd He. unfold established_under in He.
  destruct (checked_succ _) as [from|] eqn:Hfrom; [|done]. apply checked_succ_u64 in Hfrom.
  apply existsb_exists in He as ([bs v] & Hin%list_elem_of_In & Hv).
  apply establishes_led in Hv as (tr & Hv & Hled); [|done]. simpl in Hv. subst v.
  apply elem_of_btree_range in Hin as (Hlookup & Hlo & Hhi).
  destruct (proj1 Hty bs _ Hlookup) as (key & _ & ->).
  destruct (transition_keys_contiguous _ _ _ _ _ Hlo Hhi) as [e ->].
  exists e, tr. rewrite record_lookup. split_and!; [done| |done].
  pose proof (transition_key_le t r from e) as Hle. unfold MetaKey.key_le in Hle.
  rewrite Hlo in Hle. symmetry in Hle. apply bool_decide_eq_true in Hle. lia.
Qed.

End sets.

(** * Theorems *)

Section theorems.
Context `{Fmt, Blake3}.

(** Every recorded replica set is a sorted list of distinct registered nodes, not
    empty, recorded at an epoch the range has reached. *)
Theorem replica_sets_valid m t r set :
  reachable m →
  record (MetaStateMachine.records m) (MetaKey.RangeReplicaSet t r)
    = Some (MetaValue.RangeReplicaSet set) →
  set_ok (MetaStateMachine.records m) t r set.
Proof. intros Hm. by apply (rstate_sets _ (reachable_rstate _ Hm)). Qed.

(** C18. A change of a recorded replica set that succeeds was preceded by a promotion
    led under the old set, clears the lease, and leaves a set every majority of
    which meets every majority of the old one. *)
Theorem replica_set_change_safe m t r members g gen s' set set' :
  reachable m →
  run (set_range_replica_set t r members g) (MetaStateMachine.records m)
    = Some (MetadataResponse.Ack gen, s') →
  record (MetaStateMachine.records m) (MetaKey.RangeReplicaSet t r)
    = Some (MetaValue.RangeReplicaSet set) →
  record s' (MetaKey.RangeReplicaSet t r) = Some (MetaValue.RangeReplicaSet set') →
  set' ≠ set →
  (∃ x, record s' (MetaKey.Range t r) = Some (MetaValue.Range x) ∧ RangeRecord.lease x = None) ∧
  (∃ e tr, record (MetaStateMachine.records m) (MetaKey.RangeTransition t r e)
             = Some (MetaValue.RangeTransition tr) ∧
     ival (RangeReplicaSetRecord.recorded_at_epoch set) < ival e ∧
     led_under (RangeReplicaSetRecord.members set) tr) ∧
  (∀ q1 q2, is_quorum q1 (RangeReplicaSetRecord.members set) →
     is_quorum q2 (RangeReplicaSetRecord.members set') → ∃ n, n ∈ q1 ∧ n ∈ q2).
Proof.
  intros Hm Hrun Hset. pose proof (reachable_rstate _ Hm) as Hs.
  pose proof (rstate_typed _ Hs) as Hty.
  destruct (rstate_sets _ Hs _ _ _ Hset) as [_ Hnd _ _ _].
  wp_of_run Hrun. set (s := MetaStateMachine.records m) in *.
  assert (range_replica_set s t r = Some set) as Hcur
    by (unfold range_replica_set; by rewrite Hset).
  unfold set_range_replica_set, replica_set_change_guard. wp_steps; try congruence.
  all: try (intros Hset' Hne; exfalso; congruence).
  intros Hset' _. rec_simpl_in Hset'. simplify_eq. split_and!.
  - exists (cleared_lease a). rec_simpl. by rewrite cleared_lease_none.
  - apply established_led; [done|done|by apply not_false_is_true].
  - simpl. intros q1 q2. apply majorities_intersect; [done|apply sort_dedup_facts|].
    by apply dec_stable.
Qed.

End theorems.
