(* ===== verification/Promotion.v ===== *)
(** Verified promotion ([crates/vtop-node/src/promotion.rs]): what a replica that won
    the lease of a range must establish before it serves.

    [establish] reads the fenced replicas' offsets and answers with the boundary a
    majority proves, or with the reason the candidate may not lead.  The safety
    argument is Raft's election restriction: a candidate that a majority of the whole
    replica set could have voted for holds every record a majority acknowledged. *)

From stdpp Require Import prelude gmap list sorting.
From Stdlib Require Import ZArith Lia.
From S2P Require Import Prelude Wire Quorum.

Module ReplicaProbe.
Record t := mk { node_id : Uuid; local_committed_offset : option u64 }.
End ReplicaProbe.

Module Promotion.

Inductive t :=
  | Established (committed_offset : u64) (answered : gmap Uuid u64)
  | QuorumUnavailable (answered required : nat)
  | LeaderBehind (committed_offset : u64) (leader_committed_offset : option u64)
  | CandidateBehindVoters (candidate_offset : u64) (votes required : nat)
      (most_complete : Uuid * u64)
  | BelowPublished (committed_offset published_floor : u64) (most_complete : Uuid * u64).

Definition majority (replica_count : nat) : nat := (replica_count / 2 + 1)%nat.

(** The [BTreeMap] of the replicas that answered. *)
Definition record_probe (answered : gmap Uuid u64) (probe : ReplicaProbe.t) : gmap Uuid u64 :=
  match ReplicaProbe.local_committed_offset probe with
  | Some offset => <[ReplicaProbe.node_id probe := offset]> answered
  | None => answered
  end.
Definition collect (probes : list ReplicaProbe.t) : gmap Uuid u64 := foldl record_probe ∅ probes.

(** [answered.iter()], in the order of the node ids. *)
Definition by_id : relation (Uuid * u64) := λ a b, ival a.1 <= ival b.1.
#[global] Instance by_id_dec : RelDecision by_id := λ a b, decide (ival a.1 <= ival b.1).
Definition iter (answered : gmap Uuid u64) : list (Uuid * u64) :=
  stable_sort by_id (map_to_list answered).

(** [offsets.sort_unstable_by(|a, b| b.cmp(a))] *)
Definition int_ge : relation u64 := λ a b, ival b <= ival a.
#[global] Instance int_ge_dec : RelDecision int_ge := λ a b, decide (ival b <= ival a).
Definition descending (answered : gmap Uuid u64) : list u64 :=
  stable_sort int_ge ((iter answered).*2).

(** [max_by_key]: the last of the entries with the highest offset. *)
Definition most_complete (answered : gmap Uuid u64) : option (Uuid * u64) :=
  foldl
    (λ best entry,
       match best with
       | Some held => if decide (ival held.2 <= ival entry.2) then Some entry else best
       | None => Some entry
       end) None (iter answered).

(** The election restriction and the candidate's own log, once the boundary is
    known; [None] is the [expect] of a quorum with no member. *)
Definition decide_candidate (answered : gmap Uuid u64) (required : nat) (leader_id : Uuid)
    (committed_offset : u64) : option t :=
  match answered !! leader_id with
  | None => Some (LeaderBehind committed_offset None)
  | Some candidate_offset =>
      if decide (ival candidate_offset < ival committed_offset)
      then Some (LeaderBehind committed_offset (Some candidate_offset))
      else
        let votes :=
          length (filter (λ offset : u64, ival offset <= ival candidate_offset)
                    ((iter answered).*2)) in
        if decide (votes < required)%nat then
          best ← most_complete answered;
          Some (CandidateBehindVoters candidate_offset votes required best)
        else Some (Established committed_offset answered)
  end.

(** The published watermark: a boundary under it is raised to it for a candidate that
    holds it, and refused to any other ([inr]). *)
Definition raise_to_floor (answered : gmap Uuid u64) (leader_id : Uuid)
    (published_floor : option u64) (committed_offset : u64) : option (u64 + t) :=
  match published_floor with
  | None => Some (inl committed_offset)
  | Some floor =>
      if decide (ival committed_offset < ival floor) then
        match answered !! leader_id with
        | Some held =>
            if decide (ival floor <= ival held) then Some (inl floor)
            else best ← most_complete answered;
                 Some (inr (BelowPublished committed_offset floor best))
        | None =>
            best ← most_complete answered;
            Some (inr (BelowPublished committed_offset floor best))
        end
      else Some (inl committed_offset)
  end.

Definition establish (probes : list ReplicaProbe.t) (replication_factor : nat)
    (leader_id : Uuid) (published_floor : option u64) : option t :=
  let required := majority replication_factor in
  let answered := collect probes in
  if decide (size answered < required)%nat
  then Some (QuorumUnavailable (size answered) required)
  else
    committed_offset ← descending answered !! (required - 1)%nat;
    raised ← raise_to_floor answered leader_id published_floor committed_offset;
    match raised with
    | inr refused => Some refused
    | inl boundary => decide_candidate answered required leader_id boundary
    end.

(** * Counting answers *)

(** How many of the answers satisfy [P]. *)
Definition count (P : u64 → Prop) `{!∀ o, Decision (P o)} (answered : gmap Uuid u64) : nat :=
  length (filter P ((iter answered).*2)).

#[global] Instance int_ge_total : Total int_ge.
Proof. intros a b. unfold int_ge. lia. Qed.
#[global] Instance int_ge_trans : Transitive int_ge.
Proof. intros a b c. unfold int_ge. lia. Qed.

Lemma iter_Permutation answered : iter answered ≡ₚ map_to_list answered.
Proof. apply stable_sort_Permutation. Qed.

Lemma elem_of_iter answered n o : (n, o) ∈ iter answered ↔ answered !! n = Some o.
Proof. rewrite iter_Permutation. apply elem_of_map_to_list. Qed.

Lemma length_iter answered : length (iter answered) = size answered.
Proof. by rewrite iter_Permutation, length_map_to_list. Qed.

(** The replicas whose answer satisfies [P], each once. *)
Definition voters (P : u64 → Prop) `{!∀ o, Decision (P o)} (answered : gmap Uuid u64)
    : list Uuid :=
  (filter (λ e, P e.2) (iter answered)).*1.

Lemma count_voters P `{!∀ o, Decision (P o)} answered :
  count P answered = length (voters P answered).
Proof.
  unfold count, voters. rewrite !length_fmap. induction (iter answered) as [|[n o] l IH]; [done|].
  rewrite fmap_cons, !filter_cons. simpl. case_decide; simpl; by rewrite IH.
Qed.

Lemma voters_NoDup P `{!∀ o, Decision (P o)} answered : NoDup (voters P answered).
Proof.
  unfold voters. apply NoDup_fmap_2_strong.
  - intros [n o] [n' o'] [_ H1]%list_elem_of_filter [_ H2]%list_elem_of_filter Hn. simpl in Hn.
    subst n'. apply elem_of_iter in H1, H2. congruence.
  - apply NoDup_filter. rewrite iter_Permutation. apply NoDup_map_to_list.
Qed.

Lemma elem_of_voters P `{!∀ o, Decision (P o)} answered n :
  n ∈ voters P answered ↔ ∃ o, answered !! n = Some o ∧ P o.
Proof.
  unfold voters. rewrite list_elem_of_fmap. split.
  - intros ([n' o] & -> & [HP Hin]%list_elem_of_filter). exists o. by rewrite <-elem_of_iter.
  - intros (o & Ho & HP). exists (n, o). split; [done|]. apply list_elem_of_filter.
    by rewrite elem_of_iter.
Qed.

Lemma filter_no_voter {A} (P : A → Prop) `{!∀ a, Decision (P a)} l :
  Forall (λ a, ¬ P a) l → filter P l = [].
Proof. induction 1 as [|a l Ha _ IH]; [done|]. by rewrite filter_cons, decide_False. Qed.

Lemma filter_all {A} (P : A → Prop) `{!∀ a, Decision (P a)} l : Forall P l → filter P l = l.
Proof. induction 1 as [|a l Ha _ IH]; [done|]. by rewrite filter_cons, decide_True, IH. Qed.

(** In a descending list at least [k] elements reach the [k]-th, and fewer than [k]
    exceed it. *)
Lemma kth_descending (l : list u64) k x :
  StronglySorted int_ge l → l !! k = Some x →
  (k < length (filter (λ y : u64, (ival x <= ival y)%Z) l))%nat ∧
  (length (filter (λ y : u64, (ival x < ival y)%Z) l) <= k)%nat.
Proof.
  intros Hs. revert k. induction Hs as [|a l Hs IH Ha]; intros k Hk; [done|].
  rewrite !filter_cons. destruct k as [|k]; simpl in Hk.
  - injection Hk as ->. rewrite decide_True, decide_False by lia. split; [simpl; lia|].
    rewrite filter_no_voter; [done|]. eapply Forall_impl; [exact Ha|]. unfold int_ge. lia.
  - destruct (IH k Hk) as [Hle Hlt].
    assert (ival x <= ival a) by (eapply Forall_lookup_1 in Ha; [|done]; exact Ha).
    rewrite decide_True by done. case_decide; simpl; lia.
Qed.

Lemma descending_sorted answered : StronglySorted int_ge (descending answered).
Proof. apply stable_sort_sorted; apply _. Qed.

Lemma kth_count answered k x :
  descending answered !! k = Some x →
  (k < count (λ y : u64, (ival x <= ival y)%Z) answered)%nat ∧
  (count (λ y : u64, (ival x < ival y)%Z) answered <= k)%nat.
Proof.
  intros Hk. destruct (kth_descending _ _ _ (descending_sorted answered) Hk).
  unfold count, descending in *. by rewrite <-!(stable_sort_Permutation int_ge ((iter answered).*2)).
Qed.

Lemma descending_lookup answered k : (k < size answered)%nat → is_Some (descending answered !! k).
Proof.
  intros Hk. apply lookup_lt_is_Some. unfold descending.
  by rewrite stable_sort_Permutation, length_fmap, length_iter.
Qed.

(** The most complete replica is one that answered, and none answered more. *)
Lemma most_complete_spec answered :
  answered ≠ ∅ → ∃ best, most_complete answered = Some best ∧
    answered !! best.1 = Some best.2 ∧
    ∀ n o, answered !! n = Some o → ival o <= ival best.2.
Proof.
  intros Hne. setoid_rewrite <-elem_of_iter. unfold most_complete.
  set (step := λ best (entry : Uuid * u64), _).
  assert (∀ l b, ∃ best, foldl step (Some b) l = Some best ∧ best ∈ b :: l ∧
    ∀ e, e ∈ b :: l → ival e.2 <= ival best.2) as Hfold.
  { induction l as [|e l IH]; intros b.
    - exists b. split_and!; [done|by left|]. intros e ->%list_elem_of_singleton. lia.
    - simpl. case_decide as Hd; [destruct (IH e) as (best & Hb & Hin & Hmax)
        |destruct (IH b) as (best & Hb & Hin & Hmax)]; exists best.
      all: split_and!; [done|by set_solver|]; intros e' He'.
      + apply elem_of_cons in He' as [->|He']; [|by apply Hmax].
        assert (ival e.2 <= ival best.2) by (apply Hmax; by left). lia.
      + apply elem_of_cons in He' as [->|He']; [by apply Hmax; left|].
        apply elem_of_cons in He' as [->|He']; [|by apply Hmax; right].
        assert (ival b.2 <= ival best.2) by (apply Hmax; by left). lia. }
  pose proof (length_iter answered) as Hlen. destruct (iter answered) as [|b l].
  { exfalso. apply Hne, map_size_empty_inv. simpl in Hlen. lia. }
  destruct (Hfold l b) as (best & Hb & Hin & Hmax). exists best. split_and!; [done| |].
  - by destruct best.
  - intros n o Hno. by apply (Hmax (n, o)).
Qed.

(** * What promotion establishes *)

(** The boundary the answers prove: the highest offset that a majority of the replica
    set can vouch for, or the published watermark when that is higher. *)
Definition proven (required : nat) (published_floor : option u64) (boundary : u64)
    (answered : gmap Uuid u64) : Prop :=
  (∀ floor, published_floor = Some floor → ival floor <= ival boundary) ∧
  (published_floor = Some boundary ∧
   (count (λ o : u64, (ival boundary <= ival o)%Z) answered < required)%nat ∨
   (required <= count (λ o : u64, (ival boundary <= ival o)%Z) answered)%nat ∧
   (count (λ o : u64, (ival boundary < ival o)%Z) answered < required)%nat).

(** The candidate may lead from the boundary: it holds it, and a majority of the whole
    replica set answered at or below the candidate. *)
Definition may_lead (required : nat) (leader_id : Uuid) (boundary : u64)
    (answered : gmap Uuid u64) : Prop :=
  ∃ candidate,
    answered !! leader_id = Some candidate ∧ ival boundary <= ival candidate ∧
    (required <= count (λ o : u64, (ival o <= ival candidate)%Z) answered)%nat.

Lemma decide_candidate_spec answered required leader_id boundary :
  answered ≠ ∅ → ∃ p, decide_candidate answered required leader_id boundary = Some p ∧
    (∀ b ans, p = Established b ans ↔
       b = boundary ∧ ans = answered ∧ may_lead required leader_id boundary answered).
Proof.
  intros Hne. unfold decide_candidate, may_lead.
  destruct (answered !! leader_id) as [c|] eqn:Hc.
  2: { eexists. split; [done|]. intros. split; [done|]. by intros (_ & _ & ? & ? & _). }
  case_decide as Hb.
  { eexists. split; [done|]. intros. split; [done|]. intros (_ & _ & ? & [= <-] & ? & _). lia. }
  case_decide as Hv.
  { destruct (most_complete_spec answered Hne) as (best & -> & _). eexists. split; [done|].
    intros. split; [done|]. intros (_ & _ & ? & [= <-] & _ & ?). unfold count in *. lia. }
  eexists. split; [done|]. intros b ans. split.
  - intros [= <- <-]. split_and!; [done|done|]. exists c. unfold count. split_and!; [done|lia|lia].
  - by intros (-> & -> & _).
Qed.

Lemma majority_pos n : (0 < majority n)%nat.
Proof. unfold majority. lia. Qed.

Lemma two_majorities n : (n < majority n + majority n)%nat.
Proof.
  unfold majority. pose proof (Nat.div_mod n 2). pose proof (Nat.mod_upper_bound n 2). lia.
Qed.

Lemma quorum_nonempty n (answered : gmap Uuid u64) :
  ¬ (size answered < majority n)%nat → answered ≠ ∅.
Proof. pose proof (majority_pos n). intros Hq ->. rewrite map_size_empty in Hq. lia. Qed.

Lemma count_mono (P Q : u64 → Prop) `{!∀ o, Decision (P o), !∀ o, Decision (Q o)} answered :
  (∀ o, P o → Q o) → (count P answered <= count Q answered)%nat.
Proof.
  intros HPQ. unfold count. induction ((iter answered).*2) as [|o l IH]; [done|].
  rewrite !filter_cons. repeat case_decide; simpl; try lia. exfalso; auto.
Qed.

(** The [k]-th highest answer is the highest offset that [k] answers reach. *)
Lemma kth_reached answered required kth (b : u64) :
  (0 < required)%nat → descending answered !! (required - 1)%nat = Some kth →
  ((required <= count (λ o : u64, (ival b <= ival o)%Z) answered)%nat ↔ ival b <= ival kth) ∧
  ((count (λ o : u64, (ival b < ival o)%Z) answered < required)%nat ↔ ival kth <= ival b).
Proof.
  intros Hr [Hge Hgt]%kth_count. split; (split; [intros Hc; apply Z.nlt_ge; intros Hlt|intros Hle]).
  - assert (count (λ o : u64, (ival b <= ival o)%Z) answered <= count (λ o : u64, (ival kth < ival o)%Z) answered)%nat
      by (apply count_mono; intros; lia). lia.
  - assert (count (λ o : u64, (ival kth <= ival o)%Z) answered <= count (λ o : u64, (ival b <= ival o)%Z) answered)%nat
      by (apply count_mono; intros; lia). lia.
  - assert (count (λ o : u64, (ival kth <= ival o)%Z) answered <= count (λ o : u64, (ival b < ival o)%Z) answered)%nat
      by (apply count_mono; intros; lia). lia.
  - assert (count (λ o : u64, (ival b < ival o)%Z) answered <= count (λ o : u64, (ival kth < ival o)%Z) answered)%nat
      by (apply count_mono; intros; lia). lia.
Qed.

Lemma raise_to_floor_spec answered leader_id floor kth :
  answered ≠ ∅ → ∃ r, raise_to_floor answered leader_id floor kth = Some r ∧
    match r with
    | inl b =>
        b = kth ∧ (∀ f, floor = Some f → ival f <= ival kth) ∨
        floor = Some b ∧ ival kth < ival b
    | inr p =>
        (∀ b ans, p ≠ Established b ans) ∧
        ∃ f, floor = Some f ∧ ival kth < ival f ∧
          ∀ held, answered !! leader_id = Some held → ival held < ival f
    end.
Proof.
  intros Hne. destruct (most_complete_spec answered Hne) as (best & Hbest & _).
  unfold raise_to_floor. rewrite Hbest. destruct floor as [f|].
  2: { eexists. split; [done|]. by left. }
  case_decide as Hf.
  2: { eexists. split; [done|]. left. split; [done|]. intros ? [= <-]. lia. }
  destruct (answered !! leader_id) as [held|]; [case_decide as Hh|].
  - eexists. split; [done|]. by right.
  - eexists. split; [done|]. split; [done|]. exists f. split_and!; [done|done|]. intros ? [= <-]. lia.
  - eexists. split; [done|]. split; [done|]. by exists f.
Qed.

Lemma proven_kth answered required kth floor b :
  (0 < required)%nat → descending answered !! (required - 1)%nat = Some kth →
  proven required floor b answered ↔
    b = kth ∧ (∀ f, floor = Some f → ival f <= ival kth) ∨ floor = Some b ∧ ival kth < ival b.
Proof.
  intros Hr Hk. destruct (kth_reached answered required kth b Hr Hk) as [Hge Hgt]. unfold proven.
  rewrite Hgt, Hge, <-Nat.nle_gt, Hge. split.
  - intros [Hf [[Hb Hlt]|[? ?]]]; [right; split; [done|lia]|].
    assert (b = kth) as -> by (apply int_eq; lia). by left.
  - intros [[-> Hf]|[-> Hlt]]; [by split; [|right]|].
    split; [|left; split; [done|lia]]. intros ? [= <-]. lia.
Qed.

Lemma count_size P `{!∀ o, Decision (P o)} answered : (count P answered <= size answered)%nat.
Proof. unfold count. etrans; [apply length_filter|]. by rewrite length_fmap, length_iter. Qed.

Lemma establish_spec probes replication_factor leader_id published_floor :
  ∃ p, establish probes replication_factor leader_id published_floor = Some p ∧
    ∀ boundary answered,
      p = Established boundary answered ↔
      answered = collect probes ∧
      proven (majority replication_factor) published_floor boundary answered ∧
      may_lead (majority replication_factor) leader_id boundary answered.
Proof.
  unfold establish. set (required := majority replication_factor). set (ans := collect probes).
  pose proof (majority_pos replication_factor) as Hpos. fold required in Hpos.
  case_decide as Hq.
  { eexists. split; [done|]. intros b a. split; [done|]. intros (-> & _ & c & _ & _ & Hv).
    pose proof (count_size (λ o : u64, (ival o <= ival c)%Z) ans). lia. }
  pose proof (quorum_nonempty replication_factor ans Hq) as Hne.
  destruct (descending_lookup ans (required - 1)) as [kth Hkth]; [lia|]. rewrite Hkth.
  destruct (raise_to_floor_spec ans leader_id published_floor kth Hne) as (r & Hr & Hspec).
  simpl. rewrite Hr. simpl. destruct r as [boundary|p].
  - destruct (decide_candidate_spec ans required leader_id boundary Hne) as (p & Hp & Hiff).
    exists p. split; [done|]. intros b a. rewrite Hiff. split.
    + intros (-> & -> & Hlead). by rewrite (proven_kth ans required kth).
    + intros (-> & Hb & Hlead). rewrite (proven_kth ans required kth) in Hb by done.
      assert (b = boundary) as ->; [|done]. destruct Hspec as [[-> Hs]|[Hs ?]], Hb as [[-> Hb]|[Hb ?]];
        try done; [specialize (Hs _ Hb); lia|specialize (Hb _ Hs); lia|congruence].
  - destruct Hspec as [Hno (f & Hf & Hlt & Hheld)]. exists p. split; [done|].
    intros b a. split; [by intros ?%Hno|]. intros (-> & Hb & c & Hc & Hbc & _).
    rewrite (proven_kth ans required kth) in Hb by done. apply Hheld in Hc.
    destruct Hb as [[-> Hb]|[Hb ?]]; [specialize (Hb _ Hf); lia|]. simplify_eq. lia.
Qed.

(** Promotion is total and exact: it always answers, and it lets the candidate lead from
    a boundary precisely when the answers prove that boundary and the candidate may lead
    from it. *)
Theorem establish_exact probes replication_factor leader_id published_floor :
  ∃ p, establish probes replication_factor leader_id published_floor = Some p ∧
    ∀ boundary answered,
      p = Established boundary answered ↔
      answered = collect probes ∧
      proven (majority replication_factor) published_floor boundary answered ∧
      may_lead (majority replication_factor) leader_id boundary answered.
Proof. apply establish_spec. Qed.

Lemma establish_Established probes replication_factor leader_id floor boundary answered :
  establish probes replication_factor leader_id floor = Some (Established boundary answered) →
  answered = collect probes ∧ proven (majority replication_factor) floor boundary answered ∧
  may_lead (majority replication_factor) leader_id boundary answered.
Proof.
  intros Hest. destruct (establish_spec probes replication_factor leader_id floor)
    as (p & Hp & Hiff). apply Hiff. congruence.
Qed.

Lemma elem_of_descending answered o : o ∈ descending answered → ∃ n, answered !! n = Some o.
Proof.
  unfold descending. rewrite stable_sort_Permutation, list_elem_of_fmap.
  intros ([n o'] & -> & Hin%elem_of_iter). by exists n.
Qed.

Lemma count_all P `{!∀ o, Decision (P o)} answered :
  (∀ n o, answered !! n = Some o → P o) → count P answered = size answered.
Proof.
  intros HP. rewrite count_voters. unfold voters. rewrite length_fmap, <-length_iter.
  f_equal. apply filter_all, Forall_forall. intros [n o] Hin%elem_of_iter. by apply (HP n).
Qed.

(** C33. Some candidate can always be promoted: when a majority answers and one of the answers
    reaches the published watermark, the replica that holds the most is established. *)
Theorem most_complete_leads probes replication_factor published_floor :
  (majority replication_factor <= size (collect probes))%nat →
  (∀ f, published_floor = Some f → ∃ n o, collect probes !! n = Some o ∧ ival f <= ival o) →
  ∃ best boundary, most_complete (collect probes) = Some best ∧
    establish probes replication_factor best.1 published_floor
    = Some (Established boundary (collect probes)).
Proof.
  intros Hq Hfloor. set (ans := collect probes) in *.
  assert (¬ (size ans < majority replication_factor)%nat) as Hq' by lia.
  pose proof (quorum_nonempty replication_factor ans Hq') as Hne.
  destruct (most_complete_spec ans Hne) as ([best top] & Hbest & Hin & Hmax). simpl in *.
  pose proof (majority_pos replication_factor) as Hpos.
  destruct (descending_lookup ans (majority replication_factor - 1)) as [kth Hkth]; [lia|].
  assert (ival kth <= ival top) as Hkt.
  { apply list_elem_of_lookup_2, elem_of_descending in Hkth as [n Hn]. by apply (Hmax n). }
  assert (∃ boundary, proven (majority replication_factor) published_floor boundary ans ∧
    ival boundary <= ival top) as (boundary & Hproven & Htop).
  { setoid_rewrite (proven_kth ans _ kth published_floor _ Hpos Hkth).
    destruct published_floor as [f|]; [|exists kth; split; [by left|done]].
    destruct (Hfloor f eq_refl) as (n & o & Ho & Hfo). specialize (Hmax n o Ho).
    destruct (Z_le_gt_dec (ival f) (ival kth)).
    - exists kth. split; [left; split; [done|by intros ? [= <-]]|done].
    - exists f. split; [right; split; [done|lia]|lia]. }
  exists (best, top), boundary. split; [done|]. simpl.
  destruct (establish_spec probes replication_factor best published_floor) as (p & -> & Hp).
  f_equal. apply Hp. split_and!; [done|done|]. exists top. split_and!; [done|done|].
  rewrite count_all; [done|]. intros n o. apply Hmax.
Qed.

(** * Acknowledged records *)

Section acknowledged.
(** The replica set of the range and the offset each replica has on disk. *)
Context (replicas : list Uuid) (held : Uuid → u64).

(** A majority of the replicas holds everything below [offset]. *)
Definition acknowledged (offset : u64) : Prop :=
  ∃ holders, NoDup holders ∧ holders ⊆ replicas ∧
    (majority (length replicas) <= length holders)%nat ∧
    ∀ n, n ∈ holders → ival offset <= ival (held n).

(** A fenced replica reports what it has. *)
Definition honest (probes : list ReplicaProbe.t) : Prop :=
  ∀ probe offset, probe ∈ probes → ReplicaProbe.local_committed_offset probe = Some offset →
    ReplicaProbe.node_id probe ∈ replicas ∧ offset = held (ReplicaProbe.node_id probe).

Lemma collect_honest probes n o :
  honest probes → collect probes !! n = Some o → n ∈ replicas ∧ o = held n.
Proof.
  intros Hh. unfold collect.
  assert (∀ acc : gmap Uuid u64, (∀ n o, acc !! n = Some o → n ∈ replicas ∧ o = held n) →
    foldl record_probe acc probes !! n = Some o → n ∈ replicas ∧ o = held n) as Hfold;
    [|apply Hfold; intros ? ?; by rewrite lookup_empty].
  induction probes as [|p probes IH]; intros acc Hacc; simpl; [apply Hacc|].
  apply IH; [intros q o' Hq; apply Hh; by right|]. intros n' o'.
  unfold record_probe. destruct (ReplicaProbe.local_committed_offset p) eqn:Hp; [|apply Hacc].
  rewrite lookup_insert. case_decide as Hn; [|apply Hacc]. intros [= <-]. subst n'.
  apply Hh; [by left|done].
Qed.

(** C9. The election restriction.  When the probes come from the range's own replicas and
    report what they hold, a candidate that is allowed to lead holds every record that a
    majority of the replica set acknowledged, whichever majority that was. *)
Theorem leader_holds_acknowledged probes leader_id floor boundary answered offset :
  honest probes → acknowledged offset →
  establish probes (length replicas) leader_id floor = Some (Established boundary answered) →
  ival offset <= ival (held leader_id).
Proof.
  intros Hh (holders & Hnd & Hsub & Hlen & Hheld) Hest.
  destruct (establish_Established probes (length replicas) leader_id floor boundary answered Hest)
    as (-> & _ & c & Hc & _ & Hv).
  rewrite count_voters in Hv.
  destruct (pigeonhole holders (voters (λ o : u64, (ival o <= ival c)%Z) (collect probes)) replicas)
    as (n & Hn & (o & Ho & Hle)%elem_of_voters); [done|apply voters_NoDup|done| | |].
  { intros n (o & Ho & _)%elem_of_voters. by apply (collect_honest probes n o). }
  { pose proof (two_majorities (length replicas)). lia. }
  destruct (collect_honest probes n o Hh Ho) as [_ ->].
  destruct (collect_honest probes leader_id c Hh Hc) as [_ ->]. specialize (Hheld n Hn). lia.
Qed.
End acknowledged.
End Promotion.
