(* ===== verification/GroupSafety.v ===== *)
(** Consumer groups: exclusive range ownership, the name index, and the durable
    cursors. *)

From stdpp Require Import prelude gmap strings list relations sorting.
From Stdlib Require Import ZArith Lia.
From S2P Require Import Prelude Wire Keys KeyRange Command Placement Records Flow.
From S2P Require Import LeaseOps GroupOps RangeOps SegmentOps RetentionOps Apply Steps.
From S2P Require Import Refine Invariants Reachable Keyspace.

Section groups.
Context `{Blake3}.
Implicit Types s : RecordMap.

(** * Exclusive ownership *)

Definition exclusive s : Prop :=
  ∀ g m1 m2 x1 x2 a,
    record s (MetaKey.GroupMember g m1) = Some (MetaValue.GroupMember x1) →
    record s (MetaKey.GroupMember g m2) = Some (MetaValue.GroupMember x2) →
    a ∈ GroupMemberRecord.assigned x1 → a ∈ GroupMemberRecord.assigned x2 → m1 = m2.

Record member_ok s (g : Uuid) (x : GroupMemberRecord.t) : Prop := {
  member_bounded : Z.of_nat (length (GroupMemberRecord.assigned x)) <= MAX_ASSIGNED_RANGES;
  member_distinct : NoDup (GroupMemberRecord.assigned x);
  member_ranges : Forall (range_exists s) (GroupMemberRecord.assigned x);
  member_group : record s (MetaKey.Group g) ≠ None
}.

Definition members_ok s : Prop :=
  ∀ g m x, record s (MetaKey.GroupMember g m) = Some (MetaValue.GroupMember x) →
    member_ok s g x.

(** What a step hands to a member: nothing new, or ranges nobody else holds while
    every other member stays as it was. *)
Lemma member_step s s' g m x' :
  mstep s s' → record s' (MetaKey.GroupMember g m) = Some (MetaValue.GroupMember x') →
  (∃ x, record s (MetaKey.GroupMember g m) = Some (MetaValue.GroupMember x) ∧
     GroupMemberRecord.assigned x' = GroupMemberRecord.assigned x) ∨
  ((∀ m', m' ≠ m → record s' (MetaKey.GroupMember g m') = record s (MetaKey.GroupMember g m')) ∧
   (∀ a, a ∈ GroupMemberRecord.assigned x' →
      (∃ x, record s (MetaKey.GroupMember g m) = Some (MetaValue.GroupMember x) ∧
         a ∈ GroupMemberRecord.assigned x) ∨ unheld s g m a) ∧
   (members_ok s → member_ok s g x')).
Proof.
  intros Hstep Hx'. destruct Hstep; unfold topic_created, group_created in Hx'.
  all: repeat match goal with y := _ : RecordMap |- _ => subst y end.
  all: try (unfold split_effect, inherit in Hx'; repeat case_match; rec_cases Hx'; by eauto).
  all: rec_cases Hx'; try (by eauto); right.
  - (* a new member *)
    destruct H2 as (? & ? & ? & Hun). split_and!.
    + intros m' ?. by rec_simpl.
    + simpl. intros a Ha. right. by eapply Forall_forall in Hun.
    + intros _. split; simpl; try done. congruence.
  - (* an assignment *)
    destruct H2 as (? & ? & ? & Hun). split_and!.
    + intros m' ?. by rec_simpl.
    + simpl. intros a Ha. right. by eapply Forall_forall in Hun.
    + intros Hok. destruct (Hok _ _ _ H0). by split.
  - (* one more range *)
    split_and!.
    + intros m' ?. by rec_simpl.
    + simpl. intros a' [Ha'|Ha']%elem_of_app; [left; eauto|].
      apply list_elem_of_singleton in Ha'. subst. by right.
    + intros Hok. destruct (Hok _ _ _ H0) as [? ? ? ?]. split; simpl; try done.
      * rewrite length_app. simpl. lia.
      * apply NoDup_app. split_and!; [done| |apply NoDup_singleton].
        intros y Hy Hy'%list_elem_of_singleton. by subst.
      * apply Forall_app. by split; [|constructor].
Qed.

Lemma exclusive_step s s' : exclusive s → mstep s s' → exclusive s'.
Proof.
  intros Hinv Hstep g m1 m2 x1 x2 a H1 H2 Ha1 Ha2. apply dec_stable. intros Hne.
  destruct (member_step _ _ _ _ _ Hstep H1) as [(y1 & Hy1 & E1)|(Hoth & Hin & _)].
  - destruct (member_step _ _ _ _ _ Hstep H2) as [(y2 & Hy2 & E2)|(Hoth & Hin & _)].
    + apply Hne. eapply (Hinv g m1 m2 y1 y2 a); congruence.
    + destruct (Hin a Ha2) as [(y2 & Hy2 & ?)|Hun].
      * apply Hne. eapply (Hinv g m1 m2 y1 y2 a); congruence.
      * apply (Hun m1 y1); congruence.
  - rewrite Hoth in H2 by done. destruct (Hin a Ha1) as [(y1 & Hy1 & ?)|Hun].
    + apply Hne. by eapply (Hinv g m1 m2 y1 x2 a).
    + by apply (Hun m2 x2).
Qed.

Lemma group_kept s s' g :
  mstep s s' → record s (MetaKey.Group g) ≠ None → record s' (MetaKey.Group g) ≠ None.
Proof. intros Hstep Hr. step_cases Hstep; repeat case_match; rec_goal; congruence. Qed.

Lemma range_exists_step s s' a : mstep s s' → range_exists s a → range_exists s' a.
Proof.
  intros Hstep [range Hr]. destruct (range_kept _ _ _ _ _ Hstep Hr) as (range' & ? & _).
  by exists range'.
Qed.

Lemma member_ok_step s s' g x : mstep s s' → member_ok s g x → member_ok s' g x.
Proof.
  intros Hstep [? ? Hr ?]. split; try done; [|by eapply group_kept].
  eapply Forall_impl; [exact Hr|]. intros a. by apply range_exists_step.
Qed.

Lemma members_ok_step s s' : members_ok s → mstep s s' → members_ok s'.
Proof.
  intros Hinv Hstep g m x' Hx'. eapply member_ok_step; [done|].
  destruct (member_step _ _ _ _ _ Hstep Hx') as [(x & Hx & E)|(_ & _ & Hok)]; [|by apply Hok].
  destruct (Hinv _ _ _ Hx). split; by rewrite ?E.
Qed.

Lemma rstate_exclusive s : rstate s → exclusive s.
Proof.
  apply rstate_ind; [intros ? ? ? ? ? ? Hr; by rewrite record_empty in Hr|].
  eauto using exclusive_step.
Qed.

Lemma rstate_members s : rstate s → members_ok s.
Proof.
  apply rstate_ind; [intros ? ? ? Hr; by rewrite record_empty in Hr|].
  eauto using members_ok_step.
Qed.

(** * The name index *)

(** Names and groups correspond one to one. *)
Definition names_ok s : Prop :=
  (∀ name named,
     record s (MetaKey.GroupByName name) = Some (MetaValue.GroupName named) →
     ∃ x, record s (MetaKey.Group (GroupNameRecord.group_uuid named))
            = Some (MetaValue.Group x) ∧ ConsumerGroupRecord.name x = name) ∧
  (∀ g x, record s (MetaKey.Group g) = Some (MetaValue.Group x) →
     record s (MetaKey.GroupByName (ConsumerGroupRecord.name x))
       = Some (MetaValue.GroupName (GroupNameRecord.mk g))).

Lemma names_ok_frame s s' :
  names_ok s →
  (∀ g, record s' (MetaKey.Group g) = record s (MetaKey.Group g)) →
  (∀ n, record s' (MetaKey.GroupByName n) = record s (MetaKey.GroupByName n)) →
  names_ok s'.
Proof.
  intros [Hn Hg] Eg En. split.
  - intros name named. rewrite En, Eg. apply Hn.
  - intros g x. rewrite Eg, En. apply Hg.
Qed.

Lemma names_ok_create s name g :
  names_ok s → record s (MetaKey.Group g) = None →
  (∀ named, record s (MetaKey.GroupByName name) = Some (MetaValue.GroupName named) →
     GroupNameRecord.group_uuid named = g) →
  names_ok (group_created name g s).
Proof.
  intros [Hn Hg] Hnew Hname. unfold group_created. split.
  - intros name' named H1. rec_cases H1; simpl; rec_goal; eauto.
    destruct (Hn _ _ H1) as (x & Hx & ?). congruence.
  - intros g' x H1. rec_cases H1; simpl; rec_simpl; [done|].
    destruct (decide (name = ConsumerGroupRecord.name x)) as [->|].
    + specialize (Hname _ (Hg _ _ H1)). simpl in Hname. congruence.
    + rec_simpl. by apply Hg.
Qed.

Lemma names_ok_generation s g x generation :
  names_ok s → record s (MetaKey.Group g) = Some (MetaValue.Group x) →
  names_ok (put (MetaKey.Group g)
              (MetaValue.Group (ConsumerGroupRecord.set_generation generation x)) s).
Proof.
  intros [Hn Hg] Hx. split.
  - intros name named H1. rec_simpl_in H1. destruct (Hn _ _ H1) as (y & Hy & <-).
    rec_goal; eauto.
  - intros g' y H1. rec_cases H1; rec_simpl; [exact (Hg _ _ Hx)|by apply Hg].
Qed.

Lemma names_ok_step s s' : names_ok s → mstep s s' → names_ok s'.
Proof.
  intros Hinv Hstep. destruct Hstep; try (by apply names_ok_create);
    try (by apply names_ok_generation).
  all: apply (names_ok_frame s); [done|intros..]; unfold topic_created, split_effect, inherit.
  all: repeat match goal with y := _ : RecordMap |- _ => subst y end.
  all: repeat case_match; by rec_simpl.
Qed.

Lemma rstate_names s : rstate s → names_ok s.
Proof.
  apply rstate_ind; [split; intros ? ? Hr; by rewrite record_empty in Hr|].
  eauto using names_ok_step.
Qed.

(** * Cursors *)

(** A durable cursor is of its topic's epoch and its range's lineage, and a pinned
    one lies inside the segment it names. *)
Record cursor_ok s (t r : Uuid) (c : CursorCheckpointRecord.t) : Prop := {
  cursor_topic :
    ∃ topic, record s (MetaKey.Topic t) = Some (MetaValue.Topic topic) ∧
      TopicRecord.topic_epoch topic = CursorCheckpointRecord.topic_epoch c;
  cursor_lineage :
    ∃ range, record s (MetaKey.Range t r) = Some (MetaValue.Range range) ∧
      RangeRecord.lineage_generation range = CursorCheckpointRecord.range_generation c;
  cursor_inside :
    if is_nil (CursorCheckpointRecord.segment_uuid c) then
      CursorCheckpointRecord.segment_generation c = zero ∧
      CursorCheckpointRecord.segment_root c = zero ∧
      CursorCheckpointRecord.record_index c = zero
    else
      ∃ segment,
        record s (MetaKey.Segment t r (CursorCheckpointRecord.segment_uuid c))
          = Some (MetaValue.Segment segment) ∧
        SegmentRecord.content_root segment = CursorCheckpointRecord.segment_root c ∧
        ival (CursorCheckpointRecord.segment_generation c)
          <= ival (SegmentRecord.segment_generation segment) ∧
        ival (SegmentRecord.base_offset segment)
          <= ival (CursorCheckpointRecord.record_offset c)
          <= ival (SegmentRecord.next_offset segment)
}.

Definition cursors_ok s : Prop :=
  ∀ g t r c, record s (MetaKey.GroupCursor g t r) = Some (MetaValue.GroupCursor c) →
    cursor_ok s t r c.

(** Topics are written once. *)
Lemma topic_immutable s s' t v :
  mstep s s' → record s (MetaKey.Topic t) = Some v → record s' (MetaKey.Topic t) = Some v.
Proof. intros Hstep Hr. step_cases Hstep; repeat case_match; rec_goal; congruence. Qed.

Lemma cursor_ok_step s s' t r c : mstep s s' → cursor_ok s t r c → cursor_ok s' t r c.
Proof.
  intros Hstep [(topic & Ht & ?) (range & Hr & Hl) Hin]. split.
  - exists topic. split; [by eapply topic_immutable|done].
  - destruct (range_kept _ _ _ _ _ Hstep Hr) as (range' & ? & _ & _ & Hl' & _).
    exists range'. split; [done|congruence].
  - destruct (is_nil _); [done|]. destruct Hin as (x & Hx & ? & ? & ?).
    destruct (segment_kept _ _ _ _ _ _ Hstep Hx) as (x' & ? & Eb & En & Er & _ & Hg).
    exists x'. rewrite Eb, En, Er. split_and!; try done; lia.
Qed.

Lemma checkpoint_ok s args topic range generation :
  record s (MetaKey.Topic (CommitCursorArgs.topic_uuid args)) = Some (MetaValue.Topic topic) →
  TopicRecord.topic_epoch topic = CommitCursorArgs.topic_epoch args →
  record s (MetaKey.Range (CommitCursorArgs.topic_uuid args) (CommitCursorArgs.range_uuid args))
    = Some (MetaValue.Range range) →
  cursor_place s args →
  cursor_ok s (CommitCursorArgs.topic_uuid args) (CommitCursorArgs.range_uuid args)
    (checkpoint args (RangeRecord.lineage_generation range) generation).
Proof.
  intros Ht He Hr Hplace. unfold cursor_place in Hplace. split; simpl; [by eauto..|].
  destruct (is_nil _); [done|]. destruct Hplace as (x & Hx & Hg & ? & ?).
  exists x. rewrite Hg. split_and!; try done; lia.
Qed.

Lemma cursors_ok_step s s' : cursors_ok s → mstep s s' → cursors_ok s'.
Proof.
  intros Hinv Hstep g t r c Hc. eapply cursor_ok_step; [done|].
  destruct (decide (record s (MetaKey.GroupCursor g t r) = Some (MetaValue.GroupCursor c)))
    as [Hold|Hnew]; [by eapply Hinv|].
  step_cases Hstep; repeat case_match; rec_cases Hc; try congruence.
  all: eapply checkpoint_ok; done.
Qed.

Lemma rstate_cursors s : rstate s → cursors_ok s.
Proof.
  apply rstate_ind; [intros ? ? ? ? Hr; by rewrite record_empty in Hr|].
  eauto using cursors_ok_step.
Qed.

(** A cursor keeps its topic epoch and lineage, and a checkpoint generation names
    one checkpoint. *)
Definition cursor_evolves (c c' : CursorCheckpointRecord.t) : Prop :=
  CursorCheckpointRecord.topic_epoch c' = CursorCheckpointRecord.topic_epoch c ∧
  CursorCheckpointRecord.range_generation c' = CursorCheckpointRecord.range_generation c ∧
  (c' = c ∨ ival (CursorCheckpointRecord.checkpoint_generation c)
              < ival (CursorCheckpointRecord.checkpoint_generation c')).

#[export] Instance cursor_evolves_preorder : PreOrder cursor_evolves.
Proof.
  split; [intros c; by split_and!; [..|left]|].
  intros x y z (?&?&Hxy) (?&?&Hyz). split_and!; try congruence.
  destruct Hxy as [->|]; [done|]. destruct Hyz as [->|]; right; lia.
Qed.

(** Leaving, expiring and reassigning members never touch a cursor. *)
Lemma cursor_kept s s' g t r c :
  cursors_ok s → mstep s s' →
  record s (MetaKey.GroupCursor g t r) = Some (MetaValue.GroupCursor c) →
  ∃ c', record s' (MetaKey.GroupCursor g t r) = Some (MetaValue.GroupCursor c') ∧
    cursor_evolves c c'.
Proof.
  intros Hok Hstep Hc. destruct (Hok _ _ _ _ Hc) as [_ (range0 & Hr0 & Hl0) _].
  step_cases Hstep; repeat case_match; rec_goal; try congruence.
  all: try (by exists c; split; [|reflexivity]).
  all: eexists; (split; [reflexivity|]); simplify_eq/=.
  destruct_and?. split_and!; simpl; [|congruence|right].
  - by match goal with Hm : cursor_moves _ _ |- _ => destruct Hm end.
  - match goal with Hs : checked_succ _ = Some _ |- _ => apply checked_succ_u64 in Hs end. lia.
Qed.

Lemma cursor_kept_steps s s' g t r c :
  rstate s → rtc mstep s s' →
  record s (MetaKey.GroupCursor g t r) = Some (MetaValue.GroupCursor c) →
  ∃ c', record s' (MetaKey.GroupCursor g t r) = Some (MetaValue.GroupCursor c') ∧
    cursor_evolves c c'.
Proof.
  intros Hs Hss. revert c Hs. induction Hss as [s|s1 s2 s3 H12 _ IH]; intros c Hs Hc.
  - by exists c; split; [|reflexivity].
  - destruct (cursor_kept _ _ _ _ _ _ (rstate_cursors _ Hs) H12 Hc) as (c2 & Hc2 & ?).
    destruct (IH c2) as (c3 & ? & ?); [by eapply rstate_step|done|].
    exists c3. split; [done|by etrans].
Qed.

End groups.

(** * Theorems *)

Section theorems.
Context `{Fmt, Blake3}.

(** C26. In every reachable state a range belongs to at most one member of a group,
    and a member holds at most MAX_ASSIGNED_RANGES distinct existing ranges. *)
Theorem exclusive_assignment m g n1 n2 x1 x2 a :
  reachable m →
  record (MetaStateMachine.records m) (MetaKey.GroupMember g n1)
    = Some (MetaValue.GroupMember x1) →
  record (MetaStateMachine.records m) (MetaKey.GroupMember g n2)
    = Some (MetaValue.GroupMember x2) →
  a ∈ GroupMemberRecord.assigned x1 → a ∈ GroupMemberRecord.assigned x2 →
  n1 = n2 ∧ member_ok (MetaStateMachine.records m) g x1.
Proof.
  intros Hm%reachable_rstate H1 H2 Ha1 Ha2. split; [|by eapply rstate_members].
  by eapply (rstate_exclusive _ Hm g n1 n2 x1 x2 a).
Qed.

(** Group names and groups correspond one to one: every bound name leads to a
    group of that name and every group is bound under its name. *)
Theorem group_names_bijective m :
  reachable m → names_ok (MetaStateMachine.records m).
Proof. intros Hm. by apply rstate_names, reachable_rstate. Qed.

(** Every durable cursor is of its topic's epoch and its range's lineage, and a
    pinned cursor lies inside the registered segment whose root it names. *)
Theorem cursors_valid m g t r c :
  reachable m →
  record (MetaStateMachine.records m) (MetaKey.GroupCursor g t r)
    = Some (MetaValue.GroupCursor c) →
  cursor_ok (MetaStateMachine.records m) t r c.
Proof. intros Hm. by apply (rstate_cursors _ (reachable_rstate _ Hm)). Qed.

(** C28. Along any log a durable cursor is never lost, whatever happens to the members
    that committed it, and a checkpoint generation never names two checkpoints. *)
Theorem cursor_history log m rs m' g t r c :
  reachable m → log_valid log → MetaStateMachine.apply_log log m = Some (rs, m') →
  record (MetaStateMachine.records m) (MetaKey.GroupCursor g t r)
    = Some (MetaValue.GroupCursor c) →
  ∃ c', record (MetaStateMachine.records m') (MetaKey.GroupCursor g t r)
          = Some (MetaValue.GroupCursor c') ∧ cursor_evolves c c'.
Proof.
  intros Hm Hlog Happly Hc. destruct (apply_log_steps _ _ _ _ Hm Hlog Happly) as [_ Hsteps].
  eapply cursor_kept_steps; [by apply reachable_rstate|done..].
Qed.


End theorems.
