(* ===== verification/SegmentSafety.v ===== *)
(** The life of a sealed segment: its state, placement, move in flight, proof and
    archive evidence evolve together.  [lifecycle] is the state machine of these
    five records; every abstract step either leaves them alone or is one of its
    transitions, and its invariant is that of every reachable state. *)

From stdpp Require Import prelude gmap strings list relations sorting.
From Stdlib Require Import ZArith Lia.
From S2P Require Import Prelude Wire Keys KeyRange Command Placement Records Flow.
From S2P Require Import LeaseOps GroupOps RangeOps SegmentOps RetentionOps Apply Steps.
From S2P Require Import Refine Invariants Reachable Keyspace.

(** * The records of a segment *)

Module SegmentView.
Record t := mk {
  segment : option SegmentRecord.t;
  placement : option SegmentPlacementRecord.t;
  intent : option RebalanceIntentRecord.t;
  proof : option ReplacementProofRecord.t;
  tier : option TierCopyRecord.t
}.

Definition read (s : RecordMap) (t r g : Uuid) : SegmentView.t :=
  mk (record s (MetaKey.Segment t r g) ≫= as_Segment)
    (record s (MetaKey.SegmentPlacement t r g) ≫= as_SegmentPlacement)
    (record s (MetaKey.SegmentRebalanceIntent t r g) ≫= as_RebalanceIntent)
    (record s (MetaKey.SegmentReplacementProof t r g) ≫= as_ReplacementProof)
    (record s (MetaKey.SegmentTierCopy t r g) ≫= as_TierCopy).
End SegmentView.

Notation view := SegmentView.mk.
Notation advance st g x := (SegmentRecord.set_state st g x).

(** The move a proof or an intent is about. *)
Definition same_move (i : RebalanceIntentRecord.t) (pr : ReplacementProofRecord.t) : Prop :=
  RebalanceIntentRecord.from_node_uuid i = ReplacementProofRecord.source_node_uuid pr ∧
  RebalanceIntentRecord.to_node_uuid i = ReplacementProofRecord.destination_node_uuid pr.

#[global] Instance same_move_dec i pr : Decision (same_move i pr).
Proof. unfold same_move. apply _. Defined.

(** The intent left when the move of [pr] is confirmed. *)
Definition completed (pr : ReplacementProofRecord.t) (i : option RebalanceIntentRecord.t)
    : option RebalanceIntentRecord.t :=
  i ≫= λ i, if decide (same_move i pr) then None else Some i.

Notation replicas := SegmentPlacementRecord.replica_nodes.

Inductive lifecycle : SegmentView.t → SegmentView.t → Prop :=
  | L_register x p i pr tc :
      SegmentRecord.state x = SegmentState.SealedUnverified →
      lifecycle (view None p i pr tc) (view (Some x) p i pr tc)
  | L_verify x g p i pr tc :
      SegmentRecord.state x = SegmentState.SealedUnverified →
      lifecycle (view (Some x) p i pr tc)
        (view (Some (advance SegmentState.Verified g x)) p i pr tc)
  | L_place x p p' pr tc :
      SegmentRecord.state x = SegmentState.Verified →
      (1 <= Z.to_nat (SegmentPlacementRecord.declared_replication_factor p') <= MAX_REPLICAS)%nat →
      length (replicas p')
        = Z.to_nat (SegmentPlacementRecord.declared_replication_factor p') →
      NoDup (replicas p') →
      lifecycle (view (Some x) p None pr tc) (view (Some x) (Some p') None pr tc)
  | L_prove x p i pr pr' tc :
      SegmentRecord.state x = SegmentState.Verified ∨
      SegmentRecord.state x = SegmentState.Repairing →
      SegmentRecord.content_root x = ReplacementProofRecord.content_root pr' →
      ReplacementProofRecord.source_node_uuid pr'
        ≠ ReplacementProofRecord.destination_node_uuid pr' →
      (∀ j, i = Some j → same_move j pr') →
      lifecycle (view (Some x) p i pr tc) (view (Some x) p i (Some pr') tc)
  | L_plan_retire x g p i pr tc :
      SegmentRecord.state x = SegmentState.Verified →
      ReplacementProofRecord.destination_node_uuid pr ∈ replicas p →
      ReplacementProofRecord.source_node_uuid pr ∈ replicas p →
      lifecycle (view (Some x) (Some p) i (Some pr) tc)
        (view (Some (advance SegmentState.RetirePlanned g x)) (Some p) i (Some pr) tc)
  | L_retired x g p n index i pr tc :
      SegmentRecord.state x = SegmentState.RetirePlanned →
      lifecycle (view (Some x) (Some p) i (Some pr) tc)
        (view (Some (advance SegmentState.Verified g x))
           (Some (SegmentPlacementRecord.set_replicas
                    (without (ReplacementProofRecord.source_node_uuid pr) (replicas p)) n index p))
           (completed pr i) None tc)
  | L_retired_unplaced x g i pr tc :
      SegmentRecord.state x = SegmentState.RetirePlanned →
      lifecycle (view (Some x) None i (Some pr) tc)
        (view (Some (advance SegmentState.Retired g x)) None (completed pr i) None tc)
  | L_propose x p n index i tc :
      SegmentRecord.state x = SegmentState.Verified →
      RebalanceIntentRecord.from_node_uuid i ∈ replicas p →
      RebalanceIntentRecord.to_node_uuid i ∉ replicas p →
      lifecycle (view (Some x) (Some p) None None tc)
        (view (Some x)
           (Some (SegmentPlacementRecord.set_replicas
                    (replicas p ++ [RebalanceIntentRecord.to_node_uuid i]) n index p))
           (Some i) None tc)
  | L_cancel x p n index i pr tc :
      (∀ q, pr = Some q → ¬ same_move i q) →
      lifecycle (view x (Some p) (Some i) pr tc)
        (view x
           (Some (SegmentPlacementRecord.set_replicas
                    (without (RebalanceIntentRecord.to_node_uuid i) (replicas p)) n index p))
           None pr tc)
  | L_archive x p i pr copy :
      SegmentRecord.state x = SegmentState.Verified →
      SegmentRecord.content_root x = TierCopyRecord.content_root copy →
      lifecycle (view (Some x) p i pr None) (view (Some x) p i pr (Some copy))
  | L_plan_retention x g p tc :
      SegmentRecord.state x = SegmentState.Verified →
      lifecycle (view (Some x) p None None tc)
        (view (Some (advance SegmentState.RetentionPlanned g x)) p None None tc)
  | L_expired x g p n index i pr tc :
      SegmentRecord.state x = SegmentState.RetentionPlanned →
      lifecycle (view (Some x) p i pr tc)
        (view (Some (advance SegmentState.RetentionExpired g x))
           (SegmentPlacementRecord.set_replicas [] n index <$> p) i pr tc).

#[local] Create HintDb segments.

Section segments.
Context `{Blake3}.
Implicit Types s : RecordMap.

(** ** Steps are transitions of the lifecycle *)

Lemma completed_spec (pr : ReplacementProofRecord.t) (o : option MetaValue.t) :
  completed pr (o ≫= as_RebalanceIntent) =
    if completes_rebalance o (ReplacementProofRecord.source_node_uuid pr)
         (ReplacementProofRecord.destination_node_uuid pr)
    then None else o ≫= as_RebalanceIntent.
Proof.
  destruct o as [[]|]; try done. unfold completed, same_move. simpl.
  repeat case_bool_decide; simpl; case_decide; naive_solver.
Qed.

(** A step that is about segment [k0] leaves every other segment alone. *)
Lemma lifecycle_step s s' t r g :
  mstep s s' →
  SegmentView.read s' t r g = SegmentView.read s t r g ∨
  lifecycle (SegmentView.read s t r g) (SegmentView.read s' t r g).
Proof.
  intros Hstep. step_cases Hstep.
  all: try (left; unfold SegmentView.read; repeat case_match; rec_simpl; done).
  all: match goal with |- context [put (?C ?t0 ?r0 ?g0)] =>
         destruct (decide ((t, r, g) = (t0, r0, g0))) as [Heq|Hne] end.
  all: try (left; unfold SegmentView.read; rec_goal; done).
  all: simplify_eq; right; unfold SegmentView.read.
  all: try match goal with |- context [completes_rebalance ?o _ _] =>
         pose proof (completed_spec proof o) as Hcomp; destruct (completes_rebalance o _ _) end.
  all: rec_simpl; repeat match goal with Hr : record ?s _ = _ |- context [record ?s _] =>
         rewrite Hr in * end.
  all: simpl.
  - by apply L_register.
  - by apply L_verify.
  - replace ((_ <$> existing) ≫= _) with existing by by destruct existing. by apply L_place.
  - apply L_prove; try done. intros i Hi%bind_variant.
    match goal with Hm : matches_intent _ _ _ _ _ _ |- _ => by apply Hm end.
  - by apply L_plan_retire.
  - rewrite <-Hcomp. by apply L_retired.
  - rewrite <-Hcomp at 2. by apply L_retired.
  - rewrite <-Hcomp. by apply L_retired_unplaced.
  - rewrite <-Hcomp at 2. by apply L_retired_unplaced.
  - by apply L_propose.
  - apply L_cancel. intros q Hq%bind_variant [? ?]. naive_solver.
  - by apply L_archive.
  - by apply L_plan_retention.
  - destruct placement as [[p n]|]; simpl in *; rec_simpl.
    + by apply (L_expired segment generation (Some p) n index).
    + repeat match goal with Hr : record ?s _ = _ |- context [record ?s _] => rewrite Hr end.
      by apply (L_expired segment generation None zero zero).
Qed.

(** ** The invariant *)

Definition placement_ok (v : SegmentView.t) (x : SegmentRecord.t) : Prop :=
  ∀ p, SegmentView.placement v = Some p →
    SegmentRecord.state x ≠ SegmentState.SealedUnverified ∧
    NoDup (replicas p) ∧
    (1 <= Z.to_nat (SegmentPlacementRecord.declared_replication_factor p) <= MAX_REPLICAS)%nat ∧
    (length (replicas p)
      <= Z.to_nat (SegmentPlacementRecord.declared_replication_factor p)
         + (if SegmentView.intent v then 1 else 0))%nat ∧
    (replicas p = [] → SegmentRecord.state x = SegmentState.RetentionExpired).

Definition movable (x : SegmentRecord.t) : Prop :=
  SegmentRecord.state x = SegmentState.Verified ∨
  SegmentRecord.state x = SegmentState.RetirePlanned.

Definition intent_ok (v : SegmentView.t) (x : SegmentRecord.t) : Prop :=
  ∀ i, SegmentView.intent v = Some i →
    movable x ∧
    RebalanceIntentRecord.from_node_uuid i ≠ RebalanceIntentRecord.to_node_uuid i ∧
    ∃ p, SegmentView.placement v = Some p ∧
      RebalanceIntentRecord.from_node_uuid i ∈ replicas p ∧
      RebalanceIntentRecord.to_node_uuid i ∈ replicas p.

Definition proof_ok (v : SegmentView.t) (x : SegmentRecord.t) : Prop :=
  ∀ pr, SegmentView.proof v = Some pr →
    movable x ∧
    SegmentRecord.content_root x = ReplacementProofRecord.content_root pr ∧
    ReplacementProofRecord.source_node_uuid pr
      ≠ ReplacementProofRecord.destination_node_uuid pr ∧
    (∀ i, SegmentView.intent v = Some i → same_move i pr).

(** A planned retirement can always be confirmed: its proof stays, and both the
    copy it retires and the copy that replaces it stay placed. *)
Definition retirement_ok (v : SegmentView.t) (x : SegmentRecord.t) : Prop :=
  SegmentRecord.state x = SegmentState.RetirePlanned →
  ∃ p pr, SegmentView.placement v = Some p ∧ SegmentView.proof v = Some pr ∧
    ReplacementProofRecord.source_node_uuid pr ∈ replicas p ∧
    ReplacementProofRecord.destination_node_uuid pr ∈ replicas p.

Definition archive_ok (v : SegmentView.t) (x : SegmentRecord.t) : Prop :=
  ∀ c, SegmentView.tier v = Some c →
    TierCopyRecord.content_root c = SegmentRecord.content_root x.

(** The states a segment can be in. *)
Definition live_state (st : SegmentState.t) : Prop :=
  st = SegmentState.SealedUnverified ∨ st = SegmentState.Verified ∨
  st = SegmentState.RetirePlanned ∨ st = SegmentState.RetentionPlanned ∨
  st = SegmentState.RetentionExpired.

Record segment_ok (v : SegmentView.t) (x : SegmentRecord.t) : Prop := {
  ok_state : live_state (SegmentRecord.state x);
  ok_placement : placement_ok v x;
  ok_intent : intent_ok v x;
  ok_proof : proof_ok v x;
  ok_retirement : retirement_ok v x;
  ok_archive : archive_ok v x
}.

Definition view_ok (v : SegmentView.t) : Prop :=
  match SegmentView.segment v with
  | Some x => segment_ok v x
  | None => v = view None None None None None
  end.


Ltac ok_cases :=
  repeat match goal with
  | Hok : view_ok _ |- _ => unfold view_ok in Hok; simpl in Hok
  | Hok : segment_ok _ _ |- _ => destruct Hok as [Hstate Hplace Hintent Hproof Hret Harch]
  end;
  unfold placement_ok, intent_ok, proof_ok, retirement_ok, archive_ok, movable in *; simpl in *.

Lemma elem_of_without n k l : n ∈ without k l ↔ n ≠ k ∧ n ∈ l.
Proof. unfold without. by rewrite list_elem_of_filter. Qed.

Lemma NoDup_without k l : NoDup l → NoDup (without k l).
Proof. apply NoDup_filter. Qed.

Lemma length_without k l : k ∈ l → (length (without k l) < length l)%nat.
Proof. intros Hk. apply (length_filter_lt _ l k Hk). by intros []. Qed.

(** A confirmed retirement leaves no intent behind, since the proof was of its
    move. *)
Lemma completed_none (v : SegmentView.t) x pr :
  proof_ok v x → SegmentView.proof v = Some pr → completed pr (SegmentView.intent v) = None.
Proof.
  intros Hproof Hpr. destruct (Hproof _ Hpr) as (_ & _ & _ & Hsame).
  destruct (SegmentView.intent v) as [i|]; simpl; [|done]. by rewrite decide_True by auto.
Qed.

Lemma ok_retired x g p n index i pr tc :
  SegmentRecord.state x = SegmentState.RetirePlanned →
  segment_ok (view (Some x) (Some p) i (Some pr) tc) x →
  segment_ok
    (view (Some (advance SegmentState.Verified g x))
       (Some (SegmentPlacementRecord.set_replicas
                (without (ReplacementProofRecord.source_node_uuid pr) (replicas p)) n index p))
       None None tc) (advance SegmentState.Verified g x).
Proof.
  intros Hst Hok. ok_cases. destruct (Hret Hst) as (? & ? & [= <-] & [= <-] & Hs & Hd).
  destruct (Hplace _ eq_refl) as (_ & Hnd & Hrf & Hlen & _).
  destruct (Hproof _ eq_refl) as (_ & _ & Hne & _).
  split; ok_cases; try done; [by right; left|]. intros ? [= <-]; simpl.
  pose proof (length_without _ _ Hs). split_and!; try done; try lia.
  - by apply NoDup_without.
  - destruct i; lia.
  - intros Hnil. exfalso. apply (not_elem_of_nil (ReplacementProofRecord.destination_node_uuid pr)).
    rewrite <-Hnil. by apply elem_of_without.
Qed.

Lemma ok_propose x p n index i tc :
  SegmentRecord.state x = SegmentState.Verified →
  RebalanceIntentRecord.from_node_uuid i ∈ replicas p →
  RebalanceIntentRecord.to_node_uuid i ∉ replicas p →
  segment_ok (view (Some x) (Some p) None None tc) x →
  segment_ok
    (view (Some x)
       (Some (SegmentPlacementRecord.set_replicas
                (replicas p ++ [RebalanceIntentRecord.to_node_uuid i]) n index p))
       (Some i) None tc) x.
Proof.
  intros Hst Hf Ht Hok. ok_cases. destruct (Hplace _ eq_refl) as (? & Hnd & ? & Hlen & ?).
  split; ok_cases; try done.
  - intros ? [= <-]; simpl. split_and!; try done; try lia.
    + apply NoDup_app. split_and!; [done| |apply NoDup_singleton].
      intros y Hy Hy'%list_elem_of_singleton. by subst.
    + rewrite length_app. simpl. lia.
    + by intros []%app_eq_nil.
  - intros ? [= <-]. split_and!; [by left|intros Heq; by rewrite Heq in Hf|].
    eexists. split; [done|]. simpl. set_solver.
  - congruence.
Qed.

Lemma ok_cancel x p n index i pr tc :
  (∀ q, pr = Some q → ¬ same_move i q) →
  segment_ok (view (Some x) (Some p) (Some i) pr tc) x →
  segment_ok
    (view (Some x)
       (Some (SegmentPlacementRecord.set_replicas
                (without (RebalanceIntentRecord.to_node_uuid i) (replicas p)) n index p))
       None pr tc) x.
Proof.
  intros Hno Hok. ok_cases. destruct (Hplace _ eq_refl) as (? & Hnd & ? & Hlen & ?).
  destruct (Hintent _ eq_refl) as (Hm & Hft & ? & [= <-] & Hf & Ht).
  assert (pr = None) as ->.
  { destruct pr as [q|]; [|done]. destruct (Hproof _ eq_refl) as (_ & _ & _ & Hsame).
    by destruct (Hno q eq_refl); apply Hsame. }
  split; ok_cases; try done.
  - intros ? [= <-]; simpl. pose proof (length_without _ _ Ht). split_and!; try done; try lia.
    + by apply NoDup_without.
    + intros Hnil. exfalso. apply (not_elem_of_nil (RebalanceIntentRecord.from_node_uuid i)).
      rewrite <-Hnil. by apply elem_of_without.
  - intros Hst. destruct (Hret Hst) as (? & ? & _ & ? & _). done.
Qed.

Lemma ok_expired x g p n index i pr tc :
  SegmentRecord.state x = SegmentState.RetentionPlanned →
  segment_ok (view (Some x) p i pr tc) x →
  segment_ok
    (view (Some (advance SegmentState.RetentionExpired g x))
       (SegmentPlacementRecord.set_replicas [] n index <$> p) i pr tc)
    (advance SegmentState.RetentionExpired g x).
Proof.
  intros Hst Hok. ok_cases. rewrite Hst in *.
  assert (i = None) as ->
    by (destruct i; [|done]; by destruct (Hintent _ eq_refl) as ([|] & _)).
  assert (pr = None) as ->
    by (destruct pr; [|done]; by destruct (Hproof _ eq_refl) as ([|] & _)).
  split; ok_cases; try done; [by do 4 right|]. destruct p as [p|]; [|done].
  intros ? [= <-]. destruct (Hplace _ eq_refl) as (? & Hnd & ? & Hlen & ?); simpl.
  split_and!; try done; try lia. apply NoDup_nil_2.
Qed.

Lemma ok_register x :
  SegmentRecord.state x = SegmentState.SealedUnverified →
  segment_ok (view (Some x) None None None None) x.
Proof. intros Hst. split; ok_cases; try done; [by left|congruence]. Qed.

Lemma ok_verify x g p i pr tc :
  SegmentRecord.state x = SegmentState.SealedUnverified →
  segment_ok (view (Some x) p i pr tc) x →
  segment_ok (view (Some (advance SegmentState.Verified g x)) p i pr tc)
    (advance SegmentState.Verified g x).
Proof.
  intros Hst Hok. ok_cases. rewrite Hst in *.
  split; ok_cases; try done; [by right; left|..].
  - intros q Hq. by destruct (Hplace _ Hq).
  - intros j Hj. by destruct (Hintent _ Hj) as ([|] & _).
  - intros q Hq. by destruct (Hproof _ Hq) as ([|] & _).
Qed.

Lemma ok_place x p p' pr tc :
  SegmentRecord.state x = SegmentState.Verified →
  (1 <= Z.to_nat (SegmentPlacementRecord.declared_replication_factor p') <= MAX_REPLICAS)%nat →
  length (replicas p') = Z.to_nat (SegmentPlacementRecord.declared_replication_factor p') →
  NoDup (replicas p') →
  segment_ok (view (Some x) p None pr tc) x →
  segment_ok (view (Some x) (Some p') None pr tc) x.
Proof.
  intros Hst Hrf Hlen Hnd Hok. ok_cases. split; ok_cases; try done; [|congruence].
  intros ? [= <-]. split_and!; try done; try lia; [congruence|].
  intros Hnil. rewrite Hnil in Hlen. simpl in Hlen. lia.
Qed.

Lemma ok_prove x p i pr pr' tc :
  SegmentRecord.state x = SegmentState.Verified ∨
  SegmentRecord.state x = SegmentState.Repairing →
  SegmentRecord.content_root x = ReplacementProofRecord.content_root pr' →
  ReplacementProofRecord.source_node_uuid pr'
    ≠ ReplacementProofRecord.destination_node_uuid pr' →
  (∀ j, i = Some j → same_move j pr') →
  segment_ok (view (Some x) p i pr tc) x → segment_ok (view (Some x) p i (Some pr') tc) x.
Proof.
  intros Hst Hroot Hne Hsame Hok. ok_cases.
  assert (SegmentRecord.state x = SegmentState.Verified) as Hv
    by (unfold live_state in Hstate; intuition congruence).
  split; ok_cases; try done; [|congruence].
  intros ? [= <-]. split_and!; auto.
Qed.

Lemma ok_plan_retire x g p i pr tc :
  SegmentRecord.state x = SegmentState.Verified →
  ReplacementProofRecord.destination_node_uuid pr ∈ replicas p →
  ReplacementProofRecord.source_node_uuid pr ∈ replicas p →
  segment_ok (view (Some x) (Some p) i (Some pr) tc) x →
  segment_ok
    (view (Some (advance SegmentState.RetirePlanned g x)) (Some p) i (Some pr) tc)
    (advance SegmentState.RetirePlanned g x).
Proof.
  intros Hst Hd Hs Hok. ok_cases. rewrite Hst in *. split; ok_cases; try done.
  - by do 2 right; left.
  - intros q Hq. destruct (Hplace _ Hq) as (? & ? & ? & ? & He).
    split_and!; try done; try lia. by intros ?%He.
  - intros j Hj. destruct (Hintent _ Hj) as (_ & ?). split; [by right|done].
  - intros q Hq. destruct (Hproof _ Hq) as (_ & ?). split; [by right|done].
  - intros _. by exists p, pr.
Qed.

Lemma ok_archive_step x p i pr copy :
  SegmentRecord.content_root x = TierCopyRecord.content_root copy →
  segment_ok (view (Some x) p i pr None) x → segment_ok (view (Some x) p i pr (Some copy)) x.
Proof. intros Hroot Hok. ok_cases. split; ok_cases; try done. by intros ? [= <-]. Qed.

Lemma ok_plan_retention x g p tc :
  SegmentRecord.state x = SegmentState.Verified →
  segment_ok (view (Some x) p None None tc) x →
  segment_ok (view (Some (advance SegmentState.RetentionPlanned g x)) p None None tc)
    (advance SegmentState.RetentionPlanned g x).
Proof.
  intros Hst Hok. ok_cases. rewrite Hst in *. split; ok_cases; try done.
  - by do 3 right; left.
  - intros q Hq. destruct (Hplace _ Hq) as (? & ? & ? & ? & He).
    split_and!; try done; try lia. by intros ?%He.
Qed.

Hint Resolve ok_register ok_verify ok_place ok_prove ok_plan_retire ok_retired ok_propose
  ok_cancel ok_archive_step ok_plan_retention ok_expired : segments.

Lemma view_ok_lifecycle v v' : view_ok v → lifecycle v v' → view_ok v'.
Proof.
  intros Hok Hlife. destruct Hlife; unfold view_ok in *; simpl in *; eauto with segments.
  - simplify_eq. eauto with segments.
  - pose proof (completed_none _ _ _ (ok_proof _ _ Hok) eq_refl) as Hnone. simpl in Hnone.
    rewrite Hnone. eauto with segments.
  - destruct (ok_retirement _ _ Hok) as (? & _ & [=] & _); done.
  - destruct x; eauto with segments. congruence.
Qed.

(** Every segment's records in a reachable state. *)
Lemma rstate_segments s : rstate s → ∀ t r g, view_ok (SegmentView.read s t r g).
Proof.
  intros Hs t r g. revert s Hs. apply rstate_ind.
  - unfold SegmentView.read. by rewrite !record_empty.
  - intros s s' _ IH Hstep. destruct (lifecycle_step _ _ t r g Hstep) as [->|]; [done|].
    by eapply view_ok_lifecycle.
Qed.

(** ** History *)

(** How far a segment is on the way from sealed to deleted; a planned retirement
    of one copy returns to Verified. *)
Definition progress (st : SegmentState.t) : Z :=
  match st with
  | SegmentState.SealedUnverified => 0
  | SegmentState.RetentionPlanned => 2
  | SegmentState.RetentionExpired => 3
  | _ => 1
  end.

Definition segment_advances (x x' : SegmentRecord.t) : Prop :=
  segment_evolves x x' ∧ progress (SegmentRecord.state x) <= progress (SegmentRecord.state x').

#[export] Instance segment_advances_preorder : PreOrder segment_advances.
Proof.
  split; [intros x; split; [reflexivity|lia]|].
  intros x y z [? ?] [? ?]. split; [by etrans|lia].
Qed.

Lemma lifecycle_progress v v' x x' :
  lifecycle v v' → SegmentView.segment v = Some x → SegmentView.segment v' = Some x' →
  progress (SegmentRecord.state x) <= progress (SegmentRecord.state x').
Proof.
  intros Hlife. destruct Hlife; simpl; intros ??; simplify_eq; simpl; try lia.
  all: match goal with Hst : SegmentRecord.state _ = _ |- _ => rewrite Hst end; simpl; lia.
Qed.

Lemma segment_advances_step s s' t r g x :
  mstep s s' → record s (MetaKey.Segment t r g) = Some (MetaValue.Segment x) →
  ∃ x', record s' (MetaKey.Segment t r g) = Some (MetaValue.Segment x') ∧ segment_advances x x'.
Proof.
  intros Hstep Hx. destruct (segment_kept _ _ _ _ _ _ Hstep Hx) as (x' & Hx' & ?).
  exists x'. split; [done|]. split; [done|].
  assert (SegmentView.segment (SegmentView.read s t r g) = Some x) as Hv by (simpl; by rewrite Hx).
  assert (SegmentView.segment (SegmentView.read s' t r g) = Some x') as Hv'
    by (simpl; by rewrite Hx').
  destruct (lifecycle_step _ _ t r g Hstep) as [Heq|Hlife].
  - rewrite Heq in Hv'. simplify_eq. lia.
  - by eapply lifecycle_progress.
Qed.

Lemma segment_advances_steps s s' t r g x :
  rtc mstep s s' → record s (MetaKey.Segment t r g) = Some (MetaValue.Segment x) →
  ∃ x', record s' (MetaKey.Segment t r g) = Some (MetaValue.Segment x') ∧ segment_advances x x'.
Proof.
  intros Hss. revert x. induction Hss as [s|s1 s2 s3 H12 _ IH]; intros x Hx.
  - by exists x; split; [|reflexivity].
  - destruct (segment_advances_step _ _ _ _ _ _ H12 Hx) as (x2 & Hx2 & ?).
    destruct (IH _ Hx2) as (x3 & ? & ?). exists x3. split; [done|by etrans].
Qed.

End segments.

(** * Theorems *)

Section theorems.
Context `{Fmt, Blake3}.

(** C24. In every reachable state the records of a segment agree: its replicas are
    distinct and at most the declared factor, one more while a move is in flight;
    the move's source and destination are both placed; a proof is of the
    segment's bytes and of that move; a planned retirement can be confirmed; the
    archive copy has the segment's root; and the list is empty only once the
    segment has expired. *)
Theorem segment_records_consistent m t r g x :
  reachable m →
  record (MetaStateMachine.records m) (MetaKey.Segment t r g) = Some (MetaValue.Segment x) →
  segment_ok (SegmentView.read (MetaStateMachine.records m) t r g) x.
Proof.
  intros Hm%reachable_rstate Hx. pose proof (rstate_segments _ Hm t r g) as Hok.
  unfold view_ok, SegmentView.read in *. rewrite Hx in *. done.
Qed.

(** C25. Along any log a registered segment keeps its offsets, root and sealing epoch,
    and never moves back from verified to unverified, or from a planned or
    confirmed deletion to any earlier state. *)
Theorem segment_history log m rs m' t r g x :
  reachable m → log_valid log → MetaStateMachine.apply_log log m = Some (rs, m') →
  record (MetaStateMachine.records m) (MetaKey.Segment t r g) = Some (MetaValue.Segment x) →
  ∃ x', record (MetaStateMachine.records m') (MetaKey.Segment t r g)
          = Some (MetaValue.Segment x') ∧ segment_advances x x'.
Proof.
  intros Hm Hlog Happly Hx. destruct (apply_log_steps _ _ _ _ Hm Hlog Happly) as [_ Hsteps].
  by eapply segment_advances_steps.
Qed.

(** C20. Deletion of a segment's bytes is planned only under the range's current
    lease, from Verified, with no move in flight, with a version-pinned archive
    copy of the same root or the topic's explicit permission, and with every
    durable cursor of every group past the segment. *)
Theorem plan_retention_sound s t r g generation epoch response s' :
  typed s → run (plan_retention t r g generation epoch) s = Some (response, s') →
  is_rejected response = false →
  ∃ x next,
    s' = put (MetaKey.Segment t r g)
           (MetaValue.Segment (advance SegmentState.RetentionPlanned next x)) s ∧
    record s (MetaKey.Segment t r g) = Some (MetaValue.Segment x) ∧
    SegmentRecord.state x = SegmentState.Verified ∧
    SegmentRecord.segment_generation x = generation ∧
    leased_at s t r epoch ∧
    record s (MetaKey.SegmentRebalanceIntent t r g) = None ∧
    record s (MetaKey.SegmentReplacementProof t r g) = None ∧
    deletable s t r g (SegmentRecord.content_root x) ∧
    consumed s t r (SegmentRecord.next_offset x).
Proof.
  intros Hty Hrun. wp_of_run Hrun. unfold plan_retention. wp_steps.
  all: apply wp_require_lease_epoch; [done|]; intros Hlease; wp_steps; try done.
  all: apply wp_evidence_gate; [done|done|]; intros Hdel; wp_steps.
  all: apply wp_cursor_protection; [done|]; intros Hcons; wp_steps; intros _.
  all: eexists _, _; split_and!; first [done|by apply not_is_Some|by apply dec_stable].
Qed.

End theorems.
