(* ===== verification/Dedup.v ===== *)
(** Request deduplication: the bounded first-in first-out table of responses, and
    that a command applied twice while the table remembers it acts once. *)

From stdpp Require Import prelude gmap strings list relations sorting.
From Stdlib Require Import ZArith Lia.
From S2P Require Import Prelude Wire Keys KeyRange Command Placement Records Flow.
From S2P Require Import LeaseOps GroupOps RangeOps SegmentOps RetentionOps Apply Steps.
From S2P Require Import Refine Invariants Reachable.

Import MetaStateMachine.

(** The queue and the map hold the same requests, each once, and no more than the
    capacity. *)
Record table_ok (m : t) : Prop := {
  table_distinct : NoDup (dedup_order m);
  table_agrees : ∀ id, id ∈ dedup_order m ↔ is_Some (dedup_responses m !! id);
  table_bounded : (length (dedup_order m) <= DEDUP_CAPACITY)%nat
}.

(** The table after a slot has been made for one more request. *)
Record table_room (m : t) : Prop := {
  room_ok : table_ok m;
  room_free : (length (dedup_order m) < DEDUP_CAPACITY)%nat
}.

Lemma capacity_pos : (0 < DEDUP_CAPACITY)%nat.
Proof. unfold DEDUP_CAPACITY. lia. Qed.

Lemma evict_room m : table_ok m → table_room (evict m).
Proof.
  intros [Hnd Hag Hlen]. unfold evict. case_decide as Hfull; [|split; [done|lia]].
  destruct (dedup_order m) as [|old order] eqn:Ho.
  { pose proof capacity_pos. simpl in Hfull. lia. }
  apply NoDup_cons in Hnd as [Hold Hnd]. simpl in *. split; [split|]; simpl; [done| |lia|lia].
  intros id. rewrite lookup_delete_is_Some, <-Hag, elem_of_cons. naive_solver.
Qed.

Lemma remember_ok id r m :
  table_ok m → dedup_responses m !! id = None → table_ok (remember id r m).
Proof.
  intros Hok Hnew. destruct (evict_room m Hok) as [[Hnd Hag Hlen] Hfree].
  assert (dedup_responses (evict m) !! id = None) as Hnew'.
  { unfold evict. repeat case_match; simpl; try done. by apply lookup_delete_None; right. }
  unfold remember. split; simpl.
  - apply NoDup_app. split_and!; [done| |apply NoDup_singleton].
    intros x Hx ->%list_elem_of_singleton. apply Hag in Hx. rewrite Hnew' in Hx. by destruct Hx.
  - intros id'. rewrite elem_of_app, list_elem_of_singleton, Hag, lookup_insert_is_Some.
    destruct (decide (id = id')); naive_solver.
  - rewrite length_app. simpl. lia.
Qed.

(** [id] was applied with response [r], and at most [k] requests since. *)
Definition remembered (k : nat) (id : Uuid) (r : MetadataResponse.t) (m : t) : Prop :=
  dedup_responses m !! id = Some r ∧
  ∃ before after, dedup_order m = before ++ id :: after ∧ (length after <= k)%nat.

Lemma remember_remembered id r m : remembered 0 id r (remember id r m).
Proof.
  split; simpl; [by rewrite lookup_insert_eq|]. by exists (dedup_order (evict m)), [].
Qed.

Lemma remembered_weaken k k' id r m :
  (k <= k')%nat → remembered k id r m → remembered k' id r m.
Proof. intros ? [? (before & after & ? & ?)]. split; [done|]. exists before, after. split; [done|lia]. Qed.

(** A request leaves the table only when a full capacity of later ones has come. *)
Lemma evict_remembered k id r m :
  table_ok m → (S k < DEDUP_CAPACITY)%nat → remembered k id r m → remembered k id r (evict m).
Proof.
  intros [Hnd _ _] Hk [Hr (before & after & Ho & Hlen)]. unfold evict. rewrite Ho in *.
  case_decide as Hfull; [|by split; [|by exists before, after]].
  rewrite length_app in Hfull. simpl in Hfull.
  destruct before as [|old before]; simpl in *; [lia|].
  split; simpl; [|by exists before, after]. rewrite lookup_delete_ne; [done|].
  intros ->. apply NoDup_cons in Hnd as [Hnot _]. apply Hnot. set_solver.
Qed.

Lemma remember_keeps k id id' r r' m :
  table_ok m → (S k < DEDUP_CAPACITY)%nat → id' ≠ id → remembered k id r m →
  remembered (S k) id r (remember id' r' m).
Proof.
  intros Hok Hk Hne Hrem.
  destruct (evict_remembered _ _ _ _ Hok Hk Hrem) as [Hr (before & after & Ho & Hlen)].
  split; simpl; [by rewrite lookup_insert_ne|].
  exists before, (after ++ [id']). rewrite Ho, length_app, <-app_assoc. simpl. split; [done|lia].
Qed.

Section dedup.
Context `{Fmt, Blake3}.

Lemma apply_table m i c r m' : table_ok m → apply i c m = Some (r, m') → table_ok m'.
Proof.
  intros Hok Happly. unfold apply in Happly.
  destruct (dedup_responses m !! _) as [original|] eqn:Hd; [by simplify_eq|].
  destruct (run _ _) as [[r0 s]|]; simplify_eq/=. apply remember_ok; [|done].
  destruct Hok. by split.
Qed.

Lemma reachable_table m : reachable m → table_ok m.
Proof.
  induction 1; [|by eapply apply_table].
  split; simpl; [apply NoDup_nil_2| |pose proof capacity_pos; lia].
  intros id. rewrite lookup_empty. split; [by intros ?%not_elem_of_nil|by intros []].
Qed.

Lemma apply_keeps k id r m i c r' m' :
  table_ok m → (S k < DEDUP_CAPACITY)%nat → remembered k id r m →
  apply i c m = Some (r', m') → remembered (S k) id r m'.
Proof.
  intros Hok Hk Hrem Happly. unfold apply in Happly.
  destruct (dedup_responses m !! _) as [original|] eqn:Hd.
  { simplify_eq. by apply (remembered_weaken k); [lia|]. }
  destruct (run _ _) as [[r0 s]|]; simplify_eq/=. apply remember_keeps; try done.
  - destruct Hok. by split.
  - intros <-. destruct Hrem. congruence.
Qed.

Lemma apply_log_keeps log k id r m rs m' :
  table_ok m → (k + length log < DEDUP_CAPACITY)%nat → remembered k id r m →
  apply_log log m = Some (rs, m') → remembered (k + length log) id r m'.
Proof.
  revert k m rs. induction log as [|[i c] log IH]; intros k m rs Hok Hk Hrem Happly; simpl in *.
  { simplify_eq. by rewrite Nat.add_0_r. }
  destruct (apply i c m) as [[r1 m1]|] eqn:H1; [|done]. simpl in Happly.
  destruct (apply_log log m1) as [[rs' m2]|] eqn:H2; [|done]. simplify_eq/=.
  replace (k + S (length log))%nat with (S k + length log)%nat by lia.
  eapply IH; [by eapply apply_table|lia| |exact H2].
  eapply apply_keeps; [done| |done|exact H1]. lia.
Qed.

(** * Theorems *)

(** C19. Exactly once: after a command is applied for the first time, and as long as
    fewer than DEDUP_CAPACITY entries have followed it, any command with its
    request id gets the original response and changes nothing at all. *)
Theorem apply_exactly_once m i c r m1 log rs m2 i' c' :
  reachable m →
  has_applied_request m (CommandEnvelope.request_id (MetadataCommand.envelope c)) = false →
  apply i c m = Some (r, m1) → apply_log log m1 = Some (rs, m2) →
  (length log < DEDUP_CAPACITY)%nat →
  CommandEnvelope.request_id (MetadataCommand.envelope c')
    = CommandEnvelope.request_id (MetadataCommand.envelope c) →
  apply i' c' m2 = Some (r, m2).
Proof.
  intros Hm Hfresh Happly Hlog Hlen Hid.
  pose proof (apply_table _ _ _ _ _ (reachable_table _ Hm) Happly) as Hok1.
  assert (remembered 0 (CommandEnvelope.request_id (MetadataCommand.envelope c)) r m1) as Hrem.
  { unfold apply in Happly. unfold has_applied_request in Hfresh.
    apply bool_decide_eq_false in Hfresh.
    destruct (dedup_responses m !! _) as [original|]; [by destruct Hfresh|].
    destruct (run _ _) as [[r0 s]|]; simplify_eq/=. apply remember_remembered. }
  destruct (apply_log_keeps log 0 _ _ _ _ _ Hok1 Hlen Hrem Hlog) as [Hr _].
  unfold apply. by rewrite Hid, Hr.
Qed.

(** The table never exceeds its capacity and its queue and map never disagree. *)
Theorem dedup_table_bounded m :
  reachable m → table_ok m ∧ (dedup_len m <= DEDUP_CAPACITY)%nat.
Proof. intros Hm%reachable_table. split; [done|]. apply Hm. Qed.

End dedup.
