(* ===== verification/Encodable.v ===== *)
(** What the handlers write can be encoded: every record a command of the log stores
    fits the codec, and so does every response it is answered with.

    [keeps P c] says that [c], started where all records fit, leaves records that
    fit, answers with a response that fits, and otherwise yields a value satisfying
    [P].  It composes along the handlers without looking at the records. *)

From stdpp Require Import prelude gmap strings list pretty sorting.
From Stdlib Require Import ZArith Lia.
From S2P Require Import Prelude Wire Codec Keys KeyRange Command Placement CommandCodec.
From S2P Require Import CommandRoundtrip ResponseCodec Records ValueCodec ValueRoundtrip Flow.
From S2P Require Import LeaseOps GroupOps RangeOps SegmentOps RetentionOps Apply Snapshot.
From S2P Require Import SnapshotRoundtrip Steps Refine Invariants Reachable Dedup.

(** * Text of a rejection *)

Lemma utf8_app xs ys : utf8_valid xs = true → utf8_valid ys = true → utf8_valid (xs ++ ys) = true.
Proof.
  remember (length xs) as n eqn:Hn. revert xs Hn.
  induction (lt_wf n) as [n _ IH]. intros xs -> Hx Hy.
  destruct (decide (xs = [])) as [->|Hne]; [done|].
  destruct (DetailFacts.utf8_first xs Hx Hne) as (c & rest & -> & Hc & Hrest & Happ & _).
  rewrite <-app_assoc. apply Happ. eapply IH; [|done|done|done]. rewrite length_app. lia.
Qed.

Lemma as_bytes_app a b : as_bytes (a +:+ b) = as_bytes a ++ as_bytes b.
Proof.
  unfold as_bytes. rewrite <-fmap_app. f_equal. induction a as [|c a IH]; [done|].
  simpl. by f_equal.
Qed.

Lemma valid_str_app a b : valid_str a → valid_str b → valid_str (a +:+ b).
Proof. unfold valid_str. rewrite as_bytes_app. apply utf8_app. Qed.

Lemma valid_str_digit n s : valid_str s → valid_str (String (pretty_N_char n) s).
Proof.
  intros Hs. change (valid_str (String (pretty_N_char n) "" +:+ s)). apply valid_str_app; [|done].
  unfold pretty_N_char. by repeat case_match; vm_compute.
Qed.

Lemma valid_pretty_N_go n s : valid_str s → valid_str (pretty_N_go n s).
Proof.
  revert s. induction (N.lt_wf_0 n) as [n _ IH]. intros s Hs.
  destruct (decide (0 < n)%N) as [Hn|].
  - rewrite pretty_N_go_step by done. apply IH; [|by apply valid_str_digit].
    apply N.div_lt; [done|]. lia.
  - assert (n = 0%N) as -> by lia. by rewrite pretty_N_go_0.
Qed.

Lemma valid_pretty_N (n : N) : valid_str (pretty n).
Proof.
  unfold pretty, pretty_N. case_decide; [by vm_compute|]. by apply valid_pretty_N_go.
Qed.

Lemma valid_pretty_nat (n : nat) : valid_str (pretty n).
Proof. apply valid_pretty_N. Qed.

Lemma valid_pretty_Z (n : Z) : valid_str (pretty n).
Proof.
  destruct n; [by vm_compute|apply valid_pretty_N|].
  apply (valid_str_app "-" (pretty (N.pos p))); [by vm_compute|apply valid_pretty_N].
Qed.

(** The formatting the handlers are given yields text, as any [String] is. *)
Class FmtText `{Fmt} : Prop := {
  uuid_display_valid u : valid_str (uuid_display u);
  str_debug_valid s : valid_str (str_debug s)
}.

Lemma node_state_text st : valid_str (NodeState.as_str st).
Proof. by destruct st; vm_compute. Qed.

Ltac valid_text :=
  lazymatch goal with
  | |- valid_str (_ +:+ _) => apply valid_str_app; valid_text
  | |- valid_str (String _ _) => vm_compute; reflexivity
  | |- valid_str EmptyString => vm_compute; reflexivity
  | |- valid_str (uuid_display _) => apply uuid_display_valid
  | |- valid_str (str_debug _) => apply str_debug_valid
  | |- valid_str (NodeState.as_str _) => apply node_state_text
  | |- valid_str (int_display _) => apply valid_pretty_Z
  | |- valid_str (@pretty Z _ _) => apply valid_pretty_Z
  | |- valid_str (@pretty nat _ _) => apply valid_pretty_nat
  | |- valid_str (match _ with _ => _ end) => case_match; valid_text
  | |- _ => first [assumption | (vm_compute; reflexivity)]
  end.

Lemma bound_detail_text detail :
  valid_str detail → text_ok MAX_ERROR_DETAIL_BYTES (bound_detail detail).
Proof. intros Hv. by destruct (error_detail_bounded detail Hv) as (? & ? & _). Qed.

(** * Records that fit *)

Definition fits : RecordMap → Prop := map_Forall (λ _, value_ok).

Lemma fits_put key v s : value_ok v → fits s → fits (put key v s).
Proof. Transparent put. unfold put. Opaque put. intros Hv Hs. by apply map_Forall_insert_2. Qed.

Lemma fits_del key s : fits s → fits (del key s).
Proof. Transparent del. unfold del. Opaque del. intros Hs. by apply map_Forall_delete. Qed.

Lemma fits_record key v s : fits s → record s key = Some v → value_ok v.
Proof. rewrite record_lookup. intros Hs Hr. by apply (Hs _ _ Hr). Qed.

(** The value under a key fits, if there is one. *)
Definition opt_ok (o : option MetaValue.t) : Prop := from_option value_ok True o.

Lemma fits_opt key s : fits s → opt_ok (record s key).
Proof. intros Hs. destruct (record s key) eqn:Hr; [|done]. by eapply fits_record. Qed.

Definition keeps {A} (P : A → Prop) (c : M A) : Prop :=
  ∀ s, fits s →
    match c s with
    | Next a s' => P a ∧ fits s'
    | Done r s' => response_ok r ∧ fits s'
    | Panic => True
    end.

(** A handler keeps the records when it also answers with a response that fits. *)
Abbreviation keeps_handler c := (keeps response_ok c).

Section rules.
Context {A : Type} (P : A → Prop).

Lemma keeps_ret a : P a → keeps P (mret a).
Proof. by intros Ha s Hs. Qed.

Lemma keeps_bind {B} (Q : B → Prop) (c : M B) (k : B → M A) :
  keeps Q c → (∀ b, Q b → keeps P (k b)) → keeps P (c ≫= k).
Proof.
  intros Hc Hk s Hs. specialize (Hc s Hs). unfold mbind, M_bind.
  destruct (c s); [|done|done]. destruct Hc as [Hb Hs']. by apply Hk.
Qed.

Lemma keeps_return r : response_ok r → keeps P (return_ r).
Proof. by intros Hr s Hs. Qed.

Lemma keeps_unreachable : keeps P unreachable.
Proof. by intros s Hs. Qed.

Lemma keeps_query (f : RecordMap → A) : (∀ s, fits s → P (f s)) → keeps P (query f).
Proof. intros Hf s Hs. split; [by apply Hf|done]. Qed.

Lemma keeps_weaken (Q : A → Prop) c : keeps Q c → (∀ a, Q a → P a) → keeps P c.
Proof. intros Hc HQ s Hs. specialize (Hc s Hs). destruct (c s); naive_solver. Qed.
End rules.

Lemma keeps_some_or {A} (o : option A) e :
  error_ok e → keeps (λ a, o = Some a) (some_or o e).
Proof. intros He. destruct o; [by apply keeps_ret|by apply keeps_return]. Qed.

Lemma keeps_some_or_panic {A} (o : option A) : keeps (λ a, o = Some a) (some_or_panic o).
Proof. destruct o; [by apply keeps_ret|apply keeps_unreachable]. Qed.

Lemma keeps_reject_if P `{!Decision P} e : error_ok e → keeps (λ _, ¬ P) (reject_if P e).
Proof. intros He. unfold reject_if. case_decide; [by apply keeps_return|by apply keeps_ret]. Qed.

Lemma keeps_get key : keeps opt_ok (get key).
Proof. intros s Hs. split; [by apply fits_opt|done]. Qed.

Lemma keeps_insert key v : value_ok v → keeps (λ _, True) (insert_record key v).
Proof. intros Hv s Hs. split; [done|by apply fits_put]. Qed.

Lemma keeps_remove key : keeps (λ _, True) (remove_record key).
Proof. intros s Hs. split; [done|by apply fits_del]. Qed.

Section fetch.
Context {A : Type} {as_ : MetaValue.t → option A} {wrap : A → MetaValue.t} `{!Variant as_ wrap}.

Lemma opt_ok_as v a : opt_ok v → v ≫= as_ = Some a → value_ok (wrap a).
Proof. destruct v as [v|]; [|done]. simpl. intros Hv ->%variant_as. done. Qed.

Lemma keeps_fetch key e : error_ok e → keeps (λ a, value_ok (wrap a)) (fetch as_ key e).
Proof.
  intros He. eapply keeps_bind; [apply keeps_get|]. intros v Hv.
  eapply keeps_weaken; [by apply keeps_some_or|]. intros a. by apply opt_ok_as.
Qed.

Lemma keeps_fetch_again key : keeps (λ a, value_ok (wrap a)) (fetch_again as_ key).
Proof.
  eapply keeps_bind; [apply keeps_get|]. intros v Hv.
  eapply keeps_weaken; [apply keeps_some_or_panic|]. intros a. by apply opt_ok_as.
Qed.

Lemma keeps_fetch_strict key e :
  error_ok e → keeps (λ a, value_ok (wrap a)) (fetch_strict as_ key e).
Proof.
  intros He. eapply keeps_bind; [apply keeps_get|]. intros v Hv.
  eapply keeps_bind; [by apply keeps_some_or|]. intros v' ->.
  eapply keeps_weaken; [apply keeps_some_or_panic|]. intros a ->%variant_as. done.
Qed.

Lemma keeps_fetch_optional key :
  keeps (λ o, ∀ a, o = Some a → value_ok (wrap a)) (fetch_optional as_ key).
Proof.
  eapply keeps_bind; [apply keeps_get|]. intros [v|] Hv; [|by apply keeps_ret].
  eapply keeps_bind; [apply keeps_some_or_panic|]. intros a ->%variant_as.
  apply keeps_ret. by intros ? [= <-].
Qed.
End fetch.

(** Errors the handlers answer with. *)
Ltac error_fits :=
  match goal with
  | |- error_ok (MetadataError.limit _) => apply bound_detail_text; valid_text
  | |- error_ok (MetadataError.invalid_transition _) => apply bound_detail_text; valid_text
  | |- response_ok (reject (MetadataError.invalid_transition _)) =>
      apply bound_detail_text; valid_text
  | |- _ => first [exact I|solve [eauto with keep]]
  | |- error_ok ?e => let f := head_of e in unfold f; error_fits
  end.

Create HintDb keep discriminated.

(** An operation that is not a sequence, with what its value satisfies. *)
Ltac keep_op :=
  first
    [ apply keeps_get
    | apply keeps_remove
    | apply keeps_insert; try done
    | eapply keeps_fetch; error_fits
    | eapply keeps_fetch_strict; error_fits
    | apply keeps_fetch_again
    | apply keeps_fetch_optional
    | apply keeps_some_or; error_fits
    | apply keeps_some_or_panic
    | apply keeps_reject_if; error_fits
    | solve [eauto with keep]
    | apply (keeps_query (λ _, True)); done ].

(** One step of a handler. *)
Ltac keep_step :=
  lazymatch goal with
  | |- keeps _ (match _ with _ => _ end ≫= _) =>
      apply (keeps_bind _ (λ _, True)); [|intros ? _]
  | |- keeps _ (_ ≫= _) => eapply keeps_bind; [keep_op|cbv beta; intros ??]
  | |- keeps _ (mret _) => apply keeps_ret; try done
  | |- keeps _ unreachable => apply keeps_unreachable
  | |- keeps _ (return_ _) => apply keeps_return; try error_fits
  | |- keeps _ (match ?o with _ => _ end) => destruct o eqn:?
  | |- keeps (λ _, True) _ => eapply keeps_weaken; [keep_op|done]
  end; cbn beta zeta.
Ltac keep_steps := repeat keep_step.

(** A value built from one that fits. *)
Ltac value_fits :=
  repeat match goal with Hv : opt_ok ?v, He : ?v ≫= _ = Some _ |- _ =>
    apply (opt_ok_as _ _ Hv) in He end;
  cbn [value_ok opt_ok from_option] in *; simpl; try naive_solver.

Abbreviation guard_keeps c := (keeps (λ _, True) c).

Section keeps.
Context `{!Fmt, !FmtText, !Blake3}.

(** * Nodes, topics, features *)

Lemma register_node_keeps n addr g :
  name_ok MAX_NODE_ADDR_BYTES addr → keeps_handler (register_node n addr g).
Proof. intros [Haddr _]. unfold register_node. keep_steps; value_fits. Qed.

Lemma set_node_state_keeps n st g : keeps_handler (set_node_state n st g).
Proof. unfold set_node_state. keep_steps; value_fits. Qed.

Lemma set_node_placement_attrs_keeps n d w g :
  text_ok MAX_FAILURE_DOMAIN_BYTES d → keeps_handler (set_node_placement_attrs n d w g).
Proof. intros Hd. unfold set_node_placement_attrs. keep_steps; value_fits. Qed.

Lemma create_topic_keeps name t r :
  name_ok MAX_TOPIC_NAME_BYTES name → keeps_handler (create_topic name t r).
Proof. intros [Hname _]. unfold create_topic. keep_steps; value_fits. Qed.

Lemma set_feature_level_keeps l : keeps_handler (set_feature_level l).
Proof. unfold set_feature_level. keep_steps; value_fits. Qed.

(** * Leases and replica sets *)

Lemma require_active_node_keeps role n :
  valid_str role → guard_keeps (require_active_node role n).
Proof. intros Hrole. unfold require_active_node. keep_steps. Qed.

Lemma mint_transition_keeps t r transition :
  RangeTransitionRecord.outcome transition = TransitionOutcome.Pending →
  guard_keeps (mint_transition t r transition).
Proof. intros Ho. unfold mint_transition. keep_steps. simpl. by rewrite Ho. Qed.

Lemma election_guard_keeps existing h now : guard_keeps (election_guard existing h now).
Proof. unfold election_guard. keep_steps. Qed.

Hint Extern 1 (keeps _ (require_active_node _ _)) =>
  (apply require_active_node_keeps; vm_compute; reflexivity) : keep.
Hint Extern 1 (keeps _ (mint_transition _ _ _)) =>
  (apply mint_transition_keeps; reflexivity) : keep.
Hint Resolve election_guard_keeps : keep.

Lemma grant_range_lease_keeps i now t r h g : keeps_handler (grant_range_lease i now t r h g).
Proof. unfold grant_range_lease. keep_steps; value_fits. Qed.

Lemma acquire_range_lease_keeps i now t r h g d :
  keeps_handler (acquire_range_lease i now t r h g d).
Proof. unfold acquire_range_lease. keep_steps; value_fits. Qed.

Lemma renew_range_lease_keeps now t r h e d : keeps_handler (renew_range_lease now t r h e d).
Proof. unfold renew_range_lease. keep_steps; value_fits. Qed.

Lemma cleared_lease_fits range :
  value_ok (MetaValue.Range range) → value_ok (MetaValue.Range (cleared_lease range)).
Proof. unfold cleared_lease. by case_match. Qed.

Lemma release_range_lease_keeps t r e : keeps_handler (release_range_lease t r e).
Proof. unfold release_range_lease. keep_steps; value_fits. Qed.

Lemma report_promotion_outcome_keeps i now t r h e o :
  outcome_ok o → keeps_handler (report_promotion_outcome i now t r h e o).
Proof. intros Ho. unfold report_promotion_outcome. keep_steps; value_fits. Qed.

Lemma replica_set_change_guard_keeps t r members current :
  guard_keeps (replica_set_change_guard t r members current).
Proof. unfold replica_set_change_guard. keep_steps. Qed.
Hint Resolve replica_set_change_guard_keeps : keep.

Lemma sorted_in_order (l : list Uuid) :
  NoDup l → StronglySorted int_le l → ValueCodec.out_of_order l = false.
Proof.
  intros Hnd Hs. induction Hs as [|a l Hs IH Ha]; [done|]. apply NoDup_cons in Hnd as [Hnot Hnd].
  destruct l as [|b l]; [done|]. apply orb_false_iff. split; [|by apply IH].
  apply Forall_cons in Ha as [Ha _]. unfold int_le in Ha. apply Z.leb_gt.
  assert (ival a ≠ ival b); [|lia]. intros Heq%(inj ival). subst. apply Hnot. by left.
Qed.

Lemma set_range_replica_set_keeps t r members g :
  (length members <= MAX_REPLICAS)%nat → keeps_handler (set_range_replica_set t r members g).
Proof.
  intros Hlen. unfold set_range_replica_set. keep_steps; value_fits.
  - unfold cleared_lease. by case_match.
  - apply not_or_and in H3 as [? Hl%dec_stable]. destruct (sort_dedup_facts members).
    split_and!; [done|by rewrite Hl|by apply sorted_in_order].
Qed.

(** * Groups *)

Lemma require_keeps {A} (as_ : MetaValue.t → option A) wrap `{!Variant as_ wrap} key e :
  error_ok e → guard_keeps (require as_ key e).
Proof. intros He. unfold require. eapply keeps_bind; [by apply keeps_fetch|]. by intros; apply keeps_ret. Qed.
Hint Extern 1 (keeps _ (require _ _ _)) => (eapply require_keeps; [apply _|error_fits]) : keep.

Lemma put_key_record_keeps k sch d : keeps_handler (put_key_record k sch d).
Proof. unfold put_key_record. keep_steps. Qed.

Lemma create_consumer_group_keeps name g :
  name_ok MAX_GROUP_NAME_BYTES name → keeps_handler (create_consumer_group name g).
Proof. intros [Hname _]. unfold create_consumer_group, group_name_limit. keep_steps. Qed.

Lemma set_group_generation_keeps g n : guard_keeps (set_group_generation g n).
Proof. unfold set_group_generation. keep_steps; value_fits. Qed.
Hint Resolve set_group_generation_keeps : keep.

Lemma join_consumer_group_keeps i g m e : keeps_handler (join_consumer_group i g m e).
Proof. unfold join_consumer_group. keep_steps; value_fits. Qed.

Lemma leave_consumer_group_keeps g m e : keeps_handler (leave_consumer_group g m e).
Proof. unfold leave_consumer_group. keep_steps; value_fits. Qed.

Lemma heartbeat_member_keeps i g m : keeps_handler (heartbeat_member i g m).
Proof. unfold heartbeat_member. keep_steps; value_fits. Qed.

Lemma expire_stale_member_keeps g m e : keeps_handler (expire_stale_member g m e).
Proof. unfold expire_stale_member. keep_steps; value_fits. Qed.

Lemma check_assignments_keeps seen ranges : guard_keeps (check_assignments seen ranges).
Proof. revert seen. induction ranges as [|a ranges IH]; intros seen; simpl; keep_steps. Qed.

Lemma reject_if_taken_keeps g m ranges : guard_keeps (reject_if_taken g m ranges).
Proof. unfold reject_if_taken. keep_steps. Qed.
Hint Resolve check_assignments_keeps reject_if_taken_keeps : keep.

Lemma assign_member_ranges_keeps g m ranges e : keeps_handler (assign_member_ranges g m ranges e).
Proof. unfold assign_member_ranges. keep_steps; value_fits. Qed.

Lemma ensure_member_keeps i g m a : guard_keeps (ensure_member i g m a).
Proof.
  unfold ensure_member. keep_steps; value_fits.
  rewrite length_app. simpl in *. lia.
Qed.

Lemma ensure_group_keeps name g :
  name_ok MAX_GROUP_NAME_BYTES name → guard_keeps (ensure_group name g).
Proof. intros [Hname _]. unfold ensure_group. keep_steps; value_fits. Qed.

Lemma name_guard_keeps name g : guard_keeps (name_guard name g).
Proof. unfold name_guard. keep_steps. Qed.
Hint Resolve ensure_member_keeps ensure_group_keeps name_guard_keeps : keep.

Lemma ensure_group_member_for_range_keeps i name g m t r :
  name_ok MAX_GROUP_NAME_BYTES name →
  keeps_handler (ensure_group_member_for_range i name g m t r).
Proof.
  intros Hname. unfold ensure_group_member_for_range. keep_steps; value_fits.
Qed.

(** * Cursors *)

Lemma cursor_segment_guard_keeps args : guard_keeps (cursor_segment_guard args).
Proof. unfold cursor_segment_guard. keep_steps. Qed.

Lemma cursor_forward_error args existing e :
  cursor_is_forward_or_equal args existing = Err e → error_ok e.
Proof.
  unfold cursor_is_forward_or_equal. repeat case_decide; try done; intros [= <-]; error_fits.
Qed.

Lemma cursor_update_guard_keeps args legacy lineage existing :
  guard_keeps (cursor_update_guard args legacy lineage existing).
Proof.
  unfold cursor_update_guard. keep_steps. by eapply cursor_forward_error.
Qed.
Hint Resolve cursor_segment_guard_keeps cursor_update_guard_keeps : keep.

Lemma commit_group_cursor_keeps args : keeps_handler (commit_group_cursor args).
Proof. unfold commit_group_cursor. keep_steps. Qed.

(** * Segments and splits *)

Lemma leaseholder_gate_keeps t r h e : guard_keeps (leaseholder_gate t r h e).
Proof.
  unfold leaseholder_gate. apply (keeps_bind _ (from_option response_ok True)).
  - apply keeps_query. intros s _. unfold not_the_leaseholder. by repeat case_match.
  - intros [] ?; keep_steps.
Qed.

Lemma seal_guard_keeps seal next : guard_keeps (seal_guard seal next).
Proof. unfold seal_guard. keep_steps. Qed.
Hint Resolve leaseholder_gate_keeps seal_guard_keeps : keep.

Lemma register_sealed_segment_keeps t r g sg b n root e rg :
  keeps_handler (register_sealed_segment t r g sg b n root e rg).
Proof. unfold register_sealed_segment. keep_steps; value_fits. Qed.

Lemma mark_segment_verified_keeps t r g root e :
  keeps_handler (mark_segment_verified t r g root e).
Proof. unfold mark_segment_verified. keep_steps; value_fits. Qed.

Lemma split_id_guard_keeps args : guard_keeps (split_id_guard args).
Proof. unfold split_id_guard. keep_steps. Qed.

Lemma split_replay_keeps args parent : guard_keeps (split_replay args parent).
Proof. unfold split_replay. keep_steps. Qed.

Lemma barrier_guard_keeps args : guard_keeps (barrier_guard args).
Proof. unfold barrier_guard. keep_steps. Qed.

Lemma inherit_replica_set_keeps args set :
  from_option replica_set_ok True set → guard_keeps (inherit_replica_set args set).
Proof. intros Hset. unfold inherit_replica_set. keep_steps; value_fits. Qed.
Hint Resolve split_id_guard_keeps split_replay_keeps barrier_guard_keeps inherit_replica_set_keeps : keep.

Lemma range_replica_set_fits t r :
  keeps (from_option replica_set_ok True)
    (query (λ s, RangeReplicaSetRecord.members <$> range_replica_set s t r)).
Proof.
  apply keeps_query. intros s Hs. unfold range_replica_set.
  destruct (record s _ ≫= as_RangeReplicaSet) as [set|] eqn:Hr; [|done].
  exact (opt_ok_as _ _ (fits_opt _ _ Hs) Hr).
Qed.
Hint Resolve range_replica_set_fits : keep.

Lemma split_commit_keeps args parent left right :
  value_ok (MetaValue.Range parent) → keeps_handler (split_commit args parent left right).
Proof. intros Hp. unfold split_commit. keep_steps; value_fits. Qed.

Lemma children_error range e :
  KeyRange.children range = Err e → valid_str (LogError_display e).
Proof.
  unfold KeyRange.children, KeyRange.validate, mbind, result_bind.
  repeat case_decide; intros [= <-]; simpl; valid_text.
Qed.

Lemma split_range_keeps args : keeps_handler (split_range args).
Proof.
  unfold split_range. keep_steps; value_fits; [by apply split_commit_keeps|].
  apply bound_detail_text, valid_str_app; [by vm_compute|by eapply children_error].
Qed.

(** * Placement and replica moves *)

Lemma placement_shape_guard_keeps rf nodes :
  keeps (λ _, (length nodes <= MAX_REPLICAS)%nat) (placement_shape_guard rf nodes).
Proof.
  unfold placement_shape_guard. keep_steps.
  eapply keeps_weaken; [keep_op|]. intros; lia.
Qed.

Lemma placement_error_text e : valid_str (PlacementError_display e).
Proof. destruct e; simpl; valid_text. Qed.

Lemma placement_choice_guard_keeps g rf nodes : guard_keeps (placement_choice_guard g rf nodes).
Proof.
  unfold placement_choice_guard. keep_steps. apply bound_detail_text, placement_error_text.
Qed.
Hint Resolve placement_shape_guard_keeps placement_choice_guard_keeps : keep.

Lemma commit_segment_placement_keeps i t r g rf nodes sg pg :
  keeps_handler (commit_segment_placement i t r g rf nodes sg pg).
Proof.
  unfold commit_segment_placement. keep_steps; value_fits.
  all: unfold MAX_TRANSIENT_REPLICAS; lia.
Qed.

Lemma require_lease_epoch_keeps what t r e :
  valid_str what → guard_keeps (require_lease_epoch what t r e).
Proof. intros Hwhat. unfold require_lease_epoch. keep_steps. Qed.
Hint Extern 1 (keeps _ (require_lease_epoch _ _ _ _)) =>
  (apply require_lease_epoch_keeps; vm_compute; reflexivity) : keep.

Lemma require_not_dead_keeps nodes : guard_keeps (require_not_dead nodes).
Proof. induction nodes; simpl; keep_steps. Qed.

Lemma proof_intent_guard_keeps args : guard_keeps (proof_intent_guard args).
Proof. unfold proof_intent_guard. keep_steps. Qed.

Lemma proof_generation_keeps args existing : guard_keeps (proof_generation args existing).
Proof. unfold proof_generation. keep_steps. Qed.
Hint Resolve require_not_dead_keeps proof_intent_guard_keeps proof_generation_keeps : keep.

Lemma commit_replacement_proof_keeps args i : keeps_handler (commit_replacement_proof args i).
Proof. unfold commit_replacement_proof. keep_steps; value_fits. Qed.

Lemma retirement_intent_guard_keeps t r g n : guard_keeps (retirement_intent_guard t r g n).
Proof. unfold retirement_intent_guard. keep_steps. Qed.
Hint Resolve retirement_intent_guard_keeps : keep.

Lemma plan_replica_retirement_keeps t r g n sg e :
  keeps_handler (plan_replica_retirement t r g n sg e).
Proof. unfold plan_replica_retirement. keep_steps; value_fits. Qed.

Lemma retirement_placement_keeps placement n d :
  guard_keeps (retirement_placement placement n d).
Proof. unfold retirement_placement. keep_steps. Qed.

Lemma update_if_keeps {A} {as_ : MetaValue.t → option A} {wrap} `{!Variant as_ wrap} key f :
  (∀ a, value_ok (wrap a) → value_ok (wrap (f a))) → guard_keeps (update_if as_ wrap key f).
Proof.
  intros Hf. unfold update_if. keep_steps. apply Hf. by eapply opt_ok_as.
Qed.
Hint Resolve retirement_placement_keeps : keep.
Lemma filtered_replicas_fit P `{!∀ n : Uuid, Decision (P n)} next i placement :
  value_ok (MetaValue.SegmentPlacement placement) →
  value_ok (MetaValue.SegmentPlacement
    (SegmentPlacementRecord.set_replicas
       (filter P (SegmentPlacementRecord.replica_nodes placement)) next i placement)).
Proof.
  cbn [value_ok]. simpl. intros Hlen. etrans; [apply length_filter|done].
Qed.

Hint Extern 1 (keeps _ (update_if _ _ _ _)) =>
  (eapply update_if_keeps; intros ? ?; first [exact I|by apply filtered_replicas_fit]) : keep.

Lemma confirm_replica_retired_keeps i t r g n sg :
  keeps_handler (confirm_replica_retired i t r g n sg).
Proof. unfold confirm_replica_retired. keep_steps; value_fits. Qed.

Lemma check_survivors_keeps d nodes :
  guard_keeps (check_survivors d nodes).
Proof. induction nodes; simpl; keep_steps. Qed.

Lemma destination_guard_keeps n node : guard_keeps (destination_guard n node).
Proof. unfold destination_guard. keep_steps. Qed.
Hint Resolve check_survivors_keeps destination_guard_keeps : keep.

(** The placement is read again under the bound checked before. *)
Lemma keeps_wp {A} (P : A → Prop) c :
  (∀ s, fits s →
    wp c (λ a s', P a ∧ fits s') (λ r s', response_ok r ∧ fits s') s) → keeps P c.
Proof. intros Hc s Hs. specialize (Hc s Hs). unfold wp in Hc. by destruct (c s). Qed.

Hint Extern 1 (response_ok (reject _) ∧ fits _) => (split; [error_fits|assumption]) : flow.

Lemma wp_check_survivors_fits Q d nodes s :
  fits s → Q tt s → wp (check_survivors d nodes) Q (λ r s', response_ok r ∧ fits s') s.
Proof. intros Hs HQ. induction nodes as [|n nodes IH]; simpl; by wp_steps. Qed.

Lemma propose_rebalance_keeps i t r g n1 n2 pg :
  keeps_handler (propose_rebalance i t r g n1 n2 pg).
Proof.
  apply keeps_wp. intros s Hs. unfold propose_rebalance, destination_guard.
  wp_steps; [apply wp_check_survivors_fits; [done|]; wp_steps|].
  all: split; [done|]; apply fits_put; [|by apply fits_put].
  all: cbn [value_ok]; simpl; rewrite length_app; simpl; lia.
Qed.

Lemma cancel_proof_guard_keeps proof intent : guard_keeps (cancel_proof_guard proof intent).
Proof. unfold cancel_proof_guard. keep_steps. Qed.
Hint Resolve cancel_proof_guard_keeps : keep.

Lemma cancel_rebalance_keeps i t r g pg : keeps_handler (cancel_rebalance i t r g pg).
Proof. unfold cancel_rebalance. keep_steps. by apply filtered_replicas_fit. Qed.

(** * Tier evidence and retention *)

Lemma version_id_guard_keeps what lo v : valid_str what → guard_keeps (version_id_guard what lo v).
Proof. intros Hwhat. unfold version_id_guard. keep_steps. Qed.
Hint Extern 1 (keeps _ (version_id_guard _ _ _)) =>
  (apply version_id_guard_keeps; vm_compute; reflexivity) : keep.

Lemma tier_bounds_guard_keeps args : guard_keeps (tier_bounds_guard args).
Proof. unfold tier_bounds_guard. keep_steps. Qed.
Hint Resolve tier_bounds_guard_keeps : keep.

Lemma commit_tier_evidence_keeps args i :
  value_ok (MetaValue.TierCopy (TierCopyRecord.mk zero
    (CommitTierEvidenceArgs.expected_segment_generation args)
    (CommitTierEvidenceArgs.content_root args) (CommitTierEvidenceArgs.byte_length args)
    (CommitTierEvidenceArgs.backend_id args) (CommitTierEvidenceArgs.object_uri args)
    (CommitTierEvidenceArgs.object_version_id args)
    (CommitTierEvidenceArgs.manifest_version_id args)
    (CommitTierEvidenceArgs.manifest_core_digest args)
    (CommitTierEvidenceArgs.verification_method args)
    (CommitTierEvidenceArgs.verifier_node_uuid args) i
    (CommitTierEvidenceArgs.verified_term args)
    (CommitTierEvidenceArgs.fencing_epoch args))) →
  keeps_handler (commit_tier_evidence args i).
Proof. intros Hv. unfold commit_tier_evidence. keep_steps. Qed.

Lemma set_topic_retention_policy_keeps t b g :
  keeps_handler (set_topic_retention_policy t b g).
Proof. unfold set_topic_retention_policy. keep_steps. Qed.

Lemma evidence_gate_keeps t r g root : guard_keeps (evidence_gate t r g root).
Proof. unfold evidence_gate. keep_steps. Qed.

Lemma cursor_protection_keeps t r n : guard_keeps (cursor_protection t r n).
Proof. unfold cursor_protection. keep_steps. Qed.

Lemma expired_placement_keeps placement : guard_keeps (expired_placement placement).
Proof. unfold expired_placement. keep_steps. Qed.
Hint Resolve evidence_gate_keeps cursor_protection_keeps expired_placement_keeps : keep.

Lemma plan_retention_keeps t r g sg e : keeps_handler (plan_retention t r g sg e).
Proof. unfold plan_retention. keep_steps. Qed.

Lemma confirm_retention_expired_keeps i t r g sg :
  keeps_handler (confirm_retention_expired i t r g sg).
Proof.
  unfold confirm_retention_expired. keep_steps.
  eapply update_if_keeps. intros a _. cbn [value_ok]. simpl. lia.
Qed.

Lemma cancel_retention_keeps t r g sg : keeps_handler (cancel_retention t r g sg).
Proof. unfold cancel_retention. keep_steps. Qed.

(** * Every command *)

Hint Resolve register_node_keeps set_node_state_keeps set_node_placement_attrs_keeps
  create_topic_keeps set_feature_level_keeps grant_range_lease_keeps acquire_range_lease_keeps
  renew_range_lease_keeps release_range_lease_keeps report_promotion_outcome_keeps
  set_range_replica_set_keeps put_key_record_keeps create_consumer_group_keeps
  join_consumer_group_keeps leave_consumer_group_keeps heartbeat_member_keeps
  expire_stale_member_keeps assign_member_ranges_keeps ensure_group_member_for_range_keeps
  commit_group_cursor_keeps register_sealed_segment_keeps mark_segment_verified_keeps
  split_range_keeps commit_segment_placement_keeps commit_replacement_proof_keeps
  plan_replica_retirement_keeps confirm_replica_retired_keeps propose_rebalance_keeps
  cancel_rebalance_keeps commit_tier_evidence_keeps set_topic_retention_policy_keeps
  plan_retention_keeps confirm_retention_expired_keeps cancel_retention_keeps : keep.

Lemma apply_inner_keeps i c : wire_ok c → keeps_handler (apply_inner i c).
Proof.
  destruct c; cbn [wire_ok apply_inner]; intros Hok; try keep_step; try (by eauto with keep).
  by apply set_node_placement_attrs_keeps, Hok.
Qed.
End keeps.
