(* ===== verification/Restore.v ===== *)
(** Snapshots of states the log leads to: whatever commands were applied, the state
    has a snapshot as long as its records are not too many, and a node that installs
    it continues exactly as one that replayed the log. *)

From stdpp Require Import prelude gmap strings list.
From Stdlib Require Import ZArith Lia.
From S2P Require Import Prelude Wire Codec Keys Command Placement CommandRoundtrip ResponseCodec Records.
From S2P Require Import ValueRoundtrip Flow Apply Snapshot SnapshotRoundtrip Steps Refine.
From S2P Require Import Invariants Reachable Dedup Encodable.
Import MetaStateMachine.

Section restore.
Context `{!Fmt, !FmtText, !Blake3}.

(** A log of commands that came off the wire. *)
Definition wire_log (log : list (u64 * MetadataCommand.t)) : Prop := Forall (λ e, wire_ok e.2) log.

Lemma wire_log_valid log : wire_log log → log_valid log.
Proof. intros Hlog. eapply Forall_impl; [exact Hlog|]. intros [i c]. apply wire_ok_names. Qed.

(** Records and remembered answers fit the codec. *)
Definition machine_fits (m : t) : Prop :=
  fits (records m) ∧ map_Forall (λ _, response_ok) (dedup_responses m).

Lemma apply_fits m i c r m' :
  machine_fits m → wire_ok c → apply i c m = Some (r, m') → machine_fits m' ∧ response_ok r.
Proof.
  intros [Hs Hr] Hc. unfold apply. case_match eqn:Hd.
  { intros [= <- <-]. split; [done|]. by eapply Hr. }
  pose proof (apply_inner_keeps i c Hc (records m) Hs) as Hk. unfold run.
  destruct (apply_inner i c (records m)) as [r0 s|r0 s|]; [| |done].
  all: destruct Hk as [Hr0 Hs']; intros [= <- <-]; (split; [|done]); split;
    [by rewrite remember_records|].
  all: unfold remember, evict; repeat case_match; simpl;
    (apply map_Forall_insert_2; [done|]; first [done|by apply map_Forall_delete]).
Qed.

Lemma apply_log_fits log m rs m' :
  machine_fits m → wire_log log → apply_log log m = Some (rs, m') →
  machine_fits m' ∧ Forall response_ok rs.
Proof.
  revert m rs. induction log as [|[i c] log IH]; intros m rs Hm Hlog Happly; simpl in Happly.
  { simplify_eq. by split. }
  apply Forall_cons in Hlog as [Hc Hlog].
  destruct (apply i c m) as [[r m1]|] eqn:Ha; [|done]. simpl in Happly.
  destruct (apply_log log m1) as [[rs' m2]|] eqn:Hl; [|done]. simplify_eq/=.
  destruct (apply_fits m i c r m1 Hm Hc Ha) as [Hm1 Hr].
  destruct (IH m1 rs' Hm1 Hlog Hl) as [? ?]. split; [done|]. by constructor.
Qed.

Lemma new_fits : machine_fits new.
Proof. split; apply map_Forall_empty. Qed.

(** Transitions lie at their epoch and advance. *)
Lemma rstate_epochs s key v :
  rstate s → record s key = Some v → epochs_disagree key v = false.
Proof.
  intros Hs Hr. destruct key; try done. destruct v; try done.
  destruct (rstate_chain s Hs topic_uuid range_uuid) as [Hsome Hnone].
  destruct (record s (MetaKey.Range topic_uuid range_uuid)) as [x|] eqn:Hx.
  2: { by rewrite Hnone in Hr. }
  destruct (typed_lookup s x (rstate_typed s Hs) Hx) as [range ->].
  destruct (chain_links _ _ _ _ (Hsome _ eq_refl) _ _ Hr) as [Hto Hfrom].
  unfold epochs_disagree. rewrite bool_decide_eq_true_2 by done. simpl. apply Z.leb_gt.
  rewrite Hto. lia.
Qed.

Lemma reachable_snapshot_ok m :
  reachable m → machine_fits m → Z.of_nat (size (records m)) <= MAX_SNAPSHOT_RECORDS →
  snapshot_ok m.
Proof.
  intros Hm [Hs Hr] Hn. pose proof (reachable_rstate m Hm) as Hrs.
  split; [|done|destruct (reachable_table m Hm); by split].
  intros bs v Hv. destruct (rstate_typed _ Hrs) as [Hkeys Hty].
  destruct (Hkeys bs v Hv) as (key & Hwf & ->). rewrite <-record_lookup in Hv.
  exists key. split_and!; [done|done|by apply Hty|by eapply rstate_epochs|by eapply fits_record].
Qed.

Lemma apply_log_app log1 log2 m rs1 m1 rs2 m2 :
  apply_log log1 m = Some (rs1, m1) → apply_log log2 m1 = Some (rs2, m2) →
  apply_log (log1 ++ log2) m = Some (rs1 ++ rs2, m2).
Proof.
  revert m rs1. induction log1 as [|[i c] log IH]; intros m rs1 Ha Hb; simpl in *; [by simplify_eq|].
  destruct (apply i c m) as [[r m']|]; [|done]. simpl in *.
  destruct (apply_log log m') as [[rs' m'']|] eqn:H'; [|done]. simplify_eq/=.
  by rewrite (IH m' rs' H' Hb).
Qed.

(** C17. Snapshots are faithful.  Take any log of commands that came off the wire.  If the
    state it leads to holds at most MAX_SNAPSHOT_RECORDS records, it has a snapshot, the
    snapshot restores it, and a node that installs the snapshot and applies the rest of
    the log answers and ends exactly like one that applied all of it; if it holds more,
    taking a snapshot is refused. *)
Theorem snapshot_then_replay log rs m :
  wire_log log → apply_log log new = Some (rs, m) →
  let count := Z.of_nat (size (records m)) in
  (count <= MAX_SNAPSHOT_RECORDS →
     ∃ bytes m', encode_snapshot m = Some (Ok bytes) ∧ decode_snapshot bytes = Ok m' ∧
       ∀ rest rs' m'', apply_log rest m' = Some (rs', m'') →
         apply_log (log ++ rest) new = Some (rs ++ rs', m'')) ∧
  (MAX_SNAPSHOT_RECORDS < count →
     encode_snapshot m
       = Some (Err (BoundExceeded "snapshot record count" count MAX_SNAPSHOT_RECORDS))).
Proof.
  intros Hlog Happly. cbn zeta. split; intros Hn.
  - destruct (apply_log_fits log new rs m new_fits Hlog Happly) as [Hfits _].
    destruct (apply_log_steps log new rs m reachable_new (wire_log_valid log Hlog) Happly)
      as [Hm _].
    destruct (snapshot_written m (reachable_snapshot_ok m Hm Hfits Hn)) as (bytes & Hw & Hd).
    exists bytes, m. split_and!; [done|done|]. intros rest rs' m''. by apply apply_log_app.
  - unfold encode_snapshot, write_records. rewrite decide_True by lia. done.
Qed.

End restore.
