(* ===== verification/Queries.v ===== *)
(** The read interface of the metadata state: the transition chain a range is
    asked for, and the cursor positions an observer reads. *)

From stdpp Require Import prelude gmap strings list relations sorting.
From Stdlib Require Import ZArith Lia.
From S2P Require Import Prelude Wire Keys KeyRange Command Placement Records Flow.
From S2P Require Import LeaseOps GroupOps RangeOps SegmentOps RetentionOps Apply Steps.
From S2P Require Import Refine Invariants Reachable.

(** * Sorted scans *)

Section sorted.
Context {A B : Type} (R : relation A) (R' : relation B).

Lemma StronglySorted_filter (P : A → Prop) `{!∀ x, Decision (P x)} l :
  StronglySorted R l → StronglySorted R (filter P l).
Proof.
  induction 1 as [|x l Hl IH Hx]; [constructor|].
  rewrite filter_cons. case_decide; [|done]. constructor; [done|].
  apply Forall_forall. intros y [_ Hy]%list_elem_of_filter. by eapply Forall_forall in Hx.
Qed.

Lemma StronglySorted_fmap (f : A → B) l :
  (∀ x y, x ∈ l → y ∈ l → R x y → R' (f x) (f y)) →
  StronglySorted R l → StronglySorted R' (f <$> l).
Proof.
  intros Hf. induction 1 as [|x l Hl IH Hx]; [constructor|]. simpl. constructor.
  - apply IH. intros y z ??. apply Hf; by constructor.
  - apply Forall_fmap, Forall_forall. intros y Hy. simpl.
    apply Hf; [by constructor|by constructor|]. by eapply Forall_forall in Hx.
Qed.
End sorted.

Lemma seqZ_sorted m n : StronglySorted Z.le (seqZ m n).
Proof.
  unfold seqZ. apply (StronglySorted_fmap le).
  - intros. lia.
  - generalize 0%nat as i. induction (Z.to_nat n) as [|k IH]; intros i; simpl; constructor; [apply IH|].
    apply Forall_forall. intros y. rewrite elem_of_seq. lia.
Qed.

Lemma btree_iter_NoDup {V} (m : gmap (list u8) V) : NoDup (btree_iter m).
Proof. unfold btree_iter. rewrite merge_sort_Permutation. apply NoDup_map_to_list. Qed.

(** * The transition chain *)

Section transitions.
Context `{Blake3}.
Implicit Types s : RecordMap.

(** The epoch an entry of the chain stands for. *)
Definition entry_epoch (e : list u8 * MetaValue.t) : Z :=
  match e.2 with
  | MetaValue.RangeTransition tr => ival (RangeTransitionRecord.epoch_to tr)
  | _ => 0
  end.

Lemma elem_of_transition_entries s t r x from e :
  typed s → chain_ok s t r x →
  e ∈ transition_entries s t r from ↔
  ∃ epoch tr,
    e = (MetaKey.encode (MetaKey.RangeTransition t r epoch), MetaValue.RangeTransition tr) ∧
    record s (MetaKey.RangeTransition t r epoch) = Some (MetaValue.RangeTransition tr) ∧
    RangeTransitionRecord.epoch_to tr = epoch ∧ ival from <= ival epoch.
Proof.
  intros Hty Hchain. destruct e as [bs v]. unfold transition_entries.
  rewrite elem_of_btree_range. split.
  - intros (Hlookup & Hlo & Hhi). destruct (proj1 Hty bs _ Hlookup) as (key & _ & ->).
    destruct (transition_keys_contiguous _ _ _ _ _ Hlo Hhi) as [epoch ->].
    rewrite <-record_lookup in Hlookup. destruct (typed_lookup s v Hty Hlookup) as [tr ->].
    exists epoch, tr. split_and!; try done.
    + by eapply chain_links.
    + pose proof (transition_key_le t r from epoch) as Hle. unfold MetaKey.key_le in Hle.
      rewrite Hlo in Hle. symmetry in Hle. by apply bool_decide_eq_true in Hle.
  - intros (epoch & tr & [= -> ->] & Hr & _ & Hfrom). rewrite <-record_lookup. split_and!; try done.
    all: pose proof (u64_bounds epoch).
    all: match goal with |- bytes_le (MetaKey.encode ?a) (MetaKey.encode ?b) = true =>
           change (MetaKey.key_le a b = true) end; rewrite transition_key_le.
    all: apply bool_decide_eq_true; try done.
    change (ival u64_MAX) with 18446744073709551615. lia.
Qed.

(** Every epoch the range has reached has its record. *)
Lemma transition_at s t r x z :
  typed s → chain_ok s t r x → 1 <= z <= RangeRecord.fencing_epoch x →
  ∃ epoch tr, ival epoch = z ∧
    record s (MetaKey.RangeTransition t r epoch) = Some (MetaValue.RangeTransition tr) ∧
    RangeTransitionRecord.epoch_to tr = epoch.
Proof.
  intros Hty Hchain Hz. pose proof (u64_bounds (RangeRecord.fencing_epoch x)).
  destruct (try_int U64 z) as [epoch|] eqn:Hp.
  2: { apply try_int_None in Hp. change (int_min U64) with 0 in Hp.
       change (int_max U64) with 18446744073709551615 in Hp. lia. }
  apply try_int_Some in Hp.
  destruct (record s (MetaKey.RangeTransition t r epoch)) as [v|] eqn:Hr.
  2: { exfalso. revert Hr. apply (chain_epochs _ _ _ _ Hchain). lia. }
  destruct (typed_lookup s v Hty Hr) as [tr ->].
  destruct (chain_links _ _ _ _ Hchain _ _ Hr) as [E _]. by exists epoch, tr.
Qed.

(** The entries are the epochs from [from] to the range's, in order. *)
Lemma transition_entries_epochs s t r x from :
  typed s → chain_ok s t r x → 1 <= ival from →
  entry_epoch <$> transition_entries s t r from
  = seqZ from (RangeRecord.fencing_epoch x - from + 1).
Proof.
  intros Hty Hchain Hfrom.
  assert (∀ e, e ∈ transition_entries s t r from ↔ _) as Hin
    by (intros e; by apply (elem_of_transition_entries s t r x from e)).
  apply (StronglySorted_unique Z.le).
  - apply (StronglySorted_fmap entry_le).
    + intros e1 e2 (p1 & tr1 & -> & _ & E1 & _)%Hin (p2 & tr2 & -> & _ & E2 & _)%Hin Hle.
      change (MetaKey.key_le (MetaKey.RangeTransition t r p1) (MetaKey.RangeTransition t r p2)
              = true) in Hle. rewrite transition_key_le in Hle. apply bool_decide_eq_true in Hle.
      unfold entry_epoch; simpl. congruence.
    + apply StronglySorted_filter, btree_iter_sorted.
  - apply seqZ_sorted.
  - apply NoDup_Permutation.
    + apply NoDup_fmap_2_strong.
      * intros e1 e2 (p1 & tr1 & -> & R1 & E1 & _)%Hin (p2 & tr2 & -> & R2 & E2 & _)%Hin.
        unfold entry_epoch; simpl. intros Heq. assert (p1 = p2) as -> by (apply int_eq; congruence).
        congruence.
      * apply NoDup_filter, btree_iter_NoDup.
    + apply NoDup_seqZ.
    + intros z. rewrite list_elem_of_fmap, elem_of_seqZ. split.
      * intros (e & -> & (p & tr & -> & Hr & E & ?)%Hin). unfold entry_epoch; simpl. rewrite E.
        assert (1 <= ival p <= ival (RangeRecord.fencing_epoch x)); [|lia].
        apply (chain_epochs _ _ _ _ Hchain). congruence.
      * intros Hz. destruct (transition_at s t r x z Hty Hchain) as (p & tr & Ep & Hr & E); [lia|].
        eexists. split; [|apply Hin; exists p, tr; split_and!; try done; lia].
        unfold entry_epoch; simpl. congruence.
Qed.

End transitions.

(** * Cursor positions *)

(** The scan of one category stops where the category ends: the keys after a
    prefix that do not have it come after all that do. *)
Lemma starts_with_spec ps bs : starts_with ps bs = true ↔ ∃ rest, bs = ps ++ rest.
Proof.
  unfold starts_with. rewrite bool_decide_eq_true. split.
  - intros Heq. exists (drop (length ps) bs). by rewrite <-Heq at 1; rewrite take_drop.
  - intros [rest ->]. apply take_app_length.
Qed.

Lemma bytes_le_prefix ps rest : bytes_le ps (ps ++ rest) = true.
Proof. by rewrite <-(app_nil_r ps) at 1; rewrite bytes_le_app_l. Qed.

Lemma starts_with_after ps a b :
  bytes_le ps a = true → bytes_le a b = true → starts_with ps b = true →
  starts_with ps a = true.
Proof.
  intros Ha Hab [rest ->]%starts_with_spec. apply starts_with_spec.
  apply (bytes_between_prefix ps [] rest a); by rewrite ?app_nil_r.
Qed.

Lemma filter_none {A} (P : A → Prop) `{!∀ x, Decision (P x)} (l : list A) :
  (∀ x, x ∈ l → ¬ P x) → filter P l = [].
Proof.
  intros Hno. destruct (filter P l) as [|x l'] eqn:Hf; [done|].
  assert (x ∈ filter P l) as [HP Hx]%list_elem_of_filter by (rewrite Hf; constructor).
  by destruct (Hno x).
Qed.

Lemma take_while_filter {V} ps (l : list (list u8 * V)) :
  StronglySorted entry_le l → Forall (λ e, bytes_le ps e.1 = true) l →
  take_while (λ e, starts_with ps e.1) l = filter (λ e, starts_with ps e.1 = true) l.
Proof.
  induction 1 as [|e l Hl IH He]; intros Hps; [done|].
  apply Forall_cons in Hps as [Hpe Hps]. cbn [take_while]. rewrite filter_cons.
  destruct (starts_with ps e.1) eqn:Hs; [rewrite decide_True by done; by rewrite IH|].
  rewrite decide_False by done. symmetry. apply filter_none. intros e' He' Hs'.
  eapply Forall_forall in He; [|exact He'].
  rewrite (starts_with_after ps e.1 e'.1) in Hs; done.
Qed.

Lemma collect_positions_spec s limit entries acc :
  (length acc <= limit)%nat →
  let all := acc ++ omap (cursor_position s) entries in
  collect_positions s limit entries acc = (take limit all, bool_decide (limit < length all)%nat).
Proof.
  revert acc. induction entries as [|e entries IH]; intros acc Hacc; simpl.
  { rewrite app_nil_r, take_ge by done. by rewrite bool_decide_eq_false_2 by lia. }
  destruct (cursor_position s e) as [position|]; [|by apply IH]. case_decide as Hfull.
  - rewrite take_app_le, take_ge by lia.
    rewrite bool_decide_eq_true_2; [done|]. rewrite length_app. simpl. lia.
  - rewrite IH by (rewrite length_app; simpl; lia). by rewrite <-app_assoc.
Qed.

(** The position a cursor record is reported as. *)
Definition position_of (s : RecordMap) (g t r : Uuid) (c : CursorCheckpointRecord.t)
    : GroupCursorPosition.t :=
  GroupCursorPosition.mk t (TopicRecord.name <$> (record s (MetaKey.Topic t) ≫= as_Topic)) r g
    (ConsumerGroupRecord.name <$> (record s (MetaKey.Group g) ≫= as_Group))
    (CursorCheckpointRecord.record_offset c).

Lemma cursor_position_Some s bs v p :
  typed s → s !! bs = Some v → cursor_position s (bs, v) = Some p →
  ∃ g t r c, bs = MetaKey.encode (MetaKey.GroupCursor g t r) ∧
    v = MetaValue.GroupCursor c ∧ p = position_of s g t r c.
Proof.
  intros Hty Hlookup Hp. destruct (proj1 Hty bs _ Hlookup) as (key & Hwf & ->).
  unfold cursor_position in Hp. cbn [fst snd] in Hp. rewrite decode_encode in Hp by done.
  destruct key; try done. destruct v; try done. simplify_eq. eauto 10.
Qed.

Lemma cursor_keys_prefix g t r :
  starts_with cursor_prefix (MetaKey.encode (MetaKey.GroupCursor g t r)) = true.
Proof.
  apply starts_with_spec. exists (MetaKey.body (MetaKey.GroupCursor g t r)).
  unfold MetaKey.encode. rewrite app_assoc. f_equal.
Qed.

(** The entries the scan walks: the records under the cursors' prefix. *)
Definition cursor_entries (s : RecordMap) : list (list u8 * MetaValue.t) :=
  filter (λ e, starts_with cursor_prefix e.1 = true)
    (filter (λ e, bytes_le cursor_prefix e.1 = true) (btree_iter s)).

Lemma elem_of_cursor_entries s bs v :
  (bs, v) ∈ cursor_entries s ↔ s !! bs = Some v ∧ starts_with cursor_prefix bs = true.
Proof.
  unfold cursor_entries. rewrite !list_elem_of_filter, elem_of_btree_iter. cbn [fst snd].
  split; [tauto|]. intros [? Hs]. split_and!; try done.
  apply starts_with_spec in Hs as [rest ->]. apply bytes_le_prefix.
Qed.

Lemma group_cursor_positions_entries s limit :
  let all := omap (cursor_position s) (cursor_entries s) in
  group_cursor_positions s limit = (take limit all, bool_decide (limit < length all)%nat).
Proof.
  unfold group_cursor_positions. rewrite take_while_filter.
  - apply (collect_positions_spec s limit (cursor_entries s) []). simpl. lia.
  - apply StronglySorted_filter, btree_iter_sorted.
  - apply Forall_forall. intros e He. by apply list_elem_of_filter in He as [? _].
Qed.

Lemma NoDup_omap_strong {A B} (f : A → option B) (l : list A) :
  (∀ x y z, x ∈ l → y ∈ l → f x = Some z → f y = Some z → x = y) → NoDup l → NoDup (omap f l).
Proof.
  intros Hf Hnd. induction Hnd as [|x l Hx Hnd IH]; [apply NoDup_nil_2|]. simpl.
  assert (NoDup (omap f l)).
  { apply IH. intros a b z ??. apply Hf; by constructor. }
  destruct (f x) as [z|] eqn:Hz; [|done]. apply NoDup_cons. split; [|done].
  intros (y & Hy & Hfy)%list_elem_of_omap.
  assert (x = y) as <-; [|done]. apply (Hf x y z); try done; by constructor.
Qed.

Lemma cursor_positions_NoDup s :
  typed s → NoDup (omap (cursor_position s) (cursor_entries s)).
Proof.
  intros Hty. apply NoDup_omap_strong; [|by apply NoDup_filter, NoDup_filter, btree_iter_NoDup].
  intros [b1 v1] [b2 v2] p [H1 _]%elem_of_cursor_entries [H2 _]%elem_of_cursor_entries P1 P2.
  destruct (cursor_position_Some _ _ _ _ Hty H1 P1) as (g1 & t1 & r1 & c1 & -> & -> & ->).
  destruct (cursor_position_Some _ _ _ _ Hty H2 P2) as (g2 & t2 & r2 & c2 & -> & -> & E).
  unfold position_of in E. simplify_eq. congruence.
Qed.

Lemma elem_of_cursor_positions s p :
  typed s →
  p ∈ omap (cursor_position s) (cursor_entries s) ↔
  ∃ g t r c, record s (MetaKey.GroupCursor g t r) = Some (MetaValue.GroupCursor c) ∧
    p = position_of s g t r c.
Proof.
  intros Hty. rewrite list_elem_of_omap. split.
  - intros ([bs v] & [Hlookup _]%elem_of_cursor_entries & Hp).
    destruct (cursor_position_Some _ _ _ _ Hty Hlookup Hp) as (g & t & r & c & -> & -> & ->).
    exists g, t, r, c. split; [|done]. by rewrite record_lookup.
  - intros (g & t & r & c & Hr & ->).
    exists (MetaKey.encode (MetaKey.GroupCursor g t r), MetaValue.GroupCursor c). split.
    + apply elem_of_cursor_entries. rewrite <-record_lookup. split; [done|apply cursor_keys_prefix].
    + unfold cursor_position. cbn [fst snd]. by rewrite decode_encode.
Qed.

(** * Theorems *)

Section theorems.
Context `{Fmt, Blake3}.

(** Asked for a range's chain from an epoch, the state answers with the records of
    exactly the epochs from there to the range's fencing epoch, in order and
    without a gap, cut at the limit. *)
Theorem range_transitions_gapless m t r x from limit :
  reachable m →
  record (MetaStateMachine.records m) (MetaKey.Range t r) = Some (MetaValue.Range x) →
  1 <= ival from →
  (λ tr, ival (RangeTransitionRecord.epoch_to tr)) <$>
    range_transitions (MetaStateMachine.records m) t r from limit
  = take limit (seqZ from (RangeRecord.fencing_epoch x - from + 1)).
Proof.
  intros Hm Hx Hfrom. pose proof (rstate_typed _ (reachable_rstate _ Hm)) as Hty.
  pose proof (proj1 (reachable_chain _ Hm t r) _ Hx) as Hchain.
  rewrite <-(transition_entries_epochs _ t r x from Hty Hchain Hfrom).
  unfold range_transitions. rewrite <-fmap_take.
  assert (Forall (λ e, ∃ tr, e.2 = MetaValue.RangeTransition tr)
    (take limit (transition_entries (MetaStateMachine.records m) t r from))) as Hall.
  { apply Forall_take, Forall_forall. intros e He.
    apply (elem_of_transition_entries _ t r x) in He as (? & tr & -> & _); [by exists tr|done..]. }
  induction Hall as [|[bs v] l [tr Htr] _ IH]; [done|]. simpl in Htr. subst v. simpl.
  f_equal. exact IH.
Qed.

(** A scrape reports every durable cursor once, in key order, with the names of its
    topic and group; past [limit] it keeps the first ones and says so. *)
Theorem cursor_positions_complete m limit :
  reachable m →
  ∃ all, NoDup all ∧
    (∀ p, p ∈ all ↔ ∃ g t r c,
       record (MetaStateMachine.records m) (MetaKey.GroupCursor g t r)
         = Some (MetaValue.GroupCursor c) ∧
       p = position_of (MetaStateMachine.records m) g t r c) ∧
    group_cursor_positions (MetaStateMachine.records m) limit
      = (take limit all, bool_decide (limit < length all)%nat).
Proof.
  intros Hm. pose proof (rstate_typed _ (reachable_rstate _ Hm)) as Hty.
  eexists. split_and!; [by apply cursor_positions_NoDup| |apply group_cursor_positions_entries].
  intros p. by apply elem_of_cursor_positions.
Qed.

End theorems.
