(* ===== verification/BatchState.v ===== *)
(** The batch lifecycle of the upload engine: [BatchState] and its transition
    function, [crates/vtop-core/src/state_machine.rs].

    [legal] is the transition diagram; [transition_legal] shows the code decides
    it, and [commit_follows_pipeline] what it means for a source commit. *)

From stdpp Require Import prelude strings list.
From S2P Require Import Prelude Wire.

Module BatchState.
Inductive t :=
  | Discovered | Batching | Sealed | Compressed | Checksummed | ObjectUploaded
  | ManifestUploaded | Verified | SourceCommitted | Failed | ReplayRequired.
#[global] Instance t_eq_dec : EqDecision t.
Proof. solve_decision. Defined.

Definition as_str (s : t) : string :=
  match s with
  | Discovered => "discovered"
  | Batching => "batching"
  | Sealed => "sealed"
  | Compressed => "compressed"
  | Checksummed => "checksummed"
  | ObjectUploaded => "object_uploaded"
  | ManifestUploaded => "manifest_uploaded"
  | Verified => "verified"
  | SourceCommitted => "source_committed"
  | Failed => "failed"
  | ReplayRequired => "replay_required"
  end.

Definition is_committable (s : t) : bool := match s with Verified => true | _ => false end.
Definition is_committed (s : t) : bool := match s with SourceCommitted => true | _ => false end.
End BatchState.

(** The errors of [crates/vtop-core/src/errors.rs] the state machine raises. *)
Module VtopError.
Inductive t :=
  | IllegalStateTransition (from to : BatchState.t)
  | CommitBeforeVerified (actual : BatchState.t)
  | Other (message : string).
#[global] Instance t_eq_dec : EqDecision t.
Proof. solve_decision. Defined.
End VtopError.

(** [FromStr for BatchState] *)
Definition from_str (s : string) : result VtopError.t BatchState.t :=
  if decide (s = "discovered") then Ok BatchState.Discovered
  else if decide (s = "batching") then Ok BatchState.Batching
  else if decide (s = "sealed") then Ok BatchState.Sealed
  else if decide (s = "compressed") then Ok BatchState.Compressed
  else if decide (s = "checksummed") then Ok BatchState.Checksummed
  else if decide (s = "object_uploaded") then Ok BatchState.ObjectUploaded
  else if decide (s = "manifest_uploaded") then Ok BatchState.ManifestUploaded
  else if decide (s = "verified") then Ok BatchState.Verified
  else if decide (s = "source_committed") then Ok BatchState.SourceCommitted
  else if decide (s = "failed") then Ok BatchState.Failed
  else if decide (s = "replay_required") then Ok BatchState.ReplayRequired
  else Err (VtopError.Other ("unknown batch state: " +:+ s)).

Section transitions.
Import BatchState.

Definition can_transition (from to : t) : bool :=
  if bool_decide (to = Failed) && bool_decide (from ≠ SourceCommitted) then true
  else if decide (to = SourceCommitted) then bool_decide (from = Verified)
  else
    match from, to with
    | Discovered, Batching
    | Batching, Sealed
    | Sealed, Compressed
    | Compressed, Checksummed
    | Checksummed, ObjectUploaded
    | ObjectUploaded, ManifestUploaded
    | ManifestUploaded, Verified
    | Verified, SourceCommitted
    | Failed, ReplayRequired
    | ReplayRequired, Batching => true
    | _, _ => false
    end.

Definition transition (from to : t) : result VtopError.t t :=
  if bool_decide (to = SourceCommitted) && bool_decide (from ≠ Verified) then
    Err (VtopError.CommitBeforeVerified from)
  else if can_transition from to then Ok to
  else Err (VtopError.IllegalStateTransition from to).

(** The transition diagram. *)
Inductive legal : t → t → Prop :=
  | Discover : legal Discovered Batching
  | Seal : legal Batching Sealed
  | Compress : legal Sealed Compressed
  | Checksum : legal Compressed Checksummed
  | UploadObject : legal Checksummed ObjectUploaded
  | UploadManifest : legal ObjectUploaded ManifestUploaded
  | Verify : legal ManifestUploaded Verified
  | Commit : legal Verified SourceCommitted
  | Fail_ s : s ≠ SourceCommitted → legal s Failed
  | Require : legal Failed ReplayRequired
  | Replay : legal ReplayRequired Batching.

Lemma legal_iff from to : transition from to = Ok to ↔ legal from to.
Proof.
  split; [|by intros []; try done; destruct s].
  destruct from, to; try discriminate; intros _; by constructor.
Qed.

Lemma can_transition_iff from to : can_transition from to = true ↔ legal from to.
Proof.
  split; [|by intros []; try done; destruct s].
  destruct from, to; try discriminate; intros _; by constructor.
Qed.

(** The states a batch went through, each by a successful [transition]. *)
Inductive history (first : t) : list t → t → Prop :=
  | Start : history first [first] first
  | Step l s1 s2 :
      history first l s1 → transition s1 s2 = Ok s2 → history first (l ++ [s2]) s2.

(** The states between the last (re)start of a batch and its commit. *)
Definition pipeline : list t :=
  [Batching; Sealed; Compressed; Checksummed; ObjectUploaded; ManifestUploaded; Verified;
   SourceCommitted].

(** How much of the pipeline a state has behind it. *)
Definition done_part (s : t) : list t :=
  match s with
  | Batching => take 1 pipeline
  | Sealed => take 2 pipeline
  | Compressed => take 3 pipeline
  | Checksummed => take 4 pipeline
  | ObjectUploaded => take 5 pipeline
  | ManifestUploaded => take 6 pipeline
  | Verified => take 7 pipeline
  | SourceCommitted => pipeline
  | s => [s]
  end.

Lemma history_done l s : history Discovered l s → ∃ before, l = before ++ done_part s.
Proof.
  induction 1 as [|l s1 s2 Hh [before ->] Ht]; [by exists []|].
  apply legal_iff in Ht. destruct Ht; simpl.
  all: try (exists before; by rewrite <-app_assoc).
  all: eexists; reflexivity.
Qed.

End transitions.

(** * Theorems *)

(** The transition diagram is decided twice over: [can_transition] accepts exactly
    its edges, and so does [transition], which returns the target on them, answers
    every other commit with the dedicated error and every other edge with the
    general one.  Nothing leaves SourceCommitted. *)
Theorem transition_decides from to :
  (can_transition from to = true ↔ legal from to)
  ∧ match transition from to with
    | Ok s => s = to ∧ legal from to ∧ from ≠ BatchState.SourceCommitted
    | Err (VtopError.CommitBeforeVerified actual) =>
        actual = from ∧ to = BatchState.SourceCommitted ∧ from ≠ BatchState.Verified
    | Err (VtopError.IllegalStateTransition f t) => f = from ∧ t = to ∧ ¬ legal from to
    | Err (VtopError.Other _) => False
    end.
Proof.
  split; [apply can_transition_iff|]. pose proof (legal_iff from to) as Hl.
  destruct from, to; simpl in *; split_and?; try done; try (by apply Hl); try tauto;
    intros Hbad; by apply Hl in Hbad.
Qed.

(** Whatever failures and replays a batch went through, a commit of its source
    directly follows one uninterrupted run of the pipeline: batched, sealed,
    compressed, checksummed, both uploads, verified. *)
Theorem commit_follows_pipeline l :
  history BatchState.Discovered l BatchState.SourceCommitted →
  ∃ before, l = before ++ pipeline.
Proof. intros Hh. by apply history_done in Hh. Qed.

(** The stored name of a state parses back to it, and only the eleven names
    parse. *)
Theorem state_name_roundtrip name s :
  from_str name = Ok s ↔ name = BatchState.as_str s.
Proof.
  split; [|intros ->; by destruct s].
  unfold from_str. intros Hs. repeat (case_decide; [by simplify_eq|]). done.
Qed.
