(* ===== verification/LeaseClock.v ===== *)
(** Elections and the clocks they are judged by: what a granted election
    guarantees, the clock error the leader tolerates, and how early a rival can
    take over under it. *)

From stdpp Require Import prelude gmap strings list relations sorting.
From Stdlib Require Import ZArith Lia.
From S2P Require Import Prelude Wire Keys KeyRange Command Placement Records Flow.
From S2P Require Import LeaseOps GroupOps RangeOps SegmentOps RetentionOps Apply Steps.
From S2P Require Import Refine Invariants Reachable.

(** * The skew bound *)

(** The bound stays far from where an [i64] difference saturates. *)
Lemma skew_bound_small (d : u64) :
  0 <= lease_skew_bound_ms d < 2 ^ 62 ∧ 10 * lease_skew_bound_ms d <= d.
Proof.
  unfold lease_skew_bound_ms, MIN_LEASE_SKEW_BOUND_MS. pose proof (u64_bounds d).
  change (2 ^ 62) with 4611686018427387904.
  pose proof (Z.div_mod d 20). pose proof (Z.mod_pos_bound d 20).
  pose proof (Z.div_mod d 10). pose proof (Z.mod_pos_bound d 10). lia.
Qed.

(** A difference within the bound was not saturated. *)
Lemma saturating_sub_within (a b : i64) k :
  k < 2 ^ 62 → Z.abs (i64_saturating_sub a b) <= k → Z.abs (a - b) <= k.
Proof.
  unfold i64_saturating_sub. change (int_min I64) with (-9223372036854775808).
  change (int_max I64) with 9223372036854775807. change (2 ^ 62) with 4611686018427387904.
  intros Hk. rewrite wrap_int_small; [lia|].
  change (int_min I64) with (-9223372036854775808).
  change (int_max I64) with 9223372036854775807. lia.
Qed.

(** What [is_within_bound] says of the two clocks. *)
Lemma within_bound_clocks env t r h g d leader skew :
  lease_clock_skew (MetadataCommand.AcquireRangeLease env t r h g d) leader = Some skew →
  LeaseClockSkew.is_within_bound skew = true →
  Z.abs (CommandEnvelope.issued_at_ms env - leader) <= lease_skew_bound_ms d.
Proof.
  intros [= <-] Hin. unfold LeaseClockSkew.is_within_bound in Hin. cbn in Hin.
  apply Z.leb_le in Hin. pose proof (skew_bound_small d).
  apply saturating_sub_within; [lia|done].
Qed.

(** * Theorems *)

Section theorems.
Context `{Fmt, Blake3}.

(** An election that is granted mints the next epoch for an active node, never
    displaces an administrative lease or another holder's live one, and sets the
    deadline the command asked for. *)
Theorem election_sound m i env t r h g d response m' :
  reachable m →
  MetaStateMachine.has_applied_request m (CommandEnvelope.request_id env) = false →
  MetaStateMachine.apply i (MetadataCommand.AcquireRangeLease env t r h g d) m
    = Some (response, m') →
  is_rejected response = false →
  ∃ x x' epoch deadline,
    response = MetadataResponse.LeaseGranted epoch ∧
    record (MetaStateMachine.records m) (MetaKey.Range t r) = Some (MetaValue.Range x) ∧
    record (MetaStateMachine.records m') (MetaKey.Range t r) = Some (MetaValue.Range x') ∧
    ival epoch = RangeRecord.fencing_epoch x + 1 ∧
    RangeRecord.fencing_epoch x' = epoch ∧
    RangeRecord.lease x' = Some (LeaseRecord.mk h epoch i (Some deadline)) ∧
    ival deadline = CommandEnvelope.issued_at_ms env + d ∧ 0 < ival d ∧
    electable (RangeRecord.lease x) h (CommandEnvelope.issued_at_ms env).
Proof.
  intros Hm Hf Happly. apply apply_fresh in Happly; [|done].
  eapply acquire_spec; [|exact Happly]. by apply rstate_typed, reachable_rstate.
Qed.

(** C30. How early a rival can take over: while both elections are within the skew the
    leader tolerates, a lease of [d1] that is not renewed is displaced by another
    node only after [d1] minus the two bounds on the leaders' clock, so at least
    nine tenths of it minus the rival's bound. *)
Theorem takeover_delay m1 i1 env1 t r h1 g1 d1 r1 m1' leader1 skew1 x1
    log rs m2 x2 i2 env2 h2 g2 d2 r2 m2' leader2 skew2 :
  reachable m1 →
  MetaStateMachine.has_applied_request m1 (CommandEnvelope.request_id env1) = false →
  MetaStateMachine.apply i1 (MetadataCommand.AcquireRangeLease env1 t r h1 g1 d1) m1
    = Some (r1, m1') → is_rejected r1 = false →
  lease_clock_skew (MetadataCommand.AcquireRangeLease env1 t r h1 g1 d1) leader1
    = Some skew1 → LeaseClockSkew.is_within_bound skew1 = true →
  record (MetaStateMachine.records m1') (MetaKey.Range t r) = Some (MetaValue.Range x1) →
  log_valid log → MetaStateMachine.apply_log log m1' = Some (rs, m2) →
  record (MetaStateMachine.records m2) (MetaKey.Range t r) = Some (MetaValue.Range x2) →
  RangeRecord.lease x2 = RangeRecord.lease x1 → h2 ≠ h1 →
  MetaStateMachine.has_applied_request m2 (CommandEnvelope.request_id env2) = false →
  MetaStateMachine.apply i2 (MetadataCommand.AcquireRangeLease env2 t r h2 g2 d2) m2
    = Some (r2, m2') → is_rejected r2 = false →
  lease_clock_skew (MetadataCommand.AcquireRangeLease env2 t r h2 g2 d2) leader2
    = Some skew2 → LeaseClockSkew.is_within_bound skew2 = true →
  leader1 + d1 - lease_skew_bound_ms d1 - lease_skew_bound_ms d2 <= leader2 ∧
  10 * lease_skew_bound_ms d1 <= d1.
Proof.
  intros Hm1 Hf1 Ha1 Hr1 Hsk1 Hin1 Hx1 Hlog Hl Hx2 Hlease Hne Hf2 Ha2 Hr2 Hsk2 Hin2.
  pose proof (within_bound_clocks _ _ _ _ _ _ _ _ Hsk1 Hin1).
  pose proof (within_bound_clocks _ _ _ _ _ _ _ _ Hsk2 Hin2).
  split; [|apply skew_bound_small].
  assert (reachable m1') as Hm1' by (eapply reachable_apply; [exact Hm1| |exact Ha1]; done).
  destruct (apply_log_steps _ _ _ _ Hm1' Hlog Hl) as [Hm2 _].
  apply apply_fresh in Ha1; [|done]. apply apply_fresh in Ha2; [|done].
  edestruct acquire_spec as (? & y1 & e1 & dl1 & _ & _ & Hy1 & _ & _ & Hl1 & Hd1 & _);
    [|exact Ha1|done|]; [by apply rstate_typed, reachable_rstate|].
  edestruct acquire_spec as (y2 & ? & ? & ? & _ & Hy2 & _ & _ & _ & _ & _ & _ & Hel);
    [|exact Ha2|done|]; [by apply rstate_typed, reachable_rstate|].
  simplify_eq. rewrite Hlease, Hl1 in Hel.
  destruct (Hel _ eq_refl) as [_ [Hh|Hlive]]; [by destruct Hne|].
  unfold LeaseRecord.is_live_at in Hlive. simpl in Hlive. apply bool_decide_eq_false in Hlive. lia.
Qed.

End theorems.
