(* ===== verification/Splits.v ===== *)
(** Splits are idempotent under their transition id: once a split is recorded, any
    resubmission of it is acknowledged and changes nothing, however long after
    and whoever holds the parent by then. *)

From stdpp Require Import prelude gmap strings list relations sorting.
From Stdlib Require Import ZArith Lia.
From S2P Require Import Prelude Wire Keys KeyRange Command Placement Records Flow.
From S2P Require Import LeaseOps GroupOps RangeOps SegmentOps RetentionOps Apply Steps.
From S2P Require Import Refine Invariants Reachable.

(** The split [args] asks for is recorded: its ids are proper, the parent is sealed
    under its transition, and the transition names its children and barrier. *)
Definition split_ids (args : SplitRangeArgs.t) : Prop :=
  (is_nil (SplitRangeArgs.left_range_uuid args) || is_nil (SplitRangeArgs.right_range_uuid args)
   || is_nil (SplitRangeArgs.transition_id args)) = false ∧
  SplitRangeArgs.left_range_uuid args ≠ SplitRangeArgs.right_range_uuid args ∧
  SplitRangeArgs.left_range_uuid args ≠ SplitRangeArgs.parent_range_uuid args ∧
  SplitRangeArgs.right_range_uuid args ≠ SplitRangeArgs.parent_range_uuid args.

Definition split_recorded (s : RecordMap) (args : SplitRangeArgs.t) : Prop :=
  ∃ parent seal transition,
    record s (MetaKey.Range (SplitRangeArgs.topic_uuid args)
                (SplitRangeArgs.parent_range_uuid args)) = Some (MetaValue.Range parent) ∧
    RangeRecord.sealed_at parent = Some seal ∧
    SealedParent.transition_id seal = SplitRangeArgs.transition_id args ∧
    record s (MetaKey.LineageTransition (SplitRangeArgs.topic_uuid args)
                (SplitRangeArgs.transition_id args))
      = Some (MetaValue.LineageTransition transition) ∧
    LineageTransitionRecord.left_range_uuid transition = SplitRangeArgs.left_range_uuid args ∧
    LineageTransitionRecord.right_range_uuid transition = SplitRangeArgs.right_range_uuid args ∧
    LineageTransitionRecord.barrier_offset transition = SplitRangeArgs.barrier_offset args.

(** Two requests for the same split; the lease, the generation and the clock they
    name may differ. *)
Definition same_split (a b : SplitRangeArgs.t) : Prop :=
  SplitRangeArgs.topic_uuid a = SplitRangeArgs.topic_uuid b ∧
  SplitRangeArgs.parent_range_uuid a = SplitRangeArgs.parent_range_uuid b ∧
  SplitRangeArgs.left_range_uuid a = SplitRangeArgs.left_range_uuid b ∧
  SplitRangeArgs.right_range_uuid a = SplitRangeArgs.right_range_uuid b ∧
  SplitRangeArgs.transition_id a = SplitRangeArgs.transition_id b ∧
  SplitRangeArgs.barrier_offset a = SplitRangeArgs.barrier_offset b.

Section splits.
Context `{Fmt, Blake3}.
Implicit Types s : RecordMap.

Lemma leaseholder_refusal s t r h e refusal :
  not_the_leaseholder s t r h e = Some refusal → is_rejected refusal = true.
Proof. unfold not_the_leaseholder. intros Hr. repeat case_match; by simplify_eq. Qed.

Lemma same_split_ids a b : same_split a b → split_ids a → split_ids b.
Proof. unfold same_split, split_ids. by intros (_ & -> & -> & -> & -> & _). Qed.

Lemma same_split_recorded s a b : same_split a b → split_recorded s a → split_recorded s b.
Proof. unfold same_split, split_recorded. by intros (-> & -> & -> & -> & -> & ->). Qed.

(** A split that is acknowledged is recorded. *)
Lemma split_range_recorded s args :
  typed s → seals_recorded s →
  wp_handler (split_range args)
    (λ r s', is_rejected r = false → split_ids args ∧ split_recorded s' args) s.
Proof.
  intros Hty Hseals. unfold split_range, split_id_guard. wp_steps; [done..|].
  assert (split_ids args) as Hids.
  { apply not_or_and in H2 as [? [??]%not_or_and]. split; [by apply not_true_is_false|done]. }
  unfold split_replay. destruct (RangeRecord.sealed_at a) as [seal|] eqn:Hs.
  - wp_step; [|wp_steps; done].
    destruct (Hseals _ _ _ _ H3 Hs) as [tr Htr]. rewrite e in Htr. wp_steps; try done.
    intros _. split; [done|]. exists a, seal, tr.
    match goal with Hno : ¬ (_ ∨ _ ∨ LineageTransitionRecord.barrier_offset _ ≠ _) |- _ =>
      apply not_or_and in Hno as [? [??]%not_or_and] end.
    split_and!; first [done|by apply dec_stable].
  - wp_steps. unfold leaseholder_gate. wp_steps.
    { intros Hrej. by rewrite (leaseholder_refusal _ _ _ _ _ _ Heqo) in Hrej. }
    apply wp_barrier_guard; [done|]; intros _. wp_steps; try done.
    unfold split_commit. wp_steps; try done. apply wp_inherit_replica_set. wp_steps.
    intros _. split; [done|]. destruct Hids as (_ & ? & ? & ?).
    eexists _, _, _. unfold inherit.
    split_and!; [case_match; rec_simpl; reflexivity|done|done|rec_simpl; reflexivity|done..].
Qed.

(** A recorded split stays recorded. *)
Lemma split_recorded_step s s' args : split_recorded s args → mstep s s' → split_recorded s' args.
Proof.
  intros (parent & seal & tr & Hp & Hs & Hid & Htr & Hl & Hr & Hb) Hstep.
  destruct (range_kept _ _ _ _ _ Hstep Hp) as (parent' & Hp' & _&_&_&_&_& Hkeep).
  exists parent', seal, tr. split_and!; try done; [by apply Hkeep|by eapply lineage_kept].
Qed.

Lemma split_recorded_steps s s' args :
  split_recorded s args → rtc mstep s s' → split_recorded s' args.
Proof. intros Hrec Hss. induction Hss; eauto using split_recorded_step. Qed.

(** And a recorded split is acknowledged without a change. *)
Lemma split_replayed s args :
  split_ids args → split_recorded s args →
  ∃ generation, run (split_range args) s = Some (MetadataResponse.Ack generation, s).
Proof.
  intros (Hnil & ? & ? & ?) (parent & seal & tr & Hp & Hs & Hid & Htr & Hl & Hr & Hb).
  exists (RangeRecord.generation parent).
  unfold run, split_range, split_id_guard, reject_if, mbind, M_bind, mret, M_ret.
  rewrite Hnil, !decide_False by naive_solver. unfold fetch, get, some_or, mbind, M_bind.
  cbn beta iota. rewrite Hp. cbn. unfold split_replay. rewrite Hs, decide_True by done.
  unfold fetch_again, get, some_or_panic, reject_if, mbind, M_bind. cbn beta iota. rewrite Htr.
  cbn. by rewrite decide_False by naive_solver.
Qed.

End splits.

(** * Theorems *)

Section theorems.
Context `{Fmt, Blake3}.

(** A split is applied once: after a split was acknowledged, and any log after it,
    a resubmission of the same split under a new request id is acknowledged and
    leaves every record as it was. *)
Theorem split_applied_once m i env t p l r id barrier gen holder epoch response m1
    log rs m2 i' env' gen' holder' epoch' :
  reachable m →
  MetaStateMachine.has_applied_request m (CommandEnvelope.request_id env) = false →
  MetaStateMachine.apply i
    (MetadataCommand.SplitRange env t p l r id barrier gen holder epoch) m
    = Some (response, m1) → is_rejected response = false →
  log_valid log → MetaStateMachine.apply_log log m1 = Some (rs, m2) →
  MetaStateMachine.has_applied_request m2 (CommandEnvelope.request_id env') = false →
  ∃ generation m3,
    MetaStateMachine.apply i'
      (MetadataCommand.SplitRange env' t p l r id barrier gen' holder' epoch') m2
      = Some (MetadataResponse.Ack generation, m3) ∧
    MetaStateMachine.records m3 = MetaStateMachine.records m2.
Proof.
  intros Hm Hf Happly Hr Hlog Hl Hf'.
  assert (reachable m1) as Hm1 by (by eapply reachable_apply; [exact Hm| |exact Happly]).
  destruct (apply_log_steps _ _ _ _ Hm1 Hlog Hl) as [Hm2 Hsteps].
  apply apply_fresh in Happly; [|done]. pose proof (reachable_rstate _ Hm) as Hs.
  pose proof (run_wp _ _ _ _ _
    (split_range_recorded _ _ (rstate_typed _ Hs) (rstate_seals _ Hs)) Happly Hr) as [Hids Hrec].
  set (c := MetadataCommand.SplitRange env' t p l r id barrier gen' holder' epoch').
  destruct (apply_spec m2 i' c (reachable_rstate _ Hm2)) as (response' & m3 & Happly' & _); [done|].
  set (args := SplitRangeArgs.mk (CommandEnvelope.issued_at_ms env') t p l r id barrier gen'
                 holder' epoch').
  destruct (split_replayed (MetaStateMachine.records m2) args) as [generation Hrun].
  { eapply same_split_ids; [|exact Hids]. by split_and!. }
  { eapply same_split_recorded; [|eapply split_recorded_steps; [exact Hrec|exact Hsteps]].
    by split_and!. }
  exists generation, m3. pose proof (apply_fresh m2 i' c _ _ Hf' Happly') as Hrun'.
  change (apply_inner i' c) with (split_range args) in Hrun'. rewrite Hrun in Hrun'.
  simplify_eq. done.
Qed.

End theorems.
