(* ===== verification/Fencing.v ===== *)
(** Fencing: the commands a range's leader makes name the epoch they were made
    under, and once a later epoch was granted they are refused for good. *)

From stdpp Require Import prelude gmap strings list relations sorting.
From Stdlib Require Import ZArith Lia.
From S2P Require Import Prelude Wire Keys KeyRange Command Placement Records Flow.
From S2P Require Import LeaseOps GroupOps RangeOps SegmentOps RetentionOps Apply Steps.
From S2P Require Import Refine Invariants Reachable.

(** The range and epoch a leader's command is made under. *)
Definition fenced (c : MetadataCommand.t) : option (Uuid * Uuid * u64) :=
  match c with
  | MetadataCommand.RegisterSealedSegment _ t r _ _ _ _ _ epoch _ => Some (t, r, epoch)
  | MetadataCommand.CommitReplacementProof _ t r _ _ _ _ _ _ epoch _ _ _ => Some (t, r, epoch)
  | MetadataCommand.PlanReplicaRetirement _ t r _ _ _ epoch => Some (t, r, epoch)
  | MetadataCommand.CommitTierEvidence _ t r _ _ _ _ _ _ _ _ _ _ _ epoch _ => Some (t, r, epoch)
  | MetadataCommand.PlanRetention _ t r _ _ epoch => Some (t, r, epoch)
  | _ => None
  end.

Section fencing.
Context `{Fmt, Blake3}.
Implicit Types s : RecordMap.

(** The outcome of a refused command. *)
Definition refused s (r : MetadataResponse.t) (s' : RecordMap) : Prop :=
  is_rejected r = true ∧ s' = s.

Lemma refused_reject s e : refused s (reject e) s.
Proof. done. Qed.

Lemma tier_bounds_refused Q args s :
  Q tt s → wp (tier_bounds_guard args) Q (refused s) s.
Proof.
  intros HQ. unfold tier_bounds_guard. wp_steps; try apply refused_reject.
  all: repeat (apply wp_version_id_guard; [by intros; apply refused_reject|]; intros; wp_steps).
  all: done.
Qed.

(** Without the lease it names, a fenced command is refused. *)
Lemma fenced_refused i c t r e s :
  fenced c = Some (t, r, e) → ¬ leased_at s t r e →
  wp_handler (apply_inner i c) (refused s) s.
Proof.
  intros Hf Hno. destruct c; try done; simpl in Hf; simplify_eq; simpl.
  - unfold register_sealed_segment. wp_steps; try apply refused_reject.
    exfalso. apply Hno. eexists _, _. split_and!; [done|done|]. symmetry. by apply dec_stable.
  - unfold commit_replacement_proof. wp_steps; try apply refused_reject.
    by apply wp_require_lease_epoch; [intros; apply refused_reject|].
  - unfold plan_replica_retirement. wp_steps.
    by apply wp_require_lease_epoch; [intros; apply refused_reject|].
  - unfold commit_tier_evidence. wp_steps. apply tier_bounds_refused. wp_steps; try apply refused_reject.
    by apply wp_require_lease_epoch; [intros; apply refused_reject|].
  - unfold plan_retention. wp_steps.
    by apply wp_require_lease_epoch; [intros; apply refused_reject|].
Qed.

(** * Theorems *)


End fencing.
