(* ===== verification/Scenario.v ===== *)
(** A concrete run of the metadata state machine, and each property of the
    development at work on it.

    The two functions of code outside the repository are instantiated by concrete
    ones: a decimal rendering of identifiers, and a hash that depends on the
    length of its input alone.  The log registers four nodes, elects leaders over
    two replica sets, seals and verifies segments, moves a consumer group's
    cursor, plans a deletion and splits the range. *)

From stdpp Require Import prelude gmap strings list relations sorting pretty.
From Stdlib Require Import ZArith Lia.
From S2P Require Import Prelude Wire Keys KeyRange Lineage Command Placement Records Flow.
From S2P Require Import LeaseOps GroupOps RangeOps SegmentOps RetentionOps Apply Steps.
From S2P Require Import Refine Invariants Reachable Keyspace Quorum GroupSafety SegmentSafety.
From S2P Require Import CommandRoundtrip ValueCodec ValueRoundtrip Snapshot SnapshotRoundtrip Encodable Restore.
From S2P Require Import Dedup Queries BatchState LeaseClock Splits Fencing.

#[local] Instance demo_fmt : Fmt :=
  {| uuid_display n := pretty (ival n);
     str_debug s := if utf8_valid (as_bytes s) then s else "?" |}.
#[local] Instance demo_fmt_text : FmtText.
Proof.
  split; [intros u; apply valid_pretty_Z|].
  intros s. unfold valid_str. simpl. by destruct (utf8_valid (as_bytes s)) eqn:?.
Qed.
#[local] Instance demo_blake3 : Blake3 := λ _ input, wrap_int U256 (Z.of_nat (length input)).

Module Demo.

Definition id (n : Z) : Uuid := wrap_int U128 n.
Definition num (n : Z) : u64 := wrap_int U64 n.
Definition env (request now : Z) : CommandEnvelope.t :=
  CommandEnvelope.mk (id request) (wrap_int I64 now).

Definition n1 : Uuid := id 1.
Definition n2 : Uuid := id 2.
Definition n3 : Uuid := id 3.
Definition n4 : Uuid := id 4.
Definition orders : Uuid := id 10.
Definition root : Uuid := id 20.
Definition left_half : Uuid := id 21.
Definition right_half : Uuid := id 22.
Definition seg1 : Uuid := id 30.
Definition seg2 : Uuid := id 31.
Definition billing : Uuid := id 40.
Definition worker : Uuid := id 50.
Definition rival : Uuid := id 51.
Definition content : bytes32 := wrap_int U256 777.

Definition promoted : PromotionOutcome.t :=
  PromotionOutcome.Established None None
    [QuorumAnswer.mk n1 (num 0); QuorumAnswer.mk n2 (num 0)] (wrap_int U32 2) (wrap_int U32 2).

Definition elect_n1 : MetadataCommand.t :=
  MetadataCommand.AcquireRangeLease (env 107 1000) orders root n1 (num 0) (num 60000).
Definition split_root (request now gen : Z) : MetadataCommand.t :=
  MetadataCommand.SplitRange (env request now) orders root left_half right_half (id 60)
    (num 20) (num gen) n2 (num 2).

Definition commands : list MetadataCommand.t :=
  [ MetadataCommand.RegisterNode (env 101 1) n1 "a:1" None;
    MetadataCommand.RegisterNode (env 102 2) n2 "b:1" None;
    MetadataCommand.RegisterNode (env 103 3) n3 "c:1" None;
    MetadataCommand.RegisterNode (env 104 4) n4 "d:1" None;
    MetadataCommand.CreateTopic (env 105 5) "orders" orders root;
    MetadataCommand.SetRangeReplicaSet (env 106 6) orders root [n1; n2; n3] (num 0);
    elect_n1;
    MetadataCommand.ReportPromotionOutcome (env 108 1001) orders root n1 (num 1) promoted;
    MetadataCommand.SetRangeReplicaSet (env 109 2000) orders root [n1; n2; n3; n4] (num 1);
    MetadataCommand.AcquireRangeLease (env 110 3000) orders root n2 (num 2) (num 60000);
    MetadataCommand.RegisterSealedSegment (env 111 3001) orders root seg1 (num 0) (num 0)
      (num 10) content (num 2) (num 3);
    MetadataCommand.MarkSegmentVerified (env 112 3002) orders root seg1 content (num 0);
    MetadataCommand.CommitSegmentPlacement (env 113 3003) orders root seg1 (wrap_int U8 1) [n1]
      (num 1) None;
    MetadataCommand.CreateConsumerGroup (env 114 3004) "billing" billing;
    MetadataCommand.JoinConsumerGroup (env 115 3005) billing worker (num 0);
    MetadataCommand.AssignMemberRanges (env 116 3006) billing worker
      [RangeAssignment.mk orders root] (num 0);
    MetadataCommand.CommitGroupCursor (env 117 3007) billing worker orders root (num 1) (num 0)
      seg1 (num 1) content (num 10) (num 10) None None;
    MetadataCommand.SetTopicRetentionPolicy (env 118 3008) orders true None;
    MetadataCommand.PlanRetention (env 119 3009) orders root seg1 (num 1) (num 2);
    MetadataCommand.RegisterSealedSegment (env 120 3010) orders root seg2 (num 0) (num 10)
      (num 20) content (num 2) (num 4);
    split_root 121 3011 5;
    MetadataCommand.RenewRangeLease (env 122 3012) orders root n2 (num 2) (num 60000);
    MetadataCommand.AcquireRangeLease (env 123 90000) orders root n3 (num 6) (num 60000) ].

Fixpoint indexed (i : Z) (l : list MetadataCommand.t) : list (u64 * MetadataCommand.t) :=
  match l with
  | [] => []
  | c :: l => (num i, c) :: indexed (i + 1) l
  end.

Definition log : list (u64 * MetadataCommand.t) := indexed 1 commands.

(** Entries [i+1 .. j] of the log. *)
Definition entries (i j : nat) : list (u64 * MetadataCommand.t) := take (j - i) (drop i log).

(** Running a log, and one command. *)
Definition ran (l : list (u64 * MetadataCommand.t)) (m : MetaStateMachine.t)
    : list MetadataResponse.t * MetaStateMachine.t :=
  default ([], m) (MetaStateMachine.apply_log l m).
Definition stepped (i : u64) (c : MetadataCommand.t) (m : MetaStateMachine.t)
    : MetadataResponse.t * MetaStateMachine.t :=
  default (MetadataResponse.Ack zero, m) (MetaStateMachine.apply i c m).

(** The state after the first [k] entries. *)
Definition after (k : nat) : MetaStateMachine.t := (ran (entries 0 k) MetaStateMachine.new).2.

(** ** The run is a run *)

Lemma commands_valid : log_valid log.
Proof. repeat constructor; done. Qed.

Lemma entries_valid i j : log_valid (entries i j).
Proof. apply Forall_take, Forall_drop, commands_valid. Qed.

Lemma stepped_ok m i c :
  reachable m → MetadataCommand.names_valid c →
  MetaStateMachine.apply i c m = Some ((stepped i c m).1, (stepped i c m).2).
Proof.
  intros Hm Hc. unfold stepped.
  destruct (apply_spec m i c (reachable_rstate _ Hm) Hc) as (r & m' & -> & _). done.
Qed.

Lemma ran_ok l m :
  reachable m → log_valid l →
  MetaStateMachine.apply_log l m = Some ((ran l m).1, (ran l m).2).
Proof.
  intros Hm Hl. unfold ran.
  assert (is_Some (MetaStateMachine.apply_log l m)) as [[rs m'] ->]; [|done].
  revert m Hm. induction Hl as [|[i c] l Hc Hl IH]; intros m Hm; [by eexists|]. simpl.
  rewrite (stepped_ok m i c Hm Hc). simpl.
  destruct (IH (stepped i c m).2) as [[rs m'] ->]; [|by eexists].
  eapply reachable_apply; [exact Hm|exact Hc|by apply stepped_ok].
Qed.

Lemma after_reachable k : reachable (after k).
Proof.
  eapply apply_log_steps; [apply reachable_new|apply (entries_valid 0 k)|].
  apply ran_ok; [apply reachable_new|apply entries_valid].
Qed.

Lemma after_typed k : typed (MetaStateMachine.records (after k)).
Proof. apply rstate_typed, reachable_rstate, after_reachable. Qed.

(** A record read off a state by evaluation, with a test it passes. *)
Lemma found {A} {as_ : MetaValue.t → option A} {wrap} `{!Variant as_ wrap} s key (f : A → bool) :
  from_option f false (record s key ≫= as_) = true →
  ∃ a, record s key = Some (wrap a) ∧ f a = true.
Proof.
  destruct (record s key ≫= as_) as [a|] eqn:Ha; [|done]. intros Hf.
  exists a. split; [by apply bind_variant|done].
Qed.

(** The outcome of a handler, with a test its response passes. *)
Definition final (c : M MetadataResponse.t) (s : RecordMap) : RecordMap :=
  default s (snd <$> run c s).

Lemma outcome_ok c s (f : MetadataResponse.t → bool) :
  from_option (λ o, f o.1) false (run c s) = true →
  ∃ r, run c s = Some (r, final c s) ∧ f r = true.
Proof. unfold final. destruct (run c s) as [[r s']|]; [|done]. simpl. by exists r. Qed.

End Demo.

Import Demo.

#[local] Ltac by_eval := vm_compute; reflexivity.
#[local] Ltac reach := apply after_reachable.

(** * Leases and fencing *)

Lemma epoch_has_one_holder_witness :
  ∃ x x' l l',
    record (MetaStateMachine.records (after 7)) (MetaKey.Range orders root)
      = Some (MetaValue.Range x) ∧ RangeRecord.lease x = Some l ∧
    RangeRecord.lease x' = Some l' ∧
    (ival (LeaseRecord.fencing_epoch l) < ival (LeaseRecord.fencing_epoch l') ∨
     (LeaseRecord.fencing_epoch l = LeaseRecord.fencing_epoch l' ∧
      LeaseRecord.holder_node_uuid l = LeaseRecord.holder_node_uuid l')).
Proof.
  destruct (found (MetaStateMachine.records (after 7)) (MetaKey.Range orders root)
    (λ x, bool_decide (is_Some (RangeRecord.lease x)))) as (x & Hx & Hl); [by_eval|].
  destruct (found (MetaStateMachine.records (ran (entries 7 10) (after 7)).2)
    (MetaKey.Range orders root) (λ x, bool_decide (is_Some (RangeRecord.lease x))))
    as (x' & Hx' & Hl'); [by_eval|].
  apply bool_decide_eq_true in Hl as [l Hl]. apply bool_decide_eq_true in Hl' as [l' Hl'].
  exists x, x', l, l'. split; [exact Hx|]. split; [exact Hl|]. split; [exact Hl'|].
  apply (epoch_has_one_holder (entries 7 10) (after 7) (ran (entries 7 10) (after 7)).1
    (ran (entries 7 10) (after 7)).2 orders root x x' l l');
    [reach|apply entries_valid|apply ran_ok; [reach|apply entries_valid]
    |exact Hx|exact Hx'|exact Hl|exact Hl'].
Defined.

(** n1's registration under epoch 1, after n2 was granted epoch 2. *)
Definition late_seal : MetadataCommand.t :=
  MetadataCommand.RegisterSealedSegment (env 201 3100) orders root seg2 (num 0) (num 10)
    (num 20) content (num 1) (num 4).


Lemma chain_gapless_witness :
  ∃ x, record (MetaStateMachine.records (after 10)) (MetaKey.Range orders root)
         = Some (MetaValue.Range x) ∧
    chain_ok (MetaStateMachine.records (after 10)) orders root x.
Proof.
  destruct (found (MetaStateMachine.records (after 10)) (MetaKey.Range orders root)
    (λ x, bool_decide (ival (RangeRecord.fencing_epoch x) = 2))) as (x & Hx & _); [by_eval|].
  exists x. split; [exact Hx|]. apply (chain_gapless (after 10) orders root x); [reach|exact Hx].
Defined.

Lemma transition_history_witness :
  ∃ tr tr', record (MetaStateMachine.records (after 7))
              (MetaKey.RangeTransition orders root (num 1))
            = Some (MetaValue.RangeTransition tr) ∧
    record (MetaStateMachine.records (ran (entries 7 10) (after 7)).2)
      (MetaKey.RangeTransition orders root (num 1)) = Some (MetaValue.RangeTransition tr') ∧
    transition_evolves tr tr'.
Proof.
  destruct (found (MetaStateMachine.records (after 7))
    (MetaKey.RangeTransition orders root (num 1)) (λ _ : RangeTransitionRecord.t, true)) as (tr & Htr & _); [by_eval|].
  destruct (transition_history (entries 7 10) (after 7) (ran (entries 7 10) (after 7)).1
    (ran (entries 7 10) (after 7)).2 orders root (num 1) tr) as (tr' & Htr' & Hev);
    [reach|apply entries_valid|apply ran_ok; [reach|apply entries_valid]|exact Htr|].
  exists tr, tr'. split; [exact Htr|]. split; [exact Htr'|exact Hev].
Defined.

Lemma range_history_witness :
  ∃ x x', record (MetaStateMachine.records (after 7)) (MetaKey.Range orders root)
            = Some (MetaValue.Range x) ∧
    record (MetaStateMachine.records (ran (entries 7 23) (after 7)).2) (MetaKey.Range orders root)
      = Some (MetaValue.Range x') ∧ range_evolves x x'.
Proof.
  destruct (found (MetaStateMachine.records (after 7)) (MetaKey.Range orders root)
    (λ _ : RangeRecord.t, true))
    as (x & Hx & _); [by_eval|].
  destruct (range_history (entries 7 23) (after 7) (ran (entries 7 23) (after 7)).1
    (ran (entries 7 23) (after 7)).2 orders root x) as (x' & Hx' & Hev);
    [reach|apply entries_valid|apply ran_ok; [reach|apply entries_valid]|exact Hx|].
  exists x, x'. split; [exact Hx|]. split; [exact Hx'|exact Hev].
Defined.

Lemma election_sound_witness :
  ∃ x, record (MetaStateMachine.records (after 6)) (MetaKey.Range orders root)
         = Some (MetaValue.Range x) ∧
    electable (RangeRecord.lease x) n1 (wrap_int I64 1000).
Proof.
  destruct (election_sound (after 6) (num 7) (env 107 1000) orders root n1 (num 0) (num 60000)
    (stepped (num 7) elect_n1 (after 6)).1 (stepped (num 7) elect_n1 (after 6)).2)
    as (x & _ & _ & _ & _ & Hx & _ & _ & _ & _ & _ & _ & Hel);
    [reach|by_eval|apply (stepped_ok (after 6) (num 7) elect_n1); [reach|exact I]|by_eval|].
  exists x. split; [exact Hx|exact Hel].
Defined.

(** n2's election once n1's lease has run out. *)
Definition elect_n2 : MetadataCommand.t :=
  MetadataCommand.AcquireRangeLease (env 202 61000) orders root n2 (num 1) (num 60000).

Lemma takeover_delay_witness :
  wrap_int I64 900 + num 60000 - lease_skew_bound_ms (num 60000)
    - lease_skew_bound_ms (num 60000) <= wrap_int I64 60500 ∧
  10 * lease_skew_bound_ms (num 60000) <= num 60000.
Proof.
  destruct (found (MetaStateMachine.records (stepped (num 7) elect_n1 (after 6)).2)
    (MetaKey.Range orders root)
    (λ _ : RangeRecord.t, true)) as (x & Hx & _); [by_eval|].
  assert (reachable (stepped (num 7) elect_n1 (after 6)).2) as Hm.
  { eapply reachable_apply; [reach| |apply (stepped_ok (after 6) (num 7) elect_n1);
      [reach|exact I]]; exact I. }
  eapply (takeover_delay (after 6) (num 7) (env 107 1000) orders root n1 (num 0) (num 60000)
    (stepped (num 7) elect_n1 (after 6)).1 (stepped (num 7) elect_n1 (after 6)).2
    (wrap_int I64 900) _ x [] [] (stepped (num 7) elect_n1 (after 6)).2 x (num 8)
    (env 202 61000) n2 (num 1) (num 60000)
    (stepped (num 8) elect_n2 (stepped (num 7) elect_n1 (after 6)).2).1
    (stepped (num 8) elect_n2 (stepped (num 7) elect_n1 (after 6)).2).2 (wrap_int I64 60500) _);
    [reach|by_eval|apply (stepped_ok (after 6) (num 7) elect_n1); [reach|exact I]|by_eval
    |reflexivity|by_eval|exact Hx|constructor|reflexivity|exact Hx|reflexivity|discriminate
    |by_eval|apply (stepped_ok _ (num 8) elect_n2); [exact Hm|exact I]|by_eval
    |reflexivity|by_eval].
Defined.

Lemma renew_sound_witness :
  ∃ x l deadline, record (MetaStateMachine.records (after 21)) (MetaKey.Range orders root)
         = Some (MetaValue.Range x) ∧ RangeRecord.lease x = Some l ∧
    LeaseRecord.expires_at_ms l = Some deadline ∧ ival (wrap_int I64 3012) < ival deadline.
Proof.
  destruct (outcome_ok (renew_range_lease (wrap_int I64 3012) orders root n2 (num 2) (num 60000))
    (MetaStateMachine.records (after 21)) (λ r, negb (is_rejected r))) as (r & Hr & Hok);
    [by_eval|].
  apply negb_true_iff in Hok.
  destruct (renew_sound (MetaStateMachine.records (after 21)) (wrap_int I64 3012) orders root n2
    (num 2) (num 60000) r _ (after_typed 21) Hr Hok)
    as (x & _ & l & deadline & _ & _ & Hx & _ & Hl & _ & _ & Hd & Hlt & _).
  exists x, l, deadline. split; [exact Hx|]. split; [exact Hl|]. split; [exact Hd|exact Hlt].
Defined.

(** * Completion and rejection *)

(** n2's election while n1's lease is live. *)
Definition early_n2 : MetadataCommand.t :=
  MetadataCommand.AcquireRangeLease (env 203 2000) orders root n2 (num 1) (num 60000).


Lemma apply_total_witness :
  ∃ r m', MetaStateMachine.apply (num 8) early_n2 (after 7) = Some (r, m') ∧ reachable m'.
Proof. apply (apply_total (after 7) (num 8) early_n2); [reach|exact I]. Defined.

Lemma rejected_unchanged_witness :
  is_rejected (stepped (num 8) early_n2 (after 7)).1 = true ∧
  MetaStateMachine.records (stepped (num 8) early_n2 (after 7)).2
    = MetaStateMachine.records (after 7).
Proof.
  assert (is_rejected (stepped (num 8) early_n2 (after 7)).1 = true) as Hr by by_eval.
  split; [exact Hr|].
  apply (rejected_unchanged (after 7) (num 8) early_n2 (stepped (num 8) early_n2 (after 7)).1);
    [reach|exact I|reflexivity|apply stepped_ok; [reach|exact I]|exact Hr].
Defined.

Lemma feature_level_history_witness :
  ival (feature_level (MetaStateMachine.records (after 5)))
    <= ival (feature_level (MetaStateMachine.records (ran (entries 5 23) (after 5)).2))
    <= ival SUPPORTED_FEATURE_LEVEL.
Proof.
  apply (feature_level_history (entries 5 23) (after 5) (ran (entries 5 23) (after 5)).1);
    [reach|apply entries_valid|apply ran_ok; [reach|apply entries_valid]].
Defined.

(** * Deduplication *)

(** A different command that reuses the request id of n1's election. *)
Definition reused_request : MetadataCommand.t :=
  MetadataCommand.ReleaseRangeLease (env 107 5000) orders root (num 1).

Lemma apply_exactly_once_witness :
  MetaStateMachine.apply (num 40) reused_request
    (ran (entries 7 23) (stepped (num 7) elect_n1 (after 6)).2).2
  = Some ((stepped (num 7) elect_n1 (after 6)).1,
          (ran (entries 7 23) (stepped (num 7) elect_n1 (after 6)).2).2).
Proof.
  assert (reachable (stepped (num 7) elect_n1 (after 6)).2) as Hm.
  { eapply reachable_apply; [reach| |apply (stepped_ok (after 6) (num 7) elect_n1);
      [reach|exact I]]; exact I. }
  apply (apply_exactly_once (after 6) (num 7) elect_n1 (stepped (num 7) elect_n1 (after 6)).1
    (stepped (num 7) elect_n1 (after 6)).2 (entries 7 23)
    (ran (entries 7 23) (stepped (num 7) elect_n1 (after 6)).2).1);
    [reach|by_eval|apply stepped_ok; [reach|exact I]
    |apply ran_ok; [exact Hm|apply entries_valid]| |reflexivity].
  change (length (entries 7 23)) with 16%nat. unfold DEDUP_CAPACITY. lia.
Defined.

Lemma dedup_table_bounded_witness :
  table_ok (after 23) ∧ (MetaStateMachine.dedup_len (after 23) <= DEDUP_CAPACITY)%nat.
Proof. apply (dedup_table_bounded (after 23)). reach. Defined.

(** * The key space and splits *)

Lemma keyspace_partitioned_witness :
  ∃ r, serves (MetaStateMachine.records (after 21)) orders r (num 5) ∧
    ∀ r', serves (MetaStateMachine.records (after 21)) orders r' (num 5) → r' = r.
Proof.
  apply (keyspace_partitioned (after 21) orders (num 5)); [reach|].
  destruct (found (MetaStateMachine.records (after 21)) (MetaKey.Topic orders)
    (λ _ : TopicRecord.t, true)) as (x & Hx & _); [by_eval|].
  rewrite Hx. discriminate.
Defined.

Lemma sealed_range_bounded_witness :
  ∃ x seal, RangeRecord.sealed_at x = Some seal ∧ ∃ g,
    record (MetaStateMachine.records (after 21)) (MetaKey.Segment orders root seg2)
      = Some (MetaValue.Segment g) ∧
    ival (SegmentRecord.next_offset g) <= ival (SealedParent.barrier_offset seal).
Proof.
  destruct (found (MetaStateMachine.records (after 21)) (MetaKey.Range orders root)
    (λ x, bool_decide (is_Some (RangeRecord.sealed_at x)))) as (x & Hx & Hs); [by_eval|].
  apply bool_decide_eq_true in Hs as [seal Hs].
  destruct (found (MetaStateMachine.records (after 21)) (MetaKey.Segment orders root seg2)
    (λ _ : SegmentRecord.t, true)) as (g & Hg & _); [by_eval|].
  exists x, seal. split; [exact Hs|]. exists g. split; [exact Hg|].
  apply (sealed_range_bounded (after 21) orders root x seal seg2 g);
    [reach|exact Hx|exact Hs|exact Hg].
Defined.

Lemma split_applied_once_witness :
  ∃ generation m3,
    MetaStateMachine.apply (num 50) (split_root 204 95000 0)
      (ran (entries 21 23) (stepped (num 21) (split_root 121 3011 5) (after 20)).2).2
      = Some (MetadataResponse.Ack generation, m3) ∧
    MetaStateMachine.records m3 = MetaStateMachine.records
      (ran (entries 21 23) (stepped (num 21) (split_root 121 3011 5) (after 20)).2).2.
Proof.
  assert (reachable (stepped (num 21) (split_root 121 3011 5) (after 20)).2) as Hm.
  { eapply reachable_apply; [reach| |apply (stepped_ok (after 20) (num 21)
      (split_root 121 3011 5)); [reach|exact I]]; exact I. }
  apply (split_applied_once (after 20) (num 21) (env 121 3011) orders root left_half right_half
    (id 60) (num 20) (num 5) n2 (num 2)
    (stepped (num 21) (split_root 121 3011 5) (after 20)).1
    (stepped (num 21) (split_root 121 3011 5) (after 20)).2 (entries 21 23)
    (ran (entries 21 23) (stepped (num 21) (split_root 121 3011 5) (after 20)).2).1);
    [reach|by_eval|apply (stepped_ok (after 20) (num 21) (split_root 121 3011 5));
      [reach|exact I]|by_eval|apply entries_valid
    |apply ran_ok; [exact Hm|apply entries_valid]|by_eval].
Defined.

(** * Replica sets *)

Lemma replica_sets_valid_witness :
  ∃ set, record (MetaStateMachine.records (after 9)) (MetaKey.RangeReplicaSet orders root)
           = Some (MetaValue.RangeReplicaSet set) ∧
    set_ok (MetaStateMachine.records (after 9)) orders root set.
Proof.
  destruct (found (MetaStateMachine.records (after 9)) (MetaKey.RangeReplicaSet orders root)
    (λ _ : RangeReplicaSetRecord.t, true)) as (set & Hset & _); [by_eval|].
  exists set. split; [exact Hset|].
  apply (replica_sets_valid (after 9) orders root set); [reach|exact Hset].
Defined.

(** The change from three replicas to four, after n1 led under the three. *)
Definition grow : M MetadataResponse.t :=
  set_range_replica_set orders root [n1; n2; n3; n4] (num 1).

Lemma replica_set_change_safe_witness :
  ∃ set set', ∀ q1 q2, is_quorum q1 (RangeReplicaSetRecord.members set) →
    is_quorum q2 (RangeReplicaSetRecord.members set') → ∃ n, n ∈ q1 ∧ n ∈ q2.
Proof.
  destruct (outcome_ok grow (MetaStateMachine.records (after 8))
    (λ r, match r with MetadataResponse.Ack _ => true | _ => false end)) as (r & Hr & Hok);
    [by_eval|].
  destruct r as [gen| | | | | | |]; try discriminate Hok.
  destruct (found (MetaStateMachine.records (after 8)) (MetaKey.RangeReplicaSet orders root)
    (λ x, bool_decide (ival (RangeReplicaSetRecord.generation x) = 1)))
    as (set & Hset & Hg); [by_eval|].
  destruct (found (final grow (MetaStateMachine.records (after 8)))
    (MetaKey.RangeReplicaSet orders root)
    (λ x, bool_decide (ival (RangeReplicaSetRecord.generation x) = 2)))
    as (set' & Hset' & Hg'); [by_eval|].
  apply bool_decide_eq_true in Hg, Hg'. exists set, set'.
  apply (replica_set_change_safe (after 8) orders root [n1; n2; n3; n4] (num 1) gen
    (final grow (MetaStateMachine.records (after 8))) set set');
    [reach|exact Hr|exact Hset|exact Hset'|intros ->; lia].
Defined.

(** * Segments *)

Lemma segment_records_consistent_witness :
  ∃ x, record (MetaStateMachine.records (after 13)) (MetaKey.Segment orders root seg1)
         = Some (MetaValue.Segment x) ∧
    segment_ok (SegmentView.read (MetaStateMachine.records (after 13)) orders root seg1) x.
Proof.
  destruct (found (MetaStateMachine.records (after 13)) (MetaKey.Segment orders root seg1)
    (λ _ : SegmentRecord.t, true)) as (x & Hx & _); [by_eval|].
  exists x. split; [exact Hx|].
  apply (segment_records_consistent (after 13) orders root seg1 x); [reach|exact Hx].
Defined.

Lemma segment_history_witness :
  ∃ x x', record (MetaStateMachine.records (after 11)) (MetaKey.Segment orders root seg1)
            = Some (MetaValue.Segment x) ∧
    record (MetaStateMachine.records (ran (entries 11 23) (after 11)).2)
      (MetaKey.Segment orders root seg1) = Some (MetaValue.Segment x') ∧ segment_advances x x'.
Proof.
  destruct (found (MetaStateMachine.records (after 11)) (MetaKey.Segment orders root seg1)
    (λ _ : SegmentRecord.t, true)) as (x & Hx & _); [by_eval|].
  destruct (segment_history (entries 11 23) (after 11) (ran (entries 11 23) (after 11)).1
    (ran (entries 11 23) (after 11)).2 orders root seg1 x) as (x' & Hx' & Hev);
    [reach|apply entries_valid|apply ran_ok; [reach|apply entries_valid]|exact Hx|].
  exists x, x'. split; [exact Hx|]. split; [exact Hx'|exact Hev].
Defined.

Lemma plan_retention_sound_witness :
  ∃ x, record (MetaStateMachine.records (after 18)) (MetaKey.Segment orders root seg1)
         = Some (MetaValue.Segment x) ∧
    consumed (MetaStateMachine.records (after 18)) orders root (SegmentRecord.next_offset x).
Proof.
  destruct (outcome_ok (plan_retention orders root seg1 (num 1) (num 2))
    (MetaStateMachine.records (after 18)) (λ r, negb (is_rejected r))) as (r & Hr & Hok);
    [by_eval|].
  apply negb_true_iff in Hok.
  destruct (plan_retention_sound (MetaStateMachine.records (after 18)) orders root seg1 (num 1)
    (num 2) r _ (after_typed 18) Hr Hok)
    as (x & _ & _ & Hx & _ & _ & _ & _ & _ & _ & Hc).
  exists x. split; [exact Hx|exact Hc].
Defined.

(** * Groups and cursors *)

Lemma exclusive_assignment_witness :
  ∃ x, record (MetaStateMachine.records (after 16)) (MetaKey.GroupMember billing worker)
         = Some (MetaValue.GroupMember x) ∧ worker = worker ∧
    member_ok (MetaStateMachine.records (after 16)) billing x.
Proof.
  destruct (found (MetaStateMachine.records (after 16)) (MetaKey.GroupMember billing worker)
    (λ x, bool_decide (RangeAssignment.mk orders root ∈ GroupMemberRecord.assigned x)))
    as (x & Hx & Ha); [by_eval|].
  apply bool_decide_eq_true in Ha. exists x. split; [exact Hx|].
  apply (exclusive_assignment (after 16) billing worker worker x x
    (RangeAssignment.mk orders root)); [reach|exact Hx|exact Hx|exact Ha|exact Ha].
Defined.

Lemma group_names_bijective_witness : names_ok (MetaStateMachine.records (after 16)).
Proof. apply (group_names_bijective (after 16)). reach. Defined.

Lemma cursors_valid_witness :
  ∃ c, record (MetaStateMachine.records (after 17)) (MetaKey.GroupCursor billing orders root)
         = Some (MetaValue.GroupCursor c) ∧
    cursor_ok (MetaStateMachine.records (after 17)) orders root c.
Proof.
  destruct (found (MetaStateMachine.records (after 17)) (MetaKey.GroupCursor billing orders root)
    (λ _ : CursorCheckpointRecord.t, true)) as (c & Hc & _); [by_eval|].
  exists c. split; [exact Hc|].
  apply (cursors_valid (after 17) billing orders root c); [reach|exact Hc].
Defined.

Lemma cursor_history_witness :
  ∃ c c', record (MetaStateMachine.records (after 17)) (MetaKey.GroupCursor billing orders root)
            = Some (MetaValue.GroupCursor c) ∧
    record (MetaStateMachine.records (ran (entries 17 23) (after 17)).2)
      (MetaKey.GroupCursor billing orders root) = Some (MetaValue.GroupCursor c') ∧
    cursor_evolves c c'.
Proof.
  destruct (found (MetaStateMachine.records (after 17)) (MetaKey.GroupCursor billing orders root)
    (λ _ : CursorCheckpointRecord.t, true)) as (c & Hc & _); [by_eval|].
  destruct (cursor_history (entries 17 23) (after 17) (ran (entries 17 23) (after 17)).1
    (ran (entries 17 23) (after 17)).2 billing orders root c) as (c' & Hc' & Hev);
    [reach|apply entries_valid|apply ran_ok; [reach|apply entries_valid]|exact Hc|].
  exists c, c'. split; [exact Hc|]. split; [exact Hc'|exact Hev].
Defined.

(** The worker's commit of offset 10, pinned to the first segment. *)
Definition commit_10 : CommitCursorArgs.t :=
  CommitCursorArgs.mk billing worker orders root (num 1) (num 0) seg1 (num 1) content (num 10)
    (num 10) None None.


(** * Queries *)

Lemma range_transitions_gapless_witness :
  ∃ x, record (MetaStateMachine.records (after 23)) (MetaKey.Range orders root)
         = Some (MetaValue.Range x) ∧
    (λ tr, ival (RangeTransitionRecord.epoch_to tr)) <$>
      range_transitions (MetaStateMachine.records (after 23)) orders root (num 2) 5
    = take 5 (seqZ (num 2) (RangeRecord.fencing_epoch x - num 2 + 1)).
Proof.
  destruct (found (MetaStateMachine.records (after 23)) (MetaKey.Range orders root)
    (λ _ : RangeRecord.t, true)) as (x & Hx & _); [by_eval|].
  exists x. split; [exact Hx|].
  apply (range_transitions_gapless (after 23) orders root x (num 2) 5);
    [reach|exact Hx|discriminate].
Defined.

Lemma cursor_positions_complete_witness :
  ∃ all, NoDup all ∧
    group_cursor_positions (MetaStateMachine.records (after 23)) 8
      = (take 8 all, bool_decide (8 < length all)%nat).
Proof.
  destruct (cursor_positions_complete (after 23) 8) as (all & Hnd & _ & Hall); [reach|].
  exists all. split; [exact Hnd|exact Hall].
Defined.

(** * Placement, lineage, batches and error details *)

Definition candidates : list PlacementCandidate.t :=
  [PlacementCandidate.mk n1 "rack-a" (wrap_int U32 100);
   PlacementCandidate.mk n2 "rack-a" (wrap_int U32 100);
   PlacementCandidate.mk n3 "rack-b" (wrap_int U32 100)].

Definition chosen : list Uuid :=
  match select_replicas seg1 candidates 2 true with Ok out => out | Err _ => [] end.

Lemma select_replicas_sound_witness : length chosen = 2%nat ∧ NoDup chosen.
Proof.
  assert (select_replicas seg1 candidates 2 true = Ok chosen) as Hok.
  { unfold chosen. destruct (select_replicas seg1 candidates 2 true) eqn:Hs; [reflexivity|].
    exfalso. assert (is_ok (select_replicas seg1 candidates 2 true) = true) as Hb by by_eval.
    rewrite Hs in Hb. discriminate Hb. }
  destruct (select_replicas_sound seg1 candidates 2 true chosen Hok) as (Hlen & _ & Hnd & _).
  split; [exact Hlen|exact Hnd].
Defined.

(** The merge of the two halves of the key space. *)
Definition merged : RangeLineage.t :=
  RangeLineage.mk (id 70) (num 2) KeyRange.full
    [ParentRange.mk (id 71) (num 1) (KeyRange.mk (num 0) (wrap_int U8 1));
     ParentRange.mk (id 72) (num 1) (KeyRange.mk (num (2 ^ 63)) (wrap_int U8 1))].

Lemma lineage_keys_witness :
  KeyRange.contains KeyRange.full (num 5)
  = xorb (KeyRange.contains (KeyRange.mk (num 0) (wrap_int U8 1)) (num 5))
      (KeyRange.contains (KeyRange.mk (num (2 ^ 63)) (wrap_int U8 1)) (num 5)).
Proof. apply (lineage_keys merged (num 5)). by_eval. Defined.

Lemma commit_follows_pipeline_witness :
  ∃ l, history BatchState.Discovered l BatchState.SourceCommitted ∧
    ∃ before, l = before ++ pipeline.
Proof.
  assert (history BatchState.Discovered
    ((((((((((([BatchState.Discovered] ++ [BatchState.Batching]) ++ [BatchState.Failed])
      ++ [BatchState.ReplayRequired]) ++ [BatchState.Batching]) ++ [BatchState.Sealed])
      ++ [BatchState.Compressed]) ++ [BatchState.Checksummed]) ++ [BatchState.ObjectUploaded])
      ++ [BatchState.ManifestUploaded]) ++ [BatchState.Verified]) ++ [BatchState.SourceCommitted])
    BatchState.SourceCommitted) as Hh.
  { repeat eapply Step. all: first [apply Start|reflexivity]. }
  eexists. split; [exact Hh|]. exact (commit_follows_pipeline _ Hh).
Defined.

Lemma commands_wire : wire_log log.
Proof.
  unfold wire_log, log, commands. simpl.
  repeat first [apply List.Forall_nil | apply List.Forall_cons]; cbn [snd wire_ok].
  all: unfold name_ok, text_ok, CommandRoundtrip.outcome_ok, promoted.
  all: split_and?; first [exact I|done|by_eval|apply Z.leb_le; by_eval|apply Nat.leb_le; by_eval].
Qed.

Lemma snapshot_then_replay_witness :
  ∃ bytes m', encode_snapshot (after 12) = Some (Ok bytes) ∧ decode_snapshot bytes = Ok m' ∧
    ∀ rest rs' m'', MetaStateMachine.apply_log rest m' = Some (rs', m'') →
      MetaStateMachine.apply_log (entries 0 12 ++ rest) MetaStateMachine.new
        = Some ((ran (entries 0 12) MetaStateMachine.new).1 ++ rs', m'').
Proof.
  apply (snapshot_then_replay (entries 0 12) _ (after 12)).
  - apply Forall_take, commands_wire.
  - apply ran_ok; [apply reachable_new|apply entries_valid].
  - apply Z.leb_le. by_eval.
Defined.

(** The snapshot of that state, and what a node that installs it holds. *)
Definition snapshot_bytes : list u8 :=
  match encode_snapshot (after 12) with Some (Ok bytes) => bytes | _ => [] end.
Definition restored : MetaStateMachine.t :=
  match decode_snapshot snapshot_bytes with Ok m => m | Err _ => MetaStateMachine.new end.

Lemma snapshot_accepted_ok_witness :
  size (MetaStateMachine.records restored) = 11%nat ∧ snapshot_ok restored.
Proof.
  split; [by_eval|]. apply (snapshot_accepted_ok snapshot_bytes).
  unfold restored.
  assert (match decode_snapshot snapshot_bytes with Ok _ => true | Err _ => false end = true) as Hok
    by by_eval.
  by destruct (decode_snapshot snapshot_bytes).
Defined.

(** The election of the second leader, as its holder signs it. *)
Definition signed : RangeTransitionRecord.t :=
  RangeTransitionRecord.mk (num 1) (num 2) (Some n1) n2 GrantKind.Election (wrap_int I64 3000) (num 10)
    TransitionOutcome.Pending.

Lemma signing_input_injective_witness :
  ∃ bytes, ValueCodec.signing_input signed orders root = Ok bytes ∧
    signed = signed ∧ orders = orders ∧ root = root.
Proof.
  eexists. split; [by_eval|].
  eapply (signing_input_injective signed orders root signed orders root);
    [exact I|exact I|by_eval|by_eval].
Defined.

(** * What the code does not promise *)

Module Divergence.

(** Seventeen topics of one range each; the worker is assigned sixteen of them. *)
Definition topic_name (k : Z) : string := "topic-" +:+ pretty k.

Definition topics : list Z :=
  [1; 2; 3; 4; 5; 6; 7; 8; 9; 10; 11; 12; 13; 14; 15; 16; 17].

Definition crowded : list (u64 * MetadataCommand.t) :=
  indexed 1
    (MetadataCommand.RegisterNode (env 101 1) n1 "a:1" None ::
     ((λ k, MetadataCommand.CreateTopic (env (200 + k) 2) (topic_name k) (id (300 + k))
              (id (400 + k))) <$> topics) ++
     [MetadataCommand.GrantRangeLease (env 501 3) (id 317) (id 417) n1 (num 0);
      MetadataCommand.CreateConsumerGroup (env 502 4) "billing" billing;
      MetadataCommand.JoinConsumerGroup (env 503 5) billing worker (num 0);
      MetadataCommand.AssignMemberRanges (env 504 6) billing worker
        ((λ k, RangeAssignment.mk (id (300 + k)) (id (400 + k))) <$> take 16 topics) (num 0)]).

Definition crowded_state : MetaStateMachine.t := (ran crowded MetaStateMachine.new).2.

Lemma crowded_valid : log_valid crowded.
Proof. repeat constructor; done. Qed.

Lemma crowded_reachable : reachable crowded_state.
Proof.
  eapply apply_log_steps; [apply reachable_new|apply crowded_valid|].
  apply ran_ok; [apply reachable_new|apply crowded_valid].
Qed.

(** The gateway of the seventeenth range asks for the worker's membership. *)
Definition one_more : MetadataCommand.t :=
  MetadataCommand.EnsureGroupMemberForRange (env 601 7) "billing" billing worker (id 317)
    (id 417) n1 (num 1).

(** The same group asked for under a name nobody has bound. *)
Definition other_name : MetadataCommand.t :=
  MetadataCommand.EnsureGroupMemberForRange (env 602 3100) "audit" billing worker orders root n2
    (num 2).

(** When the worker's heartbeat was last written. *)
Definition heartbeat (m : MetaStateMachine.t) : option Z :=
  (λ x, ival (GroupMemberRecord.last_heartbeat_apply_index x)) <$>
    (record (MetaStateMachine.records m) (MetaKey.GroupMember billing worker) ≫= as_GroupMember).

Definition name_bound (name : string) (m : MetaStateMachine.t) : bool :=
  bool_decide (is_Some (record (MetaStateMachine.records m) (MetaKey.GroupByName name))).

End Divergence.

(** A refused membership request is not a no-op: there is a reachable state in which
    EnsureGroupMemberForRange is rejected, since the member holds all the ranges it
    may, and still moves the member's heartbeat. *)
Theorem ensure_rejection_mutates :
  reachable Divergence.crowded_state ∧
  is_rejected (stepped (num 99) Divergence.one_more Divergence.crowded_state).1 = true ∧
  MetaStateMachine.records (stepped (num 99) Divergence.one_more Divergence.crowded_state).2
    ≠ MetaStateMachine.records Divergence.crowded_state.
Proof.
  split; [apply Divergence.crowded_reachable|]. split; [by_eval|]. intros Heq.
  assert (Divergence.heartbeat
            (stepped (num 99) Divergence.one_more Divergence.crowded_state).2
          = Divergence.heartbeat Divergence.crowded_state) as Hsame
    by (unfold Divergence.heartbeat; by rewrite Heq).
  vm_compute in Hsame. discriminate Hsame.
Qed.

(** An acknowledged membership request does not leave the group under the name it
    was asked for: in a reachable state where the group exists under another name,
    the request is acknowledged and the name stays unbound. *)
Theorem ensure_leaves_name_unbound :
  reachable (after 14) ∧
  is_rejected (stepped (num 99) Divergence.other_name (after 14)).1 = false ∧
  Divergence.name_bound "audit" (stepped (num 99) Divergence.other_name (after 14)).2 = false.
Proof. split; [reach|]. split; by_eval. Qed.
