(* ===== verification/Storage.v ===== *)
(** The storage seam of the log (crates/vtop-log/src/env.rs) over its simulated disk
    (crates/vtop-log/src/sim.rs).

    File data becomes durable on [sync_data], directory entries on [sync_dir].  Every
    operation first counts itself and consults the fault plan ([begin_op]), so a
    computation in the monad [Sim] runs under whatever crash or failure the plan holds:
    a crash replaces the volatile state by a prefix of the pending operations, possibly
    followed by one torn write, and leaves the disk down until [reboot].

    A computation that returns [None] panics (an inode out of range).  File positions
    and lengths are natural numbers: a simulated file lives in memory, so they never come
    near 2^64.  [ErrorKind] has the kinds that reach a caller; an interrupted call, which
    the standard library's [write_all] and [read_exact] retry, is not among them. *)

From stdpp Require Import gmap strings list.
From Stdlib Require Import ZArith Lia.
From S2P Require Import Prelude Wire.
#[local] Open Scope nat_scope.

(** * Paths *)

(** A path in component form, which is what path equality compares. *)
Record PathBuf := Path {
  is_absolute : bool;
  components : list (list u8);
}.

#[global] Instance PathBuf_eq_dec : EqDecision PathBuf.
Proof. solve_decision. Defined.

#[global] Instance PathBuf_countable : Countable PathBuf.
Proof.
  refine (inj_countable' (λ p, (is_absolute p, components p)) (λ q, Path q.1 q.2) _).
  by intros [].
Defined.

(** [Path::parent]: there is none above a root or the empty path. *)
Definition parent (p : PathBuf) : option PathBuf :=
  match components p with
  | [] => None
  | cs => Some (Path (is_absolute p) (removelast cs))
  end.

Definition root_path : PathBuf := Path true [].
Definition current_dir : PathBuf := Path false [as_bytes "."].

(** The order of the paths of a [BTreeMap]: the root component sorts first. *)
Fixpoint components_le (ps qs : list (list u8)) : bool :=
  match ps, qs with
  | [], _ => true
  | _ :: _, [] => false
  | p :: ps', q :: qs' => if decide (p = q) then components_le ps' qs' else bytes_le p q
  end.

Definition path_le (p q : PathBuf) : Prop :=
  match is_absolute p, is_absolute q with
  | true, false => components q ≠ []
  | false, true => components p = []
  | _, _ => components_le (components p) (components q) = true
  end.

#[global] Instance path_le_dec : RelDecision path_le.
Proof. intros p q. unfold path_le. destruct (is_absolute p), (is_absolute q); apply _. Defined.

(** * The seam *)

Inductive ErrorKind :=
  | NotFound | AlreadyExists | PermissionDenied | InvalidInput | InvalidData
  | UnexpectedEof | WriteZero | Other.

(** [io::Error] *)
Record IoError := mkIoError { error_kind : ErrorKind; error_text : string }.

Definition io_other (text : string) : IoError := mkIoError Other text.

Inductive OpenMode := Read | ReadWrite | CreateNew | CreateAppend.
#[global] Instance OpenMode_eq_dec : EqDecision OpenMode.
Proof. solve_decision. Defined.

Inductive SeekFrom := SeekStart (offset : nat) | SeekEnd (delta : Z) | SeekCurrent (delta : Z).

Record DirEntryInfo := mkDirEntryInfo { entry_path : PathBuf; is_regular_file : bool }.

(** * State of the simulated disk *)

Module FaultPlan.
Inductive t :=
  | NoFault
  | CrashBefore (op : nat)
  | CrashDuringWrite (op : nat) (byte_cut : nat)
  | FailOp (op : nat) (kind : ErrorKind)
  | FailOpsFrom (op : nat) (kind : ErrorKind).
End FaultPlan.

Inductive TraceKind :=
  | Open | HandleRead | HandleWrite | HandleSeek | HandleSetLen | HandleSyncData | HandleLen
  | ReadFile | Rename | RemoveFile | Exists | ReadDir | SyncDir.
#[global] Instance TraceKind_eq_dec : EqDecision TraceKind.
Proof. solve_decision. Defined.

Record TraceEntry := mkTraceEntry {
  trace_index : nat;
  trace_kind : TraceKind;
  trace_path : PathBuf;
  trace_len : nat;
}.

(** [SimDiskState]: a snapshot of the durable contents. *)
Record SimDiskState := mkSimDiskState {
  files : gmap PathBuf (list u8);
  disk_dirs : gset PathBuf;
}.

Module DataOp.
Inductive t := Write (position : nat) (bytes : list u8) | SetLen (len : nat).
End DataOp.

Module NsOp.
Inductive t :=
  | Create (path : PathBuf) (inode : nat)
  | Rename (from to : PathBuf)
  | Remove (path : PathBuf).
End NsOp.

Module PendingOp.
Inductive t := Data (inode : nat) (op : DataOp.t) | Namespace (op : NsOp.t).
End PendingOp.

Module Inode.
Record t := mk { durable : list u8; visible : list u8 }.
Definition empty : t := mk [] [].
End Inode.

Module SimState.
Record t := mk {
  inodes : list Inode.t;
  ns_visible : gmap PathBuf nat;
  ns_durable : gmap PathBuf nat;
  dirs : gset PathBuf;
  pending : list PendingOp.t;
  plan : FaultPlan.t;
  trace : list TraceEntry;
  next_op : nat;
  epoch : nat;
  crashed : bool;
}.

Definition new : t := mk [] ∅ ∅ ∅ [] FaultPlan.NoFault [] 0 0 false.

Definition set_inodes (x : list Inode.t) (s : t) : t :=
  mk x (ns_visible s) (ns_durable s) (dirs s) (pending s) (plan s) (trace s) (next_op s)
     (epoch s) (crashed s).
Definition set_ns_visible (x : gmap PathBuf nat) (s : t) : t :=
  mk (inodes s) x (ns_durable s) (dirs s) (pending s) (plan s) (trace s) (next_op s)
     (epoch s) (crashed s).
Definition set_ns_durable (x : gmap PathBuf nat) (s : t) : t :=
  mk (inodes s) (ns_visible s) x (dirs s) (pending s) (plan s) (trace s) (next_op s)
     (epoch s) (crashed s).
Definition set_dirs (x : gset PathBuf) (s : t) : t :=
  mk (inodes s) (ns_visible s) (ns_durable s) x (pending s) (plan s) (trace s) (next_op s)
     (epoch s) (crashed s).
Definition set_pending (x : list PendingOp.t) (s : t) : t :=
  mk (inodes s) (ns_visible s) (ns_durable s) (dirs s) x (plan s) (trace s) (next_op s)
     (epoch s) (crashed s).
Definition set_plan (x : FaultPlan.t) (s : t) : t :=
  mk (inodes s) (ns_visible s) (ns_durable s) (dirs s) (pending s) x (trace s) (next_op s)
     (epoch s) (crashed s).
Definition set_crashed (x : bool) (s : t) : t :=
  mk (inodes s) (ns_visible s) (ns_durable s) (dirs s) (pending s) (plan s) (trace s)
     (next_op s) (epoch s) x.
Definition set_epoch (x : nat) (s : t) : t :=
  mk (inodes s) (ns_visible s) (ns_durable s) (dirs s) (pending s) (plan s) (trace s)
     (next_op s) x (crashed s).

Definition push_pending (op : PendingOp.t) (s : t) : t := set_pending (pending s ++ [op]) s.

(** [self.next_op += 1] and the trace entry of an operation. *)
Definition count_op (kind : TraceKind) (path : PathBuf) (len : nat) (s : t) : t :=
  mk (inodes s) (ns_visible s) (ns_durable s) (dirs s) (pending s) (plan s)
     (trace s ++ [mkTraceEntry (next_op s) kind path len]) (S (next_op s)) (epoch s) (crashed s).
End SimState.

(** * Pure effects *)

(** Writing past the end extends the file with zeros first. *)
Definition apply_data_op (content : list u8) (op : DataOp.t) : list u8 :=
  match op with
  | DataOp.Write position bytes =>
      let stop := position + length bytes in
      let content := if decide (length content < stop) then resize stop zero content else content in
      take position content ++ bytes ++ drop stop content
  | DataOp.SetLen len => resize len zero content
  end.

Definition apply_ns_op (namespace : gmap PathBuf nat) (op : NsOp.t) : gmap PathBuf nat :=
  match op with
  | NsOp.Create path inode => <[path := inode]> namespace
  | NsOp.Rename from to =>
      match namespace !! from with
      | Some inode => <[to := inode]> (delete from namespace)
      | None => namespace
      end
  | NsOp.Remove path => delete path namespace
  end.

Definition in_dir (dir path : PathBuf) : bool :=
  bool_decide (default current_dir (parent path) = dir).

Definition ns_op_in_dir (op : NsOp.t) (dir : PathBuf) : bool :=
  match op with
  | NsOp.Create path _ | NsOp.Remove path => in_dir dir path
  | NsOp.Rename from to => in_dir dir from || in_dir dir to
  end.

(** [self.inodes[inode]], updated in place; out of range it panics. *)
Definition update_inode (i : nat) (f : Inode.t → Inode.t) (s : SimState.t) : option SimState.t :=
  x ← SimState.inodes s !! i;
  Some (SimState.set_inodes (<[i := f x]> (SimState.inodes s)) s).

Definition write_durable (op : DataOp.t) (x : Inode.t) : Inode.t :=
  Inode.mk (apply_data_op (Inode.durable x) op) (Inode.visible x).
Definition write_visible (op : DataOp.t) (x : Inode.t) : Inode.t :=
  Inode.mk (Inode.durable x) (apply_data_op (Inode.visible x) op).

Definition apply_pending (s : SimState.t) (op : PendingOp.t) : option SimState.t :=
  match op with
  | PendingOp.Data inode op => update_inode inode (write_durable op) s
  | PendingOp.Namespace op =>
      Some (SimState.set_ns_durable (apply_ns_op (SimState.ns_durable s) op) s)
  end.

Fixpoint apply_all (s : SimState.t) (ops : list PendingOp.t) : option SimState.t :=
  match ops with
  | [] => Some s
  | op :: ops => s' ← apply_pending s op; apply_all s' ops
  end.

(** The volatile state after a crash is the durable one, and the disk is down. *)
Definition lose_volatile (s : SimState.t) : SimState.t :=
  SimState.mk ((λ x, Inode.mk (Inode.durable x) (Inode.durable x)) <$> SimState.inodes s)
    (SimState.ns_durable s) (SimState.ns_durable s) (SimState.dirs s) []
    FaultPlan.NoFault (SimState.trace s) (SimState.next_op s) (S (SimState.epoch s)) true.

Definition materialize_crash (prefix : nat) (torn : option (nat * nat * list u8))
    (s : SimState.t) : option SimState.t :=
  s ← apply_all s (take prefix (SimState.pending s));
  s ← match torn with
      | None => Some s
      | Some (inode, position, bytes) =>
          update_inode inode (write_durable (DataOp.Write position bytes)) s
      end;
  Some (lose_volatile s).

(** [promote_file] and [promote_dir] take the pending list apart, apply what they promote
    and push the rest back in order. *)
Definition promote_step_file (inode : nat) (s : option SimState.t) (op : PendingOp.t)
    : option SimState.t :=
  s ← s;
  match op with
  | PendingOp.Data target data =>
      if decide (target = inode) then update_inode inode (write_durable data) s
      else Some (SimState.push_pending op s)
  | PendingOp.Namespace _ => Some (SimState.push_pending op s)
  end.

Definition promote_file (inode : nat) (s : SimState.t) : option SimState.t :=
  foldl (promote_step_file inode) (Some (SimState.set_pending [] s)) (SimState.pending s).

Definition promote_step_dir (dir : PathBuf) (s : SimState.t) (op : PendingOp.t) : SimState.t :=
  match op with
  | PendingOp.Namespace ns =>
      if ns_op_in_dir ns dir
      then SimState.set_ns_durable (apply_ns_op (SimState.ns_durable s) ns) s
      else SimState.push_pending op s
  | PendingOp.Data _ _ => SimState.push_pending op s
  end.

Definition promote_dir (dir : PathBuf) (s : SimState.t) : SimState.t :=
  foldl (promote_step_dir dir) (SimState.set_pending [] s) (SimState.pending s).

(** * Computations on the disk *)

Definition SimE (E A : Type) : Type := SimState.t → option (SimState.t * result E A).
Abbreviation Sim := (SimE IoError).

#[global] Instance sim_ret E : MRet (SimE E) := λ _ a s, Some (s, Ok a).
#[global] Instance sim_bind E : MBind (SimE E) := λ _ _ f c s,
  match c s with
  | Some (s', Ok a) => f a s'
  | Some (s', Err e) => Some (s', Err e)
  | None => None
  end.

Definition sim_fail {E A} (e : E) : SimE E A := λ s, Some (s, Err e).
Definition sim_get : Sim SimState.t := λ s, Some (s, Ok s).
Definition sim_put (s : SimState.t) : Sim unit := λ _, Some (s, Ok tt).
(** A state change that may panic. *)
Definition sim_try (f : SimState.t → option SimState.t) : Sim unit := λ s,
  s' ← f s; Some (s', Ok tt).
(** [Result::map_err] *)
Definition map_err {E F A} (f : E → F) (c : SimE E A) : SimE F A := λ s,
  '(s', r) ← c s; Some (s', match r with Ok a => Ok a | Err e => Err (f e) end).
(** The result of a call, its error included, as a value. *)
Definition attempt {E F A} (c : SimE E A) : SimE F (result E A) := λ s,
  '(s', r) ← c s; Some (s', Ok r).
(** [self.inodes[inode].visible] *)
Definition sim_visible (i : nat) : Sim (list u8) := λ s,
  x ← SimState.inodes s !! i; Some (s, Ok (Inode.visible x)).

(** The disk goes down and the operation that met the crash reports it. *)
Definition sim_crash {A} (prefix : nat) (torn : option (nat * nat * list u8)) (text : string)
    : Sim A :=
  sim_try (materialize_crash prefix torn);; sim_fail (io_other text).

Definition require_dir (path : PathBuf) : Sim unit := λ s,
  if decide (path ∈ SimState.dirs s) then Some (s, Ok tt)
  else Some (s, Err (mkIoError NotFound "no such simulated directory")).

Definition visible_inode (path : PathBuf) : Sim nat := λ s,
  match SimState.ns_visible s !! path with
  | Some inode => Some (s, Ok inode)
  | None => Some (s, Err (mkIoError NotFound "no such simulated file"))
  end.

Definition begin_op (kind : TraceKind) (path : PathBuf) (len : nat) : Sim nat :=
  s ← sim_get;
  if SimState.crashed s then sim_fail (io_other "simulated storage is down until reboot")
  else
    let index := SimState.next_op s in
    sim_put (SimState.count_op kind path len s);;
    match SimState.plan s with
    | FaultPlan.CrashBefore op =>
        if decide (op = index) then sim_crash 0 None "simulated crash before operation"
        else mret index
    | FaultPlan.CrashDuringWrite op _ =>
        if decide (op = index ∧ kind ≠ HandleWrite)
        then sim_crash 0 None "simulated crash before operation"
        else mret index
    | FaultPlan.FailOp op kind =>
        if decide (op = index) then sim_fail (mkIoError kind "injected storage failure")
        else mret index
    | FaultPlan.FailOpsFrom op kind =>
        if decide (op <= index) then sim_fail (mkIoError kind "injected storage failure")
        else mret index
    | FaultPlan.NoFault => mret index
    end.

(** * File handles *)

Module SimFile.
Record t := mk {
  path : PathBuf;
  inode : nat;
  position : nat;
  epoch : nat;
  writable : bool;
}.

Definition set_position (x : nat) (f : t) : t :=
  mk (path f) (inode f) x (epoch f) (writable f).
End SimFile.

(** A handle opened before a crash is lost. *)
Definition lock_handle (epoch : nat) : Sim unit := λ s,
  if decide (SimState.epoch s = epoch) then Some (s, Ok tt)
  else Some (s, Err (io_other "file handle lost in simulated crash")).

Definition require_writable (f : SimFile.t) : Sim unit :=
  if SimFile.writable f then mret tt
  else sim_fail (mkIoError PermissionDenied "simulated file handle is read-only").

(** [Read::read] into a buffer of [n] bytes: the bytes copied and the moved handle. *)
Definition file_read (f : SimFile.t) (n : nat) : Sim (list u8 * SimFile.t) :=
  lock_handle (SimFile.epoch f);;
  begin_op HandleRead (SimFile.path f) 0;;
  content ← sim_visible (SimFile.inode f);
  let position := SimFile.position f in
  if decide (length content <= position) then mret ([], f)
  else
    let count := Nat.min n (length content - position) in
    mret (take count (drop position content), SimFile.set_position (position + count) f).

(** The data operation of a handle: visible at once, durable once promoted. *)
Definition issue (f : SimFile.t) (op : DataOp.t) : Sim unit :=
  sim_try (update_inode (SimFile.inode f) (write_visible op));;
  sim_try (λ s, Some (SimState.push_pending (PendingOp.Data (SimFile.inode f) op) s)).

(** [Write::write] has the fault dispatch of [begin_op] written out, with the torn write. *)
Definition file_write (f : SimFile.t) (buffer : list u8) : Sim (nat * SimFile.t) :=
  require_writable f;;
  lock_handle (SimFile.epoch f);;
  s ← sim_get;
  if SimState.crashed s then sim_fail (io_other "simulated storage is down until reboot")
  else
    let index := SimState.next_op s in
    sim_put (SimState.count_op HandleWrite (SimFile.path f) (length buffer) s);;
    match SimState.plan s with
    | FaultPlan.CrashBefore op =>
        if decide (op = index) then sim_crash 0 None "simulated crash before write" else mret tt
    | FaultPlan.CrashDuringWrite op byte_cut =>
        if decide (op = index) then
          let torn := take (Nat.min byte_cut (length buffer)) buffer in
          sim_crash (length (SimState.pending s))
            (Some (SimFile.inode f, SimFile.position f, torn)) "simulated crash tore this write"
        else mret tt
    | FaultPlan.FailOp op kind =>
        if decide (op = index) then sim_fail (mkIoError kind "injected storage failure")
        else mret tt
    | FaultPlan.FailOpsFrom op kind =>
        if decide (op <= index) then sim_fail (mkIoError kind "injected storage failure")
        else mret tt
    | FaultPlan.NoFault => mret tt
    end;;
    issue f (DataOp.Write (SimFile.position f) buffer);;
    mret (length buffer, SimFile.set_position (SimFile.position f + length buffer) f).

Definition u64_end : Z := 2 ^ 64.

Definition file_seek (f : SimFile.t) (position : SeekFrom) : Sim (nat * SimFile.t) :=
  lock_handle (SimFile.epoch f);;
  begin_op HandleSeek (SimFile.path f) 0;;
  content ← sim_visible (SimFile.inode f);
  let target :=
    match position with
    | SeekStart offset => Z.of_nat offset
    | SeekEnd delta => (Z.of_nat (length content) + delta)%Z
    | SeekCurrent delta => (Z.of_nat (SimFile.position f) + delta)%Z
    end in
  if decide (0 <= target < u64_end)%Z
  then mret (Z.to_nat target, SimFile.set_position (Z.to_nat target) f)
  else sim_fail (mkIoError InvalidInput "seek before start of file").

Definition file_sync_data (f : SimFile.t) : Sim unit :=
  lock_handle (SimFile.epoch f);;
  begin_op HandleSyncData (SimFile.path f) 0;;
  sim_try (promote_file (SimFile.inode f)).

Definition file_set_len (f : SimFile.t) (len : nat) : Sim unit :=
  require_writable f;;
  lock_handle (SimFile.epoch f);;
  begin_op HandleSetLen (SimFile.path f) 0;;
  issue f (DataOp.SetLen len).

Definition file_len (f : SimFile.t) : Sim nat :=
  lock_handle (SimFile.epoch f);;
  begin_op HandleLen (SimFile.path f) 0;;
  content ← sim_visible (SimFile.inode f);
  mret (length content).

(** [Write::write_all] and [Read::read_exact] of the standard library.  Every turn of
    their loops moves at least one byte, so the length asked for bounds the turns. *)
Fixpoint write_all_loop (fuel : nat) (f : SimFile.t) (buffer : list u8) : Sim SimFile.t :=
  match buffer, fuel with
  | [], _ => mret f
  | _ :: _, 0 => sim_fail (mkIoError WriteZero "failed to write whole buffer")
  | _ :: _, S fuel =>
      '(n, f) ← file_write f buffer;
      if decide (n = 0) then sim_fail (mkIoError WriteZero "failed to write whole buffer")
      else write_all_loop fuel f (drop n buffer)
  end.

Definition write_all (f : SimFile.t) (buffer : list u8) : Sim SimFile.t :=
  write_all_loop (length buffer) f buffer.

Fixpoint read_exact_loop (fuel : nat) (f : SimFile.t) (n : nat) (read : list u8)
    : Sim (list u8 * SimFile.t) :=
  match n, fuel with
  | 0, _ => mret (read, f)
  | S _, 0 => sim_fail (mkIoError UnexpectedEof "failed to fill whole buffer")
  | S _, S fuel =>
      '(bytes, f) ← file_read f n;
      if decide (length bytes = 0)
      then sim_fail (mkIoError UnexpectedEof "failed to fill whole buffer")
      else read_exact_loop fuel f (n - length bytes) (read ++ bytes)
  end.

Definition read_exact (f : SimFile.t) (n : nat) : Sim (list u8 * SimFile.t) :=
  read_exact_loop n f n [].

(** * The storage *)

Module SimStorage.

Definition open (path : PathBuf) (mode : OpenMode) : Sim SimFile.t :=
  begin_op Open path 0;;
  s ← sim_get;
  inode ←
    match mode, SimState.ns_visible s !! path with
    | (Read | ReadWrite), Some inode => mret inode
    | (Read | ReadWrite), None => sim_fail (mkIoError NotFound "no such simulated file")
    | CreateNew, Some _ => sim_fail (mkIoError AlreadyExists "simulated file already exists")
    | CreateAppend, Some inode => mret inode
    | (CreateNew | CreateAppend), None =>
        require_dir (default root_path (parent path));;
        let inode := length (SimState.inodes s) in
        sim_try (λ s, Some
          (SimState.push_pending (PendingOp.Namespace (NsOp.Create path inode))
            (SimState.set_ns_visible (<[path := inode]> (SimState.ns_visible s))
              (SimState.set_inodes (SimState.inodes s ++ [Inode.empty]) s))));;
        mret inode
    end;
  s ← sim_get;
  mret (SimFile.mk path inode 0 (SimState.epoch s) (bool_decide (mode ≠ Read))).

Definition read (path : PathBuf) : Sim (list u8) :=
  begin_op ReadFile path 0;;
  inode ← visible_inode path;
  sim_visible inode.

Definition rename (from to : PathBuf) : Sim unit :=
  begin_op Rename from 0;;
  inode ← visible_inode from;
  require_dir (default root_path (parent to));;
  sim_try (λ s, Some
    (SimState.push_pending (PendingOp.Namespace (NsOp.Rename from to))
      (SimState.set_ns_visible (<[to := inode]> (delete from (SimState.ns_visible s))) s))).

Definition remove_file (path : PathBuf) : Sim unit :=
  begin_op RemoveFile path 0;;
  visible_inode path;;
  sim_try (λ s, Some
    (SimState.push_pending (PendingOp.Namespace (NsOp.Remove path))
      (SimState.set_ns_visible (delete path (SimState.ns_visible s)) s))).

Definition exists_ (path : PathBuf) : Sim bool :=
  begin_op Exists path 0;;
  s ← sim_get;
  mret (bool_decide (path ∈ dom (SimState.ns_visible s)) || bool_decide (path ∈ SimState.dirs s)).

Definition read_dir (path : PathBuf) : Sim (list DirEntryInfo) :=
  begin_op ReadDir path 0;;
  require_dir path;;
  s ← sim_get;
  mret ((λ entry, mkDirEntryInfo entry true) <$>
    filter (λ entry, parent entry = Some path)
      (stable_sort path_le (elements (dom (SimState.ns_visible s))))).

Definition sync_dir (path : PathBuf) : Sim unit :=
  begin_op SyncDir path 0;;
  require_dir path;;
  sim_try (λ s, Some (promote_dir path s)).

(** * Control of the simulation *)

Fixpoint ancestors (absolute : bool) (cs : list (list u8)) : gset PathBuf :=
  match cs with
  | [] => {[Path absolute []]}
  | c :: cs =>
      {[Path absolute []]} ∪
      set_map (λ p, Path absolute (c :: components p)) (ancestors absolute cs)
  end.

Definition create_dir_all (path : PathBuf) (s : SimState.t) : SimState.t :=
  SimState.set_dirs (ancestors (is_absolute path) (components path) ∪ SimState.dirs s) s.

Definition set_fault (plan : FaultPlan.t) (s : SimState.t) : SimState.t := SimState.set_plan plan s.

Definition crash (s : SimState.t) : option SimState.t := materialize_crash 0 None s.

Definition reboot (s : SimState.t) : SimState.t := SimState.set_crashed false s.

Definition has_crashed (s : SimState.t) : bool := SimState.crashed s.

Definition durable_content (s : SimState.t) (inode : nat) : option (list u8) :=
  Inode.durable <$> SimState.inodes s !! inode.

Definition snapshot (s : SimState.t) : option SimDiskState :=
  if decide (map_Forall (λ _ inode, is_Some (durable_content s inode)) (SimState.ns_durable s))
  then Some (mkSimDiskState (omap (durable_content s) (SimState.ns_durable s)) (SimState.dirs s))
  else None.

Definition file_le (p q : PathBuf * list u8) : Prop := path_le p.1 q.1.
#[global] Instance file_le_dec : RelDecision file_le := λ p q, path_le_dec p.1 q.1.

Definition restore_file (s : SimState.t) (file : PathBuf * list u8) : SimState.t :=
  let inode := length (SimState.inodes s) in
  SimState.set_ns_durable (<[file.1 := inode]> (SimState.ns_durable s))
    (SimState.set_ns_visible (<[file.1 := inode]> (SimState.ns_visible s))
      (SimState.set_inodes (SimState.inodes s ++ [Inode.mk file.2 file.2]) s)).

Definition restore (disk : SimDiskState) (s : SimState.t) : SimState.t :=
  foldl restore_file
    (SimState.set_dirs (disk_dirs disk) (SimState.set_epoch (S (SimState.epoch s)) SimState.new))
    (stable_sort file_le (map_to_list (files disk))).

End SimStorage.

(** * Shared by the stored formats *)

(** [blake3::hash] of the blake3 crate, which is not part of the repository. *)
Class Blake3Hash := blake3_hash : list u8 → bytes32.

(** The errors of [BrokerError] that the stored formats of a range report. *)
Inductive BrokerError :=
  | Io (path : PathBuf) (source : IoError)
  | EpochJournalCorrupt (message : string)
  | CommittedFloor (message : string).
