(* ===== verification/DiskLogic.v ===== *)
(** Reasoning about computations on the simulated disk.

    [file_at p i base ops fresh s] describes one file of a disk that may hold any number
    of others: the durable content [base], the data operations [ops] not yet synced, and
    whether the directory entry itself is still unsynced.  [outcomes] are the contents a
    crash can leave behind.  The specification [io_spec p C c Q] runs [c] under an
    arbitrary fault plan: it does not panic, it establishes [Q] when it succeeds, it fails
    only under a fault plan, and when it fails (by an injected error or because the disk
    went down) every content the file [p] can have after the next reboot satisfies [C]. *)

From stdpp Require Import gmap strings list.
From Stdlib Require Import ZArith Lia.
From S2P Require Import Prelude Wire Storage.
#[local] Open Scope nat_scope.

(** * Well-formed disks *)

Definition op_ok (n : nat) (op : PendingOp.t) : Prop :=
  match op with
  | PendingOp.Data i _ | PendingOp.Namespace (NsOp.Create _ i) => i < n
  | PendingOp.Namespace _ => True
  end.

Definition ns_ok (n : nat) (ns : gmap PathBuf nat) : Prop := map_Forall (λ _ i, i < n) ns.

(** Every inode number in use is one of the disk's inodes. *)
Record sim_ok (s : SimState.t) : Prop := {
  ok_pending : Forall (op_ok (length (SimState.inodes s))) (SimState.pending s);
  ok_visible : ns_ok (length (SimState.inodes s)) (SimState.ns_visible s);
  ok_durable : ns_ok (length (SimState.inodes s)) (SimState.ns_durable s);
}.

(** * One file of a disk *)

(** The pending data operations of one inode. *)
Definition data_op (i : nat) (op : PendingOp.t) : option DataOp.t :=
  match op with
  | PendingOp.Data j op => if decide (j = i) then Some op else None
  | PendingOp.Namespace _ => None
  end.
Definition data_of (i : nat) (ops : list PendingOp.t) : list DataOp.t := omap (data_op i) ops.

(** The pending namespace operations that name a path. *)
Definition mentions (p : PathBuf) (op : NsOp.t) : Prop :=
  match op with
  | NsOp.Create q _ | NsOp.Remove q => p = q
  | NsOp.Rename from to => p = from ∨ p = to
  end.
#[global] Instance mentions_dec p op : Decision (mentions p op).
Proof. destruct op; simpl; apply _. Defined.

Definition ns_op (op : PendingOp.t) : option NsOp.t :=
  match op with PendingOp.Namespace op => Some op | PendingOp.Data _ _ => None end.
Definition ns_of (p : PathBuf) (ops : list PendingOp.t) : list NsOp.t :=
  filter (mentions p) (omap ns_op ops).

Definition apply_ops (base : list u8) (ops : list DataOp.t) : list u8 :=
  foldl apply_data_op base ops.

(** The path names a file of an existing directory. *)
Definition located (p : PathBuf) (s : SimState.t) : Prop :=
  default root_path (parent p) ∈ SimState.dirs s ∧ p ∉ SimState.dirs s.

#[global] Instance located_dec p s : Decision (located p s).
Proof. unfold located. apply _. Defined.

Record file_at (p : PathBuf) (i : nat) (base : list u8) (ops : list DataOp.t) (fresh : bool)
    (s : SimState.t) : Prop := {
  fa_ok : sim_ok s;
  fa_dir : located p s;
  fa_visible : SimState.ns_visible s !! p = Some i;
  fa_durable : SimState.ns_durable s !! p = if fresh then None else Some i;
  fa_ns : ns_of p (SimState.pending s) = if fresh then [NsOp.Create p i] else [];
  fa_inode : SimState.inodes s !! i = Some (Inode.mk base (apply_ops base ops));
  fa_data : data_of i (SimState.pending s) = ops;
}.

Record absent (p : PathBuf) (s : SimState.t) : Prop := {
  ab_ok : sim_ok s;
  ab_dir : located p s;
  ab_visible : SimState.ns_visible s !! p = None;
  ab_durable : SimState.ns_durable s !! p = None;
  ab_ns : ns_of p (SimState.pending s) = [];
}.

(** The file with nothing pending, or its absence. *)
Definition settled (p : PathBuf) (c : option (list u8)) (s : SimState.t) : Prop :=
  match c with
  | Some b => ∃ i, file_at p i b [] false s
  | None => absent p s
  end.

(** What a crash can leave: any prefix of the pending operations may have reached the
    disk, and an unsynced directory entry may be lost with the file. *)
Definition outcomes (base : list u8) (ops : list DataOp.t) (fresh : bool)
    (c : option (list u8)) : Prop :=
  fresh = true ∧ c = None ∨ ∃ j, c = Some (apply_ops base (take j ops)).

Lemma outcomes_none b c : outcomes b [] false c → c = Some b.
Proof. intros [[? _]|[j ->]]; [done|]. by rewrite take_nil. Qed.

Lemma outcomes_one b op c :
  outcomes b [op] false c → c = Some b ∨ c = Some (apply_data_op b op).
Proof. intros [[? _]|[[|j] ->]]; [done|by left|right]. simpl. by rewrite take_nil. Qed.

(** The file once the computation has failed: settled by a crash, or still up with
    operations pending; [C] holds of every content it may come back with. *)
Definition leaves (p : PathBuf) (C : option (list u8) → Prop) (s : SimState.t) : Prop :=
  if SimState.crashed s then ∃ c, settled p c s ∧ C c
  else (∃ i base ops fresh, file_at p i base ops fresh s ∧ ∀ c, outcomes base ops fresh c → C c) ∨
       (absent p s ∧ C None).

Definition io_wp {E A} (c : SimE E A) (Q : SimState.t → result E A → Prop) (s : SimState.t)
    : Prop :=
  match c s with Some (s', r) => Q s' r | None => False end.

Definition io_spec {E A} (p : PathBuf) (C : option (list u8) → Prop) (c : SimE E A)
    (Q : SimState.t → A → Prop) (s : SimState.t) : Prop :=
  io_wp c (λ s' r,
    (SimState.plan s = FaultPlan.NoFault → SimState.plan s' = FaultPlan.NoFault) ∧
    match r with
    | Ok a => Q s' a
    | Err _ => SimState.plan s ≠ FaultPlan.NoFault ∧ leaves p C s'
    end) s.

(** * Rules *)

Lemma io_wp_mono {E A} (c : SimE E A) (Q R : SimState.t → result E A → Prop) s :
  (∀ s' r, Q s' r → R s' r) → io_wp c Q s → io_wp c R s.
Proof. unfold io_wp. destruct (c s) as [[]|]; auto. Qed.

Lemma io_wp_bind {E A B} (c : SimE E A) (k : A → SimE E B) Q s :
  io_wp c (λ s' r, match r with Ok a => io_wp (k a) Q s' | Err e => Q s' (Err e) end) s →
  io_wp (c ≫= k) Q s.
Proof. unfold io_wp, mbind, sim_bind. by destruct (c s) as [[? []]|]. Qed.

Lemma io_spec_bind {E A B} p C (c : SimE E A) (k : A → SimE E B) Q s :
  io_spec p C c (λ s' a, io_spec p C (k a) Q s') s → io_spec p C (c ≫= k) Q s.
Proof.
  intros Hc. apply io_wp_bind. eapply io_wp_mono; [|exact Hc]. intros s1 [a|e] [Hplan H1]; [|done].
  eapply io_wp_mono; [|exact H1]. intros s2 [b|e] [Hplan2 H2]; (split; [by auto|]); [done|].
  destruct H2 as [Hne Hl]. split; [by auto|done].
Qed.

Lemma io_spec_ret {E A} p C (a : A) (Q : SimState.t → A → Prop) s : Q s a → io_spec (E := E) p C (mret a) Q s.
Proof. by split. Qed.

(** A step that always succeeds. *)
Lemma io_spec_step {E A} p C (c : SimE E A) (Q : SimState.t → A → Prop) s s' a :
  c s = Some (s', Ok a) → SimState.plan s' = SimState.plan s → Q s' a → io_spec p C c Q s.
Proof. intros Hc Hplan HQ. unfold io_spec, io_wp. rewrite Hc. split; [congruence|done]. Qed.

Lemma io_spec_step_bind {E A B} p C (c : SimE E A) (k : A → SimE E B) Q s s' a :
  c s = Some (s', Ok a) → SimState.plan s' = SimState.plan s → io_spec p C (k a) Q s' →
  io_spec p C (c ≫= k) Q s.
Proof. intros Hc Hplan Hk. apply io_spec_bind. by apply (io_spec_step _ _ _ _ _ s' a). Qed.

Lemma leaves_mono p (C D : option (list u8) → Prop) s :
  (∀ c, C c → D c) → leaves p C s → leaves p D s.
Proof.
  intros HCD. unfold leaves. destruct (SimState.crashed s).
  - intros (c & ? & ?). eauto.
  - intros [(i & base & ops & fresh & ? & ?)|[? ?]]; [left|right]; eauto 10.
Qed.

Lemma io_spec_mono {E A} p (C D : option (list u8) → Prop) (c : SimE E A)
    (Q R : SimState.t → A → Prop) s :
  (∀ c, C c → D c) → (∀ s' a, Q s' a → R s' a) → io_spec p C c Q s → io_spec p D c R s.
Proof.
  intros HCD HQR. apply io_wp_mono. intros s' [a|e] [Hplan Hr]; (split; [done|]); [by auto|].
  destruct Hr as [Hne Hl]. split; [done|by eapply leaves_mono].
Qed.

(** * What a crash does to one file *)

Lemma data_of_app i l k : data_of i (l ++ k) = data_of i l ++ data_of i k.
Proof. apply omap_app. Qed.

Lemma ns_of_app p l k : ns_of p (l ++ k) = ns_of p l ++ ns_of p k.
Proof. unfold ns_of. by rewrite omap_app, filter_app. Qed.

Lemma take_data_of i l k : ∃ j, data_of i (take k l) = take j (data_of i l).
Proof.
  exists (length (data_of i (take k l))). rewrite <-(take_drop k l) at 3.
  by rewrite data_of_app, take_app_length.
Qed.

Lemma take_ns_of p l k : ∃ j, ns_of p (take k l) = take j (ns_of p l).
Proof.
  exists (length (ns_of p (take k l))). rewrite <-(take_drop k l) at 3.
  by rewrite ns_of_app, take_app_length.
Qed.

Lemma apply_ops_app base l k : apply_ops base (l ++ k) = apply_ops (apply_ops base l) k.
Proof. apply foldl_app. Qed.

Lemma apply_ns_op_other p ns op : ¬ mentions p op → apply_ns_op ns op !! p = ns !! p.
Proof.
  destruct op as [q i|from to|q]; simpl; intros Hne.
  - rewrite lookup_insert_ne; [done|congruence].
  - destruct (ns !! from) eqn:?; [|done].
    rewrite lookup_insert_ne, lookup_delete_ne; [done|naive_solver|naive_solver].
  - rewrite lookup_delete_ne; [done|congruence].
Qed.

Lemma apply_ns_ops_lookup p i l ns :
  (filter (mentions p) l = [] → foldl apply_ns_op ns l !! p = ns !! p) ∧
  (filter (mentions p) l = [NsOp.Create p i] → foldl apply_ns_op ns l !! p = Some i).
Proof.
  revert ns. induction l as [|op l IH]; intros ns; [by split|]. rewrite filter_cons. simpl.
  destruct (IH (apply_ns_op ns op)) as [IH1 IH2]. case_decide as Hm; split; intros Hf.
  - done.
  - injection Hf as -> Hf. rewrite IH1 by done. apply lookup_insert_eq.
  - rewrite IH1 by done. by apply apply_ns_op_other.
  - by rewrite IH2.
Qed.

Lemma apply_ns_op_ok n ns op :
  op_ok n (PendingOp.Namespace op) → ns_ok n ns → ns_ok n (apply_ns_op ns op).
Proof.
  destruct op as [q i|from to|q]; simpl; intros Hop Hns; [by apply map_Forall_insert_2| |].
  - destruct (ns !! from) as [i|] eqn:Hf; [|done].
    apply map_Forall_insert_2; [by apply (Hns from)|by apply map_Forall_delete].
  - by apply map_Forall_delete.
Qed.

(** Applying pending operations only touches durable state, each inode by its own
    operations. *)
Lemma apply_all_spec l s :
  Forall (op_ok (length (SimState.inodes s))) l →
  ns_ok (length (SimState.inodes s)) (SimState.ns_durable s) →
  ∃ ino ns,
    apply_all s l = Some (SimState.set_inodes ino (SimState.set_ns_durable ns s)) ∧
    length ino = length (SimState.inodes s) ∧
    (∀ i x, SimState.inodes s !! i = Some x →
       ino !! i = Some (Inode.mk (apply_ops (Inode.durable x) (data_of i l)) (Inode.visible x))) ∧
    ns = foldl apply_ns_op (SimState.ns_durable s) (omap ns_op l) ∧
    ns_ok (length (SimState.inodes s)) ns.
Proof.
  intros Hl. revert s Hl. induction l as [|op l IH]; intros s Hl Hns.
  { exists (SimState.inodes s), (SimState.ns_durable s). split_and!; try done; [by destruct s|].
    by intros i []. }
  inversion_clear Hl as [|?? Hop Hl']. destruct op as [j op|op]; simpl.
  - apply lookup_lt_is_Some in Hop as [x Hx]. unfold update_inode. rewrite Hx. simpl.
    set (s' := SimState.set_inodes _ s).
    assert (length (SimState.inodes s') = length (SimState.inodes s)) as Hlen by apply length_insert.
    destruct (IH s') as (ino & ns & -> & Hino & Hx' & -> & Hns'); [by rewrite Hlen|by rewrite Hlen|].
    rewrite Hlen in Hino, Hns'.
    exists ino, (foldl apply_ns_op (SimState.ns_durable s) (omap ns_op l)).
    split_and!; try done. intros i y Hy. unfold data_of. simpl. case_decide as Hij.
    + subst j. simplify_eq. apply (Hx' i (write_durable op x)). simpl.
      apply list_lookup_insert_eq. by apply lookup_lt_Some in Hx.
    + apply (Hx' i y). simpl. by rewrite list_lookup_insert_ne.
  - set (s' := SimState.set_ns_durable _ s).
    destruct (IH s') as (ino & ns & -> & Hino & Hx & -> & Hns'); [done|by apply apply_ns_op_ok|].
    exists ino, (foldl apply_ns_op (SimState.ns_durable s') (omap ns_op l)). by split_and!.
Qed.

Lemma lose_volatile_ok s : ns_ok (length (SimState.inodes s)) (SimState.ns_durable s) →
  sim_ok (lose_volatile s).
Proof. intros Hns. split; simpl; rewrite ?length_fmap; [constructor|done|done]. Qed.

(** The state a crash materialises: [l] reached the disk, then possibly a torn write. *)
Lemma crash_state l torn s :
  sim_ok s → Forall (op_ok (length (SimState.inodes s))) l →
  (∀ i pos bytes, torn = Some (i, pos, bytes) → i < length (SimState.inodes s)) →
  ∃ s', (s ← apply_all s l;
         s ← match torn with
             | None => Some s
             | Some (inode, position, bytes) =>
                 update_inode inode (write_durable (DataOp.Write position bytes)) s
             end;
         Some (lose_volatile s)) = Some s' ∧
    sim_ok s' ∧ SimState.crashed s' = true ∧ SimState.dirs s' = SimState.dirs s ∧
    SimState.pending s' = [] ∧ SimState.ns_visible s' = SimState.ns_durable s' ∧
    SimState.ns_durable s' = foldl apply_ns_op (SimState.ns_durable s) (omap ns_op l) ∧
    ∀ i x, SimState.inodes s !! i = Some x →
      let ops := data_of i l ++
        match torn with
        | Some (j, pos, bytes) => if decide (j = i) then [DataOp.Write pos bytes] else []
        | None => []
        end in
      SimState.inodes s' !! i
      = Some (Inode.mk (apply_ops (Inode.durable x) ops) (apply_ops (Inode.durable x) ops)).
Proof.
  intros [Hp Hv Hd] Hl Htorn.
  destruct (apply_all_spec l s Hl Hd) as (ino & ns & -> & Hlen & Hino & -> & Hns). simpl.
  destruct torn as [[[j pos] bytes]|].
  2: { eexists. split; [done|]. split_and!; try done; [apply lose_volatile_ok; simpl; by rewrite Hlen|].
       intros i x Hx. rewrite app_nil_r. simpl. rewrite list_lookup_fmap, (Hino i x Hx). done. }
  assert (is_Some (ino !! j)) as [y Hy].
  { apply lookup_lt_is_Some. rewrite Hlen. by eapply Htorn. }
  unfold update_inode. simpl. rewrite Hy. simpl. eexists. split; [done|]. split_and!; try done.
  { apply lose_volatile_ok. simpl. by rewrite length_insert, Hlen. }
  intros i x Hx. simpl. rewrite list_lookup_fmap. case_decide as Hij.
  - subst j. rewrite (Hino i x Hx) in Hy. injection Hy as <-.
    rewrite list_lookup_insert_eq by (rewrite Hlen; by apply lookup_lt_Some in Hx). simpl.
    by rewrite apply_ops_app.
  - rewrite list_lookup_insert_ne, (Hino i x Hx) by done. by rewrite app_nil_r.
Qed.

(** A disk that has nothing pending, as a crash leaves it. *)
Lemma settled_intro p c s :
  sim_ok s → located p s → SimState.pending s = [] →
  SimState.ns_visible s = SimState.ns_durable s →
  match c with
  | Some b => ∃ i, SimState.ns_durable s !! p = Some i ∧ SimState.inodes s !! i = Some (Inode.mk b b)
  | None => SimState.ns_durable s !! p = None
  end → settled p c s.
Proof.
  intros Hok Hdir Hp Hns. destruct c as [b|]; simpl.
  - intros (i & Hd & Hi). exists i. split; try done; [by rewrite Hns|by rewrite Hp|by rewrite Hp].
  - intros Hd. split; try done; [by rewrite Hns|by rewrite Hp].
Qed.

Lemma take_ok n k (s : SimState.t) :
  Forall (op_ok n) (SimState.pending s) → Forall (op_ok n) (take k (SimState.pending s)).
Proof. apply Forall_take. Qed.

Lemma crash_absent p k s :
  absent p s → ∃ s', materialize_crash k None s = Some s' ∧ SimState.crashed s' = true ∧ absent p s'.
Proof.
  intros [Hok Hdir Hv Hd Hns]. unfold materialize_crash.
  destruct (crash_state (take k (SimState.pending s)) None s)
    as (s' & Heq & Hok' & Hc & Hdirs & Hp & Hvis & Hdur & _); [done|by apply take_ok, Hok|done|].
  exists s'. split_and!; [done|done|]. apply (settled_intro p None); try done; [by unfold located; rewrite Hdirs|].
  rewrite Hdur. destruct (take_ns_of p (SimState.pending s) k) as [j Hj].
  rewrite Hns, take_nil in Hj. by rewrite (proj1 (apply_ns_ops_lookup p 0 _ _)).
Qed.

Lemma crash_file p i base ops fresh k s :
  file_at p i base ops fresh s →
  ∃ s' c, materialize_crash k None s = Some s' ∧ SimState.crashed s' = true ∧
    settled p c s' ∧ outcomes base ops fresh c.
Proof.
  intros [Hok Hdir Hv Hd Hns Hino Hdata]. unfold materialize_crash.
  destruct (crash_state (take k (SimState.pending s)) None s)
    as (s' & Heq & Hok' & Hc & Hdirs & Hp & Hvis & Hdur & Hi); [done|by apply take_ok, Hok|done|].
  apply Hi in Hino. rewrite app_nil_r in Hino. simpl in Hino.
  destruct (take_data_of i (SimState.pending s) k) as [j Hj].
  rewrite Hj, Hdata in Hino.
  destruct (take_ns_of p (SimState.pending s) k) as [m Hm]. rewrite Hns in Hm.
  destruct (apply_ns_ops_lookup p i (omap ns_op (take k (SimState.pending s)))
    (SimState.ns_durable s)) as [Hnone Hcreate]. rewrite <-Hdur in Hnone, Hcreate.
  fold (ns_of p (take k (SimState.pending s))) in Hnone, Hcreate.
  assert (SimState.ns_durable s' !! p = Some i ∨ fresh = true ∧ SimState.ns_durable s' !! p = None)
    as [Hname|[-> Hname]].
  { destruct fresh.
    - destruct m as [|m]; simpl in Hm; [right; split; [done|]; by rewrite Hnone|].
      rewrite take_nil in Hm. left. by rewrite Hcreate.
    - rewrite take_nil in Hm. left. by rewrite Hnone. }
  - exists s', (Some (apply_ops base (take j ops))). split_and!; [done|done| |right; by exists j].
    apply settled_intro; try done; [by unfold located; rewrite Hdirs|]. by exists i.
  - exists s', None. split_and!; [done|done| |by left].
    apply settled_intro; try done. by unfold located; rewrite Hdirs.
Qed.

Lemma crash_torn p i base ops fresh pos bytes s :
  file_at p i base ops fresh s →
  ∃ s', materialize_crash (length (SimState.pending s)) (Some (i, pos, bytes)) s = Some s' ∧
    SimState.crashed s' = true ∧
    settled p (Some (apply_ops base (ops ++ [DataOp.Write pos bytes]))) s'.
Proof.
  intros [Hok Hdir Hv Hd Hns Hino Hdata]. unfold materialize_crash. rewrite take_ge by done.
  destruct (crash_state (SimState.pending s) (Some (i, pos, bytes)) s)
    as (s' & Heq & Hok' & Hc & Hdirs & Hp & Hvis & Hdur & Hi); [done|by apply Hok| |].
  { intros ??? [= <- _ _]. by apply lookup_lt_Some in Hino. }
  apply Hi in Hino. rewrite decide_True, Hdata in Hino by done.
  exists s'. split_and!; [done|done|]. apply settled_intro; try done; [by unfold located; rewrite Hdirs|].
  exists i. split; [|done]. rewrite Hdur.
  destruct (apply_ns_ops_lookup p i (omap ns_op (SimState.pending s)) (SimState.ns_durable s)) as [Hnone Hcreate].
  fold (ns_of p (SimState.pending s)) in Hnone, Hcreate. rewrite Hns in Hnone, Hcreate.
  destruct fresh; [by rewrite Hcreate|by rewrite Hnone].
Qed.

(** * Specifications of the operations *)

(** Counting an operation, setting a plan and rebooting leave the files alone. *)
Record same_disk (s s' : SimState.t) : Prop := {
  sd_inodes : SimState.inodes s' = SimState.inodes s;
  sd_visible : SimState.ns_visible s' = SimState.ns_visible s;
  sd_durable : SimState.ns_durable s' = SimState.ns_durable s;
  sd_dirs : SimState.dirs s' = SimState.dirs s;
  sd_pending : SimState.pending s' = SimState.pending s;
}.

Lemma same_disk_count kind path len s : same_disk s (SimState.count_op kind path len s).
Proof. done. Qed.

Lemma sim_ok_same s s' : same_disk s s' → sim_ok s → sim_ok s'.
Proof. intros [Hi Hv Hd _ Hp] [???]. split; by rewrite ?Hi, ?Hv, ?Hd, ?Hp. Qed.

Lemma file_at_same p i base ops fresh s s' :
  same_disk s s' → file_at p i base ops fresh s → file_at p i base ops fresh s'.
Proof.
  intros Hsame [Hok ??????]. pose proof (sim_ok_same s s' Hsame Hok).
  destruct Hsame as [Hi Hv Hd Hr Hp]. split; unfold located; by rewrite ?Hi, ?Hv, ?Hd, ?Hr, ?Hp.
Qed.

Lemma absent_same p s s' : same_disk s s' → absent p s → absent p s'.
Proof.
  intros Hsame [Hok ????]. pose proof (sim_ok_same s s' Hsame Hok).
  destruct Hsame as [Hi Hv Hd Hr Hp]. split; unfold located; by rewrite ?Hi, ?Hv, ?Hd, ?Hr, ?Hp.
Qed.

Lemma settled_same p c s s' : same_disk s s' → settled p c s → settled p c s'.
Proof.
  intros Hsame. destruct c as [b|]; simpl; [intros [i Hi]; exists i|].
  - by apply (file_at_same _ _ _ _ _ s).
  - by apply absent_same.
Qed.

Lemma leaves_same p C s s' :
  same_disk s s' → SimState.crashed s' = SimState.crashed s → leaves p C s → leaves p C s'.
Proof.
  intros Hsame Hc. unfold leaves. rewrite Hc. destruct (SimState.crashed s).
  - intros (c & Hs & HC). exists c. split; [by apply (settled_same p c s)|done].
  - intros [(i & base & ops & fresh & Hf & HC)|[Ha HC]].
    + left. exists i, base, ops, fresh. split; [by apply (file_at_same _ _ _ _ _ s)|done].
    + right. split; [by apply (absent_same p s)|done].
Qed.

Lemma leaves_crash p C k s :
  leaves p C s → SimState.crashed s = false →
  ∃ s' c, materialize_crash k None s = Some s' ∧ SimState.crashed s' = true ∧ settled p c s' ∧ C c.
Proof.
  unfold leaves. intros Hl Hup. rewrite Hup in Hl. destruct Hl as [(i & base & ops & fresh & Hf & HC)|[Ha HC]].
  - destruct (crash_file p i base ops fresh k s Hf) as (s' & c & ? & ? & ? & ?). eauto 10.
  - destruct (crash_absent p k s Ha) as (s' & ? & ? & ?). by exists s', None.
Qed.

Lemma file_leaves p i base ops fresh (C : option (list u8) → Prop) s :
  file_at p i base ops fresh s → SimState.crashed s = false →
  (∀ c, outcomes base ops fresh c → C c) → leaves p C s.
Proof. intros ? Hup ?. unfold leaves. rewrite Hup. left. eauto 10. Qed.

Lemma absent_leaves p (C : option (list u8) → Prop) s :
  absent p s → SimState.crashed s = false → C None → leaves p C s.
Proof. intros ? Hup ?. unfold leaves. rewrite Hup. by right. Qed.

Lemma sim_crash_spec {A} p C k text (Q : SimState.t → A → Prop) s :
  leaves p C s → SimState.crashed s = false → SimState.plan s ≠ FaultPlan.NoFault →
  io_spec p C (sim_crash k None text) Q s.
Proof.
  intros Hl Hup Hplan. destruct (leaves_crash p C k s Hl Hup) as (s' & c & Hm & Hc & Hs & HC).
  unfold io_spec, io_wp, sim_crash, mbind, sim_bind, sim_try. rewrite Hm. simpl.
  split; [done|]. split; [done|]. unfold leaves. rewrite Hc. eauto.
Qed.

(** Whatever the plan holds for the operation, a failure leaves the file in one of its
    outcomes. *)
Lemma begin_op_spec p C kind path len (Q : SimState.t → nat → Prop) s :
  SimState.crashed s = false → leaves p C s →
  (∀ index, Q (SimState.count_op kind path len s) index) →
  io_spec p C (begin_op kind path len) Q s.
Proof.
  intros Hup Hl HQ. unfold begin_op.
  assert (leaves p C (SimState.count_op kind path len s)) as Hl' by (by apply (leaves_same p C s)).
  eapply io_spec_step_bind; [done|done|]. rewrite Hup.
  eapply io_spec_step_bind; [done|done|].
  set (s1 := SimState.count_op kind path len s) in *.
  assert (∀ idx, io_spec (E := IoError) p C (mret idx) Q s1) as Hok by (intros; apply io_spec_ret, HQ).
  change (SimState.plan s) with (SimState.plan s1).
  destruct (SimState.plan s1) eqn:Hplan; try case_decide; try apply Hok.
  all: try (apply (sim_crash_spec (A := nat)); [done|done|congruence]).
  all: split; [done|]; split; [congruence|done].
Qed.

(** A writable handle on the file, open on a disk that is up. *)
Record opened (p : PathBuf) (f : SimFile.t) (i pos : nat) (base : list u8)
    (ops : list DataOp.t) (fresh : bool) (s : SimState.t) : Prop := {
  op_file : file_at p i base ops fresh s;
  op_up : SimState.crashed s = false;
  op_handle : f = SimFile.mk p i pos (SimState.epoch s) true;
}.

Lemma opened_same p f i pos base ops fresh s s' :
  same_disk s s' → SimState.crashed s' = SimState.crashed s →
  SimState.epoch s' = SimState.epoch s →
  opened p f i pos base ops fresh s → opened p f i pos base ops fresh s'.
Proof.
  intros Hs Hc He [Hf Hup ->]. split; [by apply (file_at_same _ _ _ _ _ s)|congruence|congruence].
Qed.

Lemma opened_count p f i pos base ops fresh kind path len s :
  opened p f i pos base ops fresh s →
  opened p f i pos base ops fresh (SimState.count_op kind path len s).
Proof. by apply opened_same. Qed.

Lemma opened_leaves p f i pos base ops fresh (C : option (list u8) → Prop) s :
  opened p f i pos base ops fresh s → (∀ c, outcomes base ops fresh c → C c) → leaves p C s.
Proof. intros [Hf Hup _] HC. by apply (file_leaves p i base ops fresh). Qed.

Lemma lock_handle_opened p f i pos base ops fresh s :
  opened p f i pos base ops fresh s → lock_handle (SimFile.epoch f) s = Some (s, Ok tt).
Proof. intros [_ _ ->]. unfold lock_handle. by rewrite decide_True. Qed.

Lemma handle_op_spec {A} p f i pos base ops fresh C kind len (k : Sim A) Q s :
  opened p f i pos base ops fresh s → (∀ c, outcomes base ops fresh c → C c) →
  (∀ s', opened p f i pos base ops fresh s' → io_spec p C k Q s') →
  io_spec p C (lock_handle (SimFile.epoch f);; begin_op kind (SimFile.path f) len;; k) Q s.
Proof.
  intros Ho HC Hk. eapply io_spec_step_bind; [by apply (lock_handle_opened p f i pos base ops fresh)|done|].
  apply io_spec_bind, begin_op_spec.
  - apply Ho.
  - by apply (opened_leaves p f i pos base ops fresh).
  - intros index. by apply Hk, opened_count.
Qed.

Lemma sim_visible_spec {A} p f i pos base ops fresh C (k : list u8 → Sim A) Q s :
  opened p f i pos base ops fresh s → io_spec p C (k (apply_ops base ops)) Q s →
  io_spec p C (sim_visible (SimFile.inode f) ≫= k) Q s.
Proof.
  intros [Hf Hup ->] Hk. eapply io_spec_step_bind; [|done|exact Hk].
  unfold sim_visible. simpl. by rewrite (fa_inode _ _ _ _ _ _ Hf).
Qed.

Lemma file_len_spec p f i pos base ops fresh (C : option (list u8) → Prop) Q s :
  opened p f i pos base ops fresh s → (∀ c, outcomes base ops fresh c → C c) →
  (∀ s', opened p f i pos base ops fresh s' → Q s' (length (apply_ops base ops))) →
  io_spec p C (file_len f) Q s.
Proof.
  intros Ho HC HQ. eapply handle_op_spec; [done|done|]. intros s' Ho'.
  eapply sim_visible_spec; [done|]. by apply io_spec_ret, HQ.
Qed.

Lemma opened_position p f i pos pos' base ops fresh s :
  opened p f i pos base ops fresh s →
  opened p (SimFile.set_position pos' f) i pos' base ops fresh s.
Proof. by intros [Hf Hup ->]. Qed.

Lemma file_seek_spec p f i pos base ops fresh (C : option (list u8) → Prop) from target Q s :
  opened p f i pos base ops fresh s → (∀ c, outcomes base ops fresh c → C c) →
  (Z.of_nat target < u64_end)%Z →
  match from with
  | SeekStart n => target = n
  | SeekEnd delta => Z.of_nat target = (Z.of_nat (length (apply_ops base ops)) + delta)%Z
  | SeekCurrent delta => Z.of_nat target = (Z.of_nat pos + delta)%Z
  end →
  (∀ s', opened p (SimFile.set_position target f) i target base ops fresh s' →
     Q s' (target, SimFile.set_position target f)) →
  io_spec p C (file_seek f from) Q s.
Proof.
  intros Ho HC Hlt Htarget HQ. eapply handle_op_spec; [done|done|]. intros s' Ho'.
  eapply sim_visible_spec; [done|]. cbv zeta.
  assert (match from with
    | SeekStart offset => Z.of_nat offset
    | SeekEnd delta => (Z.of_nat (length (apply_ops base ops)) + delta)%Z
    | SeekCurrent delta => (Z.of_nat (SimFile.position f) + delta)%Z
    end = Z.of_nat target) as ->.
  { destruct from; [by subst|by rewrite Htarget|]. by destruct Ho as [_ _ ->]. }
  rewrite decide_True, Nat2Z.id by lia. apply io_spec_ret, HQ. by apply (opened_position p f i pos).
Qed.

Lemma file_read_spec p f i pos base ops fresh (C : option (list u8) → Prop) n Q s :
  opened p f i pos base ops fresh s → (∀ c, outcomes base ops fresh c → C c) →
  0 < n → pos + n <= length (apply_ops base ops) →
  (∀ s', opened p (SimFile.set_position (pos + n) f) i (pos + n) base ops fresh s' →
     Q s' (take n (drop pos (apply_ops base ops)), SimFile.set_position (pos + n) f)) →
  io_spec p C (file_read f n) Q s.
Proof.
  intros Ho HC Hn Hlen HQ. eapply handle_op_spec; [done|done|]. intros s' Ho'.
  eapply sim_visible_spec; [done|]. cbv zeta.
  assert (SimFile.position f = pos) as -> by (by destruct Ho as [_ _ ->]).
  rewrite decide_False by lia. rewrite Nat.min_l by lia. apply io_spec_ret, HQ.
  by apply (opened_position p f i pos).
Qed.

Lemma read_exact_spec p f i pos base ops fresh (C : option (list u8) → Prop) n Q s :
  opened p f i pos base ops fresh s → (∀ c, outcomes base ops fresh c → C c) →
  pos + n <= length (apply_ops base ops) →
  (∀ s' f', opened p f' i (pos + n) base ops fresh s' →
     Q s' (take n (drop pos (apply_ops base ops)), f')) →
  io_spec p C (read_exact f n) Q s.
Proof.
  intros Ho HC Hlen HQ. unfold read_exact. destruct n as [|n]; simpl.
  { apply io_spec_ret, (HQ s f). by rewrite Nat.add_0_r. }
  apply io_spec_bind. eapply file_read_spec; [done|done|lia|done|]. intros s' Ho'.
  assert (length (take (S n) (drop pos (apply_ops base ops))) = S n) as Htake
    by (rewrite length_take, length_drop; lia).
  rewrite decide_False by lia. rewrite Htake, Nat.sub_diag. destruct n; by apply io_spec_ret, HQ.
Qed.

(** Issuing a data operation appends it to the file's pending operations. *)
Lemma issue_spec p f i pos base ops fresh C op Q s :
  opened p f i pos base ops fresh s →
  (∀ s', opened p f i pos base (ops ++ [op]) fresh s' → Q s' tt) →
  io_spec p C (issue f op) Q s.
Proof.
  intros [[[Hp Hv Hd] Hdir Hvis Hdur Hns Hino Hdata] Hup ->] HQ.
  eapply io_spec_step.
  { unfold issue, mbind, sim_bind, sim_try, update_inode. simpl. by rewrite Hino. }
  { done. }
  apply HQ. split; [|done|done].
  assert (length (<[i:=write_visible op (Inode.mk base (apply_ops base ops))]> (SimState.inodes s))
    = length (SimState.inodes s)) as Hlen by apply length_insert.
  pose proof (lookup_lt_Some _ _ _ Hino).
  split; simpl; try done.
  - split; simpl; rewrite Hlen; [|done|done]. apply Forall_app. split; [done|]. by apply Forall_singleton.
  - rewrite ns_of_app, Hns. unfold ns_of. simpl. by rewrite app_nil_r.
  - rewrite list_lookup_insert_eq by done. by rewrite apply_ops_app.
  - rewrite data_of_app, Hdata. unfold data_of at 1. simpl. by rewrite decide_True.
Qed.

Lemma require_writable_spec {A} p f i pos base ops fresh C (k : Sim A) Q s :
  opened p f i pos base ops fresh s → io_spec p C k Q s →
  io_spec p C (require_writable f;; k) Q s.
Proof. by intros [_ _ ->]. Qed.

Lemma file_set_len_spec p f i pos base ops fresh (C : option (list u8) → Prop) len Q s :
  opened p f i pos base ops fresh s → (∀ c, outcomes base ops fresh c → C c) →
  (∀ s', opened p f i pos base (ops ++ [DataOp.SetLen len]) fresh s' → Q s' tt) →
  io_spec p C (file_set_len f len) Q s.
Proof.
  intros Ho HC HQ. eapply require_writable_spec; [done|]. eapply handle_op_spec; [done|done|].
  intros s' Ho'. by eapply issue_spec.
Qed.

(** A write either takes effect as a pending operation or, when the plan tears it, leaves
    everything that was pending and the bytes before the cut. *)
Lemma file_write_spec p f i pos base ops fresh (C : option (list u8) → Prop) buffer Q s :
  opened p f i pos base ops fresh s → (∀ c, outcomes base ops fresh c → C c) →
  (∀ k, C (Some (apply_ops base (ops ++ [DataOp.Write pos (take k buffer)])))) →
  (∀ s', opened p (SimFile.set_position (pos + length buffer) f) i (pos + length buffer) base
           (ops ++ [DataOp.Write pos buffer]) fresh s' →
     Q s' (length buffer, SimFile.set_position (pos + length buffer) f)) →
  io_spec p C (file_write f buffer) Q s.
Proof.
  intros Ho HC Htorn HQ. eapply require_writable_spec; [done|].
  set (s1 := SimState.count_op HandleWrite (SimFile.path f) (length buffer) s).
  assert (opened p f i pos base ops fresh s1) as Ho1 by (by apply opened_count).
  assert (leaves p C s1) as Hl by (by apply (opened_leaves p f i pos base ops fresh)).
  assert (io_spec p C (issue f (DataOp.Write (SimFile.position f) buffer);;
    mret (length buffer, SimFile.set_position (SimFile.position f + length buffer) f)) Q s1) as Hgo.
  { assert (SimFile.position f = pos) as -> by (by destruct Ho as [_ _ ->]).
    apply io_spec_bind. eapply issue_spec; [done|]. intros s' Ho'. apply io_spec_ret, HQ.
    by apply (opened_position p f i pos). }
  eapply io_spec_step_bind; [by apply (lock_handle_opened p f i pos base ops fresh)|done|].
  eapply io_spec_step_bind; [done|done|]. rewrite (op_up _ _ _ _ _ _ _ _ Ho).
  eapply io_spec_step_bind; [done|done|]. fold s1. apply io_spec_bind.
  change (SimState.plan s) with (SimState.plan s1).
  assert (io_spec (E := IoError) p C (mret tt) (λ s' _, s' = s1) s1) as Hok by (by apply io_spec_ret).
  eapply (io_spec_mono p C C _ (λ s' _, s' = s1)); [done|by intros s' [] ->|].
  destruct (SimState.plan s1) eqn:Hplan; try case_decide; try exact Hok.
  - apply sim_crash_spec; [done|apply Ho1|congruence].
  - destruct (crash_torn p i base ops fresh pos
      (take (byte_cut `min` length buffer) buffer) s1 (op_file _ _ _ _ _ _ _ _ Ho1))
      as (s' & Hm & Hc & Hs).
    unfold io_spec, io_wp, sim_crash, mbind, sim_bind, sim_try.
    assert (SimFile.inode f = i ∧ SimFile.position f = pos) as [-> ->] by (by destruct Ho as [_ _ ->]).
    change (SimState.pending s) with (SimState.pending s1). rewrite Hm. cbn beta iota.
    split; [congruence|]. split; [congruence|]. unfold leaves. rewrite Hc. eauto.
  - split; [done|]. split; [congruence|done].
  - split; [done|]. split; [congruence|done].
Qed.

Lemma write_all_spec p f i pos base ops fresh (C : option (list u8) → Prop) buffer Q s :
  opened p f i pos base ops fresh s → buffer ≠ [] → (∀ c, outcomes base ops fresh c → C c) →
  (∀ k, C (Some (apply_ops base (ops ++ [DataOp.Write pos (take k buffer)])))) →
  (∀ s' f', opened p f' i (pos + length buffer) base (ops ++ [DataOp.Write pos buffer]) fresh s' →
     Q s' f') →
  io_spec p C (write_all f buffer) Q s.
Proof.
  intros Ho Hne HC Htorn HQ. unfold write_all. destruct buffer as [|b buffer]; [done|].
  cbn [length write_all_loop]. apply io_spec_bind.
  eapply file_write_spec; [done|done|done|]. intros s' Ho'. rewrite decide_False by done.
  rewrite drop_ge by done. destruct (length buffer); by apply io_spec_ret, HQ.
Qed.

(** * Promotion *)

Definition data_rest (i : nat) (l : list PendingOp.t) : list PendingOp.t :=
  filter (λ op, data_op i op = None) l.

Lemma data_rest_cons i op l :
  data_rest i (op :: l) = match data_op i op with Some _ => data_rest i l | None => op :: data_rest i l end.
Proof. unfold data_rest. rewrite filter_cons. by destruct (data_op i op). Qed.

Lemma data_of_cons i op l :
  data_of i (op :: l) = match data_op i op with Some o => o :: data_of i l | None => data_of i l end.
Proof. done. Qed.

Lemma promote_file_spec i x l s :
  SimState.inodes s !! i = Some x →
  foldl (promote_step_file i) (Some s) l
  = Some (SimState.set_pending (SimState.pending s ++ data_rest i l)
      (SimState.set_inodes
        (<[i := Inode.mk (apply_ops (Inode.durable x) (data_of i l)) (Inode.visible x)]>
          (SimState.inodes s)) s)).
Proof.
  revert s x. induction l as [|op l IH]; intros s x Hx.
  { simpl. rewrite app_nil_r. destruct x. rewrite list_insert_id by done. by destruct s. }
  rewrite data_rest_cons, data_of_cons. destruct op as [j op|op]; simpl.
  - destruct (decide (j = i)) as [->|Hij]; simpl.
    + unfold update_inode. rewrite Hx. simpl. rewrite (IH _ (write_durable op x)); simpl.
      * by rewrite list_insert_insert_eq.
      * apply list_lookup_insert_eq. by apply lookup_lt_Some in Hx.
    + rewrite (IH _ x) by done. simpl. by rewrite <-app_assoc.
  - rewrite (IH _ x) by done. simpl. by rewrite <-app_assoc.
Qed.

Lemma data_of_rest i l : data_of i (data_rest i l) = [].
Proof.
  induction l as [|op l IH]; [done|]. rewrite data_rest_cons.
  destruct (data_op i op) eqn:Hop; [done|]. by rewrite data_of_cons, Hop.
Qed.

Lemma ns_op_rest i l : omap ns_op (data_rest i l) = omap ns_op l.
Proof.
  induction l as [|op l IH]; [done|]. rewrite data_rest_cons.
  destruct op as [j op|op]; simpl; [case_decide; exact IH|f_equal; exact IH].
Qed.

Lemma file_sync_data_spec p f i pos base ops fresh (C : option (list u8) → Prop) Q s :
  opened p f i pos base ops fresh s → (∀ c, outcomes base ops fresh c → C c) →
  (∀ s', opened p f i pos (apply_ops base ops) [] fresh s' → Q s' tt) →
  io_spec p C (file_sync_data f) Q s.
Proof.
  intros Ho HC HQ. eapply handle_op_spec; [done|done|].
  intros s' [[[Hp Hv Hd] Hdir Hvis Hdur Hns Hino Hdata] Hup ->].
  eapply io_spec_step.
  { unfold sim_try, promote_file. simpl SimFile.inode.
    rewrite (promote_file_spec i _ _ (SimState.set_pending [] s') Hino). simpl. by rewrite Hdata. }
  { done. }
  apply HQ. split; [|done|done].
  assert (∀ x, length (<[i:=x]> (SimState.inodes s')) = length (SimState.inodes s')) as Hlen
    by (intros; apply length_insert).
  split; simpl; try done.
  - split; simpl; rewrite Hlen; [|done|done].
    unfold data_rest. rewrite Forall_forall in *. intros op [_ Hop]%list_elem_of_filter. by apply Hp.
  - unfold ns_of. by rewrite ns_op_rest.
  - apply list_lookup_insert_eq. by apply lookup_lt_Some in Hino.
  - apply data_of_rest.
Qed.

Lemma ns_of_cons p op l :
  ns_of p (PendingOp.Namespace op :: l)
  = if decide (mentions p op) then op :: ns_of p l else ns_of p l.
Proof. unfold ns_of. simpl. by rewrite filter_cons. Qed.

Lemma promote_dir_spec dir l s :
  let in_d := λ op, ns_op_in_dir op dir = true in
  let s' := foldl (promote_step_dir dir) s l in
  SimState.inodes s' = SimState.inodes s ∧ SimState.ns_visible s' = SimState.ns_visible s ∧
  SimState.dirs s' = SimState.dirs s ∧ SimState.epoch s' = SimState.epoch s ∧
  SimState.crashed s' = SimState.crashed s ∧ SimState.plan s' = SimState.plan s ∧
  SimState.ns_durable s' = foldl apply_ns_op (SimState.ns_durable s) (filter in_d (omap ns_op l)) ∧
  (∀ i, data_of i (SimState.pending s') = data_of i (SimState.pending s) ++ data_of i l) ∧
  (∀ p, ns_of p (SimState.pending s')
        = ns_of p (SimState.pending s) ++ filter (λ op, ¬ in_d op) (ns_of p l)) ∧
  (∀ n, Forall (op_ok n) (SimState.pending s) → Forall (op_ok n) l →
        Forall (op_ok n) (SimState.pending s')).
Proof.
  simpl. revert s. induction l as [|op l IH]; intros s.
  { split_and!; try done; intros; by rewrite app_nil_r. }
  simpl. destruct (IH (promote_step_dir dir s op)) as (-> & -> & -> & -> & -> & -> & -> & Hd & Hn & Hok).
  destruct op as [j op|op]; simpl in *.
  - split_and!; try done.
    + intros i. rewrite Hd, data_of_app, <-app_assoc. f_equal. unfold data_of. simpl. by case_decide.
    + intros p. rewrite Hn, ns_of_app. unfold ns_of at 2. simpl. by rewrite app_nil_r.
    + intros n Hs [Hop Hl]%Forall_cons. apply Hok; [|done]. apply Forall_app. by rewrite Forall_singleton.
  - rewrite filter_cons. destruct (ns_op_in_dir op dir) eqn:Hin; simpl in *.
    + split_and!; try done; [|by intros n Hs [_ Hl]%Forall_cons; apply Hok].
      intros p. rewrite Hn, ns_of_cons. case_decide; [|done].
      by rewrite filter_cons, decide_False by (intros Hno; by apply Hno).
    + split_and!; try done.
      * intros i. rewrite Hd, data_of_app. unfold data_of at 2. simpl. by rewrite app_nil_r.
      * intros p. rewrite Hn, ns_of_app, <-app_assoc, !ns_of_cons. f_equal.
        case_decide; [|done]. by rewrite filter_cons, decide_True by (by rewrite Hin).
      * intros n Hs [Hop Hl]%Forall_cons. apply Hok; [|done]. apply Forall_app. by rewrite Forall_singleton.
Qed.

Lemma filter_comm {A} (P R : A → Prop) `{!∀ a, Decision (P a), !∀ a, Decision (R a)} (l : list A) :
  filter P (filter R l) = filter R (filter P l).
Proof.
  induction l as [|a l IH]; [done|]. rewrite !filter_cons.
  repeat case_decide; rewrite ?filter_cons; repeat case_decide; by rewrite ?IH.
Qed.

Lemma require_dir_spec {A} p C dir (k : Sim A) Q s :
  dir ∈ SimState.dirs s → io_spec p C k Q s → io_spec p C (require_dir dir;; k) Q s.
Proof.
  intros Hdir Hk. eapply io_spec_step_bind; [|done|exact Hk]. unfold require_dir.
  by rewrite decide_True.
Qed.

(** Syncing the directory makes the entry of a fresh file durable. *)
Lemma sync_dir_spec p f i pos base ops fresh (C : option (list u8) → Prop) dir Q s :
  opened p f i pos base ops fresh s → (∀ c, outcomes base ops fresh c → C c) →
  parent p = Some dir → (∀ s', opened p f i pos base ops false s' → Q s' tt) →
  io_spec p C (SimStorage.sync_dir dir) Q s.
Proof.
  intros Ho HC Hparent HQ. apply io_spec_bind, begin_op_spec; [apply Ho| |intros _].
  { by apply (opened_leaves p f i pos base ops fresh). }
  pose proof (opened_count _ _ _ _ _ _ _ SyncDir dir 0 _ Ho) as Ho1. revert Ho1.
  generalize (SimState.count_op SyncDir dir 0 s). clear s Ho.
  intros s1 [[[Hp Hv Hd] Hdir Hvis Hdur Hns Hino Hdata] Hup ->].
  apply require_dir_spec; [destruct Hdir as [Hdir _]; by rewrite Hparent in Hdir|].
  destruct (promote_dir_spec dir (SimState.pending s1) (SimState.set_pending [] s1))
    as (Ei & Ev & Er & Ee & Ec & Epl & Ed & Hdo & Hno & Hok). simpl in *.
  set (s2 := foldl _ _ _) in *. apply (io_spec_step _ _ _ _ _ s2 tt); [done|exact Epl|]. apply HQ.
  assert (ns_op_in_dir (NsOp.Create p i) dir = true) as Hin.
  { simpl. unfold in_dir. rewrite Hparent. by apply bool_decide_eq_true. }
  split; [|congruence|by rewrite Ee]. split.
  - split; rewrite Ei, ?Ev; [by apply Hok|done|]. rewrite Ed.
    clear -Hd Hp. revert Hd Hp. generalize (SimState.ns_durable s1).
    induction (SimState.pending s1) as [|op l IH]; intros ns Hns Hl; [done|].
    apply Forall_cons in Hl as [Hop Hl]. destruct op as [j op|op]; simpl; [by apply IH|].
    rewrite filter_cons. case_decide; [|by apply IH]. apply IH; [by apply apply_ns_op_ok|done].
  - unfold located. by rewrite Er.
  - by rewrite Ev.
  - rewrite Ed. destruct (apply_ns_ops_lookup p i
      (filter (λ op, ns_op_in_dir op dir = true) (omap ns_op (SimState.pending s1)))
      (SimState.ns_durable s1)) as [Hnone Hcreate].
    rewrite filter_comm in Hnone, Hcreate. fold (ns_of p (SimState.pending s1)) in Hnone, Hcreate.
    rewrite Hns in Hnone, Hcreate. destruct fresh; [|by rewrite Hnone].
    apply Hcreate. by rewrite filter_cons, decide_True.
  - rewrite Hno, Hns. destruct fresh; [|done]. by rewrite filter_cons, decide_False by (rewrite Hin; tauto).
  - by rewrite Ei.
  - by rewrite Hdo.
Qed.

(** * Opening and reading *)

Lemma open_existing_spec p i base ops fresh (C : option (list u8) → Prop) mode Q s :
  file_at p i base ops fresh s → SimState.crashed s = false → mode ∈ [ReadWrite; CreateAppend] →
  (∀ c, outcomes base ops fresh c → C c) →
  (∀ s' f, opened p f i 0 base ops fresh s' → Q s' f) →
  io_spec p C (SimStorage.open p mode) Q s.
Proof.
  intros Hf Hup Hmode HC HQ. apply io_spec_bind, begin_op_spec; [done| |intros _].
  { by apply (file_leaves p i base ops fresh). }
  eapply io_spec_step_bind; [done|done|]. simpl.
  rewrite (fa_visible _ _ _ _ _ _ Hf).
  assert (mode = ReadWrite ∨ mode = CreateAppend) as [->| ->] by set_solver; simpl.
  all: eapply io_spec_step; [done|done|]; apply HQ; split; [by apply (file_at_same _ _ _ _ _ s)|done|done].
Qed.

Lemma open_absent_spec p (C : option (list u8) → Prop) mode Q s :
  absent p s → SimState.crashed s = false → mode ∈ [CreateNew; CreateAppend] → C None →
  (∀ s' f i, opened p f i 0 [] [] true s' → Q s' f) →
  io_spec p C (SimStorage.open p mode) Q s.
Proof.
  intros Ha Hup Hmode HC HQ. apply io_spec_bind, begin_op_spec; [done| |intros _].
  { by apply absent_leaves. }
  pose proof (absent_same p s _ (same_disk_count Open p 0 s) Ha) as Ha1. revert Ha1 Hup.
  change (SimState.crashed s) with (SimState.crashed (SimState.count_op Open p 0 s)).
  generalize (SimState.count_op Open p 0 s). clear s Ha.
  intros s1 [[Hp Hv Hd] Hdir Hvis Hdur Hns] Hup.
  set (i := length (SimState.inodes s1)).
  set (s2 := SimState.push_pending (PendingOp.Namespace (NsOp.Create p i))
    (SimState.set_ns_visible (<[p := i]> (SimState.ns_visible s1))
      (SimState.set_inodes (SimState.inodes s1 ++ [Inode.empty]) s1))).
  assert (file_at p i [] [] true s2) as Hf.
  { assert (∀ n, op_ok i n → op_ok (length (SimState.inodes s1 ++ [Inode.empty])) n) as Hmono.
    { rewrite length_app. simpl. fold i. intros [j op|[]]; simpl; intros; try done; lia. }
    assert (∀ ns, ns_ok i ns → ns_ok (length (SimState.inodes s1 ++ [Inode.empty])) ns) as Hmono'.
    { rewrite length_app. intros ns Hns' q j Hj. apply Hns' in Hj. simpl. fold i. lia. }
    split; simpl; try done.
    - split; simpl; [|apply map_Forall_insert_2; [rewrite length_app; simpl; fold i; lia|by apply Hmono']|by apply Hmono'].
      apply Forall_app. split; [by eapply Forall_impl|]. apply Forall_singleton. simpl.
      rewrite length_app. simpl. fold i. lia.
    - apply lookup_insert_eq.
    - by rewrite ns_of_app, Hns, ns_of_cons, decide_True.
    - by rewrite lookup_app_r, Nat.sub_diag.
    - rewrite data_of_app. unfold data_of at 2. simpl. rewrite app_nil_r.
      clear -Hp. unfold i. induction Hp as [|op l Hop Hl IH]; [done|]. rewrite data_of_cons, IH.
      destruct op as [j op|op]; simpl in *; [|done]. rewrite decide_False by lia. done. }
  eapply io_spec_step_bind; [done|done|]. rewrite Hvis.
  assert (mode = CreateNew ∨ mode = CreateAppend) as [->| ->] by set_solver.
  all: apply (io_spec_step _ _ _ _ _ s2 (SimFile.mk p i 0 (SimState.epoch s1) true));
    [|done|by apply (HQ _ _ i)].
  all: unfold mbind, sim_bind, require_dir; by rewrite decide_True by apply Hdir.
Qed.

(** What [exists] and [read] tell of a settled file when no fault is planned. *)
Definition settled_up (p : PathBuf) (c : option (list u8)) (s : SimState.t) : Prop :=
  settled p c s ∧ SimState.crashed s = false ∧ SimState.plan s = FaultPlan.NoFault.

Lemma settled_up_count p c kind path len s :
  settled_up p c s → settled_up p c (SimState.count_op kind path len s).
Proof. intros (Hs & Hup & Hplan). split_and!; [by apply (settled_same p c s)|done|done]. Qed.

Lemma settled_leaves p c (C : option (list u8) → Prop) s :
  settled p c s → SimState.crashed s = false → C c → leaves p C s.
Proof.
  destruct c as [b|]; simpl; [intros [i Hf] Hup HC|apply absent_leaves].
  apply (file_leaves p i b [] false); [done|done|]. intros c [[? _]|[j ->]]; [done|]. by rewrite take_nil.
Qed.

Lemma begin_op_nofault kind path len s :
  SimState.crashed s = false → SimState.plan s = FaultPlan.NoFault →
  begin_op kind path len s = Some (SimState.count_op kind path len s, Ok (SimState.next_op s)).
Proof.
  intros Hup Hplan. unfold begin_op, mbind, sim_bind, sim_get, sim_put. by rewrite Hup, Hplan.
Qed.

Lemma exists_nofault p c s :
  settled_up p c s →
  SimStorage.exists_ p s = Some (SimState.count_op Exists p 0 s, Ok (bool_decide (is_Some c))).
Proof.
  intros (Hs & Hup & Hplan). unfold SimStorage.exists_, mbind at 1, sim_bind at 1.
  rewrite begin_op_nofault by done. unfold mbind, sim_bind, sim_get, mret, sim_ret. do 3 f_equal. simpl.
  assert (p ∉ SimState.dirs s) as Hnd.
  { destruct c as [b|]; [destruct Hs as [i Hf]; apply Hf|apply Hs]. }
  rewrite (bool_decide_eq_false_2 (p ∈ SimState.dirs s)), orb_false_r by done.
  apply bool_decide_ext. rewrite elem_of_dom. destruct c as [b|]; simpl in Hs.
  - destruct Hs as [i Hf]. rewrite (fa_visible _ _ _ _ _ _ Hf). by split.
  - rewrite (ab_visible _ _ Hs). split; by intros [].
Qed.

Lemma read_nofault p b s :
  settled_up p (Some b) s →
  SimStorage.read p s = Some (SimState.count_op ReadFile p 0 s, Ok b).
Proof.
  intros ([i Hf] & Hup & Hplan). unfold SimStorage.read, mbind at 1, sim_bind at 1.
  rewrite begin_op_nofault by done. unfold visible_inode, mbind, sim_bind. simpl.
  rewrite (fa_visible _ _ _ _ _ _ Hf). unfold sim_visible. simpl.
  by rewrite (fa_inode _ _ _ _ _ _ Hf).
Qed.

(** * Errors as values *)

Lemma map_err_spec {E F A} p C (f : E → F) (c : SimE E A) (Q : SimState.t → A → Prop) s :
  io_spec p C c Q s → io_spec p C (map_err f c) Q s.
Proof. unfold io_spec, io_wp, map_err. by destruct (c s) as [[s' []]|]. Qed.

(** After an attempt the outcome is known and, on failure, what the file may hold. *)
Lemma attempt_wp {E F A B} p C (c : SimE E A) (k : result E A → SimE F B)
    (Q : SimState.t → A → Prop) (R : SimState.t → result F B → Prop) s :
  io_spec p C c Q s → (∀ s' a, Q s' a → io_wp (k (Ok a)) R s') →
  (∀ s' e, leaves p C s' → io_wp (k (Err e)) R s') → io_wp (attempt c ≫= k) R s.
Proof.
  unfold io_spec, io_wp, attempt, mbind, sim_bind. intros Hc Hok Herr.
  destruct (c s) as [[s' [a|e]]|]; simpl in *; [by apply Hok, Hc|by apply (Herr s' e), Hc|done].
Qed.

(** * Losing power and booting *)

Definition boot (plan : FaultPlan.t) (s : SimState.t) : SimState.t :=
  SimStorage.set_fault plan (SimStorage.reboot s).

(** Unless the disk is down already, it goes down with a prefix of what was pending. *)
Definition power_off (prefix : nat) (s : SimState.t) : option SimState.t :=
  if SimState.crashed s then Some s else materialize_crash prefix None s.

Lemma power_off_spec p C prefix s :
  leaves p C s → ∃ s' c, power_off prefix s = Some s' ∧ settled p c s' ∧ C c.
Proof.
  intros Hl. unfold power_off. destruct (SimState.crashed s) eqn:Hc.
  - unfold leaves in Hl. rewrite Hc in Hl. destruct Hl as (c & ? & ?). by exists s, c.
  - destruct (leaves_crash p C prefix s Hl Hc) as (s' & c & ? & _ & ? & ?). by exists s', c.
Qed.

(** * File contents *)

Lemma length_write c pos bytes :
  length (apply_data_op c (DataOp.Write pos bytes)) = Nat.max (length c) (pos + length bytes).
Proof.
  simpl. case_decide; rewrite !length_app, length_take, length_drop, ?length_resize; lia.
Qed.

Lemma lookup_zeros (c : list u8) n m (x : u8) : resize n zero c !! m = Some x → c !! m = Some x ∨ x = zero.
Proof.
  rewrite resize_spec. rewrite lookup_app_Some. intros [H|[_ H]].
  - left. by apply lookup_take_Some in H as [? _].
  - right. by apply lookup_replicate in H as [-> _].
Qed.

Lemma lookup_set_len c n m x :
  apply_data_op c (DataOp.SetLen n) !! m = Some x → c !! m = Some x ∨ x = zero.
Proof. apply lookup_zeros. Qed.

Lemma lookup_set_len_lt c n m x :
  c !! m = Some x → m < n → apply_data_op c (DataOp.SetLen n) !! m = Some x.
Proof.
  intros Hm Hn. simpl. rewrite resize_spec. apply lookup_app_l_Some.
  by rewrite lookup_take_lt.
Qed.

Lemma lookup_write_in c pos bytes n :
  n < length bytes → apply_data_op c (DataOp.Write pos bytes) !! (pos + n) = bytes !! n.
Proof.
  intros Hn. simpl. set (d := if decide _ then _ else _).
  assert (pos + length bytes <= length d) as Hd.
  { unfold d. case_decide; rewrite ?length_resize; lia. }
  rewrite lookup_app_r; rewrite length_take_le by lia; [|lia].
  rewrite lookup_app_l by lia. f_equal. lia.
Qed.

Lemma lookup_write_out c pos bytes n x :
  apply_data_op c (DataOp.Write pos bytes) !! n = Some x → n < pos ∨ pos + length bytes <= n →
  c !! n = Some x ∨ x = zero.
Proof.
  simpl. set (d := if decide _ then _ else _). intros Hx Hn.
  assert (pos + length bytes <= length d) as Hd.
  { unfold d. case_decide; rewrite ?length_resize; lia. }
  assert (d !! n = Some x) as Hdn.
  { destruct Hn as [Hn|Hn].
    - rewrite lookup_app_l in Hx by (rewrite length_take_le; lia). by rewrite lookup_take_lt in Hx.
    - rewrite lookup_app_r in Hx; rewrite length_take_le in * by lia; [|lia].
      rewrite lookup_app_r in Hx by lia. rewrite lookup_drop in Hx. rewrite <-Hx. f_equal. lia. }
  unfold d in Hdn. case_decide; [by apply lookup_zeros in Hdn|by left].
Qed.

Lemma append_data c bytes : apply_data_op c (DataOp.Write (length c) bytes) = c ++ bytes.
Proof.
  unfold apply_data_op. case_decide as Hlt.
  - rewrite resize_ge by lia. rewrite take_app_length.
    rewrite drop_ge; [by rewrite app_nil_r|]. rewrite length_app, length_replicate. lia.
  - rewrite take_ge, drop_ge, app_nil_r by lia. done.
Qed.

Lemma cut_data c d : apply_data_op (c ++ d) (DataOp.SetLen (length c)) = c.
Proof. unfold apply_data_op. rewrite resize_le by (rewrite length_app; lia). apply take_app_length. Qed.

Lemma lookup_write_keep c pos bytes n x :
  c !! n = Some x → n < pos ∨ pos + length bytes <= n →
  apply_data_op c (DataOp.Write pos bytes) !! n = Some x.
Proof.
  simpl. set (d := if decide _ then _ else _). intros Hx Hn.
  assert (d !! n = Some x) as Hdn.
  { unfold d. case_decide; [|done]. rewrite resize_spec. apply lookup_app_l_Some.
    apply lookup_lt_Some in Hx as ?. rewrite lookup_take_lt by lia. done. }
  assert (pos + length bytes <= length d) as Hd.
  { unfold d. case_decide; rewrite ?length_resize; lia. }
  destruct Hn as [Hn|Hn].
  - rewrite lookup_app_l by (rewrite length_take_le; lia). by rewrite lookup_take_lt.
  - rewrite lookup_app_r; rewrite length_take_le by lia; [|lia].
    rewrite lookup_app_r by lia. rewrite lookup_drop, <-Hdn. f_equal. lia.
Qed.
