(* ===== verification/CommittedFloor.v ===== *)
(** The durable committed floor of a range replica
    (crates/vtop-broker/src/committed_floor.rs): two checksummed frames in one file, the
    save that writes the frame not holding the newest floor, and the read that takes the
    highest frame whose checksum matches.  The operations run on the disk of Storage.v. *)

From stdpp Require Import gmap strings list pretty.
From Stdlib Require Import ZArith Lia.
From S2P Require Import Prelude Wire Storage.
#[local] Open Scope nat_scope.

Module CommittedFloorFile.

Definition MAGIC : list u8 := as_bytes "VTOPFLR1".
Definition VERSION : u32 := wrap_int U32 1.
Definition CHECKSUM_BYTES : nat := 32.
Definition PAYLOAD_BYTES : nat := 8 + 4 + 8.
Definition FRAME_BYTES : nat := PAYLOAD_BYTES + CHECKSUM_BYTES.
Definition FILE_BYTES : nat := 2 * FRAME_BYTES.

Record t := mk {
  path : PathBuf;
  file : option SimFile.t;
  last_persisted : u64;
  write_slot : nat;
  parent_synced : bool;
  poisoned : bool;
}.

Definition set_file (x : option SimFile.t) (self : t) : t :=
  mk (path self) x (last_persisted self) (write_slot self) (parent_synced self) (poisoned self).
Definition set_parent_synced (x : bool) (self : t) : t :=
  mk (path self) (file self) (last_persisted self) (write_slot self) x (poisoned self).
Definition set_poisoned (x : bool) (self : t) : t :=
  mk (path self) (file self) (last_persisted self) (write_slot self) (parent_synced self) x.
Definition set_persisted (floor : u64) (slot : nat) (self : t) : t :=
  mk (path self) (file self) floor slot (parent_synced self) (poisoned self).

Section operations.
Context `{!Blake3Hash}.

(** The first [PAYLOAD_BYTES] of a frame. *)
Definition payload (floor : u64) : list u8 := MAGIC ++ to_be_bytes VERSION ++ to_be_bytes floor.

Definition encode (floor : u64) : list u8 :=
  payload floor ++ to_be_bytes (blake3_hash (payload floor)).

Definition read_frame (bytes : list u8) (slot : nat) : option u64 :=
  if decide (slot * FRAME_BYTES + FRAME_BYTES <= length bytes) then
    let frame := take FRAME_BYTES (drop (slot * FRAME_BYTES) bytes) in
    let payload := take PAYLOAD_BYTES frame in
    let checksum := drop PAYLOAD_BYTES frame in
    if decide (to_be_bytes (blake3_hash payload) ≠ checksum) then None
    else if decide (take 8 payload ≠ MAGIC) then None
    else if decide (from_be_bytes U32 (take 4 (drop 8 payload)) ≠ VERSION) then None
    else Some (from_be_bytes U64 (take 8 (drop 12 payload)))
  else None.

(** [Iterator::max] on pairs of a floor and its slot. *)
Definition pair_max (best : option (u64 * nat)) (entry : u64 * nat) : option (u64 * nat) :=
  match best with
  | None => Some entry
  | Some b =>
      if decide ((ival entry.1 < ival b.1)%Z ∨ entry.1 = b.1 ∧ entry.2 < b.2) then Some b
      else Some entry
  end.

Definition best_frame (bytes : list u8) : option (u64 * nat) :=
  foldl pair_max None (omap (λ slot, floor ← read_frame bytes slot; Some (floor, slot)) [0; 1]).

(** An unreadable file is a value here, with the reason the open prints. *)
Definition read_floor {E} (path : PathBuf) : SimE E (result string (option (u64 * nat))) :=
  exists_r ← attempt (SimStorage.exists_ path);
  match exists_r with
  | Err e => mret (Err ("could not be probed: " +:+ error_text e))
  | Ok false => mret (Ok None)
  | Ok true =>
      read_r ← attempt (SimStorage.read path);
      match read_r with
      | Err e => mret (Err ("could not be read: " +:+ error_text e))
      | Ok bytes =>
          match best_frame bytes with
          | Some best => mret (Ok (Some best))
          | None =>
              mret (Err ("holds no readable floor frame in its "
                +:+ pretty (N.of_nat (length bytes)) +:+ " bytes"))
          end
      end
  end.

Definition open_in {E} (path : PathBuf) : SimE E t :=
  found ← read_floor path;
  let '(floor, write_slot) :=
    match found with
    | Ok (Some (floor, holding_slot)) => (floor, 1 - holding_slot)
    | Ok None | Err _ => (zero, 0)
    end in
  mret (mk path None floor write_slot false false).

Definition floor (self : t) : u64 := last_persisted self.

Definition sync_parent (path : PathBuf) : SimE BrokerError unit :=
  match parent path with
  | None => mret tt
  | Some dir =>
      let dir := if decide (dir = Path false []) then current_dir else dir in
      map_err (Io dir) (SimStorage.sync_dir dir)
  end.

(** The handle the first save opens, kept for the later ones. *)
Definition open_file (self : t) : SimE BrokerError SimFile.t :=
  match file self with
  | Some f => mret f
  | None => map_err (Io (path self)) (SimStorage.open (path self) CreateAppend)
  end.

(** Seek to the slot, write the frame, pin the length to two frames and sync. *)
Definition put_frame (f : SimFile.t) (bytes : list u8) (slot : nat) : Sim SimFile.t :=
  '(_, f) ← file_seek f (SeekStart (slot * FRAME_BYTES));
  f ← write_all f bytes;
  file_set_len f FILE_BYTES;;
  file_sync_data f;;
  mret f.

(** The frame write, with the object as it leaves it.  The position of a handle whose
    write failed is not tracked: the save that called poisons the object and nothing
    uses the handle again. *)
Definition write_frame {E} (self : t) (bytes : list u8) (slot : nat)
    : SimE E (t * result BrokerError unit) :=
  opened ← attempt (open_file self);
  match opened with
  | Err e => mret (self, Err e)
  | Ok f =>
      let self := set_file (Some f) self in
      written ← attempt (map_err (Io (path self)) (put_frame f bytes slot));
      match written with
      | Err e => mret (self, Err e)
      | Ok f =>
          let self := set_file (Some f) self in
          if parent_synced self then mret (self, Ok tt)
          else
            synced ← attempt (sync_parent (path self));
            match synced with
            | Err e => mret (self, Err e)
            | Ok _ => mret (set_parent_synced true self, Ok tt)
            end
      end
  end.

Definition save {E} (self : t) (floor : u64) : SimE E (t * result BrokerError unit) :=
  if poisoned self then
    mret (self, Err (CommittedFloor
      "a previous write failed; this handle no longer persists and must be reopened"))
  else if decide (ival floor < ival (last_persisted self))%Z then
    mret (self, Err (CommittedFloor
      ("floor would regress from " +:+ pretty (ival (last_persisted self)) +:+ " to "
       +:+ pretty (ival floor) +:+ "; it may stay the same or advance, never regress")))
  else if decide (floor = last_persisted self) then mret (self, Ok tt)
  else
    '(self, written) ← write_frame self (encode floor) (write_slot self);
    match written with
    | Err problem => mret (set_poisoned true self, Err problem)
    | Ok _ => mret (set_persisted floor (1 - write_slot self) self, Ok tt)
    end.

End operations.
End CommittedFloorFile.
