(* ===== verification/FloorSafety.v ===== *)
(** Crash safety of the committed floor (CommittedFloor.v).

    A replica lives many lives on one disk.  In each it opens the floor file, saves any
    floors in any order under an arbitrary fault plan (injected errors, a crash before any
    operation, a write torn at any byte), and loses power with any prefix of its pending
    operations on the disk.  Across all of that an acknowledged floor is never lost and
    no floor is ever read that was not asked to be saved. *)

From stdpp Require Import gmap strings list.
From Stdlib Require Import ZArith Lia.
From S2P Require Import Prelude Wire Storage DiskLogic CommittedFloor.
Import CommittedFloorFile.
#[local] Open Scope nat_scope.

#[local] Arguments encode : simpl never.
#[local] Arguments apply_data_op : simpl never.
#[local] Arguments FRAME_BYTES : simpl never.
#[local] Arguments FILE_BYTES : simpl never.

Ltac frame_lia := unfold FILE_BYTES, FRAME_BYTES, PAYLOAD_BYTES, CHECKSUM_BYTES in *; lia.

Section floor.
Context `{!Blake3Hash}.

Definition digest (floor : u64) : list u8 := to_be_bytes (blake3_hash (payload floor)).

(** Bytes stitched together, position by position, from the digests of some floors and
    from zeros: what torn writes of their frames can leave where a digest belongs. *)
Definition stitched (floors : list u64) (c : list u8) : Prop :=
  ∀ j x, c !! j = Some x → x = zero ∨ ∃ v, v ∈ floors ∧ digest v !! j = Some x.

(** The hash detects tears: no such patchwork is the digest of another floor. *)
Definition detects_tears (floors : list u64) : Prop :=
  ∀ v, stitched floors (digest v) → v ∈ floors.

(** * Frames *)

Lemma length_payload v : length (payload v) = PAYLOAD_BYTES.
Proof. unfold payload. by rewrite !length_app, !length_to_be_bytes. Qed.

Lemma length_digest v : length (digest v) = CHECKSUM_BYTES.
Proof. unfold digest. by rewrite length_to_be_bytes. Qed.

Lemma length_encode v : length (encode v) = FRAME_BYTES.
Proof.
  unfold encode. by rewrite length_app, length_payload, length_to_be_bytes.
Qed.

Lemma encode_digest v j : encode v !! (PAYLOAD_BYTES + j) = digest v !! j.
Proof.
  unfold encode. rewrite lookup_app_r; rewrite length_payload; [|lia]. f_equal. lia.
Qed.

Lemma payload_parts v :
  take 8 (payload v) = MAGIC ∧ take 4 (drop 8 (payload v)) = to_be_bytes VERSION ∧
  take 8 (drop 12 (payload v)) = to_be_bytes v.
Proof.
  unfold payload. split_and!.
  - by apply take_app_length'.
  - rewrite drop_app_length' by done. by apply take_app_length'.
  - rewrite app_assoc, drop_app_length' by done. apply take_ge. by rewrite length_to_be_bytes.
Qed.

Lemma take_FRAME (bytes rest : list u8) : length bytes = FRAME_BYTES → take FRAME_BYTES (bytes ++ rest) = bytes.
Proof. intros <-. apply take_app_length. Qed.

(** A frame written whole reads back. *)
Lemma read_frame_encode bytes slot v :
  slot * FRAME_BYTES + FRAME_BYTES <= length bytes →
  take FRAME_BYTES (drop (slot * FRAME_BYTES) bytes) = encode v →
  read_frame bytes slot = Some v.
Proof.
  intros Hlen Hframe. unfold read_frame. rewrite decide_True, Hframe by done.
  unfold encode. rewrite take_app_length', drop_app_length' by (by rewrite length_payload).
  destruct (payload_parts v) as (Hm & Hv & Hf).
  rewrite decide_False by (intros Hne; by apply Hne).
  rewrite Hm, Hv, Hf. rewrite decide_False by (intros Hne; by apply Hne).
  rewrite decide_False by (rewrite from_to_be_bytes; intros Hne; by apply Hne).
  by rewrite from_to_be_bytes.
Qed.

(** A frame that reads is the payload and digest of its floor. *)
Lemma read_frame_inv bytes slot v :
  read_frame bytes slot = Some v →
  slot * FRAME_BYTES + FRAME_BYTES <= length bytes ∧
  take FRAME_BYTES (drop (slot * FRAME_BYTES) bytes) = encode v.
Proof.
  unfold read_frame. case_decide as Hlen; [|done]. set (frame := take FRAME_BYTES (drop _ bytes)).
  assert (length frame = FRAME_BYTES) as Hframe.
  { unfold frame. rewrite length_take, length_drop. lia. }
  case_decide as Hsum; [done|]. case_decide as Hmagic; [done|]. case_decide as Hversion; [done|].
  intros [= <-]. split; [done|].
  set (pl := take PAYLOAD_BYTES frame) in *.
  assert (length pl = PAYLOAD_BYTES) as Hpl by (unfold pl; rewrite length_take, Hframe; done).
  assert (pl = payload (from_be_bytes U64 (take 8 (drop 12 pl)))) as Heq.
  { unfold payload. rewrite to_from_be_bytes by (rewrite length_take, length_drop, Hpl; done).
    rewrite <-Hversion, to_from_be_bytes by (rewrite length_take, length_drop, Hpl; done).
    rewrite <-Hmagic, (take_ge (drop 12 pl)) by (rewrite length_drop, Hpl; done).
    rewrite <-(take_drop 8 pl) at 1. f_equal. rewrite <-(take_drop 4 (drop 8 pl)) at 1.
    by rewrite drop_drop. }
  unfold encode. rewrite <-Heq, Hsum. unfold pl. by rewrite take_drop.
Qed.

(** A slot reads as [v] when it holds the frame of [v] byte for byte. *)
Lemma read_frame_lookup bytes slot v :
  read_frame bytes slot = Some v ↔
  ∀ j, j < FRAME_BYTES → bytes !! (slot * FRAME_BYTES + j) = encode v !! j.
Proof.
  split.
  - intros [Hlen Hframe]%read_frame_inv j Hj.
    by rewrite <-Hframe, lookup_take_lt, lookup_drop by done.
  - intros Hall. pose proof (length_encode v) as Henc.
    assert (slot * FRAME_BYTES + FRAME_BYTES <= length bytes) as Hlen.
    { assert (is_Some (bytes !! (slot * FRAME_BYTES + 51))) as Hlt%lookup_lt_is_Some.
      { rewrite Hall by frame_lia. apply lookup_lt_is_Some.
        rewrite Henc. frame_lia. }
      frame_lia. }
    apply read_frame_encode; [done|]. apply list_eq. intros j.
    destruct (decide (j < FRAME_BYTES)) as [Hj|Hj].
    + by rewrite lookup_take_lt, lookup_drop, Hall by done.
    + rewrite lookup_take_ge by lia. symmetry. apply lookup_ge_None. lia.
Qed.

(** * File contents *)

Definition stitched_file (floors : list u64) (bytes : list u8) : Prop :=
  ∀ slot j x, slot < 2 → j < CHECKSUM_BYTES →
    bytes !! (slot * FRAME_BYTES + (PAYLOAD_BYTES + j)) = Some x →
    x = zero ∨ ∃ v, v ∈ floors ∧ digest v !! j = Some x.

Lemma frame_requested floors bytes slot v :
  detects_tears floors → stitched_file floors bytes → slot < 2 →
  read_frame bytes slot = Some v → v ∈ floors.
Proof.
  intros Hdet Hst Hslot Hread. apply Hdet. intros j x Hx.
  pose proof (lookup_lt_Some _ _ _ Hx) as Hj. rewrite length_digest in Hj.
  apply (Hst slot j x); [done|done|]. rewrite (proj1 (read_frame_lookup bytes slot v)); [|done|].
  - by rewrite encode_digest.
  - frame_lia.
Qed.

Lemma stitched_write floors bytes w k v :
  stitched_file floors bytes → v ∈ floors → w < 2 →
  stitched_file floors (apply_data_op bytes (DataOp.Write (w * FRAME_BYTES) (take k (encode v)))).
Proof.
  intros Hst Hv Hw slot j x Hslot Hj Hx.
  pose proof (length_take (encode v) k) as Hlen. rewrite length_encode in Hlen.
  destruct (decide (slot = w ∧ PAYLOAD_BYTES + j < length (take k (encode v)))) as [[-> Hin]|Hout].
  - rewrite lookup_write_in in Hx by done. right. exists v. split; [done|].
    rewrite lookup_take_Some in Hx. destruct Hx as [Hx _]. by rewrite encode_digest in Hx.
  - apply lookup_write_out in Hx as [Hx| ->]; [by apply (Hst slot j)|by left|].
    assert (slot = w ∨ slot = 0 ∧ w = 1 ∨ slot = 1 ∧ w = 0) as [->|[[-> ->]|[-> ->]]] by lia;
      frame_lia.
Qed.

Lemma stitched_set_len floors bytes n :
  stitched_file floors bytes → stitched_file floors (apply_data_op bytes (DataOp.SetLen n)).
Proof.
  intros Hst slot j x Hslot Hj [Hx| ->]%lookup_set_len; [by apply (Hst slot j)|by left].
Qed.

Lemma read_frame_other bytes slot w bs u :
  read_frame bytes slot = Some u → slot < 2 → w < 2 → slot ≠ w → length bs <= FRAME_BYTES →
  read_frame (apply_data_op bytes (DataOp.Write (w * FRAME_BYTES) bs)) slot = Some u.
Proof.
  rewrite !read_frame_lookup. intros Hall Hslot Hw Hne Hbs j Hj. rewrite <-Hall by done.
  destruct (bytes !! (slot * FRAME_BYTES + j)) as [x|] eqn:Hx.
  - apply lookup_write_keep; [done|].
    assert (slot = 0 ∧ w = 1 ∨ slot = 1 ∧ w = 0) as [[-> ->]|[-> ->]] by lia; frame_lia.
  - rewrite Hall in Hx by done. apply lookup_ge_None in Hx. rewrite length_encode in Hx. lia.
Qed.

Lemma read_frame_set_len bytes slot u :
  read_frame bytes slot = Some u → slot < 2 →
  read_frame (apply_data_op bytes (DataOp.SetLen FILE_BYTES)) slot = Some u.
Proof.
  rewrite !read_frame_lookup. intros Hall Hslot j Hj. rewrite <-Hall by done.
  destruct (bytes !! (slot * FRAME_BYTES + j)) as [x|] eqn:Hx.
  - apply lookup_set_len_lt; [done|]. assert (slot = 0 ∨ slot = 1) as [-> | ->] by lia; frame_lia.
  - rewrite Hall in Hx by done. apply lookup_ge_None in Hx. rewrite length_encode in Hx. lia.
Qed.

Lemma read_frame_written bytes w v :
  read_frame (apply_data_op bytes (DataOp.Write (w * FRAME_BYTES) (encode v))) w = Some v.
Proof.
  apply read_frame_lookup. intros j Hj. apply lookup_write_in. by rewrite length_encode.
Qed.

(** * What the file promises *)

(** The floor [best] can be read back from the content, and every digest position holds a
    zero or a byte of a requested floor's digest. *)
Definition recovers (floors : list u64) (best : u64) (c : option (list u8)) : Prop :=
  match c with
  | None => best = zero
  | Some bytes =>
      stitched_file floors bytes ∧
      (best = zero ∨ ∃ slot, slot < 2 ∧ read_frame bytes slot = Some best)
  end.

(** The same with [best] outside the slot [w] that the next save overwrites. *)
Definition spares (floors : list u64) (best : u64) (w : nat) (c : option (list u8)) : Prop :=
  w < 2 ∧
  match c with
  | None => best = zero
  | Some bytes => stitched_file floors bytes ∧ (best = zero ∨ read_frame bytes (1 - w) = Some best)
  end.

#[local] Arguments recovers : simpl never.
#[local] Arguments spares : simpl never.

Lemma spares_recovers floors best w c : spares floors best w c → recovers floors best c.
Proof.
  intros [Hw Hc]. destruct c as [bytes|]; [|done]. destruct Hc as [Hst [->|Hr]]; split; try done.
  - by left.
  - right. exists (1 - w). split; [lia|done].
Qed.

(** The empty content a fresh file starts with. *)
Lemma stitched_empty floors : stitched_file floors [].
Proof. intros slot j x _ _ Hx. by rewrite lookup_nil in Hx. Qed.

(** Any part of a save leaves the newest floor readable. *)
Lemma spares_torn floors best w bytes v k :
  spares floors best w (Some bytes) → v ∈ floors →
  spares floors best w
    (Some (apply_data_op bytes (DataOp.Write (w * FRAME_BYTES) (take k (encode v))))).
Proof.
  intros (Hw & Hst & Hbest) Hv. split; [done|]. split; [by apply stitched_write|].
  destruct Hbest as [->|Hr]; [by left|]. right. apply read_frame_other; [done|lia|done|lia|].
  rewrite length_take, length_encode. lia.
Qed.

Lemma spares_set_len floors best w bytes :
  spares floors best w (Some bytes) →
  spares floors best w (Some (apply_data_op bytes (DataOp.SetLen FILE_BYTES))).
Proof.
  intros (Hw & Hst & Hbest). split; [done|]. split; [by apply stitched_set_len|].
  destruct Hbest as [->|Hr]; [by left|]. right. apply read_frame_set_len; [done|lia].
Qed.

(** The whole save moves the newest floor to the slot it wrote. *)
Lemma spares_saved floors best w bytes v :
  spares floors best w (Some bytes) → v ∈ floors →
  spares floors v (1 - w) (Some (apply_ops bytes
    [DataOp.Write (w * FRAME_BYTES) (encode v); DataOp.SetLen FILE_BYTES])).
Proof.
  intros Hsp Hv. destruct Hsp as (Hw & Hst & _).
  pose proof (stitched_write floors bytes w FRAME_BYTES v Hst Hv Hw) as Hwr.
  rewrite take_ge in Hwr by (by rewrite length_encode).
  split; [lia|]. split; [by apply stitched_set_len|]. right.
  replace (1 - (1 - w)) with w by lia. apply read_frame_set_len; [|done]. apply read_frame_written.
Qed.

(** * A save on the disk *)

Context (p dir : PathBuf) (Hdir : parent p = Some dir) (Hnamed : dir ≠ Path false []).
Context (floors : list u64).

Lemma outcomes_recovers best (fresh : bool) b ops :
  (fresh = true → best = zero) → (∀ j, recovers floors best (Some (apply_ops b (take j ops)))) →
  ∀ c, outcomes b ops fresh c → recovers floors best c.
Proof. intros Hf Hall c [[Hfresh ->]|[j ->]]; [by apply Hf|apply Hall]. Qed.

Lemma put_frame_spec f i pos b fresh best w v s :
  opened p f i pos b [] fresh s → spares floors best w (Some b) → (fresh = true → best = zero) →
  v ∈ floors →
  io_spec p (recovers floors best) (put_frame f (encode v) w)
    (λ s' f', ∃ pos', opened p f' i pos' (apply_ops b
       [DataOp.Write (w * FRAME_BYTES) (encode v); DataOp.SetLen FILE_BYTES]) [] fresh s') s.
Proof.
  intros Ho Hsp Hfresh Hv.
  assert (recovers floors best (Some b)) as H0 by (by apply (spares_recovers _ _ w)).
  assert (∀ k, spares floors best w
    (Some (apply_data_op b (DataOp.Write (w * FRAME_BYTES) (take k (encode v)))))) as Htorn
    by (intros; by apply spares_torn).
  assert (spares floors best w (Some (apply_data_op b (DataOp.Write (w * FRAME_BYTES) (encode v)))))
    as Hw by (rewrite <-(take_ge (encode v) (length (encode v))) by lia; apply Htorn).
  apply io_spec_bind. eapply (file_seek_spec _ _ _ _ _ _ _ _ _ (w * FRAME_BYTES)); [done| | |done|].
  { apply outcomes_recovers; [done|]. intros j. by rewrite take_nil. }
  { destruct Hsp as [Hlt _]. unfold u64_end. frame_lia. }
  intros s1 Ho1. apply io_spec_bind. eapply write_all_spec; [done| | | |].
  { intros Hnil. pose proof (length_encode v) as Hlen. by rewrite Hnil in Hlen. }
  { apply outcomes_recovers; [done|]. intros j. by rewrite take_nil. }
  { intros k. by apply (spares_recovers _ _ w), Htorn. }
  intros s2 f2 Ho2. apply io_spec_bind. eapply file_set_len_spec; [done| |].
  { apply outcomes_recovers; [done|]. intros [|j]; [done|]. simpl. rewrite take_nil. simpl.
    by apply (spares_recovers _ _ w). }
  intros s3 Ho3. apply io_spec_bind. eapply file_sync_data_spec; [done| |].
  { apply outcomes_recovers; [done|]. intros [|[|j]]; [done| |]; simpl; rewrite ?take_nil; simpl.
    - by apply (spares_recovers _ _ w).
    - by apply (spares_recovers _ _ w), spares_set_len. }
  intros s4 Ho4. apply io_spec_ret. by eexists.
Qed.

(** The object during a life: its file is settled, or open with nothing pending. *)
Record rep (self : t) (c : option (list u8)) (s : SimState.t) : Prop := {
  rep_path : path self = p;
  rep_live : poisoned self = false;
  rep_up : SimState.crashed s = false;
  rep_spares : spares floors (last_persisted self) (write_slot self) c;
  rep_file :
    match file self with
    | None => settled p c s ∧ parent_synced self = false
    | Some f => ∃ i pos b, c = Some b ∧ opened p f i pos b [] false s ∧ parent_synced self = true
    end;
}.

(** The handle a save works on, opened by the first one. *)
Lemma open_file_spec self c s :
  rep self c s →
  io_spec p (recovers floors (last_persisted self)) (open_file self)
    (λ s' f, ∃ i pos b fresh,
       opened p f i pos b [] fresh s' ∧
       spares floors (last_persisted self) (write_slot self) (Some b) ∧
       (fresh = true → last_persisted self = zero) ∧
       (parent_synced self = true → fresh = false)) s.
Proof.
  intros [Hp Hlive Hup Hsp Hfile]. unfold open_file. rewrite Hp. destruct (file self) as [f|].
  - destruct Hfile as (i & pos & b & -> & Ho & Hs). apply io_spec_ret.
    exists i, pos, b, false. by split_and!.
  - destruct Hfile as [Hset Hs]. apply map_err_spec. destruct c as [b|].
    + destruct Hset as [i Hf]. eapply open_existing_spec; [done|done|set_solver| |].
      * apply outcomes_recovers; [done|]. intros j. rewrite take_nil.
        by apply (spares_recovers _ _ (write_slot self)).
      * intros s' f Ho. exists i, 0, b, false. by split_and!.
    + eapply open_absent_spec; [done|done|set_solver|by apply Hsp|].
      intros s' f i Ho. exists i, 0, [], true. destruct Hsp as [Hw Hz].
      split_and!; [done| |done|congruence]. split; [done|]. split; [apply stitched_empty|by left].
Qed.

(** The frame write: the object afterwards, and the floor it left on the disk. *)
Lemma write_frame_spec {E} self c v s :
  rep self c s → v ∈ floors →
  io_wp (write_frame (E := E) self (encode v) (write_slot self))
    (λ s' r, ∃ self' res, r = Ok (self', res) ∧
       match res with
       | Ok _ => ∃ c', rep (set_persisted v (1 - write_slot self') self') c' s' ∧
           write_slot self' = write_slot self
       | Err _ => leaves p (recovers floors (last_persisted self)) s'
       end) s.
Proof.
  intros Hrep Hv. unfold write_frame. set (C := recovers floors (last_persisted self)).
  pose proof (rep_path _ _ _ Hrep) as Hp. pose proof (rep_live _ _ _ Hrep) as Hlive.
  eapply attempt_wp; [by apply (open_file_spec self c)| |by intros s' e Hl; exists self, (Err e)].
  intros s1 f (i & pos & b & fresh & Ho & Hspb & Hfresh & Hsynced). simpl.
  eapply attempt_wp; [by apply map_err_spec; eapply put_frame_spec| |by intros s' e Hl; eexists _, (Err e)].
  intros s2 f2 [pos2 Ho2]. set (b2 := apply_ops b _) in *.
  assert (∀ s', opened p f2 i pos2 b2 [] false s' → ∀ synced, synced = true →
    ∃ c', rep (set_persisted v (1 - write_slot self)
      (set_parent_synced synced (set_file (Some f2) self))) c' s') as Hdone.
  { intros s' Ho' synced ->. exists (Some b2). split; simpl; [done|done|apply Ho'| |by exists i, pos2, b2].
    by apply (spares_saved _ (last_persisted self)). }
  destruct (parent_synced self) eqn:Hps.
  { rewrite (Hsynced eq_refl) in Ho2. destruct (Hdone s2 Ho2 true eq_refl) as [c' Hrep'].
    eexists _, (Ok tt). split; [done|]. exists c'. split; [|done]. simpl.
    by destruct self; simpl in *; subst. }
  rewrite Hp. eapply attempt_wp; [|
    |by intros s' e Hl; eexists _, (Err e)].
  { unfold sync_parent. rewrite Hdir, decide_False by done.
    apply map_err_spec, (sync_dir_spec p f2 i pos2 b2 [] fresh C _ (λ s' _, opened p f2 i pos2 b2 [] false s'));
      [done| |done|done].
    apply outcomes_recovers; [done|]. intros j. rewrite take_nil.
    apply (spares_recovers _ _ (write_slot self)), spares_set_len.
    rewrite <-(take_ge (encode v) (length (encode v))) by lia. by apply spares_torn. }
  intros s3 [] Ho3. destruct (Hdone s3 Ho3 true eq_refl) as [c' Hrep'].
  eexists _, (Ok tt). split; [done|]. by exists c'.
Qed.

Lemma save_spec {E} self c v s :
  rep self c s → v ∈ floors →
  io_wp (save (E := E) self v)
    (λ s' r, ∃ self' res, r = Ok (self', res) ∧
       match res with
       | Ok _ => (∃ c', rep self' c' s') ∧ last_persisted self' = v ∧
           (ival (last_persisted self) <= ival v)%Z
       | Err _ =>
           (∃ c', rep self' c' s') ∧ last_persisted self' = last_persisted self ∨
           poisoned self' = true ∧ leaves p (recovers floors (last_persisted self)) s'
       end) s.
Proof.
  intros Hrep Hv. unfold save. rewrite (rep_live _ _ _ Hrep).
  case_decide as Hlt; [eexists _, (Err _); split; [done|]; left; eauto|].
  case_decide as Heq.
  { eexists _, (Ok tt). split; [done|]. split_and!; [by eauto|done|by subst]. }
  apply io_wp_bind. eapply io_wp_mono; [|by apply (write_frame_spec self c v s)].
  intros s' r (self' & [[]|e] & -> & Hres).
  - destruct Hres as (c' & Hrep' & Hslot). eexists _, (Ok tt). split; [done|].
    split_and!; [by exists c'|done|lia].
  - eexists _, (Err e). split; [done|]. by right.
Qed.

(** * Lives *)

(** The object and the disk during a life that can still promise [best]. *)
Definition promises (self : t) (s : SimState.t) (best : u64) : Prop :=
  (∃ c, rep self c s) ∧ last_persisted self = best ∨
  poisoned self = true ∧ leaves p (recovers floors best) s.

Lemma rep_leaves self c s : rep self c s → leaves p (recovers floors (last_persisted self)) s.
Proof.
  intros [Hp Hlive Hup Hsp Hfile]. pose proof (spares_recovers _ _ _ _ Hsp) as Hrec.
  destruct (file self) as [f|].
  - destruct Hfile as (i & pos & b & -> & Ho & _). eapply opened_leaves; [done|].
    apply outcomes_recovers; [done|]. intros j. by rewrite take_nil.
  - destruct Hfile as [Hs _]. by apply (settled_leaves p c).
Qed.

Lemma promises_leaves self s best : promises self s best → leaves p (recovers floors best) s.
Proof. intros [[[c Hrep] <-]|[_ Hl]]; [by apply (rep_leaves self c)|done]. Qed.
End floor.

(** Save each floor in turn, whatever became of the ones before; the acknowledged ones. *)
Fixpoint run_saves {E} `{!Blake3Hash} (self : t) (requests : list u64) : SimE E (t * list u64) :=
  match requests with
  | [] => mret (self, [])
  | v :: requests =>
      '(self, r) ← save self v;
      '(self, acks) ← run_saves self requests;
      mret (self, if is_ok r then v :: acks else acks)
  end.

(** One life: what is planned to go wrong, the floors to save, and how much of the
    pending state reaches the disk when the power goes. *)
Record life := mkLife { life_plan : FaultPlan.t; life_requests : list u64; life_prefix : nat }.

Definition run_life `{!Blake3Hash} (p : PathBuf) (l : life) (s : SimState.t)
    : option (SimState.t * list u64) :=
  match open_in (E := Empty_set) p (boot FaultPlan.NoFault s) with
  | Some (s, Ok self) =>
      match run_saves (E := Empty_set) self (life_requests l)
              (SimStorage.set_fault (life_plan l) s) with
      | Some (s, Ok (_, acks)) => s ← power_off (life_prefix l) s; Some (s, acks)
      | _ => None
      end
  | _ => None
  end.

Fixpoint run_lives `{!Blake3Hash} (p : PathBuf) (lives : list life) (s : SimState.t)
    : option (SimState.t * list u64) :=
  match lives with
  | [] => Some (s, [])
  | l :: lives =>
      '(s, acks) ← run_life p l s;
      '(s, acks') ← run_lives p lives s;
      Some (s, acks ++ acks')
  end.

Section lives.
Context `{!Blake3Hash}.
Context (p dir : PathBuf) (Hdir : parent p = Some dir) (Hnamed : dir ≠ Path false []).
Context (floors : list u64).

Lemma run_saves_spec {E} requests self best s :
  promises p floors self s best → requests ⊆ floors →
  io_wp (run_saves (E := E) self requests)
    (λ s' r, ∃ self' acks best', r = Ok (self', acks) ∧ promises p floors self' s' best' ∧
       (ival best <= ival best')%Z ∧ ∀ v, v ∈ acks → (ival v <= ival best')%Z) s.
Proof.
  revert self best s. induction requests as [|v requests IH]; intros self best s Hpr Hsub.
  { exists self, [], best. split_and!; [done|done|lia|]. by intros v ?%elem_of_nil. }
  assert (v ∈ floors) as Hv by set_solver. assert (requests ⊆ floors) as Hsub' by set_solver.
  assert (io_wp (save (E := E) self v) (λ s' r, ∃ self' res best', r = Ok (self', res) ∧
    promises p floors self' s' best' ∧ (ival best <= ival best')%Z ∧
    (is_ok res = true → (ival v <= ival best')%Z)) s) as Hsave.
  { destruct Hpr as [[[c Hrep] <-]|[Hpo Hl]].
    - eapply io_wp_mono; [|by apply (save_spec p dir Hdir Hnamed floors self c v s)].
      intros s' r (self' & [[]|e] & -> & Hres).
      + destruct Hres as ([c' Hrep'] & Hlast & Hle). exists self', (Ok tt), v.
        split_and!; [done|left; split; [by eauto|done]|done|done].
      + exists self', (Err e), (last_persisted self). split_and!; [done| |done|done].
        destruct Hres as [?|?]; [by left|by right].
    - unfold save. rewrite Hpo. eexists self, (Err _), best. by split_and!; [|right| |]. }
  simpl. apply io_wp_bind. eapply io_wp_mono; [|exact Hsave].
  intros s1 r (self1 & res & best1 & -> & Hpr1 & Hle1 & Hack). apply io_wp_bind.
  eapply io_wp_mono; [|by apply (IH self1 best1 s1)].
  intros s2 r (self2 & acks & best2 & -> & Hpr2 & Hle2 & Hacks).
  eexists self2, _, best2. split_and!; [done|done|lia|].
  destruct (is_ok res); [|done]. intros u [->|Hu]%elem_of_cons; [specialize (Hack eq_refl); lia|by apply Hacks].
Qed.

(** The frame the read takes is the highest readable one. *)
Lemma best_frame_spec bytes :
  match best_frame bytes with
  | Some (v, slot) => slot < 2 ∧ read_frame bytes slot = Some v ∧
      ∀ slot' u, slot' < 2 → read_frame bytes slot' = Some u → (ival u <= ival v)%Z
  | None => ∀ slot, slot < 2 → read_frame bytes slot = None
  end.
Proof.
  assert (∀ slot, slot < 2 → slot = 0 ∨ slot = 1) as Htwo by lia. unfold best_frame. simpl.
  destruct (read_frame bytes 0) as [a|] eqn:Ha, (read_frame bytes 1) as [b|] eqn:Hb; simpl;
    [case_decide as Hc; simpl in Hc| | |]; split_and?; try done; try lia.
  all: intros slot.
  - intros u [->| ->]%Htwo Hu; simplify_eq; [lia|]. destruct Hc as [?|[-> ?]]; lia.
  - intros u [->| ->]%Htwo Hu; simplify_eq; [|lia]. apply Decidable.not_or in Hc as [Hc _]. lia.
  - intros u [->| ->]%Htwo Hu; simplify_eq; lia.
  - intros u [->| ->]%Htwo Hu; simplify_eq; lia.
  - by intros [->| ->]%Htwo.
Qed.

(** Opening after a reboot recovers at least what was promised. *)
Lemma open_in_spec {E} c best s :
  detects_tears floors → settled p c s → recovers floors best c →
  ∃ s' self, open_in (E := E) p (boot FaultPlan.NoFault s) = Some (s', Ok self) ∧ rep p floors self c s' ∧
    (ival best <= ival (last_persisted self))%Z ∧
    (last_persisted self = zero ∨ last_persisted self ∈ floors).
Proof.
  intros Hdet Hs Hrec. assert (settled_up p c (boot FaultPlan.NoFault s)) as Hup.
  { split_and!; [by apply (settled_same p c s)|done|done]. }
  unfold open_in, read_floor, attempt, mbind, sim_bind. rewrite (exists_nofault p c) by done. simpl.
  destruct c as [bytes|]; simpl.
  2: { unfold recovers in Hrec. subst best. eexists _, _. split; [done|]. split_and!; [|done|by left].
       split; simpl; try done. - by split; [lia|]. - split; [|done]. by apply (settled_same p None s). }
  pose proof (settled_up_count p _ Exists p 0 _ Hup) as Hup1.
  rewrite (read_nofault p bytes) by done. cbn [option_bind mbind fst snd]. destruct Hrec as [Hst Hbest].
  pose proof (best_frame_spec bytes) as Hframe.
  destruct (best_frame bytes) as [[v slot]|]; simpl.
  - destruct Hframe as (Hslot & Hread & Hmax). eexists _, _. split; [done|]. split_and!; simpl.
    + split; simpl; try done; [|split; [|done]; by apply (settled_same p (Some bytes) s)].
      split; [lia|]. split; [done|]. right. by replace (1 - (1 - slot)) with slot by lia.
    + destruct Hbest as [->|(slot' & Hlt & Hr)]; [|by apply (Hmax slot')].
      rewrite ival_zero. pose proof (u64_bounds v). lia.
    + right. by apply (frame_requested floors bytes slot).
  - eexists _, _. split; [done|]. split_and!; simpl; [| |by left].
    + split; simpl; try done; [|split; [|done]; by apply (settled_same p (Some bytes) s)].
      split; [lia|]. split; [done|by left].
    + destruct Hbest as [->|(slot' & Hlt & Hr)]; [done|]. by rewrite Hframe in Hr.
Qed.

(** One life ends with the file settled, holding the best floor promised. *)
Lemma run_life_spec l c best s :
  detects_tears floors → settled p c s → recovers floors best c → life_requests l ⊆ floors →
  ∃ s' acks c' best', run_life p l s = Some (s', acks) ∧ settled p c' s' ∧
    recovers floors best' c' ∧ (ival best <= ival best')%Z ∧
    ∀ v, v ∈ acks → (ival v <= ival best')%Z.
Proof.
  intros Hdet Hs Hrec Hsub.
  destruct (open_in_spec (E := Empty_set) c best s Hdet Hs Hrec) as (s1 & self & Hopen & Hrep & Hle & _).
  unfold run_life. rewrite Hopen.
  assert (promises p floors self (SimStorage.set_fault (life_plan l) s1) (last_persisted self)) as Hpr.
  { left. split; [|done]. exists c. destruct Hrep as [? ? ? ? Hf]. split; try done.
    destruct (file self); [|destruct Hf; split; [by apply (settled_same p c s1)|done]].
    destruct Hf as (i & pos & b & ? & ? & ?). exists i, pos, b. split_and!; [done| |done].
    by apply (opened_same _ _ _ _ _ _ _ s1). }
  pose proof (run_saves_spec (E := Empty_set) (life_requests l) self _ _ Hpr Hsub) as Hrun.
  unfold io_wp in Hrun. destruct (run_saves self (life_requests l) _) as [[s2 r]|]; [|done].
  destruct Hrun as (self' & acks & best' & -> & Hpr' & Hle' & Hacks).
  apply promises_leaves in Hpr'.
  destruct (power_off_spec p _ (life_prefix l) s2 Hpr') as (s3 & c' & -> & Hs' & Hrec').
  exists s3, acks, c', best'. split_and!; [done|done|done|lia|done].
Qed.

Lemma run_lives_spec ls c best s :
  detects_tears floors → settled p c s → recovers floors best c →
  (∀ l, l ∈ ls → life_requests l ⊆ floors) →
  ∃ s' acks c' best', run_lives p ls s = Some (s', acks) ∧ settled p c' s' ∧
    recovers floors best' c' ∧ (ival best <= ival best')%Z ∧
    ∀ v, v ∈ acks → (ival v <= ival best')%Z.
Proof.
  intros Hdet. revert c best s. induction ls as [|l ls IH]; intros c best s Hs Hrec Hsub.
  { exists s, [], c, best. split_and!; [done|done|done|lia|]. by intros v ?%elem_of_nil. }
  destruct (run_life_spec l c best s) as (s1 & acks & c1 & best1 & Hrun & Hs1 & Hrec1 & Hle1 & Ha1);
    [done|done|done|apply Hsub; by left|].
  destruct (IH c1 best1 s1) as (s2 & acks2 & c2 & best2 & Hrun2 & Hs2 & Hrec2 & Hle2 & Ha2);
    [done|done|intros; apply Hsub; by right|].
  exists s2, (acks ++ acks2), c2, best2. simpl. rewrite Hrun. simpl. rewrite Hrun2. simpl.
  split_and!; [done|done|done|lia|]. intros v [Hv|Hv]%elem_of_app; [|by apply Ha2].
  specialize (Ha1 v Hv). lia.
Qed.
End lives.

