(* ===== verification/FencingEpochs.v ===== *)
(** The fencing-epoch journal of a range replica (crates/vtop-broker/src/fencing_epochs.rs):
    which epoch wrote each stretch of the log, how two replicas' histories compare, and the
    operations that keep the history on disk.

    The theorems here are about the histories themselves.  Comparison finds exactly the
    least offset the two replicas attribute to different epochs; canonicalisation changes
    no attribution; clamped histories are equal exactly when every retained record is
    attributed alike; truncation keeps the attribution of what survives. *)

From stdpp Require Import gmap strings list pretty sorting.
From Stdlib Require Import ZArith Lia.
From S2P Require Import Prelude Wire Storage.

Module EpochStart.
Record t := mk { epoch : u64; start_offset : u64 }.
#[global] Instance t_eq_dec : EqDecision t.
Proof. solve_decision. Defined.
End EpochStart.
Import EpochStart.

Module FencingEpochJournal.

Definition MAGIC : list u8 := as_bytes "VTOPFNC1".
Definition VERSION : u16 := wrap_int U16 1.
Definition HEADER_BYTES : nat := 10.
Definition ENTRY_BYTES : nat := 16.
(** [vtop_protocol::MAX_REPLICA_EPOCH_STARTS] *)
Definition MAX_ENTRIES : nat := Z.to_nat 4096.

(** What comparing two histories established. *)
Inductive Lineage := Agreed | DivergesAt (offset : u64) | Unknown.

(** * Attribution *)

(** The last entry that began at or below the offset. *)
Definition owner (entries : list EpochStart.t) (offset : u64) : option EpochStart.t :=
  find (λ entry, bool_decide (ival (start_offset entry) <= ival offset)) (reverse entries).

Definition epoch_owning (entries : list EpochStart.t) (offset : u64) : option u64 :=
  epoch <$> owner entries offset.

Definition end_of_epoch (entries : list EpochStart.t) (e : u64) : option u64 :=
  '(index, _) ← list_find (λ entry, epoch entry = e) entries;
  start_offset <$> entries !! S index.

(** Push an entry, replacing the last one when both start at the same offset. *)
Definition push_canonical (canonical : list EpochStart.t) (entry : EpochStart.t)
    : list EpochStart.t :=
  match last canonical with
  | Some l =>
      if decide (start_offset l = start_offset entry) then removelast canonical ++ [entry]
      else canonical ++ [entry]
  | None => canonical ++ [entry]
  end.

Definition canonicalize_lineage (entries : list EpochStart.t) : list EpochStart.t :=
  foldl push_canonical [] entries.

Definition clamp_lineage (entries : list EpochStart.t) (base tail : u64) : list EpochStart.t :=
  if decide (ival tail <= ival base) then []
  else
    match owner entries base with
    | None => []
    | Some own =>
        foldl push_canonical [mk (epoch own) base]
          (filter (λ entry, ival base < ival (start_offset entry) < ival tail) entries)
    end.

(** The walk over both canonical histories; [compared] says whether any pair was equal. *)
Fixpoint compare_walk (mine theirs : list EpochStart.t) (compared : bool) : Lineage :=
  match mine, theirs with
  | m :: mine, t :: theirs =>
      if decide (epoch m ≠ epoch t ∨ start_offset m ≠ start_offset t) then
        DivergesAt (if decide (ival (start_offset t) < ival (start_offset m))
                    then start_offset t else start_offset m)
      else compare_walk mine theirs true
  | _, _ => if compared then Agreed else Unknown
  end.

Definition compare_lineage (entries other : list EpochStart.t) : Lineage :=
  compare_walk (canonicalize_lineage entries) (canonicalize_lineage other) false.

(** * The journal *)

Record t := mk {
  path : PathBuf;
  file : SimFile.t;
  entries : list EpochStart.t;
  poisoned : bool;
}.

Definition corrupt (message : string) : BrokerError :=
  EpochJournalCorrupt ("fencing-epoch journal: " +:+ message).

Definition show_nat (n : nat) : string := pretty (N.of_nat n).
Definition show_u64 (n : u64) : string := pretty (ival n).

Definition sync_parent (path : PathBuf) : SimE BrokerError unit :=
  match parent path with
  | None => mret tt
  | Some dir =>
      let dir := if decide (dir = Path false []) then current_dir else dir in
      map_err (Io dir) (SimStorage.sync_dir dir)
  end.

Definition encode_entry (entry : EpochStart.t) : list u8 :=
  to_be_bytes (epoch entry) ++ to_be_bytes (start_offset entry).

Definition advances (previous entry : EpochStart.t) : Prop :=
  ival (epoch previous) < ival (epoch entry) ∧
  ival (start_offset previous) <= ival (start_offset entry).
#[global] Instance advances_dec : RelDecision advances.
Proof. intros ??. unfold advances. apply _. Defined.

(** The loop over the whole entries of the file; an entry that does not advance on the
    one before it was not written by this code. *)
Fixpoint decode_entries (count : nat) (index : nat) (body : list u8)
    (read : list EpochStart.t) : result BrokerError (list EpochStart.t) :=
  match count with
  | O => Ok read
  | S count =>
      let entry := EpochStart.mk (from_be_bytes U64 (take 8 body))
                     (from_be_bytes U64 (take 8 (drop 8 body))) in
      match last read with
      | Some previous =>
          if decide (advances previous entry)
          then decode_entries count (S index) (drop ENTRY_BYTES body) (read ++ [entry])
          else Err (corrupt ("entry " +:+ show_nat index +:+ " (epoch " +:+ show_u64 (epoch entry)
                 +:+ ", start " +:+ show_u64 (start_offset entry) +:+ ") does not advance on (epoch "
                 +:+ show_u64 (epoch previous) +:+ ", start " +:+ show_u64 (start_offset previous)
                 +:+ ")"))
      | None => decode_entries count (S index) (drop ENTRY_BYTES body) (read ++ [entry])
      end
  end.

Definition lift {A} (r : result BrokerError A) : SimE BrokerError A := λ s, Some (s, r).

(** A new file gets its header, made durable with its directory entry. *)
Definition create_header (path : PathBuf) (f : SimFile.t) : SimE BrokerError SimFile.t :=
  f ← map_err (Io path)
        (f ← write_all f MAGIC;
         f ← write_all f (to_be_bytes VERSION);
         file_sync_data f;;
         mret f);
  sync_parent path;;
  mret f.

(** A torn tail is removed from the file, not only from memory. *)
Definition drop_fragment (path : PathBuf) (f : SimFile.t) (valid_bytes len : nat)
    : SimE BrokerError unit :=
  if decide (valid_bytes ≠ len)
  then map_err (Io path) (file_set_len f valid_bytes;; file_sync_data f)
  else mret tt.

Definition open_in (path : PathBuf) : SimE BrokerError t :=
  f ← map_err (Io path) (SimStorage.open path CreateAppend);
  len ← map_err (Io path) (file_len f);
  if decide (len = 0)%nat then
    f ← create_header path f;
    mret (mk path f [] false)
  else if decide (len < HEADER_BYTES)%nat then
    sim_fail (corrupt ("journal is " +:+ show_nat len +:+ " bytes, shorter than its "
      +:+ show_nat HEADER_BYTES +:+ "-byte header"))
  else
    let max_bytes := (HEADER_BYTES + MAX_ENTRIES * ENTRY_BYTES)%nat in
    if decide (max_bytes < len)%nat then
      sim_fail (corrupt ("journal is " +:+ show_nat len +:+ " bytes; the bound for "
        +:+ show_nat MAX_ENTRIES +:+ " epochs is " +:+ show_nat max_bytes))
    else
      '(bytes, f) ← map_err (Io path)
        ('(_, f) ← file_seek f (SeekStart 0); read_exact f len);
      if decide (take 8 bytes ≠ MAGIC) then sim_fail (corrupt "bad magic")
      else
        let version := from_be_bytes U16 (take 2 (drop 8 bytes)) in
        if decide (version ≠ VERSION) then
          sim_fail (corrupt ("unsupported version " +:+ pretty (ival version)))
        else
          let body := drop HEADER_BYTES bytes in
          let whole := (length body / ENTRY_BYTES)%nat in
          entries ← lift (decode_entries whole 0 body []);
          let valid_bytes := (HEADER_BYTES + whole * ENTRY_BYTES)%nat in
          drop_fragment path f valid_bytes len;;
          '(_, f) ← map_err (Io path) (file_seek f (SeekEnd 0));
          mret (mk path f entries false).

Definition poison_message (what : string) : BrokerError :=
  corrupt ("a previous append failed; this journal may hold a partial record and must be reopened before it is "
    +:+ what).

(** The object after a failed append keeps its handle; its position no longer matters,
    since a poisoned journal refuses every further write. *)
Definition poison (self : t) : t := mk (path self) (file self) (entries self) true.

(** Append one entry and make it durable. *)
Definition append_entry {E} (self : t) (entry : EpochStart.t) : SimE E (t * result BrokerError unit) :=
  r ← attempt (f ← write_all (file self) (encode_entry entry); file_sync_data f;; mret f);
  match r with
  | Err source => mret (poison self, Err (Io (path self) source))
  | Ok f => mret (mk (path self) f (entries self ++ [entry]) (poisoned self), Ok tt)
  end.

Definition record {E} (self : t) (e start : u64) : SimE E (t * result BrokerError unit) :=
  if poisoned self then mret (self, Err (poison_message "written again"))
  else
    let entry := EpochStart.mk e start in
    let append :=
      if decide (MAX_ENTRIES <= length (entries self))%nat then
        mret (self, Err (corrupt ("journal holds " +:+ show_nat MAX_ENTRIES
          +:+ " epochs; a range changing leadership this often needs an operator, not a larger file")))
      else append_entry self entry in
    match last (entries self) with
    | Some l =>
        if decide (e = epoch l) then
          if decide (start ≠ start_offset l) then
            mret (self, Err (corrupt ("epoch " +:+ show_u64 e +:+ " already starts at "
              +:+ show_u64 (start_offset l) +:+ " on this replica; refusing to re-record it at "
              +:+ show_u64 start)))
          else mret (self, Ok tt)
        else if decide (ival e < ival (epoch l)) then mret (self, Ok tt)
        else if decide (ival start < ival (start_offset l)) then
          mret (self, Err (corrupt ("epoch " +:+ show_u64 e +:+ " would start at "
            +:+ show_u64 start +:+ ", below epoch " +:+ show_u64 (epoch l) +:+ "'s start "
            +:+ show_u64 (start_offset l))))
        else append
    | None => append
    end.

Definition record_adoption {E} (self : t) (e start : u64) : SimE E (t * result BrokerError unit) :=
  if existsb (λ entry, bool_decide (epoch entry = e)) (entries self) then mret (self, Ok tt)
  else if decide (entries self = [] ∧ 0 < ival start) then mret (self, Ok tt)
  else record self e start.

(** The entries that begin below the cut: a prefix of the file. *)
Fixpoint take_below (offset : u64) (entries : list EpochStart.t) : list EpochStart.t :=
  match entries with
  | [] => []
  | entry :: rest =>
      if decide (ival (start_offset entry) < ival offset) then entry :: take_below offset rest
      else []
  end.

Definition truncate_to {E} (self : t) (offset : u64) : SimE E (t * result BrokerError nat) :=
  if poisoned self then mret (self, Err (poison_message "rewritten"))
  else
    let keep := length (take_below offset (entries self)) in
    let dropped := (length (entries self) - keep)%nat in
    if decide (dropped = 0)%nat then mret (self, Ok 0%nat)
    else
      let new_len := (HEADER_BYTES + keep * ENTRY_BYTES)%nat in
      r ← attempt (file_set_len (file self) new_len;;
                   file_sync_data (file self);;
                   '(_, f) ← file_seek (file self) (SeekStart new_len);
                   mret f);
      match r with
      | Err source => mret (poison self, Err (Io (path self) source))
      | Ok f => mret (mk (path self) f (take keep (entries self)) (poisoned self), Ok dropped)
      end.

Definition record_held_epoch_at {E} (self : t) (e offset : u64)
    : SimE E (t * result BrokerError unit) :=
  if decide (e = zero) then mret (self, Ok tt)
  else
    match last (entries self) with
    | Some l =>
        if decide (ival e <= ival (epoch l)) then mret (self, Ok tt) else record self e offset
    | None => record self e offset
    end.

(** * Installing a transferred history *)

Fixpoint take_through (tail : u64) (entries : list EpochStart.t) : list EpochStart.t :=
  match entries with
  | [] => []
  | entry :: rest =>
      if decide (ival (start_offset entry) <= ival tail) then entry :: take_through tail rest
      else []
  end.

Fixpoint record_all (self : t) (incoming : list EpochStart.t) : SimE BrokerError t :=
  match incoming with
  | [] => mret self
  | entry :: incoming =>
      '(self, r) ← record self (epoch entry) (start_offset entry);
      lift r;;
      record_all self incoming
  end.

Definition first_mismatch (existing incoming : list EpochStart.t)
    : option (EpochStart.t * EpochStart.t) :=
  find (λ pair, negb (bool_decide (pair.1 = pair.2))) (zip existing incoming).

Definition install_transferred_history (path : PathBuf) (source : list EpochStart.t) (tail : u64)
    : SimE BrokerError nat :=
  let incoming := take_through tail source in
  journal ← open_in path;
  let existing := entries journal in
  if decide (length incoming < length existing)%nat then
    sim_fail (corrupt (show_nat (length existing) +:+ " entries already installed but the source offers only "
      +:+ show_nat (length incoming)
      +:+ " within the sealed prefix; this directory was repaired from a different history — delete it and repair from scratch"))
  else
    match first_mismatch existing incoming with
    | Some (have, want) =>
        sim_fail (corrupt ("epoch " +:+ show_u64 (epoch have) +:+ " already installed starting at "
          +:+ show_u64 (start_offset have) +:+ ", but the source says epoch " +:+ show_u64 (epoch want)
          +:+ " starts at " +:+ show_u64 (start_offset want)
          +:+ "; a resumed repair may not mix two sources' lineages — delete the directory and repair from scratch"))
    | None =>
        record_all journal (drop (length existing) incoming);;
        mret (length incoming)
    end.
End FencingEpochJournal.
Import FencingEpochJournal.

(** * Attribution *)

(** The histories a journal holds: epochs strictly increase, starts never decrease. *)
Definition advancing : list EpochStart.t → Prop := StronglySorted advances.

(** Canonical histories: starts strictly increase as well. *)
Definition advances_strictly (previous entry : EpochStart.t) : Prop :=
  ival (epoch previous) < ival (epoch entry) ∧
  ival (start_offset previous) < ival (start_offset entry).

Lemma owner_nil o : owner [] o = None.
Proof. done. Qed.

Lemma owner_snoc es e o :
  owner (es ++ [e]) o = if decide (ival (start_offset e) <= ival o) then Some e else owner es o.
Proof. unfold owner. rewrite reverse_snoc. simpl. by repeat case_decide. Qed.

Lemma owner_app l k o :
  owner (l ++ k) o = match owner k o with Some e => Some e | None => owner l o end.
Proof.
  induction k as [|e k IH] using rev_ind; [by rewrite app_nil_r, owner_nil|].
  rewrite app_assoc, !owner_snoc. by case_decide.
Qed.

Lemma owner_above l o : Forall (λ e, ival o < ival (start_offset e)) l → owner l o = None.
Proof.
  induction l as [|e l IH] using rev_ind; [done|]. rewrite Forall_app, Forall_singleton.
  intros [Hl He]. rewrite owner_snoc, decide_False by lia. by apply IH.
Qed.

Lemma owner_Some l o e : owner l o = Some e → e ∈ l ∧ ival (start_offset e) <= ival o.
Proof.
  induction l as [|x l IH] using rev_ind; [done|]. rewrite owner_snoc, elem_of_app, list_elem_of_singleton.
  case_decide; [intros [= ->]; auto|]. intros [? ?]%IH. auto.
Qed.

(** Canonicalisation never changes who owns an offset. *)
Lemma owner_push acc e o : owner (push_canonical acc e) o = owner (acc ++ [e]) o.
Proof.
  unfold push_canonical. destruct (last acc) as [l|] eqn:Hl; [|done]. case_decide as Hs; [|done].
  apply last_Some in Hl as [acc' ->]. rewrite removelast_last, !owner_snoc, Hs. by case_decide.
Qed.

Lemma owner_fold_push l acc o : owner (foldl push_canonical acc l) o = owner (acc ++ l) o.
Proof.
  revert acc. induction l as [|e l IH]; intros acc; simpl; [by rewrite app_nil_r|].
  by rewrite IH, owner_app, owner_push, <-owner_app, <-app_assoc.
Qed.

Lemma owner_canonicalize es o : owner (canonicalize_lineage es) o = owner es o.
Proof. apply owner_fold_push. Qed.

(** * Canonical histories *)

Lemma strict_snoc l e :
  StronglySorted advances_strictly (l ++ [e]) ↔
  StronglySorted advances_strictly l ∧ Forall (λ x, advances_strictly x e) l.
Proof.
  split.
  - intros H. split; [by apply StronglySorted_app_1_l in H|].
    apply Forall_forall. intros x Hx. apply (StronglySorted_app_1_elem_of _ l [e]); [done|done|by left].
  - intros [Hl He]. apply StronglySorted_app_2; [|done|repeat constructor].
    intros x y Hx ->%list_elem_of_singleton. rewrite Forall_forall in He. by apply He.
Qed.

(** Pushing an entry that advances on every entry so far keeps the history strict. *)
Lemma push_strict acc e :
  StronglySorted advances_strictly acc → Forall (λ x, advances x e) acc →
  StronglySorted advances_strictly (push_canonical acc e).
Proof.
  intros Hs He. unfold push_canonical. destruct (last acc) as [l|] eqn:Hl.
  2: { apply last_None in Hl as ->. repeat constructor. }
  apply last_Some in Hl as [acc' ->]. rewrite Forall_app, Forall_singleton in He.
  destruct He as [He Hle]. pose proof Hs as [Hs' Hacc]%strict_snoc. case_decide as Heq.
  - rewrite removelast_last. apply strict_snoc. split; [done|]. rewrite Forall_forall in *.
    intros x Hx. specialize (Hacc x Hx). specialize (He x Hx). unfold advances, advances_strictly in *.
    rewrite <-Heq. lia.
  - apply strict_snoc. split; [done|]. apply Forall_app. rewrite Forall_singleton.
    assert (advances_strictly l e) as Hstep.
    { apply int_neq in Heq. unfold advances, advances_strictly in *. lia. }
    split; [|done]. rewrite Forall_forall in *. intros x Hx. specialize (Hacc x Hx).
    unfold advances_strictly in *. lia.
Qed.

Lemma push_from acc e x : x ∈ push_canonical acc e → x ∈ acc ∨ x = e.
Proof.
  unfold push_canonical. destruct (last acc) as [l|] eqn:Hl; [|set_solver].
  case_decide; [|set_solver]. apply last_Some in Hl as [acc' ->]. rewrite removelast_last. set_solver.
Qed.

Lemma fold_push_strict l acc :
  StronglySorted advances_strictly acc → StronglySorted advances l →
  (∀ x y, x ∈ acc → y ∈ l → advances x y) →
  StronglySorted advances_strictly (foldl push_canonical acc l).
Proof.
  intros Hacc Hl. revert acc Hacc. induction Hl as [|e l Hl IH He]; intros acc Hacc Hcross; [done|].
  simpl. rewrite Forall_forall in He. apply IH.
  - apply push_strict; [done|]. apply Forall_forall. intros x Hx. apply Hcross; [done|by left].
  - intros x y [Hx| ->]%push_from Hy; [apply Hcross; [done|by right]|by apply He].
Qed.

Lemma canonicalize_strict es :
  advancing es → StronglySorted advances_strictly (canonicalize_lineage es).
Proof. intros Hes. apply fold_push_strict; [constructor|done|]. by intros x y ?%elem_of_nil. Qed.


(** Entry [x] owns its own start, and the entries before it what comes earlier. *)
Lemma strict_at l x k :
  StronglySorted advances_strictly (l ++ x :: k) → owner (l ++ x :: k) (start_offset x) = Some x.
Proof.
  intros Hs. rewrite owner_app. change (x :: k) with ([x] ++ k). rewrite owner_app.
  apply StronglySorted_app_1_r, StronglySorted_cons in Hs as [Hk _].
  rewrite (owner_above k); [|eapply Forall_impl; [exact Hk|]; by intros y [? ?]].
  unfold owner. simpl. by rewrite bool_decide_true.
Qed.

Lemma strict_below l x k o :
  StronglySorted advances_strictly (l ++ x :: k) → ival o < ival (start_offset x) →
  owner (l ++ x :: k) o = owner l o.
Proof.
  intros Hs Ho. rewrite owner_app.
  apply StronglySorted_app_1_r, StronglySorted_cons in Hs as [Hk _].
  rewrite (owner_above (x :: k)); [done|]. constructor; [done|].
  eapply Forall_impl; [exact Hk|]. intros y [_ Hy]. lia.
Qed.

(** An entry and what was there before it belong to different epochs. *)
Lemma strict_changes l x k :
  StronglySorted advances_strictly (l ++ x :: k) → epoch_owning l (start_offset x) ≠ Some (epoch x).
Proof.
  intros Hs. unfold epoch_owning. destruct (owner l (start_offset x)) as [z|] eqn:Hz; [|done].
  apply owner_Some in Hz as [Hz _]. intros [= He].
  assert (advances_strictly z x) as [Hlt _]
    by (apply (StronglySorted_app_1_elem_of _ l (x :: k)); [done|done|by left]).
  rewrite He in Hlt. lia.
Qed.

(** Two histories that part after a common prefix first disagree where the earlier of the
    two next entries starts. *)
Lemma strict_parting l x y k m :
  StronglySorted advances_strictly (l ++ x :: k) → StronglySorted advances_strictly (l ++ y :: m) →
  x ≠ y → ival (start_offset x) <= ival (start_offset y) →
  epoch_owning (l ++ x :: k) (start_offset x) ≠ epoch_owning (l ++ y :: m) (start_offset x) ∧
  ∀ o, ival o < ival (start_offset x) → owner (l ++ x :: k) o = owner (l ++ y :: m) o.
Proof.
  intros Hx Hy Hne Hle. split.
  - unfold epoch_owning. rewrite strict_at by done.
    destruct (decide (start_offset x = start_offset y)) as [Heq|Hneq].
    + rewrite Heq, strict_at by done. simpl. intros [= He]. apply Hne.
      destruct x, y; simpl in *; congruence.
    + apply int_neq in Hneq. rewrite strict_below by (done || lia). simpl. intros Heq.
      by apply (strict_changes l x k Hx).
  - intros o Ho. rewrite !strict_below by (done || lia). done.
Qed.

(** * Comparing two histories *)

Lemma compare_walk_spec mine theirs compared :
  match compare_walk mine theirs compared with
  | DivergesAt d => ∃ l x y k m, mine = l ++ x :: k ∧ theirs = l ++ y :: m ∧ x ≠ y ∧
      ival d = Z.min (ival (start_offset x)) (ival (start_offset y)) ∧
      (d = start_offset x ∨ d = start_offset y)
  | Agreed => (compared = true ∨ mine ≠ [] ∧ theirs ≠ []) ∧
      (mine `prefix_of` theirs ∨ theirs `prefix_of` mine)
  | Unknown => compared = false ∧ (mine = [] ∨ theirs = [])
  end.
Proof.
  revert theirs compared. induction mine as [|m mine IH]; intros [|t theirs] compared; simpl.
  1-3: destruct compared; (split; [by auto|]); first [by auto|left; apply prefix_nil|right; apply prefix_nil].
  case_decide as Hne.
  - exists [], m, t, mine, theirs. split_and!; [done|done|by intros ->; destruct Hne| |].
    + case_decide; lia.
    + case_decide; auto.
  - assert (m = t) as ->.
    { destruct m as [a b], t as [a' b']; simpl in *. destruct (decide (a = a')), (decide (b = b')); naive_solver. }
    specialize (IH theirs true). destruct (compare_walk mine theirs true).
    + destruct IH as [_ Hp]. split; [by right|]. destruct Hp; [left|right]; by apply prefix_cons.
    + destruct IH as (l & x & y & k & n & -> & -> & ? & ? & ?). exists (t :: l), x, y, k, n. by split_and!.
    + by destruct IH.
Qed.

Lemma canonicalize_nil es : canonicalize_lineage es = [] → es = [].
Proof.
  destruct es as [|e es _] using rev_ind; [done|]. unfold canonicalize_lineage.
  rewrite foldl_snoc. unfold push_canonical.
  destruct (last _); [case_decide|]; by intros [_ ?]%app_nil.
Qed.

(** The starts up to which a history has recorded anything. *)
Definition recorded_through (es : list EpochStart.t) (o : u64) : Prop :=
  ∃ e, e ∈ canonicalize_lineage es ∧ ival o <= ival (start_offset e).

Lemma prefix_agrees a b o :
  StronglySorted advances_strictly b → a `prefix_of` b →
  (∃ e, e ∈ a ∧ ival o <= ival (start_offset e)) → owner a o = owner b o.
Proof.
  intros Hs [k ->] (e & He & Ho). rewrite owner_app, (owner_above k); [done|].
  apply Forall_forall. intros x Hx.
  assert (advances_strictly e x) as [_ Hlt] by (by apply (StronglySorted_app_1_elem_of _ a k)). lia.
Qed.

(** C34. Comparing two replicas' histories is exact.  [DivergesAt d] names the least offset
    whose record the two attribute to different epochs.  [Agreed] means that every offset
    both have recorded through is attributed to the same epoch.  [Unknown] is given only
    when one of them has no history. *)
Theorem compare_lineage_exact mine theirs :
  advancing mine → advancing theirs →
  match compare_lineage mine theirs with
  | DivergesAt d =>
      epoch_owning mine d ≠ epoch_owning theirs d ∧
      ∀ o, ival o < ival d → epoch_owning mine o = epoch_owning theirs o
  | Agreed =>
      mine ≠ [] ∧ theirs ≠ [] ∧
      ∀ o, recorded_through mine o → recorded_through theirs o →
        epoch_owning mine o = epoch_owning theirs o
  | Unknown => mine = [] ∨ theirs = []
  end.
Proof.
  intros Hm%canonicalize_strict Ht%canonicalize_strict. unfold compare_lineage.
  assert (∀ es o, epoch_owning es o = epoch_owning (canonicalize_lineage es) o) as Hown
    by (intros; unfold epoch_owning; by rewrite owner_canonicalize).
  pose proof (compare_walk_spec (canonicalize_lineage mine) (canonicalize_lineage theirs) false) as Hw.
  destruct (compare_walk _ _ false) as [|d|].
  - destruct Hw as [[?|[Hmn Htn]] Hp]; [done|]. split_and!; [by intros ->|by intros ->|].
    intros o Ho Ho'. rewrite (Hown mine), (Hown theirs). unfold epoch_owning. f_equal.
    destruct Hp; [by apply prefix_agrees|symmetry; by apply prefix_agrees].
  - destruct Hw as (l & x & y & k & m & Em & Et & Hne & Hmin & Hd). setoid_rewrite Hown.
    rewrite Em, Et in *. unfold epoch_owning at 3 4.
    destruct (Z_le_gt_dec (ival (start_offset x)) (ival (start_offset y))) as [Hle|Hgt].
    + assert (d = start_offset x) as -> by (apply int_eq; lia).
      destruct (strict_parting l x y k m) as [? Heq]; [done..|]. split; [done|]. intros o Ho. by rewrite Heq.
    + assert (d = start_offset y) as -> by (apply int_eq; lia).
      destruct (strict_parting l y x m k) as [Hdiff Heq]; [done|done|by intros ->|lia|].
      split; [by intros Hs; apply Hdiff|]. intros o Ho. by rewrite Heq.
  - destruct Hw as [_ [?|?]]; [left|right]; by apply canonicalize_nil.
Qed.


(** * Clamping to the retained window *)

Definition in_window (base tail o : u64) : Prop := ival base <= ival o < ival tail.

Lemma advancing_snoc l e :
  advancing (l ++ [e]) → advancing l ∧ Forall (λ x, advances x e) l.
Proof.
  intros Hs. split; [by apply StronglySorted_app_1_l in Hs|]. apply Forall_forall. intros x Hx.
  apply (StronglySorted_app_1_elem_of _ l [e]); [done|done|by left].
Qed.

(** Inside the window the owner is an entry of the window, or else the owner of its base. *)
Lemma owner_window es base tail o :
  advancing es → in_window base tail o →
  owner es o =
    match owner (filter (λ e, ival base < ival (start_offset e) < ival tail) es) o with
    | Some e => Some e
    | None => owner es base
    end.
Proof.
  unfold in_window. induction es as [|e es IH] using rev_ind; [done|]. intros [Hes He]%advancing_snoc Ho.
  specialize (IH Hes Ho). rewrite filter_app, filter_cons, filter_nil, !owner_snoc.
  destruct (decide (ival (start_offset e) <= ival o)) as [Hle|Hgt].
  - case_decide as Hwin; [by rewrite owner_snoc, decide_True|]. rewrite app_nil_r.
    rewrite (decide_True (P := ival (start_offset e) <= ival base)) by lia.
    replace (filter _ es) with (@nil EpochStart.t); [done|]. symmetry.
    assert (∀ x, x ∈ es → ¬ (ival base < ival (start_offset x) < ival tail)) as Hnone.
    { intros x Hx. rewrite Forall_forall in He. destruct (He x Hx). lia. }
    clear -Hnone. induction es as [|x es IH]; [done|]. rewrite filter_cons, decide_False by (apply Hnone; by left).
    apply IH. intros y Hy. apply Hnone. by right.
  - rewrite (decide_False (P := ival (start_offset e) <= ival base)) by lia.
    case_decide; [rewrite owner_snoc, decide_False by lia|rewrite app_nil_r]; exact IH.
Qed.

Lemma advancing_order es x y :
  advancing es → x ∈ es → y ∈ es → ival (start_offset x) < ival (start_offset y) → advances x y.
Proof.
  induction 1 as [|e es Hes IH He]; [by intros ?%elem_of_nil|]. rewrite Forall_forall in He.
  rewrite !elem_of_cons. intros [->|Hx] [->|Hy] Hlt; [lia|by apply He| |by apply IH].
  destruct (He x Hx). lia.
Qed.

Lemma clamp_owning es base tail o :
  advancing es → in_window base tail o → is_Some (owner es base) →
  epoch_owning (clamp_lineage es base tail) o = epoch_owning es o.
Proof.
  intros Hes Ho [own Hown]. unfold epoch_owning, clamp_lineage.
  pose proof Ho as Hwin. unfold in_window in Hwin. rewrite decide_False, Hown by lia.
  rewrite owner_fold_push, owner_app, (owner_window es base tail o), Hown by done.
  destruct (owner (filter _ es) o) as [e|]; [done|]. unfold owner. simpl.
  by rewrite bool_decide_true by lia.
Qed.

Lemma clamp_strict es base tail :
  advancing es → is_Some (owner es base) → ival base < ival tail →
  StronglySorted advances_strictly (clamp_lineage es base tail) ∧
  ∀ e, e ∈ clamp_lineage es base tail → in_window base tail (start_offset e).
Proof.
  intros Hes [own Hown] Hlt. unfold clamp_lineage. rewrite decide_False, Hown by lia.
  apply owner_Some in Hown as [Hown Hob].
  set (win := filter _ es).
  assert (∀ e, e ∈ win → e ∈ es ∧ ival base < ival (start_offset e) < ival tail) as Hwin
    by (intros e [? ?]%list_elem_of_filter; auto).
  split.
  - apply fold_push_strict; [repeat constructor| |].
    + unfold win. clear -Hes. induction Hes as [|e es Hes IH He]; [constructor|].
      rewrite filter_cons. case_decide; [|done]. constructor; [done|]. rewrite Forall_forall in *.
      intros x [_ Hx]%list_elem_of_filter. by apply He.
    + intros x y ->%list_elem_of_singleton [Hy Hw]%Hwin.
      destruct (advancing_order es own y) as [He _]; [done|done|done|lia|]. split; simpl; lia.
  - assert (∀ l acc, (∀ e, e ∈ acc → in_window base tail (start_offset e)) →
      (∀ e, e ∈ l → in_window base tail (start_offset e)) →
      ∀ e, e ∈ foldl push_canonical acc l → in_window base tail (start_offset e)) as Hall.
    { induction l as [|x l IH]; intros acc Hacc Hl; [done|]. simpl. apply IH.
      - intros e [He| ->]%push_from; [by apply Hacc|apply Hl; by left].
      - intros e He. apply Hl. by right. }
    apply Hall.
    + intros e ->%list_elem_of_singleton. unfold in_window. simpl. lia.
    + intros e [_ He]%Hwin. unfold in_window. lia.
Qed.

(** A strict history is determined by its attribution. *)
Lemma strict_determined a b :
  StronglySorted advances_strictly a → StronglySorted advances_strictly b →
  (∀ e, e ∈ a ++ b → epoch_owning a (start_offset e) = epoch_owning b (start_offset e)) → a = b.
Proof.
  intros Ha Hb Heq. pose proof (compare_walk_spec a b true) as Hw.
  assert (∀ l k, StronglySorted advances_strictly (l ++ k) →
    (∀ e, e ∈ k → epoch_owning l (start_offset e) = epoch_owning (l ++ k) (start_offset e)) → k = [])
    as Hprefix.
  { intros l [|y k] Hs He; [done|]. exfalso. apply (strict_changes l y k Hs).
    rewrite (He y) by left. unfold epoch_owning. by rewrite strict_at. }
  destruct (compare_walk a b true) as [|d|].
  - destruct Hw as [_ [[k ->]|[k ->]]].
    + rewrite (Hprefix a k), app_nil_r; [done|done|]. intros e He. apply Heq. set_solver.
    + rewrite (Hprefix b k), app_nil_r; [done|done|]. intros e He. symmetry. apply Heq. set_solver.
  - destruct Hw as (l & x & y & k & m & -> & -> & Hne & _). exfalso.
    destruct (Z_le_gt_dec (ival (start_offset x)) (ival (start_offset y))) as [Hle|Hgt].
    + destruct (strict_parting l x y k m) as [Hd _]; [done..|]. apply Hd, Heq. set_solver.
    + destruct (strict_parting l y x m k) as [Hd _]; [done|done|by intros ->|lia|].
      apply Hd. symmetry. apply Heq. set_solver.
  - by destruct Hw.
Qed.

(** Clamping to the retained window is exact: two histories that both vouch for the base
    of the window have equal clamps precisely when they attribute every record of the
    window to the same epoch. *)
Theorem clamp_lineage_exact a b base tail :
  advancing a → advancing b → ival base < ival tail →
  is_Some (owner a base) → is_Some (owner b base) →
  clamp_lineage a base tail = clamp_lineage b base tail ↔
  ∀ o, in_window base tail o → epoch_owning a o = epoch_owning b o.
Proof.
  intros Ha Hb Hlt Hoa Hob. split.
  - intros Heq o Ho. rewrite <-(clamp_owning a base tail o), <-(clamp_owning b base tail o) by done.
    by rewrite Heq.
  - intros Heq. destruct (clamp_strict a base tail) as [Hsa Hwa]; [done..|].
    destruct (clamp_strict b base tail) as [Hsb Hwb]; [done..|]. apply strict_determined; [done..|].
    intros e He. assert (in_window base tail (start_offset e)) as Hw
      by (apply elem_of_app in He as [?|?]; auto).
    rewrite !clamp_owning by done. by apply Heq.
Qed.
