(* ===== verification/JournalSafety.v ===== *)
(** Crash safety of the fencing-epoch journal (FencingEpochs.v).

    The journal lives many lives on one disk.  In each it is opened and asked for any
    operations under an arbitrary fault plan, in the open as well as in the operations,
    and the power goes with any prefix of the pending operations on the disk.  What the
    next open recovers is the history after some prefix of the life's operations, a
    prefix that holds every operation the journal acknowledged. *)

From stdpp Require Import gmap strings list sorting.
From Stdlib Require Import ZArith Lia.
From S2P Require Import Prelude Wire Storage DiskLogic FencingEpochs.
Import EpochStart FencingEpochJournal.
#[local] Open Scope nat_scope.

#[local] Arguments apply_data_op : simpl never.
#[local] Arguments HEADER_BYTES : simpl never.
#[local] Arguments ENTRY_BYTES : simpl never.
#[local] Arguments encode_entry : simpl never.

Lemma max_entries_val : Z.of_nat MAX_ENTRIES = 4096%Z.
Proof. done. Qed.
#[local] Opaque MAX_ENTRIES.

Ltac journal_lia := unfold HEADER_BYTES, ENTRY_BYTES in *; lia.

(** * File contents *)

Definition header : list u8 := MAGIC ++ to_be_bytes VERSION.
Definition body (es : list EpochStart.t) : list u8 := es ≫= encode_entry.
Definition content (es : list EpochStart.t) : list u8 := header ++ body es.

#[local] Arguments header : simpl never.
#[local] Arguments content : simpl never.

(** The histories the journal writes. *)
Definition good (es : list EpochStart.t) : Prop := advancing es ∧ length es <= MAX_ENTRIES.

Lemma length_entry e : length (encode_entry e) = ENTRY_BYTES.
Proof. unfold encode_entry. by rewrite length_app, !length_to_be_bytes. Qed.

Lemma length_body es : length (body es) = length es * ENTRY_BYTES.
Proof.
  induction es as [|e es IH]; [done|]. change (body (e :: es)) with (encode_entry e ++ body es).
  by rewrite length_app, length_entry, IH.
Qed.

Lemma length_header : length header = HEADER_BYTES.
Proof. unfold header. by rewrite length_app, length_to_be_bytes. Qed.

Lemma length_content es : length (content es) = HEADER_BYTES + length es * ENTRY_BYTES.
Proof. unfold content. by rewrite length_app, length_header, length_body. Qed.

Lemma content_snoc es e : content (es ++ [e]) = content es ++ encode_entry e.
Proof.
  unfold content, body. rewrite bind_app. change ([e] ≫= encode_entry) with (encode_entry e ++ []).
  by rewrite app_nil_r, app_assoc.
Qed.

Lemma decode_entries_body es read index rest :
  advancing (read ++ es) →
  decode_entries (length es) index (body es ++ rest) read = Ok (read ++ es).
Proof.
  revert read index. induction es as [|e es IH]; intros read index Hadv; [by rewrite app_nil_r|].
  change (body (e :: es)) with (encode_entry e ++ body es). rewrite <-app_assoc. cbn [length decode_entries].
  assert (from_be_bytes U64 (take 8 (encode_entry e ++ body es ++ rest)) = epoch e) as ->.
  { unfold encode_entry. rewrite <-app_assoc, take_app_length' by (by rewrite length_to_be_bytes).
    apply from_to_be_bytes. }
  assert (from_be_bytes U64 (take 8 (drop 8 (encode_entry e ++ body es ++ rest))) = start_offset e) as ->.
  { unfold encode_entry. rewrite <-app_assoc, drop_app_length' by (by rewrite length_to_be_bytes).
    rewrite take_app_length' by (by rewrite length_to_be_bytes). apply from_to_be_bytes. }
  rewrite drop_app_length' by (by rewrite length_entry).
  replace (EpochStart.mk (epoch e) (start_offset e)) with e by (by destruct e).
  assert (decode_entries (length es) (S index) (body es ++ rest) (read ++ [e]) = Ok (read ++ e :: es)) as Hgo.
  { rewrite IH; rewrite <-app_assoc; done. }
  destruct (last read) as [l|] eqn:Hl; [|done]. rewrite decide_True; [done|].
  apply last_Some_elem_of in Hl. apply (StronglySorted_app_1_elem_of _ read (e :: es)); [done|done|by left].
Qed.

(** The history [es] can be read back: all its entries, then at most a fragment. *)
Definition recoverable (es : list EpochStart.t) (c : option (list u8)) : Prop :=
  good es ∧ ∃ frag, c = Some (content es ++ frag) ∧ length frag < ENTRY_BYTES ∧
    (frag = [] ∨ length es < MAX_ENTRIES).

Lemma recoverable_content es : good es → recoverable es (Some (content es)).
Proof. intros Hes. split; [done|]. exists []. rewrite app_nil_r. split_and!; [done|simpl; journal_lia|by left]. Qed.

(** A torn append leaves the old history with a fragment, or the new one. *)
Lemma torn_append es e k :
  good es → good (es ++ [e]) →
  let c := Some (apply_data_op (content es) (DataOp.Write (length (content es)) (take k (encode_entry e)))) in
  recoverable es c ∨ recoverable (es ++ [e]) c.
Proof.
  intros Hes Hes'. simpl. rewrite append_data. pose proof (length_entry e) as He.
  destruct (decide (k < ENTRY_BYTES)) as [Hk|Hk].
  - left. split; [done|]. eexists. split; [done|]. rewrite length_take. split; [lia|]. right.
    destruct Hes' as [_ Hlen]. rewrite length_app in Hlen. simpl in Hlen. lia.
  - right. rewrite take_ge by lia. rewrite <-content_snoc. by apply recoverable_content.
Qed.

Lemma content_parts es frag :
  take 8 (content es ++ frag) = MAGIC ∧
  take 2 (drop 8 (content es ++ frag)) = to_be_bytes VERSION ∧
  drop HEADER_BYTES (content es ++ frag) = body es ++ frag.
Proof.
  unfold content. rewrite <-app_assoc. split_and!.
  - unfold header. rewrite <-app_assoc. by apply take_app_length'.
  - unfold header. rewrite <-app_assoc, drop_app_length' by done. by apply take_app_length'.
  - apply drop_app_length'. by rewrite length_header.
Qed.

(** * The journal on the disk *)

Section journal.
Context (p : PathBuf).

(** The object during a life: an open handle at the end of exactly its entries. *)
Record rep (self : t) (es : list EpochStart.t) (s : SimState.t) : Prop := {
  rep_path : path self = p;
  rep_live : poisoned self = false;
  rep_entries : entries self = es;
  rep_good : good es;
  rep_file : ∃ i, opened p (file self) i (length (content es)) (content es) [] false s;
}.

Lemma u64_file n : n <= HEADER_BYTES + MAX_ENTRIES * ENTRY_BYTES → (Z.of_nat n < u64_end)%Z.
Proof. pose proof max_entries_val. unfold u64_end. journal_lia. Qed.

Lemma drop_fragment_spec f i pos es frag s :
  let b := content es ++ frag in
  recoverable es (Some b) → opened p f i pos b [] false s →
  io_spec p (recoverable es) (drop_fragment p f (length (content es)) (length b))
    (λ s' _, opened p f i pos (content es) [] false s') s.
Proof.
  intros b Hrec Ho. unfold drop_fragment. case_decide as Hcut.
  - assert (apply_ops b ([] ++ [DataOp.SetLen (length (content es))]) = content es) as Hnew
      by apply cut_data.
    apply map_err_spec, io_spec_bind. eapply file_set_len_spec; [done|by intros c ->%outcomes_none|].
    intros s' Ho'. eapply file_sync_data_spec; [done| |by rewrite Hnew].
    intros c [->| ->]%outcomes_one; [done|]. unfold b. rewrite cut_data.
    by apply recoverable_content, Hrec.
  - apply io_spec_ret. assert (frag = []) as Hnil.
    { apply nil_length_inv. unfold b in Hcut. rewrite length_app in Hcut. lia. }
    assert (b = content es) as Hb by (unfold b; by rewrite Hnil, app_nil_r).
    clearbody b. by subst b.
Qed.

(** The part of the open that reads the file and drops a fragment. *)
Lemma journal_open_spec es s c :
  settled p c s → SimState.crashed s = false → recoverable es c →
  io_spec p (recoverable es) (open_in p) (λ s' self, rep self es s') s.
Proof.
  intros Hs Hup Hrec. pose proof Hrec as (Hgood & frag & -> & Hfrag & Hroom).
  destruct Hs as [i Hf]. set (b := content es ++ frag) in *.
  assert (∀ c, outcomes b [] false c → recoverable es c) as Hout by (by intros c ->%outcomes_none).
  assert (length b = HEADER_BYTES + length es * ENTRY_BYTES + length frag) as Hlen.
  { unfold b. by rewrite length_app, length_content. }
  assert (length b <= HEADER_BYTES + MAX_ENTRIES * ENTRY_BYTES) as Hmax.
  { destruct Hgood as [_ Hmax]. destruct Hroom as [->|Hroom]; simpl in *; journal_lia. }
  unfold open_in. apply io_spec_bind, map_err_spec.
  eapply open_existing_spec; [done|done|set_solver|done|]. intros s1 f1 Ho1.
  apply io_spec_bind, map_err_spec. eapply file_len_spec; [done|done|]. intros s2 Ho2.
  change (apply_ops b []) with b. rewrite decide_False by journal_lia.
  rewrite decide_False by journal_lia. cbv zeta. rewrite decide_False by lia.
  apply io_spec_bind, map_err_spec, io_spec_bind.
  eapply (file_seek_spec _ _ _ _ _ _ _ _ _ 0); [done|done|done|done|]. intros s3 Ho3.
  eapply read_exact_spec; [done|done|done|]. intros s4 f4 Ho4.
  change (drop 0 (apply_ops b [])) with b. rewrite (take_ge b (length b)) by done.
  destruct (content_parts es frag) as (Hmagic & Hversion & Hbody). fold b in Hmagic, Hversion, Hbody.
  rewrite Hmagic, Hversion, Hbody, from_to_be_bytes, !decide_False by (intros Hne; by apply Hne).
  assert (length (body es ++ frag) / ENTRY_BYTES = length es) as ->.
  { rewrite length_app, length_body, Nat.add_comm, Nat.div_add, Nat.div_small by journal_lia. done. }
  eapply io_spec_step_bind; [unfold lift; by rewrite decode_entries_body by apply Hgood|done|].
  rewrite <-length_content. simpl app.
  apply io_spec_bind, (io_spec_mono p (recoverable es) _ _
    (λ s' _, opened p f4 i (0 + length b) (content es) [] false s')); [done| |].
  - intros s5 _ Ho5. apply io_spec_bind, map_err_spec.
    eapply (file_seek_spec _ _ _ _ _ _ _ _ _ (length (content es))); [done| | |simpl; lia|].
    + intros c ->%outcomes_none. by apply recoverable_content.
    + apply u64_file. unfold b in Hmax. rewrite length_app in Hmax. lia.
    + intros s6 Ho6. apply io_spec_ret. split; simpl; try done. by exists i.
  - by apply (drop_fragment_spec _ _ (0 + length b)).
Qed.

(** Appending an entry: durable when acknowledged, all or nothing otherwise. *)
Lemma append_entry_spec {E} self es e s :
  rep self es s → good (es ++ [e]) →
  io_wp (append_entry (E := E) self e)
    (λ s' r, ∃ self' res, r = Ok (self', res) ∧
       match res with
       | Ok _ => rep self' (es ++ [e]) s'
       | Err _ => poisoned self' = true ∧
           leaves p (λ c, recoverable es c ∨ recoverable (es ++ [e]) c) s'
       end) s.
Proof.
  intros [Hp Hlive Hes Hgood [i Ho]] Hgood'. unfold append_entry.
  set (C := λ c, recoverable es c ∨ recoverable (es ++ [e]) c).
  assert (∀ k, C (Some (apply_data_op (content es)
    (DataOp.Write (length (content es)) (take k (encode_entry e)))))) as Htorn
    by (intros k; by apply torn_append).
  assert (C (Some (content es))) as H0 by (left; by apply recoverable_content).
  assert (apply_data_op (content es) (DataOp.Write (length (content es)) (encode_entry e))
    = content (es ++ [e])) as Hnew by (by rewrite append_data, content_snoc).
  eapply (attempt_wp p C _ _ (λ s' f, opened p f i (length (content (es ++ [e])))
    (content (es ++ [e])) [] false s')).
  - apply io_spec_bind. eapply write_all_spec; [done| | |done|].
    { intros Hnil. pose proof (length_entry e) as Hlen. rewrite Hnil in Hlen. simpl in Hlen. journal_lia. }
    { by intros c ->%outcomes_none. }
    intros s1 f1 Ho1. apply io_spec_bind. eapply file_sync_data_spec; [done| |].
    { intros c [->| ->]%outcomes_one; [done|]. rewrite Hnew. right. by apply recoverable_content. }
    intros s2 Ho2. apply io_spec_ret. unfold apply_ops in Ho2. cbn [app foldl] in Ho2.
    rewrite Hnew in Ho2. by rewrite content_snoc, length_app at 1.
  - intros s1 f Ho1. eexists _, (Ok tt). split; [done|]. split; simpl; try done; [congruence|by exists i].
  - intros s1 source Hl. by eexists _, (Err _).
Qed.

(** * Operations and their effect on the history *)

Definition can_append (es : list EpochStart.t) (e : EpochStart.t) : Prop :=
  length es < MAX_ENTRIES ∧ match last es with Some l => advances l e | None => True end.
#[global] Instance can_append_dec es e : Decision (can_append es e).
Proof. unfold can_append. destruct (last es); apply _. Defined.

Definition recorded (es : list EpochStart.t) (e : EpochStart.t) : list EpochStart.t :=
  if decide (can_append es e) then es ++ [e] else es.

Lemma good_recorded es e : good es → good (recorded es e).
Proof.
  intros [Hadv Hlen]. unfold recorded. case_decide as Hc; [|done]. destruct Hc as [Hlt Hlast].
  split; [|rewrite length_app; simpl; lia]. apply StronglySorted_app_2; [|done|repeat constructor].
  intros x y Hx ->%list_elem_of_singleton. destruct (last es) as [l|] eqn:Hl.
  - apply last_Some in Hl as [es' ->]. apply elem_of_app in Hx as [Hx|Hx%list_elem_of_singleton].
    + apply advancing_snoc in Hadv as [_ Hall]. rewrite Forall_forall in Hall.
      destruct (Hall x Hx), Hlast. unfold advances. lia.
    + by subst.
  - apply last_None in Hl as ->. by apply elem_of_nil in Hx.
Qed.

(** An operation took effect, or failed and left the journal poisoned with the history
    before or after it on the disk. *)
Definition settles (es es' : list EpochStart.t) (self : t) (ok : bool) (s : SimState.t) : Prop :=
  rep self es' s ∨
  ok = false ∧ poisoned self = true ∧ leaves p (λ c, recoverable es c ∨ recoverable es' c) s.

Definition op_spec {E A} (es es' : list EpochStart.t) (c : SimE E (t * result BrokerError A))
    (s : SimState.t) : Prop :=
  io_wp c (λ s' r, ∃ self' res, r = Ok (self', res) ∧ settles es es' self' (is_ok res) s') s.

Lemma op_ret {E A} es self (res : result BrokerError A) s :
  rep self es s → op_spec (E := E) es es (mret (self, res)) s.
Proof. intros Hrep. exists self, res. split; [done|by left]. Qed.

Lemma journal_record_spec {E} self es e st s :
  rep self es s → op_spec (E := E) es (recorded es (EpochStart.mk e st)) (record self e st) s.
Proof.
  intros Hrep. pose proof (good_recorded es (EpochStart.mk e st) (rep_good _ _ _ Hrep)) as Hgood.
  unfold record. rewrite (rep_live _ _ _ Hrep), (rep_entries _ _ _ Hrep). cbv zeta.
  set (entry := EpochStart.mk e st) in *.
  assert (∀ c, (¬ can_append es entry → op_spec (E := E) (A := unit) es es c s) →
    (can_append es entry → op_spec (E := E) es (es ++ [entry]) c s) →
    op_spec (E := E) es (recorded es entry) c s) as Hcase.
  { intros c Hno Hyes. unfold recorded. case_decide; auto. }
  assert (∀ c, can_append es entry → c = append_entry self entry →
    op_spec (E := E) es (es ++ [entry]) c s) as Happ.
  { intros c Hc ->. unfold recorded in Hgood. rewrite decide_True in Hgood by done.
    eapply io_wp_mono; [|by apply append_entry_spec]. intros s' r (self' & [[]|x] & -> & Hr).
    - exists self', (Ok tt). split; [done|by left].
    - exists self', (Err x). split; [done|]. by right. }
  apply Hcase; intros Hc; unfold can_append in Hc.
  - destruct (last es) as [l|]; repeat case_decide; try (by apply op_ret); exfalso; apply Hc.
    + split; [lia|]. split; simpl; [|lia]. apply int_neq in H. lia.
    + split; [lia|done].
  - destruct Hc as [Hlen Hlast] eqn:HcE. destruct (last es) as [l|] eqn:Hl.
    + destruct Hlast as [Hep Hst]. simpl in Hep, Hst.
      rewrite decide_False by (intros ->; lia). rewrite !decide_False by lia.
      apply Happ; [|done]. split; [done|]. by rewrite Hl.
    + rewrite decide_False by lia. apply Happ; [|done]. split; [done|]. by rewrite Hl.
Qed.

Lemma take_below_prefix o es : ∃ rest, es = take_below o es ++ rest.
Proof.
  induction es as [|e es [rest IH]]; [by exists []|]. simpl. case_decide; [|by exists (e :: es)].
  exists rest. simpl. by rewrite <-IH.
Qed.

Lemma good_prefix es rest : good (es ++ rest) → good es.
Proof.
  intros [Hadv Hlen]. split; [by apply StronglySorted_app_1_l in Hadv|].
  rewrite length_app in Hlen. lia.
Qed.

Lemma truncate_to_spec {E} self es o s :
  rep self es s → op_spec (E := E) es (take_below o es) (truncate_to self o) s.
Proof.
  intros Hrep. unfold truncate_to. rewrite (rep_live _ _ _ Hrep), (rep_entries _ _ _ Hrep). cbv zeta.
  destruct (take_below_prefix o es) as [rest Hrest]. set (keep := take_below o es) in *.
  assert (length es = length keep + length rest) as Hlen by (rewrite Hrest at 1; by rewrite length_app).
  case_decide as Hz.
  { assert (rest = []) as -> by (apply nil_length_inv; lia). rewrite app_nil_r in Hrest.
    rewrite <-Hrest. by apply op_ret. }
  destruct Hrep as [Hp Hlive Hes Hgood [i Ho]]. clearbody keep. rewrite Hrest in Hes. subst es.
  assert (good keep) as Hkeep by (by eapply good_prefix).
  assert (content (keep ++ rest) = content keep ++ body rest) as Hcont.
  { unfold content, body. by rewrite bind_app, app_assoc. }
  rewrite <-length_content.
  assert (apply_data_op (content (keep ++ rest)) (DataOp.SetLen (length (content keep))) = content keep)
    as Hcut by (rewrite Hcont; apply cut_data).
  eapply (attempt_wp p (λ c, recoverable (keep ++ rest) c ∨ recoverable keep c) _ _
    (λ s' f, opened p f i (length (content keep)) (content keep) [] false s')).
  - apply io_spec_bind. eapply file_set_len_spec; [done| |].
    { intros c ->%outcomes_none. left. by apply recoverable_content. }
    intros s1 Ho1. apply io_spec_bind. eapply file_sync_data_spec; [done| |].
    { intros c [->| ->]%outcomes_one; [left|right; rewrite Hcut]; by apply recoverable_content. }
    intros s2 Ho2. unfold apply_ops in Ho2. cbn [app foldl] in Ho2. rewrite Hcut in Ho2.
    apply io_spec_bind. eapply (file_seek_spec _ _ _ _ _ _ _ _ _ (length (content keep))); [done| | |done|].
    { intros c ->%outcomes_none. right. by apply recoverable_content. }
    { apply u64_file. destruct Hkeep as [_ Hk]. rewrite length_content. journal_lia. }
    intros s3 Ho3. by apply io_spec_ret.
  - intros s1 f Ho1. eexists _, (Ok _). split; [done|]. left. split; simpl; try done; [|by exists i].
    apply take_app_length.
  - intros s1 source Hl. eexists _, (Err _). split; [done|]. by right.
Qed.

(** * Lives *)

Inductive op :=
  | Record (epoch start : u64)
  | Adopt (epoch start : u64)
  | Truncate (offset : u64)
  | Hold (epoch offset : u64).

(** What an operation does to the history, when it is carried out. *)
Definition op_effect (es : list EpochStart.t) (o : op) : list EpochStart.t :=
  match o with
  | Record e st => recorded es (EpochStart.mk e st)
  | Adopt e st =>
      if existsb (λ entry, bool_decide (epoch entry = e)) es then es
      else if decide (es = [] ∧ (0 < ival st)%Z) then es
      else recorded es (EpochStart.mk e st)
  | Truncate offset => take_below offset es
  | Hold e offset =>
      if decide (e = zero) then es
      else match last es with
           | Some l => if decide (ival e <= ival (epoch l))%Z then es
                       else recorded es (EpochStart.mk e offset)
           | None => recorded es (EpochStart.mk e offset)
           end
  end.

Definition run_op {E} (self : t) (o : op) : SimE E (t * bool) :=
  match o with
  | Record e st => '(self, r) ← record self e st; mret (self, is_ok r)
  | Adopt e st => '(self, r) ← record_adoption self e st; mret (self, is_ok r)
  | Truncate offset => '(self, r) ← truncate_to self offset; mret (self, is_ok r)
  | Hold e offset => '(self, r) ← record_held_epoch_at self e offset; mret (self, is_ok r)
  end.

(** Every operation in turn, with whether it was acknowledged, until one leaves the
    journal poisoned: it must then be reopened. *)
Fixpoint run_ops {E} (self : t) (ops : list op) : SimE E (list bool) :=
  match ops with
  | [] => mret []
  | o :: ops =>
      '(self, ok) ← run_op self o;
      if poisoned self then mret [ok]
      else
        oks ← run_ops self ops;
        mret (ok :: oks)
  end.

Lemma op_spec_bool {E A} es es' (c : SimE E (t * result BrokerError A)) s :
  op_spec es es' c s →
  io_wp ('(self, r) ← c; mret (self, is_ok r))
    (λ s' r, ∃ self' ok, r = Ok (self', ok) ∧ settles es es' self' ok s') s.
Proof.
  intros Hc. apply io_wp_bind. eapply io_wp_mono; [|exact Hc].
  intros s' r (self' & res & -> & Hs). by exists self', (is_ok res).
Qed.

Lemma run_op_spec {E} self es o s :
  rep self es s →
  io_wp (run_op (E := E) self o)
    (λ s' r, ∃ self' ok, r = Ok (self', ok) ∧ settles es (op_effect es o) self' ok s') s.
Proof.
  intros Hrep. destruct o as [e st|e st|offset|e offset]; apply op_spec_bool; simpl.
  - by apply journal_record_spec.
  - unfold record_adoption. rewrite (rep_entries _ _ _ Hrep).
    destruct (existsb _ es); [by apply op_ret|]. case_decide; [by apply op_ret|by apply journal_record_spec].
  - by apply truncate_to_spec.
  - unfold record_held_epoch_at. rewrite (rep_entries _ _ _ Hrep).
    case_decide; [by apply op_ret|]. destruct (last es) as [l|]; [case_decide|].
    + by apply op_ret.
    + by apply journal_record_spec.
    + by apply journal_record_spec.
Qed.

Definition acked_before (oks : list bool) (n : nat) : Prop :=
  ∀ i, oks !! i = Some true → i < n.

(** After a run, whatever the disk can come back with is the history after a prefix of the
    operations that holds every acknowledged one. *)
Definition reached (es : list EpochStart.t) (ops : list op) (oks : list bool)
    (c : option (list u8)) : Prop :=
  ∃ n, acked_before oks n ∧ recoverable (foldl op_effect es (take n ops)) c.

Lemma journal_leaves self es s : rep self es s → leaves p (recoverable es) s.
Proof.
  intros [_ _ _ Hgood [i Ho]]. eapply opened_leaves; [done|]. intros c ->%outcomes_none.
  by apply recoverable_content.
Qed.

Lemma journal_ops_spec {E} ops self es s :
  rep self es s →
  io_wp (run_ops (E := E) self ops) (λ s' r, ∃ oks, r = Ok oks ∧ leaves p (reached es ops oks) s') s.
Proof.
  revert self es s. induction ops as [|o ops IH]; intros self es s Hrep.
  { exists []. split; [done|]. eapply leaves_mono; [|by eapply journal_leaves]. intros c Hc. exists 0.
    split; [|done]. intros i. by rewrite lookup_nil. }
  simpl. apply io_wp_bind. eapply io_wp_mono; [|by eapply run_op_spec].
  intros s1 r (self1 & ok & -> & [Hrep1|(-> & Hpo & Hl)]).
  - rewrite (rep_live _ _ _ Hrep1). apply io_wp_bind. eapply io_wp_mono; [|by apply IH].
    intros s2 r (oks & -> & Hl). exists (ok :: oks). split; [done|]. eapply leaves_mono; [|exact Hl].
    intros c (n & Hn & Hc). exists (S n). split; [|done]. intros [|i]; simpl; [lia|].
    intros Hi%Hn. lia.
  - rewrite Hpo. exists [false]. split; [done|]. eapply leaves_mono; [|exact Hl].
    intros c Hc. assert (∀ n, acked_before [false] n) as Hacked by (by intros n [|i]).
    destruct Hc as [Hc|Hc]; [by exists 0|]. by exists 1.
Qed.
End journal.

(** One life: the faults planned for it, its operations, and how much of the pending state
    reaches the disk when the power goes. *)
Record life := mkLife { life_plan : FaultPlan.t; life_ops : list op; life_prefix : nat }.

(** A life whose open fails does nothing more. *)
Definition run_life (p : PathBuf) (l : life) (s : SimState.t) : option (SimState.t * list bool) :=
  match open_in p (boot (life_plan l) s) with
  | Some (s, Err _) => s ← power_off (life_prefix l) s; Some (s, [])
  | Some (s, Ok self) =>
      match run_ops (E := Empty_set) self (life_ops l) s with
      | Some (s, Ok oks) => s ← power_off (life_prefix l) s; Some (s, oks)
      | _ => None
      end
  | None => None
  end.

Fixpoint run_lives (p : PathBuf) (ls : list life) (s : SimState.t)
    : option (SimState.t * list (list bool)) :=
  match ls with
  | [] => Some (s, [])
  | l :: ls =>
      '(s, oks) ← run_life p l s;
      '(s, rest) ← run_lives p ls s;
      Some (s, oks :: rest)
  end.

(** The histories that lives with these acknowledgements may leave. *)
Inductive evolves : list EpochStart.t → list (list op) → list (list bool) →
    list EpochStart.t → Prop :=
  | evolves_nil es : evolves es [] [] es
  | evolves_cons es ops oks n lives acks es' :
      acked_before oks n →
      evolves (foldl op_effect es (take n ops)) lives acks es' →
      evolves es (ops :: lives) (oks :: acks) es'.

Lemma journal_life_spec p l es c s :
  settled p c s → recoverable es c →
  ∃ s' oks n c', run_life p l s = Some (s', oks) ∧ settled p c' s' ∧ acked_before oks n ∧
    recoverable (foldl op_effect es (take n (life_ops l))) c'.
Proof.
  intros Hs Hrec. pose proof (journal_open_spec p es (boot (life_plan l) s) c) as Hopen.
  unfold run_life. unfold io_spec, io_wp in Hopen.
  destruct (open_in p _) as [[s1 [self|e]]|] eqn:Heq.
  3: { destruct Hopen; [by apply (settled_same p c s)|done|done]. }
  - destruct Hopen as [_ Hrep]; [by apply (settled_same p c s)|done|done|].
    pose proof (journal_ops_spec (E := Empty_set) p (life_ops l) self es s1 Hrep) as Hrun.
    unfold io_wp in Hrun. destruct (run_ops self _ s1) as [[s2 r]|]; [|done].
    destruct Hrun as (oks & -> & Hl).
    destruct (power_off_spec p _ (life_prefix l) s2 Hl) as (s3 & c' & -> & Hs' & n & Hn & Hc').
    by exists s3, oks, n, c'.
  - destruct Hopen as [_ [_ Hl]]; [by apply (settled_same p c s)|done|done|].
    destruct (power_off_spec p _ (life_prefix l) s1 Hl) as (s2 & c' & -> & Hs' & Hc').
    exists s2, [], 0, c'. split_and!; [done|done| |done]. intros i. by rewrite lookup_nil.
Qed.

Lemma journal_lives_spec p ls es c s :
  settled p c s → recoverable es c →
  ∃ s' acks c' es', run_lives p ls s = Some (s', acks) ∧ settled p c' s' ∧ recoverable es' c' ∧
    evolves es (life_ops <$> ls) acks es'.
Proof.
  revert es c s. induction ls as [|l ls IH]; intros es c s Hs Hrec.
  { exists s, [], c, es. split_and!; try done. constructor. }
  destruct (journal_life_spec p l es c s Hs Hrec) as (s1 & oks & n & c1 & Hrun & Hs1 & Hn & Hrec1).
  destruct (IH _ c1 s1 Hs1 Hrec1) as (s2 & acks & c2 & es2 & Hruns & Hs2 & Hrec2 & Hev).
  exists s2, (oks :: acks), c2, es2. simpl. rewrite Hrun. simpl. rewrite Hruns. simpl.
  split_and!; [done|done|done|]. by econstructor.
Qed.

(** C5. The history survives every crash.  Start from a journal that holds the history [es],
    live any number of lives with any faults, and open once more: the open succeeds, and
    the history it recovers is what the lives' operations made of [es], each life
    contributing a prefix of its operations that holds all it acknowledged. *)
Theorem journal_survives_crashes (p : PathBuf) (ls : list life) (es : list EpochStart.t)
    (s : SimState.t) :
  settled p (Some (content es)) s → good es →
  ∃ s' acks, run_lives p ls s = Some (s', acks) ∧
    ∃ s'' self, open_in p (boot FaultPlan.NoFault s') = Some (s'', Ok self) ∧
      good (entries self) ∧ evolves es (life_ops <$> ls) acks (entries self).
Proof.
  intros Hs Hgood.
  destruct (journal_lives_spec p ls es _ s Hs (recoverable_content es Hgood))
    as (s' & acks & c & es' & Hrun & Hs' & Hrec & Hev).
  exists s', acks. split; [done|].
  pose proof (journal_open_spec p es' (boot FaultPlan.NoFault s') c) as Hopen.
  unfold io_spec, io_wp in Hopen.
  destruct (open_in p _) as [[s'' [self|e]]|].
  - destruct Hopen as [_ Hrep]; [by apply (settled_same p c s')|done|done|].
    exists s'', self. split; [done|]. rewrite (rep_entries _ _ _ _ Hrep). split; [|done].
    by apply Hrep.
  - destruct Hopen as [_ [Hne _]]; [by apply (settled_same p c s')|done|done|]. by destruct Hne.
  - destruct Hopen; [by apply (settled_same p c s')|done|done].
Qed.

(** * Truncation and the held epoch *)

Lemma take_below_split o es :
  advancing es → ∃ rest, es = take_below o es ++ rest ∧
    Forall (λ e, ival (start_offset e) < ival o)%Z (take_below o es) ∧
    Forall (λ e, ival o <= ival (start_offset e))%Z rest.
Proof.
  induction 1 as [|e es Hes (rest & IH & Hlt & Hge) He]; [by exists []|]. simpl. case_decide as Hd.
  - exists rest. split_and!; [by rewrite IH at 1|by constructor|done].
  - exists (e :: es). split_and!; [done|constructor|]. constructor; [lia|].
    eapply Forall_impl; [exact He|]. intros x [_ Hx]. lia.
Qed.

(** Truncating the log and re-anchoring the held epoch attributes every surviving record
    as before, and every record written from the cut on to the held epoch. *)
Theorem truncation_keeps_attribution es o e :
  good es → length es < MAX_ENTRIES → e ≠ zero →
  Forall (λ x, ival (epoch x) <= ival e)%Z es →
  let es' := op_effect (op_effect es (Truncate o)) (Hold e o) in
  (∀ x, (ival x < ival o)%Z → epoch_owning es' x = epoch_owning es x) ∧
  (∀ x, (ival o <= ival x)%Z → epoch_owning es' x = Some e).
Proof.
  intros [Hadv Hmax] Hroom He Hle. simpl. rewrite decide_False by done.
  destruct (take_below_split o es Hadv) as (rest & Hes & Hlt & Hge).
  set (keep := take_below o es) in *. clearbody keep. subst es.
  rewrite length_app in Hroom. apply Forall_app in Hle as [Hle _]. rewrite Forall_forall in Hlt, Hle.
  assert (∀ x, (ival x < ival o)%Z → epoch_owning keep x = epoch_owning (keep ++ rest) x) as Hbelow.
  { intros x Hx. unfold epoch_owning. rewrite owner_app, (owner_above rest); [done|].
    eapply Forall_impl; [exact Hge|]. simpl. lia. }
  assert (∀ x, epoch_owning (keep ++ [EpochStart.mk e o]) x
    = if decide (ival o <= ival x)%Z then Some e else epoch_owning keep x) as Hsnoc.
  { intros x. unfold epoch_owning. rewrite owner_snoc. simpl. by case_decide. }
  unfold recorded. destruct (last keep) as [l|] eqn:Hl.
  - assert (l ∈ keep) as Hin by (by apply last_Some_elem_of). case_decide as Hel.
    + split; [done|]. intros x Hx. apply last_Some in Hl as [keep' ->].
      specialize (Hlt l Hin). specialize (Hle l Hin). simpl in *.
      unfold epoch_owning. rewrite owner_snoc, decide_True by lia. simpl. f_equal. apply int_eq. lia.
    + specialize (Hlt l Hin). simpl in Hlt. rewrite decide_True by (split; [lia|rewrite Hl; split; simpl; lia]).
      split; intros x Hx; rewrite Hsnoc; [rewrite decide_False by lia; by apply Hbelow|].
      by rewrite decide_True by lia.
  - rewrite decide_True by (split; [lia|by rewrite Hl]).
    split; intros x Hx; rewrite Hsnoc; [rewrite decide_False by lia; by apply Hbelow|].
    by rewrite decide_True by lia.
Qed.

(** * Installing a transferred history *)

Lemma first_mismatch_prefix existing incoming :
  first_mismatch existing incoming = None → length existing <= length incoming →
  existing `prefix_of` incoming.
Proof.
  revert incoming. induction existing as [|e es IH]; intros [|x incoming] Hm Hlen; simpl in *;
    [apply prefix_nil|apply prefix_nil|lia|].
  unfold first_mismatch in *. simpl in Hm. destruct (bool_decide (e = x)) eqn:Hex; [|done].
  apply bool_decide_eq_true in Hex as ->. apply prefix_cons, IH; [done|lia].
Qed.

(** What a repair that stopped early may have installed. *)
Definition partly_installed (es incoming : list EpochStart.t) (c : option (list u8)) : Prop :=
  ∃ es', recoverable es' c ∧ es `prefix_of` es' ∧ (es' = es ∨ es' `prefix_of` incoming).

Lemma good_can_append es e rest : good (es ++ e :: rest) → can_append es e.
Proof.
  intros [Hadv Hlen]. rewrite length_app in Hlen. simpl in Hlen. split; [lia|].
  destruct (last es) as [l|] eqn:Hl; [|done]. apply last_Some_elem_of in Hl.
  apply (StronglySorted_app_1_elem_of _ es (e :: rest)); [done|done|by left].
Qed.

Lemma record_all_spec p self es todo s :
  rep p self es s → good (es ++ todo) →
  io_wp (record_all self todo)
    (λ s' r, match r with
       | Ok self' => rep p self' (es ++ todo) s'
       | Err _ => leaves p (partly_installed es (es ++ todo)) s'
       end) s.
Proof.
  revert self es s. induction todo as [|e todo IH]; intros self es s Hrep Hgood.
  { by rewrite app_nil_r. }
  pose proof (good_can_append es e todo Hgood) as Hcan. simpl. apply io_wp_bind.
  eapply io_wp_mono; [|by apply (journal_record_spec p self es)].
  replace (EpochStart.mk (epoch e) (start_offset e)) with e by (by destruct e).
  unfold recorded. rewrite decide_True by done.
  intros s1 r (self1 & res & -> & Hset).
  assert (∀ es', es' = es ∨ es' = es ++ [e] → es `prefix_of` es' ∧ es' `prefix_of` es ++ e :: todo)
    as Hpre.
  { intros es' [->| ->]; split; [done|by eexists|by eexists|]. exists todo. by rewrite <-app_assoc. }
  apply io_wp_bind. unfold lift, io_wp at 1. destruct res as [[]|x].
  - destruct Hset as [Hrep1|[? _]]; [|done]. change (e :: todo) with ([e] ++ todo) in *.
    rewrite app_assoc in *. eapply io_wp_mono; [|by apply IH].
    intros s2 [self2|x]; [done|]. apply leaves_mono. intros c (es' & Hc & Hp1 & Hp2).
    exists es'. split; [done|]. split; [by etrans; [eexists|]|]. right.
    destruct Hp2 as [->|?]; [by eexists|done].
  - simpl. destruct Hset as [Hrep1|(_ & _ & Hl)].
    + eapply leaves_mono; [|by eapply journal_leaves]. intros c Hc. exists (es ++ [e]).
      split; [done|]. destruct (Hpre (es ++ [e])); auto.
    + eapply leaves_mono; [|exact Hl]. intros c [Hc|Hc]; eexists; (split; [exact Hc|]);
        [destruct (Hpre es); auto|destruct (Hpre (es ++ [e])); auto].
Qed.

(** Installing a transferred history is resumable under any faults.  A success means that
    what was on the disk was a prefix of the source's history up to the tail, and that the
    whole of that is installed.  A failure leaves what was there, extended by at most a
    prefix of the source's history, so a later run against the same source can finish. *)
Theorem install_resumable p plan source tail es c s :
  settled p c s → recoverable es c → good (take_through tail source) →
  let incoming := take_through tail source in
  ∃ s' r, install_transferred_history p source tail (boot plan s) = Some (s', r) ∧
    match r with
    | Ok n => es `prefix_of` incoming ∧ n = length incoming ∧ leaves p (recoverable incoming) s'
    | Err _ => leaves p (partly_installed es incoming) s'
    end.
Proof.
  intros Hs Hrec Hgood. simpl. set (incoming := take_through tail source) in *.
  assert (∀ c, recoverable es c → partly_installed es incoming c) as Hself
    by (intros c' Hc'; exists es; auto).
  enough (io_wp (install_transferred_history p source tail) (λ s' r,
    match r with
    | Ok n => es `prefix_of` incoming ∧ n = length incoming ∧ leaves p (recoverable incoming) s'
    | Err _ => leaves p (partly_installed es incoming) s'
    end) (boot plan s)) as Hwp.
  { unfold io_wp in Hwp. destruct (install_transferred_history _ _ _ _) as [[s' r]|]; eauto. done. }
  unfold install_transferred_history. cbv zeta. fold incoming. apply io_wp_bind.
  eapply io_wp_mono; [|apply (journal_open_spec p es _ c); [by apply (settled_same p c s)|done|done]].
  intros s1 [self|x] [_ Hpost]; [|destruct Hpost as [_ Hl]; by eapply leaves_mono].
  rewrite (rep_entries _ _ _ _ Hpost). pose proof (journal_leaves _ _ _ _ Hpost) as Hl.
  case_decide as Hlen; [by eapply leaves_mono|].
  destruct (first_mismatch es incoming) as [[have want]|] eqn:Hm; [by eapply leaves_mono|].
  destruct (first_mismatch_prefix es incoming Hm) as [todo Htodo]; [lia|].
  rewrite Htodo in *. rewrite drop_app_length. apply io_wp_bind.
  eapply io_wp_mono; [|by apply record_all_spec].
  intros s2 [self2|x] Hr; [|done]. split_and!; [by eexists|done|]. by eapply journal_leaves.
Qed.
