(* ===== verification/StorageScenario.v ===== *)
(** Concrete runs on the simulated disk: the crash-safety theorems applied at concrete
    histories, and two runs that show where the stored formats stop short of what their
    documentation promises. *)

From stdpp Require Import gmap strings list sorting.
From Stdlib Require Import ZArith Lia.
From S2P Require Import Prelude Wire Storage DiskLogic CommittedFloor FloorSafety FencingEpochs JournalSafety Promotion.
Import FencingEpochJournal.
#[local] Open Scope nat_scope.

Definition n64 (z : Z) : u64 := wrap_int U64 z.

(** A disk with one directory and nothing in it. *)
Definition range_dir : PathBuf := Path true [as_bytes "range"].
Definition disk0 : SimState.t := SimStorage.create_dir_all range_dir SimState.new.
Definition floor_path : PathBuf := Path true [as_bytes "range"; as_bytes "committed-floor"].
Definition journal_path : PathBuf := Path true [as_bytes "range"; as_bytes "fencing-epochs"].

Lemma disk0_absent p :
  bool_decide (default root_path (parent p) ∈ SimState.dirs disk0 ∧ p ∉ SimState.dirs disk0) = true →
  absent p disk0.
Proof.
  intros Hp%bool_decide_eq_true. split; [|exact Hp|done..].
  split; [constructor|apply map_Forall_empty|apply map_Forall_empty].
Qed.

(** A stand-in for the hash: the floor and its complement, so that no patchwork of the
    digests of 5 and 9 is the digest of anything else. *)
Definition complement (b : u8) : u8 := wrap_int U8 (255 - ival b).

Definition demo_hash : Blake3Hash := λ bytes,
  let floor := drop 12 bytes in
  from_be_bytes U256 (floor ++ (complement <$> floor) ++ replicate 16 zero).

Lemma demo_digest v :
  @digest demo_hash v
  = to_be_bytes v ++ (complement <$> to_be_bytes v) ++ replicate 16 zero.
Proof.
  unfold digest, blake3_hash, demo_hash.
  assert (drop 12 (CommittedFloorFile.payload v) = to_be_bytes v) as ->.
  { unfold CommittedFloorFile.payload. rewrite app_assoc. by apply drop_app_length'. }
  apply to_from_be_bytes. rewrite !length_app, length_fmap, length_replicate, length_to_be_bytes. done.
Qed.

(** The bytes that can stand at a position of a patchwork of the two digests. *)
Definition demo_bytes (j : nat) : list u8 :=
  zero :: omap (λ v, @digest demo_hash v !! j) [n64 5; n64 9].

Lemma demo_stitched c j x :
  @stitched demo_hash [n64 5; n64 9] c → c !! j = Some x → x ∈ demo_bytes j.
Proof.
  intros Hst [->|(v & Hv & Hx)]%Hst; [by left|]. right. apply list_elem_of_omap. by exists v.
Qed.

Lemma demo_detects : @detects_tears demo_hash [n64 5; n64 9].
Proof.
  intros v Hst. pose proof (λ j x, demo_stitched _ j x Hst) as Hbyte. rewrite demo_digest in Hbyte.
  pose proof (from_to_be_bytes v) as Hv. pose proof (length_to_be_bytes v) as Hlen.
  destruct (to_be_bytes v) as [|b0 [|b1 [|b2 [|b3 [|b4 [|b5 [|b6 [|b7 [|]]]]]]]]]; try done. clear Hlen Hst.
  pose proof (Hbyte 0 _ eq_refl) as H0. pose proof (Hbyte 1 _ eq_refl) as H1.
  pose proof (Hbyte 2 _ eq_refl) as H2. pose proof (Hbyte 3 _ eq_refl) as H3.
  pose proof (Hbyte 4 _ eq_refl) as H4. pose proof (Hbyte 5 _ eq_refl) as H5.
  pose proof (Hbyte 6 _ eq_refl) as H6. pose proof (Hbyte 7 _ eq_refl) as H7.
  pose proof (Hbyte 15 _ eq_refl) as H15. clear Hbyte.
  assert (∀ j x, j < 7 → x ∈ demo_bytes j → x = zero) as Hzero.
  { assert (Forall (λ j, Forall (λ x, x = zero) (demo_bytes j)) (seq 0 7)) as Hall
      by (apply (bool_decide_eq_true_1 _); vm_compute; reflexivity).
    intros j x Hj Hx. rewrite Forall_forall in Hall. specialize (Hall j).
    rewrite elem_of_seq, Forall_forall in Hall. apply Hall; [lia|done]. }
  apply Hzero in H0, H1, H2, H3, H4, H5, H6; try lia. subst.
  assert (Forall (λ x, complement x ∈ demo_bytes 15 → x = wrap_int U8 5 ∨ x = wrap_int U8 9)
    (demo_bytes 7)) as Hlast by (apply (bool_decide_eq_true_1 _); vm_compute; reflexivity).
  rewrite Forall_forall in Hlast. destruct (Hlast b7 H7 H15) as [->| ->].
  - left.
  - right. left.
Qed.

(** * The committed floor *)

(** The first life saves 5; the second tears the frame of 9 inside its digest. *)
Definition floor_lives : list FloorSafety.life :=
  [FloorSafety.mkLife FaultPlan.NoFault [n64 5] 0;
   FloorSafety.mkLife (FaultPlan.CrashDuringWrite 11 30) [n64 9] 0].


Definition recovered_floor (s : SimState.t) : option u64 :=
  match @CommittedFloorFile.open_in demo_hash Empty_set floor_path (boot FaultPlan.NoFault s) with
  | Some (_, Ok self) => Some (CommittedFloorFile.floor self)
  | _ => None
  end.

(** The acknowledged 5 is what the third boot reads. *)
Example floor_lives_recover :
  ('(s, acks) ← @FloorSafety.run_lives demo_hash floor_path floor_lives disk0;
   floor ← recovered_floor s;
   Some (acks, floor)) = Some ([n64 5], n64 5).
Proof. vm_compute. reflexivity. Qed.

(** A save whose sync fails, the file reopened without a restart of the disk, the same
    floor saved again, and then a crash: whether each save was acknowledged, and the floor
    read afterwards. *)
Definition resave_after_failed_sync : option (bool * bool * u64) :=
  match @CommittedFloorFile.open_in demo_hash Empty_set floor_path
          (boot (FaultPlan.FailOp 5 Other) disk0) with
  | Some (s, Ok self) =>
      match @CommittedFloorFile.save demo_hash Empty_set self (n64 5) s with
      | Some (s, Ok (_, first)) =>
          match @CommittedFloorFile.open_in demo_hash Empty_set floor_path s with
          | Some (s, Ok self) =>
              match @CommittedFloorFile.save demo_hash Empty_set self (n64 5) s with
              | Some (s, Ok (_, second)) =>
                  s ← power_off 0 s;
                  floor ← recovered_floor s;
                  Some (is_ok first, is_ok second, floor)
              | _ => None
              end
          | _ => None
          end
      | _ => None
      end
  | _ => None
  end.

(** The reopened object takes the unsynced frame for a durable one, so it acknowledges
    the second save without writing, and the crash loses the acknowledged floor. *)
Theorem acknowledged_floor_lost_after_failed_sync :
  resave_after_failed_sync = Some (false, true, zero).
Proof. vm_compute. reflexivity. Qed.

(** * The fencing-epoch journal *)

(** A crash tears the very first write of the journal after three bytes; whether that open
    succeeded, and what the open after the reboot reports. *)
Definition reopen_after_torn_header : option (bool * option BrokerError) :=
  match FencingEpochJournal.open_in journal_path
          (boot (FaultPlan.CrashDuringWrite 2 3) disk0) with
  | Some (s, first) =>
      match FencingEpochJournal.open_in journal_path (boot FaultPlan.NoFault s) with
      | Some (_, Ok _) => Some (is_ok first, None)
      | Some (_, Err e) => Some (is_ok first, Some e)
      | None => None
      end
  | None => None
  end.

(** The file a torn creation leaves is refused as corrupt, not recovered as a torn tail. *)
Theorem torn_header_refused :
  reopen_after_torn_header
  = Some (false, Some (EpochJournalCorrupt
      "fencing-epoch journal: journal is 3 bytes, shorter than its 10-byte header")).
Proof. vm_compute. reflexivity. Qed.

Definition es1 : EpochStart.t := EpochStart.mk (n64 1) (n64 0).
Definition es2 : EpochStart.t := EpochStart.mk (n64 2) (n64 40).

(** A disk that holds a journal with one epoch, as a first life leaves it. *)
Definition disk1 : SimState.t :=
  default disk0
    ('(s, _) ← FencingEpochJournal.open_in journal_path (boot FaultPlan.NoFault disk0);
     power_off 0 s).

(** One life records epochs 1 and 2 but the second append is torn; the next one records
    epoch 2 again and truncates to 40. *)
Definition journal_lives : list JournalSafety.life :=
  [JournalSafety.mkLife (FaultPlan.CrashDuringWrite 13 7)
     [Record (n64 1) (n64 0); Record (n64 2) (n64 40)] 0;
   JournalSafety.mkLife FaultPlan.NoFault [Record (n64 2) (n64 40); Truncate (n64 40)] 0].

Lemma disk1_settled : settled journal_path (Some (content [])) disk1.
Proof.
  assert (bool_decide (map_Forall (λ _ i, i < 1) (SimState.ns_visible disk1) ∧
    map_Forall (λ _ i, i < 1) (SimState.ns_durable disk1) ∧
    located journal_path disk1) = true) as (Hv & Hd & Hdir)%bool_decide_eq_true
    by (vm_compute; reflexivity).
  exists 0. split; done.
Qed.

Lemma good_nil : good [].
Proof. split; [constructor|]. apply Nat.le_0_l. Qed.

Lemma journal_survives_crashes_witness :
  ∃ s' acks, JournalSafety.run_lives journal_path journal_lives disk1 = Some (s', acks) ∧
    ∃ s'' self, FencingEpochJournal.open_in journal_path (boot FaultPlan.NoFault s') = Some (s'', Ok self) ∧
      good (FencingEpochJournal.entries self) ∧
      evolves [] (JournalSafety.life_ops <$> journal_lives) acks (FencingEpochJournal.entries self).
Proof.
  apply (journal_survives_crashes journal_path journal_lives [] disk1).
  - exact disk1_settled.
  - exact good_nil.
Defined.

Definition recovered_history (s : SimState.t) : option (list EpochStart.t) :=
  match FencingEpochJournal.open_in journal_path (boot FaultPlan.NoFault s) with
  | Some (_, Ok self) => Some (FencingEpochJournal.entries self)
  | _ => None
  end.

(** The torn append is dropped and the epoch recorded again, then truncated away. *)
Example journal_lives_recover :
  ('(s, acks) ← JournalSafety.run_lives journal_path journal_lives disk1;
   es ← recovered_history s;
   Some (acks, es)) = Some ([[true; false]; [true; true]], [es1]).
Proof. vm_compute. reflexivity. Qed.

Lemma advancing_es : advancing [es1; es2].
Proof. repeat constructor; vm_compute; congruence. Qed.

(** Replicas that part at 40 under different epochs. *)
Lemma compare_lineage_exact_witness :
  compare_lineage [es1; es2] [es1; EpochStart.mk (n64 3) (n64 40)] = DivergesAt (n64 40) ∧
  epoch_owning [es1; es2] (n64 40) ≠ epoch_owning [es1; EpochStart.mk (n64 3) (n64 40)] (n64 40) ∧
  ∀ o, (ival o < ival (n64 40))%Z →
    epoch_owning [es1; es2] o = epoch_owning [es1; EpochStart.mk (n64 3) (n64 40)] o.
Proof.
  split; [vm_compute; reflexivity|].
  apply (compare_lineage_exact [es1; es2] [es1; EpochStart.mk (n64 3) (n64 40)]).
  - exact advancing_es.
  - repeat constructor; vm_compute; congruence.
Defined.

(** Histories that differ only past the window attribute the window alike. *)
Lemma clamp_lineage_exact_witness :
  clamp_lineage [es1; es2] (n64 10) (n64 40)
    = clamp_lineage [es1; EpochStart.mk (n64 3) (n64 50)] (n64 10) (n64 40) ∧
  ∀ o, in_window (n64 10) (n64 40) o →
    epoch_owning [es1; es2] o = epoch_owning [es1; EpochStart.mk (n64 3) (n64 50)] o.
Proof.
  split; [vm_compute; reflexivity|].
  apply (clamp_lineage_exact [es1; es2] [es1; EpochStart.mk (n64 3) (n64 50)]).
  - exact advancing_es.
  - repeat constructor; vm_compute; congruence.
  - reflexivity.
  - vm_compute. eauto.
  - vm_compute. eauto.
  - vm_compute. reflexivity.
Defined.

Lemma truncation_keeps_attribution_witness :
  (∀ x, (ival x < ival (n64 20))%Z →
     epoch_owning (op_effect (op_effect [es1; es2] (Truncate (n64 20))) (Hold (n64 2) (n64 20))) x
     = epoch_owning [es1; es2] x) ∧
  (∀ x, (ival (n64 20) <= ival x)%Z →
     epoch_owning (op_effect (op_effect [es1; es2] (Truncate (n64 20))) (Hold (n64 2) (n64 20))) x
     = Some (n64 2)).
Proof.
  apply (truncation_keeps_attribution [es1; es2] (n64 20) (n64 2)).
  - split; [exact advancing_es|]. apply (bool_decide_eq_true_1 _). vm_compute. reflexivity.
  - apply (bool_decide_eq_true_1 _). vm_compute. reflexivity.
  - vm_compute. congruence.
  - repeat constructor; vm_compute; congruence.
Defined.

Lemma install_resumable_witness :
  ∃ s' r, install_transferred_history journal_path [es1; es2] (n64 20)
            (boot (FaultPlan.CrashDuringWrite 11 7) disk1) = Some (s', r) ∧
    match r with
    | Ok n => [] `prefix_of` take_through (n64 20) [es1; es2] ∧
        n = length (take_through (n64 20) [es1; es2]) ∧
        leaves journal_path (recoverable (take_through (n64 20) [es1; es2])) s'
    | Err _ => leaves journal_path (partly_installed [] (take_through (n64 20) [es1; es2])) s'
    end.
Proof.
  apply (install_resumable journal_path (FaultPlan.CrashDuringWrite 11 7) [es1; es2] (n64 20)
    [] (Some (content [])) disk1).
  - exact disk1_settled.
  - apply recoverable_content, good_nil.
  - split; [repeat constructor|]. apply (bool_decide_eq_true_1 _). vm_compute. reflexivity.
Defined.

(** * Promotion *)

Definition node (z : Z) : Uuid := wrap_int U128 z.

(** Three replicas, of which the third did not answer the fence. *)
Definition demo_probes : list ReplicaProbe.t :=
  [ReplicaProbe.mk (node 1) (Some (n64 90)); ReplicaProbe.mk (node 2) (Some (n64 70));
   ReplicaProbe.mk (node 3) None].
Definition demo_replicas : list Uuid := [node 1; node 2; node 3].
Definition demo_held (n : Uuid) : u64 :=
  if decide (n = node 1) then n64 90 else n64 70.

Lemma demo_established :
  Promotion.establish demo_probes 3 (node 1) (Some (n64 50))
  = Some (Promotion.Established (n64 70) (Promotion.collect demo_probes)).
Proof.
  assert (Promotion.descending (Promotion.collect demo_probes) = [n64 90; n64 70]) as Hd
    by (vm_compute; reflexivity).
  assert (Promotion.collect demo_probes !! node 1 = Some (n64 90)) as Hl
    by (vm_compute; reflexivity).
  unfold Promotion.establish. rewrite decide_False by (vm_compute; lia). rewrite Hd. simpl.
  unfold Promotion.decide_candidate. rewrite Hl. by rewrite !decide_False by (vm_compute; lia || congruence).
Qed.

Lemma leader_holds_acknowledged_witness : (ival (n64 70) <= ival (demo_held (node 1)))%Z.
Proof.
  apply (Promotion.leader_holds_acknowledged demo_replicas demo_held demo_probes (node 1)
    (Some (n64 50)) (n64 70) (Promotion.collect demo_probes) (n64 70)).
  - intros probe offset Hin Hoff.
    assert (Forall (λ q, match ReplicaProbe.local_committed_offset q with
      | Some o => ReplicaProbe.node_id q ∈ demo_replicas ∧ o = demo_held (ReplicaProbe.node_id q)
      | None => True end) demo_probes) as Hall.
    { repeat constructor; vm_compute; reflexivity. }
    rewrite Forall_forall in Hall. specialize (Hall probe Hin). by rewrite Hoff in Hall.
  - exists [node 1; node 2]. split_and!.
    + apply (bool_decide_eq_true_1 _). vm_compute. reflexivity.
    + intros x Hx. set_solver.
    + apply (bool_decide_eq_true_1 _). vm_compute. reflexivity.
    + intros n Hn. assert (Forall (λ n, (ival (n64 70) <= ival (demo_held n))%Z) [node 1; node 2]) as Hall
        by (repeat constructor; vm_compute; congruence).
      rewrite Forall_forall in Hall. by apply Hall.
  - exact demo_established.
Defined.

Lemma most_complete_leads_witness :
  ∃ best boundary, Promotion.most_complete (Promotion.collect demo_probes) = Some best ∧
    Promotion.establish demo_probes 3 best.1 (Some (n64 80))
    = Some (Promotion.Established boundary (Promotion.collect demo_probes)).
Proof.
  apply (Promotion.most_complete_leads demo_probes 3 (Some (n64 80))).
  - apply (bool_decide_eq_true_1 _). vm_compute. reflexivity.
  - intros f [= <-]. exists (node 1), (n64 90). split; [vm_compute; reflexivity|vm_compute; congruence].
Defined.
