(* ===== verification/ChunkTree.v ===== *)
(** The chunk tree of a sealed segment (crates/vtop-log/src/proof.rs): a segment commits
    to its content with the root of a left-balanced binary tree over fixed-size chunks.

    The streaming builder computes the tree of the pre-split content whatever pieces it
    is fed, every chunk has a proof that verifies, and a proof that verifies shows one of
    the chunks.  The last of these does not say which one: see [relabelled_proof_accepted]. *)

From stdpp Require Import prelude list strings.
From Stdlib Require Import ZArith Lia.
From S2P Require Import Prelude Wire Placement.

Definition CHUNK_TREE_LEAF_CONTEXT : string := "vtop-engine 2026 segment-v2 chunk-tree leaf".
Definition CHUNK_TREE_NODE_CONTEXT : string := "vtop-engine 2026 segment-v2 chunk-tree node".
Definition CHUNK_TREE_EMPTY_CONTEXT : string := "vtop-engine 2026 segment-v2 chunk-tree empty".

Module ChunkParams.
Record t := mk { chunk_size : u32; chunk_count : u64 }.
End ChunkParams.

Module Side.
Inductive t := Left | Right.
#[global] Instance t_eq_dec : EqDecision t.
Proof. solve_decision. Defined.
End Side.

Module ChunkProof.
Record t := mk { index : u64; path : list (bytes32 * Side.t) }.
End ChunkProof.

(** [u64::leading_zeros] *)
Definition leading_zeros (x : Z) : Z := if decide (x = 0) then 64 else 63 - Z.log2 x.

(** The largest power of two strictly below [count], which is at least two. *)
Definition left_subtree_leaves (count : Z) : Z := Z.shiftl 1 (64 - 1 - leading_zeros (count - 1)).

Definition split_of {A} (leaves : list A) : nat :=
  Z.to_nat (left_subtree_leaves (Z.of_nat (length leaves))).

(** The loop of [expected_path_len]; every step halves the bound on [count], so the 64
    steps allowed reach a single leaf from any [u64] count. *)
Fixpoint path_len_loop (fuel : nat) (count index : Z) : nat :=
  match fuel with
  | O => O
  | S fuel =>
      if decide (1 < count) then
        let split := left_subtree_leaves count in
        if decide (index < split) then S (path_len_loop fuel split index)
        else S (path_len_loop fuel (count - split) (index - split))
      else O
  end.
Definition expected_path_len (chunk_count index : u64) : nat :=
  path_len_loop 64 (ival chunk_count) (ival index).

Section chunk_tree.
Context {hash : Blake3}.

Definition leaf_hash (chunk : list u8) : bytes32 := blake3_derive_key CHUNK_TREE_LEAF_CONTEXT chunk.
Definition empty_root : bytes32 := blake3_derive_key CHUNK_TREE_EMPTY_CONTEXT [].
Definition node_hash (left right : bytes32) : bytes32 :=
  blake3_derive_key CHUNK_TREE_NODE_CONTEXT (to_be_bytes left ++ to_be_bytes right).

(** The recursions over a list of leaves run on its length: both parts of a split are
    shorter. *)
Fixpoint tree_root_on (fuel : nat) (leaves : list bytes32) : bytes32 :=
  match fuel, leaves with
  | _, [] => empty_root
  | _, [leaf] => leaf
  | O, _ => empty_root
  | S fuel, _ =>
      let split := split_of leaves in
      node_hash (tree_root_on fuel (take split leaves)) (tree_root_on fuel (drop split leaves))
  end.
Definition tree_root (leaves : list bytes32) : bytes32 := tree_root_on (length leaves) leaves.

Fixpoint collect_path_on (fuel : nat) (leaves : list bytes32) (index : nat)
    : list (bytes32 * Side.t) :=
  match fuel with
  | O => []
  | S fuel =>
      if decide (length leaves < 2)%nat then []
      else
        let split := split_of leaves in
        if decide (index < split)%nat
        then collect_path_on fuel (take split leaves) index ++
             [(tree_root (drop split leaves), Side.Right)]
        else collect_path_on fuel (drop split leaves) (index - split) ++
             [(tree_root (take split leaves), Side.Left)]
  end.
Definition collect_path (leaves : list bytes32) (index : nat) : list (bytes32 * Side.t) :=
  collect_path_on (length leaves) leaves index.

(** [None] is the panic of an index out of range. *)
Definition prove_chunk (leaves : list bytes32) (index : u64) : option ChunkProof.t :=
  let position := Z.to_nat (ival index) in
  if decide (position < length leaves)%nat
  then Some (ChunkProof.mk index (collect_path leaves position)) else None.

(** One step of the loop that recomputes the root. *)
Definition join (current : bytes32) (step : bytes32 * Side.t) : bytes32 :=
  match step.2 with
  | Side.Left => node_hash step.1 current
  | Side.Right => node_hash current step.1
  end.

Definition verify_chunk (root : bytes32) (params : ChunkParams.t) (index : u64)
    (chunk_bytes : list u8) (proof : ChunkProof.t) : bool :=
  if decide (ChunkProof.index proof ≠ index ∨
             ival (ChunkParams.chunk_count params) <= ival index ∨
             ival (ChunkParams.chunk_size params) = 0) then false
  else
    let length' := Z.of_nat (length chunk_bytes) in
    let is_final := bool_decide (ival index + 1 = ival (ChunkParams.chunk_count params)) in
    let valid_length :=
      if is_final then bool_decide (0 < length' <= ival (ChunkParams.chunk_size params))
      else bool_decide (length' = ival (ChunkParams.chunk_size params)) in
    if negb valid_length
       || bool_decide (length (ChunkProof.path proof)
                       ≠ expected_path_len (ChunkParams.chunk_count params) index) then false
    else bool_decide (foldl join (leaf_hash chunk_bytes) (ChunkProof.path proof) = root).

(** * The streaming builder *)

Record ChunkTreeBuilder := mkBuilder {
  chunk_size : nat;
  pending : list u8;
  leaves : list bytes32
}.

(** [None] is the panic of a chunk size of zero. *)
Definition builder_new (size : u32) : option ChunkTreeBuilder :=
  if decide (ival size = 0) then None else Some (mkBuilder (Z.to_nat (ival size)) [] []).

(** The loop of [update]; a round takes at least one byte, so the number of bytes bounds
    the rounds. *)
Fixpoint builder_update_loop (fuel : nat) (b : ChunkTreeBuilder) (bytes : list u8)
    : ChunkTreeBuilder :=
  match fuel, bytes with
  | S fuel, _ :: _ =>
      let wanted := (chunk_size b - length (pending b))%nat in
      let taken := Nat.min wanted (length bytes) in
      let filled := pending b ++ take taken bytes in
      let b :=
        if decide (length filled = chunk_size b)
        then mkBuilder (chunk_size b) [] (leaves b ++ [leaf_hash filled])
        else mkBuilder (chunk_size b) filled (leaves b) in
      builder_update_loop fuel b (drop taken bytes)
  | _, _ => b
  end.
Definition builder_update (b : ChunkTreeBuilder) (bytes : list u8) : ChunkTreeBuilder :=
  builder_update_loop (length bytes) b bytes.

Definition builder_finalize (b : ChunkTreeBuilder) : list bytes32 * bytes32 :=
  let all := match pending b with [] => leaves b | _ => leaves b ++ [leaf_hash (pending b)] end in
  (all, tree_root all).

(** * The split *)

Lemma left_subtree_leaves_pow count :
  2 <= count → left_subtree_leaves count = 2 ^ Z.log2 (count - 1).
Proof.
  intros H. unfold left_subtree_leaves, leading_zeros. rewrite decide_False by lia.
  rewrite Z.shiftl_mul_pow2 by (pose proof (Z.log2_nonneg (count - 1)); lia).
  rewrite Z.mul_1_l. f_equal. lia.
Qed.

Lemma left_subtree_leaves_bounds count :
  2 <= count → 1 <= left_subtree_leaves count < count ∧ count <= 2 * left_subtree_leaves count.
Proof.
  intros H. rewrite left_subtree_leaves_pow by done.
  pose proof (Z.log2_spec (count - 1)) as Hs. pose proof (Z.log2_nonneg (count - 1)).
  rewrite Z.pow_succ_r in Hs by lia. pose proof (Z.pow_pos_nonneg 2 (Z.log2 (count - 1))). lia.
Qed.

Lemma split_bounds {A} (l : list A) : (2 <= length l)%nat → (1 <= split_of l < length l)%nat.
Proof.
  intros H. unfold split_of. pose proof (left_subtree_leaves_bounds (Z.of_nat (length l))). lia.
Qed.

(** Induction along the splits. *)
Lemma leaves_ind {A} (P : list A → Prop) :
  P [] → (∀ x, P [x]) →
  (∀ l, (2 <= length l)%nat → P (take (split_of l) l) → P (drop (split_of l) l) → P l) →
  ∀ l, P l.
Proof.
  intros Hnil Hone Hsplit l. induction l as [l IH] using (induction_ltof1 _ (@length A)).
  unfold ltof in IH. destruct l as [|x [|y l]]; [done|done|].
  pose proof (split_bounds (x :: y :: l)) as Hb. simpl length in Hb.
  apply Hsplit; [simpl; lia|apply IH..]; rewrite ?length_take, ?length_drop; simpl length; lia.
Qed.

Lemma take_drop_lengths {A} (l : list A) :
  (2 <= length l)%nat →
  (length (take (split_of l) l) < length l ∧ length (drop (split_of l) l) < length l)%nat.
Proof. intros H. pose proof (split_bounds l H). rewrite length_take, length_drop. lia. Qed.

(** * Equations of the recursive definitions *)

Lemma tree_root_on_split n l :
  (2 <= length l)%nat →
  tree_root_on (S n) l =
    node_hash (tree_root_on n (take (split_of l) l)) (tree_root_on n (drop (split_of l) l)).
Proof. intros Hl. by destruct l as [|x [|y l]]; [simpl in Hl; lia..|]. Qed.

Lemma tree_root_fuel l : ∀ n m, (length l <= n)%nat → (length l <= m)%nat →
  tree_root_on n l = tree_root_on m l.
Proof.
  induction l as [| |l Hl IHt IHd] using leaves_ind; intros n m Hn Hm.
  - by destruct n, m.
  - by destruct n, m.
  - destruct (take_drop_lengths l Hl). destruct n as [|n], m as [|m]; [lia..|].
    rewrite !tree_root_on_split by done. f_equal; [apply IHt|apply IHd]; lia.
Qed.

Lemma tree_root_split l :
  (2 <= length l)%nat →
  tree_root l = node_hash (tree_root (take (split_of l) l)) (tree_root (drop (split_of l) l)).
Proof.
  intros Hl. destruct (take_drop_lengths l Hl). unfold tree_root at 1.
  destruct (length l) as [|n] eqn:Hn; [lia|]. rewrite tree_root_on_split by lia.
  f_equal; apply tree_root_fuel; lia.
Qed.

Lemma collect_path_fuel l : ∀ i n m, (length l <= n)%nat → (length l <= m)%nat →
  collect_path_on n l i = collect_path_on m l i.
Proof.
  induction l as [| |l Hl IHt IHd] using leaves_ind; intros i n m Hn Hm.
  - by destruct n, m.
  - by destruct n, m.
  - destruct (take_drop_lengths l Hl). destruct n as [|n], m as [|m]; [lia..|].
    simpl. destruct (decide (length l < 2)%nat); [done|].
    case_decide; f_equal; [apply IHt|apply IHd]; lia.
Qed.

Lemma collect_path_short l i : (length l < 2)%nat → collect_path l i = [].
Proof. intros H. unfold collect_path. by destruct l as [|x [|y l]]; [..|simpl in H; lia]. Qed.

Lemma collect_path_split l i :
  (2 <= length l)%nat →
  collect_path l i =
    if decide (i < split_of l)%nat
    then collect_path (take (split_of l) l) i ++ [(tree_root (drop (split_of l) l), Side.Right)]
    else collect_path (drop (split_of l) l) (i - split_of l) ++
         [(tree_root (take (split_of l) l), Side.Left)].
Proof.
  intros Hl. destruct (take_drop_lengths l Hl). unfold collect_path at 1.
  destruct (length l) as [|n] eqn:Hn; [lia|]. simpl. rewrite decide_False by lia.
  case_decide; f_equal; apply collect_path_fuel; lia.
Qed.

(** * Every chunk has a proof *)

Lemma fold_collect_path l : ∀ i x, l !! i = Some x → foldl join x (collect_path l i) = tree_root l.
Proof.
  induction l as [|y|l Hl IHt IHd] using leaves_ind; intros i x Hx; [by rewrite lookup_nil in Hx| |].
  - rewrite collect_path_short by (simpl; lia). destruct i as [|i]; [by simplify_eq/=|].
    apply lookup_lt_Some in Hx. simpl in Hx. lia.
  - rewrite (collect_path_split l), (tree_root_split l) by done. case_decide as Hi.
    + rewrite foldl_app, (IHt i x) by (by rewrite lookup_take_lt). done.
    + rewrite foldl_app, (IHd (i - split_of l)%nat x); [done|].
      rewrite lookup_drop. by replace (split_of l + (i - split_of l))%nat with i by lia.
Qed.

Lemma path_len_loop_done n count i : count <= 1 → path_len_loop n count i = O.
Proof. intros H. destruct n; [done|]. simpl. by rewrite decide_False by lia. Qed.

Lemma log2_up_half count :
  2 <= count →
  Z.log2_up (left_subtree_leaves count) < Z.log2_up count ∧
  Z.log2_up (count - left_subtree_leaves count) < Z.log2_up count.
Proof.
  intros H. pose proof (left_subtree_leaves_bounds count H) as [Hb1 Hb2].
  assert (Z.log2_up (left_subtree_leaves count) < Z.log2_up count) as Hl.
  { rewrite left_subtree_leaves_pow by done. rewrite Z.log2_up_pow2 by apply Z.log2_nonneg.
    unfold Z.log2_up at 1. destruct (Z.compare_spec 1 count); [lia| |lia].
    rewrite <-Z.sub_1_r. lia. }
  split; [done|]. eapply Z.le_lt_trans; [|exact Hl]. apply Z.log2_up_le_mono. lia.
Qed.

Lemma collect_path_length l : ∀ i n,
  (i < length l)%nat → Z.log2_up (Z.of_nat (length l)) <= Z.of_nat n →
  path_len_loop n (Z.of_nat (length l)) (Z.of_nat i) = length (collect_path l i).
Proof.
  induction l as [|y|l Hl IHt IHd] using leaves_ind; intros i n Hi Hn; [simpl in Hi; lia| |].
  - by rewrite collect_path_short, path_len_loop_done by (simpl; lia).
  - pose proof (split_bounds l Hl) as Hb. destruct (log2_up_half (Z.of_nat (length l))) as [Hlt Hld];
      [lia|]. assert (0 <= Z.log2_up (left_subtree_leaves (Z.of_nat (length l))))
      by apply Z.log2_up_nonneg. destruct n as [|n]; [lia|].
    rewrite collect_path_split by done. cbn [path_len_loop]. rewrite decide_True by lia.
    assert (left_subtree_leaves (Z.of_nat (length l)) = Z.of_nat (split_of l)) as Hs.
    { unfold split_of. rewrite Z2Nat.id; [done|].
      pose proof (left_subtree_leaves_bounds (Z.of_nat (length l))). lia. }
    rewrite Hs in *. case_decide as Hc; case_decide; try lia; rewrite length_app, Nat.add_1_r; f_equal.
    + rewrite <-(IHt i n); rewrite length_take, Nat.min_l by lia; [done|lia|lia].
    + rewrite <-(IHd (i - split_of l)%nat n); rewrite length_drop; [f_equal; lia|lia|].
      rewrite Nat2Z.inj_sub by lia. lia.
Qed.

(** * The content, split at once *)

(** The reference: [content.chunks(size)]. *)
Fixpoint chunks_on (fuel size : nat) (content : list u8) : list (list u8) :=
  match fuel, content with
  | S fuel, _ :: _ => take size content :: chunks_on fuel size (drop size content)
  | _, _ => []
  end.
Definition chunks (size : nat) (content : list u8) : list (list u8) :=
  chunks_on (length content) size content.

Lemma chunks_fuel size content n m :
  (0 < size)%nat → (length content <= n)%nat → (length content <= m)%nat →
  chunks_on n size content = chunks_on m size content.
Proof.
  intros Hs. revert content m. induction n as [|n IH]; intros [|x content] m Hn Hm;
    [by destruct m|simpl in Hn; lia|by destruct m|].
  destruct m as [|m]; [simpl in Hm; lia|]. cbn [chunks_on]. f_equal.
  apply IH; rewrite length_drop; simpl in *; lia.
Qed.

Lemma chunks_cons size content :
  (0 < size)%nat → content ≠ [] →
  chunks size content = take size content :: chunks size (drop size content).
Proof.
  intros Hs Hne. destruct content as [|x content]; [done|]. unfold chunks at 1.
  simpl length. cbn [chunks_on]. f_equal. apply chunks_fuel; [done| |done].
  rewrite length_drop. simpl. lia.
Qed.

Lemma chunks_full size full rest :
  (0 < size)%nat → Forall (λ c, length c = size) full →
  chunks size (concat full ++ rest) = full ++ chunks size rest.
Proof.
  intros Hs. induction 1 as [|c full Hc _ IH]; [done|]. simpl.
  rewrite <-(assoc_L (++)), chunks_cons; [|done|].
  - by rewrite take_app_length', drop_app_length', IH.
  - intros Hnil. apply (f_equal length) in Hnil. rewrite length_app in Hnil. simpl in Hnil. lia.
Qed.

Lemma chunks_rest size rest :
  (0 < size)%nat → (length rest < size)%nat →
  chunks size rest = match rest with [] => [] | _ => [rest] end.
Proof.
  intros Hs Hlt. destruct rest as [|x rest]; [done|].
  rewrite chunks_cons, take_ge, drop_ge by (done || lia). done.
Qed.

(** What the geometry allows: only the last chunk may be short, and it is not empty. *)
Lemma chunks_geometry size content i c :
  (0 < size)%nat → chunks size content !! i = Some c →
  (0 < length c <= size)%nat ∧ (S i < length (chunks size content) → length c = size)%nat.
Proof.
  intros Hs. revert i. induction content as [content IH] using (induction_ltof1 _ (@length u8)).
  unfold ltof in IH. intros i. destruct (decide (content = [])) as [->|Hne]; [done|].
  rewrite chunks_cons by done. assert (0 < length content)%nat
    by (destruct content; [done|simpl; lia]).
  destruct i as [|i]; simpl.
  - intros [= <-]. rewrite length_take. split; [lia|]. intros Hl.
    destruct (decide (drop size content = [])) as [Hd|Hd]; [rewrite Hd in Hl; simpl in Hl; lia|].
    assert (length (drop size content) ≠ 0)%nat
      by (by destruct (drop size content)). rewrite length_drop in *. lia.
  - intros Hc. destruct (IH (drop size content)) with i as [Hl Hf]; [rewrite length_drop; lia|done|].
    split; [done|]. intros. apply Hf. lia.
Qed.

(** * The streaming builder computes the reference *)

(** The builder [b] has been fed [fed]. *)
Definition has_fed (size : nat) (b : ChunkTreeBuilder) (fed : list u8) : Prop :=
  chunk_size b = size ∧ (length (pending b) < size)%nat ∧
  ∃ full, Forall (λ c, length c = size) full ∧ leaves b = leaf_hash <$> full ∧
    fed = concat full ++ pending b.

Lemma update_fed size b fed bytes :
  (0 < size)%nat → has_fed size b fed → has_fed size (builder_update b bytes) (fed ++ bytes).
Proof.
  intros Hs. unfold builder_update. assert (length bytes <= length bytes)%nat as Hn by done.
  revert Hn. generalize (length bytes) at 2 3 as n. intros n. revert b fed bytes.
  induction n as [|n IH]; intros b fed [|x bytes] Hn Hb; [by rewrite app_nil_r|simpl in Hn; lia|
    by rewrite app_nil_r|].
  destruct Hb as (Hsize & Hp & full & Hfull & Hl & Hfed). cbn [builder_update_loop].
  set (taken := Nat.min _ _). assert (0 < taken <= length (x :: bytes))%nat as Ht
    by (subst taken; simpl; lia).
  replace (fed ++ x :: bytes) with ((fed ++ take taken (x :: bytes)) ++ drop taken (x :: bytes))
    by (by rewrite <-(assoc_L (++)), take_drop).
  apply IH; [rewrite length_drop; simpl in *; lia|].
  assert (length (pending b ++ take taken (x :: bytes)) = length (pending b) + taken)%nat as Hlen
    by (rewrite length_app, length_take; lia).
  case_decide as Hd; (split; [done|]); cbn.
  - split; [lia|]. exists (full ++ [pending b ++ take taken (x :: bytes)]). split_and!.
    + apply Forall_app. split; [done|]. constructor; [by rewrite Hd|done].
    + by rewrite Hl, fmap_app.
    + rewrite Hfed, concat_app. simpl. by rewrite !app_nil_r, <-(assoc_L (++)).
  - split; [rewrite Hlen in *; subst taken; lia|]. exists full. split_and!; [done|done|].
    by rewrite Hfed, <-(assoc_L (++)).
Qed.

Lemma updates_fed size pieces : ∀ b fed,
  (0 < size)%nat → has_fed size b fed →
  has_fed size (foldl builder_update b pieces) (fed ++ concat pieces).
Proof.
  induction pieces as [|piece pieces IH]; intros b fed Hs Hb; simpl; [by rewrite app_nil_r|].
  rewrite (assoc_L (++)). apply IH; [done|]. by apply update_fed.
Qed.

(** C31. However the content is cut into pieces, the streaming builder ends with the leaves of
    the content split at once, and with their root; it panics only on a chunk size of zero. *)
Theorem builder_streams size pieces :
  match builder_new size with
  | Some b =>
      let expected := leaf_hash <$> chunks (Z.to_nat (ival size)) (concat pieces) in
      builder_finalize (foldl builder_update b pieces) = (expected, tree_root expected)
  | None => ival size = 0
  end.
Proof.
  unfold builder_new. case_decide as Hz; [done|]. pose proof (u32_bounds size).
  set (n := Z.to_nat (ival size)). assert (0 < n)%nat as Hn by lia.
  destruct (updates_fed n pieces (mkBuilder n [] []) [] Hn) as (_ & Hp & full & Hfull & Hl & Hfed).
  { split; [done|]. split; [done|]. by exists []. }
  simpl in Hfed. cbn zeta. rewrite Hfed, chunks_full, fmap_app, chunks_rest by done.
  unfold builder_finalize. rewrite Hl.
  destruct (pending (foldl builder_update (mkBuilder n [] []) pieces)); simpl; [|done].
  by rewrite app_nil_r.
Qed.

(** * Proofs and what they show *)

(** The geometry of a content cut into chunks of [size] bytes, as its manifest records it. *)
Definition geometry (params : ChunkParams.t) (content : list u8) : Prop :=
  ival (ChunkParams.chunk_size params) ≠ 0 ∧
  ival (ChunkParams.chunk_count params)
    = Z.of_nat (length (chunks (Z.to_nat (ival (ChunkParams.chunk_size params))) content)).

Definition chunks_of (params : ChunkParams.t) (content : list u8) : list (list u8) :=
  chunks (Z.to_nat (ival (ChunkParams.chunk_size params))) content.

Lemma length_valid params content (index : u64) chunk :
  geometry params content → chunks_of params content !! Z.to_nat (ival index) = Some chunk →
  (if bool_decide (ival index + 1 = ival (ChunkParams.chunk_count params))
   then bool_decide (0 < Z.of_nat (length chunk) <= ival (ChunkParams.chunk_size params))
   else bool_decide (Z.of_nat (length chunk) = ival (ChunkParams.chunk_size params))) = true.
Proof.
  unfold chunks_of. intros [Hs Hc] Hx. pose proof (u64_bounds index).
  pose proof (u32_bounds (ChunkParams.chunk_size params)). pose proof (lookup_lt_Some _ _ _ Hx).
  apply chunks_geometry in Hx as [Hl Hf]; [|lia].
  destruct (bool_decide_reflect (ival index + 1 = ival (ChunkParams.chunk_count params)));
    apply bool_decide_eq_true; lia.
Qed.

Lemma path_len_spec params content (index : u64) :
  geometry params content → (Z.to_nat (ival index) < length (chunks_of params content))%nat →
  expected_path_len (ChunkParams.chunk_count params) index
  = length (collect_path (leaf_hash <$> chunks_of params content) (Z.to_nat (ival index))).
Proof.
  intros [Hs Hc] Hi. fold (chunks_of params content) in Hc. unfold expected_path_len.
  pose proof (u64_bounds index). pose proof (u64_bounds (ChunkParams.chunk_count params)).
  rewrite Hc, <-collect_path_length with (n := 64%nat); rewrite length_fmap; [|done|].
  - f_equal. lia.
  - change (Z.of_nat 64) with (Z.log2_up (2 ^ 64)). apply Z.log2_up_le_mono. lia.
Qed.

(** Every chunk has a proof, and the proof verifies against the root. *)
Theorem chunk_proofs_verify params content (index : u64) chunk :
  geometry params content →
  chunks_of params content !! Z.to_nat (ival index) = Some chunk →
  let leaves := leaf_hash <$> chunks_of params content in
  ∃ proof, prove_chunk leaves index = Some proof ∧
    verify_chunk (tree_root leaves) params index chunk proof = true.
Proof.
  intros Hg Hx leaves. pose proof (lookup_lt_Some _ _ _ Hx) as Hi.
  pose proof (u64_bounds index). unfold prove_chunk. subst leaves.
  rewrite decide_True by (by rewrite length_fmap). eexists. split; [done|].
  unfold verify_chunk. cbn [ChunkProof.index ChunkProof.path].
  pose proof Hg as [Hs Hc]. fold (chunks_of params content) in Hc.
  rewrite decide_False by (intros [?|[?|?]]; [done|lia|done]).
  rewrite (length_valid params content) by done. simpl.
  rewrite bool_decide_eq_false_2 by (rewrite (path_len_spec params content) by done; congruence).
  apply bool_decide_eq_true. apply fold_collect_path. by rewrite list_lookup_fmap, Hx.
Qed.

(** An input of the hash: a key-derivation context and the bytes hashed under it. *)
Definition hashed (input : string * list u8) : bytes32 := blake3_derive_key input.1 input.2.

(** The inputs hashed in the tree over some leaves, without the leaves themselves. *)
Fixpoint node_inputs_on (fuel : nat) (leaves : list bytes32) : list (string * list u8) :=
  match fuel with
  | O => []
  | S fuel =>
      if decide (length leaves < 2)%nat then []
      else
        let l := take (split_of leaves) leaves in
        let r := drop (split_of leaves) leaves in
        (CHUNK_TREE_NODE_CONTEXT, to_be_bytes (tree_root l) ++ to_be_bytes (tree_root r))
          :: node_inputs_on fuel l ++ node_inputs_on fuel r
  end.
Definition tree_inputs (chunks : list (list u8)) : list (string * list u8) :=
  ((λ chunk, (CHUNK_TREE_LEAF_CONTEXT, chunk)) <$> chunks) ++
  node_inputs_on (length chunks) (leaf_hash <$> chunks).

(** The inputs hashed when a chunk is checked against a path. *)
Definition join_input (current : bytes32) (step : bytes32 * Side.t) : string * list u8 :=
  (CHUNK_TREE_NODE_CONTEXT,
   match step.2 with
   | Side.Left => to_be_bytes step.1 ++ to_be_bytes current
   | Side.Right => to_be_bytes current ++ to_be_bytes step.1
   end).
Fixpoint path_inputs (current : bytes32) (path : list (bytes32 * Side.t))
    : list (string * list u8) :=
  match path with
  | [] => []
  | step :: path => join_input current step :: path_inputs (join current step) path
  end.
Definition check_inputs (chunk : list u8) (path : list (bytes32 * Side.t))
    : list (string * list u8) :=
  (CHUNK_TREE_LEAF_CONTEXT, chunk) :: path_inputs (leaf_hash chunk) path.

(** No two different ones of these inputs have the same digest. *)
Definition no_collision (inputs : list (string * list u8)) : Prop :=
  ∀ x y, x ∈ inputs → y ∈ inputs → hashed x = hashed y → x = y.

#[local] Ltac elem :=
  repeat first [rewrite elem_of_app|rewrite elem_of_cons|rewrite elem_of_nil]; tauto.

Lemma split_of_fmap {A B} (f : A → B) l : split_of (f <$> l) = split_of l.
Proof. unfold split_of. by rewrite length_fmap. Qed.

Lemma node_inputs_fuel l : ∀ n m, (length l <= n)%nat → (length l <= m)%nat →
  node_inputs_on n l = node_inputs_on m l.
Proof.
  induction l as [| |l Hl IHt IHd] using leaves_ind; intros n m Hn Hm; [by destruct n, m..|].
  destruct (take_drop_lengths l Hl). destruct n as [|n], m as [|m]; [lia..|].
  simpl. case_decide; [done|]. by rewrite (IHt n m), (IHd n m) by lia.
Qed.

Definition root_input (cs : list (list u8)) : string * list u8 :=
  (CHUNK_TREE_NODE_CONTEXT,
   to_be_bytes (tree_root (leaf_hash <$> take (split_of cs) cs)) ++
   to_be_bytes (tree_root (leaf_hash <$> drop (split_of cs) cs))).

Lemma tree_inputs_split cs :
  (2 <= length cs)%nat →
  root_input cs ∈ tree_inputs cs ∧
  tree_inputs (take (split_of cs) cs) ⊆ tree_inputs cs ∧
  tree_inputs (drop (split_of cs) cs) ⊆ tree_inputs cs.
Proof.
  intros Hl. destruct (take_drop_lengths cs Hl) as [Ht Hd]. unfold tree_inputs at 1 3 5.
  destruct (length cs) as [|n] eqn:Hn; [lia|]. cbn [node_inputs_on].
  rewrite decide_False by (rewrite length_fmap; lia). rewrite split_of_fmap, <-fmap_take, <-fmap_drop.
  assert (∀ part, length part < S n → part ⊆ cs →
    node_inputs_on n (leaf_hash <$> part) ⊆
      node_inputs_on n (leaf_hash <$> take (split_of cs) cs) ++
      node_inputs_on n (leaf_hash <$> drop (split_of cs) cs) →
    tree_inputs part ⊆
      ((λ chunk, (CHUNK_TREE_LEAF_CONTEXT, chunk)) <$> cs) ++ root_input cs ::
      node_inputs_on n (leaf_hash <$> take (split_of cs) cs) ++
      node_inputs_on n (leaf_hash <$> drop (split_of cs) cs))%nat as Hpart.
  { intros part Hlen Hsub Hnodes. unfold tree_inputs.
    rewrite (node_inputs_fuel _ _ n) by (rewrite ?length_fmap; lia).
    apply list_subseteq_app_iff_l. split.
    - apply list_subseteq_app_l. intros x (c & -> & Hc)%list_elem_of_fmap.
      apply list_elem_of_fmap. eauto.
    - intros x Hx%Hnodes. revert Hx. elem. }
  split_and!; [elem|apply Hpart..]; try lia.
  - apply subseteq_take.
  - intros x. elem.
  - apply subseteq_drop.
  - intros x. elem.
Qed.

Lemma path_inputs_snoc c path step :
  path_inputs c (path ++ [step]) = path_inputs c path ++ [join_input (foldl join c path) step].
Proof. revert c. induction path as [|s path IH]; intros c; simpl; [done|]. by rewrite IH. Qed.

Lemma hashed_join c step : hashed (join_input c step) = join c step.
Proof. by destruct step as [h []]. Qed.

Lemma no_collision_sub inputs inputs' :
  inputs' ⊆ inputs → no_collision inputs → no_collision inputs'.
Proof. intros Hsub Hn x y Hx Hy. apply Hn; by apply Hsub. Qed.

Lemma collect_path_fmap_split cs j :
  (2 <= length cs)%nat →
  collect_path (leaf_hash <$> cs) j =
    if decide (j < split_of cs)%nat
    then collect_path (leaf_hash <$> take (split_of cs) cs) j ++
         [(tree_root (leaf_hash <$> drop (split_of cs) cs), Side.Right)]
    else collect_path (leaf_hash <$> drop (split_of cs) cs) (j - split_of cs) ++
         [(tree_root (leaf_hash <$> take (split_of cs) cs), Side.Left)].
Proof.
  intros Hl. rewrite collect_path_split by (by rewrite length_fmap).
  by rewrite split_of_fmap, <-fmap_take, <-fmap_drop.
Qed.

Lemma hashed_root_input cs :
  (2 <= length cs)%nat → hashed (root_input cs) = tree_root (leaf_hash <$> cs).
Proof.
  intros Hl. rewrite (tree_root_split (leaf_hash <$> cs)) by (by rewrite length_fmap).
  by rewrite split_of_fmap, <-fmap_take, <-fmap_drop.
Qed.

Lemma leaf_input c : (CHUNK_TREE_LEAF_CONTEXT, c) ∈ tree_inputs [c].
Proof. apply elem_of_app. left. simpl. elem. Qed.

(** A path that leads from a chunk to the root is the path of a place where the chunk is. *)
Lemma path_sound cs : ∀ path chunk,
  cs ≠ [] → no_collision (tree_inputs cs ++ check_inputs chunk path) →
  foldl join (leaf_hash chunk) path = tree_root (leaf_hash <$> cs) →
  ∃ j, cs !! j = Some chunk ∧ path = collect_path (leaf_hash <$> cs) j.
Proof.
  unfold check_inputs.
  induction cs as [|c|cs Hl IHt IHd] using leaves_ind; intros path chunk Hne Hnc Hroot; [done|..];
    destruct path as [|step path _] using rev_ind; rewrite ?foldl_snoc in Hroot.
  - pose proof (leaf_input c). exists O. split; [|done]. simpl in Hroot. f_equal.
    assert ((CHUNK_TREE_LEAF_CONTEXT, c) = (CHUNK_TREE_LEAF_CONTEXT, chunk)) as [= ->]; [|done].
    apply Hnc; [elem..|]. done.
  - pose proof (leaf_input c). simpl in Hroot. rewrite <-hashed_join in Hroot.
    rewrite path_inputs_snoc in Hnc.
    assert (join_input (foldl join (leaf_hash chunk) path) step = (CHUNK_TREE_LEAF_CONTEXT, c))
      as [=]. apply Hnc; [elem..|]. done.
  - simpl in Hroot. destruct (tree_inputs_split cs Hl) as [Hr _]. rewrite <-hashed_root_input in Hroot
      by done. assert ((CHUNK_TREE_LEAF_CONTEXT, chunk) = root_input cs) as [=].
    apply Hnc; [elem..|]. done.
  - destruct (tree_inputs_split cs Hl) as (Hr & Hts & Hds).
    rewrite <-hashed_root_input, <-hashed_join in Hroot by done.
    rewrite path_inputs_snoc in Hnc. apply Hnc in Hroot; [|elem..]. apply (f_equal snd) in Hroot.
    pose proof (split_bounds cs Hl) as Hb.
    destruct step as [h []]; cbn [join_input root_input fst snd] in Hroot.
    + apply to_be_bytes_app_inj in Hroot as [-> Hroot%(inj to_be_bytes)].
      destruct (IHd path chunk) as (j & Hj & ->); [| |done|].
      { intros Hnil%(f_equal length). rewrite length_drop in Hnil. simpl in Hnil. lia. }
      { eapply no_collision_sub; [|exact Hnc]. intros x. specialize (Hds x). elem. }
      rewrite lookup_drop in Hj. exists (split_of cs + j)%nat. split; [done|].
      rewrite (collect_path_fmap_split cs) by done. rewrite decide_False by lia.
      do 2 f_equal. lia.
    + apply to_be_bytes_app_inj in Hroot as [Hroot ->%(inj to_be_bytes)].
      destruct (IHt path chunk) as (j & Hj & ->); [| |done|].
      { intros Hnil%(f_equal length). rewrite length_take in Hnil. simpl in Hnil. lia. }
      { eapply no_collision_sub; [|exact Hnc]. intros x. specialize (Hts x). elem. }
      apply lookup_take_Some in Hj as [Hj Hlt]. exists j. split; [done|].
      rewrite (collect_path_fmap_split cs) by done. by rewrite decide_True by lia.
Qed.

(** The sides of a path tell where it starts. *)
Lemma sides_determine l : ∀ i j,
  (i < length l)%nat → (j < length l)%nat →
  (collect_path l i).*2 = (collect_path l j).*2 → i = j.
Proof.
  induction l as [| |l Hl IHt IHd] using leaves_ind; intros i j Hi Hj; [simpl in *; lia..|].
  pose proof (split_bounds l Hl). rewrite !(collect_path_split l) by done.
  case_decide as Hci; case_decide as Hcj; rewrite !fmap_app; simpl;
    intros [Hp [=]]%app_inj_tail.
  - apply IHt; rewrite ?length_take; [lia..|done].
  - assert (i - split_of l = j - split_of l)%nat; [|lia].
    apply IHd; rewrite ?length_drop; [lia..|done].
Qed.

(** C32. What a verified proof shows.  If no two of the inputs hashed for the tree and for the
    check collide, a chunk that verifies is one of the chunks of the content and the path
    is that chunk's own; it is the chunk at the claimed index when the sides of the path
    are those of that index. *)
Theorem verified_chunk_present params content (index : u64) chunk proof :
  geometry params content →
  no_collision (tree_inputs (chunks_of params content) ++ check_inputs chunk (ChunkProof.path proof)) →
  let leaves := leaf_hash <$> chunks_of params content in
  verify_chunk (tree_root leaves) params index chunk proof = true →
  ∃ j, chunks_of params content !! j = Some chunk ∧
    ChunkProof.path proof = collect_path leaves j ∧
    ((ChunkProof.path proof).*2 = (collect_path leaves (Z.to_nat (ival index))).*2 →
     j = Z.to_nat (ival index)).
Proof.
  intros [Hs Hc] Hnc leaves. fold (chunks_of params content) in Hc. unfold verify_chunk.
  case_decide as Hd; [done|]. case_match; [done|]. rewrite bool_decide_eq_true. intros Hroot.
  pose proof (u64_bounds index).
  assert (Z.to_nat (ival index) < length (chunks_of params content))%nat as Hi
    by (destruct (Z.le_gt_cases (ival (ChunkParams.chunk_count params)) (ival index));
        [destruct Hd; auto|lia]).
  destruct (path_sound (chunks_of params content) (ChunkProof.path proof) chunk) as (j & Hj & Hp);
    [by intros Hnil; rewrite Hnil in Hi; simpl in Hi; lia|done|done|].
  exists j. split_and!; [done|done|]. rewrite Hp. unfold leaves.
  apply sides_determine; rewrite length_fmap; [|done].
  by eapply lookup_lt_Some.
Qed.

(** C40. The index of a proof is not bound to its path: the proof of the second of four chunks,
    relabelled as the first's, verifies, whatever the hash. *)
Theorem relabelled_proof_accepted (size : u32) (a b c d : list u8) :
  let full chunk := Z.of_nat (length chunk) = ival size in
  ival size ≠ 0 → full a → full b → full c → full d →
  let params := ChunkParams.mk size (wrap_int U64 4) in
  let leaves := leaf_hash <$> [a; b; c; d] in
  ∃ proof, prove_chunk leaves (wrap_int U64 1) = Some proof ∧
    verify_chunk (tree_root leaves) params (wrap_int U64 0) b
      (ChunkProof.mk (wrap_int U64 0) (ChunkProof.path proof)) = true.
Proof.
  intros full Hs Ha Hb Hc Hd params leaves. eexists. split; [done|].
  unfold verify_chunk. cbn [ChunkProof.index ChunkProof.path].
  rewrite decide_False by (intros [?|[Hle|?]]; [done|by cbv in Hle|done]).
  rewrite (bool_decide_eq_false_2 (_ + 1 = _)) by (by cbv).
  rewrite (bool_decide_eq_true_2 (Z.of_nat _ = _)) by done. simpl.
  apply bool_decide_eq_true. apply (fold_collect_path leaves 1). done.
Qed.
End chunk_tree.
