(* ===== verification/LogTypes.v ===== *)
(** The types of the segment log (crates/vtop-log/src/types.rs, codec.rs, codec_v2.rs):
    records, descriptors and limits of a segment in both format versions, and the errors
    of the crate.

    Byte positions and lengths inside a file are [nat], as the simulated disk has them; a
    number that is stored or compared at its width keeps it. *)

From stdpp Require Import prelude strings list pretty.
From Stdlib Require Import ZArith Lia.
From S2P Require Import Prelude Wire KeyRange Lineage Flow Storage.

Definition FORMAT_NAME : string := "vtop-native-segment".
Definition FORMAT_VERSION : u16 := wrap_int U16 1.
Definition FORMAT_VERSION_V2 : u16 := wrap_int U16 2.
Definition MAX_RECORD_BYTES : Z := 64 * 1024 * 1024.
Definition MAX_GROUP_BYTES : Z := 256 * 1024 * 1024.
Definition MAX_SEGMENT_BYTES : Z := 8 * 1024 * 1024 * 1024.
Definition MAX_SEGMENT_RECORDS : Z := 10000000.
Definition RECORD_FRAME_OVERHEAD_BYTES : Z := 12 + 8 + 16 + 8 + 8 + 4 + 4 + 32.
Definition RECORD_FRAME_OVERHEAD_BYTES_V2 : Z := 12 + 8 + 16 + 8 + 8 + 2 + 8 + 4 + 4 + 32.
Definition MIN_CHUNK_SIZE_BYTES : Z := 64 * 1024.
Definition MAX_CHUNK_SIZE_BYTES : Z := 16 * 1024 * 1024.
Definition PRODUCER_SEQUENCE_WINDOW : Z := 65536.

(** ** Errors *)

(** [vtop_log::LogError], in the variants the active segment reports.  Its
    [InvalidDescriptor] is the one the key ranges and lineages already use. *)
Inductive SegmentError :=
  | SegmentIo (path : PathBuf) (source : IoError)
  | InvalidConfig (detail : string)
  | OffsetBelowRange (requested earliest : u64)
  | Descriptor (error : LogError)
  | TailSealedWithoutSuccessor (directory : PathBuf)
  | Corrupt (position : nat) (reason : string)
  | UnsupportedVersion (version : u16)
  | FirstSequence (producer_id : Uuid) (actual : u64)
  | SequenceGap (producer_id : Uuid) (expected actual : u64)
  | SequenceConflict (producer_id : Uuid) (sequence : u64)
  | SequenceBelowWindow (producer_id : Uuid) (producer_epoch sequence window_floor : u64)
  | ProducerFenced (producer_id : Uuid) (latest_epoch actual_epoch : u64)
  | RecordTooLarge (actual : Z) (maximum : u32)
  | GroupTooLarge (actual maximum : u64)
  | SegmentByteLimit (current attempted maximum : u64)
  | SegmentRecordLimit (attempted maximum : u64)
  | AlreadySealed
  | WriterPoisoned
  | ManifestMismatch (detail : string)
  | CommitBoundaryMismatch (detail : string)
  | InvalidCursor (detail : string)
  | UnsupportedRecordField (field : string)
  | TruncateBeyondTail (requested next_offset : u64).

Abbreviation log_result := (result SegmentError).

Definition invalid_descriptor (detail : string) : SegmentError :=
  Descriptor (InvalidDescriptor detail).

(** [Display] of the errors a sequence check reports. *)
Definition sequence_error_display `{!Fmt} (e : SegmentError) : string :=
  match e with
  | FirstSequence producer_id actual =>
      "producer " +:+ uuid_display producer_id +:+ " must start at sequence 0, got " +:+ int_display actual
  | SequenceGap producer_id expected actual =>
      "producer " +:+ uuid_display producer_id +:+ " sequence gap: expected " +:+ int_display expected
        +:+ ", got " +:+ int_display actual
  | SequenceConflict producer_id sequence =>
      "producer " +:+ uuid_display producer_id +:+ " reused sequence " +:+ int_display sequence
        +:+ " with different record content"
  | SequenceBelowWindow producer_id producer_epoch sequence window_floor =>
      "producer " +:+ uuid_display producer_id +:+ " epoch " +:+ int_display producer_epoch
        +:+ " sequence " +:+ int_display sequence +:+ " is below the retry window floor "
        +:+ int_display window_floor +:+ "; its idempotency can no longer be verified"
  | ProducerFenced producer_id latest_epoch actual_epoch =>
      "producer " +:+ uuid_display producer_id +:+ " epoch " +:+ int_display actual_epoch
        +:+ " is fenced by newer epoch " +:+ int_display latest_epoch +:+ " in this segment"
  | _ => ""
  end.

(** ** Records *)

Module LogRecord.
Record t := mk {
  producer_id : Uuid;
  producer_epoch : u64;
  sequence : u64;
  timestamp_millis : i64;
  attributes : u16;
  key : list u8;
  value : list u8
}.
#[global] Instance t_eq_dec : EqDecision t.
Proof. solve_decision. Defined.
End LogRecord.

Inductive Durability := Buffered | Fsync.
#[global] Instance Durability_eq_dec : EqDecision Durability.
Proof. solve_decision. Defined.

Inductive AppendOutcome := Appended (offset : u64) | Duplicate (offset : u64).
#[global] Instance AppendOutcome_eq_dec : EqDecision AppendOutcome.
Proof. solve_decision. Defined.

Module FetchBatch.
Record t := mk {
  records : list (u64 * LogRecord.t);
  encoded_bytes : nat;
  next_offset : u64;
  high_watermark : u64
}.
End FetchBatch.

Module RecoveryReport.
Record t := mk { records : u64; recovered_bytes : nat; truncated_bytes : nat; next_offset : u64 }.
End RecoveryReport.

Module TruncateOutcome.
Record t := mk { records_removed : u64; bytes_removed : nat; next_offset : u64 }.
End TruncateOutcome.

(** ** Descriptors and limits *)

(** [u8::is_ascii_alphanumeric], or one of the punctuation a topic may hold. *)
Definition topic_byte (byte : u8) : bool :=
  bool_decide (48 <= ival byte <= 57 ∨ 65 <= ival byte <= 90 ∨ 97 <= ival byte <= 122
    ∨ ival byte = 46 ∨ ival byte = 95 ∨ ival byte = 45).

(** The checks both descriptor versions share; [None] is a panic of the lineage check. *)
Definition validate_topic_and_lineage (topic : string) (lineage : RangeLineage.t)
    : option (log_result unit) :=
  if decide (topic = EmptyString ∨ 249 < str_len topic) then
    Some (Err (invalid_descriptor "topic length must be between 1 and 249 bytes"))
  else if existsb (λ byte, negb (topic_byte byte)) (as_bytes topic) then
    Some (Err (invalid_descriptor "topic may contain only ASCII letters, digits, '.', '_' and '-'"))
  else
    r ← RangeLineage.validate lineage;
    Some (match r with Ok _ => Ok tt | Err e => Err (Descriptor e) end).

Module SegmentDescriptor.
Record t := mk {
  segment_id : Uuid;
  topic : string;
  topic_epoch : u64;
  lineage : RangeLineage.t;
  base_offset : u64
}.
#[global] Instance t_eq_dec : EqDecision t.
Proof. solve_decision. Defined.
Definition validate (self : t) : option (log_result unit) :=
  validate_topic_and_lineage (topic self) (lineage self).
End SegmentDescriptor.

Module SegmentDescriptorV2.
Record t := mk {
  segment_id : Uuid;
  topic : string;
  topic_epoch : u64;
  lineage : RangeLineage.t;
  base_offset : u64;
  segment_generation : u64;
  creation_node_id : Uuid;
  creation_fencing_epoch : u64
}.
#[global] Instance t_eq_dec : EqDecision t.
Proof. solve_decision. Defined.
Definition validate (self : t) : option (log_result unit) :=
  validate_topic_and_lineage (topic self) (lineage self).
End SegmentDescriptorV2.

(** The limits both versions share, checked against the frame overhead of the version. *)
Definition validate_limits (version : string) (overhead : Z) (max_record_bytes : u32)
    (max_group_bytes max_segment_bytes max_segment_records : u64) (index_stride : u32)
    : log_result unit :=
  if decide (ival max_record_bytes = 0 ∨ MAX_RECORD_BYTES < ival max_record_bytes) then
    Err (InvalidConfig ("max_record_bytes must be in 1..=" +:+ pretty MAX_RECORD_BYTES))
  else if decide (ival max_group_bytes = 0 ∨ MAX_GROUP_BYTES < ival max_group_bytes) then
    Err (InvalidConfig ("max_group_bytes must be in 1..=" +:+ pretty MAX_GROUP_BYTES))
  else if decide (ival max_group_bytes < ival max_record_bytes + overhead) then
    Err (InvalidConfig ("max_group_bytes must fit max_record_bytes plus " +:+ version
      +:+ " frame overhead"))
  else if decide (ival max_segment_bytes < ival max_group_bytes
                  ∨ MAX_SEGMENT_BYTES < ival max_segment_bytes) then
    Err (InvalidConfig ("max_segment_bytes must be in max_group_bytes..=" +:+ pretty MAX_SEGMENT_BYTES))
  else if decide (ival max_segment_records = 0 ∨ MAX_SEGMENT_RECORDS < ival max_segment_records) then
    Err (InvalidConfig ("max_segment_records must be in 1..=" +:+ pretty MAX_SEGMENT_RECORDS))
  else if decide (ival index_stride = 0) then
    Err (InvalidConfig "index_stride must be greater than zero")
  else Ok tt.

Module SegmentConfig.
Record t := mk {
  max_record_bytes : u32;
  max_group_bytes : u64;
  max_segment_bytes : u64;
  max_segment_records : u64;
  index_stride : u32
}.
#[global] Instance t_eq_dec : EqDecision t.
Proof. solve_decision. Defined.
Definition validate (self : t) : log_result t :=
  validate_limits "v1" RECORD_FRAME_OVERHEAD_BYTES (max_record_bytes self) (max_group_bytes self)
    (max_segment_bytes self) (max_segment_records self) (index_stride self);;
  Ok self.
End SegmentConfig.

(** [u32::is_power_of_two] *)
Definition is_power_of_two (x : Z) : bool := bool_decide (0 < x ∧ x = 2 ^ Z.log2 x).

Module SegmentConfigV2.
Record t := mk {
  max_record_bytes : u32;
  max_group_bytes : u64;
  max_segment_bytes : u64;
  max_segment_records : u64;
  index_stride : u32;
  chunk_size : u32
}.
#[global] Instance t_eq_dec : EqDecision t.
Proof. solve_decision. Defined.
Definition validate (self : t) : log_result t :=
  validate_limits "v2" RECORD_FRAME_OVERHEAD_BYTES_V2 (max_record_bytes self) (max_group_bytes self)
    (max_segment_bytes self) (max_segment_records self) (index_stride self);;
  if negb (is_power_of_two (ival (chunk_size self)))
     || negb (bool_decide (MIN_CHUNK_SIZE_BYTES <= ival (chunk_size self) <= MAX_CHUNK_SIZE_BYTES))
  then Err (InvalidConfig ("chunk_size must be a power of two in " +:+ pretty MIN_CHUNK_SIZE_BYTES
    +:+ "..=" +:+ pretty MAX_CHUNK_SIZE_BYTES))
  else Ok self.
End SegmentConfigV2.

Module SegmentHeader.
Record t := mk {
  format : string;
  version : u16;
  descriptor : SegmentDescriptor.t;
  config : SegmentConfig.t
}.
#[global] Instance t_eq_dec : EqDecision t.
Proof. solve_decision. Defined.
Definition new (descriptor : SegmentDescriptor.t) (config : SegmentConfig.t) : t :=
  mk FORMAT_NAME FORMAT_VERSION descriptor config.
End SegmentHeader.

Module SegmentHeaderV2.
Record t := mk {
  format : string;
  version : u16;
  descriptor : SegmentDescriptorV2.t;
  config : SegmentConfigV2.t
}.
#[global] Instance t_eq_dec : EqDecision t.
Proof. solve_decision. Defined.
Definition new (descriptor : SegmentDescriptorV2.t) (config : SegmentConfigV2.t) : t :=
  mk FORMAT_NAME FORMAT_VERSION_V2 descriptor config.
End SegmentHeaderV2.

Module AnyHeader.
Inductive t := V1 (header : SegmentHeader.t) | V2 (header : SegmentHeaderV2.t).

Definition format_version (h : t) : u16 :=
  match h with V1 _ => FORMAT_VERSION | V2 _ => FORMAT_VERSION_V2 end.
Definition segment_id (h : t) : Uuid :=
  match h with
  | V1 h => SegmentDescriptor.segment_id (SegmentHeader.descriptor h)
  | V2 h => SegmentDescriptorV2.segment_id (SegmentHeaderV2.descriptor h)
  end.
Definition base_offset (h : t) : u64 :=
  match h with
  | V1 h => SegmentDescriptor.base_offset (SegmentHeader.descriptor h)
  | V2 h => SegmentDescriptorV2.base_offset (SegmentHeaderV2.descriptor h)
  end.
Definition topic (h : t) : string :=
  match h with
  | V1 h => SegmentDescriptor.topic (SegmentHeader.descriptor h)
  | V2 h => SegmentDescriptorV2.topic (SegmentHeaderV2.descriptor h)
  end.
Definition topic_epoch (h : t) : u64 :=
  match h with
  | V1 h => SegmentDescriptor.topic_epoch (SegmentHeader.descriptor h)
  | V2 h => SegmentDescriptorV2.topic_epoch (SegmentHeaderV2.descriptor h)
  end.
Definition lineage (h : t) : RangeLineage.t :=
  match h with
  | V1 h => SegmentDescriptor.lineage (SegmentHeader.descriptor h)
  | V2 h => SegmentDescriptorV2.lineage (SegmentHeaderV2.descriptor h)
  end.
Definition range_id (h : t) : Uuid := RangeLineage.range_id (lineage h).
Definition range_generation (h : t) : u64 := RangeLineage.generation (lineage h).
Definition max_record_bytes (h : t) : u32 :=
  match h with
  | V1 h => SegmentConfig.max_record_bytes (SegmentHeader.config h)
  | V2 h => SegmentConfigV2.max_record_bytes (SegmentHeaderV2.config h)
  end.
Definition max_group_bytes (h : t) : u64 :=
  match h with
  | V1 h => SegmentConfig.max_group_bytes (SegmentHeader.config h)
  | V2 h => SegmentConfigV2.max_group_bytes (SegmentHeaderV2.config h)
  end.
Definition max_segment_bytes (h : t) : u64 :=
  match h with
  | V1 h => SegmentConfig.max_segment_bytes (SegmentHeader.config h)
  | V2 h => SegmentConfigV2.max_segment_bytes (SegmentHeaderV2.config h)
  end.
Definition max_segment_records (h : t) : u64 :=
  match h with
  | V1 h => SegmentConfig.max_segment_records (SegmentHeader.config h)
  | V2 h => SegmentConfigV2.max_segment_records (SegmentHeaderV2.config h)
  end.
Definition index_stride (h : t) : u32 :=
  match h with
  | V1 h => SegmentConfig.index_stride (SegmentHeader.config h)
  | V2 h => SegmentConfigV2.index_stride (SegmentHeaderV2.config h)
  end.

(** The identity of the segment in the shape of version 1. *)
Definition v1_descriptor_view (h : t) : SegmentDescriptor.t :=
  SegmentDescriptor.mk (segment_id h) (topic h) (topic_epoch h) (lineage h) (base_offset h).
End AnyHeader.
