(* ===== verification/RecordCodec.v ===== *)
(** Record frames of the segment log (crates/vtop-log/src/codec.rs and codec_v2.rs): the
    two encodings, and the reader that tells a complete frame from a torn one and from
    corruption.

    The reader inverts the encoders and accepts nothing else, and a frame cut short at any
    byte is torn, never corrupt and never a record. *)

From stdpp Require Import prelude strings list pretty.
From Stdlib Require Import ZArith Lia.
From S2P Require Import Prelude Wire Storage LogTypes.

Definition RECORD_MAGIC : list u8 := as_bytes "VTOPREC1".
Definition RECORD_MAGIC_V2 : list u8 := as_bytes "VTOPREC2".
Definition CHECKSUM_LEN : nat := 32.
Definition FRAME_PREFIX_LEN : nat := 12.
Definition RECORD_FIXED_BODY_LEN : nat := Z.to_nat RECORD_FRAME_OVERHEAD_BYTES - FRAME_PREFIX_LEN.
Definition RECORD_FIXED_BODY_LEN_V2 : nat :=
  Z.to_nat RECORD_FRAME_OVERHEAD_BYTES_V2 - FRAME_PREFIX_LEN.

Definition ok_or {E A} (e : E) (o : option A) : result E A :=
  match o with Some a => Ok a | None => Err e end.

(** [u32::try_from] of a [usize]. *)
Definition u32_try_from (z : Z) : option u32 :=
  if decide (0 <= z <= 4294967295) then Some (wrap_int U32 z) else None.

Module DecodedFrame.
Record t := mk {
  relative_offset : u64;
  record : LogRecord.t;
  encoded_len : nat;
  encoded : list u8
}.
End DecodedFrame.

Inductive FrameRead := Complete (frame : DecodedFrame.t) | End | Torn.

(** Consecutive fixed-width fields of a byte slice. *)
Definition take_int (t : int_ty) (bytes : list u8) : int t * list u8 :=
  (from_be_bytes t (take (int_bytes t) bytes), drop (int_bytes t) bytes).

Section frames.
Context {hash : Blake3Hash}.

Definition record_content_hash (record : LogRecord.t) : bytes32 :=
  blake3_hash
    (to_be_bytes (LogRecord.producer_id record) ++ to_be_bytes (LogRecord.sequence record) ++
     to_be_bytes (LogRecord.timestamp_millis record) ++
     to_be_bytes (wrap_int U64 (Z.of_nat (length (LogRecord.key record)))) ++ LogRecord.key record ++
     to_be_bytes (wrap_int U64 (Z.of_nat (length (LogRecord.value record)))) ++ LogRecord.value record).

Definition record_payload_len (record : LogRecord.t) : log_result Z :=
  let sum := Z.of_nat (length (LogRecord.key record)) + Z.of_nat (length (LogRecord.value record)) in
  if decide (sum < u64_end) then Ok sum
  else Err (RecordTooLarge (u64_end - 1) (wrap_int U32 4294967295)).

(** The checks that precede the bytes of a frame: the three lengths it stores. *)
Definition frame_lengths (fixed : nat) (record : LogRecord.t) (maximum : u32)
    : log_result (u32 * u32 * u32) :=
  payload_len ← record_payload_len record;
  let too_large := RecordTooLarge payload_len maximum in
  if decide (ival maximum < payload_len) then Err too_large
  else
    key_len ← ok_or too_large (u32_try_from (Z.of_nat (length (LogRecord.key record))));
    value_len ← ok_or too_large (u32_try_from (Z.of_nat (length (LogRecord.value record))));
    body_len ← ok_or too_large (u32_try_from (Z.of_nat fixed + payload_len));
    Ok (key_len, value_len, body_len).

Definition seal_frame (encoded : list u8) : list u8 := encoded ++ to_be_bytes (blake3_hash encoded).

Definition encode_record (record : LogRecord.t) (relative_offset : u64) (maximum : u32)
    : log_result (list u8) :=
  '(key_len, value_len, body_len) ← frame_lengths RECORD_FIXED_BODY_LEN record maximum;
  Ok (seal_frame
    (RECORD_MAGIC ++ to_be_bytes body_len ++ to_be_bytes relative_offset ++
     to_be_bytes (LogRecord.producer_id record) ++ to_be_bytes (LogRecord.sequence record) ++
     to_be_bytes (LogRecord.timestamp_millis record) ++ to_be_bytes key_len ++
     to_be_bytes value_len ++ LogRecord.key record ++ LogRecord.value record)).

Definition encode_record_v2 (record : LogRecord.t) (relative_offset : u64) (maximum : u32)
    : log_result (list u8) :=
  if decide (ival (LogRecord.attributes record) ≠ 0) then Err (UnsupportedRecordField "attributes")
  else
    '(key_len, value_len, body_len) ← frame_lengths RECORD_FIXED_BODY_LEN_V2 record maximum;
    Ok (seal_frame
      (RECORD_MAGIC_V2 ++ to_be_bytes body_len ++ to_be_bytes relative_offset ++
       to_be_bytes (LogRecord.producer_id record) ++ to_be_bytes (LogRecord.producer_epoch record) ++
       to_be_bytes (LogRecord.sequence record) ++ to_be_bytes (LogRecord.attributes record) ++
       to_be_bytes (LogRecord.timestamp_millis record) ++ to_be_bytes key_len ++
       to_be_bytes value_len ++ LogRecord.key record ++ LogRecord.value record)).

(** ** Reading *)

(** Key and value fill the rest of the payload. *)
Definition split_payload (position : nat) (key_len value_len : u32) (rest : list u8)
    : log_result (list u8 * list u8) :=
  if decide (ival key_len + ival value_len = Z.of_nat (length rest))
  then Ok (take (Z.to_nat (ival key_len)) rest, drop (Z.to_nat (ival key_len)) rest)
  else Err (Corrupt position "record key/value lengths do not match the frame").

Definition fields_v1 (position : nat) (payload : list u8) : log_result (u64 * LogRecord.t) :=
  let '(relative_offset, l) := take_int U64 payload in
  let '(producer_id, l) := take_int U128 l in
  let '(sequence, l) := take_int U64 l in
  let '(timestamp_millis, l) := take_int I64 l in
  let '(key_len, l) := take_int U32 l in
  let '(value_len, l) := take_int U32 l in
  '(key, value) ← split_payload position key_len value_len l;
  Ok (relative_offset, LogRecord.mk producer_id zero sequence timestamp_millis zero key value).

(** [{attributes:#06x}] *)
Definition hex_digit (n : Z) : string :=
  match String.get (Z.to_nat n) "0123456789abcdef" with Some c => String c "" | None => "" end.
Definition hex4 (n : Z) : string :=
  "0x" +:+ hex_digit (n / 4096 `mod` 16) +:+ hex_digit (n / 256 `mod` 16)
    +:+ hex_digit (n / 16 `mod` 16) +:+ hex_digit (n `mod` 16).

Definition fields_v2 (position : nat) (payload : list u8) : log_result (u64 * LogRecord.t) :=
  let '(relative_offset, l) := take_int U64 payload in
  let '(producer_id, l) := take_int U128 l in
  let '(producer_epoch, l) := take_int U64 l in
  let '(sequence, l) := take_int U64 l in
  let '(attributes, l) := take_int U16 l in
  if decide (ival attributes ≠ 0) then
    Err (Corrupt position ("record attributes must be zero in schema v2, got " +:+ hex4 (ival attributes)))
  else
    let '(timestamp_millis, l) := take_int I64 l in
    let '(key_len, l) := take_int U32 l in
    let '(value_len, l) := take_int U32 l in
    '(key, value) ← split_payload position key_len value_len l;
    Ok (relative_offset,
        LogRecord.mk producer_id producer_epoch sequence timestamp_millis attributes key value).

(** What distinguishes [read_frame] from [read_frame_v2]. *)
Record FrameFormat := mkFormat {
  magic : list u8;
  fixed_body_len : nat;
  fields : nat → list u8 → log_result (u64 * LogRecord.t)
}.
Definition format_v1 : FrameFormat := mkFormat RECORD_MAGIC RECORD_FIXED_BODY_LEN fields_v1.
Definition format_v2 : FrameFormat := mkFormat RECORD_MAGIC_V2 RECORD_FIXED_BODY_LEN_V2 fields_v2.

(** The first part of a frame, from the bytes of the prefix that could be read: the body's
    length, or the end of the reading. *)
Definition check_prefix (fmt : FrameFormat) (position : nat) (maximum : u32) (prefix : list u8)
    : log_result (FrameRead + nat) :=
  if decide (length prefix = 0)%nat then Ok (inl End)
  else if decide (length prefix < FRAME_PREFIX_LEN)%nat then
    let comparable := Nat.min (length prefix) (length (magic fmt)) in
    if decide (take comparable prefix ≠ take comparable (magic fmt))
    then Err (Corrupt position "invalid record magic in incomplete frame")
    else Ok (inl Torn)
  else if decide (take 8 prefix ≠ magic fmt) then Err (Corrupt position "invalid record magic")
  else
    let body_len := Z.to_nat (ival (from_be_bytes U32 (drop 8 prefix))) in
    let largest := (fixed_body_len fmt + Z.to_nat (ival maximum))%nat in
    if decide (fixed_body_len fmt <= body_len <= largest)%nat then Ok (inr body_len)
    else Err (Corrupt position ("invalid record frame length " +:+ pretty (N.of_nat body_len))).

(** The second part, from the bytes of the body that could be read. *)
Definition check_body (fmt : FrameFormat) (position : nat) (prefix : list u8) (body_len : nat)
    (body : list u8) : log_result FrameRead :=
  if decide (length body < body_len)%nat then Ok Torn
  else
    let payload_end := (body_len - CHECKSUM_LEN)%nat in
    if decide (to_be_bytes (blake3_hash (prefix ++ take payload_end body)) ≠ drop payload_end body)
    then Err (Corrupt position "record checksum mismatch")
    else
      '(relative_offset, record) ← fields fmt position (take payload_end body);
      let encoded := prefix ++ body in
      Ok (Complete (DecodedFrame.mk relative_offset record (length encoded) encoded)).

(** The whole reading of the bytes at hand. *)
Definition decode_frame (fmt : FrameFormat) (position : nat) (maximum : u32) (bytes : list u8)
    : log_result FrameRead :=
  let prefix := take FRAME_PREFIX_LEN bytes in
  r ← check_prefix fmt position maximum prefix;
  match r with
  | inl read => Ok read
  | inr body_len =>
      check_body fmt position prefix body_len (take body_len (drop FRAME_PREFIX_LEN bytes))
  end.

(** ** Reading from a file *)

(** The loops that fill a buffer until it is full or the file ends; a turn that does not
    end the loop reads at least one byte. *)
Fixpoint read_some_loop (fuel : nat) (f : SimFile.t) (n : nat) (read : list u8)
    : Sim (list u8 * SimFile.t) :=
  match n, fuel with
  | O, _ | _, O => mret (read, f)
  | S _, S fuel =>
      '(bytes, f) ← file_read f n;
      if decide (length bytes = 0)%nat then mret (read, f)
      else read_some_loop fuel f (n - length bytes) (read ++ bytes)
  end.
Definition read_some (f : SimFile.t) (n : nat) : Sim (list u8 * SimFile.t) :=
  read_some_loop n f n [].

(** The placeholder path of errors met below the level that knows the file. *)
Definition segment_path : PathBuf := Path false [as_bytes "<segment>"].

Definition sim_lift {E A} (r : result E A) : SimE E A := λ s, Some (s, r).

Definition read_frame_with (fmt : FrameFormat) (f : SimFile.t) (position : nat) (maximum : u32)
    : SimE SegmentError (FrameRead * SimFile.t) :=
  '(prefix, f) ← map_err (SegmentIo segment_path) (read_some f FRAME_PREFIX_LEN);
  r ← sim_lift (check_prefix fmt position maximum prefix);
  match r with
  | inl read => mret (read, f)
  | inr body_len =>
      '(body, f) ← map_err (SegmentIo segment_path) (read_some f body_len);
      read ← sim_lift (check_body fmt position prefix body_len body);
      mret (read, f)
  end.

Definition read_frame := read_frame_with format_v1.
Definition read_frame_v2 := read_frame_with format_v2.

(** Dispatch on the version of a segment (segment.rs). *)
Definition encode_record_any (header : AnyHeader.t) (record : LogRecord.t) (relative_offset : u64)
    : log_result (list u8) :=
  match header with
  | AnyHeader.V1 v1 =>
      encode_record record relative_offset (SegmentConfig.max_record_bytes (SegmentHeader.config v1))
  | AnyHeader.V2 v2 =>
      encode_record_v2 record relative_offset
        (SegmentConfigV2.max_record_bytes (SegmentHeaderV2.config v2))
  end.

Definition read_frame_any (format_version : u16) (f : SimFile.t) (position : nat) (maximum : u32)
    : SimE SegmentError (FrameRead * SimFile.t) :=
  if decide (format_version = FORMAT_VERSION_V2) then read_frame_v2 f position maximum
  else read_frame f position maximum.

(** ** The codec, for both versions at once *)

Definition payload_v1 (r : LogRecord.t) (rel : u64) (key_len value_len : u32) : list u8 :=
  to_be_bytes rel ++ to_be_bytes (LogRecord.producer_id r) ++ to_be_bytes (LogRecord.sequence r) ++
  to_be_bytes (LogRecord.timestamp_millis r) ++ to_be_bytes key_len ++ to_be_bytes value_len ++
  LogRecord.key r ++ LogRecord.value r.

Definition payload_v2 (r : LogRecord.t) (rel : u64) (key_len value_len : u32) : list u8 :=
  to_be_bytes rel ++ to_be_bytes (LogRecord.producer_id r) ++
  to_be_bytes (LogRecord.producer_epoch r) ++ to_be_bytes (LogRecord.sequence r) ++
  to_be_bytes (LogRecord.attributes r) ++ to_be_bytes (LogRecord.timestamp_millis r) ++
  to_be_bytes key_len ++ to_be_bytes value_len ++ LogRecord.key r ++ LogRecord.value r.

(** The records a version can represent. *)
Definition plain_v1 (r : LogRecord.t) : Prop :=
  LogRecord.producer_epoch r = zero ∧ LogRecord.attributes r = zero.
Definition plain_v2 (r : LogRecord.t) : Prop := LogRecord.attributes r = zero.

Definition len32 (l : list u8) : u32 := wrap_int U32 (Z.of_nat (length l)).
Definition fits32 (l : list u8) : Prop := Z.of_nat (length l) <= 4294967295.

Lemma ival_len32 l : fits32 l → ival (len32 l) = Z.of_nat (length l).
Proof. unfold fits32, len32. intros. apply wrap_int_small.
  change (0 <= Z.of_nat (length l) <= 4294967295). lia. Qed.

(** What a format promises about its fields. *)
Record format_ok (fmt : FrameFormat) (payload : LogRecord.t → u64 → u32 → u32 → list u8)
    (plain : LogRecord.t → Prop) : Prop := {
  fo_magic : length (magic fmt) = 8%nat;
  fo_fixed : (CHECKSUM_LEN <= fixed_body_len fmt)%nat ∧ Z.of_nat (fixed_body_len fmt) <= 200;
  fo_length r rel kl vl :
    length (payload r rel kl vl)
    = (fixed_body_len fmt - CHECKSUM_LEN + length (LogRecord.key r) + length (LogRecord.value r))%nat;
  fo_read pos r rel :
    plain r → fits32 (LogRecord.key r) → fits32 (LogRecord.value r) →
    fields fmt pos (payload r rel (len32 (LogRecord.key r)) (len32 (LogRecord.value r))) = Ok (rel, r);
  fo_inv pos bytes rel r :
    (fixed_body_len fmt - CHECKSUM_LEN <= length bytes)%nat → fields fmt pos bytes = Ok (rel, r) →
    plain r ∧ fits32 (LogRecord.key r) ∧ fits32 (LogRecord.value r) ∧
    bytes = payload r rel (len32 (LogRecord.key r)) (len32 (LogRecord.value r));
}.

Lemma take_int_app {t} (a : int t) l : take_int t (to_be_bytes a ++ l) = (a, l).
Proof.
  unfold take_int. rewrite take_app_length', drop_app_length' by (by rewrite length_to_be_bytes).
  by rewrite from_to_be_bytes.
Qed.

Lemma take_int_inv t l :
  (int_bytes t <= length l)%nat → l = to_be_bytes (take_int t l).1 ++ (take_int t l).2.
Proof.
  intros H. unfold take_int. simpl. rewrite to_from_be_bytes by (rewrite length_take; lia).
  by rewrite take_drop.
Qed.

Lemma split_payload_app pos key value :
  fits32 key → fits32 value →
  split_payload pos (len32 key) (len32 value) (key ++ value) = Ok (key, value).
Proof.
  intros Hk Hv. unfold split_payload. rewrite !ival_len32 by done.
  rewrite decide_True by (rewrite length_app; lia). rewrite Nat2Z.id.
  by rewrite take_app_length, drop_app_length.
Qed.

Lemma split_payload_inv pos kl vl rest key value :
  split_payload pos kl vl rest = Ok (key, value) →
  rest = key ++ value ∧ fits32 key ∧ fits32 value ∧ kl = len32 key ∧ vl = len32 value.
Proof.
  unfold split_payload. case_decide as Hd; [|done]. intros [= <- <-]. rewrite take_drop.
  pose proof (u32_bounds kl). pose proof (u32_bounds vl).
  assert (Z.of_nat (length (take (Z.to_nat (ival kl)) rest)) = ival kl) as Hkl
    by (rewrite length_take; lia).
  assert (Z.of_nat (length (drop (Z.to_nat (ival kl)) rest)) = ival vl) as Hvl
    by (rewrite length_drop; lia).
  unfold fits32, len32. rewrite Hkl, Hvl, !wrap_int_ival. split_and!; [done|lia|lia|done|done].
Qed.

(** Reads the next field of the payload in [H]. *)
#[local] Ltac next_field H :=
  match type of H with
  | context [take_int ?t ?l] =>
      let Hl := fresh "Hl" in let a := fresh "a" in let l' := fresh "l" in
      pose proof (take_int_inv t l) as Hl;
      assert (length (take_int t l).2 = length l - int_bytes t)%nat by (apply length_drop);
      destruct (take_int t l) as [a l']; cbn [fst snd] in *
  end.

#[local] Ltac record_cbn :=
  cbn [int_bytes fields format_v1 format_v2 LogRecord.producer_id LogRecord.producer_epoch
    LogRecord.sequence LogRecord.timestamp_millis LogRecord.attributes LogRecord.key
    LogRecord.value] in *.

Lemma format_v1_ok : format_ok format_v1 payload_v1 plain_v1.
Proof.
  split; [done|split; [by apply Nat.leb_le|by apply Z.leb_le]|..].
  - intros. unfold payload_v1. rewrite !length_app, !length_to_be_bytes.
    change (fixed_body_len format_v1 - CHECKSUM_LEN)%nat with 48%nat. cbn [int_bytes]. lia.
  - intros pos [] rel [He Ha] Hk Hv. record_cbn. subst. unfold fields_v1, payload_v1. record_cbn.
    rewrite !take_int_app. by rewrite split_payload_app by done.
  - intros pos bytes rel r Hlen H. cbn [fields format_v1] in H. unfold fields_v1 in H.
    change (fixed_body_len format_v1 - CHECKSUM_LEN)%nat with 48%nat in Hlen.
    repeat next_field H. apply result_bind_Ok in H as ([key value] & H & [= <- <-]).
    apply split_payload_inv in H as (-> & Hk & Hv & -> & ->). record_cbn. split_and!; try done.
    unfold payload_v1. record_cbn.
    repeat match goal with Hl : (_ <= _)%nat → _ = _ |- _ => specialize (Hl ltac:(lia)) end.
    by subst.
Qed.

Lemma format_v2_ok : format_ok format_v2 payload_v2 plain_v2.
Proof.
  split; [done|split; [by apply Nat.leb_le|by apply Z.leb_le]|..].
  - intros. unfold payload_v2. rewrite !length_app, !length_to_be_bytes.
    change (fixed_body_len format_v2 - CHECKSUM_LEN)%nat with 58%nat. cbn [int_bytes]. lia.
  - intros pos [] rel Ha Hk Hv. unfold plain_v2 in Ha. record_cbn. subst.
    unfold fields_v2, payload_v2. record_cbn. rewrite !take_int_app. rewrite decide_False by (by intros []).
    rewrite ?take_int_app. by rewrite split_payload_app by done.
  - intros pos bytes rel r Hlen H. cbn [fields format_v2] in H. unfold fields_v2 in H.
    change (fixed_body_len format_v2 - CHECKSUM_LEN)%nat with 58%nat in Hlen.
    repeat next_field H. case_decide as Hz; [done|].
    repeat next_field H. apply result_bind_Ok in H as ([key value] & H & [= <- <-]).
    apply split_payload_inv in H as (-> & Hk & Hv & -> & ->). record_cbn. split_and!; try done.
    + by apply int_eq.
    + unfold payload_v2. record_cbn.
      repeat match goal with Hl : (_ <= _)%nat → _ = _ |- _ => specialize (Hl ltac:(lia)) end.
      by subst.
Qed.

Lemma u32_try_from_Ok {E} (e : E) z x :
  ok_or e (u32_try_from z) = Ok x → 0 <= z <= 4294967295 ∧ x = wrap_int U32 z ∧ ival x = z.
Proof.
  unfold u32_try_from. case_decide as Hz; [|done]. intros [= <-].
  split_and!; [lia..|done|]. by apply wrap_int_small.
Qed.

Lemma u32_try_from_fit {E} (e : E) z :
  0 <= z <= 4294967295 → ok_or e (u32_try_from z) = Ok (wrap_int U32 z).
Proof. intros Hz. unfold u32_try_from. by rewrite decide_True. Qed.

Lemma record_payload_len_Ok r n :
  record_payload_len r = Ok n →
  n = Z.of_nat (length (LogRecord.key r)) + Z.of_nat (length (LogRecord.value r)).
Proof. unfold record_payload_len. case_decide; [|done]. by intros [= <-]. Qed.

(** The length checks pass exactly on the records that fit. *)
Lemma frame_lengths_Ok fixed r maximum kl vl bl :
  Z.of_nat fixed <= 200 →
  frame_lengths fixed r maximum = Ok (kl, vl, bl) →
  fits32 (LogRecord.key r) ∧ fits32 (LogRecord.value r) ∧
  kl = len32 (LogRecord.key r) ∧ vl = len32 (LogRecord.value r) ∧
  let size := Z.of_nat (length (LogRecord.key r)) + Z.of_nat (length (LogRecord.value r)) in
  size <= ival maximum ∧ ival bl = Z.of_nat fixed + size.
Proof.
  intros Hfixed (size & ->%record_payload_len_Ok & H)%result_bind_Ok.
  destruct (decide (ival maximum < _)) as [|Hmax]; [done|].
  apply result_bind_Ok in H as (? & (Hk & -> & _)%u32_try_from_Ok & H).
  apply result_bind_Ok in H as (? & (Hv & -> & _)%u32_try_from_Ok & H).
  apply result_bind_Ok in H as (? & (_ & _ & Hbl)%u32_try_from_Ok & [= <- <- <-]).
  unfold fits32. split_and!; [lia|lia|done|done|lia|done].
Qed.

Lemma frame_lengths_fit fixed r maximum :
  fits32 (LogRecord.key r) → fits32 (LogRecord.value r) → Z.of_nat fixed <= 200 →
  let size := Z.of_nat (length (LogRecord.key r)) + Z.of_nat (length (LogRecord.value r)) in
  size <= ival maximum → Z.of_nat fixed + size <= 4294967295 →
  frame_lengths fixed r maximum
  = Ok (len32 (LogRecord.key r), len32 (LogRecord.value r), wrap_int U32 (Z.of_nat fixed + size)).
Proof.
  intros Hk Hv Hfixed size Hmax Hbl. unfold fits32 in *.
  unfold frame_lengths, record_payload_len. subst size.
  rewrite decide_True by (unfold u64_end; lia). cbn [mbind result_bind]. rewrite decide_False by lia.
  by rewrite !u32_try_from_fit by lia.
Qed.

Section format.
Context (fmt : FrameFormat) (payload : LogRecord.t → u64 → u32 → u32 → list u8)
  (plain : LogRecord.t → Prop) (Hfmt : format_ok fmt payload plain).

(** The encoder of a format. *)
Definition encode_with (r : LogRecord.t) (rel : u64) (maximum : u32) : log_result (list u8) :=
  '(kl, vl, bl) ← frame_lengths (fixed_body_len fmt) r maximum;
  Ok (seal_frame (magic fmt ++ to_be_bytes bl ++ payload r rel kl vl)).

(** The frame as prefix, payload and checksum. *)
Lemma encode_with_parts r rel maximum bytes :
  encode_with r rel maximum = Ok bytes →
  fits32 (LogRecord.key r) ∧ fits32 (LogRecord.value r) ∧
  ∃ prefix body (bl : u32),
    bytes = prefix ++ body ∧ prefix = magic fmt ++ to_be_bytes bl ∧
    length prefix = FRAME_PREFIX_LEN ∧
    length body = Z.to_nat (ival bl) ∧
    (fixed_body_len fmt <= Z.to_nat (ival bl) <= fixed_body_len fmt + Z.to_nat (ival maximum))%nat ∧
    let pl := payload r rel (len32 (LogRecord.key r)) (len32 (LogRecord.value r)) in
    length pl = (Z.to_nat (ival bl) - CHECKSUM_LEN)%nat ∧
    body = pl ++ to_be_bytes (blake3_hash (prefix ++ pl)).
Proof.
  destruct Hfmt as [Hmagic [Hfix Hfix'] Hlen _ _]. unfold encode_with.
  intros ([[kl vl] bl] & Hl & [= <-])%result_bind_Ok.
  apply frame_lengths_Ok in Hl as (Hk & Hv & -> & -> & Hmax & Hbl); [|done].
  split_and!; [done|done|]. pose proof (u32_bounds maximum).
  set (pl := payload r rel (len32 (LogRecord.key r)) (len32 (LogRecord.value r))).
  assert (length pl = Z.to_nat (ival bl) - CHECKSUM_LEN)%nat as Hpl.
  { subst pl. rewrite Hlen. unfold CHECKSUM_LEN in *. lia. }
  exists (magic fmt ++ to_be_bytes bl), (pl ++ to_be_bytes (blake3_hash (magic fmt ++ to_be_bytes bl ++ pl))), bl.
  split_and!; [|done| | | | | |].
  - unfold seal_frame. by rewrite <-!(assoc_L (++)).
  - rewrite length_app, Hmagic, length_to_be_bytes. done.
  - rewrite length_app, Hpl, length_to_be_bytes. unfold CHECKSUM_LEN in *. cbn [int_bytes]. lia.
  - lia.
  - lia.
  - done.
  - by rewrite <-(assoc_L (++)).
Qed.

Lemma check_prefix_full pos maximum prefix (bl : u32) :
  prefix = magic fmt ++ to_be_bytes bl →
  (fixed_body_len fmt <= Z.to_nat (ival bl) <= fixed_body_len fmt + Z.to_nat (ival maximum))%nat →
  check_prefix fmt pos maximum prefix = Ok (inr (Z.to_nat (ival bl))).
Proof.
  pose proof (fo_magic _ _ _ Hfmt) as Hmagic. intros -> Hb. unfold check_prefix.
  assert (length (magic fmt ++ to_be_bytes bl) = 12)%nat as Hlen
    by (rewrite length_app, Hmagic, length_to_be_bytes; done).
  rewrite !decide_False by (rewrite Hlen; unfold FRAME_PREFIX_LEN; lia).
  rewrite take_app_length', drop_app_length' by done. rewrite decide_False by (by intros []).
  rewrite from_to_be_bytes. by rewrite decide_True.
Qed.

(** Reading inverts encoding, whatever follows the frame. *)
Lemma decode_encode_frame pos r rel maximum bytes rest :
  plain r → encode_with r rel maximum = Ok bytes →
  decode_frame fmt pos maximum (bytes ++ rest)
  = Ok (Complete (DecodedFrame.mk rel r (length bytes) bytes)).
Proof.
  intros Hp (Hk & Hv & prefix & body & bl & -> & Hprefix & Hlp & Hlb & Hbl & Hpl & Hbody)%encode_with_parts.
  unfold decode_frame. rewrite <-(assoc_L (++)), take_app_length', drop_app_length' by done.
  rewrite (check_prefix_full pos maximum prefix bl) by done. simpl.
  rewrite take_app_length' by done. unfold check_body. rewrite decide_False by lia.
  subst body. rewrite !take_app_length', !drop_app_length' by done.
  rewrite decide_False by (by intros []).
  by rewrite (fo_read _ _ _ Hfmt) by done.
Qed.

(** A frame cut anywhere inside is torn. *)
Lemma decode_cut_frame pos r rel maximum bytes n :
  encode_with r rel maximum = Ok bytes → (0 < n < length bytes)%nat →
  decode_frame fmt pos maximum (take n bytes) = Ok Torn.
Proof.
  pose proof (fo_magic _ _ _ Hfmt) as Hmagic.
  intros (Hk & Hv & prefix & body & bl & -> & Hprefix & Hlp & Hlb & Hbl & _)%encode_with_parts Hn.
  rewrite length_app in Hn. unfold decode_frame, FRAME_PREFIX_LEN in *.
  destruct (decide (n < 12)%nat) as [Hs|Hs].
  - rewrite take_app_le, (take_ge (take n prefix)) by (rewrite ?length_take; lia).
    unfold check_prefix. rewrite length_take, Nat.min_l by lia.
    rewrite decide_False, decide_True by (unfold FRAME_PREFIX_LEN; lia).
    rewrite decide_False; [done|]. intros Hne. destruct Hne. 
    rewrite Hmagic, take_take. rewrite Hprefix, take_app_le by (rewrite Hmagic; lia). f_equal. lia.
  - rewrite take_app_ge by lia. rewrite Hlp.
    rewrite take_app_length', drop_app_length' by done.
    rewrite (check_prefix_full pos maximum prefix bl) by done. simpl. unfold check_body.
    by rewrite decide_True by (rewrite !length_take; lia).
Qed.

Lemma check_prefix_inv pos maximum bytes n :
  check_prefix fmt pos maximum (take FRAME_PREFIX_LEN bytes) = Ok (inr n) →
  ∃ bl : u32, take FRAME_PREFIX_LEN bytes = magic fmt ++ to_be_bytes bl ∧ n = Z.to_nat (ival bl) ∧
    (fixed_body_len fmt <= n <= fixed_body_len fmt + Z.to_nat (ival maximum))%nat.
Proof.
  pose proof (fo_magic _ _ _ Hfmt) as Hmagic. unfold check_prefix, FRAME_PREFIX_LEN.
  case_decide; [done|]. case_decide as Hlen; [case_decide; done|]. rewrite length_take in Hlen.
  case_decide as Hm; [done|]. cbv zeta.
  assert (take 12 bytes = magic fmt ++ to_be_bytes (from_be_bytes U32 (drop 8 (take 12 bytes))))
    as Hprefix.
  { rewrite to_from_be_bytes by (rewrite length_drop, length_take; cbn [int_bytes]; lia).
    by rewrite <-Hm, take_drop. }
  generalize dependent (from_be_bytes U32 (drop 8 (take 12 bytes))). intros bl Hprefix.
  case_decide; [|done]. intros [= <-]. by exists bl.
Qed.

Lemma check_prefix_incomplete pos maximum prefix frame :
  check_prefix fmt pos maximum prefix ≠ Ok (inl (Complete frame)).
Proof. unfold check_prefix. by repeat (cbv zeta; case_decide). Qed.

(** What is read as a record is the encoding of that record. *)
Lemma decode_frame_inv pos maximum bytes frame :
  decode_frame fmt pos maximum bytes = Ok (Complete frame) →
  plain (DecodedFrame.record frame) ∧
  encode_with (DecodedFrame.record frame) (DecodedFrame.relative_offset frame) maximum
    = Ok (DecodedFrame.encoded frame) ∧
  DecodedFrame.encoded_len frame = length (DecodedFrame.encoded frame) ∧
  ∃ rest, bytes = DecodedFrame.encoded frame ++ rest.
Proof.
  intros (r & Hprefix & H)%result_bind_Ok. destruct r as [read|n].
  { injection H as ->. by apply check_prefix_incomplete in Hprefix. }
  apply check_prefix_inv in Hprefix as (bl & Hprefix & -> & Hbl).
  set (n := Z.to_nat (ival bl)) in *. set (body := take n _) in *. unfold check_body in H.
  case_decide as Hlen; [done|]. assert (length body = n) as Hbody
    by (subst body; rewrite length_take in *; lia).
  case_decide as Hsum; [done|].
  apply result_bind_Ok in H as ([rel record] & Hf & [= <-]). cbn.
  destruct Hfmt as [Hmagic [Hfix Hfix'] Hplen _ Hinv]. unfold CHECKSUM_LEN in *.
  apply Hinv in Hf as (Hp & Hk & Hv & Hpayload); [|rewrite length_take; lia].
  split_and!; [done| |done|].
  - pose proof (f_equal length Hpayload) as Hsize. rewrite Hplen, length_take in Hsize.
    pose proof (u32_bounds bl). pose proof (u32_bounds maximum).
    unfold encode_with. rewrite frame_lengths_fit by (done || lia). cbn [mbind result_bind].
    assert (wrap_int U32 (Z.of_nat (fixed_body_len fmt) +
      (Z.of_nat (length (LogRecord.key record)) + Z.of_nat (length (LogRecord.value record)))) = bl) as ->.
    { rewrite <-(wrap_int_ival bl). f_equal. lia. }
    f_equal. unfold seal_frame. rewrite (assoc_L (++) (magic fmt)), <-Hprefix, <-Hpayload.
    by rewrite Hsum, <-(assoc_L (++)), take_drop.
  - exists (drop n (drop FRAME_PREFIX_LEN bytes)). subst body.
    by rewrite <-(assoc_L (++)), take_drop, take_drop.
Qed.
End format.

(** ** The codec of a segment *)

Definition format_of (header : AnyHeader.t) : FrameFormat :=
  match header with AnyHeader.V1 _ => format_v1 | AnyHeader.V2 _ => format_v2 end.

(** The records a segment can represent. *)
Definition representable (header : AnyHeader.t) (r : LogRecord.t) : Prop :=
  match header with AnyHeader.V1 _ => plain_v1 r | AnyHeader.V2 _ => plain_v2 r end.

(** The frames of a segment, read from the bytes at hand. *)
Definition decode_any (header : AnyHeader.t) (position : nat) (bytes : list u8)
    : log_result FrameRead :=
  decode_frame (format_of header) position (AnyHeader.max_record_bytes header) bytes.

Definition payload_of (header : AnyHeader.t) :=
  match header with AnyHeader.V1 _ => payload_v1 | AnyHeader.V2 _ => payload_v2 end.

Lemma format_of_ok header : format_ok (format_of header) (payload_of header) (representable header).
Proof. destruct header; [apply format_v1_ok|apply format_v2_ok]. Qed.

Lemma encode_record_any_with header r rel :
  representable header r →
  encode_record_any header r rel
  = encode_with (format_of header) (payload_of header) r rel (AnyHeader.max_record_bytes header).
Proof.
  destruct header; simpl; [done|]. unfold plain_v2. intros Ha. unfold encode_record_v2.
  rewrite decide_False; [done|]. rewrite Ha. intros Hne. by destruct Hne.
Qed.

Lemma decode_any_frame header pos r rel bytes rest :
  representable header r → encode_record_any header r rel = Ok bytes →
  decode_any header pos (bytes ++ rest) = Ok (Complete (DecodedFrame.mk rel r (length bytes) bytes)).
Proof.
  intros Hr He. rewrite encode_record_any_with in He by done.
  by apply (decode_encode_frame _ _ _ (format_of_ok header)).
Qed.

Lemma encode_any_length header r rel bytes :
  representable header r → encode_record_any header r rel = Ok bytes → (FRAME_PREFIX_LEN < length bytes)%nat.
Proof.
  intros Hr He. rewrite encode_record_any_with in He by done.
  apply (encode_with_parts _ _ _ (format_of_ok header)) in He
    as (_ & _ & prefix & body & bl & -> & _ & Hp & Hb & Hlen & _).
  rewrite length_app, Hp, Hb. assert (0 < fixed_body_len (format_of header))%nat; [|lia].
  destruct header; by apply Nat.ltb_lt.
Qed.

(** C38. Frames are written and read exactly: a record that a segment can represent is read
    back from its frame whatever follows it, a frame cut at any byte is torn, an end of
    file is an end, and any bytes read as a record begin with the one frame that the
    encoder produces for that record. *)
Theorem frame_codec_exact (header : AnyHeader.t) (pos : nat) (r : LogRecord.t) (rel : u64) :
  decode_any header pos [] = Ok End ∧
  (∀ bytes rest, representable header r → encode_record_any header r rel = Ok bytes →
     decode_any header pos (bytes ++ rest)
       = Ok (Complete (DecodedFrame.mk rel r (length bytes) bytes)) ∧
     ∀ n, (0 < n < length bytes)%nat → decode_any header pos (take n bytes) = Ok Torn) ∧
  (∀ bytes encoded_len encoded,
     decode_any header pos bytes = Ok (Complete (DecodedFrame.mk rel r encoded_len encoded)) →
     representable header r ∧ encode_record_any header r rel = Ok encoded ∧
     encoded_len = length encoded ∧ encoded `prefix_of` bytes).
Proof.
  split_and!; [done| |].
  - intros bytes rest Hr He. split; [by apply decode_any_frame|]. intros n Hn.
    rewrite encode_record_any_with in He by done.
    by eapply (decode_cut_frame _ _ _ (format_of_ok header)).
  - intros bytes len encoded Hd.
    apply (decode_frame_inv _ _ _ (format_of_ok header)) in Hd as (Hr & He & Hlen & Hpre).
    split_and!; [done|by rewrite encode_record_any_with|done|exact Hpre].
Qed.
End frames.
