(* ===== verification/DiskView.v ===== *)
(** Reasoning about computations that touch several files of the simulated disk.

    A [view] is the content of a disk: the names and the data of the inodes.  The state
    [up D e] has the durable view [base D], the operations [pend D] pending in order, and
    shows [visible D]; a crash leaves [survivor D k], what the first [k] pending operations
    made of the durable view.  The specification [view_spec F G c Q] runs [c] under an
    arbitrary fault plan: it does not panic, it establishes [Q] when it succeeds, and when
    it fails every view a crash can leave from there on satisfies [G].  Without a fault
    plan it fails only if [F]. *)

From stdpp Require Import gmap strings list.
From Stdlib Require Import ZArith Lia.
From S2P Require Import Prelude Wire Storage DiskLogic.
#[local] Open Scope nat_scope.

(** * Views *)

Record view := View {
  v_ns : gmap PathBuf nat;
  v_data : list (list u8);
  v_dirs : gset PathBuf;
}.

Definition view_op (v : view) (op : PendingOp.t) : view :=
  match op with
  | PendingOp.Data i op => View (v_ns v) (alter (λ c, apply_data_op c op) i (v_data v)) (v_dirs v)
  | PendingOp.Namespace op => View (apply_ns_op (v_ns v) op) (v_data v) (v_dirs v)
  end.
Definition view_ops (v : view) (ops : list PendingOp.t) : view := foldl view_op v ops.

(** The content of a file. *)
Definition content (v : view) (p : PathBuf) : option (list u8) :=
  i ← v_ns v !! p; v_data v !! i.

Record disk := Disk { base : view; pend : list PendingOp.t }.

Definition visible (D : disk) : view := view_ops (base D) (pend D).
Definition survivor (D : disk) (k : nat) : view := view_ops (base D) (take k (pend D)).
Definition push (D : disk) (op : PendingOp.t) : disk := Disk (base D) (pend D ++ [op]).

Definition durable_view (s : SimState.t) : view :=
  View (SimState.ns_durable s) (Inode.durable <$> SimState.inodes s) (SimState.dirs s).
Definition visible_view (s : SimState.t) : view :=
  View (SimState.ns_visible s) (Inode.visible <$> SimState.inodes s) (SimState.dirs s).

Record up (D : disk) (e : nat) (s : SimState.t) : Prop := {
  up_ok : sim_ok s;
  up_up : SimState.crashed s = false;
  up_epoch : SimState.epoch s = e;
  up_base : durable_view s = base D;
  up_pend : SimState.pending s = pend D;
  up_visible : visible_view s = visible D;
}.

(** A disk with nothing pending, whether up or down. *)
Record still (v : view) (s : SimState.t) : Prop := {
  st_ok : sim_ok s;
  st_durable : durable_view s = v;
  st_visible : visible_view s = v;
  st_pend : SimState.pending s = [];
}.

(** Every view a crash can leave satisfies [G]. *)
Definition survives (G : view → Prop) (D : disk) : Prop := ∀ k, G (survivor D k).

Definition failed (G : view → Prop) (s : SimState.t) : Prop :=
  if SimState.crashed s then ∃ v, still v s ∧ G v
  else ∃ D, up D (SimState.epoch s) s ∧ survives G D.

Definition view_spec {E A} (F : Prop) (G : view → Prop) (c : SimE E A) (Q : SimState.t → A → Prop)
    (s : SimState.t) : Prop :=
  io_wp c (λ s' r,
    (SimState.plan s = FaultPlan.NoFault → SimState.plan s' = FaultPlan.NoFault) ∧
    match r with
    | Ok a => Q s' a
    | Err _ => (SimState.plan s = FaultPlan.NoFault → F) ∧ failed G s'
    end) s.

(** ** Laws of views *)

Lemma view_ops_app v l k : view_ops v (l ++ k) = view_ops (view_ops v l) k.
Proof. apply foldl_app. Qed.

Lemma view_ops_ns v l : v_ns (view_ops v l) = foldl apply_ns_op (v_ns v) (omap ns_op l).
Proof.
  revert v. induction l as [|op l IH]; intros v; [done|]. simpl. rewrite IH. by destruct op.
Qed.

Lemma view_ops_dirs v l : v_dirs (view_ops v l) = v_dirs v.
Proof.
  revert v. induction l as [|op l IH]; intros v; [done|]. simpl. rewrite IH. by destruct op.
Qed.

Lemma view_ops_data v l i :
  v_data (view_ops v l) !! i = (λ c, apply_ops c (data_of i l)) <$> v_data v !! i.
Proof.
  revert v. induction l as [|op l IH]; intros v.
  { unfold apply_ops. simpl. by destruct (v_data v !! i). }
  change (view_ops v (op :: l)) with (view_ops (view_op v op) l).
  rewrite IH, data_of_cons. destruct op as [j op|op]; simpl; [|done].
  destruct (decide (j = i)) as [->|Hij].
  - rewrite list_lookup_alter_eq. by destruct (v_data v !! i).
  - by rewrite list_lookup_alter_ne.
Qed.

Lemma view_ext v w :
  v_ns v = v_ns w → (∀ i, v_data v !! i = v_data w !! i) → v_dirs v = v_dirs w → v = w.
Proof. destruct v, w. simpl. intros -> Hd%list_eq ->. by subst. Qed.

Lemma visible_push D op : visible (push D op) = view_op (visible D) op.
Proof. unfold visible, push. simpl. by rewrite view_ops_app. Qed.

Lemma survivor_all D k : length (pend D) <= k → survivor D k = visible D.
Proof. intros Hk. unfold survivor. by rewrite take_ge. Qed.

Lemma survives_push G D op :
  survives G D → G (view_op (visible D) op) → survives G (push D op).
Proof.
  intros HD Hop k. unfold survivor, push. simpl.
  destruct (decide (k <= length (pend D))) as [Hk|Hk].
  - rewrite take_app_le by done. apply HD.
  - rewrite take_ge by (rewrite length_app; simpl; lia). by rewrite view_ops_app.
Qed.

Lemma survives_visible G D : survives G D → G (visible D).
Proof. intros H. rewrite <-(survivor_all D (length (pend D))) by done. apply H. Qed.

Lemma survives_none G v : survives G (Disk v []) ↔ G v.
Proof.
  split; [intros H; apply (H 0)|]. intros H k. unfold survivor. simpl. by rewrite take_nil.
Qed.

Lemma survives_mono (G H : view → Prop) D : (∀ v, G v → H v) → survives G D → survives H D.
Proof. intros HGH HG k. apply HGH, HG. Qed.

Lemma failed_mono (G H : view → Prop) s : (∀ v, G v → H v) → failed G s → failed H s.
Proof.
  intros HGH. unfold failed. destruct (SimState.crashed s).
  - intros (v & ? & ?). eauto.
  - intros (D & ? & ?). eauto using survives_mono.
Qed.

Lemma up_failed G D e s : up D e s → survives G D → failed G s.
Proof.
  intros Hup HG. unfold failed. rewrite (up_up _ _ _ Hup). exists D.
  by rewrite (up_epoch _ _ _ Hup).
Qed.

(** ** Rules of the specification *)

Lemma vs_bind {E A B} F G (c : SimE E A) (k : A → SimE E B) Q s :
  view_spec F G c (λ s' a, view_spec F G (k a) Q s') s → view_spec F G (c ≫= k) Q s.
Proof.
  intros Hc. apply io_wp_bind. eapply io_wp_mono; [|exact Hc]. intros s1 [a|e] [Hplan H1]; [|done].
  eapply io_wp_mono; [|exact H1]. intros s2 [b|e] [Hplan2 H2]; (split; [by auto|]); [done|].
  destruct H2 as [Hne Hl]. split; [by auto|done].
Qed.

Lemma vs_ret {E A} F G (a : A) (Q : SimState.t → A → Prop) s :
  Q s a → view_spec (E := E) F G (mret a) Q s.
Proof. by split. Qed.

Lemma vs_step {E A} F G (c : SimE E A) (Q : SimState.t → A → Prop) s s' a :
  c s = Some (s', Ok a) → SimState.plan s' = SimState.plan s → Q s' a → view_spec F G c Q s.
Proof. intros Hc Hplan HQ. unfold view_spec, io_wp. rewrite Hc. split; [congruence|done]. Qed.

Lemma vs_step_bind {E A B} F G (c : SimE E A) (k : A → SimE E B) Q s s' a :
  c s = Some (s', Ok a) → SimState.plan s' = SimState.plan s → view_spec F G (k a) Q s' →
  view_spec F G (c ≫= k) Q s.
Proof. intros Hc Hplan Hk. apply vs_bind. by apply (vs_step _ _ _ _ _ s' a). Qed.

(** Without faults a computation returns. *)
Lemma vs_returns {E A} (F : Prop) G (c : SimE E A) (Q : SimState.t → A → Prop) s :
  view_spec F G c Q s → SimState.plan s = FaultPlan.NoFault → ¬ F →
  ∃ s' a, c s = Some (s', Ok a) ∧ Q s' a ∧ SimState.plan s' = FaultPlan.NoFault.
Proof.
  unfold view_spec, io_wp. intros Hc Hp HF. destruct (c s) as [[s' [a|err]]|]; [| |done].
  - destruct Hc as [Hp' HQ]. exists s', a. auto.
  - destruct Hc as (_ & Hne & _). by destruct (HF (Hne Hp)).
Qed.

Lemma vs_mono {E A} (F F' : Prop) (G H : view → Prop) (c : SimE E A) (Q R : SimState.t → A → Prop) s :
  (F → F') → (∀ v, G v → H v) → (∀ s' a, Q s' a → R s' a) → view_spec F G c Q s → view_spec F' H c R s.
Proof.
  intros HF HGH HQR. apply io_wp_mono. intros s' [a|e] [Hplan Hr]; (split; [done|]); [by auto|].
  destruct Hr as [Hne Hl]. split; [by auto|by eapply failed_mono].
Qed.

Lemma vs_map_err {E E' A} F G (f : E → E') (c : SimE E A) (Q : SimState.t → A → Prop) s :
  view_spec F G c Q s → view_spec F G (map_err f c) Q s.
Proof. unfold view_spec, io_wp, map_err. by destruct (c s) as [[s' []]|]. Qed.

(** ** Crashes *)

Lemma up_same D e s s' :
  same_disk s s' → SimState.crashed s' = SimState.crashed s → SimState.epoch s' = SimState.epoch s →
  up D e s → up D e s'.
Proof.
  intros Hsame Hc He [Hok Hup Hep Hb Hp Hv]. pose proof (sim_ok_same s s' Hsame Hok).
  destruct Hsame as [Hi Hvis Hd Hr Hpe].
  split; try done; try congruence; unfold durable_view, visible_view in *; by rewrite ?Hi, ?Hvis, ?Hd, ?Hr.
Qed.

Lemma up_count D e kind path len s : up D e s → up D e (SimState.count_op kind path len s).
Proof. by apply up_same. Qed.

Lemma apply_all_length l s s' :
  apply_all s l = Some s' → length (SimState.inodes s') = length (SimState.inodes s).
Proof.
  revert s. induction l as [|op l IH]; intros s; simpl; [by intros [= ->]|].
  destruct op as [j op|op]; simpl; [|by intros ->%IH].
  unfold update_inode. destruct (SimState.inodes s !! j); [|done]. simpl. intros ->%IH. simpl.
  apply length_insert.
Qed.

(** The state after a crash that let the operations [l] through, the last of which may be
    a torn write. *)
Lemma crash_view l torn s :
  sim_ok s → Forall (op_ok (length (SimState.inodes s))) l →
  (∀ i pos bytes, torn = Some (i, pos, bytes) → i < length (SimState.inodes s)) →
  let l' := match torn with
            | Some (i, pos, bytes) => l ++ [PendingOp.Data i (DataOp.Write pos bytes)]
            | None => l
            end in
  ∃ s', (s ← apply_all s l;
         s ← match torn with
             | None => Some s
             | Some (inode, position, bytes) =>
                 update_inode inode (write_durable (DataOp.Write position bytes)) s
             end;
         Some (lose_volatile s)) = Some s' ∧
    SimState.crashed s' = true ∧ still (view_ops (durable_view s) l') s'.
Proof.
  intros Hok Hl Htorn l'. destruct (crash_state l torn s Hok Hl Htorn)
    as (s' & Heq & Hok' & Hc & Hdirs & Hp & Hvis & Hdur & Hino).
  exists s'. split; [done|]. split; [done|].
  assert (omap ns_op l' = omap ns_op l) as Hns.
  { unfold l'. destruct torn as [[[i pos] bytes]|]; [|done]. rewrite omap_app. simpl. apply app_nil_r. }
  assert (length (SimState.inodes s') = length (SimState.inodes s)) as Hlen.
  { clear -Heq. destruct (apply_all s l) as [s1|] eqn:Hall; [|done]. simpl in Heq.
    apply apply_all_length in Hall as Hs1. destruct torn as [[[i pos] bytes]|].
    - unfold update_inode in Heq. destruct (SimState.inodes s1 !! i); [|done].
      injection Heq as <-. simpl. by rewrite length_fmap, length_insert.
    - injection Heq as <-. simpl. by rewrite length_fmap. }
  assert (∀ i, (Inode.durable <$> SimState.inodes s') !! i = v_data (view_ops (durable_view s) l') !! i ∧
    (Inode.visible <$> SimState.inodes s') !! i = v_data (view_ops (durable_view s) l') !! i) as Hdata.
  { intros i. rewrite view_ops_data. simpl. rewrite !list_lookup_fmap.
    destruct (SimState.inodes s !! i) as [x|] eqn:Hx.
    - pose proof (Hino i x Hx) as Hi. simpl in Hi. rewrite Hi. simpl.
      assert (data_of i l' = data_of i l ++ match torn with
        | Some (j, pos, bytes) => if decide (j = i) then [DataOp.Write pos bytes] else [] | None => [] end) as ->; [|done].
      unfold l'. destruct torn as [[[j pos] bytes]|]; [|by rewrite app_nil_r].
      rewrite data_of_app. unfold data_of at 2. simpl. by case_decide.
    - apply lookup_ge_None in Hx. rewrite lookup_ge_None_2 by lia. done. }
  split; [done| | |done]; apply view_ext; simpl.
  - by rewrite Hdur, view_ops_ns, Hns.
  - apply Hdata.
  - by rewrite Hdirs, view_ops_dirs.
  - by rewrite Hvis, Hdur, view_ops_ns, Hns.
  - apply Hdata.
  - by rewrite Hdirs, view_ops_dirs.
Qed.

Lemma up_crash D e k s :
  up D e s → ∃ s', materialize_crash k None s = Some s' ∧ SimState.crashed s' = true ∧
    still (survivor D k) s'.
Proof.
  intros [Hok _ _ Hb Hp _]. unfold materialize_crash.
  destruct (crash_view (take k (SimState.pending s)) None s) as (s' & ? & ? & Hs);
    [done|by apply take_ok, Hok|done|].
  exists s'. split_and!; [done|done|]. unfold survivor. by rewrite <-Hb, <-Hp.
Qed.

Lemma up_torn D e i pos bytes s :
  up D e s → i < length (v_data (base D)) →
  ∃ s', materialize_crash (length (SimState.pending s)) (Some (i, pos, bytes)) s = Some s' ∧
    SimState.crashed s' = true ∧
    still (view_op (visible D) (PendingOp.Data i (DataOp.Write pos bytes))) s'.
Proof.
  intros [Hok _ _ Hb Hp _] Hi. unfold materialize_crash. rewrite take_ge by done.
  destruct (crash_view (SimState.pending s) (Some (i, pos, bytes)) s) as (s' & ? & ? & Hs);
    [done|by apply Hok| |].
  { intros ??? [= <- _ _]. rewrite <-Hb in Hi. simpl in Hi. by rewrite length_fmap in Hi. }
  exists s'. split_and!; [done|done|]. unfold visible. rewrite <-Hb, <-Hp.
  by rewrite view_ops_app in Hs.
Qed.

Lemma vs_crash {A} F G k text (Q : SimState.t → A → Prop) D e s :
  up D e s → survives G D → SimState.plan s ≠ FaultPlan.NoFault →
  view_spec F G (sim_crash k None text) Q s.
Proof.
  intros Hup HG Hplan. destruct (up_crash D e k s Hup) as (s' & Hm & Hc & Hs).
  unfold view_spec, io_wp, sim_crash, mbind, sim_bind, sim_try. rewrite Hm. simpl.
  split; [done|]. split; [done|]. unfold failed. rewrite Hc. eauto.
Qed.

Lemma vs_begin_op F G kind path len (Q : SimState.t → nat → Prop) D e s :
  up D e s → survives G D → (∀ s' index, up D e s' → Q s' index) →
  view_spec F G (begin_op kind path len) Q s.
Proof.
  intros Hup HG HQ. unfold begin_op. pose proof (up_count D e kind path len s Hup) as Hup'.
  eapply vs_step_bind; [done|done|]. rewrite (up_up _ _ _ Hup).
  eapply vs_step_bind; [done|done|].
  set (s1 := SimState.count_op kind path len s) in *.
  assert (∀ idx, view_spec (E := IoError) F G (mret idx) Q s1) as Hok by (intros; by apply vs_ret, HQ).
  change (SimState.plan s) with (SimState.plan s1).
  destruct (SimState.plan s1) eqn:Hplan; try case_decide; try apply Hok.
  all: try (apply (vs_crash (A := nat) _ _ _ _ _ D e); [done|done|congruence]).
  all: split; [done|]; split; [congruence|by apply (up_failed _ D e)].
Qed.

(** ** Handles *)

Lemma vs_handle_op {A} F G D e kind path len (k : Sim A) Q s :
  up D e s → survives G D → (∀ s', up D e s' → view_spec F G k Q s') →
  view_spec F G (lock_handle e;; begin_op kind path len;; k) Q s.
Proof.
  intros Hup HG Hk. eapply vs_step_bind; [|done|].
  { unfold lock_handle. by rewrite (up_epoch _ _ _ Hup), decide_True. }
  apply vs_bind. eapply vs_begin_op; [done|done|]. intros s' index Hup'. by apply Hk.
Qed.

Lemma up_data D e i s : up D e s → Inode.visible <$> SimState.inodes s !! i = v_data (visible D) !! i.
Proof. intros Hup. rewrite <-(up_visible _ _ _ Hup). simpl. by rewrite list_lookup_fmap. Qed.

Lemma up_sim_visible D e i c s :
  up D e s → v_data (visible D) !! i = Some c → sim_visible i s = Some (s, Ok c).
Proof.
  intros Hup Hi. rewrite <-(up_data D e i s) in Hi by done. unfold sim_visible.
  destruct (SimState.inodes s !! i); [|done]. by injection Hi as <-.
Qed.

Lemma vs_sim_visible {A} F G D e i c (k : list u8 → Sim A) Q s :
  up D e s → v_data (visible D) !! i = Some c → view_spec F G (k c) Q s →
  view_spec F G (sim_visible i ≫= k) Q s.
Proof. intros Hup Hi Hk. eapply vs_step_bind; [by eapply up_sim_visible|done|done]. Qed.

Lemma vs_file_len F G D e p i pos w c Q s :
  up D e s → survives G D → v_data (visible D) !! i = Some c →
  (∀ s', up D e s' → Q s' (length c)) →
  view_spec F G (file_len (SimFile.mk p i pos e w)) Q s.
Proof.
  intros Hup HG Hi HQ. eapply vs_handle_op; [done|done|]. intros s' Hup'.
  eapply vs_sim_visible; [done|done|]. by apply vs_ret, HQ.
Qed.

Lemma vs_file_seek F G D e p i pos w c from target Q s :
  up D e s → survives G D → v_data (visible D) !! i = Some c →
  match from with
  | SeekStart n => Z.of_nat n
  | SeekEnd delta => (Z.of_nat (length c) + delta)%Z
  | SeekCurrent delta => (Z.of_nat pos + delta)%Z
  end = Z.of_nat target →
  (Z.of_nat target < u64_end)%Z →
  (∀ s', up D e s' → Q s' (target, SimFile.mk p i target e w)) →
  view_spec F G (file_seek (SimFile.mk p i pos e w) from) Q s.
Proof.
  intros Hup HG Hi Htarget Hlt HQ. eapply vs_handle_op; [done|done|]. intros s' Hup'.
  eapply vs_sim_visible; [done|done|]. cbv zeta. cbn [SimFile.position]. rewrite Htarget.
  rewrite decide_True, Nat2Z.id by lia. by apply vs_ret, HQ.
Qed.

(** A read returns what there is, up to the size of the buffer. *)
Lemma vs_file_read F G D e p i pos w c n Q s :
  up D e s → survives G D → v_data (visible D) !! i = Some c →
  (∀ s', up D e s' →
     Q s' (take n (drop pos c), SimFile.mk p i (pos + Nat.min n (length c - pos)) e w)) →
  view_spec F G (file_read (SimFile.mk p i pos e w) n) Q s.
Proof.
  intros Hup HG Hi HQ. eapply vs_handle_op; [done|done|]. intros s' Hup'.
  eapply vs_sim_visible; [done|done|]. cbv zeta. cbn [SimFile.position]. apply HQ in Hup'.
  case_decide as Hle.
  - rewrite drop_ge, take_nil, (proj2 (Nat.sub_0_le _ _)), Nat.min_0_r, Nat.add_0_r in Hup' by done.
    by apply vs_ret.
  - apply vs_ret. replace (take (n `min` (length c - pos)) (drop pos c)) with (take n (drop pos c)); [done|].
    destruct (decide (n <= length c - pos)); [by rewrite Nat.min_l|].
    rewrite Nat.min_r, !take_ge by (rewrite ?length_drop; lia). done.
Qed.

Lemma vs_read_exact F G D e p i pos w c n Q s :
  up D e s → survives G D → v_data (visible D) !! i = Some c → pos + n <= length c →
  (∀ s', up D e s' → Q s' (take n (drop pos c), SimFile.mk p i (pos + n) e w)) →
  view_spec F G (read_exact (SimFile.mk p i pos e w) n) Q s.
Proof.
  intros Hup HG Hi Hlen HQ. unfold read_exact. destruct n as [|n]; cbn [read_exact_loop].
  { apply vs_ret. rewrite Nat.add_0_r in HQ. by apply HQ. }
  apply vs_bind. eapply vs_file_read; [done|done|done|]. intros s' Hup'.
  assert (length (take (S n) (drop pos c)) = S n) as Htake by (rewrite length_take, length_drop; lia).
  rewrite Nat.min_l by lia. rewrite decide_False by lia. rewrite Htake, Nat.sub_diag.
  destruct n; by apply vs_ret, HQ.
Qed.

(** ** Writing *)

Lemma up_length D e s : up D e s → length (SimState.inodes s) = length (v_data (base D)).
Proof. intros Hup. rewrite <-(up_base _ _ _ Hup). simpl. by rewrite length_fmap. Qed.

Lemma up_issue D e p i pos w op s :
  up D e s → i < length (v_data (base D)) →
  ∃ s', issue (SimFile.mk p i pos e w) op s = Some (s', Ok tt) ∧
    SimState.plan s' = SimState.plan s ∧ up (push D (PendingOp.Data i op)) e s'.
Proof.
  intros Hup Hi. rewrite <-(up_length D e s Hup) in Hi.
  destruct (lookup_lt_is_Some_2 _ _ Hi) as [x Hx]. destruct Hup as [[Hp Hv Hd] Hup Hep Hb Hpe Hvis].
  unfold issue, mbind, sim_bind, sim_try, update_inode. simpl. rewrite Hx. simpl.
  eexists. split; [done|]. split; [done|].
  assert (length (<[i:=write_visible op x]> (SimState.inodes s)) = length (SimState.inodes s)) as Hlen
    by apply length_insert.
  split; [|done|done| | |]; cbn [SimState.pending SimState.push_pending SimState.set_pending].
  - split; simpl; rewrite Hlen; [|done|done]. apply Forall_app. split; [done|]. by apply Forall_singleton.
  - cbn [base push]. rewrite <-Hb. apply view_ext; [done| |done]. intros j. simpl.
    rewrite !list_lookup_fmap.
    destruct (decide (i = j)) as [<-|Hij]; [|by rewrite list_lookup_insert_ne].
    by rewrite list_lookup_insert_eq, Hx by done.
  - cbn [pend push]. by rewrite <-Hpe.
  - rewrite visible_push, <-Hvis. apply view_ext; [done| |done]. intros j. simpl. rewrite list_lookup_fmap.
    destruct (decide (i = j)) as [<-|Hij].
    + rewrite list_lookup_insert_eq, list_lookup_alter_eq, list_lookup_fmap, Hx by done. done.
    + by rewrite list_lookup_insert_ne, list_lookup_alter_ne, list_lookup_fmap by done.
Qed.

Lemma vs_set_len F G D e p i pos len Q s :
  up D e s → survives G D → i < length (v_data (base D)) →
  (∀ s', up (push D (PendingOp.Data i (DataOp.SetLen len))) e s' → Q s' tt) →
  view_spec F G (file_set_len (SimFile.mk p i pos e true) len) Q s.
Proof.
  intros Hup HG Hi HQ. unfold file_set_len. eapply vs_step_bind; [done|done|].
  eapply vs_handle_op; [done|done|]. intros s' Hup'.
  destruct (up_issue D e p i pos true (DataOp.SetLen len) s') as (s'' & Hiss & Hplan & Hup''); [done|done|].
  eapply vs_step; [exact Hiss|done|by apply HQ].
Qed.

(** A write becomes a pending operation or, when the plan tears it, leaves everything that
    was pending and the bytes before the cut. *)
Lemma vs_file_write F G D e p i pos buffer Q s :
  up D e s → survives G D → i < length (v_data (base D)) →
  (∀ n, G (view_op (visible D) (PendingOp.Data i (DataOp.Write pos (take n buffer))))) →
  (∀ s', up (push D (PendingOp.Data i (DataOp.Write pos buffer))) e s' →
     Q s' (length buffer, SimFile.mk p i (pos + length buffer) e true)) →
  view_spec F G (file_write (SimFile.mk p i pos e true) buffer) Q s.
Proof.
  intros Hup HG Hi Htorn HQ. unfold file_write. set (f := SimFile.mk p i pos e true).
  eapply vs_step_bind; [done|done|]. eapply vs_step_bind; [|done|].
  { unfold lock_handle. by rewrite (up_epoch _ _ _ Hup), decide_True. }
  set (s1 := SimState.count_op HandleWrite (SimFile.path f) (length buffer) s).
  assert (up D e s1) as Hup1 by (by apply up_count).
  eapply vs_step_bind; [done|done|]. rewrite (up_up _ _ _ Hup).
  eapply vs_step_bind; [done|done|]. fold s1. apply vs_bind.
  change (SimState.plan s) with (SimState.plan s1).
  eapply (vs_mono F F G G _ (λ s' _, s' = s1)); [done|done| |].
  { intros s' [] ->. destruct (up_issue D e p i pos true (DataOp.Write pos buffer) s1)
      as (s'' & Hiss & Hplan & Hup''); [done|done|].
    eapply vs_step_bind; [exact Hiss|done|]. by apply vs_ret, HQ. }
  assert (view_spec (E := IoError) F G (mret tt) (λ s' _, s' = s1) s1) as Hok by (by apply vs_ret).
  destruct (SimState.plan s1) eqn:Hplan; try case_decide; try exact Hok.
  - eapply vs_crash; [done|done|congruence].
  - destruct (up_torn D e i pos (take (byte_cut `min` length buffer) buffer) s1)
      as (s' & Hm & Hc & Hs); [done|done|].
    unfold view_spec, io_wp, sim_crash, mbind, sim_bind, sim_try. cbn [f SimFile.inode SimFile.position].
    change (SimState.pending s) with (SimState.pending s1). rewrite Hm. cbn beta iota.
    split; [congruence|]. split; [congruence|]. unfold failed. rewrite Hc. eauto.
  - split; [done|]. split; [congruence|by apply (up_failed _ D e)].
  - split; [done|]. split; [congruence|by apply (up_failed _ D e)].
Qed.

Lemma vs_write_all F G D e p i pos buffer Q s :
  up D e s → survives G D → i < length (v_data (base D)) → buffer ≠ [] →
  (∀ n, G (view_op (visible D) (PendingOp.Data i (DataOp.Write pos (take n buffer))))) →
  (∀ s', up (push D (PendingOp.Data i (DataOp.Write pos buffer))) e s' →
     Q s' (SimFile.mk p i (pos + length buffer) e true)) →
  view_spec F G (write_all (SimFile.mk p i pos e true) buffer) Q s.
Proof.
  intros Hup HG Hi Hne Htorn HQ. unfold write_all. destruct buffer as [|b buffer]; [done|].
  cbn [length write_all_loop]. apply vs_bind.
  eapply vs_file_write; [done|done|done|done|]. intros s' Hup'. rewrite decide_False by done.
  rewrite drop_ge by done. destruct (length buffer); by apply vs_ret, HQ.
Qed.

(** ** Syncing *)

(** The operations of one file reach the disk. *)
Definition sync_file (i : nat) (D : disk) : disk :=
  Disk (View (v_ns (base D))
          (alter (λ c, apply_ops c (data_of i (pend D))) i (v_data (base D))) (v_dirs (base D)))
    (data_rest i (pend D)).

Lemma data_of_rest_ne i j l : i ≠ j → data_of j (data_rest i l) = data_of j l.
Proof.
  intros Hij. induction l as [|op l IH]; [done|]. rewrite data_rest_cons, (data_of_cons j op l).
  destruct op as [m op|op]; cbn [data_op]; [|by rewrite data_of_cons].
  destruct (decide (m = i)) as [->|Hmi]; [by rewrite decide_False by done|].
  rewrite data_of_cons. cbn [data_op]. by rewrite IH.
Qed.

Lemma visible_sync_file i D : visible (sync_file i D) = visible D.
Proof.
  unfold visible. apply view_ext.
  - rewrite !view_ops_ns. simpl. by rewrite ns_op_rest.
  - intros j. rewrite !view_ops_data. simpl. destruct (decide (i = j)) as [<-|Hij].
    + rewrite list_lookup_alter_eq, data_of_rest. by destruct (v_data (base D) !! i).
    + by rewrite list_lookup_alter_ne, data_of_rest_ne by done.
  - by rewrite !view_ops_dirs.
Qed.

Lemma vs_sync_data F G D e p i pos w Q s :
  up D e s → survives G D → i < length (v_data (base D)) →
  (∀ s', up (sync_file i D) e s' → Q s' tt) →
  view_spec F G (file_sync_data (SimFile.mk p i pos e w)) Q s.
Proof.
  intros Hup HG Hi HQ. eapply vs_handle_op; [done|done|]. clear s Hup. intros s Hup.
  rewrite <-(up_length D e s Hup) in Hi. destruct (lookup_lt_is_Some_2 _ _ Hi) as [x Hx].
  eapply vs_step.
  { unfold sim_try, promote_file. cbn [SimFile.inode].
    by rewrite (promote_file_spec i x _ (SimState.set_pending [] s) Hx). }
  { done. }
  apply HQ. destruct Hup as [[Hp Hv Hd] Hup Hep Hb Hpe Hvis]. cbn [SimState.pending SimState.set_pending app].
  assert (∀ y, length (<[i:=y]> (SimState.inodes s)) = length (SimState.inodes s)) as Hlen
    by (intros; apply length_insert).
  split; try done.
  - split; simpl; rewrite Hlen; [|done|done].
    unfold data_rest. rewrite Forall_forall in *. intros op [_ Hop]%list_elem_of_filter. by apply Hp.
  - unfold sync_file. cbn [base]. rewrite <-Hb, <-Hpe. apply view_ext; [done| |done]. intros j. simpl.
    rewrite list_lookup_fmap. destruct (decide (i = j)) as [<-|Hij].
    + rewrite list_lookup_insert_eq, list_lookup_alter_eq, list_lookup_fmap, Hx by done. done.
    + by rewrite list_lookup_insert_ne, list_lookup_alter_ne, list_lookup_fmap by done.
  - simpl. by rewrite Hpe.
  - rewrite visible_sync_file, <-Hvis. apply view_ext; [done| |done]. intros j. simpl.
    rewrite !list_lookup_fmap. destruct (decide (i = j)) as [<-|Hij].
    + by rewrite list_lookup_insert_eq, Hx by done.
    + by rewrite list_lookup_insert_ne by done.
Qed.

(** The directory operations reach the disk, when they are all of one directory. *)
Definition is_data (op : PendingOp.t) : Prop := ns_op op = None.
#[global] Instance is_data_dec op : Decision (is_data op).
Proof. unfold is_data. apply _. Defined.

Definition sync_names (D : disk) : disk :=
  Disk (View (foldl apply_ns_op (v_ns (base D)) (omap ns_op (pend D))) (v_data (base D))
          (v_dirs (base D)))
    (filter is_data (pend D)).

Definition all_in (dir : PathBuf) (D : disk) : Prop :=
  Forall (λ op, ns_op_in_dir op dir = true) (omap ns_op (pend D)).

Lemma is_data_filter l :
  omap ns_op (filter is_data l) = [] ∧ ∀ i, data_of i (filter is_data l) = data_of i l.
Proof.
  induction l as [|op l [IH1 IH2]]; [done|]. rewrite filter_cons. split.
  - by case_decide as Hop; [simpl; rewrite Hop|].
  - intros i. rewrite data_of_cons. case_decide as Hop; [by rewrite data_of_cons, IH2|].
    destruct op; [done|]. apply IH2.
Qed.

Lemma visible_sync_names D : visible (sync_names D) = visible D.
Proof.
  destruct (is_data_filter (pend D)) as [Hn Hd]. unfold visible, sync_names. apply view_ext.
  - rewrite !view_ops_ns. simpl. by rewrite Hn.
  - intros j. rewrite !view_ops_data. simpl. by rewrite Hd.
  - by rewrite !view_ops_dirs.
Qed.

Lemma promote_dir_exact dir l s :
  Forall (λ op, ns_op_in_dir op dir = true) (omap ns_op l) →
  foldl (promote_step_dir dir) s l
  = SimState.set_pending (SimState.pending s ++ filter is_data l)
      (SimState.set_ns_durable (foldl apply_ns_op (SimState.ns_durable s) (omap ns_op l)) s).
Proof.
  revert s. induction l as [|op l IH]; intros s Hl.
  { simpl. rewrite app_nil_r. by destruct s. }
  rewrite filter_cons. destruct op as [j op|op]; simpl in *.
  - rewrite IH by done. simpl. by rewrite <-app_assoc.
  - apply Forall_cons in Hl as [-> Hl]. rewrite IH by done. done.
Qed.

Lemma apply_ns_ops_ok n ns l :
  Forall (op_ok n) l → ns_ok n ns → ns_ok n (foldl apply_ns_op ns (omap ns_op l)).
Proof.
  intros Hl. revert ns. induction Hl as [|op l Hop Hl IH]; intros ns Hns; [done|].
  destruct op as [j op|op]; simpl; [by apply IH|]. by apply IH, apply_ns_op_ok.
Qed.

Lemma vs_sync_dir F G D e dir Q s :
  up D e s → survives G D → dir ∈ v_dirs (base D) → all_in dir D →
  (∀ s', up (sync_names D) e s' → Q s' tt) →
  view_spec F G (SimStorage.sync_dir dir) Q s.
Proof.
  intros Hup HG Hdir Hall HQ. apply vs_bind. eapply vs_begin_op; [done|done|]. clear s Hup.
  intros s _ Hup. unfold all_in in Hall. destruct Hup as [[Hp Hv Hd] Hup Hep Hb Hpe Hvis].
  eapply vs_step_bind; [|done|].
  { unfold require_dir. rewrite <-Hb in Hdir. simpl in Hdir. by rewrite decide_True. }
  rewrite <-Hpe in Hall. eapply vs_step.
  { unfold sim_try, promote_dir. by rewrite promote_dir_exact. }
  { done. }
  apply HQ. cbn [SimState.pending SimState.set_pending app]. split; try done.
  - split; simpl; [|done|by apply apply_ns_ops_ok].
    rewrite Forall_forall in *. intros op [_ Hop]%list_elem_of_filter. by apply Hp.
  - unfold sync_names. cbn [base]. by rewrite <-Hb, <-Hpe.
  - unfold sync_names. cbn [pend]. by rewrite <-Hpe.
  - by rewrite visible_sync_names, <-Hvis.
Qed.

(** ** Names *)

Lemma up_names D e s : up D e s → SimState.ns_visible s = v_ns (visible D).
Proof. intros Hup. by rewrite <-(up_visible _ _ _ Hup). Qed.

Lemma up_dirs D e s : up D e s → SimState.dirs s = v_dirs (base D).
Proof. intros Hup. by rewrite <-(up_base _ _ _ Hup). Qed.

Lemma up_plan D e s plan : up D e s → up D e (SimStorage.set_fault plan s).
Proof. by apply up_same. Qed.

Lemma vs_open F G D e p i mode Q s :
  up D e s → survives G D → v_ns (visible D) !! p = Some i → mode ≠ CreateNew →
  (∀ s', up D e s' → Q s' (SimFile.mk p i 0 e (bool_decide (mode ≠ Read)))) →
  view_spec F G (SimStorage.open p mode) Q s.
Proof.
  intros Hup HG Hi Hmode HQ. apply vs_bind. eapply vs_begin_op; [done|done|]. clear s Hup.
  intros s _ Hup. pose proof (HQ s Hup) as HQs. rewrite <-(up_names D e s Hup) in Hi.
  rewrite <-(up_epoch _ _ _ Hup) in HQs. eapply vs_step_bind; [done|done|]. rewrite Hi.
  destruct mode; try done; (eapply vs_step_bind; [done|done|]); by (eapply vs_step; [done|done|]).
Qed.

(** A new file: its inode exists at once, its name once the directory is synced. *)
Definition create (p : PathBuf) (D : disk) : disk :=
  Disk (View (v_ns (base D)) (v_data (base D) ++ [[]]) (v_dirs (base D)))
    (pend D ++ [PendingOp.Namespace (NsOp.Create p (length (v_data (base D))))]).

Lemma view_ops_extend ns data dirs l x :
  Forall (op_ok (length data)) l →
  view_ops (View ns (data ++ [x]) dirs) l
  = View (v_ns (view_ops (View ns data dirs) l)) (v_data (view_ops (View ns data dirs) l) ++ [x]) dirs.
Proof.
  intros Hl. apply view_ext; simpl.
  - by rewrite !view_ops_ns.
  - intros i. rewrite view_ops_data. simpl.
    assert (length (v_data (view_ops (View ns data dirs) l)) = length data) as Hlen.
    { clear Hl. revert ns data. induction l as [|op l IH]; intros ns data; [done|].
      simpl. destruct op as [j op|op]; simpl; rewrite IH; [apply length_alter|done]. }
    destruct (decide (i < length data)) as [Hi|Hi].
    { rewrite !lookup_app_l by lia. by rewrite view_ops_data. }
    rewrite !lookup_app_r by lia. rewrite Hlen. destruct (decide (i = length data)) as [->|Hne].
    + rewrite Nat.sub_diag. simpl. f_equal. clear -Hl.
      assert (data_of (length data) l = []) as ->; [|done].
      induction Hl as [|op l Hop Hl IH]; [done|]. rewrite data_of_cons, IH.
      destruct op as [j op|op]; cbn [data_op]; [|done]. simpl in Hop. by rewrite decide_False by lia.
    + by rewrite (lookup_ge_None_2 [x]) by (simpl; lia).
  - by rewrite view_ops_dirs.
Qed.

Lemma up_pend_ok D e s : up D e s → Forall (op_ok (length (v_data (base D)))) (pend D).
Proof. intros Hup. rewrite <-(up_pend _ _ _ Hup), <-(up_length D e s Hup). apply Hup. Qed.

Lemma visible_create p D :
  Forall (op_ok (length (v_data (base D)))) (pend D) →
  visible (create p D)
  = View (<[p := length (v_data (base D))]> (v_ns (visible D))) (v_data (visible D) ++ [[]])
      (v_dirs (base D)).
Proof.
  intros Hl. unfold visible, create. simpl. rewrite view_ops_app.
  rewrite view_ops_extend by done. simpl. by destruct (base D).
Qed.

Lemma survivor_create p D k :
  Forall (op_ok (length (v_data (base D)))) (pend D) → k <= length (pend D) →
  survivor (create p D) k
  = View (v_ns (survivor D k)) (v_data (survivor D k) ++ [[]]) (v_dirs (base D)).
Proof.
  intros Hl Hk. unfold survivor, create. simpl. rewrite take_app_le by done.
  rewrite view_ops_extend by (by apply Forall_take). simpl. by destruct (base D).
Qed.

Lemma sim_ok_create p s :
  sim_ok s → let i := length (SimState.inodes s) in
  sim_ok (SimState.push_pending (PendingOp.Namespace (NsOp.Create p i))
    (SimState.set_ns_visible (<[p := i]> (SimState.ns_visible s))
      (SimState.set_inodes (SimState.inodes s ++ [Inode.empty]) s))).
Proof.
  intros [Hp Hv Hd] i.
  assert (∀ n, op_ok i n → op_ok (length (SimState.inodes s ++ [Inode.empty])) n) as Hmono.
  { rewrite length_app. simpl. fold i. intros [j op|[]]; simpl; intros; try done; lia. }
  assert (∀ ns, ns_ok i ns → ns_ok (length (SimState.inodes s ++ [Inode.empty])) ns) as Hmono'.
  { rewrite length_app. intros ns Hns' q j Hj. apply Hns' in Hj. simpl. fold i. lia. }
  split; simpl; [|apply map_Forall_insert_2; [rewrite length_app; simpl; fold i; lia|by apply Hmono']
    |by apply Hmono'].
  apply Forall_app. split; [by eapply Forall_impl|]. apply Forall_singleton. simpl.
  rewrite length_app. simpl. fold i. lia.
Qed.

(** Creating fails if the name is taken. *)
Lemma vs_create F G D e p Q s :
  up D e s → survives G D → default root_path (parent p) ∈ v_dirs (base D) →
  (is_Some (v_ns (visible D) !! p) → F) →
  (∀ s', v_ns (visible D) !! p = None → up (create p D) e s' →
     Q s' (SimFile.mk p (length (v_data (base D))) 0 e true)) →
  view_spec F G (SimStorage.open p CreateNew) Q s.
Proof.
  intros Hup HG Hdir HF HQ. apply vs_bind. eapply vs_begin_op; [done|done|]. clear s Hup.
  intros s _ Hup. eapply vs_step_bind; [done|done|]. rewrite <-(up_names D e s Hup) in HF, HQ.
  destruct (SimState.ns_visible s !! p) as [j|] eqn:Hp.
  { apply vs_bind. split; [done|]. split; [by eauto|by apply (up_failed _ D e)]. }
  rewrite <-(up_dirs D e s Hup) in Hdir. pose proof (up_length D e s Hup) as Hlen.
  pose proof (up_pend_ok D e s Hup) as Hpend.
  apply vs_bind. eapply vs_step_bind; [unfold require_dir; by rewrite decide_True|done|].
  eapply vs_step_bind; [done|done|]. apply vs_ret. eapply vs_step; [done|done|].
  cbn [SimState.epoch SimState.push_pending SimState.set_pending SimState.set_ns_visible SimState.set_inodes].
  rewrite (up_epoch _ _ _ Hup), Hlen. apply HQ; [done|].
  rewrite <-Hlen. pose proof (sim_ok_create p s (up_ok _ _ _ Hup)) as Hok. cbv zeta in Hok.
  destruct Hup as [_ Hup Hep Hb Hpe Hvis]. split; try done.
  - unfold create. cbn [base]. rewrite <-Hb. unfold durable_view. simpl. f_equal. by rewrite fmap_app.
  - unfold create. cbn [pend]. by rewrite <-Hpe, <-Hlen.
  - rewrite visible_create by done. rewrite <-Hvis, <-Hlen, <-Hb. unfold visible_view. simpl. f_equal.
    by rewrite fmap_app.
Qed.

Lemma vs_read F G D e p i c Q s :
  up D e s → survives G D → v_ns (visible D) !! p = Some i → v_data (visible D) !! i = Some c →
  (∀ s', up D e s' → Q s' c) → view_spec F G (SimStorage.read p) Q s.
Proof.
  intros Hup HG Hp Hi HQ. apply vs_bind. eapply vs_begin_op; [done|done|]. clear s Hup.
  intros s _ Hup. eapply vs_step_bind; [|done|].
  { unfold visible_inode. by rewrite (up_names D e s Hup), Hp. }
  eapply vs_step; [by eapply up_sim_visible|done|by apply HQ].
Qed.

(** An operation that begins: unless the power goes, which takes a fault plan, the disk is
    as it was.  So after a read of any name. *)
Definition undisturbed {E A} (G : view → Prop) (D : disk) (e : nat) (s s' : SimState.t) (r : result E A) : Prop :=
  (up D e s' ∧ SimState.plan s' = SimState.plan s) ∨
  (SimState.plan s ≠ FaultPlan.NoFault ∧ SimState.crashed s' = true ∧ failed G s' ∧ ∃ err, r = Err err).

Lemma begin_op_outcome G D e kind path len s :
  up D e s → survives G D → io_wp (begin_op kind path len) (undisturbed G D e s) s.
Proof.
  intros Hup HG. pose proof (up_count D e kind path len s Hup) as Hup1.
  unfold begin_op, io_wp, mbind, sim_bind, sim_get, sim_put. rewrite (up_up _ _ _ Hup).
  set (s1 := SimState.count_op kind path len s) in *.
  assert (∀ k text, SimState.plan s ≠ FaultPlan.NoFault →
    match sim_crash (A := nat) k None text s1 with Some (s', r) => undisturbed G D e s s' r | None => False end) as Hcrash.
  { intros k text Hplan. destruct (up_crash D e k s1 Hup1) as (s' & Hm & Hc & Hs).
    unfold sim_crash, mbind, sim_bind, sim_try. rewrite Hm. simpl. right. split_and!; [done|done| |by eexists].
    unfold failed. rewrite Hc. eauto. }
  destruct (SimState.plan s) eqn:Hplan; try case_decide; try (by left); try (by apply Hcrash).
Qed.

Lemma read_outcome G D e p s :
  up D e s → survives G D → io_wp (SimStorage.read p) (undisturbed G D e s) s.
Proof.
  intros Hup HG. unfold SimStorage.read. apply io_wp_bind.
  eapply io_wp_mono; [|by eapply begin_op_outcome]. intros s1 [idx|err] [[Hup1 Hp]|Hd]; [| |by left|].
  - unfold io_wp, mbind, sim_bind, visible_inode, sim_visible.
    destruct (SimState.ns_visible s1 !! p) as [i|] eqn:Hi; [|by left].
    pose proof (ok_visible _ (up_ok _ _ _ Hup1) p i Hi) as Hlt.
    destruct (lookup_lt_is_Some_2 _ _ Hlt) as [x ->]. by left.
  - by destruct Hd as (_ & _ & _ & err & ?).
  - right. destruct Hd as (? & ? & ? & _). split_and!; try done. by eexists.
Qed.

(** What follows an attempt to read. *)
Lemma vs_attempt_read {E E' A B} (F : Prop) G D e (c : SimE E A) (k : result E A → SimE E' B) R s :
  up D e s → io_wp c (undisturbed G D e s) s →
  (∀ s' r, up D e s' → view_spec F G (k r) R s') →
  (∀ s' err, SimState.crashed s' = true → failed G s' →
     io_wp (k (Err err)) (λ s'' r, failed G s'' ∧ ∃ err, r = Err err) s') →
  view_spec F G (attempt c ≫= k) R s.
Proof.
  intros Hup Hc Hok Herr. unfold view_spec, io_wp, attempt, mbind, sim_bind in *.
  destruct (c s) as [[s' r]|]; [|done]. cbn [mbind option_bind] in *. destruct Hc as [[Hup' Hp]|(Hp & Hc & Hf & err & ->)].
  - specialize (Hok s' r Hup'). rewrite Hp in Hok. by destruct (k r s') as [[s'' [b|x]]|].
  - specialize (Herr s' err Hc Hf). destruct (k (Err err) s') as [[s'' r]|]; [|done].
    destruct Herr as [Hf' [x ->]]. by split_and!.
Qed.

Lemma undisturbed_bind_lift {E A B} G D e (c : SimE E A) (f : A → result E B) s :
  io_wp c (undisturbed G D e s) s → io_wp (a ← c; (λ s, Some (s, f a))) (undisturbed G D e s) s.
Proof.
  unfold io_wp, mbind, sim_bind, undisturbed. destruct (c s) as [[s' [a|err]]|]; [|naive_solver|done].
  intros [?|(_ & _ & _ & err & ?)]; [by left|done].
Qed.

Lemma undisturbed_map_err {E E' A} G D e (f : E → E') (c : SimE E A) s :
  io_wp c (undisturbed G D e s) s → io_wp (map_err f c) (undisturbed G D e s) s.
Proof.
  unfold io_wp, map_err, undisturbed. destruct (c s) as [[s' [a|err]]|]; [|naive_solver|done].
  intros [?|(_ & _ & _ & err & ?)]; [by left|done].
Qed.

Lemma vs_exists F G D e p Q s :
  up D e s → survives G D → p ∉ v_dirs (base D) →
  (∀ s', up D e s' → Q s' (bool_decide (is_Some (v_ns (visible D) !! p)))) →
  view_spec F G (SimStorage.exists_ p) Q s.
Proof.
  intros Hup HG Hp HQ. apply vs_bind. eapply vs_begin_op; [done|done|]. clear s Hup.
  intros s _ Hup. eapply vs_step; [done|done|]. apply HQ in Hup as HQs.
  rewrite <-(up_dirs D e s Hup) in Hp. rewrite (bool_decide_eq_false_2 (p ∈ SimState.dirs s)), orb_false_r by done.
  erewrite bool_decide_ext; [exact HQs|]. by rewrite elem_of_dom, (up_names D e s Hup).
Qed.

Lemma up_namespace D e s op vis :
  up D e s → op_ok (length (v_data (base D))) (PendingOp.Namespace op) →
  vis = apply_ns_op (v_ns (visible D)) op →
  up (push D (PendingOp.Namespace op)) e
    (SimState.push_pending (PendingOp.Namespace op) (SimState.set_ns_visible vis s)).
Proof.
  intros Hup Hop ->. pose proof (up_length D e s Hup) as Hlen. destruct Hup as [[Hp Hv Hd] Hup Hep Hb Hpe Hvis].
  split; try done.
  - rewrite <-Hvis. split; simpl; [|apply apply_ns_op_ok; [by rewrite Hlen|done]|done].
    apply Forall_app. split; [done|]. apply Forall_singleton. simpl in Hop. by rewrite Hlen.
  - unfold push. simpl. by rewrite Hpe.
  - rewrite visible_push, <-Hvis. done.
Qed.

Lemma vs_rename F G D e from to i Q s :
  up D e s → survives G D → v_ns (visible D) !! from = Some i →
  default root_path (parent to) ∈ v_dirs (base D) →
  (∀ s', up (push D (PendingOp.Namespace (NsOp.Rename from to))) e s' → Q s' tt) →
  view_spec F G (SimStorage.rename from to) Q s.
Proof.
  intros Hup HG Hi Hdir HQ. apply vs_bind. eapply vs_begin_op; [done|done|]. clear s Hup.
  intros s _ Hup. eapply vs_step_bind; [|done|].
  { unfold visible_inode. by rewrite (up_names D e s Hup), Hi. }
  rewrite <-(up_dirs D e s Hup) in Hdir. eapply vs_step_bind; [unfold require_dir; by rewrite decide_True|done|].
  eapply vs_step; [done|done|]. apply HQ, up_namespace; [done|done|].
  simpl. by rewrite (up_names D e s Hup), Hi.
Qed.

(** ** Once something has failed *)

Lemma begin_op_failed G kind path len s :
  failed G s → io_wp (begin_op kind path len) (λ s' r, failed G s' ∧
    match r with Ok _ => same_disk s s' ∧ SimState.crashed s' = false ∧ SimState.epoch s' = SimState.epoch s
            | Err _ => True end) s.
Proof.
  intros Hf. unfold failed in Hf. destruct (SimState.crashed s) eqn:Hc.
  { unfold io_wp, begin_op, mbind, sim_bind, sim_get. rewrite Hc. simpl. split; [|done].
    unfold failed. by rewrite Hc. }
  destruct Hf as (D & Hup & HG).
  assert (view_spec True G (begin_op kind path len) (λ s' _, up D (SimState.epoch s) s' ∧ same_disk s s') s) as Hs.
  { pose proof (up_count D _ kind path len s Hup) as Hup'. unfold begin_op.
    eapply vs_step_bind; [done|done|]. rewrite Hc. eapply vs_step_bind; [done|done|].
    set (s1 := SimState.count_op kind path len s) in *. change (SimState.plan s) with (SimState.plan s1).
    destruct (SimState.plan s1) eqn:Hplan; try case_decide; try (by apply vs_ret).
    all: try (by apply (vs_crash (A := nat) _ _ _ _ _ D (SimState.epoch s)); [|done|congruence]).
    all: split; [done|]; split; [done|by apply (up_failed _ D (SimState.epoch s))]. }
  unfold view_spec in Hs. eapply io_wp_mono; [|exact Hs]. intros s' [a|x] [_ Hr].
  - destruct Hr as [Hup' Hsame]. split; [by apply (up_failed _ D (SimState.epoch s))|].
    split_and!; [done|apply Hup'|apply Hup'].
  - split; [apply Hr|done].
Qed.

Lemma failed_remove G t s :
  failed G s → (∀ v, G v → G (view_op v (PendingOp.Namespace (NsOp.Remove t)))) →
  io_wp (SimStorage.remove_file t) (λ s' _, failed G s') s.
Proof.
  intros Hf Hclosed. unfold SimStorage.remove_file. apply io_wp_bind.
  eapply io_wp_mono; [|by apply begin_op_failed]. intros s1 [a|x] [Hf1 Hr]; [|done].
  destruct Hr as (_ & Hc & _). unfold failed in Hf1. rewrite Hc in Hf1. destruct Hf1 as (D & Hup & HG).
  unfold io_wp, mbind, sim_bind, visible_inode.
  destruct (SimState.ns_visible s1 !! t); [|by apply (up_failed _ D (SimState.epoch s1))].
  unfold sim_try. simpl. eapply up_failed; [apply (up_namespace D _ s1 (NsOp.Remove t)); [done|done|]|].
  - simpl. by rewrite (up_names D _ s1 Hup).
  - apply survives_push; [done|]. apply Hclosed. by apply survives_visible.
Qed.

(** ** Losing power and booting *)

Lemma power_off_view G k s :
  failed G s → ∃ s' v, power_off k s = Some s' ∧ still v s' ∧ G v.
Proof.
  intros Hf. unfold failed in Hf. unfold power_off. destruct (SimState.crashed s).
  - destruct Hf as (v & ? & ?). by exists s, v.
  - destruct Hf as (D & Hup & HG). destruct (up_crash D _ k s Hup) as (s' & ? & _ & ?).
    by exists s', (survivor D k).
Qed.

Lemma boot_up plan v s : still v s → up (Disk v []) (SimState.epoch s) (boot plan s).
Proof.
  intros [Hok Hd Hv Hp]. split; try done. by apply (sim_ok_same s).
Qed.

Lemma up_still D e s : up D e s → pend D = [] → still (base D) s.
Proof.
  intros [Hok _ _ Hb Hp Hv] Hpend. split; try done; [|congruence].
  rewrite Hv. unfold visible. by rewrite Hpend.
Qed.

(** ** Computations that only read *)

(** The disk is down, or as it was. *)
Definition same_or_down (s s' : SimState.t) : Prop :=
  if SimState.crashed s then s' = s
  else SimState.crashed s' = true ∨ ∀ D e, up D e s → up D e s'.

(** [quiet i c P]: [c] reads the inode [i], returns a value that satisfies [P] if any, and
    changes nothing: whatever a crash could leave before, it can leave after, and unless
    there is a crash the disk is the same. *)
Definition quiet {E A} (i : nat) (c : SimE E A) (P : A → Prop) : Prop :=
  ∀ G s, failed G s → i < length (SimState.inodes s) →
  io_wp c (λ s' r, failed G s' ∧ i < length (SimState.inodes s') ∧ same_or_down s s' ∧
    match r with Ok a => P a | Err _ => True end) s.

Lemma same_or_down_trans s1 s2 s3 : same_or_down s1 s2 → same_or_down s2 s3 → same_or_down s1 s3.
Proof.
  unfold same_or_down. destruct (SimState.crashed s1) eqn:H1; [intros ->; by rewrite H1|].
  destruct (SimState.crashed s2) eqn:H2; [intros _ ->; by left|]. intros [?|H12]; [congruence|].
  intros [?|H23]; [by left|]. right. auto.
Qed.

Lemma same_or_down_refl s : same_or_down s s.
Proof. unfold same_or_down. destruct (SimState.crashed s); [done|]. right. auto. Qed.

Lemma quiet_bind {E A B} i (c : SimE E A) (k : A → SimE E B) P R :
  quiet i c P → (∀ a, P a → quiet i (k a) R) → quiet i (c ≫= k) R.
Proof.
  intros Hc Hk G s Hf Hi. apply io_wp_bind. eapply io_wp_mono; [|by apply (Hc G)].
  intros s' [a|err] (Hf' & Hi' & Hs & HP); [|done]. eapply io_wp_mono; [|by apply (Hk a HP G)].
  intros s'' r (Hf'' & Hi'' & Hs' & HR). split_and!; [done|done|by eapply same_or_down_trans|done].
Qed.

Lemma quiet_pure {E A} i (r : result E A) (P : A → Prop) :
  (∀ a, r = Ok a → P a) → quiet i (λ s, Some (s, r)) P.
Proof. intros HP G s Hf Hi. split_and!; [done|done|apply same_or_down_refl|]. destruct r; auto. Qed.

Lemma quiet_ret {E A} i (a : A) (P : A → Prop) : P a → quiet (E := E) i (mret a) P.
Proof. intros HP. apply (quiet_pure i (Ok a)). by intros ? [= <-]. Qed.

Lemma quiet_fail {E A} i (err : E) (P : A → Prop) : quiet i (sim_fail err) P.
Proof. by apply quiet_pure. Qed.

Lemma quiet_map_err {E E' A} i (f : E → E') (c : SimE E A) P : quiet i c P → quiet i (map_err f c) P.
Proof.
  intros Hc G s Hf Hi. specialize (Hc G s Hf Hi). unfold io_wp, map_err in *. by destruct (c s) as [[s' []]|].
Qed.

Lemma quiet_lock_handle i e : quiet i (lock_handle e) (λ _, True).
Proof.
  intros G s Hf Hi. unfold io_wp, lock_handle.
  case_decide; (split_and!; [done|done|apply same_or_down_refl|done]).
Qed.

Lemma materialize_crash_length k s s' :
  materialize_crash k None s = Some s' → length (SimState.inodes s') = length (SimState.inodes s).
Proof.
  unfold materialize_crash. intros (s1 & Hall & Hs)%bind_Some. simpl in Hs. injection Hs as <-.
  simpl. rewrite length_fmap. by eapply apply_all_length.
Qed.

Lemma quiet_begin_op i kind path len : quiet i (begin_op kind path len) (λ _, True).
Proof.
  intros G s Hf Hi. pose proof (begin_op_failed G kind path len s Hf) as Hop.
  unfold io_wp in *. destruct (begin_op kind path len s) as [[s' r]|] eqn:Hb; [|done].
  destruct Hop as [Hf' _]. split; [done|]. cut (i < length (SimState.inodes s') ∧ same_or_down s s').
  { intros [? ?]. by destruct r. }
  unfold begin_op, mbind, sim_bind, sim_get, sim_put in Hb. unfold same_or_down.
  destruct (SimState.crashed s) eqn:Hc; [by injection Hb as <- <-|].
  set (s1 := SimState.count_op kind path len s) in *.
  assert (∀ k text, (sim_crash (A := nat) k None text) s1 = Some (s', r) →
    i < length (SimState.inodes s') ∧ SimState.crashed s' = true) as Hcrash.
  { intros k text. unfold sim_crash, mbind, sim_bind, sim_try.
    destruct (materialize_crash k None s1) as [s2|] eqn:Hm; [|done]. simpl. intros [= <- _].
    apply materialize_crash_length in Hm as Hl. rewrite Hl. split; [done|].
    unfold materialize_crash in Hm. apply bind_Some in Hm as (s3 & _ & Hs). simpl in Hs. by injection Hs as <-. }
  assert (∀ D e, up D e s → up D e s1) as Hsame by (intros D e; apply up_count).
  destruct (SimState.plan s); try case_decide; try (injection Hb as <- <-; split; [done|by right]).
  all: apply Hcrash in Hb as [? ?]; split; [done|by left].
Qed.

Lemma quiet_sim_visible i : quiet i (sim_visible i) (λ _, True).
Proof.
  intros G s Hf Hi. unfold io_wp, sim_visible. destruct (lookup_lt_is_Some_2 _ _ Hi) as [x ->]. simpl.
  split_and!; [done|done|apply same_or_down_refl|done].
Qed.

(** The operations of a handle: whatever they return, the handle stays on its inode. *)
Lemma quiet_handle_op {A} i e kind path len (k : list u8 → Sim A) P :
  (∀ content, quiet i (k content) P) →
  quiet i (lock_handle e;; begin_op kind path len;; (content ← sim_visible i; k content)) P.
Proof.
  intros Hk. eapply quiet_bind; [apply quiet_lock_handle|intros _ _].
  eapply quiet_bind; [apply quiet_begin_op|intros _ _].
  eapply quiet_bind; [apply quiet_sim_visible|intros content _]. apply Hk.
Qed.

Lemma quiet_file_len f : quiet (SimFile.inode f) (file_len f) (λ _, True).
Proof. apply quiet_handle_op. intros content. by apply quiet_ret. Qed.

Lemma quiet_file_seek f from :
  quiet (SimFile.inode f) (file_seek f from) (λ r, SimFile.inode r.2 = SimFile.inode f).
Proof.
  apply quiet_handle_op. intros content. cbv zeta. case_decide; [by apply quiet_ret|apply quiet_fail].
Qed.

Lemma quiet_file_read f n :
  quiet (SimFile.inode f) (file_read f n) (λ r, SimFile.inode r.2 = SimFile.inode f).
Proof. apply quiet_handle_op. intros content. cbv zeta. case_decide; by apply quiet_ret. Qed.
