(* ===== verification/ProducerState.v ===== *)
(** Producer sequences (crates/vtop-log/src/segment.rs): what a segment remembers of each
    producer, and the decision to append a record, to answer a retry with the offset of the
    original, or to refuse.

    A group of records is validated against the segment's state and the changes the group
    itself would make ([ProducerDelta]); this is shown to decide as validating and
    remembering the records one by one does. *)

From stdpp Require Import prelude strings list gmap fin_map_dom.
From Stdlib Require Import ZArith Lia.
From S2P Require Import Prelude Wire Storage LogTypes RecordCodec.
#[local] Open Scope Z_scope.

Definition ProducerKey : Type := Uuid * u64.

Module SeenRecord.
Record t := mk { offset : u64; content_hash : bytes32 }.
End SeenRecord.

Module ProducerState.
Record t := mk {
  latest_sequence : u64;
  first_sequence : u64;
  record_count : u64;
  seen : gmap u64 SeenRecord.t
}.
End ProducerState.

Module ProducerDelta.
Record t := mk {
  latest_sequence : u64;
  first_sequence : u64;
  record_count : u64;
  seen : gmap u64 SeenRecord.t
}.
End ProducerDelta.

Abbreviation producer_states := (gmap ProducerKey ProducerState.t).
Abbreviation producer_epochs := (gmap Uuid u64).
Abbreviation producer_deltas := (gmap ProducerKey ProducerDelta.t).

Definition key_of (record : LogRecord.t) : ProducerKey :=
  (LogRecord.producer_id record, LogRecord.producer_epoch record).

(** ** Decisions *)

Inductive SequenceDecision := Append | Duplicate (offset : u64).

Definition validate_epoch_not_fenced (latest_epoch : option u64) (record : LogRecord.t)
    : log_result unit :=
  match latest_epoch with
  | Some latest_epoch =>
      if decide (ival (LogRecord.producer_epoch record) < ival latest_epoch)
      then Err (ProducerFenced (LogRecord.producer_id record) latest_epoch
                  (LogRecord.producer_epoch record))
      else Ok tt
  | None => Ok tt
  end.

(** [latest_sequence.saturating_sub(PRODUCER_SEQUENCE_WINDOW - 1)] *)
Definition sequence_window_floor (latest_sequence : u64) : u64 :=
  wrap_int U64 (Z.max 0 (latest_sequence - (PRODUCER_SEQUENCE_WINDOW - 1))).

Definition evict_below_window (seen : gmap u64 SeenRecord.t) (latest_sequence : u64)
    : gmap u64 SeenRecord.t :=
  let floor := sequence_window_floor latest_sequence in
  if decide (0 < ival floor) then filter (λ kv, ival floor <= ival kv.1) seen else seen.

Definition sequence_below_window (record : LogRecord.t) (latest_sequence : u64)
    : option SegmentError :=
  let window_floor := sequence_window_floor latest_sequence in
  if decide (ival (LogRecord.sequence record) < ival window_floor)
  then Some (SequenceBelowWindow (LogRecord.producer_id record) (LogRecord.producer_epoch record)
               (LogRecord.sequence record) window_floor)
  else None.

(** The answer to a sequence that is remembered. *)
Definition decide_seen (record : LogRecord.t) (hash : bytes32) (seen : SeenRecord.t)
    : log_result SequenceDecision :=
  if decide (hash = SeenRecord.content_hash seen) then Ok (Duplicate (SeenRecord.offset seen))
  else Err (SequenceConflict (LogRecord.producer_id record) (LogRecord.sequence record)).

(** A sequence that is not remembered has to be the next one. *)
Definition decide_next (record : LogRecord.t) (latest : option u64) : log_result SequenceDecision :=
  match latest with
  | None =>
      if decide (ival (LogRecord.sequence record) = 0) then Ok Append
      else Err (FirstSequence (LogRecord.producer_id record) (LogRecord.sequence record))
  | Some latest =>
      match sequence_below_window record latest with
      | Some error => Err error
      | None =>
          expected ← ok_or (SequenceGap (LogRecord.producer_id record) u64_MAX
                              (LogRecord.sequence record)) (checked_succ latest);
          if decide (LogRecord.sequence record ≠ expected)
          then Err (SequenceGap (LogRecord.producer_id record) expected (LogRecord.sequence record))
          else Ok Append
      end
  end.

Definition validate_sequence (states : producer_states) (epochs : producer_epochs)
    (record : LogRecord.t) (hash : bytes32) : log_result SequenceDecision :=
  let key := key_of record in
  match states !! key ≫= λ state, ProducerState.seen state !! LogRecord.sequence record with
  | Some seen => decide_seen record hash seen
  | None =>
      validate_epoch_not_fenced (epochs !! LogRecord.producer_id record) record;;
      decide_next record (ProducerState.latest_sequence <$> states !! key)
  end.

Definition or_else {A} (x y : option A) : option A := match x with Some _ => x | None => y end.

Definition validate_sequence_with_delta (states : producer_states) (epochs : producer_epochs)
    (deltas : producer_deltas) (epoch_deltas : producer_epochs) (record : LogRecord.t)
    (hash : bytes32) : log_result SequenceDecision :=
  let key := key_of record in
  match deltas !! key ≫= λ delta, ProducerDelta.seen delta !! LogRecord.sequence record with
  | Some seen => decide_seen record hash seen
  | None =>
      match deltas !! key ≫= λ delta,
              sequence_below_window record (ProducerDelta.latest_sequence delta) with
      | Some error => Err error
      | None =>
          match states !! key ≫= λ state, ProducerState.seen state !! LogRecord.sequence record with
          | Some seen => decide_seen record hash seen
          | None =>
              validate_epoch_not_fenced
                (or_else (epoch_deltas !! LogRecord.producer_id record)
                         (epochs !! LogRecord.producer_id record)) record;;
              decide_next record
                (or_else (ProducerDelta.latest_sequence <$> deltas !! key)
                         (ProducerState.latest_sequence <$> states !! key))
          end
      end
  end.

(** ** Remembering *)

Definition u64_max (a b : u64) : u64 := if decide (ival a <= ival b) then b else a.
Definition u64_min (a b : u64) : u64 := if decide (ival a <= ival b) then a else b.

(** [entry(id).or_insert(epoch)], then the maximum of the two. *)
Definition raise_epoch (epochs : producer_epochs) (id : Uuid) (epoch : u64) : producer_epochs :=
  <[id := u64_max (default epoch (epochs !! id)) epoch]> epochs.

Definition remember_sequence (states : producer_states) (epochs : producer_epochs)
    (record : LogRecord.t) (offset : u64) (content_hash : bytes32)
    : producer_states * producer_epochs :=
  let sequence := LogRecord.sequence record in
  let seen_record := SeenRecord.mk offset content_hash in
  let state :=
    match states !! key_of record with
    | Some state =>
        ProducerState.mk sequence (ProducerState.first_sequence state)
          (wrapping_succ (ProducerState.record_count state))
          (evict_below_window (<[sequence := seen_record]> (ProducerState.seen state)) sequence)
    | None => ProducerState.mk sequence sequence one {[sequence := seen_record]}
    end in
  (<[key_of record := state]> states,
   raise_epoch epochs (LogRecord.producer_id record) (LogRecord.producer_epoch record)).

Definition remember_pending_sequence (deltas : producer_deltas) (epoch_deltas : producer_epochs)
    (record : LogRecord.t) (offset : u64) (content_hash : bytes32)
    : producer_deltas * producer_epochs :=
  let sequence := LogRecord.sequence record in
  let seen_record := SeenRecord.mk offset content_hash in
  let delta :=
    match deltas !! key_of record with
    | Some delta =>
        ProducerDelta.mk sequence (ProducerDelta.first_sequence delta)
          (wrapping_succ (ProducerDelta.record_count delta))
          (evict_below_window (<[sequence := seen_record]> (ProducerDelta.seen delta)) sequence)
    | None => ProducerDelta.mk sequence sequence one {[sequence := seen_record]}
    end in
  (<[key_of record := delta]> deltas,
   raise_epoch epoch_deltas (LogRecord.producer_id record) (LogRecord.producer_epoch record)).

(** One producer's turn of the loops of [merge_producer_deltas]. *)
Definition merge_epoch (latest epoch : option u64) : option u64 :=
  match latest, epoch with
  | Some latest, Some epoch => Some (u64_max latest epoch)
  | None, epoch => epoch
  | latest, None => latest
  end.
Definition merge_state (state : option ProducerState.t) (delta : option ProducerDelta.t)
    : option ProducerState.t :=
  match state, delta with
  | Some state, Some delta =>
      Some (ProducerState.mk (ProducerDelta.latest_sequence delta)
        (u64_min (ProducerState.first_sequence state) (ProducerDelta.first_sequence delta))
        (wrapping_add (ProducerState.record_count state) (ProducerDelta.record_count delta))
        (evict_below_window (ProducerDelta.seen delta ∪ ProducerState.seen state)
           (ProducerDelta.latest_sequence delta)))
  | None, Some delta =>
      Some (ProducerState.mk (ProducerDelta.latest_sequence delta)
        (ProducerDelta.first_sequence delta) (ProducerDelta.record_count delta)
        (ProducerDelta.seen delta))
  | state, None => state
  end.

(** The loops visit each key once and touch nothing else, so their order is immaterial. *)
Definition merge_producer_deltas (states : producer_states) (epochs : producer_epochs)
    (deltas : producer_deltas) (epoch_deltas : producer_epochs)
    : producer_states * producer_epochs :=
  (merge merge_state states deltas, merge merge_epoch epochs epoch_deltas).

(** ** A group decides as its records one by one *)

Lemma sequence_window_floor_val (latest : u64) :
  ival (sequence_window_floor latest) = Z.max 0 (latest - 65535).
Proof.
  pose proof (u64_bounds latest). unfold sequence_window_floor. apply wrap_int_small.
  change (0 <= Z.max 0 (latest - 65535) <= 18446744073709551615). lia.
Qed.

Lemma lookup_evict seen (latest seq : u64) :
  evict_below_window seen latest !! seq
  = if decide (ival (sequence_window_floor latest) <= ival seq) then seen !! seq else None.
Proof.
  unfold evict_below_window. case_decide as Hf.
  - rewrite map_lookup_filter. simpl. destruct (seen !! seq) as [x|]; simpl; case_decide; try done.
    all: by case_guard.
  - rewrite decide_True; [done|]. pose proof (u64_bounds seq).
    pose proof (u64_bounds (sequence_window_floor latest)). lia.
Qed.

Lemma below_window_None record latest :
  sequence_below_window record latest = None ↔
  ival (sequence_window_floor latest) <= ival (LogRecord.sequence record).
Proof. unfold sequence_below_window. case_decide; split; try done; lia. Qed.

Lemma below_window_Some record latest error :
  sequence_below_window record latest = Some error →
  ival (LogRecord.sequence record) < ival (sequence_window_floor latest).
Proof. unfold sequence_below_window. by case_decide. Qed.

(** What holds of the changes of a group at every point of it. *)
Record deltas_ok (states : producer_states) (epochs : producer_epochs)
    (deltas : producer_deltas) (epoch_deltas : producer_epochs) : Prop := {
  do_seen key delta seq seen :
    deltas !! key = Some delta → ProducerDelta.seen delta !! seq = Some seen →
    ival (sequence_window_floor (ProducerDelta.latest_sequence delta)) <= ival seq;
  do_first key delta :
    deltas !! key = Some delta →
    ival (ProducerDelta.first_sequence delta) <= ival (ProducerDelta.latest_sequence delta);
  do_state key state :
    states !! key = Some state →
    ival (ProducerState.first_sequence state) <= ival (ProducerState.latest_sequence state);
  do_epoch id latest epoch :
    epochs !! id = Some latest → epoch_deltas !! id = Some epoch → ival latest <= ival epoch;
}.

(** The two validations decide alike.  A record that is both fenced and older than the
    window is refused either way, for the one reason or for the other. *)
Definition decides_alike (group single : log_result SequenceDecision) : Prop :=
  group = single ∨
  ∃ id epoch seq floor id' latest actual,
    group = Err (SequenceBelowWindow id epoch seq floor) ∧
    single = Err (ProducerFenced id' latest actual).

Lemma merge_epoch_latest latest epoch :
  (∀ l e, latest = Some l → epoch = Some e → ival l <= ival e) →
  merge_epoch latest epoch = or_else epoch latest.
Proof.
  intros H. destruct latest as [l|], epoch as [e|]; try done. simpl. unfold u64_max.
  by rewrite decide_True by (by apply H).
Qed.

Lemma lookup_merged states epochs deltas epoch_deltas key id :
  (merge_producer_deltas states epochs deltas epoch_deltas).1 !! key
    = merge_state (states !! key) (deltas !! key) ∧
  (merge_producer_deltas states epochs deltas epoch_deltas).2 !! id
    = merge_epoch (epochs !! id) (epoch_deltas !! id).
Proof.
  unfold merge_producer_deltas. cbn [fst snd]. rewrite !lookup_merge. unfold diag_None.
  split; by repeat match goal with |- context [?m !! ?k] => destruct (m !! k) end.
Qed.

Lemma validate_group_single states epochs deltas epoch_deltas record hash :
  deltas_ok states epochs deltas epoch_deltas →
  let merged := merge_producer_deltas states epochs deltas epoch_deltas in
  decides_alike (validate_sequence_with_delta states epochs deltas epoch_deltas record hash)
    (validate_sequence merged.1 merged.2 record hash).
Proof.
  intros [Hseen _ _ Hepoch] merged. unfold validate_sequence, validate_sequence_with_delta.
  destruct (lookup_merged states epochs deltas epoch_deltas (key_of record)
    (LogRecord.producer_id record)) as [Hm1 Hm2]. fold merged in Hm1, Hm2. rewrite Hm1, Hm2. clear Hm1 Hm2.
  rewrite merge_epoch_latest by (by apply Hepoch).
  set (fenced := validate_epoch_not_fenced _ record). specialize (Hseen (key_of record)).
  destruct (deltas !! key_of record) as [delta|]; [|left; by destruct (states !! key_of record)].
  specialize (Hseen delta (LogRecord.sequence record)). cbn [mbind option_bind].
  set (floor := sequence_window_floor (ProducerDelta.latest_sequence delta)) in *.
  assert (∀ seen' : gmap u64 SeenRecord.t,
    evict_below_window (ProducerDelta.seen delta ∪ seen') (ProducerDelta.latest_sequence delta)
      !! LogRecord.sequence record
    = match ProducerDelta.seen delta !! LogRecord.sequence record with
      | Some x => Some x
      | None => if decide (ival floor <= ival (LogRecord.sequence record))
                then seen' !! LogRecord.sequence record else None
      end) as Hevict.
  { intros seen'. rewrite lookup_evict, lookup_union. fold floor.
    destruct (ProducerDelta.seen delta !! LogRecord.sequence record) as [x|] eqn:Hx.
    - rewrite decide_True by (by eapply Hseen). by rewrite union_Some_l.
    - by rewrite (left_id_L None union). }
  assert (∀ error, sequence_below_window record (ProducerDelta.latest_sequence delta) = Some error →
    decides_alike (Err error)
      (fenced;; decide_next record (Some (ProducerDelta.latest_sequence delta)))) as Hbelow.
  { intros error Herr. subst fenced. unfold validate_epoch_not_fenced.
    assert (decides_alike (Err error) (decide_next record (Some (ProducerDelta.latest_sequence delta))))
      as Hsame by (left; simpl; by rewrite Herr).
    destruct (or_else _ _) as [latest|]; [|exact Hsame].
    destruct (decide (ival (LogRecord.producer_epoch record) < ival latest)); [|exact Hsame]. right.
    unfold sequence_below_window in Herr. case_decide; [|done]. injection Herr as <-. by repeat eexists. }
  destruct (states !! key_of record) as [state|]; cbn [merge_state mbind option_bind fmap option_fmap
    option_map ProducerState.seen ProducerState.latest_sequence or_else].
  - rewrite Hevict.
    destruct (ProducerDelta.seen delta !! LogRecord.sequence record) as [x|]; [by left|].
    destruct (sequence_below_window record _) as [error|] eqn:Herr.
    + apply below_window_Some in Herr as Hlt. rewrite decide_False by (fold floor in Hlt; lia). by apply Hbelow.
    + apply below_window_None in Herr. rewrite decide_True by done. by left.
  - destruct (ProducerDelta.seen delta !! LogRecord.sequence record) as [x|]; [by left|].
    destruct (sequence_below_window record _) as [error|] eqn:Herr; [by apply Hbelow|by left].
Qed.

(** What a decision to append tells. *)
Lemma decide_next_Append record latest :
  decide_next record latest = Ok Append ↔
  match latest with
  | None => ival (LogRecord.sequence record) = 0
  | Some latest => ival (LogRecord.sequence record) = latest + 1
  end.
Proof.
  unfold decide_next. destruct latest as [latest|]; [|case_decide; naive_solver].
  pose proof (u64_bounds latest). pose proof (u64_bounds (LogRecord.sequence record)).
  pose proof (sequence_window_floor_val latest) as Hfloor.
  destruct (sequence_below_window record latest) as [error|] eqn:Herr.
  { apply below_window_Some in Herr. split; [done|]. intros Hs. lia. }
  destruct (checked_succ latest) as [expected|] eqn:Hs; simpl.
  - apply checked_succ_u64 in Hs. case_decide as Hne; split; try done.
    + intros Heq. destruct Hne. apply int_eq. lia.
    + intros _. by rewrite Hne.
  - split; [done|]. intros Heq. apply checked_add_None in Hs. rewrite ival_one in Hs.
    change (¬ (0 <= latest + 1 <= 18446744073709551615)) in Hs. lia.
Qed.

Lemma not_fenced_Ok latest record :
  validate_epoch_not_fenced latest record = Ok tt ↔
  ∀ l, latest = Some l → ival l <= ival (LogRecord.producer_epoch record).
Proof.
  unfold validate_epoch_not_fenced. destruct latest as [l|]; [case_decide|]; split; try done.
  - intros Hl. specialize (Hl l eq_refl). lia.
  - intros _ ? [= <-]. lia.
Qed.

Lemma decide_seen_Append record hash seen : decide_seen record hash seen ≠ Ok Append.
Proof. unfold decide_seen. by case_decide. Qed.

Lemma validate_Append states epochs record hash :
  validate_sequence states epochs record hash = Ok Append →
  (∀ latest, epochs !! LogRecord.producer_id record = Some latest →
     ival latest <= ival (LogRecord.producer_epoch record)) ∧
  match states !! key_of record with
  | None => ival (LogRecord.sequence record) = 0
  | Some state => ival (LogRecord.sequence record) = ProducerState.latest_sequence state + 1
  end.
Proof.
  unfold validate_sequence. destruct (states !! key_of record ≫= _) as [seen|].
  { by intros ?%decide_seen_Append. }
  intros ([] & Hf & Hn)%result_bind_Ok. rewrite not_fenced_Ok in Hf. split; [done|].
  apply decide_next_Append in Hn. by destruct (states !! key_of record).
Qed.

Lemma u64_max_l (a b : u64) : ival b <= ival a → u64_max a b = a.
Proof. intros. unfold u64_max. case_decide; [|done]. apply int_eq. lia. Qed.
Lemma u64_max_r (a b : u64) : ival a <= ival b → u64_max a b = b.
Proof. intros. unfold u64_max. by rewrite decide_True. Qed.
Lemma u64_min_l (a b : u64) : ival a <= ival b → u64_min a b = a.
Proof. intros. unfold u64_min. by rewrite decide_True. Qed.

Lemma evict_insert (seen : gmap u64 SeenRecord.t) (seq : u64) x :
  evict_below_window (<[seq := x]> seen) seq = <[seq := x]> (evict_below_window seen seq).
Proof.
  apply map_eq. intros j. rewrite lookup_evict. destruct (decide (seq = j)) as [<-|Hj].
  - rewrite !lookup_insert_eq. rewrite decide_True; [done|].
    rewrite sequence_window_floor_val. pose proof (u64_bounds seq). lia.
  - by rewrite !lookup_insert_ne, lookup_evict by done.
Qed.

Lemma evict_evict (seen : gmap u64 SeenRecord.t) (a b : u64) :
  ival a <= ival b →
  evict_below_window (evict_below_window seen a) b = evict_below_window seen b.
Proof.
  intros Hab. apply map_eq. intros j. rewrite !lookup_evict.
  pose proof (sequence_window_floor_val a). pose proof (sequence_window_floor_val b).
  case_decide; [|done]. by rewrite decide_True by lia.
Qed.

Lemma evict_union (s t : gmap u64 SeenRecord.t) (a : u64) :
  evict_below_window (s ∪ t) a = evict_below_window s a ∪ evict_below_window t a.
Proof.
  apply map_eq. intros j. rewrite lookup_union, !lookup_evict, lookup_union. by case_decide.
Qed.

Lemma wrapping_add_succ (a b : u64) : wrapping_add a (wrapping_succ b) = wrapping_succ (wrapping_add a b).
Proof.
  apply int_eq. unfold wrapping_add, wrap_int. cbn [ival int_min]. rewrite ival_one, !Z.sub_0_r, !Z.add_0_l.
  rewrite Z.add_mod_idemp_r, Z.add_mod_idemp_l by (by apply Z.neq_sym, Z.lt_neq, int_modulus_pos).
  f_equal. lia.
Qed.

(** The step of one producer, remembered in the group and then merged, or merged and then
    remembered. *)
Definition remember_state (state : option ProducerState.t) (seq : u64) (x : SeenRecord.t)
    : ProducerState.t :=
  match state with
  | Some state =>
      ProducerState.mk seq (ProducerState.first_sequence state)
        (wrapping_succ (ProducerState.record_count state))
        (evict_below_window (<[seq := x]> (ProducerState.seen state)) seq)
  | None => ProducerState.mk seq seq one {[seq := x]}
  end.
Definition remember_delta (delta : option ProducerDelta.t) (seq : u64) (x : SeenRecord.t)
    : ProducerDelta.t :=
  match delta with
  | Some delta =>
      ProducerDelta.mk seq (ProducerDelta.first_sequence delta)
        (wrapping_succ (ProducerDelta.record_count delta))
        (evict_below_window (<[seq := x]> (ProducerDelta.seen delta)) seq)
  | None => ProducerDelta.mk seq seq one {[seq := x]}
  end.

Lemma merge_remember state delta seq x :
  (∀ s, state = Some s →
     ival (ProducerState.first_sequence s) <= ival (ProducerState.latest_sequence s)) →
  match merge_state state delta with
  | Some s => ival seq = ProducerState.latest_sequence s + 1
  | None => True
  end →
  merge_state state (Some (remember_delta delta seq x))
  = Some (remember_state (merge_state state delta) seq x).
Proof.
  intros Hfirst Hseq. destruct state as [s|]; [specialize (Hfirst s eq_refl)|].
  - destruct delta as [d|]; simpl in Hseq; cbn [remember_delta merge_state remember_state
      ProducerDelta.latest_sequence ProducerDelta.first_sequence ProducerDelta.record_count
      ProducerDelta.seen ProducerState.latest_sequence ProducerState.first_sequence
      ProducerState.record_count ProducerState.seen]; f_equal; f_equal.
    + apply wrapping_add_succ.
    + rewrite evict_union, !evict_insert, !evict_evict by lia.
      by rewrite evict_union, insert_union_l.
    + rewrite u64_min_l by lia. done.
    + rewrite evict_union, evict_insert, <-insert_empty, evict_insert.
      rewrite <-insert_union_l. f_equal.
      assert (evict_below_window ∅ seq = ∅) as -> by (apply map_eq; intros; rewrite lookup_evict; by case_decide).
      by rewrite (left_id_L ∅ (∪)).
  - by destruct delta.
Qed.

Lemma merge_raise epochs epoch_deltas id epoch :
  (∀ id' latest e, epochs !! id' = Some latest → epoch_deltas !! id' = Some e → ival latest <= ival e) →
  (∀ l, or_else (epoch_deltas !! id) (epochs !! id) = Some l → ival l <= ival epoch) →
  merge merge_epoch epochs (raise_epoch epoch_deltas id epoch)
  = raise_epoch (merge merge_epoch epochs epoch_deltas) id epoch.
Proof.
  intros Hle Hepoch. apply map_eq. intros j. unfold raise_epoch.
  assert (∀ (a b : producer_epochs) k, merge merge_epoch a b !! k = merge_epoch (a !! k) (b !! k)) as Hmerge.
  { intros a b k. rewrite lookup_merge. by destruct (a !! k), (b !! k). }
  rewrite Hmerge. destruct (decide (id = j)) as [<-|Hj]; [|by rewrite !lookup_insert_ne, Hmerge].
  rewrite !lookup_insert_eq, Hmerge.
  rewrite (merge_epoch_latest (epochs !! id) (epoch_deltas !! id)) by (by apply Hle).
  destruct (epoch_deltas !! id) as [e|] eqn:He, (epochs !! id) as [l|] eqn:Hl; simpl in *.
  - specialize (Hepoch e eq_refl). specialize (Hle id l e Hl He). rewrite (u64_max_r e) by lia.
    by rewrite u64_max_r by lia.
  - done.
  - specialize (Hepoch l eq_refl). rewrite (u64_max_r epoch) by lia. done.
  - done.
Qed.

Lemma remember_group_single states epochs deltas epoch_deltas record offset hash :
  deltas_ok states epochs deltas epoch_deltas →
  validate_sequence_with_delta states epochs deltas epoch_deltas record hash = Ok Append →
  let merged := merge_producer_deltas states epochs deltas epoch_deltas in
  let after := remember_pending_sequence deltas epoch_deltas record offset hash in
  merge_producer_deltas states epochs after.1 after.2
    = remember_sequence merged.1 merged.2 record offset hash ∧
  deltas_ok states epochs after.1 after.2.
Proof.
  intros Hok Hdec merged after.
  pose proof (validate_group_single states epochs deltas epoch_deltas record hash Hok) as Halike.
  rewrite Hdec in Halike. destruct Halike as [Hsingle|(?&?&?&?&?&?&?&?&_)]; [|done].
  symmetry in Hsingle. apply validate_Append in Hsingle as [Hfence Hnext].
  destruct (lookup_merged states epochs deltas epoch_deltas (key_of record)
    (LogRecord.producer_id record)) as [Hm1 Hm2].
  rewrite Hm1 in Hnext. rewrite Hm2 in Hfence. destruct Hok as [Hseen Hdf Hsf Hep].
  rewrite merge_epoch_latest in Hfence by (by apply Hep).
  set (x := SeenRecord.mk offset hash). set (seq := LogRecord.sequence record) in *.
  assert (after = (<[key_of record := remember_delta (deltas !! key_of record) seq x]> deltas,
    raise_epoch epoch_deltas (LogRecord.producer_id record) (LogRecord.producer_epoch record))) as -> by done.
  cbn [fst snd]. split.
  - unfold merge_producer_deltas. rewrite merge_raise by done.
    assert (remember_sequence merged.1 merged.2 record offset hash
      = (<[key_of record := remember_state (merged.1 !! key_of record) seq x]> merged.1,
         raise_epoch merged.2 (LogRecord.producer_id record) (LogRecord.producer_epoch record))) as -> by done.
    f_equal. unfold merged. rewrite Hm1. apply map_eq. intros k.
    destruct (decide (key_of record = k)) as [<-|Hk].
    + rewrite lookup_insert_eq, lookup_merge, lookup_insert_eq.
      rewrite <-(merge_remember _ _ seq x).
      * by destruct (states !! key_of record).
      * apply Hsf.
      * destruct (merge_state _ _); [done|done].
    + rewrite lookup_insert_ne by done. unfold merge_producer_deltas. cbn [fst].
      by rewrite !lookup_merge, lookup_insert_ne by done.
  - pose proof (u64_bounds seq). split; [| |done|].
    + intros k d s y. rewrite lookup_insert_Some. intros [[<- <-]|[_ Hd]] Hy; [|by eapply Hseen].
      destruct (deltas !! key_of record) as [d0|];
        cbn [remember_delta ProducerDelta.latest_sequence ProducerDelta.seen] in *.
      * rewrite lookup_evict in Hy. by case_decide.
      * apply lookup_singleton_Some in Hy as [<- _]. rewrite sequence_window_floor_val. lia.
    + intros k d. rewrite lookup_insert_Some. intros [[<- <-]|[_ Hd]]; [|by eapply Hdf].
      destruct (deltas !! key_of record) as [d0|] eqn:Hd0; simpl; [|lia].
      apply Hdf in Hd0. destruct (states !! key_of record); simpl in Hnext; lia.
    + intros id latest e Hl. unfold raise_epoch. rewrite lookup_insert_Some.
      intros [[<- <-]|[_ He]]; [|by eapply Hep]. specialize (Hep (LogRecord.producer_id record) latest).
      unfold u64_max. rewrite Hl in *. destruct (epoch_deltas !! LogRecord.producer_id record) as [e0|]; simpl in *.
      * specialize (Hep e0 eq_refl eq_refl). case_decide; lia.
      * specialize (Hfence latest eq_refl). case_decide; lia.
Qed.

(** ** Replaying a log *)

(** The offset of the [n]-th record of a segment that begins at [base]. *)
Definition offset_at (base : u64) (n : nat) : u64 := wrap_int U64 (base + Z.of_nat n).

Definition tracker : Type := producer_states * producer_epochs.

Section replay.
Context {hash : Blake3Hash}.

Definition validate (T : tracker) (r : LogRecord.t) : log_result SequenceDecision :=
  validate_sequence T.1 T.2 r (record_content_hash r).
Definition remember (T : tracker) (r : LogRecord.t) (offset : u64) : tracker :=
  remember_sequence T.1 T.2 r offset (record_content_hash r).

(** The state after records that are each the next of its producer, from offset
    [base + n] on. *)
Fixpoint replay (T : tracker) (base : u64) (n : nat) (log : list LogRecord.t) : option tracker :=
  match log with
  | [] => Some T
  | r :: log =>
      match validate T r with
      | Ok Append => replay (remember T r (offset_at base n)) base (S n) log
      | _ => None
      end
  end.

Lemma replay_app T base n log log' :
  replay T base n (log ++ log') = replay T base n log ≫= λ T', replay T' base (n + length log) log'.
Proof.
  revert T n. induction log as [|r log IH]; intros T n; simpl; [by rewrite Nat.add_0_r|].
  destruct (validate T r) as [[]|]; [|done..]. rewrite IH. by rewrite Nat.add_succ_r.
Qed.

(** A record stays remembered until enough of its producer's records follow. *)
Definition remembers (T : tracker) (r : LogRecord.t) (offset : u64) (later : nat) : Prop :=
  ∃ state, T.1 !! key_of r = Some state ∧
    ival (ProducerState.latest_sequence state) = LogRecord.sequence r + Z.of_nat later ∧
    (ival (sequence_window_floor (ProducerState.latest_sequence state)) <= LogRecord.sequence r →
     ProducerState.seen state !! LogRecord.sequence r
       = Some (SeenRecord.mk offset (record_content_hash r))).

Lemma remember_remembers T r offset :
  remembers (remember T r offset) r offset 0.
Proof.
  unfold remembers, remember, remember_sequence. cbn [fst]. rewrite lookup_insert_eq.
  eexists. split; [done|]. destruct (T.1 !! key_of r) as [state|];
    cbn [ProducerState.latest_sequence ProducerState.seen]; (split; [lia|]); intros Hfloor.
  - by rewrite lookup_evict, decide_True, lookup_insert_eq.
  - apply lookup_singleton_eq.
Qed.

Lemma remembers_step T r offset later r' offset' :
  remembers T r offset later → validate T r' = Ok Append →
  remembers (remember T r' offset') r offset (if decide (key_of r' = key_of r) then S later else later).
Proof.
  intros (state & Hst & Hlatest & Hseen) [_ Hnext]%validate_Append.
  unfold remembers, remember, remember_sequence. cbn [fst].
  case_decide as Hkey; [|rewrite lookup_insert_ne by done; by exists state].
  rewrite Hkey in *. rewrite Hst in *. rewrite lookup_insert_eq. eexists. split; [done|].
  cbn [ProducerState.latest_sequence ProducerState.seen]. split; [lia|]. intros Hfloor.
  rewrite lookup_evict, decide_True by done.
  rewrite lookup_insert_ne by (intros Heq; apply (f_equal ival) in Heq; lia). apply Hseen.
  rewrite sequence_window_floor_val in *. lia.
Qed.

Lemma replay_remembers T base n log T' m r :
  replay T base n log = Some T' → log !! m = Some r →
  remembers T' r (offset_at base (n + m))
    (length (filter (λ r', key_of r' = key_of r) (drop (S m) log))).
Proof.
  intros Hreplay Hm. rewrite <-(take_drop_middle log m r Hm) in Hreplay.
  rewrite replay_app in Hreplay. apply bind_Some in Hreplay as (T1 & _ & Hreplay).
  simpl in Hreplay. destruct (validate T1 r) as [[]|] eqn:Hv; [|done..].
  apply lookup_lt_Some in Hm. rewrite length_take, Nat.min_l in Hreplay by lia.
  pose proof (remember_remembers T1 r (offset_at base (n + m))) as Hrem. revert Hrem Hreplay.
  generalize (remember T1 r (offset_at base (n + m))). generalize (offset_at base (n + m)).
  intros offset. change (length _) with (0 + length (filter (λ r', key_of r' = key_of r) (drop (S m) log)))%nat.
  generalize 0%nat. generalize (S (n + m)). generalize (drop (S m) log). clear.
  intros l. induction l as [|r' l IH]; intros i later T Hrem; simpl.
  { intros [= <-]. by rewrite Nat.add_0_r. }
  destruct (validate T r') as [[]|] eqn:Hv; [|done..]. intros Hreplay.
  apply (IH _ _ _ (remembers_step T r offset later r' (offset_at base i) Hrem Hv)) in Hreplay.
  rewrite filter_cons. case_decide; [|done]. simpl. by rewrite Nat.add_succ_r.
Qed.

(** C16. A sequence that a producer has used is never appended again.  While fewer than
    [PRODUCER_SEQUENCE_WINDOW] of the producer's records follow it, a retry is answered
    with the offset of the original and other content under the same sequence is refused
    as a conflict. *)
Theorem retry_decided (T0 T : tracker) (base : u64) (log : list LogRecord.t) (n : nat)
    (r retry : LogRecord.t) (h : bytes32) :
  replay T0 base 0 log = Some T → log !! n = Some r →
  key_of retry = key_of r → LogRecord.sequence retry = LogRecord.sequence r →
  validate_sequence T.1 T.2 retry h ≠ Ok Append ∧
  (Z.of_nat (length (filter (λ r', key_of r' = key_of r) (drop (S n) log))) < PRODUCER_SEQUENCE_WINDOW →
   validate_sequence T.1 T.2 retry h
   = if decide (h = record_content_hash r) then Ok (Duplicate (offset_at base n))
     else Err (SequenceConflict (LogRecord.producer_id r) (LogRecord.sequence r))).
Proof.
  intros Hreplay Hn Hkey Hseq.
  destruct (replay_remembers T0 base 0 log T n r Hreplay Hn) as (state & Hst & Hlatest & Hseen).
  set (later := length _) in *. pose proof (u64_bounds (LogRecord.sequence r)). split.
  - intros [_ Hnext]%validate_Append. rewrite Hkey, Hst, Hseq in Hnext. lia.
  - intros Hlater. unfold PRODUCER_SEQUENCE_WINDOW in Hlater. unfold validate_sequence.
    rewrite Hkey, Hseq, Hst. simpl. rewrite Hseen by (rewrite sequence_window_floor_val; lia).
    unfold decide_seen. simpl. rewrite Hseq. by injection Hkey as -> _.
Qed.
End replay.
