(* ===== verification/ProducerSnapshot.v ===== *)
(** The producer frontier that a segment inherits from its predecessor
    (crates/vtop-log/src/producer_snapshot.rs, and [inherited_states] and [snapshot_of] of
    segment.rs).

    What a segment hands over is accepted by the reader and gives its successor the very
    state the segment had. *)

From stdpp Require Import prelude strings list gmap pretty sorting.
From Stdlib Require Import ZArith Lia.
From S2P Require Import Prelude Wire Flow Storage LogTypes RecordCodec ProducerState.
#[local] Open Scope Z_scope.

Definition SNAPSHOT_MAGIC : list u8 := as_bytes "VTOPPRD1".
Definition SNAPSHOT_VERSION : u16 := wrap_int U16 1.

Module SnapshotSeen.
Record t := mk { sequence : u64; offset : u64; content_hash : bytes32 }.
End SnapshotSeen.

Module SnapshotEntry.
Record t := mk {
  latest_sequence : u64;
  first_sequence : u64;
  record_count : u64;
  seen : list SnapshotSeen.t
}.
End SnapshotEntry.

Module ProducerSnapshot.
Record t := mk {
  producers : gmap ProducerKey SnapshotEntry.t;
  epochs : gmap Uuid u64
}.
Definition default : t := mk ∅ ∅.
Definition is_empty (s : t) : bool := bool_decide (producers s = ∅) && bool_decide (epochs s = ∅).
End ProducerSnapshot.

Definition snapshot_corrupt (reason : string) : SegmentError :=
  Corrupt 0 ("producer snapshot: " +:+ reason).

(** ** Iteration in key order *)

Definition id_le {V} (p q : Uuid * V) : Prop := ival p.1 <= ival q.1.
#[global] Instance id_le_dec {V} : RelDecision (@id_le V) := λ p q, Z_le_dec (ival p.1) (ival q.1).
Definition producer_key_le {V} (p q : ProducerKey * V) : Prop :=
  ival p.1.1 < ival q.1.1 ∨ (ival p.1.1 = ival q.1.1 ∧ ival p.1.2 <= ival q.1.2).
#[global] Instance producer_key_le_dec {V} : RelDecision (@producer_key_le V).
Proof. intros p q. unfold producer_key_le. apply _. Defined.
Definition seq_le {V} (p q : u64 * V) : Prop := ival p.1 <= ival q.1.
#[global] Instance seq_le_dec {V} : RelDecision (@seq_le V) := λ p q, Z_le_dec (ival p.1) (ival q.1).

Definition epochs_iter (m : gmap Uuid u64) := stable_sort id_le (map_to_list m).
Definition producers_iter {V} (m : gmap ProducerKey V) := stable_sort producer_key_le (map_to_list m).
Definition seen_iter {V} (m : gmap u64 V) := stable_sort seq_le (map_to_list m).

Definition len_u32 {A} (l : list A) : u32 := wrap_int U32 (Z.of_nat (length l)).

Section snapshot.
Context {fmt : Fmt}.

(** ** Encoding *)

Definition encode_seen (s : SnapshotSeen.t) : list u8 :=
  to_be_bytes (SnapshotSeen.sequence s) ++ to_be_bytes (SnapshotSeen.offset s) ++
  to_be_bytes (SnapshotSeen.content_hash s).

Definition encode_epoch (e : Uuid * u64) : list u8 := to_be_bytes e.1 ++ to_be_bytes e.2.

Definition encode_entry (p : ProducerKey * SnapshotEntry.t) : log_result (list u8) :=
  let '((producer, epoch), entry) := p in
  let seen := SnapshotEntry.seen entry in
  if decide (PRODUCER_SEQUENCE_WINDOW < Z.of_nat (length seen)) then
    Err (InvalidConfig ("producer " +:+ uuid_display producer +:+ " epoch " +:+ int_display epoch
      +:+ " has " +:+ pretty (N.of_nat (length seen)) +:+ " retry-window entries; the bound is "
      +:+ pretty PRODUCER_SEQUENCE_WINDOW))
  else
    Ok (to_be_bytes producer ++ to_be_bytes epoch ++
        to_be_bytes (SnapshotEntry.latest_sequence entry) ++
        to_be_bytes (SnapshotEntry.first_sequence entry) ++
        to_be_bytes (SnapshotEntry.record_count entry) ++
        to_be_bytes (len_u32 seen) ++ (seen ≫= encode_seen)).

Fixpoint encode_entries (ps : list (ProducerKey * SnapshotEntry.t)) : log_result (list u8) :=
  match ps with
  | [] => Ok []
  | p :: ps => out ← encode_entry p; rest ← encode_entries ps; Ok (out ++ rest)
  end.

Definition encode_producer_snapshot (s : ProducerSnapshot.t) : log_result (list u8) :=
  let epochs := epochs_iter (ProducerSnapshot.epochs s) in
  let producers := producers_iter (ProducerSnapshot.producers s) in
  entries ← encode_entries producers;
  Ok (SNAPSHOT_MAGIC ++ to_be_bytes SNAPSHOT_VERSION ++ to_be_bytes (len_u32 epochs) ++
      (epochs ≫= encode_epoch) ++ to_be_bytes (len_u32 producers) ++ entries).

(** ** Decoding *)

Definition SnapR (A : Type) : Type := list u8 → log_result (A * list u8).
#[local] Instance snapr_ret : MRet SnapR := λ _ a bs, Ok (a, bs).
#[local] Instance snapr_bind : MBind SnapR := λ _ _ f c bs, '(a, bs) ← c bs; f a bs.

Definition snap_fail {A} (reason : string) : SnapR A := λ _, Err (snapshot_corrupt reason).
Definition snap_take (count : nat) : SnapR (list u8) := λ bs,
  if decide (length bs < count)%nat then Err (snapshot_corrupt "ends mid-field")
  else Ok (take count bs, drop count bs).
Definition snap_int (t : int_ty) : SnapR (int t) := bs ← snap_take (int_bytes t); mret (from_be_bytes t bs).

Fixpoint read_epochs (count : nat) (epochs : gmap Uuid u64) : SnapR (gmap Uuid u64) :=
  match count with
  | O => mret epochs
  | S count =>
      producer ← snap_int U128;
      epoch ← snap_int U64;
      match epochs !! producer with
      | Some _ => snap_fail ("producer " +:+ uuid_display producer +:+ " listed twice")
      | None => read_epochs count (<[producer := epoch]> epochs)
      end
  end.

Fixpoint read_seen (producer : Uuid) (count : nat) (previous : option u64)
    (seen : list SnapshotSeen.t) : SnapR (list SnapshotSeen.t) :=
  match count with
  | O => mret seen
  | S count =>
      sequence ← snap_int U64;
      if match previous with Some last => bool_decide (ival sequence <= ival last) | None => false end then
        snap_fail ("producer " +:+ uuid_display producer +:+ " retry window does not ascend at sequence "
          +:+ int_display sequence)
      else
        offset ← snap_int U64;
        content_hash ← snap_int U256;
        read_seen producer count (Some sequence)
          (seen ++ [SnapshotSeen.mk sequence offset content_hash])
  end.

(** The checks of an entry once its fields have been read. *)
Definition check_entry (producer : Uuid) (entry : SnapshotEntry.t) : log_result unit :=
  let latest := SnapshotEntry.latest_sequence entry in
  let first := SnapshotEntry.first_sequence entry in
  let seen := SnapshotEntry.seen entry in
  if decide (ival latest < ival first) then
    Err (snapshot_corrupt ("producer " +:+ uuid_display producer +:+ " first sequence "
      +:+ int_display first +:+ " is above its latest " +:+ int_display latest))
  else
  match head seen with
  | Some s =>
      if decide (ival (SnapshotSeen.sequence s) < ival first) then
        Err (snapshot_corrupt ("producer " +:+ uuid_display producer +:+ " remembers sequence "
          +:+ int_display (SnapshotSeen.sequence s) +:+ " below its first " +:+ int_display first))
      else Ok tt
  | None => Ok tt
  end;;
  match last seen with
  | Some s =>
      if decide (ival latest < ival (SnapshotSeen.sequence s)) then
        Err (snapshot_corrupt ("producer " +:+ uuid_display producer +:+ " remembers sequence "
          +:+ int_display (SnapshotSeen.sequence s) +:+ " above its latest " +:+ int_display latest))
      else Ok tt
  | None => Ok tt
  end;;
  span ← ok_or (snapshot_corrupt "producer sequence span overflows") (try_int U64 (latest - first + 1));
  if decide (SnapshotEntry.record_count entry ≠ span) then
    Err (snapshot_corrupt ("producer " +:+ uuid_display producer +:+ " claims "
      +:+ int_display (SnapshotEntry.record_count entry) +:+ " records across sequences "
      +:+ int_display first +:+ "..=" +:+ int_display latest +:+ ", which spans exactly "
      +:+ int_display span))
  else Ok tt.

Definition snap_lift {A} (r : log_result A) : SnapR A := λ bs, a ← r; Ok (a, bs).

Fixpoint read_producers (count : nat) (producers : gmap ProducerKey SnapshotEntry.t)
    : SnapR (gmap ProducerKey SnapshotEntry.t) :=
  match count with
  | O => mret producers
  | S count =>
      producer ← snap_int U128;
      epoch ← snap_int U64;
      latest_sequence ← snap_int U64;
      first_sequence ← snap_int U64;
      record_count ← snap_int U64;
      seen_count ← snap_int U32;
      if decide (PRODUCER_SEQUENCE_WINDOW < ival seen_count) then
        snap_fail ("producer " +:+ uuid_display producer +:+ " claims " +:+ int_display seen_count
          +:+ " retry-window entries; the bound is " +:+ pretty PRODUCER_SEQUENCE_WINDOW)
      else
        seen ← read_seen producer (Z.to_nat (ival seen_count)) None [];
        let entry := SnapshotEntry.mk latest_sequence first_sequence record_count seen in
        snap_lift (check_entry producer entry);;
        match producers !! (producer, epoch) with
        | Some _ => snap_fail ("producer " +:+ uuid_display producer +:+ " epoch "
            +:+ int_display epoch +:+ " listed twice")
        | None => read_producers count (<[(producer, epoch) := entry]> producers)
        end
  end.

(** The epoch map covers every producer that has state. *)
Fixpoint check_epochs (epochs : gmap Uuid u64) (keys : list ProducerKey) : log_result unit :=
  match keys with
  | [] => Ok tt
  | (producer, epoch) :: keys =>
      match epochs !! producer with
      | None => Err (snapshot_corrupt ("producer " +:+ uuid_display producer
          +:+ " has state at epoch " +:+ int_display epoch +:+ " but no epoch entry"))
      | Some latest =>
          if decide (ival latest < ival epoch) then
            Err (snapshot_corrupt ("producer " +:+ uuid_display producer +:+ " has state at epoch "
              +:+ int_display epoch +:+ ", above its recorded latest epoch " +:+ int_display latest))
          else check_epochs epochs keys
      end
  end.

Definition decode_producer_snapshot (bytes : list u8) : log_result ProducerSnapshot.t :=
  '(s, rest) ←
    (magic ← snap_take 8;
     if decide (magic ≠ SNAPSHOT_MAGIC) then snap_fail "bad magic" else
     version ← snap_int U16;
     if decide (version ≠ SNAPSHOT_VERSION) then
       snap_fail ("unsupported version " +:+ int_display version) else
     epoch_count ← snap_int U32;
     epochs ← read_epochs (Z.to_nat (ival epoch_count)) ∅;
     producer_count ← snap_int U32;
     producers ← read_producers (Z.to_nat (ival producer_count)) ∅;
     mret (ProducerSnapshot.mk producers epochs)) bytes;
  if decide (rest ≠ []) then Err (snapshot_corrupt "trailing bytes after the last producer")
  else
    check_epochs (ProducerSnapshot.epochs s)
      ((producers_iter (ProducerSnapshot.producers s)).*1);;
    Ok s.

(** ** Handing a frontier over *)

Definition inherited_states (inherited : ProducerSnapshot.t) : producer_states :=
  (λ entry, ProducerState.mk (SnapshotEntry.latest_sequence entry) (SnapshotEntry.first_sequence entry)
     (SnapshotEntry.record_count entry)
     (list_to_map ((λ s, (SnapshotSeen.sequence s,
        SeenRecord.mk (SnapshotSeen.offset s) (SnapshotSeen.content_hash s))) <$> reverse (SnapshotEntry.seen entry))))
  <$> ProducerSnapshot.producers inherited.

Definition snapshot_of (states : producer_states) (epochs : producer_epochs) : ProducerSnapshot.t :=
  ProducerSnapshot.mk
    ((λ state, SnapshotEntry.mk (ProducerState.latest_sequence state)
        (ProducerState.first_sequence state) (ProducerState.record_count state)
        ((λ s, SnapshotSeen.mk s.1 (SeenRecord.offset s.2) (SeenRecord.content_hash s.2))
           <$> seen_iter (ProducerState.seen state))) <$> states)
    epochs.

(** ** What the append path keeps true of its state *)

Record state_ok (st : ProducerState.t) : Prop := {
  so_first : ival (ProducerState.first_sequence st) <= ival (ProducerState.latest_sequence st);
  so_count : ival (ProducerState.record_count st)
    = (ProducerState.latest_sequence st - ProducerState.first_sequence st + 1) `mod` 2 ^ 64;
  so_seen seq x :
    ProducerState.seen st !! seq = Some x →
    ival (ProducerState.first_sequence st) <= ival seq <= ival (ProducerState.latest_sequence st) ∧
    ival (sequence_window_floor (ProducerState.latest_sequence st)) <= ival seq;
}.

Record tracker_ok (T : tracker) : Prop := {
  to_states key st : T.1 !! key = Some st → state_ok st;
  to_epochs id epoch st :
    T.1 !! (id, epoch) = Some st → ∃ latest, T.2 !! id = Some latest ∧ ival epoch <= ival latest;
}.

Lemma tracker_ok_empty : tracker_ok (∅, ∅).
Proof. split; intros *; simpl; by rewrite lookup_empty. Qed.

Lemma wrapping_succ_mod (a : u64) : ival (wrapping_succ a) = (a + 1) `mod` 2 ^ 64.
Proof.
  unfold wrapping_add, wrap_int. cbn [ival int_min]. rewrite ival_one, Z.sub_0_r, Z.add_0_l. done.
Qed.

Lemma state_ok_remember st seq x :
  match st with
  | Some st => state_ok st ∧ ival seq = ProducerState.latest_sequence st + 1
  | None => ival seq = 0
  end →
  state_ok (remember_state st seq x).
Proof.
  pose proof (u64_bounds seq). pose proof (sequence_window_floor_val seq) as Hfloor.
  destruct st as [st|]; simpl remember_state.
  - intros [[Hf Hc Hs] Hseq]. split; cbn [ProducerState.first_sequence ProducerState.latest_sequence
      ProducerState.record_count ProducerState.seen]; [lia| |].
    + rewrite wrapping_succ_mod, Hc, Zplus_mod_idemp_l. f_equal. lia.
    + intros s y. rewrite lookup_evict. case_decide; [|done].
      rewrite lookup_insert_Some. intros [[<- _]|[_ Hy]]; [lia|]. apply Hs in Hy. lia.
  - intros Hseq. split; cbn [ProducerState.first_sequence ProducerState.latest_sequence
      ProducerState.record_count ProducerState.seen]; [lia| |].
    + rewrite Z.sub_diag. apply ival_one.
    + intros s y [<- _]%lookup_singleton_Some. lia.
Qed.

Lemma tracker_ok_remember `{!Blake3Hash} T r offset :
  tracker_ok T → validate T r = Ok Append → tracker_ok (remember T r offset).
Proof.
  intros [Hst Hep] [Hfence Hnext]%validate_Append.
  assert (remember T r offset
    = (<[key_of r := remember_state (T.1 !! key_of r) (LogRecord.sequence r)
           (SeenRecord.mk offset (record_content_hash r))]> T.1,
       raise_epoch T.2 (LogRecord.producer_id r) (LogRecord.producer_epoch r))) as -> by done.
  split; cbn [fst snd].
  - intros key st. rewrite lookup_insert_Some. intros [[<- <-]|[_ Hk]]; [|by eapply Hst].
    apply state_ok_remember. destruct (T.1 !! key_of r) as [st|] eqn:Hr; [|done]. by apply Hst in Hr.
  - intros id epoch st. unfold raise_epoch. rewrite lookup_insert_Some. intros [[Hkey _]|[_ Hk]].
    + injection Hkey as <- <-. rewrite lookup_insert_eq. eexists. split; [done|].
      unfold u64_max. case_decide; lia.
    + apply Hep in Hk as (latest & Hl & Hle).
      destruct (decide (LogRecord.producer_id r = id)) as [<-|Hne];
        [|exists latest; by rewrite lookup_insert_ne].
      rewrite lookup_insert_eq, Hl. eexists. split; [done|]. simpl. unfold u64_max. case_decide; lia.
Qed.

Lemma replay_tracker_ok `{!Blake3Hash} T base n log T' :
  tracker_ok T → replay T base n log = Some T' → tracker_ok T'.
Proof.
  revert T n. induction log as [|r log IH]; intros T n HT; simpl; [by intros [= <-]|].
  destruct (validate T r) as [[]|] eqn:Hv; [|done..]. apply IH. by apply tracker_ok_remember.
Qed.

(** ** Reading back *)

Lemma snap_bind_next {A B} (c : SnapR A) (f : A → SnapR B) bs a mid :
  c bs = Ok (a, mid) → (c ≫= f) bs = f a mid.
Proof. intros Hc. unfold mbind, snapr_bind. by rewrite Hc. Qed.

Lemma snap_take_app xs rest : snap_take (length xs) (xs ++ rest) = Ok (xs, rest).
Proof.
  unfold snap_take. rewrite decide_False by (rewrite length_app; lia).
  by rewrite take_app_length, drop_app_length.
Qed.

Lemma snap_int_app {t} (a : int t) rest : snap_int t (to_be_bytes a ++ rest) = Ok (a, rest).
Proof.
  unfold snap_int. rewrite <-(length_to_be_bytes a).
  rewrite (snap_bind_next _ _ _ _ _ (snap_take_app _ _)).
  unfold mret, snapr_ret. by rewrite from_to_be_bytes.
Qed.

(** Reads the next field. *)
#[local] Ltac field := rewrite <-?(assoc_L (++)); rewrite (snap_bind_next _ _ _ _ _ (snap_int_app _ _)).

Lemma read_epochs_app l m rest :
  NoDup l.*1 → (∀ id, id ∈ l.*1 → m !! id = None) →
  read_epochs (length l) m ((l ≫= encode_epoch) ++ rest)
  = Ok (list_to_map l ∪ m, rest).
Proof.
  revert m. induction l as [|[id e] l IH]; intros m.
  { intros _ _. simpl. by rewrite (left_id_L ∅ (∪)). }
  rewrite bind_cons. cbn [fmap list_fmap length read_epochs list_to_map foldr fst snd].
  intros [Hid Hnd]%NoDup_cons Hm. unfold encode_epoch at 1. cbn [fst snd]. do 2 field.
  rewrite Hm by left. rewrite IH; [|done|].
  - f_equal. f_equal. rewrite <-insert_union_r by (by apply not_elem_of_list_to_map_1).
    by rewrite insert_union_l.
  - intros j Hj. rewrite lookup_insert_ne by (by intros ->). apply Hm. by right.
Qed.

Definition seen_lt (a b : SnapshotSeen.t) : Prop :=
  ival (SnapshotSeen.sequence a) < ival (SnapshotSeen.sequence b).

Lemma read_seen_app producer l previous acc rest :
  StronglySorted seen_lt l →
  (∀ p s, previous = Some p → s ∈ l → ival p < ival (SnapshotSeen.sequence s)) →
  read_seen producer (length l) previous acc ((l ≫= encode_seen) ++ rest) = Ok (acc ++ l, rest).
Proof.
  revert previous acc. induction l as [|s l IH]; intros previous acc Hsorted Hprev.
  { simpl. by rewrite app_nil_r. }
  apply StronglySorted_inv in Hsorted as [Hsorted Hs]. rewrite Forall_forall in Hs.
  rewrite bind_cons. cbn [length read_seen]. unfold encode_seen at 1. field.
  assert (match previous with Some last => bool_decide (ival (SnapshotSeen.sequence s) <= ival last)
          | None => false end = false) as ->.
  { destruct previous as [last|]; [|done]. apply bool_decide_eq_false.
    pose proof (Hprev last s eq_refl ltac:(by left)). lia. }
  do 2 field. rewrite IH; [|done|].
  - destruct s. by rewrite <-(assoc_L (++)).
  - intros p s' [= <-] Hs'. by apply Hs.
Qed.

(** The entries the reader accepts. *)
Record entry_ok (entry : SnapshotEntry.t) : Prop := {
  eo_sorted : StronglySorted seen_lt (SnapshotEntry.seen entry);
  eo_window : Z.of_nat (length (SnapshotEntry.seen entry)) <= PRODUCER_SEQUENCE_WINDOW;
  eo_first : ival (SnapshotEntry.first_sequence entry) <= ival (SnapshotEntry.latest_sequence entry);
  eo_seen s : s ∈ SnapshotEntry.seen entry →
    ival (SnapshotEntry.first_sequence entry) <= ival (SnapshotSeen.sequence s)
      <= ival (SnapshotEntry.latest_sequence entry);
  eo_count : ival (SnapshotEntry.record_count entry)
    = SnapshotEntry.latest_sequence entry - SnapshotEntry.first_sequence entry + 1;
}.

Lemma check_entry_ok producer entry : entry_ok entry → check_entry producer entry = Ok tt.
Proof.
  intros [_ _ Hfirst Hseen Hcount]. unfold check_entry. rewrite decide_False by lia.
  assert (∀ s, head (SnapshotEntry.seen entry) = Some s → s ∈ SnapshotEntry.seen entry) as Hhead.
  { intros s. destruct (SnapshotEntry.seen entry); [done|]. intros [= ->]. by left. }
  assert (∀ s, last (SnapshotEntry.seen entry) = Some s → s ∈ SnapshotEntry.seen entry) as Hlast.
  { intros s (l & ->)%last_Some. rewrite elem_of_app. right. by left. }
  destruct (head _) as [s|]; [rewrite decide_False by (specialize (Hseen s (Hhead s eq_refl)); lia)|];
    (destruct (last _) as [s'|]; [rewrite decide_False by (specialize (Hseen s' (Hlast s' eq_refl)); lia)|]);
    cbn [mbind result_bind]; rewrite <-Hcount, try_int_ival; simpl;
    by rewrite decide_False by (intros Hne; by destruct Hne).
Qed.

Lemma len_u32_val {A} (l : list A) :
  Z.of_nat (length l) < 2 ^ 32 → Z.to_nat (ival (len_u32 l)) = length l.
Proof.
  intros Hl. unfold len_u32. rewrite wrap_int_small; [lia|].
  change (0 <= Z.of_nat (length l) <= 4294967295). lia.
Qed.

Lemma read_producers_app l m out rest :
  NoDup l.*1 → (∀ key, key ∈ l.*1 → m !! key = None) → Forall (λ p, entry_ok p.2) l →
  encode_entries l = Ok out →
  read_producers (length l) m (out ++ rest) = Ok (list_to_map l ∪ m, rest).
Proof.
  revert m out. induction l as [|[[id e] entry] l IH]; intros m out.
  { intros _ _ _ [= <-]. simpl. by rewrite (left_id_L ∅ (∪)). }
  cbn [fmap list_fmap length read_producers list_to_map foldr fst snd encode_entries].
  intros [Hid Hnd]%NoDup_cons Hm [Hentry Hl]%Forall_cons (o & Ho & H)%result_bind_Ok.
  apply result_bind_Ok in H as (o' & Ho' & <-%Ok_inj). cbn [snd] in Hentry.
  unfold encode_entry in Ho. destruct Hentry as [Hsorted Hwin Hf Hs Hc] eqn:He. clear He.
  rewrite decide_False in Ho by lia. apply Ok_inj in Ho as <-. do 6 field.
  assert (Z.to_nat (ival (len_u32 (SnapshotEntry.seen entry))) = length (SnapshotEntry.seen entry)) as Hlen.
  { apply len_u32_val. unfold PRODUCER_SEQUENCE_WINDOW in Hwin. lia. }
  rewrite decide_False by lia. rewrite Hlen, <-?(assoc_L (++)).
  rewrite (snap_bind_next _ _ _ _ _ (read_seen_app _ _ None [] _ Hsorted ltac:(done))). cbv zeta.
  assert (SnapshotEntry.mk (SnapshotEntry.latest_sequence entry) (SnapshotEntry.first_sequence entry)
    (SnapshotEntry.record_count entry) ([] ++ SnapshotEntry.seen entry) = entry) as -> by (by destruct entry).
  rewrite (snap_bind_next _ _ _ tt (o' ++ rest)).
  2: { unfold snap_lift. by rewrite check_entry_ok by done. }
  rewrite Hm by left. rewrite (IH _ o'); [|done| |done|done].
  - f_equal. f_equal. rewrite <-insert_union_r by (by apply not_elem_of_list_to_map_1).
    by rewrite insert_union_l.
  - intros j Hj. rewrite lookup_insert_ne by (by intros <-). apply Hm. by right.
Qed.

(** ** Snapshots *)

Record snapshot_ok (s : ProducerSnapshot.t) : Prop := {
  sn_entries key entry : ProducerSnapshot.producers s !! key = Some entry → entry_ok entry;
  sn_epochs id epoch entry :
    ProducerSnapshot.producers s !! (id, epoch) = Some entry →
    ∃ latest, ProducerSnapshot.epochs s !! id = Some latest ∧ ival epoch <= ival latest;
}.

Lemma list_to_map_sorted {V} `{Countable K} (R : relation (K * V)) `{!RelDecision R} (m : gmap K V) :
  list_to_map (stable_sort R (map_to_list m)) = m ∧ NoDup (stable_sort R (map_to_list m)).*1 ∧
  ∀ k v, (k, v) ∈ stable_sort R (map_to_list m) ↔ m !! k = Some v.
Proof.
  pose proof (stable_sort_Permutation R (map_to_list m)) as Hp.
  assert (NoDup (stable_sort R (map_to_list m)).*1) as Hnd.
  { rewrite Hp. apply NoDup_fst_map_to_list. }
  split_and!; [|done|].
  - rewrite (list_to_map_proper _ (map_to_list m)) by done. apply list_to_map_to_list.
  - intros k v. rewrite Hp. apply elem_of_map_to_list.
Qed.

Lemma check_epochs_ok (epochs : gmap Uuid u64) keys :
  (∀ id epoch, (id, epoch) ∈ keys → ∃ latest, epochs !! id = Some latest ∧ ival epoch <= ival latest) →
  check_epochs epochs keys = Ok tt.
Proof.
  induction keys as [|[id e] keys IH]; intros Hk; simpl; [done|].
  destruct (Hk id e ltac:(by left)) as (latest & -> & Hle). rewrite decide_False by lia.
  apply IH. intros id' e' Hin. apply Hk. by right.
Qed.

Lemma encode_entries_ok l : Forall (λ p, entry_ok p.2) l → ∃ out, encode_entries l = Ok out.
Proof.
  induction 1 as [|[[id e] entry] l Hentry Hl [out IH]]; simpl; [by eexists|].
  rewrite decide_False by (apply Z.le_ngt, Hentry). simpl. rewrite IH. by eexists.
Qed.

Lemma snapshot_roundtrip s :
  snapshot_ok s → Z.of_nat (size (ProducerSnapshot.producers s)) < 2 ^ 32 →
  Z.of_nat (size (ProducerSnapshot.epochs s)) < 2 ^ 32 →
  ∃ bytes, encode_producer_snapshot s = Ok bytes ∧ decode_producer_snapshot bytes = Ok s.
Proof.
  intros [Hentries Hepochs] Hp He. unfold encode_producer_snapshot.
  destruct (list_to_map_sorted id_le (ProducerSnapshot.epochs s)) as (Hem & Hend & _).
  destruct (list_to_map_sorted producer_key_le (ProducerSnapshot.producers s)) as (Hpm & Hpnd & Hpin).
  fold (epochs_iter (ProducerSnapshot.epochs s)) in Hem, Hend.
  fold (producers_iter (ProducerSnapshot.producers s)) in Hpm, Hpnd, Hpin.
  assert (length (epochs_iter (ProducerSnapshot.epochs s)) = size (ProducerSnapshot.epochs s)) as Hel.
  { unfold epochs_iter. by rewrite (stable_sort_Permutation id_le), length_map_to_list. }
  assert (length (producers_iter (ProducerSnapshot.producers s)) = size (ProducerSnapshot.producers s)) as Hpl.
  { unfold producers_iter. by rewrite (stable_sort_Permutation producer_key_le), length_map_to_list. }
  set (es := epochs_iter _) in *. set (ps := producers_iter _) in *.
  assert (Forall (λ p, entry_ok p.2) ps) as Hok.
  { apply Forall_forall. intros [k v] Hin. apply Hpin in Hin. by eapply Hentries. }
  destruct (encode_entries_ok ps Hok) as [out Hout]. rewrite Hout. cbn [mbind result_bind].
  eexists. split; [done|]. unfold decode_producer_snapshot.
  rewrite (snap_bind_next _ _ _ _ _ (snap_take_app SNAPSHOT_MAGIC _)).
  rewrite decide_False by (intros Hne; by destruct Hne). field.
  rewrite decide_False by (intros Hne; by destruct Hne). field.
  rewrite len_u32_val by lia.
  rewrite (snap_bind_next _ _ _ _ _ (read_epochs_app _ _ _ Hend ltac:(intros; apply lookup_empty))).
  field. rewrite len_u32_val by lia. rewrite <-(app_nil_r out).
  rewrite (snap_bind_next _ _ _ _ _ (read_producers_app _ _ _ _ Hpnd ltac:(intros; apply lookup_empty) Hok Hout)).
  rewrite Hem, Hpm, !(right_id_L ∅ (∪)). cbn [mret snapr_ret mbind result_bind].
  rewrite decide_False by (intros Hne; by destruct Hne). cbn [ProducerSnapshot.producers ProducerSnapshot.epochs].
  rewrite check_epochs_ok; [by destruct s|]. intros id epoch Hin.
  apply list_elem_of_fmap in Hin as ([k v] & Hk & Hin). simpl in Hk. subst k. apply Hpin in Hin. by eapply Hepochs.
Qed.

(** ** What a segment hands over *)

#[local] Instance seq_le_total {V} : Total (@seq_le V).
Proof. intros p q. unfold seq_le. lia. Qed.
#[local] Instance seq_le_trans {V} : Transitive (@seq_le V).
Proof. intros p q r. unfold seq_le. lia. Qed.

Lemma seen_iter_sorted {V} (m : gmap u64 V) :
  StronglySorted (λ p q, ival p.1 < ival q.1) (seen_iter m).
Proof.
  destruct (list_to_map_sorted seq_le m) as (_ & Hnd & _). fold (seen_iter m) in Hnd.
  pose proof (stable_sort_sorted seq_le (map_to_list m)) as Hs. fold (seen_iter m) in Hs.
  induction Hs as [|p l Hl IH Hp]; [constructor|].
  cbn [fmap list_fmap] in Hnd. apply NoDup_cons in Hnd as [Hin Hnd]. constructor; [by apply IH|].
  rewrite Forall_forall in *. intros q Hq. specialize (Hp q Hq). unfold seq_le in Hp.
  assert (ival p.1 ≠ ival q.1); [|lia]. intros Heq%(inj ival). apply Hin. rewrite Heq.
  by apply list_elem_of_fmap_2.
Qed.

(** Sequences from a range of [n] values. *)
Lemma seen_bounded {V} (m : gmap u64 V) (lo : Z) (n : nat) :
  (∀ seq x, m !! seq = Some x → lo <= ival seq < lo + Z.of_nat n) → (length (seen_iter m) <= n)%nat.
Proof.
  intros Hm. destruct (list_to_map_sorted seq_le m) as (_ & Hnd & Hin). fold (seen_iter m) in Hnd, Hin.
  rewrite <-(length_fmap fst), <-(length_fmap (@ival U64)).
  replace n with (length (seqZ lo (Z.of_nat n))) by (rewrite length_seqZ; lia).
  apply submseteq_length, NoDup_submseteq; [by apply (NoDup_fmap_2 _)|].
  intros z (k & -> & Hk)%list_elem_of_fmap. apply list_elem_of_fmap in Hk as ([k' x] & -> & Hk).
  apply Hin, Hm in Hk. apply elem_of_seqZ. simpl. lia.
Qed.

Lemma sorted_fmap {A B} (R : relation A) (S : relation B) (f : A → B) l :
  (∀ x y, R x y → S (f x) (f y)) → StronglySorted R l → StronglySorted S (f <$> l).
Proof.
  intros Hf. induction 1 as [|x l Hl IH Hx]; simpl; constructor; [done|].
  rewrite Forall_fmap. eapply Forall_impl; [done|]. intros y. apply Hf.
Qed.

(** No producer is at the last sequence a u64 can hold. *)
Definition sequences_left (T : tracker) : Prop :=
  ∀ key st, T.1 !! key = Some st → ival (ProducerState.latest_sequence st) < u64_MAX.

Lemma snapshot_of_ok T :
  tracker_ok T → sequences_left T → snapshot_ok (snapshot_of T.1 T.2).
Proof.
  intros [Hst Hep] Hleft. split; cbn [snapshot_of ProducerSnapshot.producers ProducerSnapshot.epochs].
  2: { intros id e entry. rewrite lookup_fmap_Some. intros (st & _ & Hk). by eapply Hep. }
  intros key entry. rewrite lookup_fmap_Some. intros (st & <- & Hk).
  pose proof (Hleft key st Hk) as Hlt. rewrite u64_MAX_val in Hlt.
  destruct (Hst key st Hk) as [Hf Hc Hs].
  pose proof (u64_bounds (ProducerState.first_sequence st)).
  split; cbn [SnapshotEntry.seen SnapshotEntry.first_sequence SnapshotEntry.latest_sequence
    SnapshotEntry.record_count].
  - eapply sorted_fmap; [|apply seen_iter_sorted]. by intros [] [].
  - rewrite length_fmap. unfold PRODUCER_SEQUENCE_WINDOW.
    pose proof (seen_bounded (ProducerState.seen st)
      (sequence_window_floor (ProducerState.latest_sequence st)) (Z.to_nat 65536)) as Hlen.
    rewrite Z2Nat.id in Hlen by lia. specialize (Hlen ltac:(
      intros seq x Hx; apply Hs in Hx; rewrite sequence_window_floor_val in *; lia)).
    apply inj_le in Hlen. rewrite Z2Nat.id in Hlen by lia. exact Hlen.
  - done.
  - intros s ([k x] & -> & Hin)%list_elem_of_fmap.
    destruct (list_to_map_sorted seq_le (ProducerState.seen st)) as (_ & _ & Hiter).
    apply Hiter in Hin. apply Hs in Hin. simpl. lia.
  - rewrite Hc, Z.mod_small; lia.
Qed.

Lemma inherited_snapshot_of (T : tracker) : inherited_states (snapshot_of T.1 T.2) = T.1.
Proof.
  unfold inherited_states, snapshot_of. cbn [ProducerSnapshot.producers].
  rewrite <-map_fmap_compose. rewrite <-(map_fmap_id T.1) at 2. apply map_fmap_ext.
  intros key [latest first count seen] _. simpl. f_equal.
  destruct (list_to_map_sorted seq_le seen) as (Hm & Hnd & _). fold (seen_iter seen) in Hm, Hnd.
  rewrite <-fmap_reverse, <-list_fmap_compose. rewrite <-Hm at 2.
  rewrite (list_fmap_ext _ id), list_fmap_id by (by intros ? [? []]).
  apply list_to_map_proper; [|apply reverse_Permutation].
  by rewrite (reverse_Permutation (seen_iter seen)).
Qed.

(** C39. A segment that starts from what its predecessor hands over starts with the very state
    the predecessor ended in: the frontier of any log can be written (as long as its counts
    fit the format and no producer has used up its sequences), the reader accepts it, and
    the state rebuilt from it is the state it was taken from. *)
Theorem frontier_inherited `{!Blake3Hash} (T0 T : tracker) (base : u64) (log : list LogRecord.t) :
  tracker_ok T0 → replay T0 base 0 log = Some T → sequences_left T →
  Z.of_nat (size T.1) < 2 ^ 32 → Z.of_nat (size T.2) < 2 ^ 32 →
  tracker_ok T ∧
  ∃ bytes, encode_producer_snapshot (snapshot_of T.1 T.2) = Ok bytes ∧
    decode_producer_snapshot bytes = Ok (snapshot_of T.1 T.2) ∧
    inherited_states (snapshot_of T.1 T.2) = T.1 ∧
    ProducerSnapshot.epochs (snapshot_of T.1 T.2) = T.2.
Proof.
  intros HT0 Hreplay Hleft Hs He. pose proof (replay_tracker_ok _ _ _ _ _ HT0 Hreplay) as HT.
  split; [done|]. destruct (snapshot_roundtrip (snapshot_of T.1 T.2)) as (bytes & Henc & Hdec).
  - by apply snapshot_of_ok.
  - simpl. by rewrite map_size_fmap.
  - done.
  - exists bytes. split_and!; [done|done|apply inherited_snapshot_of|done].
Qed.
End snapshot.
