(* ===== verification/SegmentFiles.v ===== *)
(** The files of a segment (crates/vtop-log/src/segment.rs, codec.rs and codec_v2.rs): their
    names, the segment header, the commit boundary, and the atomic replacement of a sidecar
    by a synced temporary file, a rename and a directory sync.

    The JSON text of a header is serde_json's and a parameter ([HeaderJson]), and so is the
    text of a UUID ([Fmt]).  A nonce of the environment's random source is an argument of
    the operation that draws it. *)

From stdpp Require Import prelude strings list gmap pretty.
From Stdlib Require Import ZArith Lia.
From S2P Require Import Prelude Wire Flow Storage LogTypes RecordCodec ProducerState ProducerSnapshot.
#[local] Open Scope nat_scope.

(** ** Paths of the standard library *)

(** [Path::file_name]: the last component, unless it is [.] or [..]. *)
Definition file_name (p : PathBuf) : option (list u8) :=
  match last (components p) with
  | Some c => if decide (c = as_bytes "." ∨ c = as_bytes "..") then None else Some c
  | None => None
  end.

(** What precedes and follows the last dot. *)
Fixpoint rsplit_dot (bs : list u8) : option (list u8 * list u8) :=
  match bs with
  | [] => None
  | b :: rest =>
      match rsplit_dot rest with
      | Some (before, after) => Some (b :: before, after)
      | None => if decide (ival b = 46%Z) then Some ([], rest) else None
      end
  end.

(** A name without a dot, or with only a leading one, is all stem. *)
Definition extension (p : PathBuf) : option (list u8) :=
  name ← file_name p;
  match rsplit_dot name with
  | None | Some ([], _) => None
  | Some (_, after) => Some after
  end.
Definition file_stem (p : PathBuf) : option (list u8) :=
  name ← file_name p;
  match rsplit_dot name with
  | None | Some ([], _) => Some name
  | Some (before, _) => Some before
  end.

(** [OsStr::to_str] *)
Definition to_str (name : list u8) : option (list u8) := if utf8_valid name then Some name else None.

Definition join (p : PathBuf) (name : list u8) : PathBuf :=
  Path (is_absolute p) (components p ++ [name]).
Definition with_file_name (p : PathBuf) (name : list u8) : PathBuf :=
  Path (is_absolute p)
    ((if file_name p then removelast (components p) else components p) ++ [name]).

(** [Path::display], of a path that is UTF-8. *)
Fixpoint with_slashes (components : list (list u8)) : list u8 :=
  match components with
  | [] => []
  | [component] => component
  | component :: rest => component ++ as_bytes "/" ++ with_slashes rest
  end.
Definition path_display (p : PathBuf) : string :=
  string_of_bytes ((if is_absolute p then as_bytes "/" else []) ++ with_slashes (components p)).

(** ** Names of the files of a segment *)

Module SegmentPaths.
Record t := mk {
  segment : PathBuf;
  index : PathBuf;
  manifest : PathBuf;
  commit : PathBuf;
  chunks : PathBuf;
  producers : PathBuf
}.

Definition from_stem (path : PathBuf) : log_result t :=
  stem ← ok_or (invalid_descriptor "segment filename is not UTF-8") (file_stem path ≫= to_str);
  let dir := default current_dir (parent path) in
  let named suffix := join dir (stem ++ as_bytes suffix) in
  Ok (mk (named ".segment") (named ".index") (named ".manifest.json") (named ".commit")
        (named ".chunks") (named ".producers")).

Definition from_active (path : PathBuf) : log_result t :=
  if decide (extension path ≠ Some (as_bytes "active"))
  then Err (invalid_descriptor "active segment path must end in .active")
  else from_stem path.

Definition from_segment (path : PathBuf) : log_result t :=
  if decide (extension path ≠ Some (as_bytes "segment"))
  then Err (invalid_descriptor "sealed segment path must end in .segment")
  else from_stem path.
End SegmentPaths.

(** ** Replacing a sidecar *)

Definition io_error (path : PathBuf) (source : IoError) : SegmentError := SegmentIo path source.

Definition with_path (path : PathBuf) (error : SegmentError) : SegmentError :=
  match error with SegmentIo _ source => io_error path source | other => other end.

Definition sync_parent (path : PathBuf) : SimE SegmentError unit :=
  let dir := default current_dir (parent path) in
  map_err (io_error dir) (SimStorage.sync_dir dir).

Section files.
Context {hash : Blake3Hash} {fmt : Fmt}.

Definition temporary_name (nonce : Uuid) (name : list u8) : list u8 :=
  as_bytes "." ++ name ++ as_bytes "." ++ as_bytes (uuid_display nonce) ++ as_bytes ".tmp".

Definition write_atomic (nonce : Uuid) (path : PathBuf) (bytes : list u8) : SimE SegmentError unit :=
  name ← sim_lift (ok_or (invalid_descriptor "sidecar path has no UTF-8 filename")
                     (file_name path ≫= to_str));
  let temporary := with_file_name path (temporary_name nonce name) in
  file ← map_err (io_error temporary) (SimStorage.open temporary CreateNew);
  written ← attempt (file ← write_all file bytes; file_sync_data file);
  match written with
  | Err source =>
      attempt (SimStorage.remove_file temporary);; sim_fail (io_error temporary source)
  | Ok _ =>
      renamed ← attempt (SimStorage.rename temporary path);
      match renamed with
      | Err source => attempt (SimStorage.remove_file temporary);; sim_fail (io_error path source)
      | Ok _ => sync_parent path
      end
  end.

(** ** The commit boundary *)

Definition COMMIT_MAGIC : list u8 := as_bytes "VTOPCMT1".
Definition COMMIT_VERSION : u16 := wrap_int U16 1.
Definition COMMIT_BOUNDARY_LEN : nat := 8 + 2 + 16 + 8 + 8 + 32.

Record CommitBoundary := mkBoundary {
  boundary_segment_id : Uuid;
  boundary_committed_offset : u64;
  boundary_content_bytes : u64
}.

Definition encode_commit_boundary (boundary : CommitBoundary) : list u8 :=
  let bytes :=
    COMMIT_MAGIC ++ to_be_bytes COMMIT_VERSION ++ to_be_bytes (boundary_segment_id boundary) ++
    to_be_bytes (boundary_committed_offset boundary) ++
    to_be_bytes (boundary_content_bytes boundary) in
  bytes ++ to_be_bytes (blake3_hash bytes).

Definition write_commit_boundary_atomic (nonce : Uuid) (path : PathBuf) (boundary : CommitBoundary)
    : SimE SegmentError unit :=
  write_atomic nonce path (encode_commit_boundary boundary).

Definition decode_commit_boundary (bytes : list u8) : log_result CommitBoundary :=
  if decide (length bytes ≠ COMMIT_BOUNDARY_LEN) then
    Err (CommitBoundaryMismatch ("expected " +:+ pretty (N.of_nat COMMIT_BOUNDARY_LEN)
      +:+ " bytes, found " +:+ pretty (N.of_nat (length bytes))))
  else if decide (take 8 bytes ≠ COMMIT_MAGIC) then
    Err (CommitBoundaryMismatch "invalid commit marker magic")
  else
    let version := from_be_bytes U16 (take 2 (drop 8 bytes)) in
    if decide (version ≠ COMMIT_VERSION) then
      Err (CommitBoundaryMismatch ("unsupported commit marker version " +:+ int_display version))
    else
      let checksum_start := COMMIT_BOUNDARY_LEN - 32 in
      if decide (to_be_bytes (blake3_hash (take checksum_start bytes)) ≠ drop checksum_start bytes) then
        Err (CommitBoundaryMismatch "commit marker checksum mismatch")
      else
        Ok (mkBoundary (from_be_bytes U128 (take 16 (drop 10 bytes)))
              (from_be_bytes U64 (take 8 (drop 26 bytes)))
              (from_be_bytes U64 (take 8 (drop 34 bytes)))).

Definition read_commit_boundary (path : PathBuf) : SimE SegmentError CommitBoundary :=
  bytes ← map_err (io_error path) (SimStorage.read path);
  sim_lift (decode_commit_boundary bytes).

(** ** The inherited producer frontier *)

Definition read_producer_snapshot (paths : SegmentPaths.t) : SimE SegmentError ProducerSnapshot.t :=
  let path := SegmentPaths.producers paths in
  present ← map_err (io_error path) (SimStorage.exists_ path);
  if negb present then mret ProducerSnapshot.default
  else
    bytes ← map_err (io_error path) (SimStorage.read path);
    sim_lift (decode_producer_snapshot bytes).
End files.

(** ** The header *)

(** [serde_json::to_vec] and [serde_json::from_slice] at the two header types; an error is
    its text. *)
Class HeaderJson := {
  to_vec_v1 : SegmentHeader.t → result string (list u8);
  from_slice_v1 : list u8 → result string SegmentHeader.t;
  to_vec_v2 : SegmentHeaderV2.t → result string (list u8);
  from_slice_v2 : list u8 → result string SegmentHeaderV2.t;
}.

(** What is documented of them: deserializing inverts serializing, and the text of a
    struct is not empty. *)
Class HeaderJsonLaws `{!HeaderJson} : Prop := {
  json_v1 header json : to_vec_v1 header = Ok json → from_slice_v1 json = Ok header ∧ json ≠ [];
  json_v2 header json : to_vec_v2 header = Ok json → from_slice_v2 json = Ok header ∧ json ≠ [];
}.

Definition HEADER_MAGIC : list u8 := as_bytes "VTOPSEG1".
Definition HEADER_MAGIC_V2 : list u8 := as_bytes "VTOPSEG2".
Definition MAX_HEADER_BYTES : Z := 1024 * 1024.

(** A computation whose panic is a panic of the whole. *)
Definition sim_panic {E A} (r : option (result E A)) : SimE E A := λ s, r ← r; Some (s, r).

Section headers.
Context {hash : Blake3Hash} {fmt : Fmt} {json : HeaderJson}.

Definition encode_header_envelope (magic : list u8) (json : result string (list u8)) : log_result (list u8) :=
  match json with
  | Err error => Err (invalid_descriptor ("cannot encode header: " +:+ error))
  | Ok json =>
      json_len ← ok_or (invalid_descriptor "encoded segment header is too large")
                   (u32_try_from (Z.of_nat (length json)));
      if decide (MAX_HEADER_BYTES < ival json_len)%Z then
        Err (invalid_descriptor "encoded segment header is too large")
      else Ok (seal_frame (magic ++ to_be_bytes json_len ++ json))
  end.

Definition encode_header (header : SegmentHeader.t) : log_result (list u8) :=
  encode_header_envelope HEADER_MAGIC (to_vec_v1 header).
Definition encode_header_v2 (header : SegmentHeaderV2.t) : log_result (list u8) :=
  encode_header_envelope HEADER_MAGIC_V2 (to_vec_v2 header).

Definition header_read_error (position : nat) (part : string) (source : IoError) : SegmentError :=
  match error_kind source with
  | UnexpectedEof => Corrupt position ("incomplete " +:+ part +:+ ": " +:+ error_text source)
  | _ => SegmentIo segment_path source
  end.

(** The envelope up to its JSON text, checked and authenticated. *)
Definition read_envelope (magic : list u8) (f : SimFile.t)
    : SimE SegmentError (list u8 * nat * SimFile.t) :=
  '(_, f) ← map_err (SegmentIo segment_path) (file_seek f (SeekStart 0));
  '(prefix, f) ← map_err (header_read_error 0 "segment header") (read_exact f 12);
  if decide (take 8 prefix ≠ magic) then sim_fail (Corrupt 0 "invalid segment header magic")
  else
    let json_len := from_be_bytes U32 (drop 8 prefix) in
    if decide (ival json_len = 0 ∨ MAX_HEADER_BYTES < ival json_len)%Z then
      sim_fail (Corrupt 8 ("invalid header length " +:+ int_display json_len))
    else
      let len := Z.to_nat (ival json_len) in
      '(json, f) ← map_err (header_read_error 12 "segment header JSON") (read_exact f len);
      '(stored_hash, f) ←
        map_err (header_read_error (12 + len) "segment header checksum") (read_exact f CHECKSUM_LEN);
      if decide (to_be_bytes (blake3_hash (prefix ++ json)) ≠ stored_hash) then
        sim_fail (Corrupt 0 "segment header checksum mismatch")
      else mret (json, 12 + len + CHECKSUM_LEN, f).

Definition header_json {A} (r : result string A) : log_result A :=
  match r with
  | Ok header => Ok header
  | Err error => Err (Corrupt 12 ("invalid segment header JSON: " +:+ error))
  end.

Definition check_header_format (format : string) (version expected : u16) : log_result unit :=
  if decide (format ≠ FORMAT_NAME) then
    Err (Corrupt 12 ("unexpected segment format " +:+ str_debug format))
  else if decide (version ≠ expected) then Err (UnsupportedVersion version)
  else Ok tt.

Definition read_header_v1 (f : SimFile.t) : SimE SegmentError (SegmentHeader.t * nat * SimFile.t) :=
  '(json, content_start, f) ← read_envelope HEADER_MAGIC f;
  header ← sim_lift (header_json (from_slice_v1 json));
  sim_lift (check_header_format (SegmentHeader.format header) (SegmentHeader.version header) FORMAT_VERSION);;
  sim_panic (SegmentDescriptor.validate (SegmentHeader.descriptor header));;
  sim_lift (SegmentConfig.validate (SegmentHeader.config header));;
  mret (header, content_start, f).

Definition read_header_v2 (f : SimFile.t) : SimE SegmentError (SegmentHeaderV2.t * nat * SimFile.t) :=
  '(json, content_start, f) ← read_envelope HEADER_MAGIC_V2 f;
  header ← sim_lift (header_json (from_slice_v2 json));
  sim_lift (check_header_format (SegmentHeaderV2.format header) (SegmentHeaderV2.version header)
              FORMAT_VERSION_V2);;
  sim_panic (SegmentDescriptorV2.validate (SegmentHeaderV2.descriptor header));;
  sim_lift (SegmentConfigV2.validate (SegmentHeaderV2.config header));;
  mret (header, content_start, f).

Definition read_header (f : SimFile.t) : SimE SegmentError (AnyHeader.t * nat * SimFile.t) :=
  '(_, f) ← map_err (SegmentIo segment_path) (file_seek f (SeekStart 0));
  '(magic, f) ← map_err (header_read_error 0 "segment header") (read_exact f 8);
  if decide (magic = HEADER_MAGIC) then
    '(header, content_start, f) ← read_header_v1 f;
    mret (AnyHeader.V1 header, content_start, f)
  else if decide (magic = HEADER_MAGIC_V2) then
    '(header, content_start, f) ← read_header_v2 f;
    mret (AnyHeader.V2 header, content_start, f)
  else sim_fail (Corrupt 0 "invalid segment header magic").

Definition read_header_with_path (f : SimFile.t) (path : PathBuf)
    : SimE SegmentError (AnyHeader.t * nat * SimFile.t) :=
  map_err (with_path path) (read_header f).
End headers.
