(* ===== verification/SegmentScan.v ===== *)
(** Walking the records of a segment file (crates/vtop-log/src/segment.rs): the scan that
    rebuilds all derived state from the bytes, the search for the position of an offset, and
    the reads below a watermark.

    Counts of bytes and of records in one file are natural numbers, as file positions are
    (the simulated file lives in memory); offsets, which start anywhere, are u64.  A loop
    that reads frames takes as fuel a bound on its turns: every turn but the last consumes a
    frame, and a frame is at least one byte. *)

From stdpp Require Import prelude strings list gmap pretty.
From Stdlib Require Import ZArith Lia.
From S2P Require Import Prelude Wire Placement Flow Storage ChunkTree LogTypes RecordCodec.
From S2P Require Import ProducerState ProducerSnapshot SegmentFiles.
#[local] Open Scope nat_scope.

Module IndexEntry.
Record t := mk { offset : u64; position : nat }.
#[global] Instance t_eq_dec : EqDecision t.
Proof. solve_decision. Defined.
End IndexEntry.

(** The linear digest of a v1 segment, whose state is what has been hashed so far, or the
    chunk tree of a v2 segment. *)
Module ContentAccumulator.
Inductive t := V1 (hasher : list u8) | V2 (builder : ChunkTreeBuilder).

(** [None] is the builder's panic on a chunk size of zero. *)
Definition for_header (header : AnyHeader.t) : option t :=
  match header with
  | AnyHeader.V1 _ => Some (V1 [])
  | AnyHeader.V2 header =>
      V2 <$> builder_new (SegmentConfigV2.chunk_size (SegmentHeaderV2.config header))
  end.

Definition update `{!Blake3} (bytes : list u8) (self : t) : t :=
  match self with
  | V1 hasher => V1 (hasher ++ bytes)
  | V2 builder => V2 (builder_update builder bytes)
  end.

Definition finalize `{!Blake3, !Blake3Hash} (self : t) : list bytes32 * bytes32 :=
  match self with
  | V1 hasher => ([], blake3_hash hasher)
  | V2 builder => builder_finalize builder
  end.
End ContentAccumulator.

Module ScanResult.
Record t := mk {
  records : nat;
  valid_end : nat;
  truncated_bytes : nat;
  next_offset : u64;
  producer_states : producer_states;
  producer_epochs : producer_epochs;
  index : list IndexEntry.t;
  accumulator : ContentAccumulator.t
}.
End ScanResult.

Definition nat_u64 (n : nat) : u64 := wrap_int U64 (Z.of_nat n).
Definition nat_display (n : nat) : string := pretty (N.of_nat n).

(** [n.is_multiple_of(u64::from(stride))] *)
Definition is_multiple_of (n : Z) (stride : u32) : bool := bool_decide (n `mod` ival stride = 0)%Z.

Section scan.
Context {hash : Blake3Hash} {tree : Blake3} {fmt : Fmt}.

(** ** Rebuilding the state *)

(** The checks of a frame and what it adds to the state. *)
Definition scan_frame (header : AnyHeader.t) (header_len file_len : nat) (frame : DecodedFrame.t)
    (st : ScanResult.t) : log_result ScanResult.t :=
  let position := ScanResult.valid_end st in
  let records := ScanResult.records st in
  let next := position + DecodedFrame.encoded_len frame in
  let record := DecodedFrame.record frame in
  if decide (file_len < next) then
    Err (CommitBoundaryMismatch "commit boundary splits a record frame")
  else if decide (ival (AnyHeader.max_segment_bytes header) < Z.of_nat (next - header_len))%Z then
    Err (Corrupt position ("segment exceeds configured byte limit "
      +:+ int_display (AnyHeader.max_segment_bytes header)))
  else if decide (ival (AnyHeader.max_segment_records header) <= Z.of_nat records)%Z then
    Err (Corrupt position ("segment exceeds configured record limit "
      +:+ int_display (AnyHeader.max_segment_records header)))
  else if decide (DecodedFrame.relative_offset frame ≠ nat_u64 records) then
    Err (Corrupt position ("record carries relative offset "
      +:+ int_display (DecodedFrame.relative_offset frame) +:+ ", expected " +:+ nat_display records))
  else
    let content_hash := record_content_hash record in
    match validate_sequence (ScanResult.producer_states st) (ScanResult.producer_epochs st) record content_hash with
    | Err error => Err (Corrupt position (sequence_error_display error))
    | Ok (Duplicate _) => Err (Corrupt position "segment contains a duplicate producer sequence")
    | Ok Append =>
        let index :=
          if is_multiple_of (Z.of_nat records) (AnyHeader.index_stride header)
          then ScanResult.index st ++ [IndexEntry.mk (ScanResult.next_offset st) position]
          else ScanResult.index st in
        let '(states, epochs) :=
          remember_sequence (ScanResult.producer_states st) (ScanResult.producer_epochs st)
            record (ScanResult.next_offset st) content_hash in
        let accumulator :=
          ContentAccumulator.update (DecodedFrame.encoded frame) (ScanResult.accumulator st) in
        next_offset ← ok_or (Corrupt next "segment offset space exhausted")
                        (checked_succ (ScanResult.next_offset st));
        Ok (ScanResult.mk (S records) next (ScanResult.truncated_bytes st) next_offset
              states epochs index accumulator)
    end.

Fixpoint scan_loop (fuel : nat) (f : SimFile.t) (path : PathBuf) (header : AnyHeader.t)
    (header_len file_len : nat) (permit_torn_tail : bool) (st : ScanResult.t)
    : SimE SegmentError (ScanResult.t * SimFile.t) :=
  let position := ScanResult.valid_end st in
  match fuel with
  | 0 => sim_fail (Corrupt position "")
  | S fuel =>
      if decide (position = file_len) then mret (st, f)
      else if decide (file_len < position) then
        sim_fail (CommitBoundaryMismatch "commit boundary splits a record frame")
      else
        '(read, f) ← map_err (with_path path)
          (read_frame_any (AnyHeader.format_version header) f position (AnyHeader.max_record_bytes header));
        match read with
        | End => mret (st, f)
        | Torn =>
            if permit_torn_tail then mret (st, f)
            else sim_fail (Corrupt position "sealed segment ends with an incomplete record")
        | Complete frame =>
            st ← sim_lift (scan_frame header header_len file_len frame st);
            scan_loop fuel f path header header_len file_len permit_torn_tail st
        end
  end.

Definition scan_records (f : SimFile.t) (path : PathBuf) (header : AnyHeader.t) (header_len : nat)
    (logical_end : option nat) (permit_torn_tail : bool) (inherited : ProducerSnapshot.t)
    : SimE SegmentError (ScanResult.t * SimFile.t) :=
  '(_, f) ← map_err (io_error path) (file_seek f (SeekStart header_len));
  actual_file_len ← map_err (io_error path) (file_len f);
  let file_len := default actual_file_len logical_end in
  if decide (file_len < header_len ∨ actual_file_len < file_len) then
    sim_fail (CommitBoundaryMismatch ("logical file end " +:+ nat_display file_len
      +:+ " is outside " +:+ nat_display header_len +:+ "..=" +:+ nat_display actual_file_len))
  else
    accumulator ← sim_panic (Ok <$> ContentAccumulator.for_header header);
    '(st, f) ← scan_loop (S (file_len - header_len)) f path header header_len file_len permit_torn_tail
      (ScanResult.mk 0 header_len 0 (AnyHeader.base_offset header) (inherited_states inherited)
        (ProducerSnapshot.epochs inherited) [] accumulator);
    mret (ScanResult.mk (ScanResult.records st) (ScanResult.valid_end st)
            (actual_file_len - ScanResult.valid_end st) (ScanResult.next_offset st)
            (ScanResult.producer_states st) (ScanResult.producer_epochs st)
            (ScanResult.index st) (ScanResult.accumulator st), f).

(** ** Finding an offset *)

(** The last index entry at or below an offset, or the start of the segment. *)
Definition index_entry (header : AnyHeader.t) (header_len : nat) (index : list IndexEntry.t)
    (target : u64) : IndexEntry.t :=
  default (IndexEntry.mk (AnyHeader.base_offset header) header_len)
    (snd <$> list_find (λ entry, ival (IndexEntry.offset entry) <= ival target)%Z (reverse index)).

Definition wrapping_sub (a b : u64) : u64 := wrap_int U64 (a - b).

Fixpoint position_loop (fuel : nat) (f : SimFile.t) (path : PathBuf) (header : AnyHeader.t)
    (target offset : u64) (position : nat) : SimE SegmentError (nat * SimFile.t) :=
  match fuel with
  | 0 => mret (position, f)
  | S fuel =>
      if decide (ival target <= ival offset)%Z then mret (position, f)
      else
        '(read, f) ← map_err (with_path path)
          (read_frame_any (AnyHeader.format_version header) f position (AnyHeader.max_record_bytes header));
        match read with
        | End | Torn =>
            sim_fail (Corrupt position ("log ends at offset " +:+ int_display offset
              +:+ " while locating truncation target " +:+ int_display target))
        | Complete frame =>
            let expected_relative := wrapping_sub offset (AnyHeader.base_offset header) in
            if decide (DecodedFrame.relative_offset frame ≠ expected_relative) then
              sim_fail (Corrupt position ("record carries relative offset "
                +:+ int_display (DecodedFrame.relative_offset frame) +:+ ", expected "
                +:+ int_display expected_relative))
            else
              position_loop fuel f path header target (wrapping_succ offset)
                (position + DecodedFrame.encoded_len frame)
        end
  end.

(** As many turns as offsets between the entry and the target. *)
Definition position_of_offset (f : SimFile.t) (path : PathBuf) (header : AnyHeader.t)
    (header_len : nat) (index : list IndexEntry.t) (target : u64)
    : SimE SegmentError (nat * SimFile.t) :=
  if decide (ival target <= ival (AnyHeader.base_offset header))%Z then mret (header_len, f)
  else
    let entry := index_entry header header_len index target in
    '(_, f) ← map_err (io_error path) (file_seek f (SeekStart (IndexEntry.position entry)));
    position_loop (Z.to_nat (target - IndexEntry.offset entry)) f path header target
      (IndexEntry.offset entry) (IndexEntry.position entry).

(** ** Reading below a watermark *)

Fixpoint fetch_loop (fuel : nat) (f : SimFile.t) (path : PathBuf) (header : AnyHeader.t)
    (high_watermark requested : u64) (max_bytes max_records : nat) (offset : u64) (position : nat)
    (records : list (u64 * LogRecord.t)) (encoded_bytes : nat)
    : SimE SegmentError (list (u64 * LogRecord.t) * nat * u64 * SimFile.t) :=
  match fuel with
  | 0 => mret (records, encoded_bytes, offset, f)
  | S fuel =>
      if decide ((ival offset < ival high_watermark)%Z ∧ length records < max_records) then
        '(read, f) ← map_err (with_path path)
          (read_frame_any (AnyHeader.format_version header) f position (AnyHeader.max_record_bytes header));
        match read with
        | End | Torn => sim_fail (Corrupt position "record disappeared below the high watermark")
        | Complete frame =>
            let position := position + DecodedFrame.encoded_len frame in
            let expected_relative := wrapping_sub offset (AnyHeader.base_offset header) in
            if decide (DecodedFrame.relative_offset frame ≠ expected_relative) then
              sim_fail (Corrupt position ("record carries relative offset "
                +:+ int_display (DecodedFrame.relative_offset frame) +:+ ", expected "
                +:+ int_display expected_relative))
            else if decide (ival offset < ival requested)%Z then
              fetch_loop fuel f path header high_watermark requested max_bytes max_records
                (wrapping_succ offset) position records encoded_bytes
            else if decide (max_bytes < encoded_bytes + DecodedFrame.encoded_len frame) then
              mret (records, encoded_bytes, offset, f)
            else
              fetch_loop fuel f path header high_watermark requested max_bytes max_records
                (wrapping_succ offset) position (records ++ [(offset, DecodedFrame.record frame)])
                (encoded_bytes + DecodedFrame.encoded_len frame)
        end
      else mret (records, encoded_bytes, offset, f)
  end.

(** As many turns as offsets between the entry and the watermark. *)
Definition fetch_from_file (f : SimFile.t) (path : PathBuf) (header : AnyHeader.t) (header_len : nat)
    (index : list IndexEntry.t) (high_watermark start_offset : u64) (max_bytes max_records : nat)
    : SimE SegmentError (FetchBatch.t * SimFile.t) :=
  let base := AnyHeader.base_offset header in
  if decide (max_bytes = 0 ∨ max_records = 0 ∨ (ival high_watermark <= ival start_offset)%Z) then
    mret (FetchBatch.mk [] 0 (u64_min (u64_max start_offset base) high_watermark) high_watermark, f)
  else
    let requested := u64_max start_offset base in
    let entry := index_entry header header_len index requested in
    '(_, f) ← map_err (io_error path) (file_seek f (SeekStart (IndexEntry.position entry)));
    '(records, encoded_bytes, offset, f) ←
      fetch_loop (Z.to_nat (high_watermark - IndexEntry.offset entry)) f path header high_watermark
        requested max_bytes max_records (IndexEntry.offset entry) (IndexEntry.position entry) [] 0;
    '(_, f) ← map_err (io_error path) (file_seek f (SeekEnd 0));
    mret (FetchBatch.mk records encoded_bytes offset high_watermark, f).
End scan.
