(* ===== verification/Manifest.v ===== *)
(** The metadata of a sealed segment (crates/vtop-log/src/types.rs and segment.rs): the
    manifests of both format versions, the commit statement and its authentication, the
    checks of a manifest against what a scan of the segment found, and the encodings of the
    two sidecars that can be rebuilt, the chunk hashes and the sparse index.

    Parameters: serde_json at the manifest and statement types ([ManifestJson]) and its
    [Value] ([JsonValue]); the hexadecimal text of a BLAKE3 hash and the keyed hash
    ([Blake3Text]). *)

From stdpp Require Import prelude strings list gmap pretty.
From Stdlib Require Import ZArith Lia.
From S2P Require Import Prelude Wire Lineage Flow Storage ChunkTree LogTypes RecordCodec ProducerState ProducerSnapshot.
From S2P Require Import SegmentFiles SegmentScan.
#[local] Open Scope nat_scope.

(** [Hash::to_hex], [Hash::from_hex] and [keyed_hash] of the blake3 crate. *)
Class Blake3Text := {
  to_hex : bytes32 → string;
  from_hex : string → option bytes32;
  keyed_hash : bytes32 → list u8 → bytes32;
}.
Class Blake3TextLaws `{!Blake3Text} : Prop := { hex_roundtrip h : from_hex (to_hex h) = Some h }.

(** [serde_json::Value] *)
Class JsonValue := json_value : Type.

(** ** Manifests *)

Definition RECORD_SCHEMA_VERSION_V2 : u16 := wrap_int U16 2.
Definition CHUNK_TREE_SCHEME_V1 : string := "vtop-b3tree-v1".
Definition COMMIT_SCHEME_KEYED : string := "blake3-keyed".
Definition COMMIT_SCHEME_UNKEYED : string := "unkeyed-digest".
Definition COMMIT_STATEMENT_DOMAIN : list u8 := as_bytes "vtop-segment-v2 commit-statement v1" ++ [zero].

Module SegmentManifest.
Record t := mk {
  format : string;
  version : u16;
  descriptor : SegmentDescriptor.t;
  record_count : u64;
  first_offset : option u64;
  next_offset : u64;
  content_bytes : u64;
  blake3_root : string;
  index_stride : u32
}.
#[global] Instance t_eq_dec : EqDecision t.
Proof. solve_decision. Defined.
End SegmentManifest.

Module ProducerSummaryEntry.
Record t := mk {
  producer_id : Uuid;
  producer_epoch : u64;
  first_sequence : u64;
  last_sequence : u64;
  record_count : u64
}.
#[global] Instance t_eq_dec : EqDecision t.
Proof. solve_decision. Defined.
End ProducerSummaryEntry.

Module SegmentEvidence.
Record t {value : JsonValue} := mk { replicas : list json_value; tiers : list json_value }.
Definition default {value : JsonValue} : t := mk _ [] [].
End SegmentEvidence.

Module CommitStatementV1.
Record t := mk {
  statement_version : u32;
  scheme : string;
  key_id : string;
  segment_id : Uuid;
  segment_generation : u64;
  topic : string;
  topic_epoch : u64;
  range_id : Uuid;
  range_generation : u64;
  base_offset : u64;
  committed_high_watermark : u64;
  content_bytes : u64;
  chunk_tree_root : string;
  manifest_core_digest : string;
  mac : string
}.
Definition set_scheme (x : string) (s : t) : t :=
  mk (statement_version s) x (key_id s) (segment_id s) (segment_generation s) (topic s) (topic_epoch s)
    (range_id s) (range_generation s) (base_offset s) (committed_high_watermark s) (content_bytes s)
    (chunk_tree_root s) (manifest_core_digest s) (mac s).
Definition set_mac (x : string) (s : t) : t :=
  mk (statement_version s) (scheme s) (key_id s) (segment_id s) (segment_generation s) (topic s) (topic_epoch s)
    (range_id s) (range_generation s) (base_offset s) (committed_high_watermark s) (content_bytes s)
    (chunk_tree_root s) (manifest_core_digest s) x.
End CommitStatementV1.

Module SegmentManifestV2.
Record t {value : JsonValue} := mk {
  format : string;
  version : u16;
  record_schema_version : u16;
  descriptor : SegmentDescriptorV2.t;
  record_count : u64;
  first_offset : option u64;
  next_offset : u64;
  content_bytes : u64;
  committed_high_watermark : u64;
  producer_summary : list ProducerSummaryEntry.t;
  chunk_size : u32;
  chunk_count : u64;
  chunk_tree_scheme : string;
  chunk_tree_root : string;
  index_stride : u32;
  sealing_node_id : Uuid;
  sealing_fencing_epoch : u64;
  evidence : SegmentEvidence.t;
  commit_statement : option CommitStatementV1.t
}.
Arguments mk {value} _ _ _ _ _ _ _ _ _ _ _ _ _ _ _ _ _ _ _ : assert.
Definition set_commit_statement {value : JsonValue} (x : option CommitStatementV1.t) (m : t) : t :=
  mk (format m) (version m) (record_schema_version m) (descriptor m) (record_count m) (first_offset m)
    (next_offset m) (content_bytes m) (committed_high_watermark m) (producer_summary m) (chunk_size m)
    (chunk_count m) (chunk_tree_scheme m) (chunk_tree_root m) (index_stride m) (sealing_node_id m)
    (sealing_fencing_epoch m) (evidence m) x.
End SegmentManifestV2.

(** [serde_json::to_vec] and [serde_json::from_slice]; an error is its text. *)
Class ManifestJson {value : JsonValue} := {
  manifest_to_vec : SegmentManifest.t → result string (list u8);
  manifest_from_slice : list u8 → result string SegmentManifest.t;
  manifest_v2_to_vec : SegmentManifestV2.t → result string (list u8);
  manifest_v2_from_slice : list u8 → result string SegmentManifestV2.t;
  statement_to_vec : CommitStatementV1.t → result string (list u8);
}.

Definition newline : u8 := wrap_int U8 10.

(** Deserializing inverts serializing, with white space after the text.  What JSON values
    survive the round trip is not assumed: the manifests sealing writes have no evidence. *)
Class ManifestJsonLaws {value : JsonValue} `{!ManifestJson} : Prop := {
  manifest_json m text : manifest_to_vec m = Ok text → manifest_from_slice (text ++ [newline]) = Ok m;
  manifest_v2_json m text :
    SegmentManifestV2.evidence m = SegmentEvidence.default → manifest_v2_to_vec m = Ok text →
    manifest_v2_from_slice (text ++ [newline]) = Ok m;
}.

(** ** Commit statements *)

(** [hex_nibble] *)
Definition hex_nibble (byte : u8) : option Z :=
  let b := ival byte in
  if decide (48 <= b <= 57)%Z then Some (b - 48)%Z
  else if decide (97 <= b <= 102)%Z then Some (b - 97 + 10)%Z
  else if decide (65 <= b <= 70)%Z then Some (b - 65 + 10)%Z
  else None.

(** The loop of [decode_hex_32], pair by pair. *)
Fixpoint decode_hex_pairs (raw : list u8) : option (list u8) :=
  match raw with
  | high :: low :: rest =>
      high ← hex_nibble high;
      low ← hex_nibble low;
      bytes ← decode_hex_pairs rest;
      Some (wrap_int U8 (Z.lor (Z.shiftl high 4) low) :: bytes)
  | _ => Some []
  end.
Definition decode_hex_32 (value : string) : option bytes32 :=
  let raw := as_bytes value in
  if decide (length raw ≠ 64) then None else from_be_bytes U256 <$> decode_hex_pairs raw.

Definition SegmentCommitKey : Type := bytes32.

Definition commit_key_from_hex (value : string) : log_result SegmentCommitKey :=
  ok_or (InvalidConfig "segment commit key must be exactly 32 bytes (64 hex characters)") (decode_hex_32 value).

Section statements.
Context {hash : Blake3Hash} {text : Blake3Text} {fmt : Fmt} {value : JsonValue} {json : ManifestJson}.

Definition auth_bytes (self : CommitStatementV1.t) : log_result (list u8) :=
  match statement_to_vec (CommitStatementV1.set_mac EmptyString self) with
  | Ok bytes => Ok (COMMIT_STATEMENT_DOMAIN ++ bytes)
  | Err error => Err (invalid_descriptor ("cannot encode commit statement: " +:+ error))
  end.

Definition compute_mac (self : CommitStatementV1.t) (key : option SegmentCommitKey) : log_result bytes32 :=
  message ← auth_bytes self;
  Ok (match key with Some key => keyed_hash key message | None => blake3_hash message end).

Definition scheme_for (key : option SegmentCommitKey) : string :=
  match key with Some _ => COMMIT_SCHEME_KEYED | None => COMMIT_SCHEME_UNKEYED end.

Definition authenticate (self : CommitStatementV1.t) (key : option SegmentCommitKey)
    : log_result CommitStatementV1.t :=
  let self := CommitStatementV1.set_scheme (scheme_for key) self in
  mac ← compute_mac self key;
  Ok (CommitStatementV1.set_mac (to_hex mac) self).

Definition verify_statement (self : CommitStatementV1.t) (key : option SegmentCommitKey) : log_result unit :=
  let expected_scheme := scheme_for key in
  if decide (CommitStatementV1.scheme self ≠ expected_scheme) then
    Err (ManifestMismatch ("commit statement scheme " +:+ str_debug (CommitStatementV1.scheme self)
      +:+ " does not match the configured key (expected " +:+ str_debug expected_scheme +:+ ")"))
  else
    stored ← ok_or (ManifestMismatch "commit statement MAC is not 32 hex-encoded bytes")
               (from_hex (CommitStatementV1.mac self));
    mac ← compute_mac self key;
    if decide (mac ≠ stored) then Err (ManifestMismatch "commit statement MAC verification failed") else Ok tt.

(** ** Canonical bytes *)

Definition canonical_bytes (json : result string (list u8)) : log_result (list u8) :=
  match json with
  | Ok bytes => Ok (bytes ++ [newline])
  | Err error => Err (ManifestMismatch ("cannot encode manifest: " +:+ error))
  end.
Definition canonical_manifest_bytes (manifest : SegmentManifest.t) : log_result (list u8) :=
  canonical_bytes (manifest_to_vec manifest).
Definition canonical_manifest_v2_bytes (manifest : SegmentManifestV2.t) : log_result (list u8) :=
  canonical_bytes (manifest_v2_to_vec manifest).

(** The statement a manifest without one implies; [scheme] and [mac] are still blank. *)
Definition commit_statement_core (manifest : SegmentManifestV2.t) : log_result CommitStatementV1.t :=
  core_bytes ← canonical_manifest_v2_bytes manifest;
  let d := SegmentManifestV2.descriptor manifest in
  Ok (CommitStatementV1.mk (wrap_int U32 1) EmptyString EmptyString (SegmentDescriptorV2.segment_id d)
        (SegmentDescriptorV2.segment_generation d) (SegmentDescriptorV2.topic d)
        (SegmentDescriptorV2.topic_epoch d) (RangeLineage.range_id (SegmentDescriptorV2.lineage d))
        (RangeLineage.generation (SegmentDescriptorV2.lineage d)) (SegmentDescriptorV2.base_offset d)
        (SegmentManifestV2.committed_high_watermark manifest) (SegmentManifestV2.content_bytes manifest)
        (SegmentManifestV2.chunk_tree_root manifest) (to_hex (blake3_hash core_bytes)) EmptyString).

(** What a producer wrote, sorted by producer and epoch. *)
Definition producer_summary_from_states (states : producer_states) : list ProducerSummaryEntry.t :=
  (λ entry : ProducerKey * ProducerState.t,
     ProducerSummaryEntry.mk entry.1.1 entry.1.2 (ProducerState.first_sequence entry.2)
       (ProducerState.latest_sequence entry.2) (ProducerState.record_count entry.2))
  <$> producers_iter states.

(** ** Checking a manifest against the segment *)

(** [(count > 0).then_some(base_offset)] *)
Definition first_of (count : nat) (base_offset : u64) : option u64 :=
  if decide (0 < count) then Some base_offset else None.

Definition validate_manifest (manifest : SegmentManifest.t) (header : SegmentHeader.t) (scan : ScanResult.t)
    (header_len : nat) : log_result unit :=
  match ScanResult.accumulator scan with
  | ContentAccumulator.V2 _ => Err (ManifestMismatch "v1 manifest paired with a non-v1 content accumulator")
  | ContentAccumulator.V1 hasher =>
      let root := to_hex (blake3_hash hasher) in
      let descriptor := SegmentHeader.descriptor header in
      let expected_first := first_of (ScanResult.records scan) (SegmentDescriptor.base_offset descriptor) in
      let content_bytes := ScanResult.valid_end scan - header_len in
      if decide (SegmentManifest.format manifest ≠ FORMAT_NAME
         ∨ SegmentManifest.version manifest ≠ FORMAT_VERSION
         ∨ SegmentManifest.descriptor manifest ≠ descriptor
         ∨ SegmentManifest.record_count manifest ≠ nat_u64 (ScanResult.records scan)
         ∨ SegmentManifest.first_offset manifest ≠ expected_first
         ∨ SegmentManifest.next_offset manifest ≠ ScanResult.next_offset scan
         ∨ SegmentManifest.content_bytes manifest ≠ nat_u64 content_bytes
         ∨ SegmentManifest.blake3_root manifest ≠ root
         ∨ SegmentManifest.index_stride manifest ≠ SegmentConfig.index_stride (SegmentHeader.config header))
      then Err (ManifestMismatch "descriptor, offsets, length, index stride, or BLAKE3 root differs")
      else Ok tt
  end.

(** The statement restates the manifest, in every field but its authentication. *)
Definition restates (statement expected : CommitStatementV1.t) : Prop :=
  CommitStatementV1.statement_version statement = CommitStatementV1.statement_version expected ∧
  CommitStatementV1.segment_id statement = CommitStatementV1.segment_id expected ∧
  CommitStatementV1.segment_generation statement = CommitStatementV1.segment_generation expected ∧
  CommitStatementV1.topic statement = CommitStatementV1.topic expected ∧
  CommitStatementV1.topic_epoch statement = CommitStatementV1.topic_epoch expected ∧
  CommitStatementV1.range_id statement = CommitStatementV1.range_id expected ∧
  CommitStatementV1.range_generation statement = CommitStatementV1.range_generation expected ∧
  CommitStatementV1.base_offset statement = CommitStatementV1.base_offset expected ∧
  CommitStatementV1.committed_high_watermark statement = CommitStatementV1.committed_high_watermark expected ∧
  CommitStatementV1.content_bytes statement = CommitStatementV1.content_bytes expected ∧
  CommitStatementV1.chunk_tree_root statement = CommitStatementV1.chunk_tree_root expected ∧
  CommitStatementV1.manifest_core_digest statement = CommitStatementV1.manifest_core_digest expected.
#[global] Instance restates_dec statement expected : Decision (restates statement expected).
Proof. unfold restates. apply _. Defined.

Definition validate_statement (manifest : SegmentManifestV2.t) : log_result unit :=
  match SegmentManifestV2.commit_statement manifest with
  | None => Ok tt
  | Some statement =>
      expected ← commit_statement_core (SegmentManifestV2.set_commit_statement None manifest);
      if decide (¬ restates statement expected) then
        Err (ManifestMismatch "commit statement does not restate the sealed manifest core")
      else if decide (CommitStatementV1.scheme statement = COMMIT_SCHEME_UNKEYED) then
        verify_statement statement None
      else if decide (CommitStatementV1.scheme statement ≠ COMMIT_SCHEME_KEYED) then
        Err (ManifestMismatch ("unknown commit statement scheme " +:+ str_debug (CommitStatementV1.scheme statement)))
      else Ok tt
  end.

Definition validate_manifest_v2 (manifest : SegmentManifestV2.t) (header : SegmentHeaderV2.t)
    (scan : ScanResult.t) (header_len : nat) (leaves : list bytes32) (root : bytes32) : log_result unit :=
  let descriptor := SegmentHeaderV2.descriptor header in
  let expected_first := first_of (ScanResult.records scan) (SegmentDescriptorV2.base_offset descriptor) in
  let content_bytes := ScanResult.valid_end scan - header_len in
  if decide (SegmentManifestV2.format manifest ≠ FORMAT_NAME
     ∨ SegmentManifestV2.version manifest ≠ FORMAT_VERSION_V2
     ∨ SegmentManifestV2.record_schema_version manifest ≠ RECORD_SCHEMA_VERSION_V2
     ∨ SegmentManifestV2.descriptor manifest ≠ descriptor
     ∨ SegmentManifestV2.record_count manifest ≠ nat_u64 (ScanResult.records scan)
     ∨ SegmentManifestV2.first_offset manifest ≠ expected_first
     ∨ SegmentManifestV2.next_offset manifest ≠ ScanResult.next_offset scan
     ∨ SegmentManifestV2.content_bytes manifest ≠ nat_u64 content_bytes
     ∨ SegmentManifestV2.committed_high_watermark manifest ≠ ScanResult.next_offset scan
     ∨ SegmentManifestV2.producer_summary manifest ≠ producer_summary_from_states (ScanResult.producer_states scan)
     ∨ SegmentManifestV2.chunk_size manifest ≠ SegmentConfigV2.chunk_size (SegmentHeaderV2.config header)
     ∨ SegmentManifestV2.chunk_count manifest ≠ nat_u64 (length leaves)
     ∨ SegmentManifestV2.chunk_tree_scheme manifest ≠ CHUNK_TREE_SCHEME_V1
     ∨ SegmentManifestV2.chunk_tree_root manifest ≠ to_hex root
     ∨ SegmentManifestV2.index_stride manifest ≠ SegmentConfigV2.index_stride (SegmentHeaderV2.config header))
  then Err (ManifestMismatch
    "descriptor, offsets, length, producer summary, index stride, or chunk tree differs")
  else validate_statement manifest.
End statements.

(** ** Sidecars that can be rebuilt *)

Definition CHUNK_SIDECAR_MAGIC : list u8 := as_bytes "VTOPCHK1".
Definition CHUNK_SIDECAR_VERSION : u16 := wrap_int U16 1.
Definition CHUNK_SIDECAR_FIXED_LEN : nat := 8 + 2 + 4 + 8 + 32.
Definition INDEX_MAGIC : list u8 := as_bytes "VTOPIDX1".

(** [slice::as_chunks], without the remainder. *)
Fixpoint as_chunks (count size : nat) (bytes : list u8) : list (list u8) :=
  match count with
  | 0 => []
  | S count => take size bytes :: as_chunks count size (drop size bytes)
  end.

Section sidecars.
Context {hash : Blake3Hash} {fmt : Fmt}.

Definition encode_chunk_sidecar (chunk_size : u32) (leaves : list bytes32) : list u8 :=
  seal_frame (CHUNK_SIDECAR_MAGIC ++ to_be_bytes CHUNK_SIDECAR_VERSION ++ to_be_bytes chunk_size
    ++ to_be_bytes (nat_u64 (length leaves)) ++ concat (to_be_bytes <$> leaves)).

Definition write_chunk_sidecar_atomic (nonce : Uuid) (path : PathBuf) (chunk_size : u32) (leaves : list bytes32)
    : SimE SegmentError unit :=
  write_atomic nonce path (encode_chunk_sidecar chunk_size leaves).

Definition decode_chunk_sidecar (bytes : list u8) : log_result (u32 * list bytes32) :=
  if decide (length bytes < CHUNK_SIDECAR_FIXED_LEN ∨ take 8 bytes ≠ CHUNK_SIDECAR_MAGIC) then
    Err (Corrupt 0 "invalid chunk-sidecar header")
  else
    let version := from_be_bytes U16 (take 2 (drop 8 bytes)) in
    if decide (version ≠ CHUNK_SIDECAR_VERSION) then Err (UnsupportedVersion version)
    else
      let chunk_size := from_be_bytes U32 (take 4 (drop 10 bytes)) in
      let chunk_count := from_be_bytes U64 (take 8 (drop 14 bytes)) in
      let expected := (chunk_count * 32 + Z.of_nat CHUNK_SIDECAR_FIXED_LEN)%Z in
      if decide (u64_end <= expected)%Z then Err (Corrupt 14 "chunk-sidecar leaf count overflows")
      else if decide (Z.of_nat (length bytes) ≠ expected) then
        Err (Corrupt 14 "chunk-sidecar length does not match its leaf count")
      else
        let checksum_start := length bytes - 32 in
        if decide (to_be_bytes (blake3_hash (take checksum_start bytes)) ≠ drop checksum_start bytes) then
          Err (Corrupt 0 "chunk-sidecar checksum mismatch")
        else
          let body := drop 22 (take checksum_start bytes) in
          Ok (chunk_size, from_be_bytes U256 <$> as_chunks (length body / 32) 32 body).

Definition read_chunk_sidecar (path : PathBuf) : SimE SegmentError (u32 * list bytes32) :=
  bytes ← map_err (io_error path) (SimStorage.read path);
  sim_lift (decode_chunk_sidecar bytes).

Definition encode_index_entry (entry : IndexEntry.t) : list u8 :=
  to_be_bytes (IndexEntry.offset entry) ++ to_be_bytes (nat_u64 (IndexEntry.position entry)).
Definition encode_index (entries : list IndexEntry.t) : list u8 :=
  INDEX_MAGIC ++ to_be_bytes (nat_u64 (length entries)) ++ concat (encode_index_entry <$> entries).

Definition write_index_atomic (nonce : Uuid) (path : PathBuf) (entries : list IndexEntry.t)
    : SimE SegmentError unit :=
  write_atomic nonce path (encode_index entries).

Definition decode_index_entry (chunk : list u8) : IndexEntry.t :=
  IndexEntry.mk (from_be_bytes U64 (take 8 chunk)) (Z.to_nat (ival (from_be_bytes U64 (drop 8 chunk)))).

Definition decode_index (bytes : list u8) : log_result (list IndexEntry.t) :=
  if decide (length bytes < 16 ∨ take 8 bytes ≠ INDEX_MAGIC) then Err (Corrupt 0 "invalid sparse-index header")
  else
    let count := from_be_bytes U64 (take 8 (drop 8 bytes)) in
    let expected := (count * 16 + 16)%Z in
    if decide (u64_end <= expected)%Z then Err (Corrupt 8 "sparse-index entry count overflows")
    else if decide (Z.of_nat (length bytes) ≠ expected) then
      Err (Corrupt 8 "sparse-index length does not match its entry count")
    else
      let body := drop 16 bytes in
      Ok (decode_index_entry <$> as_chunks (length body / 16) 16 body).

Definition read_index (path : PathBuf) : SimE SegmentError (list IndexEntry.t) :=
  bytes ← map_err (io_error path) (SimStorage.read path);
  sim_lift (decode_index bytes).
End sidecars.
