(* ===== verification/ActiveSegment.v ===== *)
(** The active segment of a range (crates/vtop-log/src/segment.rs, [ActiveSegment]): the one
    file records are appended to, the commit boundary beside it that recovery trusts, and
    the operations that create, recover, append, commit, truncate, fetch and prepare for
    sealing.

    A method runs in the monad [Seg] over the segment and the disk; an error keeps the
    changes made before it, as [&mut self] does.  The position of the handle after a failed
    read or write is not tracked: every operation first seeks to an absolute position. *)

From stdpp Require Import prelude strings list gmap pretty.
From Stdlib Require Import ZArith Lia.
From S2P Require Import Prelude Wire Placement Flow Storage ChunkTree LogTypes RecordCodec.
From S2P Require Import ProducerState ProducerSnapshot SegmentFiles SegmentScan.
#[local] Open Scope nat_scope.

Module ActiveSegment.
Record t := mk {
  path : PathBuf;
  file : SimFile.t;
  header : AnyHeader.t;
  header_len : nat;
  next_offset : u64;
  committed_offset : u64;
  record_count : nat;
  content_bytes : nat;
  producer_states : producer_states;
  producer_epochs : producer_epochs;
  index : list IndexEntry.t;
  accumulator : ContentAccumulator.t;
  poisoned : bool;
  sealed : bool;
  recovery : RecoveryReport.t;
  inherited : ProducerSnapshot.t
}.

Definition set_file (x : SimFile.t) (s : t) : t :=
  mk (path s) x (header s) (header_len s) (next_offset s) (committed_offset s) (record_count s)
    (content_bytes s) (producer_states s) (producer_epochs s) (index s) (accumulator s)
    (poisoned s) (sealed s) (recovery s) (inherited s).
Definition set_committed_offset (x : u64) (s : t) : t :=
  mk (path s) (file s) (header s) (header_len s) (next_offset s) x (record_count s)
    (content_bytes s) (producer_states s) (producer_epochs s) (index s) (accumulator s)
    (poisoned s) (sealed s) (recovery s) (inherited s).
Definition set_index (x : list IndexEntry.t) (s : t) : t :=
  mk (path s) (file s) (header s) (header_len s) (next_offset s) (committed_offset s) (record_count s)
    (content_bytes s) (producer_states s) (producer_epochs s) x (accumulator s)
    (poisoned s) (sealed s) (recovery s) (inherited s).
Definition set_poisoned (x : bool) (s : t) : t :=
  mk (path s) (file s) (header s) (header_len s) (next_offset s) (committed_offset s) (record_count s)
    (content_bytes s) (producer_states s) (producer_epochs s) (index s) (accumulator s)
    x (sealed s) (recovery s) (inherited s).
Definition set_sealed (x : bool) (s : t) : t :=
  mk (path s) (file s) (header s) (header_len s) (next_offset s) (committed_offset s) (record_count s)
    (content_bytes s) (producer_states s) (producer_epochs s) (index s) (accumulator s)
    (poisoned s) x (recovery s) (inherited s).
Definition set_accumulator (x : ContentAccumulator.t) (s : t) : t :=
  mk (path s) (file s) (header s) (header_len s) (next_offset s) (committed_offset s) (record_count s)
    (content_bytes s) (producer_states s) (producer_epochs s) (index s) x
    (poisoned s) (sealed s) (recovery s) (inherited s).
(** The state derived from the records, all of it at once. *)
Definition set_derived (next : u64) (records bytes : nat) (states : ProducerState.producer_states)
    (epochs : ProducerState.producer_epochs) (idx : list IndexEntry.t) (acc : ContentAccumulator.t) (s : t) : t :=
  mk (path s) (file s) (header s) (header_len s) next (committed_offset s) records
    bytes states epochs idx acc (poisoned s) (sealed s) (recovery s) (inherited s).
End ActiveSegment.

(** ** Methods *)

Definition SegState : Type := ActiveSegment.t * SimState.t.
Definition Seg (A : Type) : Type := SegState → option (SegState * log_result A).

#[global] Instance seg_ret : MRet Seg := λ _ a st, Some (st, Ok a).
#[global] Instance seg_bind : MBind Seg := λ _ _ f c st,
  match c st with
  | Some (st', Ok a) => f a st'
  | Some (st', Err e) => Some (st', Err e)
  | None => None
  end.

Definition seg_fail {A} (e : SegmentError) : Seg A := λ st, Some (st, Err e).
Definition seg_lift {A} (r : log_result A) : Seg A := λ st, Some (st, r).
Definition seg_get : Seg ActiveSegment.t := λ st, Some (st, Ok st.1).
Definition seg_modify (f : ActiveSegment.t → ActiveSegment.t) : Seg unit := λ st,
  Some ((f st.1, st.2), Ok tt).
(** A call on the storage. *)
Definition seg_io {A} (c : SimE SegmentError A) : Seg A := λ st,
  '(s, r) ← c st.2; Some ((st.1, s), r).
(** A call on the segment's file handle. *)
Definition on_file {A} (c : SimFile.t → SimE SegmentError (A * SimFile.t)) : Seg A := λ st,
  '(s, r) ← c (ActiveSegment.file st.1) st.2;
  match r with
  | Ok (a, f) => Some ((ActiveSegment.set_file f st.1, s), Ok a)
  | Err e => Some ((st.1, s), Err e)
  end.
(** [if let Err(e) = c { self.poisoned = true; return Err(e); }] *)
Definition or_poison {A} (c : Seg A) : Seg A := λ st,
  '(st', r) ← c st;
  match r with
  | Ok a => Some (st', Ok a)
  | Err e => Some ((ActiveSegment.set_poisoned true st'.1, st'.2), Err e)
  end.

(** A call that returns nothing but moves the handle. *)
Definition moving (c : SimE SegmentError SimFile.t) : SimE SegmentError (unit * SimFile.t) :=
  f ← c; mret (tt, f).

(** What the validation of a group accumulates. *)
Module GroupPlan.
Record t := mk {
  deltas : producer_deltas;
  epoch_deltas : producer_epochs;
  prospective_next : u64;
  outcomes : list AppendOutcome;
  pending : list (u64 * list u8);
  group_bytes : nat
}.
Definition start (next_offset : u64) : t := mk ∅ ∅ next_offset [] [] 0.
End GroupPlan.

Section active.
Context {hash : Blake3Hash} {tree : Blake3} {fmt : Fmt} {json : HeaderJson}.

(** ** Creating *)

Definition create_with_header (nonce : Uuid) (path : PathBuf) (header : AnyHeader.t)
    (encoded_header : list u8) : SimE SegmentError ActiveSegment.t :=
  paths ← sim_lift (SegmentPaths.from_active path);
  file ← map_err (io_error path) (SimStorage.open path CreateNew);
  file ← map_err (io_error path) (file ← write_all file encoded_header; file_sync_data file;; mret file);
  sync_parent path;;
  let base_offset := AnyHeader.base_offset header in
  write_commit_boundary_atomic nonce (SegmentPaths.commit paths)
    (mkBoundary (AnyHeader.segment_id header) base_offset zero);;
  accumulator ← sim_panic (Ok <$> ContentAccumulator.for_header header);
  mret (ActiveSegment.mk path file header (length encoded_header) base_offset base_offset 0 0 ∅ ∅ []
          accumulator false false (RecoveryReport.mk zero 0 0 base_offset) ProducerSnapshot.default).

Definition create_in (nonce : Uuid) (path : PathBuf) (descriptor : SegmentDescriptor.t)
    (config : SegmentConfig.t) : SimE SegmentError ActiveSegment.t :=
  sim_panic (SegmentDescriptor.validate descriptor);;
  config ← sim_lift (SegmentConfig.validate config);
  let header := SegmentHeader.new descriptor config in
  encoded_header ← sim_lift (encode_header header);
  create_with_header nonce path (AnyHeader.V1 header) encoded_header.

Definition create_v2_in (nonce : Uuid) (path : PathBuf) (descriptor : SegmentDescriptorV2.t)
    (config : SegmentConfigV2.t) : SimE SegmentError ActiveSegment.t :=
  sim_panic (SegmentDescriptorV2.validate descriptor);;
  config ← sim_lift (SegmentConfigV2.validate config);
  let header := SegmentHeaderV2.new descriptor config in
  encoded_header ← sim_lift (encode_header_v2 header);
  create_with_header nonce path (AnyHeader.V2 header) encoded_header.

(** ** Recovering *)

Record ActiveFileInspection := mkInspection {
  inspected_header : AnyHeader.t;
  inspected_header_len : nat;
  inspected_actual_len : nat;
  inspected_scan : ScanResult.t
}.

Definition inspect_active_file (f : SimFile.t) (path : PathBuf) (inherited : ProducerSnapshot.t)
    : SimE SegmentError (ActiveFileInspection * SimFile.t) :=
  paths ← sim_lift (SegmentPaths.from_active path);
  '(header, header_len, f) ← read_header_with_path f path;
  boundary ← read_commit_boundary (SegmentPaths.commit paths);
  if decide (boundary_segment_id boundary ≠ AnyHeader.segment_id header) then
    sim_fail (CommitBoundaryMismatch "segment id differs from the active segment header")
  else if decide (u64_end <= Z.of_nat header_len + boundary_content_bytes boundary)%Z then
    sim_fail (CommitBoundaryMismatch "committed byte length overflows")
  else
    let committed_end := header_len + Z.to_nat (ival (boundary_content_bytes boundary)) in
    actual_len ← map_err (io_error path) (file_len f);
    if decide (actual_len < committed_end) then
      sim_fail (CommitBoundaryMismatch ("committed byte end " +:+ nat_display committed_end
        +:+ " exceeds file length " +:+ nat_display actual_len))
    else
      '(scan, f) ← scan_records f path header header_len (Some committed_end) false inherited;
      if decide (ScanResult.next_offset scan ≠ boundary_committed_offset boundary
                 ∨ ScanResult.valid_end scan ≠ committed_end
                 ∨ Z.of_nat (ScanResult.valid_end scan - header_len) ≠ ival (boundary_content_bytes boundary)) then
        sim_fail (CommitBoundaryMismatch
          "offset or byte boundary does not end on the validated record frontier")
      else mret (mkInspection header header_len actual_len scan, f).

Definition recover_in (path : PathBuf) : SimE SegmentError ActiveSegment.t :=
  f ← map_err (io_error path) (SimStorage.open path ReadWrite);
  paths ← sim_lift (SegmentPaths.from_active path);
  inherited ← read_producer_snapshot paths;
  '(inspection, f) ← inspect_active_file f path inherited;
  let scan := inspected_scan inspection in
  let valid_end := ScanResult.valid_end scan in
  let truncated_bytes := inspected_actual_len inspection - valid_end in
  (if decide (0 < truncated_bytes) then map_err (io_error path) (file_set_len f valid_end) else mret tt);;
  map_err (io_error path) (file_sync_data f);;
  '(_, f) ← map_err (io_error path) (file_seek f (SeekStart valid_end));
  let content := valid_end - inspected_header_len inspection in
  let records := ScanResult.records scan in
  let next := ScanResult.next_offset scan in
  mret (ActiveSegment.mk path f (inspected_header inspection) (inspected_header_len inspection)
          next next records content (ScanResult.producer_states scan) (ScanResult.producer_epochs scan)
          (ScanResult.index scan) (ScanResult.accumulator scan) false false
          (RecoveryReport.mk (nat_u64 records) content truncated_bytes next) inherited).

(** ** Committing *)

Definition ensure_writable : Seg unit :=
  self ← seg_get;
  if ActiveSegment.sealed self then seg_fail AlreadySealed
  else if ActiveSegment.poisoned self then seg_fail WriterPoisoned
  else mret tt.

Definition sync_file_data : Seg unit :=
  self ← seg_get;
  seg_io (map_err (io_error (ActiveSegment.path self)) (file_sync_data (ActiveSegment.file self))).

Definition persist_commit_boundary (nonce : Uuid) (committed_offset : u64) (content_bytes : nat) : Seg unit :=
  or_poison sync_file_data;;
  self ← seg_get;
  paths ← seg_lift (SegmentPaths.from_active (ActiveSegment.path self));
  or_poison (seg_io (write_commit_boundary_atomic nonce (SegmentPaths.commit paths)
    (mkBoundary (AnyHeader.segment_id (ActiveSegment.header self)) committed_offset (nat_u64 content_bytes)))).

Definition commit (nonce : Uuid) : Seg u64 :=
  ensure_writable;;
  self ← seg_get;
  persist_commit_boundary nonce (ActiveSegment.next_offset self) (ActiveSegment.content_bytes self);;
  seg_modify (ActiveSegment.set_committed_offset (ActiveSegment.next_offset self));;
  mret (ActiveSegment.next_offset self).

(** ** Appending *)

(** The fields a segment's record schema cannot represent. *)
Fixpoint check_record_fields (header : AnyHeader.t) (records : list LogRecord.t) : log_result unit :=
  match records with
  | [] => Ok tt
  | record :: records =>
      if match header with
         | AnyHeader.V1 _ => bool_decide (ival (LogRecord.producer_epoch record) ≠ 0%Z)
         | AnyHeader.V2 _ => false
         end then Err (UnsupportedRecordField "producer_epoch")
      else if decide (ival (LogRecord.attributes record) ≠ 0%Z) then
        Err (UnsupportedRecordField "attributes")
      else check_record_fields header records
  end.

Definition group_too_large (header : AnyHeader.t) (actual : u64) : SegmentError :=
  GroupTooLarge actual (AnyHeader.max_group_bytes header).

Definition plan_record (self : ActiveSegment.t) (record : LogRecord.t) (plan : GroupPlan.t)
    : log_result GroupPlan.t :=
  let header := ActiveSegment.header self in
  let content_hash := record_content_hash record in
  decision ← validate_sequence_with_delta (ActiveSegment.producer_states self)
    (ActiveSegment.producer_epochs self) (GroupPlan.deltas plan) (GroupPlan.epoch_deltas plan)
    record content_hash;
  match decision with
  | Duplicate offset =>
      Ok (GroupPlan.mk (GroupPlan.deltas plan) (GroupPlan.epoch_deltas plan)
            (GroupPlan.prospective_next plan) (GroupPlan.outcomes plan ++ [LogTypes.Duplicate offset])
            (GroupPlan.pending plan) (GroupPlan.group_bytes plan))
  | Append =>
      let offset := GroupPlan.prospective_next plan in
      prospective_next ← ok_or (invalid_descriptor "segment offset space exhausted") (checked_succ offset);
      encoded ← encode_record_any header record (wrapping_sub offset (AnyHeader.base_offset header));
      let group_bytes := GroupPlan.group_bytes plan + length encoded in
      if decide (u64_end <= Z.of_nat group_bytes)%Z then Err (group_too_large header u64_MAX)
      else if decide (ival (AnyHeader.max_group_bytes header) < Z.of_nat group_bytes)%Z then
        Err (group_too_large header (nat_u64 group_bytes))
      else
        let '(deltas, epoch_deltas) :=
          remember_pending_sequence (GroupPlan.deltas plan) (GroupPlan.epoch_deltas plan)
            record offset content_hash in
        Ok (GroupPlan.mk deltas epoch_deltas prospective_next
              (GroupPlan.outcomes plan ++ [Appended offset])
              (GroupPlan.pending plan ++ [(offset, encoded)]) group_bytes)
  end.

Fixpoint plan_group (self : ActiveSegment.t) (records : list LogRecord.t) (plan : GroupPlan.t)
    : log_result GroupPlan.t :=
  match records with
  | [] => Ok plan
  | record :: records => plan ← plan_record self record plan; plan_group self records plan
  end.

(** The limits of the segment, with the size it would have. *)
Definition check_segment_limits (self : ActiveSegment.t) (plan : GroupPlan.t) : log_result nat :=
  let header := ActiveSegment.header self in
  let current := ActiveSegment.content_bytes self in
  let attempted_bytes := current + GroupPlan.group_bytes plan in
  let attempted_records := ActiveSegment.record_count self + length (GroupPlan.pending plan) in
  if decide (u64_end <= Z.of_nat attempted_bytes)%Z then
    Err (SegmentByteLimit (nat_u64 current) u64_MAX (AnyHeader.max_segment_bytes header))
  else if decide (ival (AnyHeader.max_segment_bytes header) < Z.of_nat attempted_bytes)%Z then
    Err (SegmentByteLimit (nat_u64 current) (nat_u64 attempted_bytes) (AnyHeader.max_segment_bytes header))
  else if decide (u64_end <= Z.of_nat attempted_records)%Z then
    Err (SegmentRecordLimit u64_MAX (AnyHeader.max_segment_records header))
  else if decide (ival (AnyHeader.max_segment_records header) < Z.of_nat attempted_records)%Z then
    Err (SegmentRecordLimit (nat_u64 attempted_records) (AnyHeader.max_segment_records header))
  else Ok attempted_bytes.

(** The write loop; [position] is where the next frame goes. *)
Fixpoint write_pending (pending : list (u64 * list u8)) (position : nat) : Seg unit :=
  match pending with
  | [] => mret tt
  | (offset, encoded) :: pending =>
      self ← seg_get;
      let header := ActiveSegment.header self in
      (if is_multiple_of (ival (wrapping_sub offset (AnyHeader.base_offset header))) (AnyHeader.index_stride header)
       then seg_modify (ActiveSegment.set_index (ActiveSegment.index self ++ [IndexEntry.mk offset position]))
       else mret tt);;
      or_poison (on_file (λ f, moving (map_err (io_error (ActiveSegment.path self)) (write_all f encoded))));;
      write_pending pending (position + length encoded)
  end.

(** The end of [append_group], once the frames are written. *)
Definition append_end (nonce : Uuid) (durability : Durability) (plan : GroupPlan.t) (attempted_bytes : nat)
    : Seg (list AppendOutcome) :=
  (if decide (durability = Fsync)
   then persist_commit_boundary nonce (GroupPlan.prospective_next plan) attempted_bytes
   else mret tt);;
  self ← seg_get;
  let '(states, epochs) :=
    merge_producer_deltas (ActiveSegment.producer_states self) (ActiveSegment.producer_epochs self)
      (GroupPlan.deltas plan) (GroupPlan.epoch_deltas plan) in
  seg_modify (ActiveSegment.set_derived (GroupPlan.prospective_next plan)
    (ActiveSegment.record_count self + length (GroupPlan.pending plan)) attempted_bytes states epochs
    (ActiveSegment.index self)
    (foldl (λ acc p, ContentAccumulator.update p.2 acc) (ActiveSegment.accumulator self) (GroupPlan.pending plan)));;
  (if decide (durability = Fsync)
   then seg_modify (ActiveSegment.set_committed_offset (GroupPlan.prospective_next plan))
   else mret tt);;
  mret (GroupPlan.outcomes plan).

Definition append_group (nonce : Uuid) (records : list LogRecord.t) (durability : Durability)
    : Seg (list AppendOutcome) :=
  ensure_writable;;
  self ← seg_get;
  seg_lift (check_record_fields (ActiveSegment.header self) records);;
  plan ← seg_lift (plan_group self records (GroupPlan.start (ActiveSegment.next_offset self)));
  if decide (GroupPlan.pending plan = []) then
    (if decide (durability = Fsync) then commit nonce;; mret tt else mret tt);;
    mret (GroupPlan.outcomes plan)
  else
    attempted_bytes ← seg_lift (check_segment_limits self plan);
    write_start ← on_file (λ f, map_err (io_error (ActiveSegment.path self)) (file_seek f (SeekEnd 0)));
    write_pending (GroupPlan.pending plan) write_start;;
    append_end nonce durability plan attempted_bytes.

(** [outcomes.remove(0)] panics on an empty list; a group of one has one outcome. *)
Definition append (nonce : Uuid) (record : LogRecord.t) (durability : Durability) : Seg AppendOutcome := λ st,
  match append_group nonce [record] durability st with
  | Some (st', Ok (outcome :: _)) => Some (st', Ok outcome)
  | Some (_, Ok []) => None
  | None => None
  | Some (st', Err e) => Some (st', Err e)
  end.

(** ** Truncating *)

(** The commit boundary shrinks before the file does. *)
Definition truncate_to (nonce : Uuid) (offset : u64) : Seg TruncateOutcome.t :=
  ensure_writable;;
  self ← seg_get;
  let header := ActiveSegment.header self in
  let base := AnyHeader.base_offset header in
  let next_offset := ActiveSegment.next_offset self in
  let path := ActiveSegment.path self in
  if decide (ival next_offset < ival offset)%Z then seg_fail (TruncateBeyondTail offset next_offset)
  else if decide (ival offset < ival base)%Z then
    seg_fail (InvalidConfig ("cannot truncate to offset " +:+ int_display offset
      +:+ ": this segment begins at " +:+ int_display base))
  else if decide (offset = next_offset) then mret (TruncateOutcome.mk zero 0 next_offset)
  else
    position ← on_file (λ f, position_of_offset f path header (ActiveSegment.header_len self)
                               (ActiveSegment.index self) offset);
    let file_end := ActiveSegment.header_len self + ActiveSegment.content_bytes self in
    let bytes_removed := file_end - position in
    persist_commit_boundary nonce offset (position - ActiveSegment.header_len self);;
    or_poison (on_file (λ f, map_err (io_error path)
      (file_set_len f position;; file_sync_data f;; mret (tt, f))));;
    scan ← or_poison (on_file (λ f, scan_records f path header (ActiveSegment.header_len self)
      (Some position) false (ActiveSegment.inherited self)));
    if decide (ScanResult.next_offset scan ≠ offset) then
      seg_modify (ActiveSegment.set_poisoned true);;
      seg_fail (Corrupt position ("truncation to offset " +:+ int_display offset
        +:+ " left a log ending at " +:+ int_display (ScanResult.next_offset scan)))
    else
      or_poison (on_file (λ f, map_err (io_error path) (file_seek f (SeekStart position))));;
      let records_removed := ActiveSegment.record_count self - ScanResult.records scan in
      seg_modify (ActiveSegment.set_committed_offset (ScanResult.next_offset scan));;
      seg_modify (ActiveSegment.set_derived (ScanResult.next_offset scan) (ScanResult.records scan)
        (position - ActiveSegment.header_len self) (ScanResult.producer_states scan)
        (ScanResult.producer_epochs scan) (ScanResult.index scan) (ScanResult.accumulator scan));;
      mret (TruncateOutcome.mk (nat_u64 records_removed) bytes_removed (ScanResult.next_offset scan)).

(** ** Fetching *)

(** A failed fetch poisons the writer; whether the handle could be moved to the end is
    ignored. *)
Definition fetch_through (start_offset : u64) (max_bytes max_records : nat) (high_watermark : u64)
    : Seg FetchBatch.t := λ st,
  let self := st.1 in
  let high_watermark := u64_min high_watermark (ActiveSegment.committed_offset self) in
  let path := ActiveSegment.path self in
  '(st', r) ← on_file (λ f, fetch_from_file f path (ActiveSegment.header self) (ActiveSegment.header_len self)
       (ActiveSegment.index self) high_watermark start_offset max_bytes max_records) st;
  match r with
  | Ok batch => Some (st', Ok batch)
  | Err e =>
      let st' := (ActiveSegment.set_poisoned true st'.1, st'.2) in
      '(st'', _) ← on_file (λ f, map_err (io_error path) (file_seek f (SeekEnd 0))) st';
      Some (st'', Err e)
  end.

Definition fetch (start_offset : u64) (max_bytes max_records : nat) : Seg FetchBatch.t := λ st,
  fetch_through start_offset max_bytes max_records (ActiveSegment.committed_offset st.1) st.

(** ** Before sealing *)

Definition check_sealable (nonce : Uuid) : Seg unit :=
  ensure_writable;;
  commit nonce;;
  self ← seg_get;
  actual_file_bytes ← seg_io (map_err (io_error (ActiveSegment.path self)) (file_len (ActiveSegment.file self)));
  let header_len := ActiveSegment.header_len self in
  if decide (actual_file_bytes < header_len) then
    seg_fail (Corrupt actual_file_bytes "active segment is shorter than its validated header")
  else if decide (actual_file_bytes - header_len ≠ ActiveSegment.content_bytes self) then
    seg_fail (Corrupt (header_len + ActiveSegment.content_bytes self)
      "active segment length differs from accepted append state")
  else mret tt.
End active.
