(* ===== verification/Sealing.v ===== *)
(** Sealing a segment and reading it afterwards (crates/vtop-log/src/segment.rs): [seal]
    writes the sidecars and the manifest beside the active file and then renames it to its
    sealed name; [SegmentReader] opens a sealed segment, validates it against its manifest,
    repairs the sidecars and reads records below a watermark.

    A nonce of the environment's random source is an argument of the operation that draws
    it, one for each file that may be written. *)

From stdpp Require Import prelude strings list gmap pretty.
From Stdlib Require Import ZArith Lia.
From S2P Require Import Prelude Wire Lineage Placement Flow Storage ChunkTree LogTypes RecordCodec.
From S2P Require Import ProducerState ProducerSnapshot SegmentFiles SegmentScan Manifest ActiveSegment.
#[local] Open Scope nat_scope.

Module AnyManifest.
Inductive t {value : JsonValue} :=
  | V1 (manifest : SegmentManifest.t)
  | V2 (manifest : SegmentManifestV2.t).

Definition next_offset {value : JsonValue} (m : t) : u64 :=
  match m with V1 m => SegmentManifest.next_offset m | V2 m => SegmentManifestV2.next_offset m end.
Definition content_bytes {value : JsonValue} (m : t) : u64 :=
  match m with V1 m => SegmentManifest.content_bytes m | V2 m => SegmentManifestV2.content_bytes m end.
Definition root {value : JsonValue} (m : t) : string :=
  match m with V1 m => SegmentManifest.blake3_root m | V2 m => SegmentManifestV2.chunk_tree_root m end.
End AnyManifest.

Module SealedFileInspection.
Record t {value : JsonValue} := mk {
  header : AnyHeader.t;
  header_len : nat;
  scan : ScanResult.t;
  manifest : AnyManifest.t;
  chunk_leaves : option (list bytes32)
}.
End SealedFileInspection.

Module SegmentReader.
Record t {value : JsonValue} := mk {
  path : PathBuf;
  file : SimFile.t;
  header : AnyHeader.t;
  header_len : nat;
  manifest : AnyManifest.t;
  index : list IndexEntry.t
}.
End SegmentReader.

Module SegmentInspection.
Record t := mk {
  descriptor : SegmentDescriptor.t;
  format_version : u16;
  record_count : nat;
  next_offset : u64;
  content_bytes : nat;
  sealed_content_root : option string
}.
End SegmentInspection.

Module SegmentCursor.
Record t := mk {
  topic : string;
  topic_epoch : u64;
  range_id : Uuid;
  range_generation : u64;
  segment_id : Uuid;
  segment_root : string;
  offset : u64
}.
End SegmentCursor.

(** The nonces a seal draws: for the commit boundary, the sidecars and the manifest, and
    for the sidecars that opening the result may rewrite. *)
Record SealNonces := mkSealNonces {
  n_commit : Uuid;
  n_chunks : Uuid;
  n_index : Uuid;
  n_manifest : Uuid;
  n_open_chunks : Uuid;
  n_open_index : Uuid
}.

Section sealing.
Context {hash : Blake3Hash} {tree : Blake3} {text : Blake3Text} {fmt : Fmt}.
Context {json : HeaderJson} {value : JsonValue} {mjson : ManifestJson}.

(** ** Opening a sealed segment *)

(** The manifest, which has to be in its canonical encoding. *)
Definition decode_canonical {A} (from_slice : list u8 → result string A) (canonical : A → log_result (list u8))
    (bytes : list u8) : log_result A :=
  match from_slice bytes with
  | Err error => Err (ManifestMismatch ("cannot decode manifest: " +:+ error))
  | Ok manifest =>
      expected ← canonical manifest;
      if decide (bytes ≠ expected) then
        Err (ManifestMismatch "manifest is not in canonical VTOP JSON encoding")
      else Ok manifest
  end.

Definition inspect_sealed_file_at (f : SimFile.t) (path : PathBuf) (paths : SegmentPaths.t)
    (inherited : ProducerSnapshot.t) : SimE SegmentError (SealedFileInspection.t * SimFile.t) :=
  '(header, header_len, f) ← read_header_with_path f path;
  '(scan, f) ← scan_records f path header header_len None false inherited;
  let manifest_path := SegmentPaths.manifest paths in
  manifest_bytes ← map_err (io_error manifest_path) (SimStorage.read manifest_path);
  match header with
  | AnyHeader.V1 v1_header =>
      manifest ← sim_lift (decode_canonical manifest_from_slice canonical_manifest_bytes manifest_bytes);
      sim_lift (validate_manifest manifest v1_header scan header_len);;
      mret (SealedFileInspection.mk _ header header_len scan (AnyManifest.V1 manifest) None, f)
  | AnyHeader.V2 v2_header =>
      manifest ← sim_lift (decode_canonical manifest_v2_from_slice canonical_manifest_v2_bytes manifest_bytes);
      let '(leaves, root) := ContentAccumulator.finalize (ScanResult.accumulator scan) in
      sim_lift (validate_manifest_v2 manifest v2_header scan header_len leaves root);;
      mret (SealedFileInspection.mk _ header header_len scan (AnyManifest.V2 manifest) (Some leaves), f)
  end.

Definition inspect_sealed_file (f : SimFile.t) (path : PathBuf) (inherited : ProducerSnapshot.t)
    : SimE SegmentError (SealedFileInspection.t * SimFile.t) :=
  paths ← sim_lift (SegmentPaths.from_segment path);
  inspect_sealed_file_at f path paths inherited.

(** The chunk sidecar is rewritten unless it holds the leaves of the segment. *)
Definition repair_chunks (nonce : Uuid) (path : PathBuf) (chunk_size : u32) (leaves : list bytes32)
    : SimE SegmentError unit :=
  stored ← attempt (read_chunk_sidecar path);
  if match stored with Ok stored => bool_decide (stored = (chunk_size, leaves)) | Err _ => false end then mret tt
  else write_chunk_sidecar_atomic nonce path chunk_size leaves.

(** So is the sparse index, unless it is the one the scan built. *)
Definition repair_index (nonce : Uuid) (path : PathBuf) (index : list IndexEntry.t) : SimE SegmentError unit :=
  stored ← attempt (read_index path);
  if match stored with Ok stored => bool_decide (stored = index) | Err _ => false end then mret tt
  else write_index_atomic nonce path index.

Definition open_in (chunks_nonce index_nonce : Uuid) (path : PathBuf) : SimE SegmentError SegmentReader.t :=
  paths ← sim_lift (SegmentPaths.from_segment path);
  f ← map_err (io_error path) (SimStorage.open path Read);
  inherited ← read_producer_snapshot paths;
  '(inspection, f) ← inspect_sealed_file f path inherited;
  let manifest := SealedFileInspection.manifest inspection in
  match manifest, SealedFileInspection.chunk_leaves inspection with
  | AnyManifest.V2 m, Some leaves =>
      repair_chunks chunks_nonce (SegmentPaths.chunks paths) (SegmentManifestV2.chunk_size m) leaves
  | _, _ => mret tt
  end;;
  let index := ScanResult.index (SealedFileInspection.scan inspection) in
  repair_index index_nonce (SegmentPaths.index paths) index;;
  mret (SegmentReader.mk _ path f (SealedFileInspection.header inspection)
          (SealedFileInspection.header_len inspection) manifest index).

(** ** Reading a sealed segment *)

Definition cursor (self : SegmentReader.t) (offset : u64) : log_result SegmentCursor.t :=
  let header := SegmentReader.header self in
  let next_offset := AnyManifest.next_offset (SegmentReader.manifest self) in
  if decide (¬ (ival (AnyHeader.base_offset header) <= ival offset <= ival next_offset)%Z) then
    Err (InvalidCursor ("offset " +:+ int_display offset +:+ " is outside segment interval "
      +:+ int_display (AnyHeader.base_offset header) +:+ "..=" +:+ int_display next_offset))
  else
    Ok (SegmentCursor.mk (AnyHeader.topic header) (AnyHeader.topic_epoch header) (AnyHeader.range_id header)
          (AnyHeader.range_generation header) (AnyHeader.segment_id header)
          (AnyManifest.root (SegmentReader.manifest self)) offset).

Definition reader_fetch_through (self : SegmentReader.t) (start_offset : u64) (max_bytes max_records : nat)
    (high_watermark : u64) : SimE SegmentError (FetchBatch.t * SimFile.t) :=
  let high_watermark := u64_min high_watermark (AnyManifest.next_offset (SegmentReader.manifest self)) in
  fetch_from_file (SegmentReader.file self) (SegmentReader.path self) (SegmentReader.header self)
    (SegmentReader.header_len self) (SegmentReader.index self) high_watermark start_offset max_bytes max_records.

Definition reader_fetch (self : SegmentReader.t) (start_offset : u64) (max_bytes max_records : nat)
    : SimE SegmentError (FetchBatch.t * SimFile.t) :=
  reader_fetch_through self start_offset max_bytes max_records u64_MAX.

(** ** Repairing and inspecting without a reader *)

Definition rebuild_index_in (nonce : Uuid) (path : PathBuf) : SimE SegmentError unit :=
  paths ← sim_lift (SegmentPaths.from_segment path);
  f ← map_err (io_error path) (SimStorage.open path Read);
  '(header, header_len, f) ← read_header_with_path f path;
  inherited ← read_producer_snapshot paths;
  '(scan, f) ← scan_records f path header header_len None false inherited;
  write_index_atomic nonce (SegmentPaths.index paths) (ScanResult.index scan).

Definition rebuild_chunk_index_in (nonce : Uuid) (path : PathBuf) : SimE SegmentError unit :=
  paths ← sim_lift (SegmentPaths.from_segment path);
  f ← map_err (io_error path) (SimStorage.open path Read);
  '(header, header_len, f) ← read_header_with_path f path;
  match header with
  | AnyHeader.V1 _ => sim_fail (invalid_descriptor "only v2 segments carry a chunk sidecar")
  | AnyHeader.V2 v2_header =>
      inherited ← read_producer_snapshot paths;
      '(scan, f) ← scan_records f path header header_len None false inherited;
      write_chunk_sidecar_atomic nonce (SegmentPaths.chunks paths)
        (SegmentConfigV2.chunk_size (SegmentHeaderV2.config v2_header))
        (ContentAccumulator.finalize (ScanResult.accumulator scan)).1
  end.

Definition validate_sealed_and_rebuild_sidecars_at (chunks_nonce index_nonce : Uuid) (paths : SegmentPaths.t)
    : SimE SegmentError unit :=
  let path := SegmentPaths.segment paths in
  f ← map_err (io_error path) (SimStorage.open path Read);
  inherited ← read_producer_snapshot paths;
  '(inspection, f) ← inspect_sealed_file_at f path paths inherited;
  match SealedFileInspection.manifest inspection, SealedFileInspection.chunk_leaves inspection with
  | AnyManifest.V2 m, Some leaves =>
      write_chunk_sidecar_atomic chunks_nonce (SegmentPaths.chunks paths) (SegmentManifestV2.chunk_size m) leaves
  | _, _ => mret tt
  end;;
  write_index_atomic index_nonce (SegmentPaths.index paths)
    (ScanResult.index (SealedFileInspection.scan inspection)).

Definition inspection_of (header : AnyHeader.t) (header_len : nat) (scan : ScanResult.t) (root : option string)
    : SegmentInspection.t :=
  SegmentInspection.mk (AnyHeader.v1_descriptor_view header) (AnyHeader.format_version header)
    (ScanResult.records scan) (ScanResult.next_offset scan) (ScanResult.valid_end scan - header_len) root.

Definition inspect_active_segment (path : PathBuf) : SimE SegmentError SegmentInspection.t :=
  paths ← sim_lift (SegmentPaths.from_active path);
  inherited ← read_producer_snapshot paths;
  f ← map_err (io_error path) (SimStorage.open path Read);
  '(inspection, f) ← inspect_active_file f path inherited;
  mret (inspection_of (inspected_header inspection) (inspected_header_len inspection)
          (inspected_scan inspection) None).

Definition inspect_sealed_segment (path : PathBuf) : SimE SegmentError SegmentInspection.t :=
  paths ← sim_lift (SegmentPaths.from_segment path);
  f ← map_err (io_error path) (SimStorage.open path Read);
  inherited ← read_producer_snapshot paths;
  '(inspection, f) ← inspect_sealed_file f path inherited;
  mret (inspection_of (SealedFileInspection.header inspection) (SealedFileInspection.header_len inspection)
          (SealedFileInspection.scan inspection)
          (Some (AnyManifest.root (SealedFileInspection.manifest inspection)))).

(** ** Sealing *)

Definition check_unpublished : Seg SegmentPaths.t :=
  self ← seg_get;
  paths ← seg_lift (SegmentPaths.from_active (ActiveSegment.path self));
  let segment := SegmentPaths.segment paths in
  published ← seg_io (map_err (io_error segment) (SimStorage.exists_ segment));
  if (published : bool) then
    seg_fail (invalid_descriptor ("refusing to replace existing sealed segment " +:+ path_display segment))
  else mret paths.

Definition publish_sealed (nonces : SealNonces) (paths : SegmentPaths.t) : Seg SegmentReader.t :=
  self ← seg_get;
  let path := ActiveSegment.path self in
  seg_io (map_err (io_error path) (SimStorage.rename path (SegmentPaths.segment paths)));;
  seg_io (sync_parent (SegmentPaths.segment paths));;
  seg_modify (ActiveSegment.set_sealed true);;
  seg_io (open_in (n_open_chunks nonces) (n_open_index nonces) (SegmentPaths.segment paths)).

(** [mem::replace] of the accumulator by a fresh one, and [finalize]. *)
Definition take_root (self : ActiveSegment.t) : Seg (list bytes32 * bytes32) := λ st,
  match ContentAccumulator.for_header (ActiveSegment.header self) with
  | None => None
  | Some fresh =>
      let roots := ContentAccumulator.finalize (ActiveSegment.accumulator self) in
      Some ((ActiveSegment.set_accumulator fresh st.1, st.2), Ok roots)
  end.

Definition manifest_v1 (self : ActiveSegment.t) (header : SegmentHeader.t) (root : bytes32) : SegmentManifest.t :=
  let descriptor := SegmentHeader.descriptor header in
  SegmentManifest.mk FORMAT_NAME FORMAT_VERSION descriptor (nat_u64 (ActiveSegment.record_count self))
    (first_of (ActiveSegment.record_count self) (SegmentDescriptor.base_offset descriptor))
    (ActiveSegment.next_offset self) (nat_u64 (ActiveSegment.content_bytes self)) (to_hex root)
    (SegmentConfig.index_stride (SegmentHeader.config header)).

Definition manifest_v2 (self : ActiveSegment.t) (header : SegmentHeaderV2.t) (leaves : list bytes32)
    (root : bytes32) : SegmentManifestV2.t :=
  let descriptor := SegmentHeaderV2.descriptor header in
  SegmentManifestV2.mk FORMAT_NAME FORMAT_VERSION_V2 RECORD_SCHEMA_VERSION_V2 descriptor
    (nat_u64 (ActiveSegment.record_count self))
    (first_of (ActiveSegment.record_count self) (SegmentDescriptorV2.base_offset descriptor))
    (ActiveSegment.next_offset self) (nat_u64 (ActiveSegment.content_bytes self))
    (ActiveSegment.next_offset self)
    (producer_summary_from_states (ActiveSegment.producer_states self))
    (SegmentConfigV2.chunk_size (SegmentHeaderV2.config header)) (nat_u64 (length leaves))
    CHUNK_TREE_SCHEME_V1 (to_hex root) (SegmentConfigV2.index_stride (SegmentHeaderV2.config header))
    (SegmentDescriptorV2.creation_node_id descriptor) (SegmentDescriptorV2.creation_fencing_epoch descriptor)
    SegmentEvidence.default None.

(** The statement is attached when a key is given. *)
Definition sign (manifest : SegmentManifestV2.t) (key : option SegmentCommitKey) : log_result SegmentManifestV2.t :=
  match key with
  | None => Ok manifest
  | Some _ =>
      statement ← commit_statement_core manifest;
      statement ← authenticate statement key;
      Ok (SegmentManifestV2.set_commit_statement (Some statement) manifest)
  end.

Definition seal_v1 (nonces : SealNonces) (header : SegmentHeader.t) : Seg SegmentReader.t :=
  check_sealable (n_commit nonces);;
  self ← seg_get;
  '(_, root) ← take_root self;
  let manifest := manifest_v1 self header root in
  paths ← check_unpublished;
  seg_io (write_index_atomic (n_index nonces) (SegmentPaths.index paths) (ActiveSegment.index self));;
  bytes ← seg_lift (canonical_manifest_bytes manifest);
  seg_io (write_atomic (n_manifest nonces) (SegmentPaths.manifest paths) bytes);;
  publish_sealed nonces paths.

Definition seal_v2 (nonces : SealNonces) (key : option SegmentCommitKey) : Seg SegmentReader.t :=
  self ← seg_get;
  match ActiveSegment.header self with
  | AnyHeader.V1 _ =>
      seg_fail (invalid_descriptor "a v1 segment cannot carry a v2 commit statement; use seal()")
  | AnyHeader.V2 header =>
      check_sealable (n_commit nonces);;
      self ← seg_get;
      '(leaves, root) ← take_root self;
      manifest ← seg_lift (sign (manifest_v2 self header leaves root) key);
      paths ← check_unpublished;
      seg_io (write_chunk_sidecar_atomic (n_chunks nonces) (SegmentPaths.chunks paths)
                (SegmentConfigV2.chunk_size (SegmentHeaderV2.config header)) leaves);;
      seg_io (write_index_atomic (n_index nonces) (SegmentPaths.index paths) (ActiveSegment.index self));;
      bytes ← seg_lift (canonical_manifest_v2_bytes manifest);
      seg_io (write_atomic (n_manifest nonces) (SegmentPaths.manifest paths) bytes);;
      publish_sealed nonces paths
  end.

Definition seal (nonces : SealNonces) : Seg SegmentReader.t :=
  self ← seg_get;
  match ActiveSegment.header self with
  | AnyHeader.V1 header => seal_v1 nonces header
  | AnyHeader.V2 _ => seal_v2 nonces None
  end.
End sealing.
