(* ===== verification/LogDisk.v ===== *)
(** What the files of a segment hold after each step of an operation on them: the names do
    not clash, a sidecar is replaced by all of its new content or not at all, whatever the
    fault plan, and the header and the frames that were written are read back. *)

From stdpp Require Import prelude strings list gmap pretty.
From Stdlib Require Import ZArith Lia.
From S2P Require Import Prelude Wire Placement Flow Storage DiskLogic ChunkTree LogTypes RecordCodec DiskView.
From S2P Require Import ProducerState ProducerSnapshot SegmentFiles SegmentScan ActiveSegment.
#[local] Open Scope nat_scope.

(** ** Names *)

Lemma utf8_valid_app xs ys : utf8_valid xs = true → utf8_valid ys = true → utf8_valid (xs ++ ys) = true.
Proof.
  intros Hx Hy. remember (length xs) as n eqn:Hn. revert xs Hn Hx.
  induction n as [n IH] using lt_wf_ind. intros xs -> Hx. destruct xs as [|b0 r0]; [done|].
  cbn [app utf8_valid] in *. destruct (in_span 0 127 b0); [by apply (IH (length r0)); simpl; [lia|..]|].
  destruct r0 as [|b1 r1]; [done|]. cbn [app] in *. destruct (in_span 194 223 b0).
  { apply andb_true_iff in Hx as [-> Hx]. by apply (IH (length r1)); simpl; [lia|..]. }
  destruct r1 as [|b2 r2]; [done|]. cbn [app] in *. destruct (in_span 224 239 b0).
  { apply andb_true_iff in Hx as [-> Hx]. by apply (IH (length r2)); simpl; [lia|..]. }
  destruct r2 as [|b3 r3]; [done|]. cbn [app] in *.
  apply andb_true_iff in Hx as [-> Hx]. by apply (IH (length r3)); simpl; [lia|..].
Qed.

Lemma rsplit_dot_None bs : Forall (λ b, ival b ≠ 46%Z) bs → rsplit_dot bs = None.
Proof. induction 1 as [|b bs Hb _ IH]; simpl; [done|]. by rewrite IH, decide_False. Qed.

Lemma rsplit_dot_app before after :
  Forall (λ b, ival b ≠ 46%Z) after → rsplit_dot (before ++ as_bytes "." ++ after) = Some (before, after).
Proof.
  intros Ha. induction before as [|b before IH]; simpl.
  - by rewrite (rsplit_dot_None after).
  - simpl in IH. by rewrite IH.
Qed.

(** Names are told apart by their last four bytes. *)
Definition tail4 (xs : list u8) : list u8 := drop (length xs - 4) xs.

Lemma tail4_app xs ys : 4 <= length ys → tail4 (xs ++ ys) = tail4 ys.
Proof.
  intros Hy. unfold tail4. rewrite length_app, drop_app_ge by lia. f_equal. lia.
Qed.

(** Where the files of a segment are. *)
Definition sidecar (dir : PathBuf) (stem : list u8) (suffix : string) : PathBuf :=
  join dir (stem ++ as_bytes suffix).
Definition sidecars (dir : PathBuf) (stem : list u8) : SegmentPaths.t :=
  let named := sidecar dir stem in
  SegmentPaths.mk (named ".segment") (named ".index") (named ".manifest.json") (named ".commit")
    (named ".chunks") (named ".producers").

Lemma parent_snoc abs cs name : parent (Path abs (cs ++ [name])) = Some (Path abs cs).
Proof.
  unfold parent. cbn [components is_absolute].
  destruct (cs ++ [name]) as [|c l] eqn:E; [by destruct cs|]. by rewrite <-E, removelast_last.
Qed.

Lemma parent_join dir name : parent (join dir name) = Some dir.
Proof. unfold join. rewrite parent_snoc. by destruct dir. Qed.

Lemma join_inj dir x y : join dir x = join dir y → x = y.
Proof. unfold join. intros [= H]. by apply app_inj_2 in H as [_ [= ->]]. Qed.

Lemma file_name_join dir name : 2 < length name → file_name (join dir name) = Some name.
Proof.
  intros Hlen. unfold file_name, join. simpl. rewrite last_snoc. rewrite decide_False; [done|].
  intros [->| ->]; simpl in Hlen; lia.
Qed.

Lemma with_file_name_join dir name name' :
  2 < length name → with_file_name (join dir name) name' = join dir name'.
Proof.
  intros Hlen. unfold with_file_name. rewrite file_name_join by done. unfold join. simpl.
  by rewrite removelast_last.
Qed.

Lemma sidecar_parts dir stem ext :
  Forall (λ b, ival b ≠ 46%Z) (as_bytes ext) → stem ≠ [] → utf8_valid stem = true → 1 < length (as_bytes ext) →
  extension (sidecar dir stem ("." +:+ ext)) = Some (as_bytes ext) ∧
  SegmentPaths.from_stem (sidecar dir stem ("." +:+ ext)) = Ok (sidecars dir stem).
Proof.
  intros Hext Hne Hutf Hlen. change (as_bytes ("." +:+ ext)) with (as_bytes "." ++ as_bytes ext).
  unfold extension, SegmentPaths.from_stem, file_stem, sidecar.
  change (as_bytes ("." +:+ ext)) with (as_bytes "." ++ as_bytes ext).
  rewrite file_name_join by (rewrite !length_app; simpl; lia). cbn [mbind option_bind].
  rewrite rsplit_dot_app by done. destruct stem as [|b stem]; [done|]. cbn [mbind option_bind].
  unfold to_str. rewrite Hutf. split; [done|]. cbn [ok_or mbind result_bind]. by rewrite parent_join.
Qed.

Lemma from_active_sidecar dir stem :
  stem ≠ [] → utf8_valid stem = true → SegmentPaths.from_active (sidecar dir stem ".active") = Ok (sidecars dir stem).
Proof.
  intros Hne Hutf. destruct (sidecar_parts dir stem "active") as [He Hs]; [by repeat constructor|done|done|simpl; lia|].
  change ("." +:+ "active") with ".active" in He, Hs.
  unfold SegmentPaths.from_active. rewrite He. by rewrite decide_False by (by intros []).
Qed.

Lemma from_segment_sidecar dir stem :
  stem ≠ [] → utf8_valid stem = true → SegmentPaths.from_segment (sidecar dir stem ".segment") = Ok (sidecars dir stem).
Proof.
  intros Hne Hutf. destruct (sidecar_parts dir stem "segment") as [He Hs]; [by repeat constructor|done|done|simpl; lia|].
  change ("." +:+ "segment") with ".segment" in He, Hs.
  unfold SegmentPaths.from_segment. rewrite He. by rewrite decide_False by (by intros []).
Qed.

(** The temporary file of a sidecar. *)
Definition temporary `{!Fmt} (dir : PathBuf) (stem : list u8) (suffix : string) (nonce : Uuid) : PathBuf :=
  join dir (temporary_name nonce (stem ++ as_bytes suffix)).

(** The files of a segment, by their suffixes. *)
Inductive suffix_of : string → Prop :=
  | suffix_active : suffix_of ".active"
  | suffix_segment : suffix_of ".segment"
  | suffix_index : suffix_of ".index"
  | suffix_manifest : suffix_of ".manifest.json"
  | suffix_commit : suffix_of ".commit"
  | suffix_chunks : suffix_of ".chunks"
  | suffix_producers : suffix_of ".producers".
Create HintDb suffixes.
#[export] Hint Constructors suffix_of : suffixes.

Section names.
Context {fmt : Fmt} (dir : PathBuf) (stem : list u8).

Lemma sidecar_ne a b : as_bytes a ≠ as_bytes b → sidecar dir stem a ≠ sidecar dir stem b.
Proof. intros Hab Heq%join_inj. by apply app_inv_head in Heq. Qed.

Lemma temporary_sidecar_ne a b nonce : suffix_of b → temporary dir stem a nonce ≠ sidecar dir stem b.
Proof.
  intros Hb Heq%join_inj. apply (f_equal tail4) in Heq. unfold temporary_name in Heq.
  rewrite ?(assoc_L (++)) in Heq. rewrite tail4_app in Heq by (simpl; lia).
  destruct Hb; rewrite tail4_app in Heq by (simpl; lia); by compute in Heq.
Qed.

Lemma temporary_ne a b nonce nonce' :
  suffix_of a → suffix_of b → a ≠ b → temporary dir stem a nonce ≠ temporary dir stem b nonce'.
Proof.
  intros Ha Hb Hab Heq%join_inj. unfold temporary_name in Heq. rewrite <-!(assoc_L (++)) in Heq.
  apply app_inv_head in Heq. apply app_inv_head in Heq. apply (f_equal (take 3)) in Heq.
  destruct Ha, Hb; try done.
Qed.

Lemma sidecar_name a : suffix_of a → 2 < length (stem ++ as_bytes a).
Proof. rewrite length_app. intros []; simpl; lia. Qed.

Lemma sidecar_utf8 a : utf8_valid stem = true → suffix_of a → utf8_valid (stem ++ as_bytes a) = true.
Proof. intros Hs []; by apply utf8_valid_app. Qed.
End names.

(** ** Replacing a sidecar *)

(** After an attempt: its success, or what a crash can leave when it failed. *)
Lemma vs_attempt {E E' A B} (F : Prop) G (c : SimE E A) (k : result E A → SimE E' B)
    (Q : SimState.t → A → Prop) (R : SimState.t → B → Prop) s :
  view_spec False G c Q s → (∀ s' a, Q s' a → view_spec F G (k (Ok a)) R s') →
  (∀ s' e, failed G s' → io_wp (k (Err e)) (λ s'' r, is_err r = true ∧ failed G s'') s') →
  view_spec F G (attempt c ≫= k) R s.
Proof.
  unfold view_spec, io_wp, attempt, mbind, sim_bind. intros Hc Hok Herr.
  destruct (c s) as [[s' [a|e]]|]; simpl in *; [|destruct Hc as [_ [Hplan Hf]]|done].
  - destruct Hc as [Hplan HQ]. specialize (Hok s' a HQ). destruct (k (Ok a) s') as [[s'' r]|]; [|done].
    destruct Hok as [Hplan' Hr]. split; [by auto|]. destruct r; [done|]. split; [|by apply Hr].
    intros Hn. apply Hr. by apply Hplan.
  - specialize (Herr s' e Hf). destruct (k (Err e) s') as [[s'' [b|e']]|]; [by destruct Herr| |done].
    destruct Herr as [_ Hf']. split; [by intros ?%Hplan|]. split; [by intros ?%Hplan|done].
Qed.

Section replace.
Context {hash : Blake3Hash} {fmt : Fmt} (dir : PathBuf) (name : list u8) (nonce : Uuid) (bytes : list u8).

#[local] Abbreviation q := (join dir name).
#[local] Abbreviation t := (join dir (temporary_name nonce name)).

Lemma temporary_differs : t ≠ q.
Proof.
  intros Heq%join_inj%(f_equal length). unfold temporary_name in Heq. rewrite !length_app in Heq. simpl in Heq. lia.
Qed.

(** The disk [w] is [v] with the temporary file in any state and the file either as it
    was or replaced. *)
Record touched (v w : view) : Prop := {
  tc_dirs : v_dirs w = v_dirs v;
  tc_data : v_data v `prefix_of` v_data w;
  tc_names x : x ≠ t → x ≠ q → v_ns w !! x = v_ns v !! x;
  tc_commit :
    v_ns w !! q = v_ns v !! q ∨
    v_ns w !! q = Some (length (v_data v)) ∧ v_data w !! length (v_data v) = Some bytes;
}.

Definition replaced (v w : view) : Prop :=
  touched v w ∧ v_ns w !! q = Some (length (v_data v)) ∧ v_data w !! length (v_data v) = Some bytes ∧
  v_ns w !! t = None.

Lemma touched_remove v w : touched v w → touched v (view_op w (PendingOp.Namespace (NsOp.Remove t))).
Proof.
  pose proof temporary_differs as Htq. intros [Hd Hda Hn Hc]. split; simpl; try done.
  - intros x Hxt Hxq. rewrite lookup_delete_ne by done. by apply Hn.
  - by rewrite lookup_delete_ne by done.
Qed.

(** The views that the steps go through: [data] is what the temporary file holds. *)
Lemma touched_intro v ns data :
  (∀ x, x ≠ t → x ≠ q → ns !! x = v_ns v !! x) →
  (ns !! q = v_ns v !! q ∨ ns !! q = Some (length (v_data v)) ∧ data = bytes) →
  touched v (View ns (v_data v ++ [data]) (v_dirs v)).
Proof.
  intros Hn Hc. split; simpl; try done; [by apply prefix_app_r|].
  destruct Hc as [Hc|[Hc ->]]; [by left|right]. split; [done|].
  by rewrite lookup_app_r, Nat.sub_diag.
Qed.

(** The names after the temporary file is created, and after it is renamed. *)
Definition ns_created (v : view) := <[t := length (v_data v)]> (v_ns v).
Definition ns_renamed (v : view) := <[q := length (v_data v)]> (delete t (ns_created v)).

Lemma ns_created_spec v x : (x ≠ t → x ≠ q → ns_created v !! x = v_ns v !! x) ∧ ns_created v !! q = v_ns v !! q.
Proof.
  pose proof temporary_differs as Htq. unfold ns_created.
  split; [intros|]; by rewrite lookup_insert_ne.
Qed.

Lemma ns_renamed_spec v x : x ≠ t → x ≠ q → ns_renamed v !! x = v_ns v !! x.
Proof.
  intros. unfold ns_renamed. rewrite lookup_insert_ne, lookup_delete_ne by done. by apply ns_created_spec.
Qed.

Definition disk_created (v : view) (data : list u8) : disk :=
  Disk (View (v_ns v) (v_data v ++ [data]) (v_dirs v))
    [PendingOp.Namespace (NsOp.Create t (length (v_data v)))].

Lemma visible_created v data :
  visible (disk_created v data) = View (ns_created v) (v_data v ++ [data]) (v_dirs v).
Proof. done. Qed.

Lemma survives_created v data : survives (touched v) (disk_created v data).
Proof.
  intros [|k]; unfold survivor; simpl; rewrite ?take_nil; simpl; apply touched_intro.
  - done.
  - by left.
  - intros. by apply ns_created_spec.
  - left. by apply ns_created_spec.
Qed.

Lemma alter_last {A} (l : list A) x f : alter f (length l) (l ++ [x]) = l ++ [f x].
Proof. induction l as [|y l IH]; [done|]. unfold alter, list_alter in *. simpl. by rewrite IH. Qed.

Lemma write_temporary_spec F v e s (Q : SimState.t → unit → Prop) :
  bytes ≠ [] → up (disk_created v []) e s →
  (∀ s', up (disk_created v bytes) e s' → Q s' tt) →
  view_spec F (touched v)
    (file ← write_all (SimFile.mk t (length (v_data v)) 0 e true) bytes; file_sync_data file) Q s.
Proof.
  intros Hne Hup HQ. apply vs_bind.
  assert (length (v_data v) < length (v_data (base (disk_created v [])))) as Hi
    by (simpl; rewrite length_app; simpl; lia).
  eapply vs_write_all; [done|apply survives_created|done|done|..].
  { intros n. rewrite visible_created. simpl. rewrite alter_last. apply touched_intro.
    - intros. by apply ns_created_spec.
    - left. by apply ns_created_spec. }
  intros s1 Hup1. eapply vs_sync_data; [done| |done|].
  { apply survives_push; [apply survives_created|]. rewrite visible_created. simpl. rewrite alter_last.
    apply touched_intro; [intros; by apply ns_created_spec|left; by apply ns_created_spec]. }
  intros s2 Hup2. apply HQ.
  assert (sync_file (length (v_data v))
    (push (disk_created v []) (PendingOp.Data (length (v_data v)) (DataOp.Write 0 bytes)))
    = disk_created v bytes) as Heq; [|by rewrite <-Heq].
  unfold sync_file, push, disk_created. cbn [base pend app v_ns v_data v_dirs].
  rewrite !data_of_cons, !data_rest_cons. cbn [data_op]. rewrite decide_True by done. rewrite alter_last.
  f_equal. f_equal. f_equal. f_equal. unfold apply_ops. simpl. case_decide as Hlen; [|destruct bytes; simpl in *; [done|lia]].
  by rewrite drop_ge, app_nil_r by (by rewrite length_resize).
Qed.

Lemma sync_renamed v :
  sync_names (push (disk_created v bytes) (PendingOp.Namespace (NsOp.Rename t q)))
  = Disk (View (ns_renamed v) (v_data v ++ [bytes]) (v_dirs v)) [].
Proof.
  unfold sync_names. simpl. f_equal. f_equal. fold (ns_created v).
  assert (ns_created v !! t = Some (length (v_data v))) as -> by apply lookup_insert_eq. done.
Qed.

Lemma remove_failed {A} v (e : SegmentError) s :
  failed (touched v) s →
  io_wp (attempt (SimStorage.remove_file t);; sim_fail (A := A) e)
    (λ s' r, is_err r = true ∧ failed (touched v) s') s.
Proof.
  intros Hf. pose proof (failed_remove (touched v) t s Hf (touched_remove v)) as Hr.
  unfold io_wp, attempt, mbind, sim_bind in *.
  by destruct (SimStorage.remove_file t s) as [[s' r]|]; [|done].
Qed.

(** Replacing a file of a disk with nothing pending: whatever happens the file is the old
    one or the new one, and on success it is the new one for good.  Without a fault plan it
    succeeds unless the temporary name is taken. *)
Lemma write_atomic_spec v e s (Q : SimState.t → unit → Prop) :
  2 < length name → utf8_valid name = true → bytes ≠ [] → up (Disk v []) e s → dir ∈ v_dirs v →
  (∀ s' w, replaced v w → up (Disk w []) e s' → Q s' tt) →
  view_spec (is_Some (v_ns v !! t)) (touched v) (write_atomic nonce q bytes) Q s.
Proof.
  intros Hlong Hutf Hne Hup Hdir HQ. unfold write_atomic.
  rewrite file_name_join by done. cbn [mbind option_bind]. unfold to_str. rewrite Hutf. cbn [ok_or].
  eapply vs_step_bind; [done|done|]. rewrite with_file_name_join by done.
  assert (touched v v) as Hvv by (split; [done|done|done|by left]).
  assert (∀ x, default root_path (parent (join dir x)) = dir) as Hpar
    by (intros; by rewrite parent_join).
  apply vs_bind, vs_map_err. eapply vs_create; [done|by apply survives_none| |done|].
  { by rewrite Hpar. }
  intros s1 _ Hup1. change (create t (Disk v [])) with (disk_created v []) in Hup1. cbn [base] .
  apply (vs_attempt _ _ _ _ (λ s' _, up (disk_created v bytes) e s')); [by apply write_temporary_spec| |].
  2: { intros s2 err Hf. by apply remove_failed. }
  intros s2 [] Hup2. eapply (vs_attempt _ _ _ _ (λ s' _,
    up (push (disk_created v bytes) (PendingOp.Namespace (NsOp.Rename t q))) e s')).
  { eapply vs_rename; [exact Hup2|apply survives_created| | |done].
    - rewrite visible_created. apply lookup_insert_eq.
    - by rewrite Hpar. }
  2: { intros s3 err Hf. by apply remove_failed. }
  intros s3 [] Hup3. unfold sync_parent. cbv zeta. apply vs_map_err.
  assert (default current_dir (parent q) = dir) as Hq by (by rewrite parent_join). rewrite Hq.
  assert (touched v (View (ns_renamed v) (v_data v ++ [bytes]) (v_dirs v))) as Hdone.
  { apply touched_intro; [apply ns_renamed_spec|]. right. split; [apply lookup_insert_eq|done]. }
  eapply vs_sync_dir; [exact Hup3| |done| |].
  - apply survives_push; [apply survives_created|]. rewrite visible_created. simpl.
    assert (ns_created v !! t = Some (length (v_data v))) as -> by apply lookup_insert_eq. done.
  - assert (∀ x, in_dir dir (join dir x) = true) as Hin.
    { intros x. unfold in_dir. rewrite parent_join. by apply bool_decide_eq_true. }
    unfold all_in. simpl. repeat constructor; simpl; by rewrite Hin.
  - intros s4 Hup4. rewrite sync_renamed in Hup4. apply (HQ s4 _) in Hup4; [done|].
    split; [done|]. simpl. split_and!; [apply lookup_insert_eq|by rewrite lookup_app_r, Nat.sub_diag|].
    unfold ns_renamed. rewrite lookup_insert_ne by (apply not_eq_sym, temporary_differs). apply lookup_delete_eq.
Qed.
End replace.

(** ** Reading frames *)

Lemma vs_read_some F G D e p i pos w c n Q s :
  up D e s → survives G D → v_data (visible D) !! i = Some c →
  (∀ s', up D e s' →
     Q s' (take n (drop pos c), SimFile.mk p i (pos + Nat.min n (length c - pos)) e w)) →
  view_spec F G (read_some (SimFile.mk p i pos e w) n) Q s.
Proof.
  intros Hup HG Hi HQ. unfold read_some. destruct n as [|n]; cbn [read_some_loop].
  { apply vs_ret. rewrite Nat.min_0_l, Nat.add_0_r in HQ. by apply HQ. }
  apply vs_bind. eapply vs_file_read; [done|done|done|]. intros s1 Hup1.
  assert (length (take (S n) (drop pos c)) = Nat.min (S n) (length c - pos)) as Hlen
    by (by rewrite length_take, length_drop). rewrite Hlen. case_decide as Hz.
  { apply vs_ret. rewrite Hz, Nat.add_0_r in *. apply nil_length_inv in Hlen.
    rewrite <-Hlen. by apply HQ. }
  destruct (decide (S n <= length c - pos)) as [Hle|Hgt].
  { rewrite Nat.min_l in * by done. rewrite Nat.sub_diag. destruct n; by apply vs_ret, HQ. }
  destruct n as [|n]; [lia|]. rewrite Nat.min_r in * by lia.
  destruct (S (S n) - (length c - pos)) as [|m] eqn:Hm; [lia|]. cbn [read_some_loop app].
  apply vs_bind. eapply vs_file_read; [done|done|done|]. intros s2 Hup2.
  rewrite (drop_ge c (pos + (length c - pos))), take_nil by lia. cbn [length]. rewrite decide_True by done.
  apply vs_ret. replace (pos + (length c - pos) + S m `min` (length c - (pos + (length c - pos))))
    with (pos + (length c - pos)) by lia. by apply HQ.
Qed.

Section frames.
Context {hash : Blake3Hash}.

Lemma check_prefix_length fm payload plain pos maximum bytes n :
  format_ok fm payload plain → check_prefix fm pos maximum (take FRAME_PREFIX_LEN bytes) = Ok (inr n) →
  FRAME_PREFIX_LEN <= length bytes.
Proof.
  intros Hfm (bl & Heq & _)%(check_prefix_inv _ _ _ Hfm). apply (f_equal length) in Heq.
  rewrite length_take, length_app, (fo_magic _ _ _ Hfm), length_to_be_bytes in Heq.
  unfold FRAME_PREFIX_LEN in *. cbn [int_bytes] in Heq. lia.
Qed.

Lemma vs_read_frame_with F G D e p i pos w c fm payload plain at_ maximum frame Q s :
  up D e s → survives G D → v_data (visible D) !! i = Some c → format_ok fm payload plain →
  decode_frame fm at_ maximum (drop pos c) = Ok (Complete frame) →
  (∀ s', up D e s' →
     Q s' (Complete frame, SimFile.mk p i (pos + DecodedFrame.encoded_len frame) e w)) →
  view_spec F G (read_frame_with fm (SimFile.mk p i pos e w) at_ maximum) Q s.
Proof.
  intros Hup HG Hi Hfm Hdec HQ. unfold read_frame_with. apply vs_bind, vs_map_err.
  eapply vs_read_some; [done|done|done|]. intros s1 Hup1.
  pose proof (decode_frame_inv fm payload plain Hfm _ _ _ _ Hdec) as (_ & _ & Hlen & rest & Hrest).
  apply result_bind_Ok in Hdec as (r & Hprefix & Hbody). rewrite Hprefix.
  eapply vs_step_bind; [done|done|]. destruct r as [read|n].
  { injection Hbody as ->. by apply check_prefix_incomplete in Hprefix. }
  apply (check_prefix_length fm payload plain) in Hprefix as Hlen12; [|done].
  rewrite length_drop in Hlen12. rewrite Nat.min_l by lia.
  apply vs_bind, vs_map_err. eapply vs_read_some; [done|done|done|]. intros s2 Hup2.
  rewrite <-drop_drop. rewrite Hbody. eapply vs_step_bind; [done|done|]. apply vs_ret.
  assert (n <= length c - (pos + FRAME_PREFIX_LEN) ∧
    DecodedFrame.encoded_len frame = FRAME_PREFIX_LEN + n) as [Hn Heq].
  { unfold check_body in Hbody. case_decide as Hshort; [done|].
    rewrite length_take, !length_drop in Hshort. split; [lia|].
    case_decide; [done|]. apply result_bind_Ok in Hbody as ([rel rec] & _ & Hf). injection Hf as <-.
    cbn [DecodedFrame.encoded_len]. rewrite length_app, !length_take, !length_drop. lia. }
  rewrite Nat.min_l by lia. rewrite <-Nat.add_assoc, <-Heq. by apply HQ.
Qed.

Lemma vs_read_frame F G D e p i pos w c header at_ record rel bytes rest Q s :
  up D e s → survives G D → v_data (visible D) !! i = Some c → drop pos c = bytes ++ rest →
  representable header record → encode_record_any header record rel = Ok bytes →
  (∀ s', up D e s' →
     Q s' (Complete (DecodedFrame.mk rel record (length bytes) bytes),
           SimFile.mk p i (pos + length bytes) e w)) →
  view_spec F G (read_frame_any (AnyHeader.format_version header) (SimFile.mk p i pos e w) at_
    (AnyHeader.max_record_bytes header)) Q s.
Proof.
  intros Hup HG Hi Hdrop Hr He HQ.
  pose proof (decode_any_frame header at_ record rel bytes rest Hr He) as Hdec.
  unfold decode_any in Hdec. rewrite <-Hdrop in Hdec.
  assert (read_frame_any (AnyHeader.format_version header) (SimFile.mk p i pos e w) at_
      (AnyHeader.max_record_bytes header)
    = read_frame_with (format_of header) (SimFile.mk p i pos e w) at_ (AnyHeader.max_record_bytes header)) as ->.
  { by destruct header. }
  eapply vs_read_frame_with; [done|done|done|apply format_of_ok|exact Hdec|done].
Qed.
End frames.

(** ** The commit boundary and the header *)

Section boundary.
Context {hash : Blake3Hash}.

Lemma decode_encode_boundary (b : CommitBoundary) :
  decode_commit_boundary (encode_commit_boundary b) = Ok b.
Proof.
  destruct b as [id offset bytes]. unfold encode_commit_boundary. cbv zeta.
  cbn [boundary_segment_id boundary_committed_offset boundary_content_bytes].
  set (body := COMMIT_MAGIC ++ _). set (sum := to_be_bytes (blake3_hash body)).
  assert (length body = 42 ∧ length sum = 32) as [Hb Hs].
  { subst body sum. rewrite !length_app, !length_to_be_bytes. done. }
  unfold decode_commit_boundary, COMMIT_BOUNDARY_LEN.
  rewrite decide_False by (rewrite length_app; lia). change (8 + 2 + 16 + 8 + 8 + 32 - 32) with 42.
  assert (∀ n m, n + m <= 42 → take m (drop n (body ++ sum)) = take m (drop n body)) as Hin.
  { intros n m Hnm. rewrite drop_app_le by lia. rewrite take_app_le by (rewrite length_drop; lia). done. }
  rewrite (Hin 8 2), (Hin 10 16), (Hin 26 8), (Hin 34 8) by lia.
  pose proof (Hin 0 8 ltac:(lia)) as H8. rewrite !drop_0 in H8. rewrite H8.
  rewrite take_app_length', drop_app_length' by lia.
  assert (∀ n m (xs ys : list u8) {t} (a : int t), length xs = n → int_bytes t = m →
    take m (drop n (xs ++ to_be_bytes a ++ ys)) = to_be_bytes a) as Hfield.
  { intros n m xs ys t a Hn Hm. rewrite drop_app_length' by done.
    apply take_app_length'. rewrite length_to_be_bytes. done. }
  subst body. rewrite decide_False by (rewrite take_app_length'; [by intros []|done]).
  rewrite (Hfield 8 2) by done. rewrite from_to_be_bytes, decide_False by (by intros []).
  subst sum. rewrite decide_False by (by intros []).
  rewrite (assoc_L (++) COMMIT_MAGIC). rewrite (Hfield 10 16) by done.
  rewrite (assoc_L (++) (COMMIT_MAGIC ++ _)). rewrite (Hfield 26 8) by done.
  rewrite (assoc_L (++) ((COMMIT_MAGIC ++ _) ++ _)).
  rewrite <-(app_nil_r (to_be_bytes bytes)). rewrite (Hfield 34 8) by done. by rewrite !from_to_be_bytes.
Qed.

Lemma encode_boundary_nonempty (b : CommitBoundary) : encode_commit_boundary b ≠ [].
Proof. unfold encode_commit_boundary. by destruct b. Qed.
End boundary.

Section header.
Context {hash : Blake3Hash} {fmt : Fmt} {json : HeaderJson} {laws : HeaderJsonLaws}.

Definition encode_any_header (h : AnyHeader.t) : log_result (list u8) :=
  match h with AnyHeader.V1 h => encode_header h | AnyHeader.V2 h => encode_header_v2 h end.

(** What [create_in] and [create_v2_in] check before they write a header. *)
Definition header_valid (h : AnyHeader.t) : Prop :=
  match h with
  | AnyHeader.V1 h =>
      SegmentHeader.format h = FORMAT_NAME ∧ SegmentHeader.version h = FORMAT_VERSION ∧
      SegmentDescriptor.validate (SegmentHeader.descriptor h) = Some (Ok tt) ∧
      SegmentConfig.validate (SegmentHeader.config h) = Ok (SegmentHeader.config h)
  | AnyHeader.V2 h =>
      SegmentHeaderV2.format h = FORMAT_NAME ∧ SegmentHeaderV2.version h = FORMAT_VERSION_V2 ∧
      SegmentDescriptorV2.validate (SegmentHeaderV2.descriptor h) = Some (Ok tt) ∧
      SegmentConfigV2.validate (SegmentHeaderV2.config h) = Ok (SegmentHeaderV2.config h)
  end.

Lemma envelope_parts magic text bytes :
  length magic = 8 → text ≠ [] → encode_header_envelope magic (Ok text) = Ok bytes →
  ∃ len : u32,
    Z.to_nat (ival len) = length text ∧ (0 < ival len <= MAX_HEADER_BYTES)%Z ∧
    bytes = (magic ++ to_be_bytes len) ++ text ++ to_be_bytes (blake3_hash ((magic ++ to_be_bytes len) ++ text)).
Proof.
  intros Hm Ht. unfold encode_header_envelope. intros (len & Hlen & H)%result_bind_Ok. case_decide; [done|].
  apply Ok_inj in H as <-. unfold u32_try_from in Hlen. case_decide as Hr; [|done]. injection Hlen as <-.
  assert (ival (wrap_int U32 (Z.of_nat (length text))) = Z.of_nat (length text)) as Hv by (by apply wrap_int_small).
  exists (wrap_int U32 (Z.of_nat (length text))). split_and!.
  - rewrite Hv. lia.
  - rewrite Hv. destruct text; [done|]. simpl. lia.
  - lia.
  - unfold seal_frame. by rewrite <-!(assoc_L (++)).
Qed.

Lemma vs_read_envelope F G D e p i pos w c magic text bytes rest Q s :
  up D e s → survives G D → v_data (visible D) !! i = Some c → c = bytes ++ rest →
  length magic = 8 → text ≠ [] → encode_header_envelope magic (Ok text) = Ok bytes →
  (∀ s' pos', up D e s' → Q s' (text, length bytes, SimFile.mk p i pos' e w)) →
  view_spec F G (read_envelope magic (SimFile.mk p i pos e w)) Q s.
Proof.
  intros Hup HG Hi -> Hm Ht (len & Hlen & Hbound & ->)%envelope_parts HQ; [|done|done].
  set (prefix := magic ++ to_be_bytes len) in *. set (sum := to_be_bytes (blake3_hash (prefix ++ text))) in *.
  assert (length prefix = 12) as Hp12 by (subst prefix; rewrite length_app, Hm, length_to_be_bytes; done).
  assert (length sum = 32) as Hs32 by (subst sum; by rewrite length_to_be_bytes).
  rewrite <-!(assoc_L (++)) in Hi.
  unfold read_envelope. apply vs_bind, vs_map_err.
  eapply vs_file_seek; [done|done|done|by instantiate (1 := 0)|done|]. clear s Hup. intros s Hup.
  apply vs_bind, vs_map_err. eapply vs_read_exact; [done|done|done|rewrite !length_app; lia|].
  clear s Hup. intros s Hup. rewrite drop_0, take_app_length' by done.
  assert (take 8 prefix = magic) as -> by (subst prefix; by rewrite take_app_length').
  rewrite decide_False by (by intros []). cbv zeta.
  assert (from_be_bytes U32 (drop 8 prefix) = len) as ->.
  { subst prefix. rewrite drop_app_length' by done. by rewrite from_to_be_bytes. }
  rewrite decide_False by lia. rewrite Hlen. apply vs_bind, vs_map_err.
  eapply vs_read_exact; [done|done|done|rewrite !length_app; lia|]. clear s Hup. intros s Hup.
  rewrite drop_app_length' by lia. rewrite take_app_length' by done. apply vs_bind, vs_map_err.
  eapply vs_read_exact; [done|done|done|rewrite !length_app; unfold CHECKSUM_LEN; lia|]. clear s Hup. intros s Hup.
  rewrite (assoc_L (++) prefix), drop_app_length' by (rewrite length_app; lia).
  rewrite take_app_length' by done. fold sum. rewrite decide_False by (by intros []). apply vs_ret.
  replace (12 + length text + CHECKSUM_LEN) with (length (prefix ++ text ++ sum)); [by apply HQ|].
  rewrite !length_app. unfold CHECKSUM_LEN. lia.
Qed.

Lemma vs_read_header F G D e p i pos w c h hb rest path Q s :
  up D e s → survives G D → v_data (visible D) !! i = Some c → c = hb ++ rest →
  encode_any_header h = Ok hb → header_valid h →
  (∀ s' pos', up D e s' → Q s' (h, length hb, SimFile.mk p i pos' e w)) →
  view_spec F G (read_header_with_path (SimFile.mk p i pos e w) path) Q s.
Proof.
  intros Hup HG Hi -> Henc Hvalid HQ. unfold read_header_with_path, read_header. apply vs_map_err.
  apply vs_bind, vs_map_err. eapply vs_file_seek; [done|done|done|by instantiate (1 := 0)|done|].
  clear s Hup. intros s Hup.
  assert (∃ magic text, length magic = 8 ∧ text ≠ [] ∧ encode_header_envelope magic (Ok text) = Ok hb ∧
    match h with
    | AnyHeader.V1 h => magic = HEADER_MAGIC ∧ from_slice_v1 text = Ok h
    | AnyHeader.V2 h => magic = HEADER_MAGIC_V2 ∧ from_slice_v2 text = Ok h
    end) as (magic & text & Hm & Ht & Henv & Hjson).
  { destruct h as [h|h]; simpl in Henc; unfold encode_header, encode_header_v2 in Henc.
    - destruct (to_vec_v1 h) as [text|] eqn:Hv; [|done]. apply json_v1 in Hv as [Hs Ht].
      by exists HEADER_MAGIC, text.
    - destruct (to_vec_v2 h) as [text|] eqn:Hv; [|done]. apply json_v2 in Hv as [Hs Ht].
      by exists HEADER_MAGIC_V2, text. }
  destruct (envelope_parts magic text hb Hm Ht Henv) as (len & _ & _ & Hhb).
  assert (take 8 (hb ++ rest) = magic ∧ 8 <= length (hb ++ rest)) as [Htake Hlen].
  { rewrite Hhb, <-!(assoc_L (++)), take_app_length', length_app by done. split; [done|lia]. }
  apply vs_bind, vs_map_err. eapply vs_read_exact; [done|done|done|done|]. clear s Hup. intros s Hup.
  rewrite drop_0, Htake. destruct h as [h|h]; destruct Hjson as [-> Hjson], Hvalid as (Hf & Hv & Hd & Hc).
  - rewrite decide_True by done. apply vs_bind. unfold read_header_v1. apply vs_bind.
    eapply vs_read_envelope; [done|done|done|done|done|done|done|]. clear s Hup. intros s pos' Hup.
    rewrite Hjson. do 4 (eapply vs_step_bind; [|done|];
      [by rewrite ?Hf, ?Hv; unfold sim_panic; rewrite ?Hd; unfold sim_lift; rewrite ?Hc|]).
    apply vs_ret. by apply vs_ret, HQ.
  - rewrite decide_False by done. rewrite decide_True by done. apply vs_bind. unfold read_header_v2. apply vs_bind.
    eapply vs_read_envelope; [done|done|done|done|done|done|done|]. clear s Hup. intros s pos' Hup.
    rewrite Hjson. do 4 (eapply vs_step_bind; [|done|];
      [by rewrite ?Hf, ?Hv; unfold sim_panic; rewrite ?Hd; unfold sim_lift; rewrite ?Hc|]).
    apply vs_ret. by apply vs_ret, HQ.
Qed.
End header.
