(* ===== verification/SegmentLog.v ===== *)
(** A segment as the log it stores: the frames of its records one after the other, the
    producer state, the sparse index and the content commitment they determine, and what
    the scan, the search for an offset and the reads find in a file that holds them. *)

From stdpp Require Import prelude strings list gmap pretty.
From Stdlib Require Import ZArith Lia.
From S2P Require Import Prelude Wire Placement Flow Storage DiskLogic ChunkTree LogTypes RecordCodec DiskView.
From S2P Require Import ProducerState ProducerSnapshot SegmentFiles SegmentScan ActiveSegment LogDisk.
#[local] Open Scope nat_scope.

Section log.
Context {hash : Blake3Hash} {tree : Blake3} {fmt : Fmt}.

(** ** The bytes of a log *)

(** The frames of records at relative offsets from [n] on. *)
Fixpoint encode_log (h : AnyHeader.t) (n : nat) (log : list LogRecord.t) : log_result (list (list u8)) :=
  match log with
  | [] => Ok []
  | r :: log =>
      b ← encode_record_any h r (nat_u64 n);
      bs ← encode_log h (S n) log;
      Ok (b :: bs)
  end.

Lemma encode_log_app h n log log' bs :
  encode_log h n (log ++ log') = Ok bs ↔
  ∃ xs ys, encode_log h n log = Ok xs ∧ encode_log h (n + length log) log' = Ok ys ∧ bs = xs ++ ys.
Proof.
  revert n bs. induction log as [|r log IH]; intros n bs; simpl.
  { rewrite Nat.add_0_r. split; [intros Hb; by exists [], bs|]. by intros (xs & ys & [= <-] & Hy & ->). }
  destruct (encode_record_any h r (nat_u64 n)) as [b|]; simpl; [|split; [done|by intros (?&?&?&_)]].
  rewrite <-Nat.add_succ_comm. split.
  - intros (bs' & Hbs & [= <-])%result_bind_Ok. apply IH in Hbs as (xs & ys & Hx & Hy & ->).
    exists (b :: xs), ys. by rewrite Hx.
  - intros (xs & ys & Hx & Hy & ->). apply result_bind_Ok in Hx as (xs' & Hx & [= <-]).
    assert (encode_log h (S n) (log ++ log') = Ok (xs' ++ ys)) as -> by (apply IH; eauto). done.
Qed.

Lemma encode_log_length h n log bs : encode_log h n log = Ok bs → length bs = length log.
Proof.
  revert n bs. induction log as [|r log IH]; intros n bs; simpl; [by intros [= <-]|].
  intros (b & _ & (bs' & Hbs & [= <-])%result_bind_Ok)%result_bind_Ok. simpl. f_equal. by eapply IH.
Qed.

Lemma encode_log_take h n log bs k :
  encode_log h n log = Ok bs → encode_log h n (take k log) = Ok (take k bs).
Proof.
  intros Hbs. rewrite <-(take_drop k log) in Hbs. apply encode_log_app in Hbs as (xs & ys & Hx & Hy & ->).
  rewrite Hx. f_equal. apply encode_log_length in Hx as Hlx. apply encode_log_length in Hy as Hly.
  rewrite length_take in Hlx. rewrite length_drop in Hly.
  destruct (decide (k <= length log)).
  - by rewrite take_app_length' by lia.
  - rewrite take_ge; [|rewrite length_app; lia]. destruct ys; [by rewrite app_nil_r|simpl in Hly; lia].
Qed.

(** The sparse index of frames from record [n] and position [pos] on. *)
Fixpoint index_from (h : AnyHeader.t) (n pos : nat) (bs : list (list u8)) : list IndexEntry.t :=
  match bs with
  | [] => []
  | b :: bs =>
      (if is_multiple_of (Z.of_nat n) (AnyHeader.index_stride h)
       then [IndexEntry.mk (offset_at (AnyHeader.base_offset h) n) pos] else [])
      ++ index_from h (S n) (pos + length b) bs
  end.

Lemma index_from_app h n pos xs ys :
  index_from h n pos (xs ++ ys)
  = index_from h n pos xs ++ index_from h (n + length xs) (pos + length (concat xs)) ys.
Proof.
  revert n pos. induction xs as [|x xs IH]; intros n pos; simpl; [by rewrite !Nat.add_0_r|].
  rewrite IH, <-(assoc_L (++)), length_app. do 3 f_equal; lia.
Qed.

Definition accumulate (acc : ContentAccumulator.t) (bs : list (list u8)) : ContentAccumulator.t :=
  foldl (λ acc b, ContentAccumulator.update b acc) acc bs.

(** ** A log that a segment can hold *)

Record log_ok (h : AnyHeader.t) (T0 : tracker) (log : list LogRecord.t) (bs : list (list u8))
    (T : tracker) : Prop := {
  lo_frames : encode_log h 0 log = Ok bs;
  lo_representable : Forall (representable h) log;
  lo_replay : replay T0 (AnyHeader.base_offset h) 0 log = Some T;
  lo_bytes : (Z.of_nat (length (concat bs)) <= AnyHeader.max_segment_bytes h)%Z;
  lo_records : (Z.of_nat (length log) <= AnyHeader.max_segment_records h)%Z;
  lo_offsets : (AnyHeader.base_offset h + Z.of_nat (length log) <= 18446744073709551615)%Z;
}.

Lemma log_ok_take h T0 log bs T k :
  log_ok h T0 log bs T → ∃ T', log_ok h T0 (take k log) (take k bs) T'.
Proof.
  intros [Hf Hr Hrep Hb Hrec Ho]. rewrite <-(take_drop k log), replay_app in Hrep.
  apply bind_Some in Hrep as (T' & Hrep & _). exists T'. split; [by apply encode_log_take| |done|..].
  - by apply Forall_take.
  - rewrite <-(take_drop k bs), concat_app, length_app in Hb. lia.
  - rewrite length_take. lia.
  - rewrite length_take. lia.
Qed.

Lemma log_ok_nil h T0 : log_ok h T0 [] [] T0.
Proof.
  pose proof (u64_bounds (AnyHeader.base_offset h)). pose proof (u64_bounds (AnyHeader.max_segment_bytes h)).
  pose proof (u64_bounds (AnyHeader.max_segment_records h)). split; simpl; try done; lia.
Qed.

Lemma offset_at_val h T0 log bs T n :
  log_ok h T0 log bs T → n <= length log →
  ival (offset_at (AnyHeader.base_offset h) n) = (AnyHeader.base_offset h + Z.of_nat n)%Z.
Proof.
  intros Hok Hn. pose proof (lo_offsets _ _ _ _ _ Hok). pose proof (u64_bounds (AnyHeader.base_offset h)).
  apply wrap_int_small. change (int_min U64) with 0%Z. change (int_max U64) with 18446744073709551615%Z. lia.
Qed.

(** The next record of a log: its frame, what it needs of the state and what it leaves. *)
Lemma log_ok_split h T0 log r log' bs T :
  log_ok h T0 (log ++ r :: log') bs T →
  ∃ xs b ys T1,
    bs = xs ++ b :: ys ∧ length xs = length log ∧ log_ok h T0 log xs T1 ∧
    encode_record_any h r (nat_u64 (length log)) = Ok b ∧ representable h r ∧
    validate T1 r = Ok Append ∧
    log_ok h T0 (log ++ [r]) (xs ++ [b]) (remember T1 r (offset_at (AnyHeader.base_offset h) (length log))).
Proof.
  intros Hok. destruct (log_ok_take _ _ _ _ _ (length log) Hok) as [T1 H1].
  destruct (log_ok_take _ _ _ _ _ (S (length log)) Hok) as [T2 H2].
  destruct Hok as [Hf Hr Hrep _ _ _]. apply encode_log_app in Hf as (xs & zs & Hx & Hz & ->).
  simpl in Hz. apply result_bind_Ok in Hz as (b & Hb & Hz). apply result_bind_Ok in Hz as (ys & _ & [= <-]).
  apply encode_log_length in Hx as Hlen. rewrite take_app_length, take_app_length' in H1 by done.
  change (log ++ r :: log') with (log ++ [r] ++ log') in H2. change (xs ++ b :: ys) with (xs ++ [b] ++ ys) in H2.
  rewrite !(assoc_L (++)), !take_app_length' in H2 by (rewrite length_app; simpl; lia).
  exists xs, b, ys, T1. split_and!; try done.
  - by apply Forall_app in Hr as [_ [Hr _]%Forall_cons].
  - pose proof (lo_replay _ _ _ _ _ H2) as Hrep2. rewrite replay_app, (lo_replay _ _ _ _ _ H1) in Hrep2.
    simpl in Hrep2. by destruct (validate T1 r) as [[]|].
  - pose proof (lo_replay _ _ _ _ _ H2) as Hrep2. rewrite replay_app, (lo_replay _ _ _ _ _ H1) in Hrep2.
    simpl in Hrep2. destruct (validate T1 r) as [[]|]; [|done..]. by injection Hrep2 as ->.
Qed.

(** ** What a scan finds *)

(** The state of the scan after the records of [log]. *)
Definition scan_state (h : AnyHeader.t) (hl : nat) (acc0 : ContentAccumulator.t)
    (log : list LogRecord.t) (bs : list (list u8)) (T : tracker) : ScanResult.t :=
  ScanResult.mk (length log) (hl + length (concat bs)) 0
    (offset_at (AnyHeader.base_offset h) (length log)) T.1 T.2 (index_from h 0 hl bs)
    (accumulate acc0 bs).

Lemma offset_at_succ (base : u64) n :
  (base + Z.of_nat (S n) <= 18446744073709551615)%Z →
  checked_succ (offset_at base n) = Some (offset_at base (S n)).
Proof.
  intros Hn. pose proof (u64_bounds base). apply try_int_Some. unfold offset_at.
  assert (∀ z, (0 <= z <= 18446744073709551615)%Z → ival (wrap_int U64 z) = z) as Hw
    by (intros; by apply wrap_int_small). rewrite !Hw by lia. rewrite ival_one. lia.
Qed.

Lemma scan_frame_next h hl acc0 T0 log r log' bs T xs b ys T1 file_len :
  log_ok h T0 (log ++ r :: log') bs T → bs = xs ++ b :: ys → length xs = length log →
  validate T1 r = Ok Append →
  log_ok h T0 (log ++ [r]) (xs ++ [b]) (remember T1 r (offset_at (AnyHeader.base_offset h) (length log))) →
  hl + length (concat bs) <= file_len →
  scan_frame h hl file_len (DecodedFrame.mk (nat_u64 (length log)) r (length b) b)
    (scan_state h hl acc0 log xs T1)
  = Ok (scan_state h hl acc0 (log ++ [r]) (xs ++ [b])
          (remember T1 r (offset_at (AnyHeader.base_offset h) (length log)))).
Proof.
  intros Hok -> Hlen Hval [_ _ _ Hbytes Hrecs Hoffs] Hfile.
  rewrite concat_app, concat_cons, !length_app in Hfile. rewrite concat_app, length_app in Hbytes. simpl in Hbytes.
  rewrite app_nil_r in Hbytes. rewrite length_app in Hrecs, Hoffs. simpl in Hrecs, Hoffs.
  unfold scan_frame, scan_state. cbn [ScanResult.valid_end ScanResult.records DecodedFrame.encoded_len
    DecodedFrame.record DecodedFrame.relative_offset DecodedFrame.encoded ScanResult.producer_states
    ScanResult.producer_epochs ScanResult.index ScanResult.next_offset ScanResult.accumulator
    ScanResult.truncated_bytes].
  rewrite !decide_False; [|by intros []|lia|lia|lia].
  unfold validate in Hval. rewrite Hval. cbv zeta.
  rewrite (surjective_pairing (remember_sequence _ _ _ _ _)).
  rewrite offset_at_succ by lia. cbn [ok_or mbind result_bind]. f_equal.
  rewrite length_app, concat_app, length_app, index_from_app, Hlen. simpl.
  rewrite Nat.add_1_r, app_nil_r, Nat.add_assoc. f_equal.
  - by case_match; [|rewrite app_nil_r].
  - unfold accumulate. by rewrite foldl_app.
Qed.

Lemma vs_scan_loop F G D e p i w c path h hl acc0 T0 full bs T pre rest permit fuel log todo xs ys T1 Q s :
  up D e s → survives G D → v_data (visible D) !! i = Some c →
  log_ok h T0 full bs T → c = pre ++ concat bs ++ rest → length pre = hl →
  full = log ++ todo → bs = xs ++ ys → log_ok h T0 log xs T1 → length todo < fuel →
  (∀ s', up D e s' → Q s' (scan_state h hl acc0 full bs T, SimFile.mk p i (hl + length (concat bs)) e w)) →
  view_spec F G (scan_loop fuel (SimFile.mk p i (hl + length (concat xs)) e w) path h hl
    (hl + length (concat bs)) permit (scan_state h hl acc0 log xs T1)) Q s.
Proof.
  intros Hup HG Hi Hok Hc Hpre. revert log xs ys T1 fuel s Hup.
  induction todo as [|r todo IH]; intros log xs ys T1 fuel s Hup -> -> H1 Hfuel HQ.
  { rewrite app_nil_r in *. pose proof (encode_log_length _ _ _ _ (lo_frames _ _ _ _ _ Hok)) as Hl.
    pose proof (encode_log_length _ _ _ _ (lo_frames _ _ _ _ _ H1)) as Hl1.
    rewrite length_app in Hl. destruct ys as [|y ys]; [|simpl in Hl; lia]. rewrite app_nil_r in *.
    destruct fuel as [|fuel]; [lia|]. cbn [scan_loop]. rewrite decide_True by done.
    assert (T1 = T) as -> by (pose proof (lo_replay _ _ _ _ _ Hok); pose proof (lo_replay _ _ _ _ _ H1); congruence).
    by apply vs_ret, HQ. }
  destruct (log_ok_split _ _ _ _ _ _ _ Hok) as (xs' & b & ys' & T1' & Hbs & Hlx & Hlog & Henc & Hrepr & Hval & Hnext).
  assert (xs' = xs) as -> by (pose proof (lo_frames _ _ _ _ _ Hlog); pose proof (lo_frames _ _ _ _ _ H1); congruence).
  assert (T1' = T1) as -> by (pose proof (lo_replay _ _ _ _ _ Hlog); pose proof (lo_replay _ _ _ _ _ H1); congruence).
  apply app_inv_head in Hbs as ->. destruct fuel as [|fuel]; [simpl in Hfuel; lia|]. cbn [scan_loop].
  pose proof (encode_any_length _ _ _ _ Hrepr Henc) as Hblen. unfold FRAME_PREFIX_LEN in Hblen.
  change (ScanResult.valid_end (scan_state h hl acc0 log xs T1)) with (hl + length (concat xs)).
  rewrite !decide_False by (rewrite concat_app, concat_cons, !length_app; lia).
  apply vs_bind, vs_map_err. eapply vs_read_frame; [done|done|done| |done|done|].
  { rewrite Hc, concat_app, concat_cons, <-!(assoc_L (++)).
    rewrite (assoc_L (++) pre), drop_app_length' by (rewrite length_app; lia). done. }
  clear s Hup. intros s Hup. eapply vs_step_bind; [|done|].
  { unfold sim_lift. erewrite scan_frame_next; [done|exact Hok|done|done|done|done|lia]. }
  assert (log ++ r :: todo = (log ++ [r]) ++ todo) as Hfull by (by rewrite <-(assoc_L (++))).
  assert (xs ++ b :: ys' = (xs ++ [b]) ++ ys') as Hbs by (by rewrite <-(assoc_L (++))).
  replace (hl + length (concat xs) + length b) with (hl + length (concat (xs ++ [b])))
    by (rewrite concat_app, length_app; simpl; rewrite app_nil_r; lia).
  eapply IH; [done|exact Hfull|exact Hbs|done|simpl in Hfuel; lia|done].
Qed.

Lemma encode_log_bytes h n log bs :
  encode_log h n log = Ok bs → Forall (representable h) log → length log <= length (concat bs).
Proof.
  revert n bs. induction log as [|r log IH]; intros n bs; simpl; [lia|].
  intros (b & Hb & (bs' & Hbs & [= <-])%result_bind_Ok)%result_bind_Ok [Hr Hrs]%Forall_cons.
  apply encode_any_length in Hb; [|done]. unfold FRAME_PREFIX_LEN in Hb. apply IH in Hbs; [|done].
  rewrite concat_cons, length_app. lia.
Qed.

(** The producer state a segment starts from. *)
Definition inherited_tracker (inherited : ProducerSnapshot.t) : tracker :=
  (inherited_states inherited, ProducerSnapshot.epochs inherited).

(** The result of a scan of the records of [log], with [extra] bytes after them. *)
Definition scan_result (h : AnyHeader.t) (hl : nat) (acc0 : ContentAccumulator.t)
    (log : list LogRecord.t) (bs : list (list u8)) (T : tracker) (extra : nat) : ScanResult.t :=
  ScanResult.mk (length log) (hl + length (concat bs)) extra
    (offset_at (AnyHeader.base_offset h) (length log)) T.1 T.2 (index_from h 0 hl bs)
    (accumulate acc0 bs).

Lemma vs_scan_records F G D e p i pos w c path h inherited acc0 log bs T pre rest logical_end Q s :
  up D e s → survives G D → v_data (visible D) !! i = Some c →
  log_ok h (inherited_tracker inherited) log bs T → c = pre ++ concat bs ++ rest →
  (Z.of_nat (length pre) < u64_end)%Z → ContentAccumulator.for_header h = Some acc0 →
  default (length c) logical_end = length pre + length (concat bs) →
  (∀ s' pos', up D e s' →
     Q s' (scan_result h (length pre) acc0 log bs T (length rest), SimFile.mk p i pos' e w)) →
  view_spec F G (scan_records (SimFile.mk p i pos e w) path h (length pre) logical_end false inherited) Q s.
Proof.
  intros Hup HG Hi Hok Hc Hpre Hacc Hend HQ. unfold scan_records.
  apply vs_bind, vs_map_err. eapply vs_file_seek; [done|done|done|done|done|]. clear s Hup. intros s Hup.
  apply vs_bind, vs_map_err. eapply vs_file_len; [done|done|done|]. clear s Hup. intros s Hup. cbv zeta.
  rewrite Hend. assert (length c = length pre + length (concat bs) + length rest) as Hlen
    by (rewrite Hc, !length_app; lia).
  rewrite decide_False by lia. rewrite Hacc. eapply vs_step_bind; [done|done|]. apply vs_bind.
  assert (scan_state h (length pre) acc0 [] [] (inherited_tracker inherited)
    = ScanResult.mk 0 (length pre) 0 (AnyHeader.base_offset h) (inherited_states inherited)
        (ProducerSnapshot.epochs inherited) [] acc0) as <-.
  { unfold scan_state. simpl. rewrite Nat.add_0_r. f_equal. unfold offset_at.
    rewrite Z.add_0_r. apply wrap_int_ival. }
  assert (SimFile.mk p i (length pre) e w
    = SimFile.mk p i (length pre + length (concat ([] : list (list u8)))) e w) as -> by (simpl; f_equal; lia).
  eapply (vs_scan_loop _ _ _ _ _ _ _ _ _ _ _ _ _ log bs T pre rest _ _ [] log [] bs);
    [done|done|done|done|done|done|done|done|apply log_ok_nil| |].
  - pose proof (encode_log_bytes _ _ _ _ (lo_frames _ _ _ _ _ Hok) (lo_representable _ _ _ _ _ Hok)). lia.
  - clear s Hup. intros s Hup. apply vs_ret. unfold scan_state. cbn [ScanResult.valid_end ScanResult.records
      ScanResult.next_offset ScanResult.producer_states ScanResult.producer_epochs ScanResult.index
      ScanResult.accumulator].
    replace (length c - (length pre + length (concat bs))) with (length rest) by lia. by apply HQ.
Qed.

(** ** Finding an offset *)

(** Where the [k]-th frame begins. *)
Definition frame_start (hl : nat) (bs : list (list u8)) (k : nat) : nat := hl + length (concat (take k bs)).

Lemma elem_of_index_from h n pos bs entry :
  entry ∈ index_from h n pos bs →
  ∃ m, m < length bs ∧ entry = IndexEntry.mk (offset_at (AnyHeader.base_offset h) (n + m)) (frame_start pos bs m).
Proof.
  revert n pos. induction bs as [|b bs IH]; intros n pos; simpl; [by intros ?%not_elem_of_nil|].
  rewrite elem_of_app. intros [Hin|Hin].
  - case_match; [|by apply not_elem_of_nil in Hin]. apply list_elem_of_singleton in Hin as ->.
    exists 0. split; [lia|]. unfold frame_start. simpl. by rewrite !Nat.add_0_r.
  - apply IH in Hin as (m & Hm & ->). exists (S m). split; [lia|]. unfold frame_start. simpl.
    rewrite length_app. f_equal; [f_equal|]; lia.
Qed.

Lemma index_entry_start h hl T0 log bs T k :
  log_ok h T0 log bs T → k <= length log →
  ∃ m, m <= k ∧ index_entry h hl (index_from h 0 hl bs) (offset_at (AnyHeader.base_offset h) k)
    = IndexEntry.mk (offset_at (AnyHeader.base_offset h) m) (frame_start hl bs m).
Proof.
  intros Hok Hk. pose proof (encode_log_length _ _ _ _ (lo_frames _ _ _ _ _ Hok)) as Hlen.
  unfold index_entry. destruct (list_find _ _) as [[n entry]|] eqn:Hfind; simpl.
  - apply list_find_Some in Hfind as (Hin & Hle & _).
    apply list_elem_of_lookup_2 in Hin. rewrite elem_of_reverse in Hin.
    apply elem_of_index_from in Hin as (m & Hm & ->). cbn [IndexEntry.offset Nat.add] in Hle.
    rewrite !(offset_at_val h T0 log bs T) in Hle by (done || lia). exists m. split; [lia|done].
  - exists 0. split; [lia|]. unfold frame_start, offset_at. simpl. rewrite Z.add_0_r, wrap_int_ival, Nat.add_0_r.
    done.
Qed.

Lemma relative_at h T0 log bs T n :
  log_ok h T0 log bs T → n <= length log →
  wrapping_sub (offset_at (AnyHeader.base_offset h) n) (AnyHeader.base_offset h) = nat_u64 n.
Proof.
  intros Hok Hn. unfold wrapping_sub, nat_u64. rewrite (offset_at_val h T0 log bs T) by done. f_equal. lia.
Qed.

Lemma wrapping_succ_at h T0 log bs T n :
  log_ok h T0 log bs T → n < length log →
  wrapping_succ (offset_at (AnyHeader.base_offset h) n) = offset_at (AnyHeader.base_offset h) (S n).
Proof.
  intros Hok Hn. apply int_eq. rewrite (offset_at_val h T0 log bs T) by (done || lia).
  rewrite wrapping_succ_u64; rewrite (offset_at_val h T0 log bs T) by (done || lia); [lia|].
  pose proof (lo_offsets _ _ _ _ _ Hok). rewrite u64_MAX_val. lia.
Qed.

(** The frame of the [n]-th record, in the file. *)
Lemma log_ok_lookup h T0 log bs T n r c pre rest :
  log_ok h T0 log bs T → log !! n = Some r → c = pre ++ concat bs ++ rest →
  ∃ b rest', bs !! n = Some b ∧ representable h r ∧ encode_record_any h r (nat_u64 n) = Ok b ∧
    drop (frame_start (length pre) bs n) c = b ++ rest' ∧
    frame_start (length pre) bs (S n) = frame_start (length pre) bs n + length b.
Proof.
  intros Hok Hr ->. apply lookup_lt_Some in Hr as Hn.
  rewrite <-(take_drop_middle log n r Hr) in Hok.
  destruct (log_ok_split _ _ _ _ _ _ _ Hok) as (xs & b & ys & T1 & -> & Hlx & _ & Henc & Hrepr & _).
  rewrite length_take, Nat.min_l in Hlx, Henc by lia.
  exists b, (concat ys ++ rest). unfold frame_start.
  assert (take n (xs ++ b :: ys) = xs) as -> by (by rewrite take_app_length').
  assert (take (S n) (xs ++ b :: ys) = xs ++ [b]) as ->.
  { change (b :: ys) with ([b] ++ ys). rewrite (assoc_L (++)), take_app_length'; [done|]. rewrite length_app. simpl. lia. }
  split_and!; [|done|done| |].
  - by rewrite lookup_app_r, Hlx, Nat.sub_diag by lia.
  - rewrite concat_app, concat_cons, <-!(assoc_L (++)).
    rewrite (assoc_L (++) pre), drop_app_length' by (by rewrite length_app). done.
  - rewrite concat_app, length_app. simpl. rewrite app_nil_r. lia.
Qed.

Lemma vs_position_loop F G D e p i w c path h T0 log bs T pre rest k m Q s :
  up D e s → survives G D → v_data (visible D) !! i = Some c →
  log_ok h T0 log bs T → c = pre ++ concat bs ++ rest → m <= k → k <= length log →
  (∀ s' pos', up D e s' → Q s' (frame_start (length pre) bs k, SimFile.mk p i pos' e w)) →
  view_spec F G (position_loop (k - m) (SimFile.mk p i (frame_start (length pre) bs m) e w) path h
    (offset_at (AnyHeader.base_offset h) k) (offset_at (AnyHeader.base_offset h) m)
    (frame_start (length pre) bs m)) Q s.
Proof.
  intros Hup HG Hi Hok Hc Hmk Hk HQ. remember (k - m) as fuel eqn:Hfuel. revert m s Hup Hfuel Hmk.
  induction fuel as [|fuel IH]; intros m s Hup Hfuel Hmk; cbn [position_loop].
  { assert (m = k) as -> by lia. by apply vs_ret, HQ. }
  rewrite decide_False by (rewrite !(offset_at_val h T0 log bs T) by (done || lia); lia).
  destruct (lookup_lt_is_Some_2 log m ltac:(lia)) as [r Hr].
  destruct (log_ok_lookup _ _ _ _ _ _ _ c pre rest Hok Hr Hc) as (b & rest' & Hb & Hrepr & Henc & Hdrop & Hnext).
  apply vs_bind, vs_map_err. eapply vs_read_frame; [done|done|done|done|done|done|].
  clear s Hup. intros s Hup. cbv zeta. cbn [DecodedFrame.relative_offset DecodedFrame.encoded_len].
  rewrite (relative_at h T0 log bs T) by (done || lia). rewrite decide_False by (by intros []).
  rewrite (wrapping_succ_at h T0 log bs T) by (done || lia). rewrite <-Hnext. apply IH; [done|lia|lia].
Qed.

Lemma vs_position_of_offset F G D e p i pos w c path h T0 log bs T pre rest k Q s :
  up D e s → survives G D → v_data (visible D) !! i = Some c →
  log_ok h T0 log bs T → c = pre ++ concat bs ++ rest → k <= length log →
  (Z.of_nat (length c) < u64_end)%Z →
  (∀ s' pos', up D e s' → Q s' (frame_start (length pre) bs k, SimFile.mk p i pos' e w)) →
  view_spec F G (position_of_offset (SimFile.mk p i pos e w) path h (length pre)
    (index_from h 0 (length pre) bs) (offset_at (AnyHeader.base_offset h) k)) Q s.
Proof.
  intros Hup HG Hi Hok Hc Hk Hlen HQ. unfold position_of_offset.
  case_decide as Hle.
  { rewrite (offset_at_val h T0 log bs T) in Hle by done. assert (k = 0) as -> by lia.
    apply vs_ret. unfold frame_start in HQ. simpl in HQ. rewrite Nat.add_0_r in HQ. by apply HQ. }
  destruct (index_entry_start h (length pre) T0 log bs T k Hok Hk) as (m & Hm & ->). cbv zeta.
  cbn [IndexEntry.position IndexEntry.offset]. apply vs_bind, vs_map_err.
  assert (frame_start (length pre) bs m <= length c) as Hstart.
  { rewrite Hc, !length_app. unfold frame_start. rewrite <-(take_drop m bs) at 2. rewrite concat_app, length_app. lia. }
  eapply vs_file_seek; [done|done|done|done|lia|]. clear s Hup. intros s Hup.
  replace (Z.to_nat (ival (offset_at (AnyHeader.base_offset h) k) - ival (offset_at (AnyHeader.base_offset h) m))) with (k - m)
    by (rewrite !(offset_at_val h T0 log bs T) by (done || lia); lia).
  by eapply vs_position_loop.
Qed.

(** ** Reading below a watermark *)

(** The longest run of records from the [n]-th on within the limits: the records with
    their offsets, the bytes of their frames, and where the next fetch continues. *)
Fixpoint batch (base : u64) (n : nat) (items : list (LogRecord.t * list u8)) (max_bytes max_records : nat)
    : list (u64 * LogRecord.t) * nat * nat :=
  match items, max_records with
  | (r, b) :: items, S max_records =>
      if decide (length b <= max_bytes) then
        let '(rs, used, next) := batch base (S n) items (max_bytes - length b) max_records in
        ((offset_at base n, r) :: rs, length b + used, next)
      else ([], 0, n)
  | _, _ => ([], 0, n)
  end.

Lemma vs_fetch_collect F G D e p i w c path h T0 log bs T pre rest hw a n max_bytes max_records acc used Q s :
  up D e s → survives G D → v_data (visible D) !! i = Some c →
  log_ok h T0 log bs T → c = pre ++ concat bs ++ rest → a <= n → n <= hw → hw <= length log →
  used <= max_bytes → length acc <= max_records →
  (∀ s' pos' rs b next, up D e s' →
     batch (AnyHeader.base_offset h) n (zip (take (hw - n) (drop n log)) (take (hw - n) (drop n bs)))
       (max_bytes - used) (max_records - length acc) = (rs, b, next) →
     Q s' (acc ++ rs, used + b, offset_at (AnyHeader.base_offset h) next, SimFile.mk p i pos' e w)) →
  view_spec F G (fetch_loop (hw - n) (SimFile.mk p i (frame_start (length pre) bs n) e w) path h
    (offset_at (AnyHeader.base_offset h) hw) (offset_at (AnyHeader.base_offset h) a) max_bytes max_records
    (offset_at (AnyHeader.base_offset h) n) (frame_start (length pre) bs n) acc used) Q s.
Proof.
  intros Hup HG Hi Hok Hc Han Hn Hhw. remember (hw - n) as fuel eqn:Hfuel.
  revert n acc used s Hup Han Hn Hfuel. induction fuel as [|fuel IH]; intros n acc used s Hup Han Hn Hfuel Hused Hacc HQ;
    cbn [fetch_loop].
  { apply vs_ret. eapply HQ in Hup; [|done]. by rewrite app_nil_r, Nat.add_0_r in Hup. }
  destruct (lookup_lt_is_Some_2 log n ltac:(lia)) as [r Hr].
  destruct (log_ok_lookup _ _ _ _ _ _ _ c pre rest Hok Hr Hc) as (b & rest' & Hb & Hrepr & Henc & Hdrop & Hnext).
  rewrite (drop_S log r n Hr), (drop_S bs b n Hb) in HQ. cbn [take zip zip_with batch] in HQ.
  destruct (decide (length acc < max_records)) as [Hroom|Hfull].
  2: { rewrite decide_False by lia. apply vs_ret. replace (max_records - length acc) with 0 in HQ by lia.
       eapply HQ in Hup; [|done]. by rewrite app_nil_r, Nat.add_0_r in Hup. }
  rewrite decide_True by (split; [rewrite !(offset_at_val h T0 log bs T) by (done || lia)|]; lia).
  apply vs_bind, vs_map_err. eapply vs_read_frame; [done|done|done|done|done|done|].
  clear s Hup. intros s Hup. cbv zeta. cbn [DecodedFrame.relative_offset DecodedFrame.encoded_len DecodedFrame.record].
  rewrite (relative_at h T0 log bs T) by (done || lia). rewrite decide_False by (by intros []).
  rewrite decide_False by (rewrite !(offset_at_val h T0 log bs T) by (done || lia); lia).
  destruct (max_records - length acc) as [|room] eqn:Hm in HQ; [lia|]. cbn beta iota in HQ.
  destruct (decide (max_bytes < used + length b)) as [Hbytes|Hbytes].
  { rewrite decide_False in HQ by lia. apply vs_ret. eapply HQ in Hup; [|done].
    by rewrite app_nil_r, Nat.add_0_r in Hup. }
  rewrite decide_True in HQ by lia. rewrite (wrapping_succ_at h T0 log bs T) by (done || lia). rewrite <-Hnext.
  apply IH; [done|lia|lia|lia|lia|rewrite length_app; simpl; lia|].
  intros s' pos' rs b' next Hup' Hbatch. rewrite length_app in Hbatch. simpl in Hbatch.
  replace (max_records - (length acc + 1)) with room in Hbatch by lia.
  replace (max_bytes - (used + length b)) with (max_bytes - used - length b) in Hbatch by lia.
  rewrite Hbatch in HQ. eapply (HQ s' pos') in Hup'; [|done].
  rewrite <-(assoc_L (++)). by rewrite <-Nat.add_assoc.
Qed.

Lemma vs_fetch_loop F G D e p i w c path h T0 log bs T pre rest hw a m max_bytes max_records Q s :
  up D e s → survives G D → v_data (visible D) !! i = Some c →
  log_ok h T0 log bs T → c = pre ++ concat bs ++ rest → m <= a → a <= hw → hw <= length log → 0 < max_records →
  (∀ s' pos' rs b next, up D e s' →
     batch (AnyHeader.base_offset h) a (zip (take (hw - a) (drop a log)) (take (hw - a) (drop a bs)))
       max_bytes max_records = (rs, b, next) →
     Q s' (rs, b, offset_at (AnyHeader.base_offset h) next, SimFile.mk p i pos' e w)) →
  view_spec F G (fetch_loop (hw - m) (SimFile.mk p i (frame_start (length pre) bs m) e w) path h
    (offset_at (AnyHeader.base_offset h) hw) (offset_at (AnyHeader.base_offset h) a) max_bytes max_records
    (offset_at (AnyHeader.base_offset h) m) (frame_start (length pre) bs m) [] 0) Q s.
Proof.
  intros Hup HG Hi Hok Hc Hma Ha Hhw Hroom HQ. remember (a - m) as gap eqn:Hgap. revert m s Hup Hma Hgap.
  induction gap as [|gap IH]; intros m s Hup Hma Hgap.
  { assert (m = a) as -> by lia. eapply vs_fetch_collect; [done|done|done|done|done|done|done|done|lia|simpl; lia|].
    intros s' pos' rs b next. rewrite !Nat.sub_0_r. apply HQ. }
  destruct (hw - m) as [|fuel] eqn:Hf; [lia|]. cbn [fetch_loop length].
  destruct (lookup_lt_is_Some_2 log m ltac:(lia)) as [r Hr].
  destruct (log_ok_lookup _ _ _ _ _ _ _ c pre rest Hok Hr Hc) as (b & rest' & Hb & Hrepr & Henc & Hdrop & Hnext).
  rewrite decide_True by (split; [rewrite !(offset_at_val h T0 log bs T) by (done || lia)|]; lia).
  apply vs_bind, vs_map_err. eapply vs_read_frame; [done|done|done|done|done|done|].
  clear s Hup. intros s Hup. cbv zeta. cbn [DecodedFrame.relative_offset DecodedFrame.encoded_len DecodedFrame.record].
  rewrite (relative_at h T0 log bs T) by (done || lia). rewrite decide_False by (by intros []).
  rewrite decide_True by (rewrite !(offset_at_val h T0 log bs T) by (done || lia); lia).
  rewrite (wrapping_succ_at h T0 log bs T) by (done || lia). rewrite <-Hnext.
  replace fuel with (hw - S m) by lia. apply IH; [done|lia|lia].
Qed.

(** What a fetch returns: nothing from the watermark on, else a batch from the requested
    offset, or from the first of the segment. *)
Definition fetch_spec (h : AnyHeader.t) (log : list LogRecord.t) (bs : list (list u8)) (hw : nat)
    (start : u64) (max_bytes max_records : nat) : FetchBatch.t :=
  let base := AnyHeader.base_offset h in
  let watermark := offset_at base hw in
  if decide (max_bytes = 0 ∨ max_records = 0 ∨ (ival watermark <= ival start)%Z) then
    FetchBatch.mk [] 0 (u64_min (u64_max start base) watermark) watermark
  else
    let a := Z.to_nat (u64_max start base - base) in
    let '(rs, used, next) :=
      batch base a (zip (take (hw - a) (drop a log)) (take (hw - a) (drop a bs))) max_bytes max_records in
    FetchBatch.mk rs used (offset_at base next) watermark.

Lemma vs_fetch_from_file F G D e p i pos w c path h T0 log bs T pre rest hw start max_bytes max_records Q s :
  up D e s → survives G D → v_data (visible D) !! i = Some c →
  log_ok h T0 log bs T → c = pre ++ concat bs ++ rest → hw <= length log →
  (Z.of_nat (length c) < u64_end)%Z →
  (∀ s' pos', up D e s' → Q s' (fetch_spec h log bs hw start max_bytes max_records, SimFile.mk p i pos' e w)) →
  view_spec F G (fetch_from_file (SimFile.mk p i pos e w) path h (length pre) (index_from h 0 (length pre) bs)
    (offset_at (AnyHeader.base_offset h) hw) start max_bytes max_records) Q s.
Proof.
  intros Hup HG Hi Hok Hc Hhw Hlen. unfold fetch_from_file, fetch_spec. cbv zeta.
  set (base := AnyHeader.base_offset h). intros HQ.
  destruct (decide (max_bytes = 0 ∨ _)) as [Hnone|Hsome]; [by apply vs_ret, HQ|].
  set (a := Z.to_nat (u64_max start base - base)) in *.
  assert (a <= hw ∧ u64_max start base = offset_at base a) as [Ha Hreq].
  { assert (ival base <= ival (u64_max start base))%Z as Hge by (unfold u64_max; case_decide; lia).
    assert (ival (u64_max start base) <= ival (offset_at base hw))%Z as Hle.
    { unfold u64_max. case_decide; [|lia]. subst base. rewrite (offset_at_val h T0 log bs T) by done. lia. }
    subst base. rewrite (offset_at_val h T0 log bs T) in Hle by done. subst a. split; [lia|].
    unfold offset_at. rewrite Z2Nat.id by lia. rewrite <-(wrap_int_ival (u64_max _ _)) at 1. f_equal. lia. }
  rewrite Hreq. destruct (index_entry_start h (length pre) T0 log bs T a Hok ltac:(lia)) as (m & Hm & Hentry).
  fold base in Hentry. rewrite Hentry. cbn [IndexEntry.position IndexEntry.offset]. apply vs_bind, vs_map_err.
  assert (frame_start (length pre) bs m <= length c) as Hstart.
  { rewrite Hc, !length_app. unfold frame_start. rewrite <-(take_drop m bs) at 2. rewrite concat_app, length_app. lia. }
  eapply vs_file_seek; [done|done|done|done|lia|]. clear s Hup. intros s Hup.
  replace (Z.to_nat (ival (offset_at base hw) - ival (offset_at base m))) with (hw - m)
    by (subst base; rewrite !(offset_at_val h T0 log bs T) by (done || lia); lia).
  apply vs_bind. eapply (vs_fetch_loop _ _ _ _ _ _ _ _ _ h T0); [done|done|done|done|done|done|done|done|lia|].
  clear s Hup. intros s pos' rs b next Hup Hbatch. fold base in Hbatch. rewrite Hbatch in HQ.
  apply vs_bind, vs_map_err.
  eapply (vs_file_seek _ _ _ _ _ _ _ _ _ _ (length c)); [done|done|done|lia|done|].
  intros s' Hup'. by apply vs_ret, HQ.
Qed.
End log.
