(* ===== verification/AppendPlan.v ===== *)
(** A group of records as the append path plans it, against the records offered one at a
    time: the planning with its per-group changes of the producer state decides as the
    one-by-one validation does, and leaves the state that remembering each record leaves. *)

From stdpp Require Import prelude strings list gmap pretty.
From Stdlib Require Import ZArith Lia.
From S2P Require Import Prelude Wire Placement Flow Storage DiskLogic ChunkTree LogTypes RecordCodec DiskView.
From S2P Require Import ProducerState ProducerSnapshot SegmentFiles SegmentScan ActiveSegment LogDisk SegmentLog.
#[local] Open Scope nat_scope.

(** ** First sequences *)

(** No producer starts above its latest sequence. *)
Definition first_ok (T : tracker) : Prop :=
  ∀ key state, T.1 !! key = Some state →
    (ival (ProducerState.first_sequence state) <= ival (ProducerState.latest_sequence state))%Z.

Lemma first_ok_remember `{!Blake3Hash} T r offset :
  first_ok T → validate T r = Ok Append → first_ok (remember T r offset).
Proof.
  intros HT [_ Hnext]%validate_Append key state.
  change (remember T r offset).1 with (<[key_of r := remember_state (T.1 !! key_of r)
    (LogRecord.sequence r) (SeenRecord.mk offset (record_content_hash r))]> T.1).
  rewrite lookup_insert_Some. intros [[<- <-]|[_ Hs]]; [|by eapply HT].
  destruct (T.1 !! key_of r) as [st|] eqn:Hst; simpl; [|lia]. apply HT in Hst. lia.
Qed.

Lemma replay_first_ok `{!Blake3Hash} T base n log T' :
  first_ok T → replay T base n log = Some T' → first_ok T'.
Proof.
  revert T n. induction log as [|r log IH]; intros T n HT; simpl; [by intros [= <-]|].
  destruct (validate T r) as [[]|] eqn:Hv; try done. by apply IH, first_ok_remember.
Qed.

Section snapshot.
Context {fmt : Fmt}.
#[local] Existing Instance snapr_ret.
#[local] Existing Instance snapr_bind.

Lemma snap_bind_inv {A B} (c : SnapR A) (k : A → SnapR B) bs out :
  (c ≫= k) bs = Ok out → ∃ a mid, c bs = Ok (a, mid) ∧ k a mid = Ok out.
Proof. intros ([a mid] & Hc & Hk)%result_bind_Ok. by exists a, mid. Qed.

Lemma check_entry_first producer entry :
  check_entry producer entry = Ok tt →
  (ival (SnapshotEntry.first_sequence entry) <= ival (SnapshotEntry.latest_sequence entry))%Z.
Proof. unfold check_entry. cbv zeta. case_decide; [done|]. intros _. lia. Qed.

Definition entries_first (producers : gmap ProducerKey SnapshotEntry.t) : Prop :=
  ∀ key entry, producers !! key = Some entry →
    (ival (SnapshotEntry.first_sequence entry) <= ival (SnapshotEntry.latest_sequence entry))%Z.

Lemma read_producers_first count producers bs out rest :
  entries_first producers → read_producers count producers bs = Ok (out, rest) → entries_first out.
Proof.
  revert producers bs. induction count as [|count IH]; intros producers bs Hp; cbn [read_producers].
  { by intros [= <- _]. }
  intros H. do 6 (apply snap_bind_inv in H as (? & ? & _ & H)). case_decide; [done|].
  apply snap_bind_inv in H as (seen & ? & _ & H). apply snap_bind_inv in H as (? & ? & Hc & H).
  destruct (producers !! _) eqn:Hn; [done|]. eapply IH in H; [done|].
  intros key entry. rewrite lookup_insert_Some. intros [[_ <-]|[_ He]]; [|by eapply Hp].
  unfold snap_lift in Hc. apply result_bind_Ok in Hc as ([] & Hc & _). by apply check_entry_first in Hc.
Qed.

Lemma decode_producer_snapshot_first bytes s : decode_producer_snapshot bytes = Ok s → first_ok (inherited_tracker s).
Proof.
  unfold decode_producer_snapshot. intros ([s' rest] & Hr & H)%result_bind_Ok.
  case_decide; [done|]. apply result_bind_Ok in H as ([] & _ & [= <-]).
  apply snap_bind_inv in Hr as (? & ? & _ & Hr). case_decide; [done|].
  apply snap_bind_inv in Hr as (? & ? & _ & Hr). case_decide; [done|].
  do 3 (apply snap_bind_inv in Hr as (? & ? & _ & Hr)).
  apply snap_bind_inv in Hr as (producers & ? & Hp & [= <- _]).
  apply read_producers_first in Hp; [|by intros key entry].
  intros key state. unfold inherited_tracker, inherited_states. cbn [fst ProducerSnapshot.producers].
  rewrite lookup_fmap. destruct (producers !! key) as [entry|] eqn:He; [|done].
  intros [= <-]. by apply (Hp key).
Qed.

Lemma default_first : first_ok (inherited_tracker ProducerSnapshot.default).
Proof. by intros key state. Qed.
End snapshot.

(** ** Offering records one at a time *)

Section offer.
Context {hash : Blake3Hash} {tree : Blake3} {fmt : Fmt}.

(** Each record is validated in the state the earlier ones left; [n] is how many records
    the segment holds. *)
Fixpoint offer (T : tracker) (base : u64) (n : nat) (records : list LogRecord.t)
    : log_result (list AppendOutcome * list LogRecord.t * tracker) :=
  match records with
  | [] => Ok ([], [], T)
  | r :: records =>
      decision ← validate T r;
      match decision with
      | Duplicate offset =>
          '(outcomes, new, T') ← offer T base n records;
          Ok (LogTypes.Duplicate offset :: outcomes, new, T')
      | Append =>
          '(outcomes, new, T') ← offer (remember T r (offset_at base n)) base (S n) records;
          Ok (Appended (offset_at base n) :: outcomes, r :: new, T')
      end
  end.

Lemma offer_replay T base n records outcomes new T' :
  offer T base n records = Ok (outcomes, new, T') → replay T base n new = Some T'.
Proof.
  revert T n outcomes new. induction records as [|r records IH]; intros T n outcomes new; simpl.
  { by intros [= <- <- <-]. }
  intros ([|offset] & Hv & ([[os new'] T''] & Ho & [= <- <- <-])%result_bind_Ok)%result_bind_Ok.
  - simpl. rewrite Hv. by eapply IH.
  - by eapply IH.
Qed.

Lemma offer_Forall (P : LogRecord.t → Prop) T base n records outcomes new T' :
  Forall P records → offer T base n records = Ok (outcomes, new, T') → Forall P new.
Proof.
  intros HP. revert T n outcomes new. induction HP as [|r records Hr HP IH]; intros T n outcomes new; simpl.
  { by intros [= <- <- <-]. }
  intros ([|offset] & Hv & ([[os new'] T''] & Ho & [= <- <- <-])%result_bind_Ok)%result_bind_Ok.
  - constructor; [done|]. by eapply IH.
  - by eapply IH.
Qed.

(** ** The plan of a group *)

Lemma check_record_fields_ok h records :
  check_record_fields h records = Ok tt ↔ Forall (representable h) records.
Proof.
  assert (∀ (x : u64), bool_decide (ival x ≠ 0%Z) = false ↔ x = zero) as Hz.
  { intros x. rewrite bool_decide_eq_false. split; [|by intros -> []].
    intros Hx. apply int_eq. rewrite ival_zero. destruct (decide (ival x = 0%Z)); [done|by destruct Hx]. }
  assert (∀ (x : u16), ival x ≠ 0%Z ∨ x = zero) as Ha.
  { intros x. destruct (decide (ival x = 0%Z)) as [Hx|]; [right|by left]. apply int_eq. by rewrite ival_zero. }
  induction records as [|r records IH]; simpl; [split; [constructor|done]|].
  rewrite Forall_cons, <-IH. destruct h as [x|x]; unfold representable, plain_v1, plain_v2.
  - destruct (bool_decide (ival (LogRecord.producer_epoch r) ≠ 0%Z)) eqn:He.
    { split; [done|]. intros [[Hx _] _]. apply Hz in Hx. by rewrite Hx in He. }
    apply Hz in He. destruct (Ha (LogRecord.attributes r)) as [Hne|Heq].
    + rewrite decide_True by done. split; [done|]. intros [[_ Hx] _]. rewrite Hx in Hne. by destruct Hne.
    + rewrite decide_False by (rewrite Heq; by intros []). naive_solver.
  - destruct (Ha (LogRecord.attributes r)) as [Hne|Heq].
    + rewrite decide_True by done. split; [done|]. intros [Hx _]. rewrite Hx in Hne. by destruct Hne.
    + rewrite decide_False by (rewrite Heq; by intros []). naive_solver.
Qed.

Section plan.
Context (self : ActiveSegment.t) (n : nat).
#[local] Abbreviation h := (ActiveSegment.header self).
#[local] Abbreviation base := (AnyHeader.base_offset (ActiveSegment.header self)).
#[local] Abbreviation states := (ActiveSegment.producer_states self).
#[local] Abbreviation epochs := (ActiveSegment.producer_epochs self).

(** The plan after the records [new] were accepted into a segment of [n] records: [bs] are
    their frames and [T] is the producer state with them. *)
Record planned (plan : GroupPlan.t) (new : list LogRecord.t) (bs : list (list u8)) (T : tracker) : Prop := {
  pl_deltas : deltas_ok states epochs (GroupPlan.deltas plan) (GroupPlan.epoch_deltas plan);
  pl_merged : merge_producer_deltas states epochs (GroupPlan.deltas plan) (GroupPlan.epoch_deltas plan) = T;
  pl_next : GroupPlan.prospective_next plan = offset_at base (n + length new);
  pl_offsets : (base + Z.of_nat (n + length new) <= 18446744073709551615)%Z;
  pl_frames : encode_log h n new = Ok bs;
  pl_pending : GroupPlan.pending plan = zip (offset_at base <$> seq n (length new)) bs;
  pl_bytes : GroupPlan.group_bytes plan = length (concat bs);
  pl_group : (Z.of_nat (length (concat bs)) <= AnyHeader.max_group_bytes h)%Z;
}.

Lemma planned_start (next_offset : u64) :
  first_ok (states, epochs) → next_offset = offset_at base n →
  (base + Z.of_nat n <= 18446744073709551615)%Z →
  planned (GroupPlan.start next_offset) [] [] (states, epochs).
Proof.
  intros Hfirst Hnext Hn. split; cbn [GroupPlan.start GroupPlan.deltas GroupPlan.epoch_deltas
    GroupPlan.prospective_next GroupPlan.pending GroupPlan.group_bytes]; simpl; try (done || rewrite Nat.add_0_r; done).
  - unfold merge_producer_deltas. f_equal; apply map_eq; intros k; rewrite lookup_merge, lookup_empty.
    + by destruct (states !! k).
    + by destruct (epochs !! k).
  - apply u64_bounds.
Qed.

Lemma encode_log_snoc new r bs b :
  encode_log h n new = Ok bs → encode_record_any h r (nat_u64 (n + length new)) = Ok b →
  encode_log h n (new ++ [r]) = Ok (bs ++ [b]).
Proof. intros Hbs Hb. apply encode_log_app. exists bs, [b]. simpl. by rewrite Hb. Qed.

Lemma plan_relative m :
  (base + Z.of_nat m <= 18446744073709551615)%Z → wrapping_sub (offset_at base m) base = nat_u64 m.
Proof.
  intros Hm. unfold wrapping_sub, nat_u64, offset_at. pose proof (u64_bounds base). f_equal.
  rewrite wrap_int_small; [lia|]. change (0 <= base + Z.of_nat m <= 18446744073709551615)%Z. lia.
Qed.

(** A record of the group: a retry changes nothing but the outcomes, a new record is
    planned as the next of the segment, and a refusal is the validation's or a limit's. *)
Lemma plan_record_spec r plan new bs T :
  planned plan new bs T →
  match plan_record self r plan with
  | Ok plan' =>
      (∃ offset, validate T r = Ok (Duplicate offset) ∧ planned plan' new bs T ∧
         GroupPlan.outcomes plan' = GroupPlan.outcomes plan ++ [LogTypes.Duplicate offset]) ∨
      (∃ b, validate T r = Ok Append ∧ encode_record_any h r (nat_u64 (n + length new)) = Ok b ∧
         planned plan' (new ++ [r]) (bs ++ [b]) (remember T r (offset_at base (n + length new))) ∧
         GroupPlan.outcomes plan' = GroupPlan.outcomes plan ++ [Appended (offset_at base (n + length new))])
  | Err _ =>
      (∃ error, validate T r = Err error) ∨
      (validate T r = Ok Append ∧ ∀ b, encode_record_any h r (nat_u64 (n + length new)) = Ok b →
         (base + Z.of_nat (n + S (length new)) <= 18446744073709551615)%Z →
         (AnyHeader.max_group_bytes h < Z.of_nat (length (concat (bs ++ [b]))))%Z)
  end.
Proof.
  intros [Hd Hm Hnext Hoff Hf Hp Hb Hg]. unfold plan_record.
  pose proof (validate_group_single states epochs _ _ r (record_content_hash r) Hd) as Halike.
  pose proof (remember_group_single states epochs _ _ r (offset_at base (n + length new))
    (record_content_hash r) Hd) as Hrem.
  cbv zeta in Halike, Hrem. rewrite Hm in Halike, Hrem. fold (validate T r) in Halike.
  destruct (validate_sequence_with_delta _ _ _ _ r _) as [[|offset]|error]; cbn [mbind result_bind].
  - destruct Halike as [Hv|(?&?&?&?&?&?&?&?&_)]; [|done]. symmetry in Hv.
    specialize (Hrem eq_refl) as [Hmerge Hd'].
    rewrite Hnext. destruct (checked_succ (offset_at base (n + length new))) as [next|] eqn:Hs.
    2: { right. split; [done|]. intros b _ Hle. rewrite (offset_at_succ base) in Hs; [done|lia]. }
    cbn [ok_or mbind result_bind]. rewrite plan_relative by done.
    destruct (encode_record_any h r (nat_u64 (n + length new))) as [b|e] eqn:He; cbn [mbind result_bind]; [|by right].
    assert (length (concat (bs ++ [b])) = GroupPlan.group_bytes plan + length b) as Hlen
      by (rewrite concat_app, length_app; simpl; rewrite app_nil_r; lia).
    pose proof (u64_bounds (AnyHeader.max_group_bytes h)).
    destruct (decide (u64_end <= _)%Z) as [Hend|Hend].
    { right. split; [done|]. intros b' [= <-] _. unfold u64_end in Hend. lia. }
    destruct (decide (_ < _)%Z) as [Hmax|Hmax].
    { right. split; [done|]. intros b' [= <-] _. lia. }
    destruct (remember_pending_sequence _ _ _ _ _) as [deltas' epochs'] eqn:Hrp. cbn [fst snd] in Hmerge, Hd'.
    right. exists b. split_and!; [done|done| |done].
    apply checked_add_Some in Hs as Hnv. rewrite ival_one in Hnv. pose proof (u64_bounds next) as Hnb.
    assert (ival (offset_at base (n + length new)) = base + Z.of_nat (n + length new))%Z as Hov.
    { apply wrap_int_small. change (0 <= base + Z.of_nat (n + length new) <= 18446744073709551615)%Z.
      pose proof (u64_bounds base). lia. }
    assert (length (new ++ [r]) = S (length new)) as Hnl by (rewrite length_app; simpl; lia).
    split; cbn [GroupPlan.deltas GroupPlan.epoch_deltas GroupPlan.prospective_next GroupPlan.pending
      GroupPlan.group_bytes]; rewrite ?Hnl; try done.
    + rewrite (offset_at_succ base) in Hs by lia. rewrite <-plus_n_Sm. congruence.
    + lia.
    + by apply encode_log_snoc.
    + rewrite seq_S, fmap_app, zip_with_app, Hp; [done|].
      rewrite length_fmap, length_seq. symmetry. by eapply encode_log_length.
    + lia.
  - destruct Halike as [Hv|(?&?&?&?&?&?&?&?&_)]; [|done]. left. exists offset. split; [done|]. by split.
  - left. destruct Halike as [Hv|(?&?&?&?&?&?&?&_&Hv)]; [by exists error|by eexists].
Qed.

Lemma plan_group_Ok records plan plan' new bs T :
  planned plan new bs T → plan_group self records plan = Ok plan' →
  ∃ outcomes new' bs' T',
    offer T base (n + length new) records = Ok (outcomes, new', T') ∧
    planned plan' (new ++ new') (bs ++ bs') T' ∧
    GroupPlan.outcomes plan' = GroupPlan.outcomes plan ++ outcomes.
Proof.
  revert plan new bs T. induction records as [|r records IH]; intros plan new bs T Hpl; cbn [plan_group].
  { intros [= <-]. exists [], [], [], T. by rewrite !app_nil_r. }
  intros (plan1 & Hr & Hg)%result_bind_Ok. pose proof (plan_record_spec r _ _ _ _ Hpl) as Hspec.
  rewrite Hr in Hspec. destruct Hspec as [(offset & Hv & Hpl1 & Ho)|(b & Hv & He & Hpl1 & Ho)].
  - destruct (IH _ _ _ _ Hpl1 Hg) as (os & new' & bs' & T' & Hoffer & Hpl' & Hos).
    exists (LogTypes.Duplicate offset :: os), new', bs', T'. cbn [offer]. rewrite Hv. cbn [mbind result_bind].
    rewrite Hoffer. split_and!; [done|done|]. rewrite Hos, Ho. by rewrite <-(assoc_L (++)).
  - destruct (IH _ _ _ _ Hpl1 Hg) as (os & new' & bs' & T' & Hoffer & Hpl' & Hos).
    exists (Appended (offset_at base (n + length new)) :: os), (r :: new'), (b :: bs'), T'.
    cbn [offer]. rewrite Hv. cbn [mbind result_bind].
    rewrite length_app, Nat.add_assoc, Nat.add_1_r in Hoffer. rewrite Hoffer.
    rewrite <-!(assoc_L (++)) in Hpl'. split_and!; [done|done|]. rewrite Hos, Ho. by rewrite <-(assoc_L (++)).
Qed.

Lemma concat_length_app {A} (xs ys : list (list A)) : length (concat xs) <= length (concat (xs ++ ys)).
Proof. rewrite concat_app, length_app. lia. Qed.

Lemma plan_group_Err records plan error new bs T outcomes new' bs' T' :
  planned plan new bs T → plan_group self records plan = Err error →
  offer T base (n + length new) records = Ok (outcomes, new', T') →
  encode_log h n (new ++ new') = Ok bs' →
  (base + Z.of_nat (n + length (new ++ new')) <= 18446744073709551615)%Z →
  (AnyHeader.max_group_bytes h < Z.of_nat (length (concat bs')))%Z.
Proof.
  revert plan new bs T outcomes new'.
  induction records as [|r records IH]; intros plan new bs T outcomes new' Hpl; cbn [plan_group offer]; [done|].
  pose proof (plan_record_spec r _ _ _ _ Hpl) as Hspec.
  destruct (plan_record self r plan) as [plan1|e]; cbn [mbind result_bind].
  - intros Hg. destruct Hspec as [(offset & Hv & Hpl1 & _)|(b & Hv & He & Hpl1 & _)];
      rewrite Hv; cbn [mbind result_bind];
      intros ([[os new''] T''] & Ho & [= <- <- <-])%result_bind_Ok; [by eapply IH|].
    intros Hf Hle. eapply (IH plan1 (new ++ [r]) _ _ os new''); [done|done| |by rewrite <-(assoc_L (++))|].
    + by rewrite length_app, Nat.add_assoc, Nat.add_1_r.
    + by rewrite <-(assoc_L (++)).
  - intros _. destruct Hspec as [[e' Hv]|[Hv Hspec]]; rewrite Hv; cbn [mbind result_bind]; [done|].
    intros ([[os new''] T''] & Ho & [= <- <- <-])%result_bind_Ok Hf Hle.
    apply encode_log_app in Hf as (xs & ys & Hx & Hy & ->). rewrite (pl_frames _ _ _ _ Hpl) in Hx.
    injection Hx as <-. cbn [encode_log] in Hy. apply result_bind_Ok in Hy as (b & Hb & Hy).
    apply result_bind_Ok in Hy as (zs & _ & [= <-]). rewrite length_app in Hle. simpl in Hle.
    specialize (Hspec b Hb ltac:(lia)). pose proof (concat_length_app (bs ++ [b]) zs) as Hc.
    rewrite <-(assoc_L (++)) in Hc. simpl in Hc. lia.
Qed.

Lemma check_segment_limits_ok plan attempted :
  check_segment_limits self plan = Ok attempted ↔
  attempted = ActiveSegment.content_bytes self + GroupPlan.group_bytes plan ∧
  (Z.of_nat attempted <= AnyHeader.max_segment_bytes h)%Z ∧
  (Z.of_nat (ActiveSegment.record_count self + length (GroupPlan.pending plan)) <= AnyHeader.max_segment_records h)%Z.
Proof.
  unfold check_segment_limits, u64_end. pose proof (u64_bounds (AnyHeader.max_segment_bytes h)).
  pose proof (u64_bounds (AnyHeader.max_segment_records h)).
  repeat case_decide; (split; [intros Heq; try discriminate Heq; apply Ok_inj in Heq; subst; lia|]);
    intros (-> & Hb & Hr); try lia; done.
Qed.
End plan.
End offer.
