(* ===== verification/LogOps.v ===== *)
(** The operations of an active segment on a disk that may fail at any point.

    [recoverable log] are the disks from which recovery gives the records [log]; [healthy]
    relates a segment that works to the log it stands for.  Every operation either does
    what it says to the log, or leaves the segment as it was, or leaves it inert with a
    disk that recovers to the log before or after the operation. *)

From stdpp Require Import prelude strings list gmap pretty.
From Stdlib Require Import ZArith Lia.
From S2P Require Import Prelude Wire Placement Flow Storage DiskLogic ChunkTree LogTypes RecordCodec DiskView.
From S2P Require Import ProducerState ProducerSnapshot SegmentFiles SegmentScan ActiveSegment LogDisk SegmentLog AppendPlan.
#[local] Open Scope nat_scope.

(** ** Reads change nothing *)

Lemma quiet_read_some_loop fuel f n read :
  quiet (SimFile.inode f) (read_some_loop fuel f n read) (λ r, SimFile.inode r.2 = SimFile.inode f).
Proof.
  revert f n read. induction fuel as [|fuel IH]; intros f n read; destruct n as [|n]; cbn [read_some_loop];
    try (by apply quiet_ret).
  eapply quiet_bind; [apply quiet_file_read|]. intros [bytes f'] Hf. cbn [snd] in Hf.
  case_decide; [by apply quiet_ret|]. rewrite <-Hf. apply IH.
Qed.

Section quiet.
Context {hash : Blake3Hash}.

Lemma quiet_lift {A} i (r : log_result A) (P : A → Prop) : (∀ a, r = Ok a → P a) → quiet i (sim_lift r) P.
Proof. apply quiet_pure. Qed.

Lemma quiet_read_frame_any version f position maximum :
  quiet (SimFile.inode f) (read_frame_any version f position maximum)
    (λ r, SimFile.inode r.2 = SimFile.inode f).
Proof.
  assert (∀ fm, quiet (SimFile.inode f) (read_frame_with fm f position maximum)
    (λ r, SimFile.inode r.2 = SimFile.inode f)) as H.
  { intros fm. unfold read_frame_with.
    eapply quiet_bind; [apply quiet_map_err, quiet_read_some_loop|]. intros [prefix f1] H1. cbn [snd] in H1.
    eapply quiet_bind; [by apply (quiet_lift _ _ (λ _, True))|]. intros [read|n] _; [by apply quiet_ret|].
    rewrite <-H1. eapply quiet_bind; [apply quiet_map_err, quiet_read_some_loop|]. intros [body f2] H2.
    eapply quiet_bind; [by apply (quiet_lift _ _ (λ _, True))|]. intros read _. by apply quiet_ret. }
  unfold read_frame_any. case_decide; apply H.
Qed.

Lemma quiet_position_of_offset f path h hl index target :
  quiet (SimFile.inode f) (position_of_offset f path h hl index target)
    (λ r, SimFile.inode r.2 = SimFile.inode f).
Proof.
  unfold position_of_offset. case_decide; [by apply quiet_ret|]. cbv zeta.
  eapply quiet_bind; [apply quiet_map_err, quiet_file_seek|]. intros [n f1] <-. cbn [snd].
  generalize (Z.to_nat (ival target - ival (IndexEntry.offset (index_entry h hl index target)))).
  generalize (IndexEntry.position (index_entry h hl index target)).
  generalize (IndexEntry.offset (index_entry h hl index target)). clear n f. intros offset pos fuel.
  revert f1 offset pos. induction fuel as [|fuel IH]; intros f offset pos; cbn [position_loop]; [by apply quiet_ret|].
  case_decide; [by apply quiet_ret|].
  eapply quiet_bind; [apply quiet_map_err, quiet_read_frame_any|]. intros [[frame| |] f1] Hf; try apply quiet_fail.
  cbv zeta. case_decide; [apply quiet_fail|]. cbn [snd] in Hf. rewrite <-Hf. apply IH.
Qed.

Lemma quiet_fetch_from_file f path h hl index hw start max_bytes max_records :
  quiet (SimFile.inode f) (fetch_from_file f path h hl index hw start max_bytes max_records)
    (λ r, SimFile.inode r.2 = SimFile.inode f).
Proof.
  unfold fetch_from_file. cbv zeta. case_decide; [by apply quiet_ret|].
  eapply quiet_bind; [apply quiet_map_err, quiet_file_seek|]. intros [n f1] <-. cbn [snd].
  eapply (quiet_bind _ _ _ (λ r, SimFile.inode r.2 = SimFile.inode f1)).
  2: { intros [[[rs used] offset] f2] Hf. cbn [snd] in Hf. rewrite <-Hf.
       eapply quiet_bind; [apply quiet_map_err, quiet_file_seek|]. intros [m f3] Hf3. by apply quiet_ret. }
  generalize (Z.to_nat (ival hw - ival (IndexEntry.offset (index_entry h hl index (u64_max start (AnyHeader.base_offset h)))))).
  generalize (IndexEntry.position (index_entry h hl index (u64_max start (AnyHeader.base_offset h)))).
  generalize (IndexEntry.offset (index_entry h hl index (u64_max start (AnyHeader.base_offset h)))).
  generalize (@nil (u64 * LogRecord.t)). generalize 0. clear n f. intros used acc offset pos fuel.
  revert f1 used acc offset pos.
  induction fuel as [|fuel IH]; intros f used acc offset pos; cbn [fetch_loop]; [by apply quiet_ret|].
  case_decide; [|by apply quiet_ret].
  eapply quiet_bind; [apply quiet_map_err, quiet_read_frame_any|]. intros [[frame| |] f1] Hf; try apply quiet_fail.
  cbv zeta. case_decide; [apply quiet_fail|]. cbn [snd] in Hf. case_decide; [rewrite <-Hf; apply IH|].
  case_decide; [by apply quiet_ret|]. rewrite <-Hf. apply IH.
Qed.
End quiet.

(** ** Disks that recover to a log *)

(** A segment: where its files are, its header with its bytes, and what it inherited. *)
Record site := Site {
  s_dir : PathBuf;
  s_stem : list u8;
  s_header : AnyHeader.t;
  s_bytes : list u8;
  s_inherited : ProducerSnapshot.t;
  s_accumulator : ContentAccumulator.t;
}.
Definition s_path (X : site) : PathBuf := sidecar (s_dir X) (s_stem X) ".active".
Definition s_paths (X : site) : SegmentPaths.t := sidecars (s_dir X) (s_stem X).

Section ops.
Context {hash : Blake3Hash} {tree : Blake3} {fmt : Fmt} {json : HeaderJson} {laws : HeaderJsonLaws}.

Record site_ok (X : site) : Prop := {
  sk_stem : utf8_valid (s_stem X) = true;
  sk_named : s_stem X ≠ [];
  sk_bytes : encode_any_header (s_header X) = Ok (s_bytes X);
  sk_valid : header_valid (s_header X);
  sk_accumulator : ContentAccumulator.for_header (s_header X) = Some (s_accumulator X);
}.

Lemma sk_active X : site_ok X → SegmentPaths.from_active (s_path X) = Ok (s_paths X).
Proof. intros HX. by apply from_active_sidecar; apply HX. Qed.

Section site.
Context (X : site) (HX : site_ok X).

#[local] Abbreviation p := (s_path X).
#[local] Abbreviation q := (SegmentPaths.commit (s_paths X)).
#[local] Abbreviation h := (s_header X).
#[local] Abbreviation hb := (s_bytes X).
#[local] Abbreviation base_offset := (AnyHeader.base_offset (s_header X)).
#[local] Abbreviation T0 := (inherited_tracker (s_inherited X)).
#[local] Abbreviation t := (temporary (s_dir X) (s_stem X) ".commit").

Lemma names_differ nonce :
  p ≠ q ∧ SegmentPaths.producers (s_paths X) ≠ q ∧ p ≠ SegmentPaths.producers (s_paths X) ∧
  t nonce ≠ p ∧ t nonce ≠ q ∧ t nonce ≠ SegmentPaths.producers (s_paths X).
Proof. split_and!; (by apply sidecar_ne) || (apply temporary_sidecar_ne; constructor). Qed.

(** The commit boundary after the first [n] records, whose frames are [bs]. *)
Definition boundary_of (n : nat) (bs : list (list u8)) : list u8 :=
  encode_commit_boundary (mkBoundary (AnyHeader.segment_id h) (offset_at base_offset n)
    (nat_u64 (length (concat bs)))).

(** The surroundings that no operation of the segment changes. *)
Record around (v : view) : Prop := {
  ar_dir : s_dir X ∈ v_dirs v;
  ar_nodir : SegmentPaths.producers (s_paths X) ∉ v_dirs v ∧ SegmentPaths.segment (s_paths X) ∉ v_dirs v;
  ar_inherited :
    match v_ns v !! SegmentPaths.producers (s_paths X) with
    | None => s_inherited X = ProducerSnapshot.default
    | Some k => ∃ bytes, v_data v !! k = Some bytes ∧ decode_producer_snapshot bytes = Ok (s_inherited X)
    end;
}.

Record recoverable_at (i j : nat) (log : list LogRecord.t) (bs : list (list u8)) (v : view) : Prop := {
  rc_log : ∃ T, log_ok h T0 log bs T;
  rc_name : v_ns v !! p = Some i;
  rc_file : ∃ rest, v_data v !! i = Some (hb ++ concat bs ++ rest);
  rc_commit_name : v_ns v !! q = Some j;
  rc_commit : v_data v !! j = Some (boundary_of (length log) bs);
  rc_around : around v;
  rc_ne : i ≠ j ∧ ∀ k, v_ns v !! SegmentPaths.producers (s_paths X) = Some k → i ≠ k;
}.
Definition recoverable (log : list LogRecord.t) (bs : list (list u8)) (v : view) : Prop :=
  ∃ i j, recoverable_at i j log bs v.

(** ** A segment that works *)

(** What the disk holds of it: the file shows the whole log, the first [cn] records survive
    every crash, and nothing is pending but writes to the file. *)
Record stored (log : list LogRecord.t) (bs : list (list u8)) (T : tracker) (cn i j : nat) (D : disk)
    : Prop := {
  sd_log : log_ok h T0 log bs T;
  sd_cn : cn <= length log;
  sd_file : v_data (visible D) !! i = Some (hb ++ concat bs);
  sd_pend : Forall (λ op, is_Some (data_op i op)) (pend D);
  sd_survives : survives (recoverable_at i j (take cn log) (take cn bs)) D;
}.

(** The segment that stands for a log. *)
Definition segment_of (log : list LogRecord.t) (bs : list (list u8)) (T : tracker) (cn i pos e : nat)
    (report : RecoveryReport.t) : ActiveSegment.t :=
  ActiveSegment.mk p (SimFile.mk p i pos e true) h (length hb)
    (offset_at base_offset (length log)) (offset_at base_offset cn) (length log) (length (concat bs))
    T.1 T.2 (index_from h 0 (length hb) bs) (accumulate (s_accumulator X) bs) false false report
    (s_inherited X).

Definition healthy (log : list LogRecord.t) (bs : list (list u8)) (T : tracker) (cn : nat)
    (st : SegState) : Prop :=
  ∃ i j pos e report D,
    stored log bs T cn i j D ∧ st.1 = segment_of log bs T cn i pos e report ∧ up D e st.2.

(** A segment that can only fail or read: it is poisoned or its disk is down. *)
Definition inert (G : view → Prop) (st : SegState) : Prop :=
  failed G st.2 ∧ SimFile.inode (ActiveSegment.file st.1) < length (SimState.inodes st.2) ∧
  (ActiveSegment.poisoned st.1 = true ∨ SimState.crashed st.2 = true).

(** The sizes involved are far from 2^64. *)
Lemma header_bound : (Z.of_nat (length hb) <= 2097152)%Z.
Proof.
  pose proof (sk_bytes _ HX) as Hb. destruct h as [x|x]; simpl in Hb; unfold encode_header, encode_header_v2 in Hb.
  - destruct (to_vec_v1 x) as [text|] eqn:Ht; [|done]. apply json_v1 in Ht as [_ Ht].
    apply envelope_parts in Hb as (len & Hlen & Hmax & ->); [|done|done].
    rewrite !length_app, !length_to_be_bytes. unfold MAX_HEADER_BYTES in Hmax. simpl. lia.
  - destruct (to_vec_v2 x) as [text|] eqn:Ht; [|done]. apply json_v2 in Ht as [_ Ht].
    apply envelope_parts in Hb as (len & Hlen & Hmax & ->); [|done|done].
    rewrite !length_app, !length_to_be_bytes. unfold MAX_HEADER_BYTES in Hmax. simpl. lia.
Qed.

Lemma limits_ok v o mr mg ms mrec st :
  validate_limits v o mr mg ms mrec st = Ok tt → (ival ms <= MAX_SEGMENT_BYTES)%Z.
Proof. unfold validate_limits. repeat case_decide; try done. intros _. lia. Qed.

Lemma segment_bound : (ival (AnyHeader.max_segment_bytes h) <= 8589934592)%Z.
Proof.
  pose proof (sk_valid _ HX) as Hv. destruct h as [x|x]; destruct Hv as (_ & _ & _ & Hc).
  - apply result_bind_Ok in Hc as ([] & Hc & _). by apply limits_ok in Hc.
  - apply result_bind_Ok in Hc as ([] & Hc & _). by apply limits_ok in Hc.
Qed.

Lemma content_bound log bs T :
  log_ok h T0 log bs T → (Z.of_nat (length (hb ++ concat bs)) < 18446744073709551615)%Z.
Proof.
  intros Hok. pose proof (lo_bytes _ _ _ _ _ Hok). pose proof segment_bound. pose proof header_bound.
  rewrite length_app. lia.
Qed.

Lemma nat_u64_val n : (Z.of_nat n < 18446744073709551616)%Z → ival (nat_u64 n) = Z.of_nat n.
Proof. intros Hn. apply wrap_int_small. change (0 <= Z.of_nat n <= 18446744073709551615)%Z. lia. Qed.

(** ** Steps on the disk *)

Lemma prefix_of_lookup {A} (l k : list A) : (∀ n x, l !! n = Some x → k !! n = Some x) → l `prefix_of` k.
Proof.
  revert k. induction l as [|a l IH]; intros k Hk; [by apply prefix_nil|].
  pose proof (Hk 0 a eq_refl) as Ha. destruct k as [|b k]; [done|]. injection Ha as ->.
  apply prefix_cons. apply IH. intros n x Hx. by apply (Hk (S n)).
Qed.

Lemma write_beyond (pre c : list u8) pos buffer :
  pre `prefix_of` c → length pre <= pos → pre `prefix_of` apply_data_op c (DataOp.Write pos buffer).
Proof.
  intros Hpre Hpos. apply prefix_of_lookup. intros n x Hn. apply lookup_write_keep.
  - by eapply prefix_lookup_Some.
  - apply lookup_lt_Some in Hn. lia.
Qed.

(** Changing the file beyond the committed records keeps the disk recoverable. *)
Lemma recoverable_alter i j log bs v f :
  recoverable_at i j log bs v →
  (∀ c, (hb ++ concat bs) `prefix_of` c → (hb ++ concat bs) `prefix_of` apply_data_op c f) →
  recoverable_at i j log bs (view_op v (PendingOp.Data i f)).
Proof.
  intros [Hlog Hn [rest Hf] Hcn Hc [Hd Hnd Hin] [Hij Hik]] Hpre. split; try done.
  - destruct (Hpre (hb ++ concat bs ++ rest)) as [rest' Hrest]; [rewrite (assoc_L (++)); by apply prefix_app_r|].
    exists rest'. cbn [view_op v_data]. rewrite list_lookup_alter_eq, Hf. cbn [fmap option_fmap option_map].
    by rewrite Hrest, (assoc_L (++)).
  - cbn [view_op v_data]. by rewrite list_lookup_alter_ne.
  - split; [done|done|]. cbn [view_op v_data v_ns]. 
    destruct (v_ns v !! SegmentPaths.producers (s_paths X)) as [k|]; [|done].
    destruct Hin as (b & Hb & Hdec). exists b. by rewrite list_lookup_alter_ne by (by apply Hik).
Qed.

Lemma recoverable_write i j log bs v pos buffer :
  recoverable_at i j log bs v → length (hb ++ concat bs) <= pos →
  recoverable_at i j log bs (view_op v (PendingOp.Data i (DataOp.Write pos buffer))).
Proof. intros Hr Hpos. apply recoverable_alter; [done|]. intros c Hc. by apply write_beyond. Qed.

Lemma only_data_sync i D :
  Forall (λ op, is_Some (data_op i op)) (pend D) → sync_file i D = Disk (visible D) [].
Proof.
  intros Hp. assert (data_rest i (pend D) = []) as Hrest.
  { induction Hp as [|op l [x Hx] Hl IH]; [done|]. by rewrite data_rest_cons, Hx. }
  pose proof (visible_sync_file i D) as Hv. unfold sync_file in *. rewrite Hrest in *. f_equal. exact Hv.
Qed.

Lemma up_inode D e v i s : up D e s → base D = v ∨ visible D = v → v_ns v !! p = Some i →
  i < length (SimState.inodes s).
Proof.
  intros Hup Hv Hn. destruct (up_ok _ _ _ Hup) as [_ Hvis Hdur].
  destruct Hv as [<-|<-].
  - rewrite <-(up_base _ _ _ Hup) in Hn. by apply Hdur in Hn.
  - rewrite <-(up_visible _ _ _ Hup) in Hn. by apply Hvis in Hn.
Qed.

(** A boundary written after the first [n] records of a file that is all on disk. *)
Lemma replaced_recoverable nonce log bs T cn n i j v w :
  log_ok h T0 log bs T → n <= length log → v_data v !! i = Some (hb ++ concat bs) →
  recoverable_at i j (take cn log) (take cn bs) v →
  touched (s_dir X) (s_stem X ++ as_bytes ".commit") nonce (boundary_of n (take n bs)) v w →
  (v_ns w !! q = v_ns v !! q → recoverable_at i j (take cn log) (take cn bs) w) ∧
  (v_ns w !! q = Some (length (v_data v)) → v_data w !! length (v_data v) = Some (boundary_of n (take n bs)) →
   recoverable_at i (length (v_data v)) (take n log) (take n bs) w).
Proof.
  intros Hok Hn Hfile [Hlog Hname Hf Hcn Hc [Hd Hnd Hin] [Hij Hik]] [Hdirs Hdata Hnames _].
  destruct (names_differ nonce) as (Hpq & Hrq & Hpr & Htp & Htq & Htr).
  assert (∀ m x, v_data v !! m = Some x → v_data w !! m = Some x) as Hold
    by (intros m x Hm; by eapply prefix_lookup_Some).
  assert (v_ns w !! p = Some i) as Hname' by (by rewrite Hnames).
  assert (around w) as Haround.
  { split; [by rewrite Hdirs|by rewrite Hdirs|]. rewrite Hnames by done.
    destruct (v_ns v !! SegmentPaths.producers (s_paths X)) as [k|]; [|done].
    destruct Hin as (b & Hb & Hdec). eauto. }
  assert (∀ k, v_ns w !! SegmentPaths.producers (s_paths X) = Some k → i ≠ k) as Hik'.
  { intros k. rewrite Hnames by done. apply Hik. }
  split.
  - intros Hq. destruct Hf as [rest Hf]. split; try done; [by exists rest; apply Hold|by rewrite Hq|by apply Hold].
  - intros Hq Hqd. destruct (log_ok_take _ _ _ _ _ n Hok) as [Tn Hokn].
    split; try done; [by exists Tn| | |].
    + exists (concat (drop n bs)). rewrite <-concat_app, take_drop. by apply Hold.
    + rewrite length_take, Nat.min_l by done. done.
    + split; [|done]. apply lookup_lt_Some in Hfile. lia.
Qed.

(** ** Methods *)

Definition seg_wp {A} (c : Seg A) (Q : SegState → log_result A → Prop) (st : SegState) : Prop :=
  match c st with Some (st', r) => Q st' r | None => False end.

Lemma seg_wp_mono {A} (c : Seg A) (Q R : SegState → log_result A → Prop) st :
  (∀ st' r, Q st' r → R st' r) → seg_wp c Q st → seg_wp c R st.
Proof. unfold seg_wp. destruct (c st) as [[]|]; auto. Qed.

Lemma seg_wp_bind {A B} (c : Seg A) (k : A → Seg B) Q st :
  seg_wp c (λ st' r, match r with Ok a => seg_wp (k a) Q st' | Err e => Q st' (Err e) end) st →
  seg_wp (c ≫= k) Q st.
Proof. unfold seg_wp, mbind, seg_bind. by destruct (c st) as [[? []]|]. Qed.

Lemma seg_wp_or_poison {A} (c : Seg A) Q st :
  seg_wp c (λ st' r, match r with Ok a => Q st' (Ok a)
    | Err e => Q (ActiveSegment.set_poisoned true st'.1, st'.2) (Err e) end) st →
  seg_wp (or_poison c) Q st.
Proof. unfold seg_wp, or_poison. by destruct (c st) as [[? []]|]. Qed.

Lemma seg_wp_get {A} (k : ActiveSegment.t → Seg A) Q self s :
  seg_wp (k self) Q (self, s) → seg_wp (seg_get ≫= k) Q (self, s).
Proof. done. Qed.

Lemma seg_wp_lift {A B} (r : log_result A) a (k : A → Seg B) Q st :
  r = Ok a → seg_wp (k a) Q st → seg_wp (seg_lift r ≫= k) Q st.
Proof. by intros ->. Qed.

Lemma seg_wp_modify {A} f (k : unit → Seg A) Q self s :
  seg_wp (k tt) Q (f self, s) → seg_wp (seg_modify f ≫= k) Q (self, s).
Proof. done. Qed.

Lemma seg_wp_ret {A} (a : A) Q st : Q st (Ok a) → seg_wp (mret a) Q st.
Proof. done. Qed.

Definition no_fault (s : SimState.t) : Prop := SimState.plan s = FaultPlan.NoFault.

Lemma seg_wp_io {A} F G (c : SimE SegmentError A) (Q : SimState.t → A → Prop) self s :
  view_spec F G c Q s →
  seg_wp (seg_io c) (λ st' r, st'.1 = self ∧ (no_fault s → no_fault st'.2) ∧
    match r with Ok a => Q st'.2 a | Err _ => (no_fault s → F) ∧ failed G st'.2 end) (self, s).
Proof.
  unfold view_spec, io_wp, seg_wp, seg_io. cbn [snd fst]. intros Hc.
  destruct (c s) as [[s' r]|]; [|done]. destruct Hc as [Hp Hr]. by destruct r.
Qed.

Lemma seg_wp_on_file {A} F G (c : SimFile.t → SimE SegmentError (A * SimFile.t))
    (Q : SimState.t → A * SimFile.t → Prop) self s :
  view_spec F G (c (ActiveSegment.file self)) Q s →
  seg_wp (on_file c) (λ st' r, (no_fault s → no_fault st'.2) ∧
    match r with
    | Ok a => ∃ f, st'.1 = ActiveSegment.set_file f self ∧ Q st'.2 (a, f)
    | Err _ => st'.1 = self ∧ (no_fault s → F) ∧ failed G st'.2
    end) (self, s).
Proof.
  unfold view_spec, io_wp, seg_wp, on_file. cbn [snd fst]. intros Hc.
  destruct (c (ActiveSegment.file self) s) as [[s' [[a f]|err]]|]; cbn [mbind option_bind]; [| |done].
  - destruct Hc as [Hp Hq]. split; [done|]. by exists f.
  - by destruct Hc as (Hp & HF & Hf).
Qed.

Lemma failed_inode (G : view → Prop) i s :
  failed G s → (∀ v, G v → v_ns v !! p = Some i) → i < length (SimState.inodes s).
Proof.
  intros Hf HG. unfold failed in Hf. destruct (SimState.crashed s).
  - destruct Hf as (v & [[_ _ Hd] Hv _ _] & Hgv). apply HG in Hgv. rewrite <-Hv in Hgv. by apply Hd in Hgv.
  - destruct Hf as (D & Hup & Hs). pose proof (HG _ (survives_visible G D Hs)) as Hn.
    by eapply up_inode; [done|by right|].
Qed.

(** A crash leaves the first [a] records or the first [b]. *)
Definition either (i : nat) (log : list LogRecord.t) (bs : list (list u8)) (a b : nat) (v : view) : Prop :=
  (∃ j, recoverable_at i j (take a log) (take a bs) v) ∨
  (∃ j, recoverable_at i j (take b log) (take b bs) v).

Lemma either_name i log bs a b v : either i log bs a b v → v_ns v !! p = Some i.
Proof. by intros [[j [_ Hn _ _ _ _ _]]|[j [_ Hn _ _ _ _ _]]]. Qed.

Lemma failed_inert G i self s :
  failed G s → (∀ v, G v → v_ns v !! p = Some i) → SimFile.inode (ActiveSegment.file self) = i →
  inert G (ActiveSegment.set_poisoned true self, s).
Proof.
  intros Hf HG Hi. split; [done|]. split; [|by left]. cbn [fst snd ActiveSegment.file ActiveSegment.set_poisoned].
  rewrite Hi. by eapply failed_inode.
Qed.

Lemma persist_spec nonce log bs T cn n i j pos e D self s :
  stored log bs T cn i j D → up D e s → n <= length log →
  ActiveSegment.path self = p → ActiveSegment.file self = SimFile.mk p i pos e true →
  ActiveSegment.header self = h →
  seg_wp (persist_commit_boundary nonce (offset_at base_offset n) (length (concat (take n bs))))
    (λ st' r, (no_fault s → no_fault st'.2) ∧
      match r with
      | Ok _ => st'.1 = self ∧ ∃ w j', up (Disk w []) e st'.2 ∧ v_data w !! i = Some (hb ++ concat bs) ∧
          recoverable_at i j' (take n log) (take n bs) w ∧
          ∀ x, x ≠ q → x ≠ t nonce → v_ns w !! x = v_ns (visible D) !! x
      | Err _ => (no_fault s → is_Some (v_ns (visible D) !! t nonce)) ∧ inert (either i log bs cn n) st'
      end) (self, s).
Proof.
  intros [Hok Hcn Hfile Hpend Hsurv] Hup Hn Hpath Hfl Hh.
  pose proof (survives_visible _ _ Hsurv) as Hvis.
  assert (i < length (v_data (base D))) as Hi.
  { rewrite <-(up_length D e s Hup). eapply up_inode; [done|by right|]. apply Hvis. }
  assert (survives (either i log bs cn n) D) as Hsurv' by (intros k; left; by exists j).
  unfold persist_commit_boundary. apply seg_wp_bind, seg_wp_or_poison. unfold sync_file_data.
  apply seg_wp_get. rewrite Hfl. eapply seg_wp_mono;
    [|apply (seg_wp_io False (either i log bs cn n) _ (λ s' _, up (sync_file i D) e s')), vs_map_err;
      by eapply vs_sync_data].
  intros [self1 s1] r (Heq & Hplan & Hr). cbn [fst snd] in *. subst self1.
  destruct r as [[]|err].
  2: { destruct Hr as [HF Hf]. split; [done|]. split; [by intros ?%HF|].
       apply (failed_inert _ i); [done|by apply either_name|by rewrite Hfl]. }
  rewrite only_data_sync in Hr by done. apply seg_wp_get. rewrite Hpath, Hh.
  eapply seg_wp_lift; [apply (sk_active _ HX)|]. apply seg_wp_or_poison.
  set (bytes := boundary_of n (take n bs)). set (v := visible D) in *.
  set (touch := touched (s_dir X) (s_stem X ++ as_bytes ".commit") nonce bytes v).
  eapply seg_wp_mono; [|apply (seg_wp_io (is_Some (v_ns v !! t nonce)) touch _ (λ s' _, ∃ w,
      replaced (s_dir X) (s_stem X ++ as_bytes ".commit") nonce bytes v w ∧ up (Disk w []) e s'));
    eapply write_atomic_spec; [apply sidecar_name; constructor|apply sidecar_utf8; [apply HX|constructor]|apply encode_boundary_nonempty|exact Hr|apply Hvis|eauto]].
  intros [self2 s2] r2 (Heq & Hplan2 & Hr2). cbn [fst snd] in *. subst self2.
  assert (∀ w, touch w → either i log bs cn n w) as Htouched.
  { intros w Hw. destruct (replaced_recoverable nonce log bs T cn n i j v w Hok Hn Hfile Hvis Hw) as [Ha Hb].
    destruct (tc_commit _ _ _ _ _ _ Hw) as [Hc|[Hc1 Hc2]]; [left; exists j; by apply Ha|right; eexists; by apply Hb]. }
  destruct r2 as [[]|err].
  - split; [by auto|]. split; [done|]. destruct Hr2 as (w & (Hw & Hc1 & Hc2 & _) & Hup2).
    exists w, (length (v_data v)). split_and!; [done| | |].
    + eapply prefix_lookup_Some; [exact Hfile|]. by apply (tc_data _ _ _ _ _ _ Hw).
    + by apply (replaced_recoverable nonce log bs T cn n i j v w Hok Hn Hfile Hvis Hw).
    + intros x Hq Ht. by apply (tc_names _ _ _ _ _ _ Hw).
  - destruct Hr2 as [HF Hf]. split; [by auto|]. split; [by auto|].
    apply (failed_inert _ i); [by eapply failed_mono|by apply either_name|by rewrite Hfl].
Qed.

(** What an operation may leave when it fails: the first [a] records or the first [b]. *)
Definition leaves_either (log : list LogRecord.t) (bs : list (list u8)) (a b : nat) (v : view) : Prop :=
  recoverable (take a log) (take a bs) v ∨ recoverable (take b log) (take b bs) v.

Lemma either_leaves i log bs a b v : either i log bs a b v → leaves_either log bs a b v.
Proof. intros [[j Hj]|[j Hj]]; [left|right]; by exists i, j. Qed.

Lemma inert_mono (G H : view → Prop) st : (∀ v, G v → H v) → inert G st → inert H st.
Proof. intros HGH (Hf & Hi & Hr). split_and!; [by eapply failed_mono|done|done]. Qed.

(** The name of the temporary file of an operation is taken. *)
Definition taken (nonce : Uuid) (s : SimState.t) : Prop := is_Some (SimState.ns_visible s !! t nonce).

Lemma stored_settled log bs T n i j w :
  log_ok h T0 log bs T → n <= length log → v_data w !! i = Some (hb ++ concat bs) →
  recoverable_at i j (take n log) (take n bs) w → stored log bs T n i j (Disk w []).
Proof. intros Hok Hn Hf Hr. split; try done. by apply survives_none. Qed.

Lemma ensure_writable_ok {A} (k : unit → Seg A) log bs T cn i pos e report Q s :
  seg_wp (k tt) Q (segment_of log bs T cn i pos e report, s) →
  seg_wp (ensure_writable ≫= k) Q (segment_of log bs T cn i pos e report, s).
Proof. done. Qed.

(** A segment whose records are all committed, on a disk with nothing pending. *)
Definition settled (log : list LogRecord.t) (bs : list (list u8)) (T : tracker) (st : SegState) : Prop :=
  ∃ i j pos e report w,
    stored log bs T (length log) i j (Disk w []) ∧
    st.1 = segment_of log bs T (length log) i pos e report ∧ up (Disk w []) e st.2.

Lemma settled_healthy log bs T st : settled log bs T st → healthy log bs T (length log) st.
Proof. intros (i & j & pos & e & report & w & ?). by exists i, j, pos, e, report, (Disk w []). Qed.

(** Committing keeps every other name. *)
Definition names_kept (own : PathBuf → Prop) (s s' : SimState.t) : Prop :=
  ∀ x, ¬ own x → SimState.ns_visible s' !! x = SimState.ns_visible s !! x.

Lemma commit_settles nonce log bs T cn self s :
  healthy log bs T cn (self, s) →
  seg_wp (commit nonce) (λ st' r, (no_fault s → no_fault st'.2) ∧
    match r with
    | Ok offset => offset = offset_at base_offset (length log) ∧ settled log bs T st' ∧
        names_kept (λ x, x = q ∨ x = t nonce) s st'.2
    | Err _ => (no_fault s → taken nonce s) ∧ inert (leaves_either log bs cn (length log)) st'
    end) (self, s).
Proof.
  intros (i & j & pos & e & report & D & Hst & Heq & Hup). cbn [fst snd] in *. subst self.
  unfold commit. apply ensure_writable_ok, seg_wp_get, seg_wp_bind.
  pose proof (sd_log _ _ _ _ _ _ _ Hst) as Hok.
  pose proof (encode_log_length _ _ _ _ (lo_frames _ _ _ _ _ Hok)) as Hlen.
  assert (take (length log) log = log ∧ take (length log) bs = bs) as [Htl Htb] by (by rewrite !take_ge by lia).
  pose proof (persist_spec nonce log bs T cn (length log) i j pos e D
    (segment_of log bs T cn i pos e report) s Hst Hup ltac:(done) eq_refl eq_refl eq_refl) as Hpers.
  rewrite Htb in Hpers. eapply seg_wp_mono; [|exact Hpers].
  intros [self1 s1] r [Hplan Hr]. cbn [fst snd] in *. destruct r as [[]|err].
  - destruct Hr as (-> & w & j' & Hup' & Hf & Hrec & Hnames). apply seg_wp_modify, seg_wp_ret. split; [done|].
    split; [done|]. split.
    + exists i, j', pos, e, report, w. split_and!; [|done|done].
      apply stored_settled; [done|done|done|]. by rewrite Htb.
    + intros x Hx. cbn [snd]. rewrite (up_names _ _ _ Hup'), (up_names _ _ _ Hup). by apply Hnames; naive_solver.
  - destruct Hr as [Ht Hin]. split; [done|]. split.
    + intros Hn. unfold taken. rewrite (up_names D e s Hup). by apply Ht.
    + eapply inert_mono; [|exact Hin]. intros v Hv. by eapply either_leaves.
Qed.

Lemma commit_spec nonce log bs T cn self s :
  healthy log bs T cn (self, s) →
  seg_wp (commit nonce) (λ st' r, (no_fault s → no_fault st'.2) ∧
    match r with
    | Ok offset => offset = offset_at base_offset (length log) ∧ healthy log bs T (length log) st'
    | Err _ => (no_fault s → taken nonce s) ∧ inert (leaves_either log bs cn (length log)) st'
    end) (self, s).
Proof.
  intros Hh. eapply seg_wp_mono; [|by apply commit_settles]. intros st' [offset|err] [Hp Hr]; [|done].
  destruct Hr as (-> & Hs & _). split_and!; [done|done|by apply settled_healthy].
Qed.

(** ** Truncating *)

Lemma set_len_content log bs T n :
  log_ok h T0 log bs T → n <= length log →
  apply_data_op (hb ++ concat bs) (DataOp.SetLen (frame_start (length hb) bs n)) = hb ++ concat (take n bs).
Proof.
  intros Hok Hn. simpl. unfold frame_start.
  rewrite <-(take_drop n bs) at 2. rewrite concat_app, (assoc_L (++)).
  rewrite <-length_app, resize_app_le by done. by rewrite resize_all.
Qed.

Lemma shrink_spec log bs T n i j pos e w s :
  log_ok h T0 log bs T → n <= length log → up (Disk w []) e s →
  v_data w !! i = Some (hb ++ concat bs) → recoverable_at i j (take n log) (take n bs) w →
  view_spec False (recoverable_at i j (take n log) (take n bs))
    (file_set_len (SimFile.mk p i pos e true) (frame_start (length hb) bs n);;
     file_sync_data (SimFile.mk p i pos e true);; mret (tt, SimFile.mk p i pos e true))
    (λ s' r, r.2 = SimFile.mk p i pos e true ∧ ∃ w', up (Disk w' []) e s' ∧
       v_data w' !! i = Some (hb ++ concat (take n bs)) ∧ recoverable_at i j (take n log) (take n bs) w') s.
Proof.
  intros Hok Hn Hup Hf Hrec.
  assert (i < length (v_data (base (Disk w [])))) as Hi by (by apply lookup_lt_Some in Hf).
  apply vs_bind. eapply vs_set_len; [done|by apply survives_none|done|]. intros s1 Hup1.
  set (op := PendingOp.Data i (DataOp.SetLen (frame_start (length hb) bs n))) in *.
  assert (visible (push (Disk w []) op) = view_op w op) as Hvis by done.
  assert (recoverable_at i j (take n log) (take n bs) (view_op w op)) as Hrec'.
  { apply recoverable_alter; [done|]. intros c [rest ->]. simpl. unfold frame_start.
    rewrite <-length_app, resize_app_le, resize_all by done. done. }
  apply vs_bind. eapply vs_sync_data; [done|by apply survives_push; [apply survives_none|]|done|].
  intros s2 Hup2. rewrite only_data_sync in Hup2.
  2: { repeat constructor. simpl. by rewrite decide_True. }
  apply vs_ret. split; [done|]. rewrite Hvis in Hup2. exists (view_op w op). split_and!; [done| |done].
  cbn [op view_op v_data]. rewrite list_lookup_alter_eq, Hf. cbn [fmap option_fmap option_map].
  by rewrite (set_len_content log bs T).
Qed.

(** A read that fails leaves the segment as it was, or the disk is down. *)
Lemma seg_wp_on_file_quiet {A} F G (c : SimFile.t → SimE SegmentError (A * SimFile.t))
    (Q : SimState.t → A * SimFile.t → Prop) P D e self s :
  up D e s → survives G D → SimFile.inode (ActiveSegment.file self) < length (SimState.inodes s) →
  view_spec F G (c (ActiveSegment.file self)) Q s →
  quiet (SimFile.inode (ActiveSegment.file self)) (c (ActiveSegment.file self)) P →
  seg_wp (on_file c) (λ st' r, (no_fault s → no_fault st'.2) ∧
    match r with
    | Ok a => ∃ f, st'.1 = ActiveSegment.set_file f self ∧ Q st'.2 (a, f)
    | Err _ => (no_fault s → F) ∧ st'.1 = self ∧ (up D e st'.2 ∨ inert G st')
    end) (self, s).
Proof.
  intros Hup HG Hi Hspec Hquiet. pose proof (Hquiet G s (up_failed _ _ _ _ Hup HG) Hi) as Hq.
  unfold view_spec, io_wp, seg_wp, on_file in *. cbn [snd fst].
  destruct (c (ActiveSegment.file self) s) as [[s' [[a f]|err]]|]; cbn [mbind option_bind]; [| |done].
  - destruct Hspec as [Hp HQ]. split; [done|]. by exists f.
  - destruct Hspec as (Hp & HF & Hf), Hq as (Hf' & Hi' & Hsame & _). split; [done|]. split; [done|]. split; [done|].
    unfold same_or_down in Hsame. rewrite (up_up _ _ _ Hup) in Hsame.
    destruct Hsame as [Hc|Hsame]; [right|left; by apply Hsame]. split_and!; [done|done|by right].
Qed.

Lemma stored_inode log bs T cn i j D e s :
  stored log bs T cn i j D → up D e s → i < length (SimState.inodes s).
Proof.
  intros Hst Hup. pose proof (survives_visible _ _ (sd_survives _ _ _ _ _ _ _ Hst)) as Hvis.
  eapply up_inode; [done|by right|]. apply Hvis.
Qed.

Lemma offset_index log bs T (offset : u64) :
  log_ok h T0 log bs T → (ival base_offset <= ival offset)%Z →
  (ival offset < ival (offset_at base_offset (length log)))%Z →
  ∃ n, n < length log ∧ offset = offset_at base_offset n.
Proof.
  intros Hok Hb Hlt. rewrite (offset_at_val h T0 log bs T) in Hlt by done.
  exists (Z.to_nat (offset - base_offset)). split; [lia|].
  unfold offset_at. rewrite Z2Nat.id by lia. rewrite <-(wrap_int_ival offset) at 1. f_equal. lia.
Qed.

Lemma truncate_tail_spec log bs T cn n Tn i j pos e report w s path :
  log_ok h T0 log bs T → n <= length log → log_ok h T0 (take n log) (take n bs) Tn →
  up (Disk w []) e s → v_data w !! i = Some (hb ++ concat (take n bs)) →
  recoverable_at i j (take n log) (take n bs) w → path = p →
  seg_wp (scan ← or_poison (on_file (λ f, scan_records f path h (length hb)
            (Some (frame_start (length hb) bs n)) false (s_inherited X)));
          if decide (ScanResult.next_offset scan ≠ offset_at base_offset n) then
            seg_modify (ActiveSegment.set_poisoned true);;
            seg_fail (Corrupt (frame_start (length hb) bs n) ("truncation to offset "
              +:+ int_display (offset_at base_offset n) +:+ " left a log ending at "
              +:+ int_display (ScanResult.next_offset scan)))
          else
            or_poison (on_file (λ f, map_err (io_error path)
              (file_seek f (SeekStart (frame_start (length hb) bs n)))));;
            seg_modify (ActiveSegment.set_committed_offset (ScanResult.next_offset scan));;
            seg_modify (ActiveSegment.set_derived (ScanResult.next_offset scan) (ScanResult.records scan)
              (length (concat (take n bs))) (ScanResult.producer_states scan)
              (ScanResult.producer_epochs scan) (ScanResult.index scan) (ScanResult.accumulator scan));;
            mret (TruncateOutcome.mk (nat_u64 (length log - ScanResult.records scan))
              (length hb + length (concat bs) - frame_start (length hb) bs n) (ScanResult.next_offset scan)))
    (λ st' r, (no_fault s → no_fault st'.2) ∧
      match r with
      | Ok out => out = TruncateOutcome.mk (nat_u64 (length log - n)) (length (concat (drop n bs)))
          (offset_at base_offset n) ∧ healthy (take n log) (take n bs) Tn n st'
      | Err _ => (no_fault s → False) ∧ inert (recoverable_at i j (take n log) (take n bs)) st'
      end) (segment_of log bs T cn i pos e report, s).
Proof.
  intros Hok Hn Hokn Hup Hf Hrec ->. set (self := segment_of log bs T cn i pos e report).
  set (G := recoverable_at i j (take n log) (take n bs)) in *.
  assert (∀ v, G v → v_ns v !! p = Some i) as HGi by (by intros v [_ Hv _ _ _ _ _]).
  assert (length (take n log) = n) as Hln by (rewrite length_take; lia).
  pose proof (content_bound _ _ _ Hok) as Hbound. pose proof header_bound as Hhb.
  assert (frame_start (length hb) bs n <= length (hb ++ concat bs)) as Hstart.
  { rewrite length_app. unfold frame_start. rewrite <-(take_drop n bs) at 2. rewrite concat_app, length_app. lia. }
  apply seg_wp_bind, seg_wp_or_poison. eapply seg_wp_mono;
    [|apply (seg_wp_on_file False G _ (λ s' r, up (Disk w []) e s' ∧
        r.1 = scan_result h (length hb) (s_accumulator X) (take n log) (take n bs) Tn 0 ∧
        ∃ pos', r.2 = SimFile.mk p i pos' e true));
      eapply (vs_scan_records _ _ _ _ _ _ _ _ _ _ _ _ _ (take n log) (take n bs) Tn hb []);
      [exact Hup|by apply survives_none|exact Hf|done|by rewrite app_nil_r|unfold u64_end; lia|apply (sk_accumulator _ HX)|done|]].
  2: { intros s' pos' Hup'. split_and!; [done|done|]. by exists pos'. }
  intros [self1 s1] r [Hplan Hr]. cbn [fst snd] in *. destruct r as [scan|err].
  2: { destruct Hr as (-> & HF & Hfl). split; [done|]. split; [done|]. by apply (failed_inert G i). }
  destruct Hr as (f & -> & Hup1 & Hscan & pos' & Hfeq). cbn [fst snd] in Hscan, Hfeq. subst scan f.
  unfold scan_result. cbn [ScanResult.next_offset ScanResult.records ScanResult.producer_states
    ScanResult.producer_epochs ScanResult.index ScanResult.accumulator]. rewrite Hln.
  rewrite decide_False by (intros Hne; by destruct Hne).
  apply seg_wp_bind, seg_wp_or_poison. eapply seg_wp_mono;
    [|apply (seg_wp_on_file False G _ (λ s' r, up (Disk w []) e s' ∧ ∃ pos'', r.2 = SimFile.mk p i pos'' e true));
      apply vs_map_err; eapply vs_file_seek;
      [exact Hup1|by apply survives_none|exact Hf|done|unfold u64_end; lia|]].
  2: { intros s' Hup'. split; [done|]. by eexists. }
  intros [self2 s2] r2 [Hplan2 Hr2]. cbn [fst snd] in *. destruct r2 as [x|err].
  2: { destruct Hr2 as (-> & HF & Hfl). split; [by auto|]. split; [by auto|]. by apply (failed_inert G i). }
  destruct Hr2 as (f2 & -> & Hup2 & pos'' & Hf2). cbn [snd] in Hf2. subst f2.
  do 2 apply seg_wp_modify. apply seg_wp_ret. split; [by auto|]. split.
  - f_equal. unfold frame_start. rewrite <-(take_drop n bs) at 1. rewrite concat_app, length_app. lia.
  - exists i, j, pos'', e, report, (Disk w []). split_and!; [|unfold segment_of|exact Hup2].
    + apply stored_settled; [done|by rewrite Hln|done|]. unfold G in Hrec. rewrite !take_take, Nat.min_id. done.
    + by rewrite Hln.
Qed.

Lemma truncate_spec nonce offset log bs T cn self s :
  healthy log bs T cn (self, s) →
  seg_wp (truncate_to nonce offset) (λ st' r, (no_fault s → no_fault st'.2) ∧
    match r with
    | Ok out =>
        (offset = offset_at base_offset (length log) ∧
         out = TruncateOutcome.mk zero 0 offset ∧ healthy log bs T cn st') ∨
        (∃ n Tn, n < length log ∧ offset = offset_at base_offset n ∧
           out = TruncateOutcome.mk (nat_u64 (length log - n)) (length (concat (drop n bs))) offset ∧
           healthy (take n log) (take n bs) Tn n st')
    | Err _ =>
        ((healthy log bs T cn st' ∧ (no_fault s → st' = (self, s))) ∨
         (∃ n, n < length log ∧ offset = offset_at base_offset n ∧ inert (leaves_either log bs cn n) st' ∧
            (no_fault s → taken nonce s))) ∧
        (no_fault s → ¬ taken nonce s →
         (ival offset < ival base_offset)%Z ∨ (ival (offset_at base_offset (length log)) < ival offset)%Z)
    end) (self, s).
Proof.
  intros Hh. pose proof Hh as (i & j & pos & e & report & D & Hst & Heq & Hup). cbn [fst snd] in *. subst self.
  pose proof (sd_log _ _ _ _ _ _ _ Hst) as Hok. set (self := segment_of log bs T cn i pos e report) in *.
  unfold truncate_to. apply ensure_writable_ok, seg_wp_get. cbv zeta. fold self.
  change (ActiveSegment.header self) with h. change (ActiveSegment.path self) with p.
  change (ActiveSegment.next_offset self) with (offset_at base_offset (length log)).
  destruct (decide (ival (offset_at base_offset (length log)) < ival offset)%Z) as [Hb|Hb].
  { split; [done|]. split; [left; done|]. by right. }
  destruct (decide (ival offset < ival base_offset)%Z) as [Hb'|Hb'].
  { split; [done|]. split; [left; done|]. by left. }
  destruct (decide (offset = offset_at base_offset (length log))) as [->|Hne].
  { split; [done|]. left. done. }
  assert (∃ n, n < length log ∧ offset = offset_at base_offset n) as (n & Hn & ->).
  { eapply offset_index; [done|lia|]. assert (ival offset ≠ ival (offset_at base_offset (length log))); [|lia].
    intros Hv. by apply int_eq in Hv. }
  clear Hb Hb' Hne. destruct (log_ok_take _ _ _ _ _ n Hok) as [Tn Hokn].
  apply seg_wp_bind. eapply seg_wp_mono;
    [|eapply (seg_wp_on_file_quiet False _ _ (λ s' r, up D e s' ∧ r.1 = frame_start (length hb) bs n ∧
         ∃ pos', r.2 = SimFile.mk p i pos' e true) _ D e);
      [done|apply (sd_survives _ _ _ _ _ _ _ Hst)|by eapply stored_inode| |apply quiet_position_of_offset]].
  2: { eapply (vs_position_of_offset _ _ _ _ _ _ _ _ _ _ _ _ _ _ _ hb []);
       [exact Hup|apply (sd_survives _ _ _ _ _ _ _ Hst)|apply (sd_file _ _ _ _ _ _ _ Hst)|done
       |by rewrite app_nil_r|lia|pose proof (content_bound _ _ _ Hok); unfold u64_end; lia|].
       intros s' pos' Hup'. split_and!; [done|done|]. by exists pos'. }
  intros [self1 s1] r [Hplan Hr]. cbn [fst snd] in *. destruct r as [position|err].
  2: { destruct Hr as (HF & -> & Hr). split; [done|]. split; [|by intros ?%HF].
       destruct Hr as [Hup1|Hin]; [left; split; [|by intros ?%HF]|right].
       - exists i, j, pos, e, report, D. done.
       - exists n. split_and!; [done|done| |by intros ?%HF]. eapply inert_mono; [|exact Hin]. intros v Hv. left. by exists i, j. }
  destruct Hr as (f & -> & Hup1 & -> & pos1 & ->).
  change (ActiveSegment.set_file _ self) with (segment_of log bs T cn i pos1 e report).
  apply seg_wp_bind.
  assert (frame_start (length hb) bs n - ActiveSegment.header_len self = length (concat (take n bs))) as ->
    by (unfold frame_start; cbn; lia).
  eapply seg_wp_mono; [|eapply (persist_spec nonce log bs T cn n i j pos1 e D); [done|done|lia|done|done|done]].
  intros [self2 s2] r2 [Hplan2 Hr2]. cbn [fst snd] in *. destruct r2 as [[]|err].
  2: { destruct Hr2 as [Ht Hin]. split; [by auto|].
       assert (no_fault s → taken nonce s) as Htaken
         by (intros Hnf; unfold taken; rewrite (up_names D e s Hup); by auto).
       split; [|intros Hnf Hnt; by destruct Hnt; auto]. right. exists n. split_and!; [done|done| |done].
       eapply inert_mono; [|exact Hin]. intros v Hv. by eapply either_leaves. }
  destruct Hr2 as (-> & w & j' & Hup2 & Hf & Hrec & _).
  apply seg_wp_bind, seg_wp_or_poison. eapply seg_wp_mono;
    [|eapply seg_wp_on_file; apply vs_map_err; eapply (shrink_spec log bs T n); [done|lia|done|done|done]].
  intros [self3 s3] r3 [Hplan3 Hr3]. cbn [fst snd] in *.
  assert (∀ st', inert (recoverable_at i j' (take n log) (take n bs)) st' → inert (leaves_either log bs cn n) st')
    as Hleave by (intros st'; apply inert_mono; intros v Hv; right; by exists i, j').
  assert (∀ v, recoverable_at i j' (take n log) (take n bs) v → v_ns v !! p = Some i) as HGi
    by (by intros v [_ Hv _ _ _ _ _]).
  destruct r3 as [x|err].
  2: { destruct Hr3 as (-> & HF & Hfl). split; [by auto|].
       split; [|by intros Hnf; destruct (HF ltac:(auto))]. right. exists n.
       split_and!; [done|done| |by intros Hnf; destruct (HF ltac:(auto))]. by apply Hleave, (failed_inert _ i). }
  destruct Hr3 as (f3 & -> & Hf3 & w' & Hup3 & Hfile3 & Hrec3). cbn [snd] in Hf3. subst f3.
  change (ActiveSegment.set_file _ _) with (segment_of log bs T cn i pos1 e report).
  pose proof (truncate_tail_spec log bs T cn n Tn i j' pos1 e report w' s3 p Hok ltac:(lia) Hokn Hup3
    Hfile3 Hrec3 eq_refl) as Htail.
  eapply seg_wp_mono; [|exact Htail].
  intros [self4 s4] r4 [Hplan4 Hr4]. cbn [fst snd] in *. destruct r4 as [out|err].
  - destruct Hr4 as (-> & Hhealthy). split; [by auto|]. right. exists n, Tn. done.
  - destruct Hr4 as (HF & Hin). split; [by auto|].
    split; [|by intros Hnf; destruct (HF ltac:(auto))]. right. exists n.
    split_and!; [done|done|by apply Hleave|]. by intros Hnf; destruct (HF ltac:(auto)).
Qed.

(** ** Appending *)

(** A disk whose file shows the frames [xs] while a crash leaves the first [cn] records. *)
Record written (log : list LogRecord.t) (bs : list (list u8)) (cn i j : nat) (xs : list (list u8)) (D : disk)
    : Prop := {
  wr_file : v_data (visible D) !! i = Some (hb ++ concat xs);
  wr_pend : Forall (λ op, is_Some (data_op i op)) (pend D);
  wr_survives : survives (recoverable_at i j (take cn log) (take cn bs)) D;
}.

Definition wrote (i e : nat) (xs : list (list u8)) (pos : nat) (self : ActiveSegment.t) : ActiveSegment.t :=
  ActiveSegment.set_index (index_from h 0 (length hb) xs) (ActiveSegment.set_file (SimFile.mk p i pos e true) self).

Lemma written_append log bs cn i j xs y D :
  written log bs cn i j xs D → length (concat (take cn bs)) <= length (concat xs) →
  written log bs cn i j (xs ++ [y])
    (push D (PendingOp.Data i (DataOp.Write (length (hb ++ concat xs)) y))).
Proof.
  intros [Hf Hp Hs] Hle. split.
  - rewrite visible_push. cbn [view_op v_data]. rewrite list_lookup_alter_eq, Hf. cbn [fmap option_fmap option_map].
    rewrite append_data, concat_app. simpl. by rewrite app_nil_r, <-(assoc_L (++)).
  - cbn [push pend]. apply Forall_app. split; [done|]. repeat constructor. simpl. by rewrite decide_True.
  - apply survives_push; [done|]. apply recoverable_write; [by apply survives_visible|].
    rewrite !length_app. lia.
Qed.

Lemma write_pending_spec log bs cn i j e m ys xs D self s :
  written log bs cn i j xs D → up D e s → length (concat (take cn bs)) <= length (concat xs) →
  length xs = m → (base_offset + Z.of_nat (m + length ys) <= 18446744073709551615)%Z →
  Forall (λ y, y ≠ []) ys → ActiveSegment.header self = h → ActiveSegment.path self = p →
  seg_wp (write_pending (zip (offset_at base_offset <$> seq m (length ys)) ys) (length (hb ++ concat xs)))
    (λ st' r, (no_fault s → no_fault st'.2) ∧
      match r with
      | Ok _ => st'.1 = wrote i e (xs ++ ys) (length (hb ++ concat (xs ++ ys))) self ∧
          ∃ D', written log bs cn i j (xs ++ ys) D' ∧ up D' e st'.2 ∧ v_ns (visible D') = v_ns (visible D)
      | Err _ => (no_fault s → False) ∧ inert (recoverable_at i j (take cn log) (take cn bs)) st'
      end) (wrote i e xs (length (hb ++ concat xs)) self, s).
Proof.
  revert m xs D s. induction ys as [|y ys IH]; intros m xs D s Hw Hup Hle Hm Hoff Hys Hh Hpath.
  { cbn [length seq fmap list_fmap zip_with write_pending]. apply seg_wp_ret. rewrite app_nil_r.
    split; [done|]. split; [done|]. by exists D. }
  cbn [length seq fmap list_fmap zip_with write_pending]. apply seg_wp_get.
  apply Forall_cons in Hys as [Hy Hys]. simpl in Hoff.
  set (self1 := wrote i e xs (length (hb ++ concat xs)) self).
  change (ActiveSegment.header self1) with (ActiveSegment.header self).
  change (ActiveSegment.path self1) with (ActiveSegment.path self). rewrite Hh, Hpath.
  assert (wrapping_sub (offset_at base_offset m) base_offset = nat_u64 m) as Hrel.
  { unfold wrapping_sub, nat_u64, offset_at. pose proof (u64_bounds base_offset). f_equal.
    rewrite wrap_int_small; [lia|]. change (0 <= base_offset + Z.of_nat m <= 18446744073709551615)%Z. lia. }
  rewrite Hrel, nat_u64_val by (pose proof (u64_bounds base_offset); lia).
  assert (∀ (k : unit → Seg unit) Q,
    seg_wp (k tt) Q (wrote i e (xs ++ [y]) (length (hb ++ concat xs)) self, s) →
    seg_wp ((if is_multiple_of (Z.of_nat m) (AnyHeader.index_stride h)
       then seg_modify (ActiveSegment.set_index (ActiveSegment.index self1 ++
         [IndexEntry.mk (offset_at base_offset m) (length (hb ++ concat xs))])) else mret tt) ≫= k) Q (self1, s)) as Hindex.
  { intros k Q Hk. assert (index_from h 0 (length hb) (xs ++ [y]) = index_from h 0 (length hb) xs ++
      (if is_multiple_of (Z.of_nat m) (AnyHeader.index_stride h)
       then [IndexEntry.mk (offset_at base_offset m) (length (hb ++ concat xs))] else [])) as Hi.
    { rewrite index_from_app. cbn [index_from]. rewrite app_nil_r, length_app, Nat.add_0_l, Hm. done. }
    unfold wrote in Hk. rewrite Hi in Hk. destruct (is_multiple_of _ _); [by apply seg_wp_modify|].
    rewrite app_nil_r in Hk. exact Hk. }
  apply Hindex. clear Hindex. apply seg_wp_bind, seg_wp_or_poison.
  set (G := recoverable_at i j (take cn log) (take cn bs)).
  assert (∀ v, G v → v_ns v !! p = Some i) as HGi by (by intros v [_ Hv _ _ _ _ _]).
  eapply seg_wp_mono;
    [|apply (seg_wp_on_file False G _ (λ s' r, r.2 = SimFile.mk p i (length (hb ++ concat (xs ++ [y]))) e true ∧
        up (push D (PendingOp.Data i (DataOp.Write (length (hb ++ concat xs)) y))) e s'));
      apply vs_bind, vs_map_err; eapply vs_write_all;
      [exact Hup|apply Hw| |done| |]].
  2: { pose proof (wr_survives _ _ _ _ _ _ _ Hw 0) as H0.
       destruct (rc_file _ _ _ _ _ H0) as [rest Hr]. by apply lookup_lt_Some in Hr. }
  2: { intros k. apply recoverable_write; [by apply survives_visible, Hw|]. rewrite !length_app. lia. }
  2: { intros s' Hup'. apply vs_ret. split; [|done]. simpl. f_equal.
       rewrite concat_app. simpl. rewrite app_nil_r, !length_app. lia. }
  intros [self2 s2] r [Hplan Hr]. cbn [fst snd] in *. destruct r as [x|err].
  2: { destruct Hr as (-> & HF & Hfl). split; [done|]. split; [done|]. by apply (failed_inert G i). }
  destruct Hr as (f & -> & Hf & Hup2). cbn [snd] in Hf. subst f.
  pose proof (written_append _ _ _ _ _ _ y _ Hw Hle) as Hw2.
  assert (length (hb ++ concat xs) + length y = length (hb ++ concat (xs ++ [y]))) as ->
    by (rewrite concat_app; simpl; rewrite app_nil_r, !length_app; lia).
  eapply seg_wp_mono; [|eapply (IH (S m) (xs ++ [y])); [exact Hw2|exact Hup2| | |lia|done|done|done]].
  - intros [self3 s3] r3 [Hplan3 Hr3]. cbn [fst snd] in *. rewrite <-(assoc_L (++)) in Hr3. simpl in Hr3.
    split; [by auto|]. destruct r3; [|destruct Hr3 as [HF Hin]; split; [by auto|done]].
    destruct Hr3 as (-> & D' & Hw' & Hup' & Hns). split; [done|]. exists D'. split_and!; [done|done|].
    by rewrite Hns, visible_push.
  - pose proof (concat_length_app xs [y]). lia.
  - rewrite length_app. simpl. lia.
Qed.

(** The group a segment takes: its records can be represented, they are each a retry or the
    next of their producer, and they fit. *)
Record admits (log : list LogRecord.t) (bs : list (list u8)) (T : tracker) (records : list LogRecord.t)
    (outcomes : list AppendOutcome) (new : list LogRecord.t) (ys : list (list u8)) (T' : tracker) : Prop := {
  ad_fields : Forall (representable h) records;
  ad_offer : offer T base_offset (length log) records = Ok (outcomes, new, T');
  ad_log : log_ok h T0 (log ++ new) (bs ++ ys) T';
  ad_group : (Z.of_nat (length (concat ys)) <= AnyHeader.max_group_bytes h)%Z;
}.

Lemma around_first v : around v → first_ok T0.
Proof.
  intros [_ _ Hin]. destruct (v_ns v !! _).
  - destruct Hin as (bytes & _ & Hd). by apply decode_producer_snapshot_first in Hd.
  - rewrite Hin. apply default_first.
Qed.

Lemma log_ok_frames_app log new bs ys T :
  length bs = length log → log_ok h T0 (log ++ new) (bs ++ ys) T → encode_log h (length log) new = Ok ys.
Proof.
  intros Hlen [Hf _ _ _ _ _]. apply encode_log_app in Hf as (xs & zs & Hx & Hz & Heq).
  apply encode_log_length in Hx as Hlx. apply app_inj_1 in Heq as [-> ->]; [done|congruence].
Qed.

(** What the planning of a group finds, for the segment that stands for a log. *)
Section planning.
Context (log : list LogRecord.t) (bs : list (list u8)) (T : tracker) (cn i pos e : nat) (report : RecoveryReport.t).
Context (Hok : log_ok h T0 log bs T) (Hfirst : first_ok T0).
#[local] Abbreviation self := (segment_of log bs T cn i pos e report).
#[local] Abbreviation start := (GroupPlan.start (offset_at base_offset (length log))).

Lemma plan_started : planned self (length log) start [] [] T.
Proof.
  destruct T as [states epochs] eqn:HT. rewrite <-HT in *. pose proof (lo_offsets _ _ _ _ _ Hok).
  pose proof (planned_start self (length log) (offset_at base_offset (length log))) as Hp.
  change (ActiveSegment.producer_states self) with T.1 in Hp.
  change (ActiveSegment.producer_epochs self) with T.2 in Hp. rewrite <-surjective_pairing in Hp.
  rewrite HT in Hp |- *. apply Hp; [|done|done]. rewrite <-HT. eapply replay_first_ok; [done|apply Hok].
Qed.

Lemma plan_pending_length plan new ys T' :
  planned self (length log) plan new ys T' → length (GroupPlan.pending plan) = length new.
Proof.
  intros Hpl. rewrite (pl_pending _ _ _ _ _ _ Hpl), length_zip_with, length_fmap, length_seq.
  rewrite (encode_log_length _ _ _ _ (pl_frames _ _ _ _ _ _ Hpl)). lia.
Qed.

Lemma plan_admits records plan :
  Forall (representable h) records → plan_group self records start = Ok plan →
  GroupPlan.pending plan = [] ∨ (∃ a, check_segment_limits self plan = Ok a) →
  ∃ new ys T', planned self (length log) plan new ys T' ∧ admits log bs T records (GroupPlan.outcomes plan) new ys T'.
Proof.
  intros Hrep Hplan Hlim.
  destruct (plan_group_Ok self (length log) records _ _ _ _ _ plan_started Hplan)
    as (outs & new & ys & T' & Hoffer & Hpl & Hos). simpl in Hoffer, Hpl, Hos. rewrite Nat.add_0_r in Hoffer.
  exists new, ys, T'. split; [done|]. pose proof (plan_pending_length _ _ _ _ Hpl) as Hlen.
  destruct Hpl as [_ _ _ Hoff Hf _ Hb Hg]. rewrite Hos. pose proof Hok as [Hf0 Hr0 Hrp0 Hb0 Hrec0 Ho0].
  split; [done|done| |done]. split.
  - apply encode_log_app. by exists bs, ys.
  - apply Forall_app. split; [done|]. eapply (offer_Forall _ _ _ _ records); [exact Hrep|exact Hoffer].
  - rewrite replay_app, Hrp0. cbn [mbind option_bind]. by eapply offer_replay.
  - rewrite concat_app, length_app. destruct Hlim as [Hn|[attempted Hlim]].
    + rewrite Hn in Hlen. destruct new; [|done]. simpl in Hf. injection Hf as <-. simpl. lia.
    + apply check_segment_limits_ok in Hlim as (-> & Hlim & _). rewrite Hb in Hlim. exact Hlim.
  - rewrite length_app. destruct Hlim as [Hn|[attempted Hlim]].
    + rewrite Hn in Hlen. destruct new; [|done]. simpl. lia.
    + apply check_segment_limits_ok in Hlim as (_ & _ & Hlim). rewrite Hlen in Hlim. exact Hlim.
  - rewrite length_app. exact Hoff.
Qed.

Lemma plan_refused records error outs new ys T' :
  plan_group self records start = Err error → admits log bs T records outs new ys T' → False.
Proof.
  intros Hplan [_ Hoffer Hlog Hg].
  pose proof (log_ok_frames_app _ _ _ _ _ (encode_log_length _ _ _ _ (lo_frames _ _ _ _ _ Hok)) Hlog) as Hf.
  pose proof (lo_offsets _ _ _ _ _ Hlog) as Hoff. rewrite length_app in Hoff.
  pose proof (plan_group_Err self (length log) records _ _ _ _ _ outs new ys T' plan_started Hplan) as Herr.
  simpl in Herr. rewrite Nat.add_0_r in Herr. specialize (Herr Hoffer Hf Hoff).
  change (AnyHeader.max_group_bytes (ActiveSegment.header self)) with (AnyHeader.max_group_bytes h) in Herr. lia.
Qed.

Lemma limits_refused records plan error outs new ys T' :
  plan_group self records start = Ok plan → check_segment_limits self plan = Err error →
  admits log bs T records outs new ys T' → False.
Proof.
  intros Hplan Hlim [_ Hoffer Hlog Hg].
  pose proof (log_ok_frames_app _ _ _ _ _ (encode_log_length _ _ _ _ (lo_frames _ _ _ _ _ Hok)) Hlog) as Hf.
  destruct (plan_group_Ok self (length log) records _ _ _ _ _ plan_started Hplan)
    as (outs' & new' & ys' & T'' & Hoffer' & Hpl & _). simpl in Hoffer', Hpl. rewrite Nat.add_0_r in Hoffer'.
  change (AnyHeader.base_offset (ActiveSegment.header self)) with base_offset in Hoffer'.
  rewrite Hoffer in Hoffer'. injection Hoffer' as <- <- <-.
  pose proof (pl_frames _ _ _ _ _ _ Hpl) as Hf'. change (ActiveSegment.header self) with h in Hf'.
  rewrite Hf in Hf'. injection Hf' as <-.
  assert (∃ a, check_segment_limits self plan = Ok a) as [a Ha]; [|congruence].
  eexists. apply check_segment_limits_ok. split; [done|]. rewrite (plan_pending_length _ _ _ _ Hpl).
  rewrite (pl_bytes _ _ _ _ _ _ Hpl). destruct Hlog as [_ _ _ Hb Hr _].
  rewrite concat_app, length_app in Hb. rewrite length_app in Hr. done.
Qed.
End planning.

Definition committed_after (durability : Durability) (cn n : nat) : nat :=
  match durability with Fsync => n | Buffered => cn end.

Lemma accumulate_pending acc (offsets : list u64) ys :
  length offsets = length ys →
  foldl (λ acc p, ContentAccumulator.update p.2 acc) acc (zip offsets ys) = accumulate acc ys.
Proof.
  revert acc offsets. induction ys as [|y ys IH]; intros acc [|o offsets] Hlen; try done. simpl. apply IH.
  simpl in Hlen. lia.
Qed.

(** The segment after a group was written. *)
Lemma appended_state log bs T cn i pos pos' e report plan new ys T' :
  planned (segment_of log bs T cn i pos e report) (length log) plan new ys T' →
  let self := wrote i e (bs ++ ys) pos' (segment_of log bs T cn i pos e report) in
  let merged := merge_producer_deltas (ActiveSegment.producer_states self) (ActiveSegment.producer_epochs self)
    (GroupPlan.deltas plan) (GroupPlan.epoch_deltas plan) in
  ActiveSegment.set_derived (GroupPlan.prospective_next plan)
    (ActiveSegment.record_count self + length (GroupPlan.pending plan))
    (length (concat bs) + GroupPlan.group_bytes plan) merged.1 merged.2 (ActiveSegment.index self)
    (foldl (λ acc p, ContentAccumulator.update p.2 acc) (ActiveSegment.accumulator self) (GroupPlan.pending plan)) self
  = segment_of (log ++ new) (bs ++ ys) T' cn i pos' e report.
Proof.
  intros Hpl self merged. pose proof (plan_pending_length _ _ _ _ _ _ _ _ _ _ _ _ Hpl) as Hlen.
  destruct Hpl as [_ Hm Hn _ Hf Hp Hb _]. assert (merged = T') as -> by exact Hm.
  pose proof (encode_log_length _ _ _ _ Hf) as Hly.
  unfold segment_of, ActiveSegment.set_derived. rewrite Hlen, Hn, Hb, Hp.
  rewrite accumulate_pending by (by rewrite length_fmap, length_seq).
  cbn [self wrote segment_of ActiveSegment.set_index ActiveSegment.set_file ActiveSegment.path ActiveSegment.file
    ActiveSegment.header ActiveSegment.header_len ActiveSegment.committed_offset ActiveSegment.record_count
    ActiveSegment.index ActiveSegment.accumulator ActiveSegment.sealed ActiveSegment.poisoned
    ActiveSegment.recovery ActiveSegment.inherited].
  rewrite !length_app, concat_app, length_app. unfold accumulate. by rewrite foldl_app.
Qed.

(** What an append may do. *)
Definition append_post (nonce : Uuid) (records : list LogRecord.t) (durability : Durability)
    (log : list LogRecord.t) (bs : list (list u8)) (T : tracker) (cn : nat) (st : SegState)
    (st' : SegState) (r : log_result (list AppendOutcome)) : Prop :=
  (no_fault st.2 → no_fault st'.2) ∧
  match r with
  | Ok outcomes => ∃ new ys T', admits log bs T records outcomes new ys T' ∧
      healthy (log ++ new) (bs ++ ys) T' (committed_after durability cn (length (log ++ new))) st'
  | Err _ =>
      ((healthy log bs T cn st' ∧ (no_fault st.2 → st' = st)) ∨
       (∃ outcomes new ys T', admits log bs T records outcomes new ys T' ∧
          inert (leaves_either (log ++ new) (bs ++ ys) cn
            (committed_after durability cn (length (log ++ new)))) st' ∧
          (no_fault st.2 → taken nonce st.2))) ∧
      (no_fault st.2 → ¬ taken nonce st.2 →
       ∀ outcomes new ys T', admits log bs T records outcomes new ys T' → False)
  end.

Lemma append_refused nonce records durability log bs T cn st e :
  healthy log bs T cn st →
  (∀ outcomes new ys T', admits log bs T records outcomes new ys T' → False) →
  append_post nonce records durability log bs T cn st st (Err e).
Proof. intros Hh Hno. split; [done|]. split; [by left|]. intros _ _. exact Hno. Qed.

Lemma leaves_first log new bs ys a b v :
  length bs = length log → a <= length log → recoverable (take a log) (take a bs) v →
  leaves_either (log ++ new) (bs ++ ys) a b v.
Proof. intros Hl Ha Hr. left. by rewrite !take_app_le by lia. Qed.

Lemma append_retries_spec nonce records durability log bs T cn self s outcomes :
  healthy log bs T cn (self, s) → admits log bs T records outcomes [] [] T →
  seg_wp ((if decide (durability = Fsync) then commit nonce;; mret tt else mret tt);; mret outcomes)
    (append_post nonce records durability log bs T cn (self, s)) (self, s).
Proof.
  intros Hh Had. destruct durability; cbn [decide]; simpl.
  - apply seg_wp_bind, seg_wp_ret, seg_wp_ret. split; [done|]. exists [], [], T. split; [done|].
    by rewrite !app_nil_r.
  - do 2 apply seg_wp_bind. eapply seg_wp_mono; [|by apply commit_spec].
    intros [self' s'] r [Hp Hr]. cbn [fst snd] in *. destruct r as [o|err].
    + destruct Hr as [_ Hh']. apply seg_wp_ret, seg_wp_ret. split; [done|]. exists [], [], T. split; [done|].
      by rewrite !app_nil_r.
    + destruct Hr as [Ht Hin]. split; [done|]. split.
      * right. exists outcomes, [], [], T. rewrite !app_nil_r. done.
      * intros Hnf Hnt. by destruct (Hnt (Ht Hnf)).
Qed.

Lemma planned_pos log bs T cn i pos pos' e report plan new ys T' :
  planned (segment_of log bs T cn i pos e report) (length log) plan new ys T' →
  planned (segment_of log bs T cn i pos' e report) (length log) plan new ys T'.
Proof. intros [? ? ? ? ? ? ? ?]. by split. Qed.

Lemma frames_nonempty log bs T : log_ok h T0 log bs T → Forall (λ y, y ≠ []) bs.
Proof.
  intros [Hf Hrep _ _ _ _]. revert Hf. generalize 0. revert bs.
  induction Hrep as [|r log Hr Hrep IH]; intros bs n; simpl; [by intros [= <-]|].
  intros (b & Hb & (bs' & Hbs & [= <-])%result_bind_Ok)%result_bind_Ok. constructor; [|by eapply IH].
  apply encode_any_length in Hb; [|done]. intros ->. simpl in Hb. lia.
Qed.

Lemma append_end_spec nonce durability log bs T cn i j pos pos' e report plan new ys T' D s :
  planned (segment_of log bs T cn i pos e report) (length log) plan new ys T' →
  stored (log ++ new) (bs ++ ys) T' cn i j D → up D e s →
  seg_wp (append_end nonce durability plan (length (concat bs) + GroupPlan.group_bytes plan))
    (λ st' r, (no_fault s → no_fault st'.2) ∧
      match r with
      | Ok outcomes => outcomes = GroupPlan.outcomes plan ∧
          healthy (log ++ new) (bs ++ ys) T' (committed_after durability cn (length (log ++ new))) st'
      | Err _ => (no_fault s → taken nonce s) ∧ inert (leaves_either (log ++ new) (bs ++ ys) cn
          (committed_after durability cn (length (log ++ new)))) st'
      end) (wrote i e (bs ++ ys) pos' (segment_of log bs T cn i pos e report), s).
Proof.
  intros Hpl Hst Hup. pose proof (appended_state _ _ _ _ _ _ pos' _ _ _ _ _ _ Hpl) as Hstate. cbv zeta in Hstate.
  pose proof (pl_next _ _ _ _ _ _ Hpl) as Hnext. rewrite <-length_app in Hnext.
  pose proof (pl_bytes _ _ _ _ _ _ Hpl) as Hbytes.
  set (self := wrote i e (bs ++ ys) pos' (segment_of log bs T cn i pos e report)) in *.
  unfold append_end. destruct (merge_producer_deltas _ _ _ _) as [states epochs] eqn:Hmerge. cbn [fst snd] in Hstate.
  destruct durability; cbn [decide]; simpl (decide _).
  - apply seg_wp_bind, seg_wp_ret. apply seg_wp_get. rewrite Hmerge. apply seg_wp_modify.
    apply seg_wp_bind, seg_wp_ret, seg_wp_ret. split; [done|]. split; [done|].
    exists i, j, pos', e, report, D. split_and!; [done|exact Hstate|done].
  - apply seg_wp_bind. rewrite Hnext.
    pose proof (persist_spec nonce (log ++ new) (bs ++ ys) T' cn (length (log ++ new)) i j pos' e D self s
      Hst Hup ltac:(done) eq_refl eq_refl eq_refl) as Hpers.
    pose proof (encode_log_length _ _ _ _ (lo_frames _ _ _ _ _ (sd_log _ _ _ _ _ _ _ Hst))) as Hlen.
    assert (take (length (log ++ new)) (bs ++ ys) = bs ++ ys) as Htb by (by rewrite take_ge by lia).
    assert (length (concat bs) + GroupPlan.group_bytes plan = length (concat (bs ++ ys))) as Hatt
      by (rewrite Hbytes, concat_app, length_app; done).
    rewrite Htb, <-Hatt in Hpers. eapply seg_wp_mono; [|exact Hpers].
    intros [self1 s1] r [Hplan Hr]. cbn [fst snd] in *. destruct r as [[]|err].
    + destruct Hr as (-> & w & j' & Hup' & Hf & Hrec & _). apply seg_wp_get. rewrite Hmerge.
      do 2 apply seg_wp_modify. rewrite <-Hnext, Hstate. apply seg_wp_ret. split; [done|]. split; [done|].
      exists i, j', pos', e, report, (Disk w []). split_and!; [|by rewrite Hnext|done].
      apply stored_settled; [apply Hst|done|done|]. cbn [committed_after]. by rewrite Htb.
    + destruct Hr as [Ht Hin]. split; [done|]. split.
      * intros Hn. unfold taken. rewrite (up_names D e s Hup). by apply Ht.
      * eapply inert_mono; [|exact Hin]. intros v Hv. by eapply either_leaves.
Qed.

Lemma append_write_spec nonce records durability log bs T cn i j pos e report D s plan new ys T' :
  stored log bs T cn i j D → up D e s →
  planned (segment_of log bs T cn i pos e report) (length log) plan new ys T' →
  admits log bs T records (GroupPlan.outcomes plan) new ys T' →
  seg_wp (write_start ← on_file (λ f, map_err (io_error p) (file_seek f (SeekEnd 0)));
          write_pending (GroupPlan.pending plan) write_start;;
          append_end nonce durability plan (length (concat bs) + GroupPlan.group_bytes plan))
    (append_post nonce records durability log bs T cn (segment_of log bs T cn i pos e report, s))
    (segment_of log bs T cn i pos e report, s).
Proof.
  intros Hst Hup Hpl Had. set (self := segment_of log bs T cn i pos e report).
  pose proof (sd_log _ _ _ _ _ _ _ Hst) as Hok. pose proof (content_bound _ _ _ Hok) as Hbound.
  pose proof (encode_log_length _ _ _ _ (lo_frames _ _ _ _ _ Hok)) as Hlen.
  pose proof (ad_log _ _ _ _ _ _ _ _ Had) as Hok'. pose proof (sd_cn _ _ _ _ _ _ _ Hst) as Hcn.
  assert (∀ st' err, inert (recoverable_at i j (take cn log) (take cn bs)) st' → (no_fault s → no_fault st'.2) →
    (no_fault s → False) → append_post nonce records durability log bs T cn (self, s) st' (Err err)) as Hfail.
  { intros st' err Hin Hp HF. split; [done|]. split; [|by intros ?%HF]. right.
    exists (GroupPlan.outcomes plan), new, ys, T'. split_and!; [done| |by intros ?%HF].
    eapply inert_mono; [|exact Hin]. intros v Hv. apply leaves_first; [done|done|]. by exists i, j. }
  apply seg_wp_bind. eapply seg_wp_mono;
    [|eapply (seg_wp_on_file_quiet False _ _ (λ s' r, up D e s' ∧ r = (length (hb ++ concat bs),
         SimFile.mk p i (length (hb ++ concat bs)) e true)) _ D e);
      [done|apply (sd_survives _ _ _ _ _ _ _ Hst)|by eapply stored_inode| |apply quiet_map_err, quiet_file_seek]].
  2: { apply vs_map_err. eapply (vs_file_seek _ _ _ _ _ _ _ _ _ _ (length (hb ++ concat bs)));
       [exact Hup|apply (sd_survives _ _ _ _ _ _ _ Hst)|apply (sd_file _ _ _ _ _ _ _ Hst)|lia|unfold u64_end; lia|done]. }
  intros [self1 s1] r [Hplan Hr]. cbn [fst snd] in *. destruct r as [write_start|err].
  2: { destruct Hr as (HF & -> & [Hup1|Hin]); [|by apply Hfail]. split; [done|].
       split; [|by intros ?%HF]. left. split; [|by intros ?%HF]. by exists i, j, pos, e, report, D. }
  destruct Hr as (f & -> & Hup1 & [= -> ->]).
  change (ActiveSegment.set_file _ self) with (wrote i e bs (length (hb ++ concat bs)) self).
  rewrite (pl_pending _ _ _ _ _ _ Hpl).
  pose proof (encode_log_length _ _ _ _ (pl_frames _ _ _ _ _ _ Hpl)) as Hly. rewrite <-Hly.
  apply seg_wp_bind. eapply seg_wp_mono;
    [|eapply (write_pending_spec log bs cn i j e (length log) ys bs D self s1);
      [by destruct Hst|done| |done| | |done|done]].
  2: { rewrite <-(take_drop cn bs) at 2. rewrite concat_app, length_app. lia. }
  2: { pose proof (lo_offsets _ _ _ _ _ Hok') as Ho. rewrite length_app in Ho. lia. }
  2: { pose proof (frames_nonempty _ _ _ Hok') as Hne. by apply Forall_app in Hne as [_ Hne]. }
  intros [self2 s2] r2 [Hplan2 Hr2]. cbn [fst snd] in *. destruct r2 as [x|err].
  2: { destruct Hr2 as [HF Hin]. apply Hfail; [done|by auto|by auto]. }
  destruct Hr2 as (-> & D' & [Hf' Hp' Hs'] & Hup2 & Hns).
  eapply seg_wp_mono; [|eapply (append_end_spec nonce durability log bs T cn i j pos _ e report plan new ys T' D');
    [exact Hpl| |exact Hup2]].
  2: { split; [done|rewrite length_app; lia|done|done|]. by rewrite !take_app_le by lia. }
  intros [self3 s3] r3 [Hplan3 Hr3]. cbn [fst snd] in *. destruct r3 as [outs|err].
  - destruct Hr3 as [-> Hh]. split; [by auto|]. by exists new, ys, T'.
  - destruct Hr3 as [Ht Hin].
    assert (no_fault s → taken nonce s) as Htaken.
    { intros Hn. specialize (Ht ltac:(auto)). unfold taken in *.
      rewrite (up_names D' e s2 Hup2), Hns in Ht. by rewrite (up_names D e s Hup). }
    split; [by auto|]. split; [|intros Hn Hnt; by destruct (Hnt (Htaken Hn))].
    right. by exists (GroupPlan.outcomes plan), new, ys, T'.
Qed.

Lemma append_group_spec nonce records durability log bs T cn self s :
  healthy log bs T cn (self, s) →
  seg_wp (append_group nonce records durability)
    (append_post nonce records durability log bs T cn (self, s)) (self, s).
Proof.
  intros Hh. pose proof Hh as (i & j & pos & e & report & D & Hst & Heq & Hup). cbn [fst snd] in *. subst self.
  pose proof (sd_log _ _ _ _ _ _ _ Hst) as Hok. set (self := segment_of log bs T cn i pos e report) in *.
  assert (first_ok T0) as Hfirst.
  { pose proof (survives_visible _ _ (sd_survives _ _ _ _ _ _ _ Hst)) as Hvis.
    eapply around_first, (rc_around _ _ _ _ _ Hvis). }
  unfold append_group. apply ensure_writable_ok, seg_wp_get. fold self.
  change (ActiveSegment.header self) with h. change (ActiveSegment.path self) with p.
  change (ActiveSegment.next_offset self) with (offset_at base_offset (length log)).
  destruct (check_record_fields h records) as [[]|err] eqn:Hfields.
  2: { apply append_refused; [done|]. intros ? ? ? ? [Hrep _ _ _]. apply check_record_fields_ok in Hrep. congruence. }
  apply (seg_wp_lift _ tt); [done|]. apply check_record_fields_ok in Hfields.
  destruct (plan_group self records _) as [plan|err] eqn:Hplan.
  2: { apply append_refused; [done|]. intros ? ? ? ? Had. by eapply plan_refused. }
  apply (seg_wp_lift _ plan); [done|]. destruct (decide (GroupPlan.pending plan = [])) as [Hnil|Hne].
  - destruct (plan_admits log bs T cn i pos e report Hok Hfirst records plan) as (new & ys & T' & Hpl & Had);
      [done|done|by left|].
    pose proof (plan_pending_length _ _ _ _ _ _ _ _ _ _ _ _ Hpl) as Hlen. rewrite Hnil in Hlen.
    destruct new; [|done]. pose proof (pl_frames _ _ _ _ _ _ Hpl) as Hf. simpl in Hf. injection Hf as <-.
    pose proof (offer_replay _ _ _ _ _ _ _ (ad_offer _ _ _ _ _ _ _ _ Had)) as Hrep. injection Hrep as <-.
    by apply append_retries_spec.
  - destruct (check_segment_limits self plan) as [attempted|err] eqn:Hlim.
    2: { apply append_refused; [done|]. intros ? ? ? ? Had. by eapply limits_refused. }
    destruct (plan_admits log bs T cn i pos e report Hok Hfirst records plan) as (new & ys & T' & Hpl & Had);
      [done|done|right; by eexists|].
    apply (seg_wp_lift _ attempted); [done|]. apply check_segment_limits_ok in Hlim as (-> & _ & _).
    by eapply append_write_spec.
Qed.

(** ** Recovering *)

Lemma vs_read_producers F G v e Q s :
  up (Disk v []) e s → G v → around v → (∀ s', up (Disk v []) e s' → Q s' (s_inherited X)) →
  view_spec F G (read_producer_snapshot (s_paths X)) Q s.
Proof.
  intros Hup HG [Hdir Hnd Hin] HQ. unfold read_producer_snapshot. cbv zeta.
  apply vs_bind, vs_map_err. eapply vs_exists; [done|by apply survives_none|apply Hnd|]. clear s Hup. intros s Hup.
  cbn [visible base pend] in *. change (visible (Disk v [])) with v.
  destruct (v_ns v !! SegmentPaths.producers (s_paths X)) as [k|] eqn:Hk.
  - rewrite bool_decide_eq_true_2 by done. cbn [negb]. destruct Hin as (bytes & Hb & Hdec).
    apply vs_bind, vs_map_err. eapply vs_read; [done|by apply survives_none|done|done|]. clear s Hup. intros s Hup.
    rewrite Hdec. apply vs_ret. by apply HQ.
  - rewrite bool_decide_eq_false_2 by (by intros [? ?]). cbn [negb]. rewrite <-Hin. apply vs_ret. by apply HQ.
Qed.

Lemma inspect_spec log bs T i j v e pos w rest s :
  log_ok h T0 log bs T → recoverable_at i j log bs v → v_data v !! i = Some (hb ++ concat bs ++ rest) →
  up (Disk v []) e s →
  view_spec False (recoverable_at i j log bs) (inspect_active_file (SimFile.mk p i pos e w) p (s_inherited X))
    (λ s' r, up (Disk v []) e s' ∧ (∃ pos', r.2 = SimFile.mk p i pos' e w) ∧
       r.1 = mkInspection h (length hb) (length hb + length (concat bs) + length rest)
               (scan_result h (length hb) (s_accumulator X) log bs T (length rest))) s.
Proof.
  intros Hok Hrec Hf Hup. assert (survives (recoverable_at i j log bs) (Disk v [])) as Hsurv by (by apply survives_none).
  pose proof (content_bound _ _ _ Hok) as Hbound. rewrite length_app in Hbound.
  unfold inspect_active_file. rewrite (sk_active _ HX). apply vs_bind, vs_ret. apply vs_bind.
  eapply vs_read_header; [done|done|exact Hf|done|apply (sk_bytes _ HX)|apply (sk_valid _ HX)|].
  clear s Hup. intros s pos1 Hup. unfold read_commit_boundary. do 2 apply vs_bind. apply vs_map_err.
  eapply vs_read; [done|done|apply Hrec|apply Hrec|]. clear s Hup. intros s Hup.
  unfold boundary_of. rewrite decode_encode_boundary. apply vs_ret.
  cbn [boundary_segment_id boundary_content_bytes boundary_committed_offset].
  rewrite decide_False by (intros []; done). rewrite nat_u64_val by lia.
  rewrite decide_False by (unfold u64_end; lia). rewrite Nat2Z.id. apply vs_bind, vs_map_err.
  eapply vs_file_len; [done|done|exact Hf|]. clear s Hup. intros s Hup.
  assert (length (hb ++ concat bs ++ rest) = length hb + length (concat bs) + length rest) as Hlen
    by (rewrite !length_app; lia).
  rewrite decide_False by lia. apply vs_bind.
  eapply (vs_scan_records _ _ _ _ _ _ _ _ _ _ _ _ _ log bs T hb rest);
    [done|done|exact Hf|done|done|unfold u64_end; lia|apply (sk_accumulator _ HX)|done|].
  clear s Hup. intros s pos2 Hup. unfold scan_result. cbn [ScanResult.next_offset ScanResult.valid_end].
  rewrite decide_False by (intros [Hne|[Hne|Hne]]; [by destruct Hne|lia|lia]).
  apply vs_ret. split_and!; [done|by exists pos2|]. by rewrite Hlen.
Qed.

Lemma recover_spec log bs T v e s :
  log_ok h T0 log bs T → recoverable log bs v → up (Disk v []) e s →
  view_spec False (recoverable log bs) (recover_in p)
    (λ s' self, healthy log bs T (length log) (self, s')) s.
Proof.
  intros Hok (i & j & Hrec) Hup. destruct (rc_file _ _ _ _ _ Hrec) as [rest Hf].
  eapply (vs_mono False _ (recoverable_at i j log bs));
    [done|intros v' Hv'; by exists i, j|intros s' a HQ; exact HQ|].
  assert (survives (recoverable_at i j log bs) (Disk v [])) as Hsurv by (by apply survives_none).
  pose proof (encode_log_length _ _ _ _ (lo_frames _ _ _ _ _ Hok)) as Hlen.
  pose proof (content_bound _ _ _ Hok) as Hbound. rewrite length_app in Hbound.
  unfold recover_in. apply vs_bind, vs_map_err.
  eapply vs_open; [done|done|apply Hrec|done|]. clear s Hup. intros s Hup. simpl (bool_decide _).
  rewrite (sk_active _ HX). apply vs_bind, vs_ret. apply vs_bind.
  eapply vs_read_producers; [done|done|apply Hrec|]. clear s Hup. intros s Hup.
  apply vs_bind. eapply vs_mono; [done|done| |by eapply inspect_spec].
  clear s Hup. intros s [inspection f] (Hup & [pos1 Hf1] & Hins). cbn [fst snd] in Hf1, Hins. subst f inspection.
  cbn [inspected_scan inspected_actual_len inspected_header inspected_header_len]. unfold scan_result.
  cbn [ScanResult.valid_end ScanResult.records ScanResult.next_offset ScanResult.producer_states
    ScanResult.producer_epochs ScanResult.index ScanResult.accumulator].
  assert (i < length (v_data v)) as Hi by (by apply lookup_lt_Some in Hf).
  apply vs_bind. eapply (vs_mono False _ (recoverable_at i j log bs) _ _
    (λ s' _, ∃ D, up D e s' ∧ survives (recoverable_at i j log bs) D ∧
       Forall (λ op, is_Some (data_op i op)) (pend D) ∧ base D = v ∧
       v_data (visible D) !! i = Some (hb ++ concat bs))); [done|done| |].
  2: { case_decide as Hr.
       - apply vs_map_err. eapply vs_set_len; [done|done|done|]. intros s' Hup'.
         eexists. split; [exact Hup'|]. split_and!; [|repeat constructor; simpl; by rewrite decide_True|done|].
         + apply survives_push; [done|]. apply recoverable_alter; [done|]. intros c [rest' ->]. simpl.
           rewrite <-length_app, resize_app_le, resize_all by done. done.
         + rewrite visible_push. cbn [view_op v_data]. change (visible (Disk v [])) with v.
           rewrite list_lookup_alter_eq, Hf. cbn [fmap option_fmap option_map].
           rewrite (assoc_L (++)), <-length_app. by rewrite cut_data.
       - apply vs_ret. exists (Disk v []). split_and!; [done|done|constructor|done|].
         destruct rest; [|simpl in Hr; lia]. by rewrite app_nil_r in Hf. }
  clear s Hup. intros s _ (D & Hup & HsD & Hpend & Hbase & Hvis).
  apply vs_bind, vs_map_err. eapply vs_sync_data; [done|done|by rewrite Hbase|]. clear s Hup. intros s Hup.
  rewrite only_data_sync in Hup by done. pose proof (survives_visible _ _ HsD) as Hrec'.
  apply vs_bind, vs_map_err. eapply vs_file_seek;
    [done|by apply survives_none|done|done|unfold u64_end; lia|]. clear s Hup. intros s Hup.
  apply vs_ret. eexists i, j, _, e, _, (Disk (visible D) []). split_and!; [| |exact Hup].
  - apply stored_settled; [done|done|done|]. by rewrite !take_ge by lia.
  - unfold segment_of. cbn. f_equal. lia.
Qed.

(** ** Creating *)

Lemma header_nonempty : hb ≠ [].
Proof.
  pose proof (sk_bytes _ HX) as Hb. destruct h as [x|x]; simpl in Hb; unfold encode_header, encode_header_v2 in Hb.
  - destruct (to_vec_v1 x) as [text|] eqn:Ht; [|done]. apply json_v1 in Ht as [_ Ht].
    by apply envelope_parts in Hb as (len & Hlen & Hmax & ->).
  - destruct (to_vec_v2 x) as [text|] eqn:Ht; [|done]. apply json_v2 in Ht as [_ Ht].
    by apply envelope_parts in Hb as (len & Hlen & Hmax & ->).
Qed.

(** A directory in which nothing stands in the way of a new segment. *)
Record vacant (v : view) : Prop := {
  va_dir : s_dir X ∈ v_dirs v;
  va_nodir : SegmentPaths.producers (s_paths X) ∉ v_dirs v ∧ SegmentPaths.segment (s_paths X) ∉ v_dirs v;
  va_producers : v_ns v !! SegmentPaths.producers (s_paths X) = None;
}.

Definition with_header (v : view) : view :=
  View (<[p := length (v_data v)]> (v_ns v)) (v_data v ++ [hb]) (v_dirs v).

Lemma write_header_spec {A} F v e (k : SimFile.t → SimE SegmentError A) Q s :
  up (create p (Disk v [])) e s → s_dir X ∈ v_dirs v →
  (∀ s', up (Disk (with_header v) []) e s' →
     view_spec F (λ _, True) (k (SimFile.mk p (length (v_data v)) (length hb) e true)) Q s') →
  view_spec F (λ _, True)
    (file ← map_err (io_error p) (file ← write_all (SimFile.mk p (length (v_data v)) 0 e true) hb;
                                  file_sync_data file;; mret file);
     sync_parent p;; k file) Q s.
Proof.
  intros Hup Hdir Hk. assert (∀ D, survives (λ _, True) D) as Hany by done.
  assert (length (v_data v) < length (v_data (base (create p (Disk v []))))) as Hi
    by (simpl; rewrite length_app; simpl; lia).
  apply vs_bind, vs_map_err, vs_bind. eapply vs_write_all; [done|done|done|apply header_nonempty|done|].
  clear s Hup. intros s Hup. apply vs_bind. eapply vs_sync_data; [done|done|done|]. clear s Hup. intros s Hup.
  assert (sync_file (length (v_data v))
    (push (create p (Disk v [])) (PendingOp.Data (length (v_data v)) (DataOp.Write 0 hb)))
    = Disk (View (v_ns v) (v_data v ++ [hb]) (v_dirs v)) [PendingOp.Namespace (NsOp.Create p (length (v_data v)))]) as Heq.
  { unfold sync_file, push, create. cbn [base pend app v_ns v_data v_dirs].
    rewrite !data_of_cons, !data_rest_cons. cbn [data_op]. rewrite decide_True by done. rewrite alter_last.
    do 4 f_equal. unfold apply_ops. cbn [foldl]. change 0 with (length (@nil u8)). by rewrite append_data. }
  rewrite Heq in Hup. clear Heq. apply vs_ret. unfold sync_parent. cbv zeta. apply vs_bind, vs_map_err.
  assert (default current_dir (parent p) = s_dir X) as ->.
  { unfold s_path, sidecar. by rewrite parent_join. }
  eapply vs_sync_dir; [done|done|done| |].
  { unfold all_in. simpl. repeat constructor. unfold ns_op_in_dir, in_dir, s_path, sidecar.
    rewrite parent_join. by apply bool_decide_eq_true. }
  clear s Hup. intros s Hup. by apply Hk.
Qed.

Lemma log_ok_empty : log_ok h T0 [] [] T0.
Proof.
  pose proof (u64_bounds (AnyHeader.max_segment_bytes h)). pose proof (u64_bounds (AnyHeader.max_segment_records h)).
  pose proof (u64_bounds base_offset). split; simpl; try done; lia.
Qed.

Lemma created_recoverable nonce v w :
  vacant v → s_inherited X = ProducerSnapshot.default →
  replaced (s_dir X) (s_stem X ++ as_bytes ".commit") nonce (boundary_of 0 []) (with_header v) w →
  recoverable_at (length (v_data v)) (length (v_data (with_header v))) [] [] w ∧
  v_data w !! length (v_data v) = Some (hb ++ concat []).
Proof.
  intros [Hd Hnd Hpr] Hinh ([Hdirs Hdata Hn _] & Hq & Hqd & _).
  destruct (names_differ nonce) as (Hpt & Hpq & Hrt & Hrq & Htq & Hpp).
  assert (v_data w !! length (v_data v) = Some hb) as Hf.
  { eapply prefix_lookup_Some; [|exact Hdata]. simpl. by rewrite lookup_app_r, Nat.sub_diag. }
  assert (v_ns w !! p = Some (length (v_data v))) as Hwp by (rewrite Hn by done; apply lookup_insert_eq).
  assert (v_ns w !! SegmentPaths.producers (s_paths X) = None) as Hwr.
  { rewrite Hn by done. simpl. by rewrite lookup_insert_ne by done. }
  split; [|by rewrite app_nil_r]. split; try done.
  - exists T0. apply log_ok_empty.
  - exists []. by rewrite !app_nil_r.
  - split; [by rewrite Hdirs|by rewrite Hdirs|]. by rewrite Hwr.
  - split; [simpl; rewrite length_app; simpl; lia|]. by rewrite Hwr.
Qed.

Lemma create_spec nonce v e s :
  vacant v → s_inherited X = ProducerSnapshot.default → up (Disk v []) e s →
  view_spec (is_Some (v_ns v !! p) ∨ is_Some (v_ns v !! t nonce)) (λ _, True)
    (create_with_header nonce p h hb) (λ s' self, healthy [] [] T0 0 (self, s')) s.
Proof.
  intros Hv Hinh Hup. assert (∀ D, survives (λ _, True) D) as Hany by done.
  unfold create_with_header. rewrite (sk_active _ HX). apply vs_bind, vs_ret. apply vs_bind, vs_map_err.
  assert (default root_path (parent p) = s_dir X) as Hpar.
  { unfold s_path, sidecar. by rewrite parent_join. }
  eapply vs_create; [done|done|rewrite Hpar; apply Hv|by left|]. clear s Hup. intros s _ Hup. cbn [base].
  apply write_header_spec; [done|apply Hv|]. clear s Hup. intros s Hup. cbv zeta.
  assert (boundary_of 0 [] = encode_commit_boundary (mkBoundary (AnyHeader.segment_id h) base_offset zero)) as Hbd.
  { unfold boundary_of. do 2 f_equal. unfold offset_at. rewrite Z.add_0_r. apply wrap_int_ival. }
  apply vs_bind. unfold write_commit_boundary_atomic. rewrite <-Hbd.
  set (rep := replaced (s_dir X) (s_stem X ++ as_bytes ".commit") nonce (boundary_of 0 []) (with_header v)).
  eapply (vs_mono (is_Some (v_ns (with_header v) !! t nonce)) _ _ _ _
    (λ s' _, ∃ w, rep w ∧ up (Disk w []) e s'));
    [|done| |eapply write_atomic_spec; [apply sidecar_name; constructor|apply sidecar_utf8; [apply HX|constructor]|apply encode_boundary_nonempty|exact Hup|apply Hv|eauto]].
  { destruct (names_differ nonce) as (_ & _ & _ & Htp & _ & _). simpl.
    rewrite lookup_insert_ne by done. by right. }
  clear s Hup. intros s [] (w & Hw & Hup).
  destruct (created_recoverable nonce v w Hv Hinh Hw) as [Hrec Hf].
  rewrite (sk_accumulator _ HX). apply vs_bind, vs_ret, vs_ret.
  exists (length (v_data v)), (length (v_data (with_header v))), (length hb), e.
  exists (RecoveryReport.mk zero 0 0 base_offset), (Disk w []). split_and!; [| |exact Hup].
  - apply stored_settled; [apply log_ok_empty|done|done|done].
  - unfold segment_of. cbn [fst]. rewrite Hinh. unfold offset_at. simpl length. by rewrite Z.add_0_r, wrap_int_ival.
Qed.
End site.
End ops.
