(* ===== verification/SealDisk.v ===== *)
(** Sealed segments on a disk that may fail at any point.

    [openable log] are the disks that hold a sealed segment of the records [log]: its file,
    a manifest that validates, and the frontier it inherited; the sidecars that can be
    rebuilt may hold anything.  Opening such a disk gives a reader of exactly [log], and
    sealing a healthy segment takes the disk from one that recovers to the log to one that
    opens to it, with nothing in between. *)

From stdpp Require Import prelude strings list gmap pretty.
From Stdlib Require Import ZArith Lia.
From S2P Require Import Prelude Wire Placement Flow Storage DiskLogic ChunkTree LogTypes RecordCodec DiskView.
From S2P Require Import ProducerState ProducerSnapshot SegmentFiles SegmentScan Manifest ActiveSegment Sealing.
From S2P Require Import LogDisk SegmentLog AppendPlan LogOps.
#[local] Open Scope nat_scope.

Lemma encode_chunk_sidecar_nonempty `{!Blake3Hash} size leaves : encode_chunk_sidecar size leaves ≠ [].
Proof. done. Qed.
Lemma encode_index_nonempty entries : encode_index entries ≠ [].
Proof. done. Qed.

(** On a disk that is down nothing is written. *)
Lemma begin_op_down kind path len s :
  SimState.crashed s = true → ∃ err, begin_op kind path len s = Some (s, Err err).
Proof. intros Hc. unfold begin_op, mbind, sim_bind, sim_get. rewrite Hc. by eexists. Qed.

Lemma write_atomic_down `{!Fmt} nonce path bytes s :
  SimState.crashed s = true → ∃ err, write_atomic nonce path bytes s = Some (s, Err err).
Proof.
  intros Hc. unfold write_atomic, mbind, sim_bind, sim_lift.
  destruct (ok_or _ _) as [name|err]; [|by eexists]. unfold map_err, SimStorage.open, mbind, sim_bind.
  destruct (begin_op_down Open (with_file_name path (temporary_name nonce name)) 0 s Hc) as [err Herr].
  by rewrite Herr; eexists.
Qed.

Section seal.
Context {hash : Blake3Hash} {tree : Blake3} {text : Blake3Text} {fmt : Fmt}.
Context {json : HeaderJson} {laws : HeaderJsonLaws} {value : JsonValue} {mjson : ManifestJson}.
Context (X : site) (HX : site_ok X).

#[local] Abbreviation dir := (s_dir X).
#[local] Abbreviation stem := (s_stem X).
#[local] Abbreviation h := (s_header X).
#[local] Abbreviation hb := (s_bytes X).
#[local] Abbreviation T0 := (inherited_tracker (s_inherited X)).
#[local] Abbreviation base_offset := (AnyHeader.base_offset (s_header X)).
#[local] Abbreviation segment := (SegmentPaths.segment (s_paths X)).
#[local] Abbreviation manifest := (SegmentPaths.manifest (s_paths X)).

(** ** Files that are not the one being replaced *)

(** The sidecars that sealing and opening write. *)
Inductive written_suffix : string → Prop :=
  | written_index : written_suffix ".index"
  | written_chunks : written_suffix ".chunks"
  | written_manifest : written_suffix ".manifest.json".

Lemma written_suffix_of a : written_suffix a → suffix_of a.
Proof. by intros []; constructor. Qed.

Lemma touched_name a b nonce bytes v w :
  written_suffix a → suffix_of b → a ≠ b → touched dir (stem ++ as_bytes a) nonce bytes v w →
  v_ns w !! sidecar dir stem b = v_ns v !! sidecar dir stem b.
Proof.
  intros Ha Hb Hab Ht. apply (tc_names _ _ _ _ _ _ Ht).
  - apply not_eq_sym. by apply (temporary_sidecar_ne dir stem a b).
  - apply (sidecar_ne dir stem). intros Heq%as_bytes_inj. by apply Hab.
Qed.

Lemma touched_data a nonce bytes v w i c :
  touched dir (stem ++ as_bytes a) nonce bytes v w → v_data v !! i = Some c → v_data w !! i = Some c.
Proof. intros Ht Hi. eapply prefix_lookup_Some; [done|]. apply Ht. Qed.

Lemma touched_around a nonce bytes v w :
  written_suffix a → touched dir (stem ++ as_bytes a) nonce bytes v w → around X v → around X w.
Proof.
  intros Ha Ht [Hd Hnd Hin]. pose proof (tc_dirs _ _ _ _ _ _ Ht) as Hdirs. split; [by rewrite Hdirs|by rewrite Hdirs|].
  change (SegmentPaths.producers (s_paths X)) with (sidecar dir stem ".producers") in *.
  rewrite (touched_name a ".producers" nonce bytes v w) by (done || constructor || by destruct Ha).
  destruct (v_ns v !! _) as [k|]; [|done]. destruct Hin as (b & Hb & Hdec). exists b. split; [|done].
  by eapply touched_data.
Qed.

Lemma touched_recoverable a nonce bytes i j log bs v w :
  written_suffix a → touched dir (stem ++ as_bytes a) nonce bytes v w →
  recoverable_at X i j log bs v → recoverable_at X i j log bs w.
Proof.
  intros Ha Ht [Hlog Hn [rest Hf] Hcn Hc Har [Hij Hik]].
  assert (∀ b, suffix_of b → a ≠ b → v_ns w !! sidecar dir stem b = v_ns v !! sidecar dir stem b) as Hnames
    by (intros; by apply (touched_name a b nonce bytes v w)).
  split; try done.
  - unfold s_path. by rewrite Hnames by (constructor || by destruct Ha).
  - exists rest. by eapply touched_data.
  - cbn. by rewrite Hnames by (constructor || by destruct Ha).
  - by eapply touched_data.
  - by eapply touched_around.
  - split; [done|]. intros k. cbn. rewrite Hnames by (constructor || by destruct Ha). apply Hik.
Qed.

(** ** Disks that open to a log *)

(** What a scan of the sealed file finds. *)
Definition sealed_scan (log : list LogRecord.t) (bs : list (list u8)) (T : tracker) : ScanResult.t :=
  scan_result h (length hb) (s_accumulator X) log bs T 0.

(** The bytes of a manifest that validates. *)
Definition accepted (log : list LogRecord.t) (bs : list (list u8)) (T : tracker) (m : AnyManifest.t)
    (mb : list u8) : Prop :=
  let scan := sealed_scan log bs T in
  match h, m with
  | AnyHeader.V1 h, AnyManifest.V1 m =>
      decode_canonical manifest_from_slice canonical_manifest_bytes mb = Ok m ∧
      validate_manifest m h scan (length hb) = Ok tt
  | AnyHeader.V2 h, AnyManifest.V2 m =>
      decode_canonical manifest_v2_from_slice canonical_manifest_v2_bytes mb = Ok m ∧
      let roots := ContentAccumulator.finalize (ScanResult.accumulator scan) in
      validate_manifest_v2 m h scan (length hb) roots.1 roots.2 = Ok tt
  | _, _ => False
  end.

Record openable_at (i k : nat) (log : list LogRecord.t) (bs : list (list u8)) (m : AnyManifest.t)
    (mb : list u8) (v : view) : Prop := {
  op_log : ∃ T, log_ok h T0 log bs T ∧ accepted log bs T m mb;
  op_name : v_ns v !! segment = Some i;
  op_file : v_data v !! i = Some (hb ++ concat bs);
  op_manifest_name : v_ns v !! manifest = Some k;
  op_manifest : v_data v !! k = Some mb;
  op_around : around X v;
}.
Definition openable (log : list LogRecord.t) (bs : list (list u8)) (v : view) : Prop :=
  ∃ i k m mb, openable_at i k log bs m mb v.

Lemma touched_openable a nonce bytes i k log bs m mb v w :
  written_suffix a → a ≠ ".manifest.json" → touched dir (stem ++ as_bytes a) nonce bytes v w →
  openable_at i k log bs m mb v → openable_at i k log bs m mb w.
Proof.
  intros Ha Hm Ht [Hlog Hn Hf Hmn Hmb Har]. split; try done.
  - cbn. by rewrite (touched_name a ".segment" nonce bytes v w) by (done || constructor || by destruct Ha).
  - by eapply touched_data.
  - cbn. by rewrite (touched_name a ".manifest.json" nonce bytes v w) by (done || constructor).
  - by eapply touched_data.
  - by eapply touched_around.
Qed.

Lemma accepted_next log bs T m mb :
  accepted log bs T m mb → AnyManifest.next_offset m = offset_at base_offset (length log).
Proof.
  unfold accepted. destruct h as [hd|hd] eqn:Hh; destruct m as [m|m]; try done; cbv zeta; intros [_ Hv]; cbn [AnyManifest.next_offset].
  - unfold validate_manifest in Hv. destruct (ScanResult.accumulator _); [|done]. cbv zeta in Hv.
    case_decide as Hd; [done|]. unfold sealed_scan, scan_result in Hd. cbn [ScanResult.next_offset] in Hd.
    rewrite Hh in Hd. destruct (decide (SegmentManifest.next_offset m = offset_at (AnyHeader.base_offset (AnyHeader.V1 hd)) (length log)));
      [done|]. destruct Hd. tauto.
  - unfold validate_manifest_v2 in Hv. cbv zeta in Hv.
    case_decide as Hd; [done|]. unfold sealed_scan, scan_result in Hd. cbn [ScanResult.next_offset] in Hd.
    rewrite Hh in Hd. destruct (decide (SegmentManifestV2.next_offset m = offset_at (AnyHeader.base_offset (AnyHeader.V2 hd)) (length log)));
      [done|]. destruct Hd. tauto.
Qed.

(** ** Opening *)

Definition leaves_of (bs : list (list u8)) : option (list bytes32) :=
  match h with
  | AnyHeader.V1 _ => None
  | AnyHeader.V2 _ => Some (ContentAccumulator.finalize (accumulate (s_accumulator X) bs)).1
  end.

Lemma inspect_sealed_spec (G : view → Prop) i k log bs m mb v e pos s :
  up (Disk v []) e s → G v → openable_at i k log bs m mb v →
  view_spec False G (inspect_sealed_file_at (SimFile.mk segment i pos e false) segment (s_paths X) (s_inherited X))
    (λ s' r, up (Disk v []) e s' ∧ (∃ pos', r.2 = SimFile.mk segment i pos' e false) ∧
       ∃ T, r.1 = SealedFileInspection.mk _ h (length hb) (sealed_scan log bs T) m (leaves_of bs)) s.
Proof.
  intros Hup HG [(T & Hok & Hacc) Hn Hf Hmn Hmb Har].
  assert (survives G (Disk v [])) as Hsv by (by apply survives_none).
  pose proof (header_bound X HX) as Hhb. unfold inspect_sealed_file_at. apply vs_bind.
  eapply vs_read_header; [done|done|exact Hf|done|apply HX|apply HX|]. clear s Hup pos. intros s pos Hup.
  apply vs_bind. eapply (vs_scan_records _ _ _ _ _ _ _ _ _ _ _ _ _ log bs T hb []);
    [done|done|exact Hf|done|by rewrite app_nil_r|unfold u64_end; lia|apply HX|by rewrite length_app|].
  clear s Hup pos. intros s pos Hup. change (length []) with 0. fold (sealed_scan log bs T).
  apply vs_bind, vs_map_err. eapply vs_read; [done|done|done|done|]. clear s Hup. intros s Hup.
  unfold accepted in Hacc. unfold leaves_of.
  assert (ScanResult.accumulator (sealed_scan log bs T) = accumulate (s_accumulator X) bs) as Hscan by done.
  rewrite Hscan in Hacc. clear Hscan.
  destruct h as [hd|hd]; destruct m as [m|m]; try done; cbv zeta in Hacc; destruct Hacc as [Hdec Hval]; rewrite Hdec.
  - eapply vs_step_bind; [done|done|]. rewrite Hval. eapply vs_step_bind; [done|done|]. apply vs_ret.
    split; [done|]. split; [by eexists|by exists T].
  - eapply vs_step_bind; [done|done|].
    change (ScanResult.accumulator (sealed_scan log bs T)) with (accumulate (s_accumulator X) bs).
    destruct (ContentAccumulator.finalize _) as [leaves root]. cbn [fst snd] in *. rewrite Hval.
    eapply vs_step_bind; [done|done|]. apply vs_ret. split; [done|]. split; [by eexists|by exists T].
Qed.

(** Rewriting a sidecar of a disk that satisfies a predicate such files do not affect. *)
Lemma sidecar_spec (G : view → Prop) a nonce bytes v e s :
  written_suffix a → bytes ≠ [] → up (Disk v []) e s → dir ∈ v_dirs v →
  (∀ w, touched dir (stem ++ as_bytes a) nonce bytes v w → G w) →
  view_spec (is_Some (v_ns v !! temporary dir stem a nonce)) G (write_atomic nonce (sidecar dir stem a) bytes)
    (λ s' _, ∃ w, replaced dir (stem ++ as_bytes a) nonce bytes v w ∧ up (Disk w []) e s') s.
Proof.
  intros Ha%written_suffix_of Hb Hup Hdir HG. eapply vs_mono; [intros HF; exact HF|exact HG|intros s' r HQ; exact HQ|].
  apply (write_atomic_spec dir (stem ++ as_bytes a) nonce bytes v e s); try done.
  - by apply sidecar_name.
  - apply sidecar_utf8; [apply HX|done].
  - eauto.
Qed.

(** A sidecar is read and, unless it is what it should be, rewritten. *)
Lemma repair_spec {A} (G : view → Prop) a nonce bytes (decode : list u8 → log_result A) (good : log_result A → bool)
    v e s :
  written_suffix a → bytes ≠ [] → up (Disk v []) e s → dir ∈ v_dirs v → G v → (∀ err, good (Err err) = false) →
  (∀ w, touched dir (stem ++ as_bytes a) nonce bytes v w → G w) →
  view_spec (is_Some (v_ns v !! temporary dir stem a nonce)) G
    (stored ← attempt (bytes ← map_err (io_error (sidecar dir stem a)) (SimStorage.read (sidecar dir stem a));
                       sim_lift (decode bytes));
     if good stored then mret tt else write_atomic nonce (sidecar dir stem a) bytes)
    (λ s' _, ∃ w, (w = v ∨ replaced dir (stem ++ as_bytes a) nonce bytes v w) ∧ up (Disk w []) e s') s.
Proof.
  intros Ha Hb Hup Hdir HGv Hgood HG. eapply (vs_attempt_read _ _ (Disk v []) e); [done| | |].
  - apply undisturbed_bind_lift, undisturbed_map_err, read_outcome; [done|by apply survives_none].
  - intros s' r Hup'. destruct (good r).
    + apply vs_ret. exists v. auto.
    + eapply vs_mono; [intros HF; exact HF|intros w Hw; exact Hw| |by apply (sidecar_spec G a nonce bytes v e)].
      intros s2 [] (w & Hw & Hup2). exists w. auto.
  - intros s' err Hc Hf. rewrite Hgood. unfold io_wp.
    destruct (write_atomic_down nonce (sidecar dir stem a) bytes s' Hc) as [err' ->]. split; [done|by eexists].
Qed.

Definition reader_of (i pos e : nat) (bs : list (list u8)) (m : AnyManifest.t) : SegmentReader.t :=
  SegmentReader.mk _ segment (SimFile.mk segment i pos e false) h (length hb) m (index_from h 0 (length hb) bs).

(** The names opening needs to be free. *)
Definition open_taken (chunks_nonce index_nonce : Uuid) (v : view) : Prop :=
  is_Some (v_ns v !! temporary dir stem ".chunks" chunks_nonce) ∨
  is_Some (v_ns v !! temporary dir stem ".index" index_nonce).

Lemma open_spec chunks_nonce index_nonce i k log bs m mb v e s :
  up (Disk v []) e s → openable_at i k log bs m mb v →
  view_spec (open_taken chunks_nonce index_nonce v) (openable_at i k log bs m mb)
    (open_in chunks_nonce index_nonce segment)
    (λ s' r, ∃ pos w, r = reader_of i pos e bs m ∧ up (Disk w []) e s' ∧ openable_at i k log bs m mb w) s.
Proof.
  intros Hup Hop. pose proof Hop as [_ Hn _ _ _ Har]. set (G := openable_at i k log bs m mb).
  assert (∀ v, G v → survives G (Disk v [])) as Hsv by (intros; by apply survives_none).
  assert (SegmentPaths.from_segment segment = Ok (s_paths X)) as Hfs by (apply from_segment_sidecar; apply HX).
  unfold open_in. rewrite Hfs. eapply vs_step_bind; [done|done|].
  apply vs_bind, vs_map_err. eapply vs_open; [done|by apply Hsv|done|done|]. clear s Hup. intros s Hup.
  rewrite bool_decide_eq_false_2 by auto. apply vs_bind. eapply (vs_read_producers X); [done|done|done|].
  clear s Hup. intros s Hup. apply vs_bind. unfold inspect_sealed_file. rewrite Hfs.
  eapply vs_step_bind; [done|done|]. eapply (vs_mono False); [done|intros w Hw; exact Hw| |by eapply inspect_sealed_spec].
  clear s Hup. intros s [insp f] (Hup & [pos Hpos] & T & Hins). cbn [fst snd] in Hpos, Hins. subst insp f.
  cbn [SealedFileInspection.manifest SealedFileInspection.chunk_leaves SealedFileInspection.scan
    SealedFileInspection.header SealedFileInspection.header_len]. cbv zeta. apply vs_bind.
  eapply (vs_mono (open_taken chunks_nonce index_nonce v) _ G G _ (λ s' _, ∃ w, up (Disk w []) e s' ∧ G w ∧
    v_ns w !! temporary dir stem ".index" index_nonce = v_ns v !! temporary dir stem ".index" index_nonce));
    [done|done| |].
  2: { destruct m as [m|m]; [apply vs_ret; by exists v|]. destruct (leaves_of bs) as [leaves|]; [|apply vs_ret; by exists v].
       unfold repair_chunks, read_chunk_sidecar, write_chunk_sidecar_atomic.
       eapply vs_mono; [intros HF; left; exact HF|intros w Hw; exact Hw| |
         apply (repair_spec G ".chunks"); [constructor|apply encode_chunk_sidecar_nonempty|done|apply Har|done|done|]].
       - intros s' [] (w & Hw & Hup'). exists w. destruct Hw as [->|Hw]; [done|]. split_and!; [done| |].
         + eapply (touched_openable ".chunks"); [constructor|done|apply Hw|done].
         + apply (tc_names _ _ _ _ _ _ (proj1 Hw)).
           * by apply temporary_ne; try constructor.
           * apply (temporary_sidecar_ne dir stem ".index" ".chunks"). constructor.
       - intros w Hw. by eapply (touched_openable ".chunks"); [constructor|done|apply Hw|]. }
  clear s Hup. intros s [] (w & Hup & Hw & Hkept). apply vs_bind.
  unfold repair_index, read_index, write_index_atomic.
  eapply vs_mono; [|intros x Hx; exact Hx| |
    apply (repair_spec G ".index"); [constructor|apply encode_index_nonempty|done|apply Hw|done|done|]].
  - intros HF. right. by rewrite <-Hkept.
  - intros s' [] (w' & Hw' & Hup'). apply vs_ret. exists pos, w'. split; [done|]. split; [done|].
    destruct Hw' as [->|Hw']; [done|]. by eapply (touched_openable ".index"); [constructor|done|apply Hw'|].
  - intros w' Hw'. by eapply (touched_openable ".index"); [constructor|done|apply Hw'|].
Qed.

(** ** Reading *)

(** What a fetch below a watermark returns, which may lie anywhere. *)
Definition sealed_fetch (log : list LogRecord.t) (bs : list (list u8)) (start : u64) (max_bytes max_records : nat)
    (high_watermark : u64) : FetchBatch.t :=
  let watermark := u64_min high_watermark (offset_at base_offset (length log)) in
  if decide (ival base_offset <= ival watermark)%Z then
    fetch_spec h log bs (Z.to_nat (watermark - base_offset)) start max_bytes max_records
  else if decide (max_bytes = 0 ∨ max_records = 0 ∨ (ival watermark <= ival start)%Z) then
    FetchBatch.mk [] 0 (u64_min (u64_max start base_offset) watermark) watermark
  else FetchBatch.mk [] 0 base_offset watermark.

Lemma reader_fetch_spec (G : view → Prop) i k log bs m mb pos e v s start max_bytes max_records high_watermark :
  up (Disk v []) e s → G v → openable_at i k log bs m mb v →
  view_spec False G (reader_fetch_through (reader_of i pos e bs m) start max_bytes max_records high_watermark)
    (λ s' r, up (Disk v []) e s' ∧ r.1 = sealed_fetch log bs start max_bytes max_records high_watermark ∧
       ∃ pos', r.2 = SimFile.mk segment i pos' e false) s.
Proof.
  intros Hup HG [(T & Hok & Hacc) Hn Hf Hmn Hmb Har].
  assert (survives G (Disk v [])) as Hsv by (by apply survives_none).
  pose proof (content_bound X HX _ _ _ Hok) as Hbound.
  pose proof (offset_at_val h T0 log bs T (length log) Hok ltac:(done)) as Hnext.
  unfold reader_fetch_through, reader_of, sealed_fetch. cbn [SegmentReader.manifest SegmentReader.file SegmentReader.path
    SegmentReader.header SegmentReader.header_len SegmentReader.index]. cbv zeta.
  rewrite (accepted_next _ _ _ _ _ Hacc). set (watermark := u64_min _ _).
  assert (ival watermark <= ival (offset_at base_offset (length log)))%Z as Hle by (unfold watermark, u64_min; case_decide; lia).
  case_decide as Hbase.
  - assert (watermark = offset_at base_offset (Z.to_nat (ival watermark - ival base_offset))) as Hw.
    { unfold offset_at. rewrite Z2Nat.id by lia. rewrite <-(wrap_int_ival watermark) at 1. f_equal. lia. }
    rewrite Hw at 1. eapply (vs_fetch_from_file _ _ _ _ _ _ _ _ _ _ _ T0 log bs T hb []);
      [done|done|exact Hf|done|by rewrite app_nil_r|lia|unfold u64_end; lia|].
    intros s' pos' Hup'. split; [done|]. split; [done|by eexists].
  - unfold fetch_from_file. cbv zeta. case_decide as Hnone.
    { apply vs_ret. split; [done|]. split; [done|by eexists]. }
    assert (u64_max start base_offset = offset_at base_offset 0) as ->.
    { unfold offset_at. rewrite Z.add_0_r, wrap_int_ival. apply u64_max_r. lia. }
    destruct (index_entry_start h (length hb) T0 log bs T 0 Hok ltac:(lia)) as (n & Hn0 & ->).
    assert (n = 0) as -> by lia. cbn [IndexEntry.position IndexEntry.offset].
    assert (offset_at base_offset 0 = base_offset) as -> by (unfold offset_at; by rewrite Z.add_0_r, wrap_int_ival).
    apply vs_bind, vs_map_err. rewrite length_app in Hbound.
    eapply vs_file_seek; [done|done|done|done|unfold frame_start, u64_end; simpl; lia|]. clear s Hup. intros s Hup.
    rewrite Z2Nat.nonpos by lia. cbn [fetch_loop]. apply vs_bind, vs_ret, vs_bind, vs_map_err.
    eapply (vs_file_seek _ _ _ _ _ _ _ _ _ _ (length (hb ++ concat bs))); [done|done|done|lia| |].
    { rewrite length_app. unfold u64_end. lia. }
    clear s Hup. intros s Hup. apply vs_ret. split; [done|]. split; [done|by eexists].
Qed.

(** ** Publishing *)

Definition renamed (i : nat) (v : view) : view :=
  View (<[segment := i]> (delete (s_path X) (v_ns v))) (v_data v) (v_dirs v).

Lemma renamed_openable i j k log bs T m mb v :
  log_ok h T0 log bs T → accepted log bs T m mb → recoverable_at X i j log bs v →
  v_data v !! i = Some (hb ++ concat bs) → v_ns v !! manifest = Some k → v_data v !! k = Some mb →
  openable_at i k log bs m mb (renamed i v).
Proof.
  intros Hok Hacc [_ _ _ _ _ [Hd Hnd Hin] _] Hf Hm Hmb.
  assert (∀ b, suffix_of b → b ≠ ".active" → b ≠ ".segment" →
    v_ns (renamed i v) !! sidecar dir stem b = v_ns v !! sidecar dir stem b) as Hnames.
  { intros b Hb H1 H2. simpl. rewrite lookup_insert_ne, lookup_delete_ne; [done|..]; apply sidecar_ne; by intros ?%as_bytes_inj. }
  split; try done.
  - by exists T.
  - apply lookup_insert_eq.
  - change manifest with (sidecar dir stem ".manifest.json"). by rewrite Hnames by (done || constructor).
  - split; [done|done|]. change (SegmentPaths.producers (s_paths X)) with (sidecar dir stem ".producers") in *.
    by rewrite Hnames by (done || constructor).
Qed.

Lemma rename_view i v : v_ns v !! s_path X = Some i →
  view_op v (PendingOp.Namespace (NsOp.Rename (s_path X) segment)) = renamed i v.
Proof. intros Hi. cbn [view_op apply_ns_op]. by rewrite Hi. Qed.

Lemma publish_spec nonces i j k log bs T m mb v e self s :
  up (Disk v []) e s → ActiveSegment.path self = s_path X →
  log_ok h T0 log bs T → accepted log bs T m mb → recoverable_at X i j log bs v →
  v_data v !! i = Some (hb ++ concat bs) → v_ns v !! manifest = Some k → v_data v !! k = Some mb →
  seg_wp (publish_sealed nonces (s_paths X)) (λ st' r, (no_fault s → no_fault st'.2) ∧
    match r with
    | Ok reader => ∃ pos w, reader = reader_of i pos e bs m ∧ up (Disk w []) e st'.2 ∧ openable_at i k log bs m mb w
    | Err _ => (no_fault s → open_taken (n_open_chunks nonces) (n_open_index nonces) v) ∧
        failed (λ w, recoverable_at X i j log bs w ∨ openable_at i k log bs m mb w) st'.2
    end) (self, s).
Proof.
  intros Hup Hpath Hok Hacc Hrec Hf Hm Hmb.
  pose proof (renamed_openable _ _ _ _ _ _ _ _ _ Hok Hacc Hrec Hf Hm Hmb) as Hop.
  set (G := λ w, recoverable_at X i j log bs w ∨ openable_at i k log bs m mb w).
  assert (survives G (Disk v [])) as Hsv by (apply survives_none; by left).
  pose proof (rc_name _ _ _ _ _ _ Hrec) as Hname. pose proof (ar_dir _ _ (rc_around _ _ _ _ _ _ Hrec)) as Hdir.
  unfold publish_sealed. apply seg_wp_get. rewrite Hpath. apply seg_wp_bind.
  assert (default root_path (parent segment) = dir) as Hpar by (cbn; unfold sidecar; by rewrite parent_join).
  eapply seg_wp_mono; [|apply (seg_wp_io False G _ (λ s' _,
    up (push (Disk v []) (PendingOp.Namespace (NsOp.Rename (s_path X) segment))) e s')), vs_map_err;
    eapply vs_rename; [done|done|exact Hname|by rewrite Hpar|done]].
  intros [self1 s1] [[]|err]; cbn [fst snd]; intros (-> & Hp1 & Hr);
    [|split; [done|]; destruct Hr as [HF Hfl]; split; [by intros ?%HF|done]].
  apply seg_wp_bind. unfold sync_parent. cbv zeta.
  assert (default current_dir (parent segment) = dir) as -> by (cbn; unfold sidecar; by rewrite parent_join).
  assert (∀ b, in_dir dir (sidecar dir stem b) = true) as Hin.
  { intros b. unfold in_dir, sidecar. rewrite parent_join. by apply bool_decide_eq_true. }
  eapply seg_wp_mono; [|apply (seg_wp_io False G _ (λ s' _, up (Disk (renamed i v) []) e s')), vs_map_err;
    eapply vs_sync_dir; [exact Hr| |done| |]].
  2: { apply survives_push; [done|]. change (visible (Disk v [])) with v. rewrite (rename_view i v Hname). by right. }
  2: { unfold all_in. simpl. repeat constructor. simpl. unfold s_path. by rewrite !Hin. }
  2: { intros s' Hup'. unfold sync_names in Hup'. cbn [push pend base app omap list_omap ns_op foldl filter] in Hup'.
       rewrite <-(rename_view i v Hname). exact Hup'. }
  intros [self2 s2] [[]|err]; cbn [fst snd]; intros (-> & Hp2 & Hr2);
    [|split; [by auto|]; destruct Hr2 as [HF Hfl]; split; [by intros ?%Hp1%HF|done]].
  apply seg_wp_modify. eapply seg_wp_mono; [|eapply seg_wp_io; by apply open_spec].
  intros [self3 s3] [reader|err]; cbn [fst snd]; intros (-> & Hp3 & Hr3); (split; [by auto|]).
  - destruct Hr3 as (pos & w & -> & Hup3 & Hop3). by exists pos, w.
  - destruct Hr3 as [HF Hfl]. split; [|by eapply failed_mono; [|exact Hfl]; intros w Hw; right].
    intros Hn. assert (∀ a n, suffix_of a → v_ns (renamed i v) !! temporary dir stem a n = v_ns v !! temporary dir stem a n) as Ht.
    { intros a n Ha. simpl. rewrite lookup_insert_ne, lookup_delete_ne; [done|..]; apply not_eq_sym;
        apply temporary_sidecar_ne; constructor. }
    destruct (HF ltac:(auto)) as [Hx|Hx]; [left|right]; by rewrite Ht in Hx by constructor.
Qed.

(** ** The steps of sealing *)

Lemma seg_sidecar_spec a nonce bytes i j log bs v e self s :
  written_suffix a → bytes ≠ [] → up (Disk v []) e s → recoverable_at X i j log bs v →
  seg_wp (seg_io (write_atomic nonce (sidecar dir stem a) bytes)) (λ st' r,
    st'.1 = self ∧ (no_fault s → no_fault st'.2) ∧
    match r with
    | Ok _ => ∃ w, replaced dir (stem ++ as_bytes a) nonce bytes v w ∧ up (Disk w []) e st'.2
    | Err _ => (no_fault s → is_Some (v_ns v !! temporary dir stem a nonce)) ∧
        failed (recoverable_at X i j log bs) st'.2
    end) (self, s).
Proof.
  intros Ha Hb Hup Hrec. apply (seg_wp_io _ _ _ (λ s' _, ∃ w, replaced dir (stem ++ as_bytes a) nonce bytes v w ∧ up (Disk w []) e s')).
  apply sidecar_spec; [done|done|done|apply Hrec|]. intros w Hw. by eapply touched_recoverable.
Qed.

(** What replacing a sidecar keeps of a segment about to be sealed. *)
Lemma replaced_keeps a nonce bytes i j log bs c v w :
  written_suffix a → replaced dir (stem ++ as_bytes a) nonce bytes v w →
  recoverable_at X i j log bs v → v_data v !! i = Some c →
  recoverable_at X i j log bs w ∧ v_data w !! i = Some c ∧
  (∀ b n, written_suffix b → is_Some (v_ns w !! temporary dir stem b n) → is_Some (v_ns v !! temporary dir stem b n)).
Proof.
  intros Ha (Ht & _ & _ & Hnone) Hrec Hc. split_and!; [by eapply touched_recoverable|by eapply touched_data|].
  intros b n Hb. destruct (decide (temporary dir stem b n = temporary dir stem a nonce)) as [->|Hne].
  { unfold temporary. rewrite Hnone. by intros []. }
  rewrite (tc_names _ _ _ _ _ _ Ht); [done|done|]. apply (temporary_sidecar_ne dir stem b a). by apply written_suffix_of.
Qed.

Lemma check_sealable_spec nonce log bs T cn self s :
  healthy X log bs T cn (self, s) →
  seg_wp (check_sealable nonce) (λ st' r, (no_fault s → no_fault st'.2) ∧
    match r with
    | Ok _ => settled X log bs T st' ∧
        names_kept (λ x, x = sidecar dir stem ".commit" ∨ x = temporary dir stem ".commit" nonce) s st'.2
    | Err _ => (no_fault s → taken X nonce s) ∧ failed (leaves_either X log bs cn (length log)) st'.2
    end) (self, s).
Proof.
  intros Hh. unfold check_sealable.
  assert (seg_wp ensure_writable (λ st' r, st' = (self, s) ∧ r = Ok tt) (self, s)) as Hw.
  { destruct Hh as (i & j & pos & e & report & D & _ & Heq & _). cbn [fst] in Heq. by rewrite Heq. }
  apply seg_wp_bind. eapply seg_wp_mono; [|exact Hw]. intros st r [-> ->].
  apply seg_wp_bind. eapply seg_wp_mono; [|by apply (commit_settles X HX)].
  intros [self1 s1] [offset|err]; cbn [fst snd]; intros [Hp1 Hr].
  2: { destruct Hr as [HF Hin]. split; [done|]. split; [done|apply Hin]. }
  destruct Hr as (_ & Hs & Hkept). pose proof Hs as (i & j & pos & e & report & w & Hst & Heq & Hup). cbn [fst snd] in *.
  subst self1. apply seg_wp_get, seg_wp_bind. pose proof (sd_file _ _ _ _ _ _ _ _ Hst) as Hf.
  change (visible (Disk w [])) with w in Hf.
  eapply seg_wp_mono; [|apply (seg_wp_io False (recoverable_at X i j (take (length log) log) (take (length log) bs)) _
    (λ s' r, up (Disk w []) e s' ∧ r = length (hb ++ concat bs))), vs_map_err; eapply vs_file_len; [done|apply Hst|done|by intros]].
  intros [self2 s2] [len|err]; cbn [fst snd]; intros (-> & Hp2 & Hr2).
  - destruct Hr2 as [Hup2 ->]. cbn [ActiveSegment.header_len ActiveSegment.content_bytes segment_of].
    rewrite length_app. rewrite decide_False by lia. rewrite decide_False by lia. apply seg_wp_ret.
    split; [by auto|]. split; [by exists i, j, pos, e, report, w|]. intros x Hx.
    cbn [snd]. rewrite <-Hkept by done. by rewrite (up_names _ _ _ Hup2), (up_names _ _ _ Hup).
  - destruct Hr2 as [HF Hfl]. split; [by auto|]. split; [by intros ?%Hp1%HF|].
    eapply failed_mono; [|exact Hfl]. intros v Hv. right. by exists i, j.
Qed.

Lemma check_unpublished_spec i j log bs v e self s :
  up (Disk v []) e s → recoverable_at X i j log bs v → ActiveSegment.path self = s_path X →
  seg_wp check_unpublished (λ st' r, st'.1 = self ∧ (no_fault s → no_fault st'.2) ∧
    match r with
    | Ok paths => paths = s_paths X ∧ up (Disk v []) e st'.2
    | Err _ => (no_fault s → is_Some (v_ns v !! segment)) ∧ failed (recoverable_at X i j log bs) st'.2
    end) (self, s).
Proof.
  intros Hup Hrec Hpath. unfold check_unpublished. apply seg_wp_get. rewrite Hpath.
  eapply seg_wp_lift; [by apply (sk_active X)|]. cbv zeta. apply seg_wp_bind.
  assert (survives (recoverable_at X i j log bs) (Disk v [])) as Hsv by (by apply survives_none).
  eapply seg_wp_mono; [|apply (seg_wp_io False (recoverable_at X i j log bs) _
    (λ s' r, up (Disk v []) e s' ∧ r = bool_decide (is_Some (v_ns v !! segment)))), vs_map_err; eapply vs_exists;
    [done|done|apply (ar_nodir _ _ (rc_around _ _ _ _ _ _ Hrec))|by intros]].
  intros [self1 s1] [b|err]; cbn [fst snd]; intros (-> & Hp & Hr).
  - destruct Hr as [Hup1 ->]. case_bool_decide as Hb.
    + split; [done|]. split; [done|]. split; [done|]. by eapply up_failed.
    + by apply seg_wp_ret.
  - split; [done|]. split; [done|]. destruct Hr as [HF Hfl]. split; [by intros ?%HF|done].
Qed.

(** ** The manifest of a log *)

Context {mlaws : ManifestJsonLaws}.

Definition segment_for (log : list LogRecord.t) (bs : list (list u8)) (T : tracker) : ActiveSegment.t :=
  segment_of X log bs T 0 0 0 0 (RecoveryReport.mk zero 0 0 zero).

(** The manifest that sealing writes, with its bytes. *)
Definition manifest_of (key : option SegmentCommitKey) (log : list LogRecord.t) (bs : list (list u8)) (T : tracker)
    : log_result (AnyManifest.t * list u8) :=
  let roots := ContentAccumulator.finalize (accumulate (s_accumulator X) bs) in
  match h with
  | AnyHeader.V1 hd =>
      let m := manifest_v1 (segment_for log bs T) hd roots.2 in
      bytes ← canonical_manifest_bytes m;
      Ok (AnyManifest.V1 m, bytes)
  | AnyHeader.V2 hd =>
      m ← sign (manifest_v2 (segment_for log bs T) hd roots.1 roots.2) key;
      bytes ← canonical_manifest_v2_bytes m;
      Ok (AnyManifest.V2 m, bytes)
  end.

Lemma accumulate_V1 hasher bs : accumulate (ContentAccumulator.V1 hasher) bs = ContentAccumulator.V1 (hasher ++ concat bs).
Proof.
  unfold accumulate. revert hasher. induction bs as [|b bs IH]; intros hasher; simpl; [by rewrite app_nil_r|].
  by rewrite IH, (assoc_L (++)).
Qed.

Lemma canonical_roundtrip {A} (from_slice : list u8 → result string A) to_vec (m : A) bytes :
  (∀ text, to_vec m = Ok text → from_slice (text ++ [newline]) = Ok m) →
  canonical_bytes (to_vec m) = Ok bytes →
  decode_canonical from_slice (λ m, canonical_bytes (to_vec m)) bytes = Ok m.
Proof.
  intros Hlaw Hb. unfold canonical_bytes in Hb. destruct (to_vec m) as [js|] eqn:Ht; [|done].
  apply Ok_inj in Hb as <-. unfold decode_canonical. rewrite (Hlaw _ eq_refl), Ht. cbn [canonical_bytes mbind result_bind].
  by rewrite decide_False by (by intros []).
Qed.

Lemma sign_spec m key m' :
  sign m key = Ok m' → SegmentManifestV2.commit_statement m = None →
  SegmentManifestV2.set_commit_statement None m' = m ∧ validate_statement m' = Ok tt.
Proof.
  intros Hs Hnone. assert (SegmentManifestV2.set_commit_statement None m = m) as Hm.
  { destruct m. simpl in Hnone. by subst. }
  destruct key as [key|]; simpl in Hs.
  - apply result_bind_Ok in Hs as (core & Hcore & Hs). apply result_bind_Ok in Hs as (st & Hst & Hs).
    apply Ok_inj in Hs as <-. split; [by rewrite <-Hm|].
    unfold validate_statement. cbn [SegmentManifestV2.commit_statement SegmentManifestV2.set_commit_statement].
    change (SegmentManifestV2.set_commit_statement None (SegmentManifestV2.set_commit_statement (Some st) m))
      with (SegmentManifestV2.set_commit_statement None m). rewrite Hm, Hcore. cbn [mbind result_bind].
    unfold authenticate in Hst. apply result_bind_Ok in Hst as (mac & _ & Hst). apply Ok_inj in Hst as <-.
    rewrite decide_False by (intros Hr; apply Hr; by repeat split).
    reflexivity.
  - apply Ok_inj in Hs as <-. split; [done|]. unfold validate_statement. by rewrite Hnone.
Qed.

Lemma manifest_of_accepted key log bs T m mb :
  log_ok h T0 log bs T → manifest_of key log bs T = Ok (m, mb) → accepted log bs T m mb ∧ mb ≠ [].
Proof.
  intros Hok Hm. unfold manifest_of, accepted in *. cbv zeta in *. pose proof (sk_accumulator _ HX) as Hacc.
  unfold segment_for, sealed_scan, segment_of, scan_result in *.
  destruct h as [hd|hd]; simpl in Hacc.
  - injection Hacc as Hacc. rewrite <-Hacc, accumulate_V1 in *. cbn [ContentAccumulator.finalize snd] in Hm.
    apply result_bind_Ok in Hm as (bytes & Hb & [= <- <-]). split.
    + split; [apply canonical_roundtrip; [apply manifest_json|exact Hb]|].
      unfold validate_manifest. cbn [ScanResult.accumulator]. cbv zeta. rewrite decide_False; [done|].
      cbn. rewrite Nat.add_sub_swap, Nat.sub_diag by done. cbn. tauto.
    + unfold canonical_manifest_bytes, canonical_bytes in Hb. case_match; [|done]. apply Ok_inj in Hb as <-. by intros [_ [=]]%app_nil.
  - apply result_bind_Ok in Hm as (m' & Hs & Hm). apply result_bind_Ok in Hm as (bytes & Hb & [= <- <-]).
    apply sign_spec in Hs as [Hset Hval]; [|done].
    assert (∀ {B} (f : SegmentManifestV2.t → B),
      (∀ x y, f (SegmentManifestV2.set_commit_statement x y) = f y) → f m' = f (SegmentManifestV2.set_commit_statement None m')) as Hfield
      by (intros B f Hf; by rewrite Hf). split.
    + split; [apply canonical_roundtrip; [|exact Hb]|].
      { intros js. apply manifest_v2_json. rewrite (Hfield _ SegmentManifestV2.evidence) by done. by rewrite Hset. }
      unfold validate_manifest_v2. cbv zeta. rewrite decide_False; [done|].
      rewrite (Hfield _ SegmentManifestV2.format), (Hfield _ SegmentManifestV2.version),
        (Hfield _ SegmentManifestV2.record_schema_version), (Hfield _ SegmentManifestV2.descriptor),
        (Hfield _ SegmentManifestV2.record_count), (Hfield _ SegmentManifestV2.first_offset),
        (Hfield _ SegmentManifestV2.next_offset), (Hfield _ SegmentManifestV2.content_bytes),
        (Hfield _ SegmentManifestV2.committed_high_watermark), (Hfield _ SegmentManifestV2.producer_summary),
        (Hfield _ SegmentManifestV2.chunk_size), (Hfield _ SegmentManifestV2.chunk_count),
        (Hfield _ SegmentManifestV2.chunk_tree_scheme), (Hfield _ SegmentManifestV2.chunk_tree_root),
        (Hfield _ SegmentManifestV2.index_stride) by done.
      rewrite Hset. cbn. rewrite Nat.add_sub_swap, Nat.sub_diag by done. cbn. tauto.
    + unfold canonical_manifest_v2_bytes, canonical_bytes in Hb. case_match; [|done]. apply Ok_inj in Hb as <-. by intros [_ [=]]%app_nil.
Qed.

(** ** Sealing *)

(** The temporary files a seal creates after its commit. *)
Definition seal_temporaries (nonces : SealNonces) : list (string * Uuid) :=
  [(".chunks", n_chunks nonces); (".index", n_index nonces); (".manifest.json", n_manifest nonces);
   (".chunks", n_open_chunks nonces); (".index", n_open_index nonces)].
Definition temporaries_taken (nonces : SealNonces) (ns : gmap PathBuf nat) : Prop :=
  ∃ a n, (a, n) ∈ seal_temporaries nonces ∧ is_Some (ns !! temporary dir stem a n).

Lemma seal_temporary_written nonces a n : (a, n) ∈ seal_temporaries nonces → written_suffix a.
Proof.
  unfold seal_temporaries. rewrite !elem_of_cons, elem_of_nil.
  intros [H|[H|[H|[H|[H|[]]]]]]; injection H as -> ->; constructor.
Qed.

(** A crash leaves a segment that recovers or one that opens, to all the records. *)
Definition sealed_or_not (log : list LogRecord.t) (bs : list (list u8)) (v : view) : Prop :=
  recoverable X log bs v ∨ openable log bs v.

Definition seal_post (nonces : SealNonces) (log : list LogRecord.t) (bs : list (list u8)) (T : tracker)
    (mres : log_result (list u8)) (v : view) (s : SimState.t) (st' : SegState) (r : log_result SegmentReader.t) : Prop :=
  (no_fault s → no_fault st'.2) ∧
  match r with
  | Ok reader => ∃ i k m mb pos e w, reader = reader_of i pos e bs m ∧ up (Disk w []) e st'.2 ∧
      openable_at i k log bs m mb w
  | Err _ => (no_fault s → temporaries_taken nonces (v_ns v) ∨ ∃ err, mres = Err err) ∧
      failed (sealed_or_not log bs) st'.2
  end.

Lemma seal_end_spec nonces log bs T i j v e self s idx (mres : log_result (list u8)) m :
  up (Disk v []) e s → ActiveSegment.path self = s_path X → log_ok h T0 log bs T →
  recoverable_at X i j log bs v → v_data v !! i = Some (hb ++ concat bs) →
  (∀ mb, mres = Ok mb → accepted log bs T m mb ∧ mb ≠ []) →
  seg_wp (seg_io (write_index_atomic (n_index nonces) (SegmentPaths.index (s_paths X)) idx);;
          bytes ← seg_lift mres;
          seg_io (write_atomic (n_manifest nonces) manifest bytes);;
          publish_sealed nonces (s_paths X)) (seal_post nonces log bs T mres v s) (self, s).
Proof.
  intros Hup Hpath Hok Hrec Hf Hmres.
  assert (∀ a n, (a, n) ∈ seal_temporaries nonces → is_Some (v_ns v !! temporary dir stem a n) →
    temporaries_taken nonces (v_ns v)) as Htaken by (intros a n; by exists a, n).
  assert (∀ w, recoverable_at X i j log bs w → sealed_or_not log bs w) as Hleft by (intros w Hw; left; by exists i, j).
  apply seg_wp_bind. unfold write_index_atomic. eapply seg_wp_mono;
    [|apply (seg_sidecar_spec ".index" (n_index nonces) _ i j log bs v e self s); [constructor|apply encode_index_nonempty|done|done]].
  intros [self1 s1] [[]|err]; cbn [fst snd]; intros (-> & Hp1 & Hr1).
  2: { destruct Hr1 as [HF Hfl]. split; [done|]. split; [|by eapply failed_mono].
       intros Hn. left. eapply Htaken; [|by apply HF]. unfold seal_temporaries. set_solver. }
  destruct Hr1 as (w1 & Hw1 & Hup1).
  destruct (replaced_keeps ".index" _ _ _ _ _ _ _ _ _ written_index Hw1 Hrec Hf) as (Hrec1 & Hf1 & Hless1).
  apply seg_wp_bind. unfold seg_lift, seg_wp at 1. destruct mres as [mb|err] eqn:Hm.
  2: { split; [done|]. split; [by right; eexists|]. eapply up_failed; [done|]. apply survives_none. by apply Hleft. }
  destruct (Hmres mb eq_refl) as [Hacc Hne]. apply seg_wp_bind. eapply seg_wp_mono;
    [|apply (seg_sidecar_spec ".manifest.json" (n_manifest nonces) mb i j log bs w1 e self s1); [constructor|done|done|done]].
  intros [self2 s2] [[]|err]; cbn [fst snd]; intros (-> & Hp2 & Hr2).
  2: { destruct Hr2 as [HF Hfl]. split; [by auto|]. split; [|by eapply failed_mono].
       intros Hn. left. eapply Htaken; [|apply Hless1, HF; [constructor|by auto]]. unfold seal_temporaries. set_solver. }
  destruct Hr2 as (w2 & Hw2 & Hup2).
  destruct (replaced_keeps ".manifest.json" _ _ _ _ _ _ _ _ _ written_manifest Hw2 Hrec1 Hf1) as (Hrec2 & Hf2 & Hless2).
  destruct Hw2 as (_ & Hmn & Hmd & _). eapply seg_wp_mono; [|by eapply publish_spec].
  intros [self3 s3] [reader|err]; cbn [fst snd]; intros [Hp3 Hr3]; (split; [by auto|]).
  - destruct Hr3 as (pos & w & ? & ? & ?). by eexists i, _, m, mb, pos, e, w.
  - destruct Hr3 as [HF Hfl]. split.
    + intros Hn. left. destruct (HF ltac:(auto)) as [Hx|Hx]; (eapply Htaken; [|apply Hless1, Hless2, Hx; constructor]);
        unfold seal_temporaries; set_solver.
    + eapply failed_mono; [|exact Hfl]. intros w [Hw|Hw]; [by apply Hleft|right]. by eexists _, _, _, _.
Qed.

(** What keeps a seal from succeeding without a fault. *)
Definition seal_blocked (nonces : SealNonces) (key : option SegmentCommitKey) (log : list LogRecord.t)
    (bs : list (list u8)) (T : tracker) (s : SimState.t) : Prop :=
  taken X (n_commit nonces) s ∨ is_Some (SimState.ns_visible s !! segment) ∨
  temporaries_taken nonces (SimState.ns_visible s) ∨ ∃ err, manifest_of key log bs T = Err err.

Lemma names_kept_seal nonces v e s s' :
  names_kept (λ x, x = sidecar dir stem ".commit" ∨ x = temporary dir stem ".commit" (n_commit nonces)) s s' →
  up (Disk v []) e s' →
  (is_Some (v_ns v !! segment) → is_Some (SimState.ns_visible s !! segment)) ∧
  (temporaries_taken nonces (v_ns v) → temporaries_taken nonces (SimState.ns_visible s)).
Proof.
  intros Hk Hup. pose proof (up_names _ _ _ Hup) as Hn. change (visible (Disk v [])) with v in Hn. rewrite <-Hn. split.
  - rewrite Hk; [done|]. intros [Hx|Hx]; [by apply sidecar_ne in Hx|]. symmetry in Hx.
    by apply (temporary_sidecar_ne dir stem ".commit" ".segment") in Hx; [|constructor].
  - intros (a & n & Hin & Hs). exists a, n. split; [done|]. apply seal_temporary_written in Hin as Ha.
    rewrite <-Hk; [done|]. intros [Hx|Hx].
    + by apply (temporary_sidecar_ne dir stem a ".commit") in Hx; [|constructor].
    + apply (temporary_ne dir stem a ".commit") in Hx; [done|by apply written_suffix_of|constructor|by destruct Ha].
Qed.

Definition seal_outcome (nonces : SealNonces) (key : option SegmentCommitKey) (log : list LogRecord.t)
    (bs : list (list u8)) (T : tracker) (cn : nat) (s : SimState.t) (st' : SegState)
    (r : log_result SegmentReader.t) : Prop :=
  (no_fault s → no_fault st'.2) ∧
  match r with
  | Ok reader => ∃ i k m mb pos e w, reader = reader_of i pos e bs m ∧ up (Disk w []) e st'.2 ∧
      openable_at i k log bs m mb w
  | Err _ => (no_fault s → seal_blocked nonces key log bs T s) ∧
      failed (λ v, leaves_either X log bs cn (length log) v ∨ openable log bs v) st'.2
  end.

Lemma sealed_or_not_leaves log bs T cn v :
  log_ok h T0 log bs T → sealed_or_not log bs v → leaves_either X log bs cn (length log) v ∨ openable log bs v.
Proof.
  intros Hok [Hv|Hv]; [left; right|by right].
  pose proof (encode_log_length _ _ _ _ (lo_frames _ _ _ _ _ Hok)) as Hlen. by rewrite !take_ge by lia.
Qed.

Lemma settled_parts log bs T st :
  settled X log bs T st → ∃ i j pos e report w,
    st.1 = segment_of X log bs T (length log) i pos e report ∧ up (Disk w []) e st.2 ∧ log_ok h T0 log bs T ∧
    recoverable_at X i j log bs w ∧ v_data w !! i = Some (hb ++ concat bs).
Proof.
  intros (i & j & pos & e & report & w & [Hok Hcn Hf _ Hsv] & Heq & Hup).
  pose proof (encode_log_length _ _ _ _ (lo_frames _ _ _ _ _ Hok)) as Hlen.
  apply survives_none in Hsv. rewrite !take_ge in Hsv by lia. by exists i, j, pos, e, report, w.
Qed.

Lemma seal_post_outcome nonces key log bs T cn mres v e s0 s st' r :
  log_ok h T0 log bs T → (no_fault s0 → no_fault s) → up (Disk v []) e s →
  names_kept (λ x, x = sidecar dir stem ".commit" ∨ x = temporary dir stem ".commit" (n_commit nonces)) s0 s →
  (∀ err, mres = Err err → ∃ err, manifest_of key log bs T = Err err) →
  seal_post nonces log bs T mres v s st' r → seal_outcome nonces key log bs T cn s0 st' r.
Proof.
  intros Hok Hp Hup Hk Hm [Hp' Hr]. destruct (names_kept_seal _ _ _ _ _ Hk Hup) as [_ Ht].
  split; [by auto|]. destruct r as [reader|err]; [done|]. destruct Hr as [HF Hfl]. split.
  - intros Hn. unfold seal_blocked. destruct (HF ltac:(auto)) as [Hx|[err' Hx]]; naive_solver.
  - eapply failed_mono; [|exact Hfl]. intros w. by apply (sealed_or_not_leaves _ _ T).
Qed.

(** The checks before a seal, with what follows them. *)
Lemma seal_begin_spec nonces key log bs T cn self s (k : unit → Seg SegmentReader.t) :
  healthy X log bs T cn (self, s) →
  (∀ s' i j pos e report v,
     (no_fault s → no_fault s') → up (Disk v []) e s' → log_ok h T0 log bs T → recoverable_at X i j log bs v →
     v_data v !! i = Some (hb ++ concat bs) →
     names_kept (λ x, x = sidecar dir stem ".commit" ∨ x = temporary dir stem ".commit" (n_commit nonces)) s s' →
     seg_wp (k tt) (seal_outcome nonces key log bs T cn s) (segment_of X log bs T (length log) i pos e report, s')) →
  seg_wp (check_sealable (n_commit nonces) ≫= k) (seal_outcome nonces key log bs T cn s) (self, s).
Proof.
  intros Hh Hk. apply seg_wp_bind. eapply seg_wp_mono; [|by apply check_sealable_spec].
  intros [self1 s1] [[]|err]; cbn [fst snd]; intros [Hp Hr].
  - destruct Hr as [Hset Hnames]. apply settled_parts in Hset as (i & j & pos & e & report & w & Heq & Hup & Hok & Hrec & Hf).
    cbn [fst snd] in *. subst self1. by eapply Hk.
  - split; [done|]. destruct Hr as [HF Hfl]. split; [intros Hn; left; by apply HF|].
    eapply failed_mono; [|exact Hfl]. intros v Hv. by left.
Qed.

Lemma take_root_spec {A} self s (k : list bytes32 * bytes32 → Seg A) Q :
  ActiveSegment.header self = h →
  seg_wp (k (ContentAccumulator.finalize (ActiveSegment.accumulator self))) Q
    (ActiveSegment.set_accumulator (s_accumulator X) self, s) →
  seg_wp (take_root self ≫= k) Q (self, s).
Proof.
  intros Hh Hk. unfold seg_wp, mbind, seg_bind, take_root in *. rewrite Hh, (sk_accumulator _ HX). done.
Qed.

(** Refused, or a step of a seal that a crash may interrupt. *)
Lemma seal_refused nonces key log bs T cn v e i j s0 s s' (self : ActiveSegment.t) err :
  log_ok h T0 log bs T → recoverable_at X i j log bs v → (no_fault s0 → no_fault s) → up (Disk v []) e s →
  names_kept (λ x, x = sidecar dir stem ".commit" ∨ x = temporary dir stem ".commit" (n_commit nonces)) s0 s →
  (no_fault s → no_fault s') → (no_fault s → is_Some (v_ns v !! segment) ∨ temporaries_taken nonces (v_ns v)) →
  failed (recoverable_at X i j log bs) s' →
  seal_outcome nonces key log bs T cn s0 (self, s') (Err err).
Proof.
  intros Hok Hrec Hp Hup Hk Hp' HF Hfl. destruct (names_kept_seal _ _ _ _ _ Hk Hup) as [Hseg Ht].
  split; [by auto|]. split.
  - intros Hn. unfold seal_blocked. destruct (HF ltac:(auto)) as [Hx|Hx]; naive_solver.
  - eapply failed_mono; [|exact Hfl]. intros w Hw. eapply sealed_or_not_leaves; [done|]. left. by exists i, j.
Qed.

Lemma seal_v1_spec nonces key hd log bs T cn self s :
  h = AnyHeader.V1 hd → healthy X log bs T cn (self, s) →
  seg_wp (seal_v1 nonces hd) (seal_outcome nonces key log bs T cn s) (self, s).
Proof.
  intros Hh Hhealthy. unfold seal_v1. apply seal_begin_spec; [done|].
  intros s1 i j pos e report v Hp Hup Hok Hrec Hf Hk. apply seg_wp_get.
  set (self1 := segment_of X log bs T (length log) i pos e report). apply take_root_spec; [done|].
  destruct (ContentAccumulator.finalize (ActiveSegment.accumulator self1)) as [leaves root] eqn:Hroot.
  set (m := manifest_v1 self1 hd root). cbv zeta. apply seg_wp_bind.
  eapply seg_wp_mono; [|by apply (check_unpublished_spec i j log bs v e)].
  intros [self2 s2] [paths|err]; cbn [fst snd]; intros (-> & Hp2 & Hr).
  2: { destruct Hr as [HF Hfl]. by eapply seal_refused; eauto. }
  destruct Hr as [-> Hup2].
  assert (manifest_of key log bs T = (b ← canonical_manifest_bytes m; Ok (AnyManifest.V1 m, b))) as Hmf.
  { unfold manifest_of. cbv zeta. rewrite Hh. unfold self1, segment_of in Hroot. cbn [ActiveSegment.accumulator] in Hroot.
    by rewrite Hroot. }
  eapply seg_wp_mono; [|eapply (seal_end_spec nonces log bs T i j v e (ActiveSegment.set_accumulator (s_accumulator X) self1) s2
      (ActiveSegment.index self1) (canonical_manifest_bytes m) (AnyManifest.V1 m));
    [done|done|done|done|done|]].
  - intros st' r Hpost. eapply seal_post_outcome; [done| |done| | |exact Hpost]; [by auto| |].
    + intros x Hx. rewrite <-(Hk x Hx). by rewrite (up_names _ _ _ Hup2), (up_names _ _ _ Hup).
    + intros err Herr. rewrite Hmf, Herr. by eexists.
  - intros mb Hmb. apply (manifest_of_accepted key); [done|]. rewrite Hmf, Hmb. done.
Qed.

Lemma seal_v2_spec nonces key hd log bs T cn self s :
  h = AnyHeader.V2 hd → healthy X log bs T cn (self, s) →
  seg_wp (seal_v2 nonces key) (seal_outcome nonces key log bs T cn s) (self, s).
Proof.
  intros Hh Hhealthy. unfold seal_v2. apply seg_wp_get.
  assert (ActiveSegment.header self = AnyHeader.V2 hd) as ->.
  { destruct Hhealthy as (i & j & pos & e & report & D & _ & Heq & _). cbn [fst] in Heq. by rewrite Heq. }
  apply seal_begin_spec; [done|]. intros s1 i j pos e report v Hp Hup Hok Hrec Hf Hk. apply seg_wp_get.
  set (self1 := segment_of X log bs T (length log) i pos e report). apply take_root_spec; [done|].
  destruct (ContentAccumulator.finalize (ActiveSegment.accumulator self1)) as [leaves root] eqn:Hroot.
  assert (manifest_of key log bs T = (m ← sign (manifest_v2 self1 hd leaves root) key;
    b ← canonical_manifest_v2_bytes m; Ok (AnyManifest.V2 m, b))) as Hmf.
  { unfold manifest_of. cbv zeta. rewrite Hh. unfold self1, segment_of in Hroot. cbn [ActiveSegment.accumulator] in Hroot.
    by rewrite Hroot. }
  apply seg_wp_bind. unfold seg_lift, seg_wp at 1. destruct (sign _ key) as [m|err] eqn:Hsign.
  2: { split; [done|]. split; [intros Hn; right; right; right; rewrite Hmf; by eexists|].
       eapply up_failed; [exact Hup|]. apply survives_none. eapply sealed_or_not_leaves; [done|]. left. by exists i, j. }
  cbn [mbind result_bind] in Hmf. apply seg_wp_bind.
  eapply seg_wp_mono; [|by apply (check_unpublished_spec i j log bs v e)].
  intros [self2 s2] [paths|err]; cbn [fst snd]; intros (-> & Hp2 & Hr).
  2: { destruct Hr as [HF Hfl]. by eapply seal_refused; eauto. }
  destruct Hr as [-> Hup2]. apply seg_wp_bind. unfold write_chunk_sidecar_atomic. eapply seg_wp_mono;
    [|apply (seg_sidecar_spec ".chunks" (n_chunks nonces) _ i j log bs v e _ s2);
      [constructor|apply encode_chunk_sidecar_nonempty|done|done]].
  intros [self3 s3] [[]|err]; cbn [fst snd]; intros (-> & Hp3 & Hr3).
  2: { destruct Hr3 as [HF Hfl]. eapply seal_refused; try done; [by auto|].
       intros Hn. right. exists ".chunks", (n_chunks nonces). split; [unfold seal_temporaries; set_solver|by auto]. }
  destruct Hr3 as (w & Hw & Hup3).
  destruct (replaced_keeps ".chunks" _ _ _ _ _ _ _ _ _ written_chunks Hw Hrec Hf) as (Hrec3 & Hf3 & Hless).
  eapply seg_wp_mono; [|eapply (seal_end_spec nonces log bs T i j w e (ActiveSegment.set_accumulator (s_accumulator X) self1) s3
      (ActiveSegment.index self1) (canonical_manifest_v2_bytes m) (AnyManifest.V2 m));
    [done|done|done|done|done|]].
  - intros st' r [Hp4 Hr4]. split; [by auto|]. destruct r as [reader|err]; [done|]. destruct Hr4 as [HF Hfl]. split.
    + intros Hn. destruct (names_kept_seal _ _ _ _ _ Hk Hup) as [_ Ht].
      destruct (HF ltac:(auto)) as [(a & n & Hin & Hx)|[err' Hx]].
      * right. right. left. apply Ht. exists a, n. split; [done|]. apply Hless; [by eapply seal_temporary_written|done].
      * right. right. right. rewrite Hmf, Hx. by eexists.
    + eapply failed_mono; [|exact Hfl]. intros x. by apply (sealed_or_not_leaves _ _ T).
  - intros mb Hmb. apply (manifest_of_accepted key); [done|]. rewrite Hmf, Hmb. done.
Qed.
End seal.
