(* ===== verification/LogSafety.v ===== *)
(** Crash safety of the active segment (ActiveSegment.v).

    A segment lives many lives on one disk.  Each begins with a recovery, goes on with any
    appends, commits, truncations and reads under an arbitrary fault plan, and ends when the
    power goes with any prefix of the pending operations on the disk.  The records a crash
    leaves are those of the log a sequence of whole operations gives, and every commit that
    was acknowledged is in it. *)

From stdpp Require Import prelude strings list gmap pretty.
From Stdlib Require Import ZArith Lia.
From S2P Require Import Prelude Wire Placement Flow Storage DiskLogic ChunkTree LogTypes RecordCodec DiskView.
From S2P Require Import ProducerState ProducerSnapshot SegmentFiles SegmentScan ActiveSegment LogDisk SegmentLog.
From S2P Require Import AppendPlan LogOps.
#[local] Open Scope nat_scope.

(** ** A disk that is down *)

Section down.
Context {hash : Blake3Hash} {tree : Blake3} {fmt : Fmt} {json : HeaderJson}.

(** On a disk that is down [c] changes nothing but the segment's own fields, and its file
    stays on its inode; [stops]: and it fails. *)
Definition unmoved (self : ActiveSegment.t) (s : SimState.t) (st' : SegState) : Prop :=
  st'.2 = s ∧ SimFile.inode (ActiveSegment.file st'.1) = SimFile.inode (ActiveSegment.file self).
Definition keeps {A} (c : Seg A) : Prop := ∀ G self s,
  failed G s → SimState.crashed s = true → SimFile.inode (ActiveSegment.file self) < length (SimState.inodes s) →
  seg_wp c (λ st' _, unmoved self s st') (self, s).
Definition stops {A} (c : Seg A) : Prop := ∀ G self s,
  failed G s → SimState.crashed s = true → SimFile.inode (ActiveSegment.file self) < length (SimState.inodes s) →
  seg_wp c (λ st' r, unmoved self s st' ∧ ∃ err, r = Err err) (self, s).

Lemma stops_keeps {A} (c : Seg A) : stops c → keeps c.
Proof.
  intros Hc G self s Hf Hs Hi. eapply seg_wp_mono; [|by eapply Hc]. by intros st' r [? _].
Qed.

Lemma stops_bind {A B} (c : Seg A) (k : A → Seg B) : stops c → stops (c ≫= k).
Proof.
  intros Hc G self s Hf Hs Hi. apply seg_wp_bind. eapply seg_wp_mono; [|by eapply Hc].
  intros st' r [Hu [err ->]]. split; [done|]. by eexists.
Qed.

Lemma keeps_stops_bind {A B} (c : Seg A) (k : A → Seg B) : keeps c → (∀ a, stops (k a)) → stops (c ≫= k).
Proof.
  intros Hc Hk G self s Hf Hs Hi. apply seg_wp_bind. eapply seg_wp_mono; [|by eapply Hc].
  intros [self' s'] [a|err] [Hs' Hi']; cbn [fst snd] in *; [|split; [done|by eexists]].
  subst s'. eapply seg_wp_mono; [|eapply (Hk a G); [done|done|by rewrite Hi']].
  intros [self'' s''] r [[Hs'' Hi''] Hr]. cbn [fst snd] in *. split; [|done]. split; [done|]. cbn [fst]. congruence.
Qed.

Lemma seg_keeps_bind {A B} (c : Seg A) (k : A → Seg B) : keeps c → (∀ a, keeps (k a)) → keeps (c ≫= k).
Proof.
  intros Hc Hk G self s Hf Hs Hi. apply seg_wp_bind. eapply seg_wp_mono; [|by eapply Hc].
  intros [self' s'] [a|err] [Hs' Hi']; cbn [fst snd] in *; [|done].
  subst s'. eapply seg_wp_mono; [|eapply (Hk a G); [done|done|by rewrite Hi']].
  intros [self'' s''] r [Hs'' Hi'']. cbn [fst snd] in *. split; [done|]. cbn [fst]. congruence.
Qed.

Lemma seg_keeps_get {A} (k : ActiveSegment.t → Seg A) : (∀ self, keeps (k self)) → keeps (seg_get ≫= k).
Proof. intros Hk G self s Hf Hs Hi. by eapply Hk. Qed.
Lemma stops_get {A} (k : ActiveSegment.t → Seg A) : (∀ self, stops (k self)) → stops (seg_get ≫= k).
Proof. intros Hk G self s Hf Hs Hi. by eapply Hk. Qed.

Lemma keeps_lift {A} (r : log_result A) : keeps (seg_lift r).
Proof. done. Qed.
Lemma seg_keeps_ret {A} (a : A) : keeps (mret a).
Proof. done. Qed.
Lemma keeps_fail {A} e : keeps (seg_fail (A := A) e).
Proof. done. Qed.

Lemma stops_or_poison {A} (c : Seg A) : stops c → stops (or_poison c).
Proof.
  intros Hc G self s Hf Hs Hi. apply seg_wp_or_poison. eapply seg_wp_mono; [|by eapply Hc].
  intros st' r [[Hu Hn] [err ->]]. split; [done|by eexists].
Qed.

(** A storage computation that begins with an operation on the disk. *)
Definition blocked {E A} (c : SimE E A) : Prop := ∀ s,
  SimState.crashed s = true → ∃ err, c s = Some (s, Err err).

Lemma blocked_bind {E A B} (c : SimE E A) (k : A → SimE E B) : blocked c → blocked (c ≫= k).
Proof. intros Hc s Hs. destruct (Hc s Hs) as [err He]. exists err. unfold mbind, sim_bind. by rewrite He. Qed.
Lemma blocked_map_err {E E' A} (f : E → E') (c : SimE E A) : blocked c → blocked (map_err f c).
Proof. intros Hc s Hs. destruct (Hc s Hs) as [err He]. exists (f err). unfold map_err. by rewrite He. Qed.

Lemma blocked_begin_op kind path len : blocked (begin_op kind path len).
Proof. intros s Hs. unfold begin_op, mbind, sim_bind, sim_get. rewrite Hs. by eexists. Qed.

Lemma blocked_handle {A} e kind path len (k : nat → Sim A) :
  blocked (lock_handle e;; n ← begin_op kind path len; k n).
Proof.
  intros s Hs. unfold mbind, sim_bind, lock_handle. case_decide; [|by eexists].
  destruct (blocked_begin_op kind path len s Hs) as [err ->]. by eexists.
Qed.

Lemma blocked_seek f from : blocked (file_seek f from).
Proof. apply blocked_handle. Qed.
Lemma blocked_sync f : blocked (file_sync_data f).
Proof. apply blocked_handle. Qed.

Lemma stops_io {A} (c : SimE SegmentError A) : blocked c → stops (seg_io c).
Proof.
  intros Hc G self s Hf Hs Hi. unfold seg_wp, seg_io. cbn [fst snd].
  destruct (Hc s Hs) as [err ->]. cbn [mbind option_bind]. split; [done|by eexists].
Qed.

Lemma stops_on_file {A} (c : SimFile.t → SimE SegmentError (A * SimFile.t)) :
  (∀ f, blocked (c f)) → stops (on_file c).
Proof.
  intros Hc G self s Hf Hs Hi. unfold seg_wp, on_file. cbn [fst snd].
  destruct (Hc (ActiveSegment.file self) s Hs) as [err ->]. cbn [mbind option_bind]. split; [done|by eexists].
Qed.

Lemma keeps_on_file {A} (c : SimFile.t → SimE SegmentError (A * SimFile.t)) :
  (∀ f, quiet (SimFile.inode f) (c f) (λ r, SimFile.inode r.2 = SimFile.inode f)) → keeps (on_file c).
Proof.
  intros Hc G self s Hf Hs Hi. pose proof (Hc _ G s Hf Hi) as Hq. unfold io_wp in Hq.
  unfold seg_wp, on_file. cbn [fst snd].
  destruct (c (ActiveSegment.file self) s) as [[s' [[a f]|err]]|]; cbn [mbind option_bind]; [| |done].
  - destruct Hq as (_ & _ & Hsame & Hn). unfold same_or_down in Hsame. rewrite Hs in Hsame. done.
  - destruct Hq as (_ & _ & Hsame & _). unfold same_or_down in Hsame. rewrite Hs in Hsame. done.
Qed.

(** The operations of a segment on a disk that is down. *)
Lemma stops_persist nonce offset bytes : stops (persist_commit_boundary nonce offset bytes).
Proof. apply stops_bind, stops_or_poison, stops_get. intros self. apply stops_io, blocked_map_err, blocked_sync. Qed.

Lemma keeps_writable : keeps ensure_writable.
Proof.
  apply seg_keeps_get. intros self. destruct (ActiveSegment.sealed self); [apply keeps_fail|].
  destruct (ActiveSegment.poisoned self); [apply keeps_fail|apply seg_keeps_ret].
Qed.

Lemma stops_commit nonce : stops (commit nonce).
Proof.
  apply keeps_stops_bind; [apply keeps_writable|]. intros []. apply stops_get. intros self.
  apply stops_bind, stops_persist.
Qed.

Lemma keeps_append nonce records durability : keeps (append_group nonce records durability).
Proof.
  apply seg_keeps_bind; [apply keeps_writable|]. intros []. apply seg_keeps_get. intros self.
  apply seg_keeps_bind; [apply keeps_lift|]. intros []. apply seg_keeps_bind; [apply keeps_lift|]. intros plan.
  case_decide.
  - apply seg_keeps_bind; [|intros []; apply seg_keeps_ret]. case_decide; [|apply seg_keeps_ret].
    apply stops_keeps, stops_bind, stops_commit.
  - apply seg_keeps_bind; [apply keeps_lift|]. intros attempted. apply stops_keeps, stops_bind, stops_on_file.
    intros f. apply blocked_map_err, blocked_seek.
Qed.

Lemma keeps_truncate nonce offset : keeps (truncate_to nonce offset).
Proof.
  apply seg_keeps_bind; [apply keeps_writable|]. intros []. apply seg_keeps_get. intros self. cbv zeta.
  case_decide; [apply keeps_fail|]. case_decide; [apply keeps_fail|]. case_decide; [apply seg_keeps_ret|].
  apply seg_keeps_bind; [apply keeps_on_file; intros f; apply quiet_position_of_offset|]. intros position.
  apply stops_keeps, stops_bind, stops_persist.
Qed.

Lemma stops_append_fsync nonce records : stops (append_group nonce records Fsync).
Proof.
  apply keeps_stops_bind; [apply keeps_writable|]. intros []. apply stops_get. intros self.
  apply keeps_stops_bind; [apply keeps_lift|]. intros []. apply keeps_stops_bind; [apply keeps_lift|]. intros plan.
  case_decide.
  - rewrite decide_True by done. apply stops_bind, stops_bind, stops_commit.
  - apply keeps_stops_bind; [apply keeps_lift|]. intros attempted. apply stops_bind, stops_on_file.
    intros f. apply blocked_map_err, blocked_seek.
Qed.

(** A segment that is inert stays so. *)
Lemma inert_keeps {A} (c : Seg A) (k : unit → Seg A) G st :
  c = (ensure_writable ≫= k) → keeps c → inert G st → seg_wp c (λ st' _, inert G st') st.
Proof.
  intros -> Hk. destruct st as [self s]. intros (Hf & Hi & [Hp|Hc]); cbn [fst snd] in *.
  - unfold seg_wp, ensure_writable, mbind, seg_bind, seg_get. cbn [fst snd].
    destruct (ActiveSegment.sealed self); cbn; [by split_and!; [| |left]|]. rewrite Hp. cbn. by split_and!; [| |left].
  - eapply seg_wp_mono; [|by eapply Hk]. intros [self' s'] r [Hs Hn]. cbn [fst snd] in *. subst s'.
    split_and!; cbn [fst snd]; [done|by rewrite Hn|by right].
Qed.

Lemma inert_stops {A} (c : Seg A) (k : unit → Seg A) G st :
  c = (ensure_writable ≫= k) → stops c → inert G st → seg_wp c (λ _ r, ∃ err, r = Err err) st.
Proof.
  intros -> Hk. destruct st as [self s]. intros (Hf & Hi & [Hp|Hc]); cbn [fst snd] in *.
  - unfold seg_wp, ensure_writable, mbind, seg_bind, seg_get. cbn [fst snd].
    destruct (ActiveSegment.sealed self); cbn; [by eexists|]. rewrite Hp. cbn. by eexists.
  - eapply seg_wp_mono; [|by eapply Hk]. by intros st' r [_ ?].
Qed.

(** Reads keep what a crash can leave. *)
Lemma inert_on_file {A} (c : SimFile.t → SimE SegmentError (A * SimFile.t)) G st :
  (∀ f, quiet (SimFile.inode f) (c f) (λ r, SimFile.inode r.2 = SimFile.inode f)) → inert G st →
  seg_wp (on_file c) (λ st' _, inert G st' ∧
    ActiveSegment.poisoned st'.1 = ActiveSegment.poisoned st.1) st.
Proof.
  intros Hc. destruct st as [self s]. intros (Hf & Hi & Hp). cbn [fst snd] in *.
  pose proof (Hc _ G s Hf Hi) as Hq. unfold io_wp in Hq. unfold seg_wp, on_file. cbn [fst snd].
  assert (∀ s', same_or_down s s' → ActiveSegment.poisoned self = true ∨ SimState.crashed s = true →
    ActiveSegment.poisoned self = true ∨ SimState.crashed s' = true) as Hdown.
  { intros s' Hsame [?|Hcr]; [by left|right]. unfold same_or_down in Hsame. rewrite Hcr in Hsame. by subst s'. }
  destruct (c (ActiveSegment.file self) s) as [[s' [[a f]|err]]|]; cbn [mbind option_bind]; [| |done].
  - destruct Hq as (Hf' & Hi' & Hsame & Hn). cbn [snd] in Hn. split; [|done].
    split_and!; cbn [fst snd ActiveSegment.file ActiveSegment.set_file]; [done|by rewrite Hn|].
    by apply (Hdown s').
  - destruct Hq as (Hf' & Hi' & Hsame & _). split; [|done]. split_and!; [done|done|by apply (Hdown s')].
Qed.

Lemma inert_poison G st : inert G st → inert G (ActiveSegment.set_poisoned true st.1, st.2).
Proof. intros (Hf & Hi & _). split_and!; [done|done|by left]. Qed.

Lemma inert_fetch start max_bytes max_records high_watermark G st :
  inert G st → seg_wp (fetch_through start max_bytes max_records high_watermark) (λ st' _, inert G st') st.
Proof.
  intros Hin. unfold seg_wp, fetch_through. cbv zeta.
  pose proof (inert_on_file _ G st (λ f, quiet_fetch_from_file f (ActiveSegment.path st.1)
    (ActiveSegment.header st.1) (ActiveSegment.header_len st.1) (ActiveSegment.index st.1)
    (u64_min high_watermark (ActiveSegment.committed_offset st.1)) start max_bytes max_records) Hin) as H1.
  unfold seg_wp in H1. destruct (on_file _ st) as [[st' r]|]; [|done]. cbn [mbind option_bind].
  destruct H1 as [H1 _]. destruct r as [b|e]; [done|].
  pose proof (inert_on_file (λ f, map_err (io_error (ActiveSegment.path st.1)) (file_seek f (SeekEnd 0)))
    G _ (λ f, quiet_map_err _ _ _ _ (quiet_file_seek f (SeekEnd 0))) (inert_poison _ _ H1)) as H2.
  unfold seg_wp in H2. destruct (on_file _ _) as [[st'' r']|]; [|done]. by destruct H2 as [H2 _].
Qed.
End down.

(** ** What a segment promises *)

Inductive SegOp :=
  | OpAppend (nonce : Uuid) (records : list LogRecord.t) (durability : Durability)
  | OpCommit (nonce : Uuid)
  | OpTruncate (nonce : Uuid) (offset : u64)
  | OpFetch (start_offset : u64) (max_bytes max_records : nat).

Inductive SegReply :=
  | Outcomes (outcomes : list AppendOutcome)
  | Committed (offset : u64)
  | Truncated (outcome : TruncateOutcome.t)
  | Fetched (batch : FetchBatch.t)
  | Failed (error : SegmentError).

Section safety.
Context {hash : Blake3Hash} {tree : Blake3} {fmt : Fmt} {json : HeaderJson} {laws : HeaderJsonLaws}.

Definition reply {A} (f : A → SegReply) (r : log_result A) : SegReply :=
  match r with Ok a => f a | Err e => Failed e end.
Definition seg_call {A} (f : A → SegReply) (c : Seg A) (st : SegState) : option (SegState * SegReply) :=
  '(st', r) ← c st; Some (st', reply f r).

Definition run_op (op : SegOp) : SegState → option (SegState * SegReply) :=
  match op with
  | OpAppend nonce records durability => seg_call Outcomes (append_group nonce records durability)
  | OpCommit nonce => seg_call Committed (commit nonce)
  | OpTruncate nonce offset => seg_call Truncated (truncate_to nonce offset)
  | OpFetch start max_bytes max_records => seg_call Fetched (fetch start max_bytes max_records)
  end.

Fixpoint run_ops (ops : list SegOp) (st : SegState) : option (SegState * list SegReply) :=
  match ops with
  | [] => Some (st, [])
  | op :: ops =>
      '(st, r) ← run_op op st;
      '(st, rs) ← run_ops ops st;
      Some (st, r :: rs)
  end.

Context (X : site) (HX : site_ok X).
#[local] Abbreviation h := (s_header X).
#[local] Abbreviation base_offset := (AnyHeader.base_offset (s_header X)).
#[local] Abbreviation T0 := (inherited_tracker (s_inherited X)).

(** The group of records a log takes, with what it answers and what it appends. *)
Definition takes (log records : list LogRecord.t) (outcomes : list AppendOutcome) (new : list LogRecord.t) : Prop :=
  ∃ bs T ys T', log_ok h T0 log bs T ∧ admits X log bs T records outcomes new ys T'.

(** The log as a caller sees it: its records and how many of them are committed. *)
Inductive step : list LogRecord.t * nat → SegOp → SegReply → list LogRecord.t * nat → Prop :=
  | step_append log cn nonce records durability outcomes new :
      takes log records outcomes new →
      step (log, cn) (OpAppend nonce records durability) (Outcomes outcomes)
        (log ++ new, committed_after durability cn (length (log ++ new)))
  | step_commit log cn nonce :
      step (log, cn) (OpCommit nonce) (Committed (offset_at base_offset (length log))) (log, length log)
  | step_truncate_end log cn nonce :
      step (log, cn) (OpTruncate nonce (offset_at base_offset (length log)))
        (Truncated (TruncateOutcome.mk zero 0 (offset_at base_offset (length log)))) (log, cn)
  | step_truncate log bs cn nonce n :
      n < length log → encode_log h 0 log = Ok bs →
      step (log, cn) (OpTruncate nonce (offset_at base_offset n))
        (Truncated (TruncateOutcome.mk (nat_u64 (length log - n)) (length (concat (drop n bs)))
           (offset_at base_offset n))) (take n log, n)
  | step_fetch log bs cn start max_bytes max_records :
      encode_log h 0 log = Ok bs →
      step (log, cn) (OpFetch start max_bytes max_records)
        (Fetched (fetch_spec h log bs cn start max_bytes max_records)) (log, cn)
  | step_failed a op error : step a op (Failed error) a.

(** A reply that promises nothing about the disk. *)
Definition promises_nothing (op : SegOp) (r : SegReply) : Prop :=
  match op, r with
  | OpCommit _, Committed _ => False
  | OpAppend _ _ Fsync, Outcomes _ => False
  | _, _ => True
  end.

(** What a life leaves: the records committed when the power goes.  At most one operation
    is in doubt, one that failed; it took place or it did not.  After it the segment
    promises nothing. *)
Inductive lived : list LogRecord.t * nat → list SegOp → list SegReply → list LogRecord.t → Prop :=
  | lived_end log cn : lived (log, cn) [] [] (take cn log)
  | lived_step a op r a' ops rs log : step a op r a' → lived a' ops rs log → lived a (op :: ops) (r :: rs) log
  | lived_doubt a op error r log cn ops rs :
      step a op r (log, cn) → Forall2 promises_nothing ops rs →
      lived a (op :: ops) (Failed error :: rs) (take cn log).

(** ** Operations against the promise *)

Definition op_post (op : SegOp) (log : list LogRecord.t) (cn : nat) (st' : SegState) (r : SegReply) : Prop :=
  (∃ log' bs' T' cn', step (log, cn) op r (log', cn') ∧ healthy X log' bs' T' cn' st') ∨
  (∃ error log1 bs1 cn1 log2 bs2 cn2 r2, r = Failed error ∧
     step (log, cn) op (Failed error) (log1, cn1) ∧ step (log, cn) op r2 (log2, cn2) ∧
     inert (λ v, recoverable X (take cn1 log1) (take cn1 bs1) v ∨ recoverable X (take cn2 log2) (take cn2 bs2) v) st').

Lemma seg_call_post {A} (f : A → SegReply) (c : Seg A) (Q : SegState → log_result A → Prop)
    (P : SegState → SegReply → Prop) st :
  seg_wp c Q st → (∀ st' r, Q st' r → P st' (reply f r)) →
  ∃ st' r, seg_call f c st = Some (st', r) ∧ P st' r.
Proof.
  unfold seg_wp, seg_call. intros Hc HP. destruct (c st) as [[st' r]|]; [|done].
  eexists _, _. split; [done|]. by apply HP.
Qed.

Lemma healthy_frames log bs T cn st : healthy X log bs T cn st → log_ok h T0 log bs T.
Proof. by intros (i & j & pos & e & report & D & [? ? ? ? ?] & _). Qed.

Lemma run_append_spec nonce records durability log bs T cn st :
  healthy X log bs T cn st →
  ∃ st' r, run_op (OpAppend nonce records durability) st = Some (st', r) ∧
    op_post (OpAppend nonce records durability) log cn st' r.
Proof.
  intros Hh. destruct st as [self s]. eapply seg_call_post; [by apply (append_group_spec X HX nonce records durability)|].
  intros st' [outs|err] [_ Hr]; simpl.
  - destruct Hr as (new & ys & T' & Had & Hh'). left. eexists _, _, _, _. split; [|exact Hh'].
    constructor. exists bs, T, ys, T'. split; [by eapply healthy_frames|done].
  - destruct Hr as [[[Hh' _]|(outs & new & ys & T' & Had & Hin & _)] _].
    + left. exists log, bs, T, cn. split; [constructor|done].
    + right. pose proof (healthy_frames _ _ _ _ _ Hh) as Hok.
      assert (cn <= length log) as Hcn by (by destruct Hh as (?&?&?&?&?&?& [_ ? _ _ _] & _)).
      pose proof (encode_log_length _ _ _ _ (lo_frames _ _ _ _ _ Hok)) as Hlen.
      eexists err, log, bs, cn, (log ++ new), (bs ++ ys), _, (Outcomes outs). split_and!; [done|constructor| |].
      * constructor. exists bs, T, ys, T'. done.
      * eapply inert_mono; [|exact Hin]. intros v [Hv|Hv]; [left|by right].
        by rewrite !take_app_le in Hv by lia.
Qed.

Lemma run_commit_spec nonce log bs T cn st :
  healthy X log bs T cn st →
  ∃ st' r, run_op (OpCommit nonce) st = Some (st', r) ∧ op_post (OpCommit nonce) log cn st' r.
Proof.
  intros Hh. destruct st as [self s]. eapply seg_call_post; [by apply (commit_spec X HX nonce)|].
  intros st' [o|err] [_ Hr]; simpl.
  - destruct Hr as [-> Hh']. left. eexists _, _, _, _. split; [constructor|exact Hh'].
  - destruct Hr as [_ Hin]. right. eexists err, log, bs, cn, log, bs, _, (Committed _).
    split_and!; [done|constructor|constructor|]. done.
Qed.

Lemma run_truncate_spec nonce offset log bs T cn st :
  healthy X log bs T cn st →
  ∃ st' r, run_op (OpTruncate nonce offset) st = Some (st', r) ∧ op_post (OpTruncate nonce offset) log cn st' r.
Proof.
  intros Hh. pose proof (healthy_frames _ _ _ _ _ Hh) as Hok. pose proof (lo_frames _ _ _ _ _ Hok) as Hf.
  destruct st as [self s]. eapply seg_call_post; [by apply (truncate_spec X HX nonce offset)|].
  intros st' [out|err] [_ Hr]; simpl.
  - left. destruct Hr as [(-> & -> & Hh')|(n & Tn & Hn & -> & -> & Hh')].
    + exists log, bs, T, cn. split; [constructor|done].
    + eexists _, _, _, _. split; [by constructor|exact Hh'].
  - destruct Hr as [[[Hh' _]|(n & Hn & -> & Hin & _)] _].
    + left. exists log, bs, T, cn. split; [constructor|done].
    + right. eexists err, log, bs, cn, (take n log), (take n bs), n, _.
      split_and!; [done|constructor|by constructor|]. eapply inert_mono; [|exact Hin].
      intros v [Hv|Hv]; [by left|right]. by rewrite !take_take, !Nat.min_id.
Qed.

Lemma fetch_segment_spec start max_bytes max_records log bs T cn self s :
  healthy X log bs T cn (self, s) →
  seg_wp (fetch start max_bytes max_records) (λ st' r, (no_fault s → ∃ b, r = Ok b) ∧
    match r with
    | Ok b => b = fetch_spec h log bs cn start max_bytes max_records ∧ healthy X log bs T cn st'
    | Err _ => inert (recoverable X (take cn log) (take cn bs)) st'
    end) (self, s).
Proof.
  intros (i & j & pos & e & report & D & Hst & Heq & Hup). cbn [fst snd] in *. subst self.
  pose proof (sd_log _ _ _ _ _ _ _ _ Hst) as Hok. pose proof (content_bound X HX _ _ _ Hok) as Hbound.
  set (self := segment_of X log bs T cn i pos e report). unfold seg_wp, fetch, fetch_through. cbv zeta.
  assert (u64_min (ActiveSegment.committed_offset self) (ActiveSegment.committed_offset self)
    = offset_at base_offset cn) as Hmin by (unfold u64_min; by case_decide).
  cbn [fst] in *. rewrite Hmin. set (G := recoverable_at X i j (take cn log) (take cn bs)).
  set (Q := λ (s' : SimState.t) (r : FetchBatch.t * SimFile.t), up D e s' ∧
    r.1 = fetch_spec h log bs cn start max_bytes max_records ∧ ∃ pos', r.2 = SimFile.mk (s_path X) i pos' e true).
  assert (view_spec False G (fetch_from_file (SimFile.mk (s_path X) i pos e true) (s_path X) h (length (s_bytes X))
    (index_from h 0 (length (s_bytes X)) bs) (offset_at base_offset cn) start max_bytes max_records) Q s) as Hview.
  { eapply (vs_fetch_from_file _ _ _ _ _ _ _ _ _ _ _ _ _ _ _ (s_bytes X) []);
      [done|apply (sd_survives _ _ _ _ _ _ _ _ Hst)|apply (sd_file _ _ _ _ _ _ _ _ Hst)|done
      |by rewrite app_nil_r|apply Hst|unfold u64_end; lia|].
    intros s' pos' Hup'. split_and!; [done|done|by eexists]. }
  pose proof (seg_wp_on_file_quiet False G (λ f, fetch_from_file f (ActiveSegment.path self)
      (ActiveSegment.header self) (ActiveSegment.header_len self) (ActiveSegment.index self)
      (offset_at base_offset cn) start max_bytes max_records) Q
    (λ r, SimFile.inode r.2 = i) D e self s Hup (sd_survives _ _ _ _ _ _ _ _ Hst)
    ltac:(by eapply stored_inode) Hview (quiet_fetch_from_file _ _ _ _ _ _ _ _ _)) as Hread.
  unfold seg_wp in Hread. destruct (on_file _ (self, s)) as [[st' r]|]; [|done].
  cbn [mbind option_bind]. destruct Hread as [_ Hr].
  destruct r as [b|err].
  - destruct Hr as (f & Hst' & Hup' & Hb & pos' & Hf). cbn [fst snd] in *. subst f b.
    split; [by eexists|]. split; [done|]. exists i, j, pos', e, report, D. split_and!; [done| |done]. by rewrite Hst'.
  - destruct Hr as (HF & Hself & Hr).
    assert (inert (recoverable X (take cn log) (take cn bs)) (ActiveSegment.set_poisoned true st'.1, st'.2)) as Hin.
    { destruct st' as [self' s']. cbn [fst snd] in *. subst self'.
      apply (inert_mono G); [intros v Hv; by exists i, j|]. destruct Hr as [Hup'|Hin]; [|by apply inert_poison in Hin].
      split_and!; [by eapply up_failed; [|apply Hst]|by eapply stored_inode|by left]. }
    pose proof (inert_on_file (λ f, map_err (io_error (ActiveSegment.path self)) (file_seek f (SeekEnd 0)))
      _ _ (λ f, quiet_map_err _ _ _ _ (quiet_file_seek f (SeekEnd 0))) Hin) as H2.
    unfold seg_wp in H2. destruct (on_file _ (_, st'.2)) as [[st'' r']|]; [|done].
    split; [by intros ?%HF|]. by destruct H2.
Qed.

Lemma run_fetch_spec start max_bytes max_records log bs T cn st :
  healthy X log bs T cn st →
  ∃ st' r, run_op (OpFetch start max_bytes max_records) st = Some (st', r) ∧
    op_post (OpFetch start max_bytes max_records) log cn st' r.
Proof.
  intros Hh. pose proof (lo_frames _ _ _ _ _ (healthy_frames _ _ _ _ _ Hh)) as Hf.
  destruct st as [self s]. eapply seg_call_post; [by apply (fetch_segment_spec start max_bytes max_records)|].
  intros st' [b|err] [_ Hr]; simpl.
  - destruct Hr as [-> Hh']. left. exists log, bs, T, cn. split; [by constructor|done].
  - right. exists err, log, bs, cn, log, bs, cn, (Failed err). split_and!; [done|constructor|constructor|].
    eapply inert_mono; [|exact Hr]. by left.
Qed.

Lemma seg_op_spec op log bs T cn st :
  healthy X log bs T cn st → ∃ st' r, run_op op st = Some (st', r) ∧ op_post op log cn st' r.
Proof.
  destruct op.
  - apply run_append_spec.
  - apply run_commit_spec.
  - apply run_truncate_spec.
  - apply run_fetch_spec.
Qed.

Lemma run_op_inert op G st :
  inert G st → ∃ st' r, run_op op st = Some (st', r) ∧ inert G st' ∧ promises_nothing op r.
Proof.
  intros Hin. assert (∀ {A} (f : A → SegReply) (c : Seg A) (P : log_result A → Prop),
    seg_wp c (λ st' _, inert G st') st → seg_wp c (λ _ r, P r) st → (∀ r, P r → promises_nothing op (reply f r)) →
    ∃ st' r, seg_call f c st = Some (st', r) ∧ inert G st' ∧ promises_nothing op r) as Hcall.
  { intros A f c P Hc Hp HP. unfold seg_wp, seg_call in *. destruct (c st) as [[st' r]|]; [|done].
    eexists _, _. split; [done|]. split; [done|]. by apply HP. }
  destruct op as [nonce records [|]|nonce|nonce offset|start mb mr]; cbn [run_op].
  - apply (Hcall _ _ _ (λ _, True)); [|eapply seg_wp_mono; [done|]|by intros []];
      (eapply inert_keeps; [reflexivity|apply keeps_append|done]).
  - eapply Hcall; [eapply inert_keeps; [reflexivity|apply keeps_append|done]
      |eapply inert_stops; [reflexivity|apply stops_append_fsync|done]|]. by intros r [err ->].
  - eapply Hcall; [eapply inert_keeps; [reflexivity|apply stops_keeps, stops_commit|done]
      |eapply inert_stops; [reflexivity|apply stops_commit|done]|]. by intros r [err ->].
  - apply (Hcall _ _ _ (λ _, True)); [|eapply seg_wp_mono; [done|]|by intros []];
      (eapply inert_keeps; [reflexivity|apply keeps_truncate|done]).
  - apply (Hcall _ _ _ (λ _, True)); [|eapply seg_wp_mono; [done|]|by intros []];
      by apply inert_fetch.
Qed.

Lemma run_ops_inert ops G st :
  inert G st → ∃ st' rs, run_ops ops st = Some (st', rs) ∧ inert G st' ∧ Forall2 promises_nothing ops rs.
Proof.
  revert st. induction ops as [|op ops IH]; intros st Hin; [by exists st, []|]. cbn [run_ops].
  destruct (run_op_inert op G st Hin) as (st1 & r & -> & Hin1 & Hp). cbn [mbind option_bind].
  destruct (IH st1 Hin1) as (st2 & rs & -> & Hin2 & Hps). cbn [mbind option_bind].
  exists st2, (r :: rs). split_and!; [done|done|by constructor].
Qed.

(** What a crash after the operations leaves. *)
Definition lives_on (log : list LogRecord.t) (cn : nat) (ops : list SegOp) (rs : list SegReply) (v : view) : Prop :=
  ∃ log' bs', lived (log, cn) ops rs log' ∧ recoverable X log' bs' v.

Lemma healthy_failed log bs T cn st :
  healthy X log bs T cn st → failed (recoverable X (take cn log) (take cn bs)) st.2.
Proof.
  intros (i & j & pos & e & report & D & Hst & _ & Hup). eapply up_failed; [done|].
  eapply survives_mono; [|apply Hst]. intros v Hv. by exists i, j.
Qed.

Lemma run_ops_spec ops log bs T cn st :
  healthy X log bs T cn st →
  ∃ st' rs, run_ops ops st = Some (st', rs) ∧ failed (lives_on log cn ops rs) st'.2.
Proof.
  revert log bs T cn st. induction ops as [|op ops IH]; intros log bs T cn st Hh; cbn [run_ops].
  { exists st, []. split; [done|]. eapply failed_mono; [|by eapply healthy_failed].
    intros v Hv. eexists _, _. split; [constructor|exact Hv]. }
  destruct (seg_op_spec op _ _ _ _ _ Hh) as (st1 & r & -> & Hpost). cbn [mbind option_bind].
  destruct Hpost as [(log' & bs' & T' & cn' & Hstep & Hh')
    |(error & log1 & bs1 & cn1 & log2 & bs2 & cn2 & r2 & -> & Hs1 & Hs2 & Hin)].
  - destruct (IH _ _ _ _ _ Hh') as (st2 & rs & -> & Hf). cbn [mbind option_bind].
    exists st2, (r :: rs). split; [done|]. eapply failed_mono; [|exact Hf].
    intros v (log'' & bs'' & Hl & Hv). exists log'', bs''. split; [|done]. by econstructor.
  - destruct (run_ops_inert ops _ _ Hin) as (st2 & rs & -> & (Hf & _) & Hp). cbn [mbind option_bind].
    exists st2, (Failed error :: rs). split; [done|]. eapply failed_mono; [|exact Hf].
    intros v [Hv|Hv]; eexists _, _; (split; [|exact Hv]); by eapply lived_doubt.
Qed.

(** ** Lives *)

(** One life: the faults planned for it, its operations, and how much of what is pending
    reaches the disk when the power goes. *)
Record seg_life := SegLife { sl_plan : FaultPlan.t; sl_ops : list SegOp; sl_prefix : nat }.

(** A life whose recovery fails does nothing more. *)
Definition run_seg_life (path : PathBuf) (l : seg_life) (s : SimState.t)
    : option (SimState.t * option (list SegReply)) :=
  '(s, recovered) ← recover_in path (boot (sl_plan l) s);
  match recovered with
  | Err _ => s ← power_off (sl_prefix l) s; Some (s, None)
  | Ok self =>
      '(st, rs) ← run_ops (sl_ops l) (self, s);
      s ← power_off (sl_prefix l) st.2;
      Some (s, Some rs)
  end.

Fixpoint run_seg_lives (path : PathBuf) (ls : list seg_life) (s : SimState.t)
    : option (SimState.t * list (option (list SegReply))) :=
  match ls with
  | [] => Some (s, [])
  | l :: ls =>
      '(s, rs) ← run_seg_life path l s;
      '(s, rss) ← run_seg_lives path ls s;
      Some (s, rs :: rss)
  end.

(** The logs that lives with these replies may leave; a recovery commits what it finds. *)
Inductive log_history : list LogRecord.t → list (list SegOp) → list (option (list SegReply)) →
    list LogRecord.t → Prop :=
  | history_end log : log_history log [] [] log
  | history_dead log ops lives rss log' :
      log_history log lives rss log' → log_history log (ops :: lives) (None :: rss) log'
  | history_life log ops rs log1 lives rss log' :
      lived (log, length log) ops rs log1 → log_history log1 lives rss log' →
      log_history log (ops :: lives) (Some rs :: rss) log'.

Lemma recoverable_ok log bs v : recoverable X log bs v → ∃ T, log_ok h T0 log bs T.
Proof. by intros (i & j & [? _ _ _ _ _ _]). Qed.

Lemma seg_life_spec l log bs v s :
  still v s → recoverable X log bs v →
  ∃ s' rs log' bs' v', run_seg_life (s_path X) l s = Some (s', rs) ∧ still v' s' ∧ recoverable X log' bs' v' ∧
    match rs with Some rs => lived (log, length log) (sl_ops l) rs log' | None => log' = log end.
Proof.
  intros Hs Hrec. destruct (recoverable_ok _ _ _ Hrec) as [T Hok].
  pose proof (recover_spec X HX log bs T v _ _ Hok Hrec (boot_up (sl_plan l) v s Hs)) as Hr.
  unfold view_spec, io_wp in Hr. unfold run_seg_life.
  destruct (recover_in (s_path X) (boot (sl_plan l) s)) as [[s1 [self|err]]|]; [| |done]; cbn [mbind option_bind].
  - destruct Hr as [_ Hh]. destruct (run_ops_spec (sl_ops l) _ _ _ _ _ Hh) as ([self2 s2] & rs & -> & Hf).
    cbn [mbind option_bind snd] in *. destruct (power_off_view _ (sl_prefix l) s2 Hf) as (s3 & v' & -> & Hs3 & log' & bs' & Hl & Hv').
    by exists s3, (Some rs), log', bs', v'.
  - destruct Hr as (_ & _ & Hf). destruct (power_off_view _ (sl_prefix l) s1 Hf) as (s3 & v' & -> & Hs3 & Hv').
    by exists s3, None, log, bs, v'.
Qed.

Lemma seg_lives_spec ls log bs v s :
  still v s → recoverable X log bs v →
  ∃ s' rss log' bs' v', run_seg_lives (s_path X) ls s = Some (s', rss) ∧ still v' s' ∧ recoverable X log' bs' v' ∧
    log_history log (sl_ops <$> ls) rss log'.
Proof.
  revert log bs v s. induction ls as [|l ls IH]; intros log bs v s Hs Hrec.
  { exists s, [], log, bs, v. split_and!; try done. constructor. }
  destruct (seg_life_spec l _ _ _ _ Hs Hrec) as (s1 & rs & log1 & bs1 & v1 & Hrun & Hs1 & Hrec1 & Hl).
  destruct (IH _ _ _ _ Hs1 Hrec1) as (s2 & rss & log2 & bs2 & v2 & Hruns & Hs2 & Hrec2 & Hhist).
  exists s2, (rs :: rss), log2, bs2, v2. cbn [run_seg_lives]. rewrite Hrun. cbn [mbind option_bind]. rewrite Hruns.
  split_and!; [done|done|done|]. destruct rs as [rs|]; [by econstructor|]. subst log1. by constructor.
Qed.

(** The records that recovering a disk after a crash gives. *)
Definition recovers_to (log : list LogRecord.t) (bs : list (list u8)) (s : SimState.t) : Prop :=
  ∃ s' self, recover_in (s_path X) (boot FaultPlan.NoFault s) = Some (s', Ok self) ∧
    ActiveSegment.next_offset self = offset_at base_offset (length log) ∧
    ∀ start max_bytes max_records, ∃ st,
      fetch start max_bytes max_records (self, s')
      = Some (st, Ok (fetch_spec h log bs (length log) start max_bytes max_records)).

Lemma recoverable_recovers log bs v s : still v s → recoverable X log bs v → recovers_to log bs s.
Proof.
  intros Hs Hrec. destruct (recoverable_ok _ _ _ Hrec) as [T Hok].
  destruct (vs_returns _ _ _ _ _ (recover_spec X HX log bs T v _ _ Hok Hrec (boot_up FaultPlan.NoFault v s Hs)))
    as (s1 & self & Hrecover & Hhealthy & Hp); [done|by intros []|]. exists s1, self. split; [done|]. split.
  { destruct Hhealthy as (i & j & pos & e & report & D & _ & Heq & _). cbn [fst] in Heq. by rewrite Heq. }
  intros start max_bytes max_records.
  pose proof (fetch_segment_spec start max_bytes max_records _ _ _ _ _ _ Hhealthy) as Hfetch. unfold seg_wp in Hfetch.
  destruct (fetch start max_bytes max_records (self, s1)) as [[st r]|]; [|done].
  destruct Hfetch as [Hno Hr]. destruct (Hno Hp) as [b ->]. destruct Hr as [-> _]. by exists st.
Qed.

(** C6. The log survives every crash.  Start from a segment that holds [log], live any number
    of lives with any operations and any faults, and recover once more: the recovery
    succeeds, the log it finds is one the lives' replies allow, and every fetch returns its
    records. *)
Theorem log_survives_crashes (ls : list seg_life) (log : list LogRecord.t) (bs : list (list u8))
    (v : view) (s : SimState.t) :
  still v s → recoverable X log bs v →
  ∃ s' rss log' bs', run_seg_lives (s_path X) ls s = Some (s', rss) ∧
    log_history log (sl_ops <$> ls) rss log' ∧ encode_log h 0 log' = Ok bs' ∧
    ∃ s'' self, recover_in (s_path X) (boot FaultPlan.NoFault s') = Some (s'', Ok self) ∧
      ActiveSegment.next_offset self = offset_at base_offset (length log') ∧
      ∀ start max_bytes max_records, ∃ st,
        fetch start max_bytes max_records (self, s'')
        = Some (st, Ok (fetch_spec h log' bs' (length log') start max_bytes max_records)).
Proof.
  intros Hs Hrec. destruct (seg_lives_spec ls _ _ _ _ Hs Hrec) as (s' & rss & log' & bs' & v' & Hrun & Hs' & Hrec' & Hh).
  destruct (recoverable_ok _ _ _ Hrec') as [T Hok].
  exists s', rss, log', bs'. split_and!; [done|done|apply Hok|]. by apply (recoverable_recovers log' bs' v').
Qed.

(** C15. Without faults an append takes exactly the groups the log takes: it answers what
    offering the records one at a time answers and appends the records that offering them
    appends, or it changes nothing. *)
Theorem append_exact (nonce : Uuid) (records : list LogRecord.t) (durability : Durability)
    (log : list LogRecord.t) (bs : list (list u8)) (T : tracker) (cn : nat) (st : SegState) :
  healthy X log bs T cn st → SimState.plan st.2 = FaultPlan.NoFault → ¬ taken X nonce st.2 →
  ∃ st' r, append_group nonce records durability st = Some (st', r) ∧
    match r with
    | Ok outcomes => ∃ new ys T', takes log records outcomes new ∧
        offer T base_offset (length log) records = Ok (outcomes, new, T') ∧
        healthy X (log ++ new) (bs ++ ys) T' (committed_after durability cn (length (log ++ new))) st'
    | Err _ => st' = st ∧ ¬ ∃ outcomes new, takes log records outcomes new
    end.
Proof.
  intros Hh Hnf Hnt. pose proof (healthy_frames _ _ _ _ _ Hh) as Hok. destruct st as [self s].
  pose proof (append_group_spec X HX nonce records durability log bs T cn self s Hh) as Hspec.
  unfold seg_wp in Hspec. destruct (append_group nonce records durability (self, s)) as [[st' r]|]; [|done].
  exists st', r. split; [done|]. destruct Hspec as [_ Hr]. cbn [fst snd] in *. destruct r as [outs|err].
  - destruct Hr as (new & ys & T' & Had & Hh'). exists new, ys, T'. split_and!; [by exists bs, T, ys, T'|apply Had|done].
  - destruct Hr as [[[_ Hsame]|(outs & new & ys & T' & _ & _ & Htk)] Hno]; [|by destruct (Hnt (Htk Hnf))].
    split; [by apply Hsame|]. intros (outs & new & bs1 & T1 & ys & T' & Hok1 & Had).
    assert (bs1 = bs ∧ T1 = T) as [-> ->].
    { pose proof (lo_frames _ _ _ _ _ Hok) as H1. rewrite (lo_frames _ _ _ _ _ Hok1) in H1.
      pose proof (lo_replay _ _ _ _ _ Hok) as H2. rewrite (lo_replay _ _ _ _ _ Hok1) in H2. by simplify_eq. }
    by eapply Hno.
Qed.
End safety.
