(* ===== verification/SealSafety.v ===== *)
(** Crash safety of sealing, and what a sealed segment reads back.

    A seal interrupted anywhere leaves the segment either active with its records or sealed
    with all of them; a seal that returned leaves it sealed for good.  A reader of a sealed
    segment returns its records below the watermark, whatever became of the sidecars. *)

From stdpp Require Import prelude strings list gmap pretty.
From Stdlib Require Import ZArith Lia.
From S2P Require Import Prelude Wire Placement Flow Storage DiskLogic ChunkTree LogTypes RecordCodec DiskView.
From S2P Require Import ProducerState ProducerSnapshot SegmentFiles SegmentScan Manifest ActiveSegment Sealing.
From S2P Require Import LogDisk SegmentLog AppendPlan LogOps SealDisk LogSafety.
#[local] Open Scope nat_scope.

Section safety.
Context {hash : Blake3Hash} {tree : Blake3} {text : Blake3Text} {fmt : Fmt}.
Context {json : HeaderJson} {laws : HeaderJsonLaws} {value : JsonValue} {mjson : ManifestJson} {mlaws : ManifestJsonLaws}.
Context (X : site) (HX : site_ok X).
#[local] Abbreviation h := (s_header X).
#[local] Abbreviation T0 := (inherited_tracker (s_inherited X)).
#[local] Abbreviation segment := (SegmentPaths.segment (s_paths X)).

(** ** Reading *)

Lemma elem_of_batch base n items max_bytes max_records rs used next r :
  batch base n items max_bytes max_records = (rs, used, next) → r ∈ rs →
  ∃ m, m < length items ∧ r.1 = offset_at base (n + m).
Proof.
  revert n max_bytes max_records rs used next.
  induction items as [|[x b] items IH]; intros n max_bytes max_records rs used next; simpl.
  { intros [= <- _ _] ?%not_elem_of_nil. done. }
  destruct max_records as [|max_records]; [by intros [= <- _ _] ?%not_elem_of_nil|].
  case_decide; [|by intros [= <- _ _] ?%not_elem_of_nil].
  destruct (batch base (S n) items _ _) as [[rs' used'] next'] eqn:Hb. intros [= <- _ _] [->|Hr]%elem_of_cons.
  - exists 0. split; [lia|]. by rewrite Nat.add_0_r.
  - destruct (IH _ _ _ _ _ _ Hb Hr) as (m & Hm & ->). exists (S m). split; [lia|]. f_equal. lia.
Qed.

(** No record at or above the watermark is returned. *)
Lemma sealed_fetch_below log bs T start max_bytes max_records high_watermark :
  log_ok h T0 log bs T →
  Forall (λ r, ival r.1 < ival high_watermark)%Z
    (FetchBatch.records (sealed_fetch X log bs start max_bytes max_records high_watermark)).
Proof.
  intros Hok. unfold sealed_fetch. cbv zeta. set (watermark := u64_min _ _).
  pose proof (offset_at_val h T0 log bs T (length log) Hok ltac:(done)) as Hnext.
  assert (ival watermark <= ival high_watermark ∧
    ival watermark <= ival (offset_at (AnyHeader.base_offset h) (length log)))%Z as [Hw Hle]
    by (unfold watermark, u64_min; case_decide; lia).
  case_decide; [|by case_decide; constructor]. unfold fetch_spec. cbv zeta. case_decide; [by constructor|].
  set (n := Z.to_nat (ival watermark - ival (AnyHeader.base_offset h))).
  destruct (batch _ _ _ _ _) as [[rs used] next] eqn:Hb. cbn [FetchBatch.records]. apply Forall_forall. intros r Hr.
  destruct (elem_of_batch _ _ _ _ _ _ _ _ _ Hb Hr) as (m & Hm & ->).
  rewrite length_zip, length_take, length_drop in Hm.
  rewrite (offset_at_val h T0 log bs T); [lia|done|lia].
Qed.

(** The records that opening a disk after a crash gives. *)
Definition opens_to (log : list LogRecord.t) (bs : list (list u8)) (s : SimState.t) : Prop :=
  ∀ chunks_nonce index_nonce,
    SimState.ns_visible s !! temporary (s_dir X) (s_stem X) ".chunks" chunks_nonce = None →
    SimState.ns_visible s !! temporary (s_dir X) (s_stem X) ".index" index_nonce = None →
    ∃ s' reader, open_in chunks_nonce index_nonce segment (boot FaultPlan.NoFault s) = Some (s', Ok reader) ∧
      ∀ start max_bytes max_records high_watermark, ∃ s'' f,
        reader_fetch_through reader start max_bytes max_records high_watermark s'
        = Some (s'', Ok (sealed_fetch X log bs start max_bytes max_records high_watermark, f)).

Lemma openable_opens log bs v s : still v s → openable X log bs v → opens_to log bs s.
Proof.
  intros Hs (i & k & m & mb & Hop) chunks_nonce index_nonce Hc Hi.
  assert (SimState.ns_visible s = v_ns v) as Hns by (by rewrite <-(st_visible _ _ Hs)). rewrite Hns in Hc, Hi.
  destruct (vs_returns _ _ _ _ _ (open_spec X HX chunks_nonce index_nonce i k log bs m mb v _ _
    (boot_up FaultPlan.NoFault v s Hs) Hop)) as (s1 & reader & Hopen & (pos & w & -> & Hup & Hw) & Hp); [done| |].
  { intros [[x Hx]|[x Hx]]; congruence. }
  exists s1, (reader_of X i pos (SimState.epoch s) bs m). split; [done|]. intros start max_bytes max_records high_watermark.
  destruct (vs_returns _ _ _ _ _ (reader_fetch_spec X HX (λ _, True) i k log bs m mb pos _ w s1 start max_bytes max_records
    high_watermark Hup I Hw)) as (s2 & [b f] & Hfetch & (_ & Hb & _) & _); [done|by intros []|].
  cbn [fst] in Hb. subst b. by exists s2, f.
Qed.

(** C8. A sealed segment reads back its records.  On any disk that holds its file, its manifest
    and the frontier it inherited, and whatever the sparse index and the chunk sidecar hold
    or whether they are there at all, opening succeeds and every fetch returns the records
    from the requested offset on, none of them at or above the watermark. *)
Theorem sealed_reads_exact (log : list LogRecord.t) (bs : list (list u8)) (v : view) (s : SimState.t)
    (chunks_nonce index_nonce : Uuid) :
  still v s → openable X log bs v →
  v_ns v !! temporary (s_dir X) (s_stem X) ".chunks" chunks_nonce = None →
  v_ns v !! temporary (s_dir X) (s_stem X) ".index" index_nonce = None →
  ∃ s' reader, open_in chunks_nonce index_nonce segment (boot FaultPlan.NoFault s) = Some (s', Ok reader) ∧
    ∀ start max_bytes max_records high_watermark, ∃ s'' f,
      let batch := sealed_fetch X log bs start max_bytes max_records high_watermark in
      reader_fetch_through reader start max_bytes max_records high_watermark s' = Some (s'', Ok (batch, f)) ∧
      Forall (λ r, ival r.1 < ival high_watermark)%Z (FetchBatch.records batch).
Proof.
  intros Hs Hop Hc Hi. rewrite <-(st_visible _ _ Hs) in Hc, Hi.
  destruct (openable_opens log bs v s Hs Hop chunks_nonce index_nonce Hc Hi) as (s1 & reader & Hopen & Hfetch).
  exists s1, reader. split; [done|]. intros start max_bytes max_records high_watermark.
  destruct (Hfetch start max_bytes max_records high_watermark) as (s2 & f & Hf). exists s2, f. cbv zeta. split; [done|].
  destruct Hop as (i & k & m & mb & [(T & Hok & _) _ _ _ _ _]). by eapply sealed_fetch_below.
Qed.

(** ** Sealing *)

Lemma seal_spec nonces log bs T cn self s :
  healthy X log bs T cn (self, s) →
  seg_wp (seal nonces) (seal_outcome X nonces None log bs T cn s) (self, s).
Proof.
  intros Hh. unfold seal. apply seg_wp_get.
  assert (ActiveSegment.header self = h) as ->.
  { destruct Hh as (i & j & pos & e & report & D & _ & Heq & _). cbn [fst] in Heq. by rewrite Heq. }
  destruct h as [hd|hd] eqn:Hhd; [by apply (seal_v1_spec X HX)|by apply (seal_v2_spec X HX _ _ hd)].
Qed.

(** C7. Sealing survives every crash.  A healthy segment is sealed under any fault plan and then
    the power goes, with any part of what is pending on the disk.  If the seal returned, the
    sealed segment opens to all the records.  If it failed, the sealed segment opens to all
    of them or the active one still recovers, to all of them or to the committed ones.
    Without faults the seal returns, unless a name it needs is taken or the manifest has no
    JSON text. *)
Theorem seal_survives_crashes (nonces : SealNonces) (log : list LogRecord.t) (bs : list (list u8)) (T : tracker)
    (cn : nat) (st : SegState) (prefix : nat) :
  healthy X log bs T cn st →
  ∃ st' r s', seal nonces st = Some (st', r) ∧ power_off prefix st'.2 = Some s' ∧
    match r with
    | Ok _ => opens_to log bs s'
    | Err _ => opens_to log bs s' ∨ recovers_to X log bs s' ∨ recovers_to X (take cn log) (take cn bs) s'
    end ∧
    (SimState.plan st.2 = FaultPlan.NoFault → ¬ seal_blocked X nonces None log bs T st.2 → is_ok r = true).
Proof.
  intros Hh. destruct st as [self s]. pose proof (healthy_frames X _ _ _ _ _ Hh) as Hok.
  pose proof (encode_log_length _ _ _ _ (lo_frames _ _ _ _ _ Hok)) as Hlen.
  pose proof (seal_spec nonces log bs T cn self s Hh) as Hspec. unfold seg_wp in Hspec.
  destruct (seal nonces (self, s)) as [[st' r]|]; [|done]. destruct Hspec as [_ Hr].
  exists st', r. destruct r as [reader|err].
  - destruct Hr as (i & k & m & mb & pos & e & w & -> & Hup & Hop).
    destruct (up_crash _ _ prefix _ Hup) as (s' & Hm & _ & Hs).
    assert (survivor (Disk w []) prefix = w) as Hw by (unfold survivor; simpl; by rewrite take_nil). rewrite Hw in Hs.
    exists s'. split_and!; [done| | |done].
    + unfold power_off. by rewrite (up_up _ _ _ Hup).
    + eapply openable_opens; [done|]. by exists i, k, m, mb.
  - destruct Hr as [HF Hf]. destruct (power_off_view _ prefix _ Hf) as (s' & v & Hoff & Hs & Hv).
    exists s'. split_and!; [done|done| |by intros Hn Hnb; destruct (Hnb (HF Hn))].
    destruct Hv as [[Hv|Hv]|Hv].
    + right. right. by eapply (recoverable_recovers X).
    + right. left. rewrite !take_ge in Hv by lia. by eapply (recoverable_recovers X).
    + left. by eapply openable_opens.
Qed.
End safety.
