(* ===== verification/LogScenario.v ===== *)
(** Concrete runs of the segment log: a segment created on an empty disk, its records
    appended, cut and read back through crashes, the theorems about the log applied to it,
    and a run in which a truncation that failed strands the segment. *)

From stdpp Require Import prelude strings list gmap pretty.
From Stdlib Require Import ZArith Lia.
From S2P Require Import Prelude Wire KeyRange Lineage Placement Flow Storage DiskLogic ChunkTree LogTypes RecordCodec.
From S2P Require Import DiskView ProducerState ProducerSnapshot SegmentFiles SegmentScan ActiveSegment LogDisk SegmentLog.
From S2P Require Import AppendPlan LogOps LogSafety.
#[local] Open Scope nat_scope.

(** Stand-ins for the hash, the texts and the header text: only the one header is
    serialized. *)
#[export] Instance log_hash : Blake3Hash := λ bytes, from_be_bytes U256 (take 32 (reverse bytes ++ replicate 32 zero)).
#[export] Instance log_tree : Blake3 := λ context input,
  wrap_int U256 (Z.of_nat (String.length context) + foldl (λ a b, a * 263 + ival b)%Z 7%Z input).
#[export] Instance log_fmt : Fmt := {| uuid_display n := pretty (ival n); str_debug s := s |}.

Definition w64 (z : Z) : u64 := wrap_int U64 z.

Definition log_descriptor : SegmentDescriptor.t :=
  SegmentDescriptor.mk (wrap_int U128 7) "orders" (w64 1) (RangeLineage.root (wrap_int U128 3)) (w64 100).
Definition log_config : SegmentConfig.t :=
  SegmentConfig.mk (wrap_int U32 64) (w64 512) (w64 4096) (w64 16) (wrap_int U32 2).
Definition log_header : SegmentHeader.t := SegmentHeader.new log_descriptor log_config.

#[export] Instance log_json : HeaderJson := {|
  to_vec_v1 h := if decide (h = log_header) then Ok [wrap_int U8 123; wrap_int U8 125] else Err "not this header";
  from_slice_v1 text := if decide (text = [wrap_int U8 123; wrap_int U8 125]) then Ok log_header else Err "not this text";
  to_vec_v2 _ := Err "no such header";
  from_slice_v2 _ := Err "no such text"
|}.
#[export] Instance log_json_laws : HeaderJsonLaws.
Proof.
  split; [|done]. intros h text. cbn [to_vec_v1 from_slice_v1 log_json]. case_decide as Hh; [|done].
  intros [= <-]. subst h. by rewrite decide_True.
Qed.

(** The segment and the disk with its directory. *)
Definition log_dir : PathBuf := Path true [as_bytes "log"].
Definition log_stem : list u8 := as_bytes "orders-100".
Definition log_path : PathBuf := sidecar log_dir log_stem ".active".
Definition log_bytes : list u8 := match encode_header log_header with Ok bytes => bytes | Err _ => [] end.
Definition log_site : site :=
  Site log_dir log_stem (AnyHeader.V1 log_header) log_bytes ProducerSnapshot.default
    (ContentAccumulator.V1 []).

Lemma log_site_ok : site_ok log_site.
Proof.
  split.
  - vm_compute. reflexivity.
  - discriminate.
  - vm_compute. reflexivity.
  - split_and!; vm_compute; reflexivity.
  - reflexivity.
Qed.

Definition log_disk0 : SimState.t := SimStorage.create_dir_all log_dir SimState.new.

(** The segment just created. *)
Definition log_created : option (SimState.t * log_result ActiveSegment.t) :=
  create_in (wrap_int U128 1) log_path log_descriptor log_config (boot FaultPlan.NoFault log_disk0).

Lemma log_created_healthy :
  ∃ s self, log_created = Some (s, Ok self) ∧ healthy log_site [] [] (∅, ∅) 0 (self, s) ∧ no_fault s.
Proof.
  set (v := View ∅ [] (SimState.dirs log_disk0)).
  assert (up (Disk v []) 0 (boot FaultPlan.NoFault log_disk0)) as Hup.
  { apply (boot_up _ v log_disk0). split; try done.
  }
  assert (vacant log_site v) as Hv.
  { split; [..|done]; apply (bool_decide_eq_true_1 _); vm_compute; reflexivity. }
  destruct (vs_returns _ _ _ _ _ (create_spec log_site log_site_ok (wrap_int U128 1) v 0 _ Hv eq_refl Hup))
    as (s & self & Hc & Hh & Hp); [done|by intros [[x Hx]|[x Hx]]|].
  exists s, self. split_and!; [|done|done]. rewrite <-Hc. clear. unfold log_created, create_in.
  assert (SegmentDescriptor.validate log_descriptor = Some (Ok tt)) as -> by (vm_compute; reflexivity).
  assert (SegmentConfig.validate log_config = Ok log_config) as Hcfg by (vm_compute; reflexivity).
  assert (encode_header log_header = Ok log_bytes) as Henc by (vm_compute; reflexivity).
  unfold mbind, sim_bind, sim_panic, sim_lift. cbn [option_bind mbind]. rewrite Hcfg. fold log_header. rewrite Henc.
  reflexivity.
Qed.

(** The disk after the power went off at once. *)
Definition log_disk1 : SimState.t :=
  match log_created with
  | Some (s, Ok _) => default log_disk0 (power_off 0 s)
  | _ => log_disk0
  end.

Lemma log_disk1_recoverable : ∃ v, still v log_disk1 ∧ recoverable log_site [] [] v.
Proof.
  unfold log_disk1. destruct log_created_healthy as (s & self & -> & Hh & _).
  destruct (power_off_view _ 0 s (healthy_failed _ _ _ _ _ _ Hh)) as (s' & v & -> & Hs & Hv). by exists v.
Qed.

Definition order (sequence : Z) (value : string) : LogRecord.t :=
  LogRecord.mk (wrap_int U128 9) zero (w64 sequence) (wrap_int I64 1700000000000) zero (as_bytes "k") (as_bytes value).
Definition nonce (n : Z) : Uuid := wrap_int U128 n.

(** Two records are committed and a third is only buffered when the power goes; the next
    life retries the second and appends the third again, cuts the log after its first
    record, and its commit of another fails when the directory is synced. *)
Definition log_lives : list seg_life :=
  [SegLife FaultPlan.NoFault
     [OpAppend (nonce 2) [order 0 "a"; order 1 "b"] Fsync; OpAppend (nonce 3) [order 2 "c"] Buffered;
      OpFetch (w64 100) 1000 10] 0;
   SegLife (FaultPlan.FailOp 89 Other)
     [OpAppend (nonce 4) [order 1 "b"; order 2 "c"] Fsync; OpTruncate (nonce 5) (w64 101);
      OpAppend (nonce 6) [order 1 "d"] Buffered; OpCommit (nonce 7)] 3].

Lemma log_survives_crashes_witness :
  ∃ s' rss log' bs', run_seg_lives log_path log_lives log_disk1 = Some (s', rss) ∧
    log_history log_site [] (sl_ops <$> log_lives) rss log' ∧
    encode_log (AnyHeader.V1 log_header) 0 log' = Ok bs' ∧
    ∃ s'' self, recover_in log_path (boot FaultPlan.NoFault s') = Some (s'', Ok self) ∧
      ActiveSegment.next_offset self = offset_at (w64 100) (length log') ∧
      ∀ start max_bytes max_records, ∃ st,
        fetch start max_bytes max_records (self, s'')
        = Some (st, Ok (fetch_spec (AnyHeader.V1 log_header) log' bs' (length log') start max_bytes max_records)).
Proof.
  destruct log_disk1_recoverable as (v & Hs & Hv).
  exact (log_survives_crashes log_site log_site_ok log_lives [] [] v log_disk1 Hs Hv).
Defined.

(** What a recovery reads back after the lives. *)
Definition read_back (s : SimState.t) : option (list (u64 * list u8)) :=
  match recover_in log_path (boot FaultPlan.NoFault s) with
  | Some (s, Ok self) =>
      match fetch zero 1000 10 (self, s) with
      | Some (_, Ok b) => Some ((λ r, (r.1, LogRecord.value r.2)) <$> FetchBatch.records b)
      | _ => None
      end
  | _ => None
  end.

Definition succeeded (r : SegReply) : bool := match r with Failed _ => false | _ => true end.

(** The commit in doubt took place: the failed sync lost nothing when the power went. *)
Example log_lives_recover :
  match run_seg_lives log_path log_lives log_disk1 with
  | Some (s, rss) => Some (map (option_map (map succeeded)) rss, read_back s)
  | None => None
  end
  = Some ([Some [true; true; true]; Some [true; true; true; false]],
          Some [(w64 100, as_bytes "a"); (w64 101, as_bytes "d")]).
Proof. vm_compute. reflexivity. Qed.

(** A truncation whose directory sync fails, the segment recovered without a restart of the
    disk, then a crash: which operations succeeded, whether the recovery did, and what the
    recovery after the crash reports. *)
Definition recover_after_failed_truncation : option (list bool * bool * option SegmentError) :=
  match recover_in log_path (boot (FaultPlan.FailOp 40 Other) log_disk1) with
  | Some (s, Ok self) =>
      match run_ops [OpAppend (nonce 2) [order 0 "a"; order 1 "b"] Fsync; OpTruncate (nonce 3) (w64 101)] (self, s) with
      | Some ((_, s), replies) =>
          match recover_in log_path s with
          | Some (s, reopened) =>
              s ← power_off 0 s;
              match recover_in log_path (boot FaultPlan.NoFault s) with
              | Some (_, Err e) => Some (succeeded <$> replies, is_ok reopened, Some e)
              | Some (_, Ok _) => Some (succeeded <$> replies, is_ok reopened, None)
              | None => None
              end
          | None => None
          end
      | None => None
      end
  | _ => None
  end.

(** The recovery shrinks the file durably while the smaller commit boundary is still only
    in the page cache, and the crash brings the larger one back: the segment is refused
    from then on. *)
Theorem failed_truncation_strands_segment :
  recover_after_failed_truncation
  = Some ([true; false], true,
      Some (CommitBoundaryMismatch "committed byte end 234 exceeds file length 140")).
Proof. vm_compute. reflexivity. Qed.

(** * Appending *)

Lemma append_exact_witness :
  ∃ s self st' r,
    log_created = Some (s, Ok self) ∧
    append_group (nonce 2) [order 0 "a"; order 1 "b"; order 0 "a"] Fsync (self, s) = Some (st', r) ∧
    match r with
    | Ok outcomes => ∃ new ys T',
        takes log_site [] [order 0 "a"; order 1 "b"; order 0 "a"] outcomes new ∧
        offer (∅, ∅) (w64 100) 0 [order 0 "a"; order 1 "b"; order 0 "a"] = Ok (outcomes, new, T') ∧
        healthy log_site ([] ++ new) ([] ++ ys) T' (committed_after Fsync 0 (length ([] ++ new))) st'
    | Err _ => st' = (self, s) ∧
        ¬ ∃ outcomes new, takes log_site [] [order 0 "a"; order 1 "b"; order 0 "a"] outcomes new
    end.
Proof.
  destruct log_created_healthy as (s & self & Hc & Hh & Hp).
  assert (¬ taken log_site (nonce 2) s) as Ht.
  { assert (match log_created with
            | Some (s, Ok _) => bool_decide (is_Some (SimState.ns_visible s !!
                temporary (s_dir log_site) (s_stem log_site) ".commit" (nonce 2)))
            | _ => true end = false) as Hfree by (vm_compute; reflexivity).
    rewrite Hc in Hfree. apply bool_decide_eq_false in Hfree. exact Hfree. }
  destruct (append_exact log_site log_site_ok (nonce 2) [order 0 "a"; order 1 "b"; order 0 "a"] Fsync
    [] [] (∅, ∅) 0 (self, s) Hh Hp Ht) as (st' & r & Happend & Hr).
  exists s, self, st', r. split; [exact Hc|]. split; [exact Happend|exact Hr].
Defined.

(** The retry in the same group is answered with the offset of the original. *)
Example append_group_answers :
  match log_created with
  | Some (s, Ok self) =>
      match append_group (nonce 2) [order 0 "a"; order 1 "b"; order 0 "a"] Fsync (self, s) with
      | Some (_, Ok outcomes) => Some outcomes
      | _ => None
      end
  | _ => None
  end = Some [Appended (w64 100); Appended (w64 101); LogTypes.Duplicate (w64 100)].
Proof. vm_compute. reflexivity. Qed.

(** * Producers *)

Definition two_orders : list LogRecord.t := [order 0 "a"; order 1 "b"].
Definition after_two : tracker := default (∅, ∅) (replay (∅, ∅) (w64 100) 0 two_orders).

Lemma after_two_replayed : replay (∅, ∅) (w64 100) 0 two_orders = Some after_two.
Proof.
  unfold after_two. destruct (replay (∅, ∅) (w64 100) 0 two_orders) eqn:Hr; [done|].
  assert (bool_decide (is_Some (replay (∅, ∅) (w64 100) 0 two_orders)) = true) as Hs by (vm_compute; reflexivity).
  rewrite Hr in Hs. apply bool_decide_eq_true in Hs as [x Hx]. done.
Qed.

Lemma retry_decided_witness :
  validate_sequence after_two.1 after_two.2 (order 0 "a") (record_content_hash (order 0 "a")) ≠ Ok Append ∧
  (Z.of_nat (length (filter (λ r, key_of r = key_of (order 0 "a")) (drop 1 two_orders))) < PRODUCER_SEQUENCE_WINDOW →
   validate_sequence after_two.1 after_two.2 (order 0 "a") (record_content_hash (order 0 "a"))
   = if decide (record_content_hash (order 0 "a") = record_content_hash (order 0 "a"))
     then Ok (Duplicate (offset_at (w64 100) 0))
     else Err (SequenceConflict (LogRecord.producer_id (order 0 "a")) (LogRecord.sequence (order 0 "a"))))%Z.
Proof.
  apply (retry_decided (∅, ∅) after_two (w64 100) two_orders 0 (order 0 "a") (order 0 "a")
    (record_content_hash (order 0 "a"))).
  - exact after_two_replayed.
  - reflexivity.
  - reflexivity.
  - reflexivity.
Defined.

Lemma frontier_inherited_witness :
  tracker_ok after_two ∧
  ∃ bytes, encode_producer_snapshot (snapshot_of after_two.1 after_two.2) = Ok bytes ∧
    decode_producer_snapshot bytes = Ok (snapshot_of after_two.1 after_two.2) ∧
    inherited_states (snapshot_of after_two.1 after_two.2) = after_two.1 ∧
    ProducerSnapshot.epochs (snapshot_of after_two.1 after_two.2) = after_two.2.
Proof.
  apply (frontier_inherited (∅, ∅) after_two (w64 100) two_orders).
  - exact tracker_ok_empty.
  - exact after_two_replayed.
  - assert (bool_decide (map_Forall (λ _ st, (ival (ProducerState.latest_sequence st) < u64_MAX)%Z) after_two.1)
      = true) as Hall by (vm_compute; reflexivity).
    apply bool_decide_eq_true in Hall. exact Hall.
  - vm_compute. reflexivity.
  - vm_compute. reflexivity.
Defined.

(** * Chunk proofs *)

Definition letters : list u8 := as_bytes "abcdefg".
Definition pairs : ChunkParams.t := ChunkParams.mk (wrap_int U32 2) (w64 4).
Definition proof_of_second : ChunkProof.t :=
  default (ChunkProof.mk zero []) (prove_chunk (leaf_hash <$> chunks_of pairs letters) (w64 1)).

Lemma pairs_geometry : geometry pairs letters.
Proof. split; [discriminate|]. vm_compute. reflexivity. Qed.

Lemma chunk_proofs_verify_witness :
  ∃ proof, prove_chunk (leaf_hash <$> chunks_of pairs letters) (w64 3) = Some proof ∧
    verify_chunk (tree_root (leaf_hash <$> chunks_of pairs letters)) pairs (w64 3) (as_bytes "g") proof = true.
Proof.
  apply (chunk_proofs_verify pairs letters (w64 3) (as_bytes "g")).
  - exact pairs_geometry.
  - vm_compute. reflexivity.
Defined.

Lemma verified_chunk_present_witness :
  ∃ j, chunks_of pairs letters !! j = Some (as_bytes "cd") ∧
    ChunkProof.path proof_of_second = collect_path (leaf_hash <$> chunks_of pairs letters) j ∧
    ((ChunkProof.path proof_of_second).*2
       = (collect_path (leaf_hash <$> chunks_of pairs letters) (Z.to_nat (ival (w64 1)))).*2 →
     j = Z.to_nat (ival (w64 1))).
Proof.
  apply (verified_chunk_present pairs letters (w64 1) (as_bytes "cd") proof_of_second).
  - exact pairs_geometry.
  - set (inputs := _ ++ _).
    assert (bool_decide (Forall (λ x, Forall (λ y, hashed x = hashed y → x = y) inputs) inputs) = true) as Hall
      by (vm_compute; reflexivity).
    apply bool_decide_eq_true in Hall. rewrite Forall_forall in Hall. intros x y Hx Hy.
    specialize (Hall x Hx). rewrite Forall_forall in Hall. exact (Hall y Hy).
  - vm_compute. reflexivity.
Defined.

Lemma relabelled_proof_accepted_witness :
  ∃ proof, prove_chunk (leaf_hash <$> [as_bytes "ab"; as_bytes "cd"; as_bytes "ef"; as_bytes "gh"]) (wrap_int U64 1)
      = Some proof ∧
    verify_chunk (tree_root (leaf_hash <$> [as_bytes "ab"; as_bytes "cd"; as_bytes "ef"; as_bytes "gh"]))
      (ChunkParams.mk (wrap_int U32 2) (wrap_int U64 4)) (wrap_int U64 0) (as_bytes "cd")
      (ChunkProof.mk (wrap_int U64 0) (ChunkProof.path proof)) = true.
Proof.
  apply (relabelled_proof_accepted (wrap_int U32 2) (as_bytes "ab") (as_bytes "cd") (as_bytes "ef") (as_bytes "gh")).
  - discriminate.
  - reflexivity.
  - reflexivity.
  - reflexivity.
  - reflexivity.
Defined.
