(* ===== verification/SealScenario.v ===== *)
(** Concrete runs of sealing: the segment of the log scenario sealed with two records,
    interrupted and not, and read back through crashes, with the theorems about sealed
    segments applied to it. *)

From stdpp Require Import prelude strings list gmap pretty.
From Stdlib Require Import ZArith Lia.
From S2P Require Import Prelude Wire KeyRange Lineage Placement Flow Storage DiskLogic ChunkTree LogTypes RecordCodec.
From S2P Require Import DiskView ProducerState ProducerSnapshot SegmentFiles SegmentScan Manifest ActiveSegment Sealing.
From S2P Require Import LogDisk SegmentLog AppendPlan LogOps SealDisk LogSafety SealSafety LogScenario.
#[local] Open Scope nat_scope.

(** Stand-ins for the texts of hashes and manifests: the manifest of one segment is
    serialized, and its text is [{}]. *)
#[export] Instance log_text : Blake3Text := {|
  to_hex h := string_of_bytes (to_be_bytes h);
  from_hex s := Some (from_be_bytes U256 (as_bytes s));
  keyed_hash key bytes := log_hash (to_be_bytes key ++ bytes)
|}.
#[export] Instance log_text_laws : Blake3TextLaws.
Proof. split. intros h. cbn [from_hex to_hex log_text]. by rewrite as_string_of_bytes, from_to_be_bytes. Qed.

#[export] Instance log_value : JsonValue := unit.

(** ** The segment with its records *)

Definition append_two (created : option (SimState.t * log_result ActiveSegment.t))
    : option (SegState * log_result (list AppendOutcome)) :=
  match created with
  | Some (s, Ok self) => append_group (nonce 2) two_orders Fsync (self, s)
  | _ => None
  end.
Definition log_appended := append_two log_created.

Lemma log_appended_healthy :
  ∃ st outs bs, log_appended = Some (st, Ok outs) ∧ healthy log_site two_orders bs after_two 2 st ∧ no_fault st.2.
Proof.
  assert (match log_appended with Some (_, Ok _) => true | _ => false end = true) as Hok by (vm_compute; reflexivity).
  unfold log_appended, append_two in *. destruct log_created_healthy as (s & self & Hc & Hh & Hp). rewrite Hc in *.
  pose proof (append_group_spec log_site log_site_ok (nonce 2) two_orders Fsync [] [] (∅, ∅) 0 self s Hh) as Hspec.
  unfold seg_wp in Hspec. destruct (append_group (nonce 2) two_orders Fsync (self, s)) as [[st [outs|err]]|]; [|discriminate Hok..].
  destruct Hspec as [Hnf (new & ys & T' & Had & Hh')]. exists st, outs, ys. split_and!; [done| |by apply Hnf].
  pose proof (ad_offer _ _ _ _ _ _ _ _ _ Had) as Hoffer. apply offer_replay in Hoffer as Hreplay.
  assert (new = two_orders) as ->.
  { assert (match offer (∅, ∅) (w64 100) 0 two_orders with Ok (_, new, _) => new | _ => [] end = two_orders) as Hnew
      by (vm_compute; reflexivity).
    change (offer (∅, ∅) (w64 100) 0 two_orders = Ok (outs, new, T')) in Hoffer. by rewrite Hoffer in Hnew. }
  change (replay (∅, ∅) (w64 100) 0 two_orders = Some T') in Hreplay. rewrite after_two_replayed in Hreplay.
  injection Hreplay as <-. exact Hh'.
Qed.

(** ** Its manifest *)

Definition log_manifest : SegmentManifest.t :=
  let content := match encode_log (AnyHeader.V1 log_header) 0 two_orders with Ok bs => concat bs | Err _ => [] end in
  SegmentManifest.mk FORMAT_NAME FORMAT_VERSION log_descriptor (w64 2) (Some (w64 100)) (w64 102)
    (nat_u64 (length content)) (to_hex (blake3_hash content)) (wrap_int U32 2).
Definition log_braces : list u8 := [wrap_int U8 123; wrap_int U8 125].

#[export] Instance log_manifest_json : ManifestJson := {|
  manifest_to_vec m := if decide (m = log_manifest) then Ok log_braces else Err "not this manifest";
  manifest_from_slice text := if decide (text = log_braces ++ [newline]) then Ok log_manifest else Err "not this text";
  manifest_v2_to_vec _ := Err "no such manifest";
  manifest_v2_from_slice _ := Err "no such text";
  statement_to_vec _ := Err "no such statement"
|}.
#[export] Instance log_manifest_laws : ManifestJsonLaws.
Proof.
  split; [|done]. intros m text. cbn [manifest_to_vec manifest_from_slice log_manifest_json]. case_decide as Hm; [|done].
  intros [= <-]. subst m. by rewrite decide_True.
Qed.

(** ** Sealing it *)

Definition log_nonces : SealNonces :=
  mkSealNonces (nonce 10) (nonce 11) (nonce 12) (nonce 13) (nonce 14) (nonce 15).
Definition seal_after {A} (appended : option (SegState * A)) : option (SegState * log_result SegmentReader.t) :=
  match appended with
  | Some (st, _) => seal log_nonces st
  | None => None
  end.
Definition log_seal := seal_after log_appended.

(** The disk of the sealed segment after a power failure. *)
Definition disk_after {A} (ended : option (SegState * A)) : SimState.t :=
  match ended with
  | Some ((_, s), _) => default log_disk0 (power_off 0 s)
  | None => log_disk0
  end.
Definition log_sealed_disk : SimState.t := disk_after log_seal.

Lemma log_sealed : match log_seal with Some (_, Ok _) => true | _ => false end = true.
Proof. vm_compute. reflexivity. Qed.

Lemma log_sealed_openable : ∃ bs v, still v log_sealed_disk ∧ openable log_site two_orders bs v.
Proof.
  pose proof log_sealed as Hok. unfold log_sealed_disk, disk_after, log_seal, seal_after in *.
  destruct log_appended_healthy as (st & outs & bs & Ha & Hh & _). rewrite Ha in *. destruct st as [self s].
  pose proof (seal_spec log_site log_site_ok log_nonces two_orders bs after_two 2 self s Hh) as Hspec.
  unfold seg_wp in Hspec. destruct (seal log_nonces (self, s)) as [[[self' s'] [reader|err]]|]; [|discriminate Hok..].
  destruct Hspec as (_ & i & k & m & mb & pos & e & w & _ & Hup & Hop). cbn [snd] in Hup.
  destruct (up_crash _ _ 0 _ Hup) as (s1 & Hm & _ & Hs).
  exists bs, w. unfold power_off. rewrite (up_up _ _ _ Hup), Hm. split; [|by exists i, k, m, mb].
  exact Hs.
Qed.

Lemma seal_survives_crashes_witness :
  ∃ st outs bs, log_appended = Some (st, Ok outs) ∧
    ∃ st' r s', seal log_nonces st = Some (st', r) ∧ power_off 3 st'.2 = Some s' ∧
      match r with
      | Ok _ => opens_to log_site two_orders bs s'
      | Err _ => opens_to log_site two_orders bs s' ∨ recovers_to log_site two_orders bs s'
          ∨ recovers_to log_site (take 2 two_orders) (take 2 bs) s'
      end ∧
      (SimState.plan st.2 = FaultPlan.NoFault → ¬ seal_blocked log_site log_nonces None two_orders bs after_two st.2 →
       is_ok r = true).
Proof.
  destruct log_appended_healthy as (st & outs & bs & Ha & Hh & _). exists st, outs, bs. split; [exact Ha|].
  exact (seal_survives_crashes log_site log_site_ok log_nonces two_orders bs after_two 2 st 3 Hh).
Defined.

Lemma sealed_reads_exact_witness :
  ∃ bs s' reader, open_in (nonce 20) (nonce 21) (SegmentPaths.segment (s_paths log_site))
      (boot FaultPlan.NoFault log_sealed_disk) = Some (s', Ok reader) ∧
    ∀ start max_bytes max_records high_watermark, ∃ s'' f,
      let batch := sealed_fetch log_site two_orders bs start max_bytes max_records high_watermark in
      reader_fetch_through reader start max_bytes max_records high_watermark s' = Some (s'', Ok (batch, f)) ∧
      Forall (λ r, ival r.1 < ival high_watermark)%Z (FetchBatch.records batch).
Proof.
  destruct log_sealed_openable as (bs & v & Hs & Hop). exists bs.
  assert (v_ns v = SimState.ns_visible log_sealed_disk) as Hns by (by rewrite <-(st_visible _ _ Hs)).
  apply (sealed_reads_exact log_site log_site_ok two_orders bs v log_sealed_disk (nonce 20) (nonce 21) Hs Hop).
  - rewrite Hns. vm_compute. reflexivity.
  - rewrite Hns. vm_compute. reflexivity.
Defined.

(** What a reader of the sealed segment returns below a watermark. *)
Definition read_sealed (disk : SimState.t) (high_watermark : u64) : option (list (u64 * list u8)) :=
  match open_in (nonce 20) (nonce 21) (SegmentPaths.segment (s_paths log_site)) (boot FaultPlan.NoFault disk) with
  | Some (s, Ok reader) =>
      match reader_fetch_through reader (w64 100) 1000 10 high_watermark s with
      | Some (_, Ok (b, _)) => Some ((λ r, (r.1, LogRecord.value r.2)) <$> FetchBatch.records b)
      | _ => None
      end
  | _ => None
  end.

Example sealed_segment_read :
  read_sealed log_sealed_disk (w64 200) = Some [(w64 100, as_bytes "a"); (w64 101, as_bytes "b")] ∧
  read_sealed log_sealed_disk (w64 101) = Some [(w64 100, as_bytes "a")].
Proof. split; vm_compute; reflexivity. Qed.
