(* ===== verification/KafkaGroups.v ===== *)
(** The coordinator of Kafka consumer groups (crates/vtop-kafka/src/groups.rs): members
    join a round, the round completes with a generation, a leader and a protocol, the
    leader hands out the assignment, and heartbeats keep members alive.

    Each operation is what the code does under its lock; a request that waits is answered
    through a one-shot channel.  A channel is a number, [sent] the answers sent so far: a
    channel that nobody holds and on which nothing was sent was dropped, and its receiver
    hears so.

    An [Instant] is a number of nanoseconds and does not overflow; the clock readings and
    the random part of a member id are arguments.  The order in which a [HashMap] is
    traversed is not specified: [HashOrder] stands for any. *)

From stdpp Require Import prelude strings list gmap pretty.
From Stdlib Require Import ZArith Lia.
From S2P Require Import Prelude Wire Flow.
#[local] Open Scope nat_scope.

(** ** The standard library *)

Definition Instant : Type := N.
Definition Duration : Type := N.
Definition from_millis (n : N) : Duration := (n * 1000000)%N.
Definition from_secs (n : N) : Duration := (n * 1000000000)%N.

(** [Instant::duration_since], zero when the other instant is later. *)
Definition duration_since (now earlier : Instant) : Duration := (now - earlier)%N.

Class HashOrder := hash_iter : ∀ {A : Type}, gmap string A → list (string * A).
Class HashOrderLaws `{!HashOrder} : Prop := {
  hash_iter_perm {A} (m : gmap string A) : hash_iter m ≡ₚ map_to_list m
}.

(** [Iterator::min_by_key], the first minimum, and [Iterator::max_by_key], the last
    maximum. *)
Fixpoint min_by_key {A} (key : A → Z) (l : list A) : option A :=
  match l with
  | [] => None
  | x :: l =>
      match min_by_key key l with
      | Some y => if decide (key y < key x)%Z then Some y else Some x
      | None => Some x
      end
  end.
Fixpoint max_by_key {A} (key : A → Z) (l : list A) : option A :=
  match l with
  | [] => None
  | x :: l =>
      match max_by_key key l with
      | Some y => if decide (key x <= key y)%Z then Some y else Some x
      | None => Some x
      end
  end.

(** [s.chars().take(n).collect()] on valid UTF-8: a byte of the form 10xxxxxx continues a
    character. *)
Fixpoint take_chars (n : nat) (bytes : list u8) : list u8 :=
  match bytes with
  | [] => []
  | b :: bytes =>
      if is_continuation b then b :: take_chars n bytes
      else match n with
           | O => []
           | S n => b :: take_chars n bytes
           end
  end.

(** ** Error codes *)

(** [ErrorCode] (messages.rs) *)
Module ErrorCode.
Inductive t :=
  | NONE
  | OffsetOutOfRange
  | CorruptMessage
  | UnknownTopicOrPartition
  | NotLeaderOrFollower
  | RequestTimedOut
  | BrokerNotAvailable
  | MessageTooLarge
  | UnsupportedVersion
  | InvalidRecord
  | KafkaStorageError
  | UnsupportedCompressionType
  | UnsupportedForMessageFormat
  | OutOfOrderSequenceNumber
  | DuplicateSequenceNumber
  | InvalidProducerEpoch
  | OffsetMetadataTooLarge
  | CoordinatorNotAvailable
  | NotCoordinator
  | IllegalGeneration
  | InconsistentGroupProtocol
  | InvalidGroupId
  | UnknownMemberId
  | InvalidSessionTimeout
  | RebalanceInProgress
  | MemberIdRequired
  | GroupMaxSizeReached
  | InvalidRequest.
#[global] Instance t_eq_dec : EqDecision t.
Proof. solve_decision. Defined.
End ErrorCode.

(** ** Requests and answers *)

Inductive SyncStanding := Leader | Other.

Module GroupConfig.
Record t := mk {
  max_groups : nat;
  max_members : nat;
  min_session_timeout : Duration;
  max_session_timeout : Duration;
  max_rebalance_timeout : Duration;
  initial_rebalance_delay : Duration
}.
Definition default : t := mk 256 64 (from_secs 6) (from_secs 300) (from_secs 300) (from_millis 500).
End GroupConfig.

Module JoinOutcome.
Record t := mk {
  generation : i32;
  protocol_name : string;
  leader : string;
  member_id : string;
  members : list (string * list u8)
}.
End JoinOutcome.

Inductive Joined :=
  | Complete (outcome : JoinOutcome.t)
  | MemberIdRequired (id : string).

Module JoinRequest.
Record t := mk {
  group_id : string;
  member_id : string;
  client_id : string;
  protocol_type : string;
  protocols : list (string * list u8);
  session_timeout : Duration;
  rebalance_timeout : Duration;
  require_member_id : bool
}.
End JoinRequest.

(** ** The state of a group *)

Inductive State := Empty | PreparingRebalance | CompletingRebalance | Stable.
#[global] Instance State_eq_dec : EqDecision State.
Proof. solve_decision. Defined.

Definition channel : Type := nat.

Module Member.
Record t := mk {
  session_timeout : Duration;
  rebalance_timeout : Duration;
  last_seen : Instant;
  joined_at : u64;
  protocols : list (string * list u8);
  assignment : option (list u8);
  in_round : bool;
  join_waiter : option channel;
  sync_waiter : option channel
}.
Definition set_last_seen (x : Instant) (m : t) : t :=
  mk (session_timeout m) (rebalance_timeout m) x (joined_at m) (protocols m) (assignment m) (in_round m)
    (join_waiter m) (sync_waiter m).
Definition set_assignment (x : option (list u8)) (m : t) : t :=
  mk (session_timeout m) (rebalance_timeout m) (last_seen m) (joined_at m) (protocols m) x (in_round m)
    (join_waiter m) (sync_waiter m).
Definition set_in_round (x : bool) (m : t) : t :=
  mk (session_timeout m) (rebalance_timeout m) (last_seen m) (joined_at m) (protocols m) (assignment m) x
    (join_waiter m) (sync_waiter m).
Definition set_join_waiter (x : option channel) (m : t) : t :=
  mk (session_timeout m) (rebalance_timeout m) (last_seen m) (joined_at m) (protocols m) (assignment m)
    (in_round m) x (sync_waiter m).
Definition set_sync_waiter (x : option channel) (m : t) : t :=
  mk (session_timeout m) (rebalance_timeout m) (last_seen m) (joined_at m) (protocols m) (assignment m)
    (in_round m) (join_waiter m) x.

(** The metadata sent for a protocol. *)
Definition metadata (protocol : string) (m : t) : list u8 :=
  default [] (snd <$> List.find (λ p, bool_decide (p.1 = protocol)) (protocols m)).
(** Whether the member has the protocol. *)
Definition supports (m : t) (name : string) : bool :=
  existsb (λ p, bool_decide (p.1 = name)) (protocols m).
End Member.

Module Round.
Record t := mk { not_before : Instant; deadline : Instant }.
End Round.

Module Group.
Record t := mk {
  generation : i32;
  state : State;
  protocol_type : option string;
  protocol_name : option string;
  leader : option string;
  members : gmap string Member.t;
  minted : gmap string Instant;
  round : option Round.t;
  sync_deadline : option Instant;
  next_join_seq : u64
}.
Definition new : t := mk zero Empty None None None ∅ ∅ None None zero.
Definition set_state (x : State) (g : t) : t :=
  mk (generation g) x (protocol_type g) (protocol_name g) (leader g) (members g) (minted g) (round g)
    (sync_deadline g) (next_join_seq g).
Definition set_members (x : gmap string Member.t) (g : t) : t :=
  mk (generation g) (state g) (protocol_type g) (protocol_name g) (leader g) x (minted g) (round g)
    (sync_deadline g) (next_join_seq g).
Definition set_minted (x : gmap string Instant) (g : t) : t :=
  mk (generation g) (state g) (protocol_type g) (protocol_name g) (leader g) (members g) x (round g)
    (sync_deadline g) (next_join_seq g).
Definition set_round (x : option Round.t) (g : t) : t :=
  mk (generation g) (state g) (protocol_type g) (protocol_name g) (leader g) (members g) (minted g) x
    (sync_deadline g) (next_join_seq g).
Definition set_sync_deadline (x : option Instant) (g : t) : t :=
  mk (generation g) (state g) (protocol_type g) (protocol_name g) (leader g) (members g) (minted g) (round g)
    x (next_join_seq g).

(** A group without members comes to rest. *)
Definition rest (g : t) : t :=
  mk (generation g) Empty None None None (members g) (minted g) None (sync_deadline g) (next_join_seq g).
End Group.

(** An answer sent on a channel. *)
Inductive Send :=
  | SendJoin (tx : channel) (answer : result ErrorCode.t JoinOutcome.t)
  | SendSync (tx : channel) (answer : result ErrorCode.t (list u8)).

Module Coordinator.
Record t := mk {
  config : GroupConfig.t;
  groups : gmap string Group.t;
  closed : bool;
  next_channel : channel;
  sent : list Send
}.
Definition new (config : GroupConfig.t) : t := mk config ∅ false 0 [].
Definition set_groups (x : gmap string Group.t) (c : t) : t :=
  mk (config c) x (closed c) (next_channel c) (sent c).
End Coordinator.

Definition MINTED_ID_TTL : Duration := from_secs 30.
Definition MEMBER_ID_PREFIX_CHARS : nat := 64.

Section coordinator.
Context {order : HashOrder} {fmt : Fmt}.

(** ** Rounds *)

(** The answers to every sync parked on the group. *)
Definition release_syncs (members : gmap string Member.t) : list Send :=
  omap (λ '(_, m), (λ tx, SendSync tx (Err ErrorCode.RebalanceInProgress)) <$> Member.sync_waiter m)
    (hash_iter members).

(** The longest rebalance timeout of the members. *)
Definition longest_rebalance (members : gmap string Member.t) : Duration :=
  match (λ '(_, m), Member.rebalance_timeout m) <$> hash_iter members with
  | [] => from_secs 60
  | d :: ds => foldl N.max d ds
  end.

Definition begin_round (group : Group.t) (now : Instant) (was_empty : bool) (initial_delay : Duration)
    : Group.t * list Send :=
  let longest := longest_rebalance (Group.members group) in
  match Group.state group with
  | PreparingRebalance => (group, [])
  | Empty | CompletingRebalance | Stable =>
      let round := Round.mk (if was_empty then now + initial_delay else now)%N (now + longest)%N in
      (Group.mk (Group.generation group) PreparingRebalance (Group.protocol_type group) (Group.protocol_name group)
         (Group.leader group) (Member.set_sync_waiter None <$> Group.members group) (Group.minted group)
         (Some round) None (Group.next_join_seq group),
       release_syncs (Group.members group))
  end.

Definition member_left (group : Group.t) (now : Instant) (initial_delay : Duration) : Group.t * list Send :=
  if decide (Group.members group = ∅) then (Group.rest group, [])
  else if decide (Group.state group ≠ PreparingRebalance) then
    begin_round (Group.set_members (Member.set_in_round false <$> Group.members group) group) now false initial_delay
  else (group, []).

(** The leader of the round: the previous one if it is still there, or the earliest
    joiner. *)
Definition choose_leader (group : Group.t) : option (string * Member.t) :=
  match id ← Group.leader group; m ← Group.members group !! id; Some (id, m) with
  | Some leader => Some leader
  | None => min_by_key (λ '(_, m), ival (Member.joined_at m)) (hash_iter (Group.members group))
  end.

(** The protocols of the leader that every member has. *)
Definition candidates (members : gmap string Member.t) (leader : Member.t) : list string :=
  filter (λ name, forallb (λ '(_, m), Member.supports m name) (hash_iter members)) (Member.protocols leader).*1.

(** The first candidate in the member's own order. *)
Definition vote (candidates : list string) (m : Member.t) : option string :=
  fst <$> List.find (λ p, bool_decide (p.1 ∈ candidates)) (Member.protocols m).
Definition votes (members : gmap string Member.t) (candidates : list string) (name : string) : nat :=
  length (filter (λ p, vote candidates p.2 = Some name) (hash_iter members)).

Definition choose_protocol (members : gmap string Member.t) (leader : Member.t) : option string :=
  let candidates := candidates members leader in
  max_by_key (λ name, Z.of_nat (votes members candidates name)) (reverse candidates).

(** Every member's id and its metadata for the protocol. *)
Definition round_members (members : gmap string Member.t) (protocol : string) : list (string * list u8) :=
  (λ '(id, m), (id, Member.metadata protocol m)) <$> hash_iter members.

Definition completes (group : Group.t) (round : Round.t) (now : Instant) : bool :=
  let all_in := forallb (λ '(_, m), Member.in_round m) (hash_iter (Group.members group)) in
  bool_decide (Round.deadline round <= now)%N || (all_in && bool_decide (Round.not_before round <= now)%N).

Definition next_generation (generation : i32) : i32 :=
  let next := wrapping_add generation one in
  if decide (ival next < 1)%Z then one else next.

(** What a completed round sends to those who joined it. *)
Definition join_answers (members : gmap string Member.t) (generation : i32) (protocol leader : string) : list Send :=
  let all := round_members members protocol in
  omap (λ '(id, m), (λ tx, SendJoin tx (Ok (JoinOutcome.mk generation protocol leader id
      (if decide (id = leader) then all else [])))) <$> Member.join_waiter m)
    (hash_iter members).

(** A member after its round completed. *)
Definition after_round (now : Instant) (m : Member.t) : Member.t :=
  Member.mk (Member.session_timeout m) (Member.rebalance_timeout m) now (Member.joined_at m) (Member.protocols m)
    None false None (Member.sync_waiter m).

(** [None] is a panic. *)
Definition maybe_complete (group : Group.t) (now : Instant) : option (Group.t * list Send) :=
  if decide (Group.state group ≠ PreparingRebalance) then Some (group, [])
  else match Group.round group with
  | None => Some (group, [])
  | Some round =>
    if negb (completes group round now) then Some (group, [])
    else
      let members := filter (λ p, Member.in_round p.2 = true) (Group.members group) in
      let generation := next_generation (Group.generation group) in
      let group := Group.mk generation (Group.state group) (Group.protocol_type group) (Group.protocol_name group)
        (Group.leader group) members (Group.minted group) None (Group.sync_deadline group)
        (Group.next_join_seq group) in
      if decide (members = ∅) then Some (Group.rest group, [])
      else
        '(leader, leading) ← choose_leader group;
        match choose_protocol members leading with
        | None =>
            let failures := omap (λ '(_, m), (λ tx, SendJoin tx (Err ErrorCode.InconsistentGroupProtocol))
              <$> Member.join_waiter m) (hash_iter members) in
            Some (Group.rest (Group.set_members ∅ group), failures)
        | Some protocol =>
            Some (Group.mk generation CompletingRebalance (Group.protocol_type group) (Some protocol) (Some leader)
                (after_round now <$> members) (Group.minted group) None
                (Some (now + longest_rebalance members)%N) (Group.next_join_seq group),
              join_answers members generation protocol leader)
        end
  end.

(** ** Joining *)

(** [minted.retain] *)
Definition unexpired (now : Instant) (minted : gmap string Instant) : gmap string Instant :=
  filter (λ p, (duration_since now p.2 < MINTED_ID_TTL)%N) minted.

(** [format!("{prefix}-{}", Uuid::new_v4())] *)
Definition mint (client_id : string) (uuid : Uuid) : string :=
  string_of_bytes (take_chars MEMBER_ID_PREFIX_CHARS (as_bytes client_id)) +:+ "-" +:+ uuid_display uuid.

(** Who joins. *)
Inductive Admission :=
  | Refused (error : ErrorCode.t)
  | ComeBack (minted : string)
  | Welcome (member_id : string).

Definition admit_member (config : GroupConfig.t) (group : Group.t) (request : JoinRequest.t) (uuid : Uuid)
    (now : Instant) : Group.t * Admission :=
  let id := JoinRequest.member_id request in
  if decide (id = "") then
    if decide (GroupConfig.max_members config <= size (Group.members group) + size (Group.minted group))
    then (group, Refused ErrorCode.GroupMaxSizeReached)
    else
      let minted := mint (JoinRequest.client_id request) uuid in
      if JoinRequest.require_member_id request
      then (Group.set_minted (<[minted := now]> (Group.minted group)) group, ComeBack minted)
      else (group, Welcome minted)
  else if decide (is_Some (Group.members group !! id)) then (group, Welcome id)
  else if decide (is_Some (Group.minted group !! id)) then
    let group := Group.set_minted (delete id (Group.minted group)) group in
    if decide (GroupConfig.max_members config <= size (Group.members group))
    then (group, Refused ErrorCode.GroupMaxSizeReached)
    else (group, Welcome id)
  else (group, Refused ErrorCode.UnknownMemberId).

(** The offered protocols every other member has. *)
Definition common_protocols (group : Group.t) (member_id : string) (offered : list string) : list string :=
  foldl (λ common '(_, m), filter (λ name, Member.supports m name) common) offered
    (filter (λ p, p.1 ≠ member_id) (hash_iter (Group.members group))).

(** Whether one protocol type and one protocol suit the whole group. *)
Definition compatible (group : Group.t) (member_id : string) (request : JoinRequest.t) : bool :=
  match Group.protocol_type group with
  | Some protocol_type => bool_decide (protocol_type = JoinRequest.protocol_type request)
  | None => true
  end &&
  bool_decide (common_protocols group member_id (JoinRequest.protocols request).*1 ≠ []).

(** An unchanged rejoin that is answered with the result in place. *)
Definition replays (group : Group.t) (member_id : string) (request : JoinRequest.t) : bool :=
  match Group.members group !! member_id with
  | Some m => bool_decide (Member.protocols m = JoinRequest.protocols request)
  | None => false
  end &&
  match Group.state group with
  | CompletingRebalance => true
  | Stable => negb (bool_decide (Group.leader group = Some member_id))
  | Empty | PreparingRebalance => false
  end.

Definition replay_outcome (group : Group.t) (member_id : string) : JoinOutcome.t :=
  let protocol := default "" (Group.protocol_name group) in
  JoinOutcome.mk (Group.generation group) protocol (default "" (Group.leader group)) member_id
    (if decide (Group.leader group = Some member_id) then round_members (Group.members group) protocol else []).

(** The member's record after its join. *)
Definition joined_member (config : GroupConfig.t) (group : Group.t) (member_id : string) (request : JoinRequest.t)
    (now : Instant) (tx : channel) : Member.t :=
  let old := Group.members group !! member_id in
  Member.mk (JoinRequest.session_timeout request)
    (N.min (JoinRequest.rebalance_timeout request) (GroupConfig.max_rebalance_timeout config)) now
    (default (Group.next_join_seq group) (Member.joined_at <$> old)) (JoinRequest.protocols request)
    (old ≫= Member.assignment) true (Some tx) None.

(** The window of a new group's first round, extended for a late joiner. *)
Definition extend_window (config : GroupConfig.t) (is_new : bool) (now : Instant) (group : Group.t) : Group.t :=
  match Group.round group with
  | Some round =>
      if decide (is_new = true ∧ (now < Round.not_before round)%N) then
        Group.set_round (Some (Round.mk
          (N.min (now + GroupConfig.initial_rebalance_delay config) (Round.deadline round)) (Round.deadline round))) group
      else group
  | None => group
  end.

(** The member enters the round; the deadline its request waits for. *)
Definition enroll (config : GroupConfig.t) (group : Group.t) (member_id : string) (request : JoinRequest.t)
    (now : Instant) (tx : channel) : option (Group.t * list Send * Instant) :=
  let old := Group.members group !! member_id in
  let was_empty := bool_decide (Group.members group = ∅) in
  let is_new := bool_decide (old = None) in
  let superseded := match old ≫= Member.sync_waiter with
                    | Some parked => [SendSync parked (Err ErrorCode.RebalanceInProgress)]
                    | None => []
                    end in
  let group := Group.mk (Group.generation group) (Group.state group) (Some (JoinRequest.protocol_type request))
    (Group.protocol_name group) (Group.leader group)
    (<[member_id := joined_member config group member_id request now tx]> (Group.members group))
    (Group.minted group) (Group.round group) (Group.sync_deadline group)
    (wrapping_add (Group.next_join_seq group) one) in
  let '(group, released) := begin_round group now was_empty (GroupConfig.initial_rebalance_delay config) in
  let group := extend_window config is_new now group in
  let deadline := match Group.round group with Some round => Round.deadline round | None => now end in
  '(group, answers) ← maybe_complete group now;
  Some (group, superseded ++ released ++ answers, deadline).

(** ** The operations *)

(** What a request hears: an answer at once, or the answer sent on a channel, waited for
    until five seconds after the deadline. *)
Inductive Reply (A : Type) :=
  | Answered (answer : result ErrorCode.t A)
  | Parked (rx : channel) (deadline : Instant).
#[global] Arguments Answered {A} _.
#[global] Arguments Parked {A} _ _.

(** How the wait on a channel ends. *)
Inductive Reception (A : Type) :=
  | Received (answer : result ErrorCode.t A)
  | SenderDropped
  | TimedOut.
#[global] Arguments Received {A} _.
#[global] Arguments SenderDropped {A}.
#[global] Arguments TimedOut {A}.

Definition join_answer (r : Reception JoinOutcome.t) : result ErrorCode.t Joined :=
  match r with
  | Received (Ok outcome) => Ok (Complete outcome)
  | Received (Err error) => Err error
  | SenderDropped | TimedOut => Err ErrorCode.RebalanceInProgress
  end.
Definition sync_answer (r : Reception (list u8)) : result ErrorCode.t (list u8) :=
  match r with
  | Received outcome => outcome
  | SenderDropped | TimedOut => Err ErrorCode.RebalanceInProgress
  end.

(** The group replaced, with what was sent. *)
Definition update_group (c : Coordinator.t) (group_id : string) (group : Group.t) (sends : list Send) : Coordinator.t :=
  Coordinator.mk (Coordinator.config c) (<[group_id := group]> (Coordinator.groups c)) (Coordinator.closed c)
    (Coordinator.next_channel c) (Coordinator.sent c ++ sends).
Definition take_channel (c : Coordinator.t) : Coordinator.t :=
  Coordinator.mk (Coordinator.config c) (Coordinator.groups c) (Coordinator.closed c)
    (S (Coordinator.next_channel c)) (Coordinator.sent c).

(** The checks of a join that need no group. *)
Definition check_join (config : GroupConfig.t) (request : JoinRequest.t) : result ErrorCode.t unit :=
  if decide (JoinRequest.group_id request = "") then Err ErrorCode.InvalidGroupId
  else if decide (JoinRequest.session_timeout request < GroupConfig.min_session_timeout config ∨
                  GroupConfig.max_session_timeout config < JoinRequest.session_timeout request)%N
  then Err ErrorCode.InvalidSessionTimeout
  else if decide (JoinRequest.protocols request = []) then Err ErrorCode.InconsistentGroupProtocol
  else Ok tt.

(** A join once its group is at hand. *)
Definition join_group (c : Coordinator.t) (group : Group.t) (request : JoinRequest.t) (uuid : Uuid) (now : Instant)
    : option (Coordinator.t * Reply Joined) :=
  let group_id := JoinRequest.group_id request in
  let group := Group.set_minted (unexpired now (Group.minted group)) group in
  let '(group, admission) := admit_member (Coordinator.config c) group request uuid now in
  let answer group r := Some (update_group c group_id group [], Answered r) in
  match admission with
  | Refused error => answer group (Err error)
  | ComeBack minted => answer group (Ok (MemberIdRequired minted))
  | Welcome member_id =>
      if negb (compatible group member_id request) then answer group (Err ErrorCode.InconsistentGroupProtocol)
      else if replays group member_id request then
        let seen := Group.set_members (alter (Member.set_last_seen now) member_id (Group.members group)) group in
        answer seen (Ok (Complete (replay_outcome group member_id)))
      else
        let tx := Coordinator.next_channel c in
        '(group, sends, deadline) ← enroll (Coordinator.config c) group member_id request now tx;
        Some (update_group (take_channel c) group_id group sends, Parked tx deadline)
  end.

(** [Coordinator::join] up to the wait, which ends with [join_answer]. *)
Definition join (c : Coordinator.t) (request : JoinRequest.t) (uuid : Uuid) (now : Instant)
    : option (Coordinator.t * Reply Joined) :=
  match check_join (Coordinator.config c) request with
  | Err error => Some (c, Answered (Err error))
  | Ok _ =>
    if Coordinator.closed c then Some (c, Answered (Err ErrorCode.CoordinatorNotAvailable))
    else match Coordinator.groups c !! JoinRequest.group_id request with
    | Some group => join_group c group request uuid now
    | None =>
        if decide (GroupConfig.max_groups (Coordinator.config c) <= size (Coordinator.groups c))
        then Some (c, Answered (Err ErrorCode.CoordinatorNotAvailable))
        else join_group c Group.new request uuid now
    end
  end.

Definition protocol_type (c : Coordinator.t) (group_id : string) : option string :=
  Coordinator.groups c !! group_id ≫= Group.protocol_type.

Definition member_ids (c : Coordinator.t) (group_id : string) : list string :=
  match Coordinator.groups c !! group_id with
  | Some group => (hash_iter (Group.members group)).*1
  | None => []
  end.

(** The group in which the member speaks for the generation. *)
Definition member_standing (c : Coordinator.t) (group_id : string) (generation : i32) (member_id : string)
    : result ErrorCode.t (Group.t * Member.t) :=
  if decide (group_id = "") then Err ErrorCode.InvalidGroupId
  else match Coordinator.groups c !! group_id with
  | None => Err ErrorCode.UnknownMemberId
  | Some group =>
    match Group.members group !! member_id with
    | None => Err ErrorCode.UnknownMemberId
    | Some m =>
        if decide (Group.generation group ≠ generation) then Err ErrorCode.IllegalGeneration else Ok (group, m)
    end
  end.

(** A member seen alive. *)
Definition touch (c : Coordinator.t) (group_id : string) (group : Group.t) (member_id : string) (now : Instant)
    : Coordinator.t :=
  update_group c group_id
    (Group.set_members (alter (Member.set_last_seen now) member_id (Group.members group)) group) [].

(** The leader's map applied; each member is seen when its own turn comes. *)
Definition apply_assignments (group : Group.t) (assignments : list (string * list u8)) (clock : string → Instant)
    : Group.t * list Send :=
  let by_member : gmap string (list u8) := list_to_map (reverse assignments) in
  let assigned id := default [] (by_member !! id) in
  let members := map_imap (λ id m, Some (Member.mk (Member.session_timeout m) (Member.rebalance_timeout m)
    (clock id) (Member.joined_at m) (Member.protocols m) (Some (assigned id)) (Member.in_round m)
    (Member.join_waiter m) None)) (Group.members group) in
  (Group.set_sync_deadline None (Group.set_state Stable (Group.set_members members group)),
   omap (λ '(id, m), (λ tx, SendSync tx (Ok (assigned id))) <$> Member.sync_waiter m)
     (hash_iter (Group.members group))).

(** [Coordinator::sync] up to the wait, which ends with [sync_answer]; [now] is read by a
    member that syncs alone, [clock] by the leader's loop. *)
Definition sync (c : Coordinator.t) (group_id : string) (generation : i32) (member_id : string)
    (assignments : list (string * list u8)) (now : Instant) (clock : string → Instant)
    : Coordinator.t * Reply (list u8) :=
  match member_standing c group_id generation member_id with
  | Err error => (c, Answered (Err error))
  | Ok (group, m) =>
    match Group.state group with
    | Empty | PreparingRebalance => (c, Answered (Err ErrorCode.RebalanceInProgress))
    | Stable => (touch c group_id group member_id now, Answered (Ok (default [] (Member.assignment m))))
    | CompletingRebalance =>
        if decide (Group.leader group = Some member_id) then
          let '(group, sends) := apply_assignments group assignments clock in
          (update_group c group_id group sends,
           Answered (Ok (default [] (Group.members group !! member_id ≫= Member.assignment))))
        else
          let tx := Coordinator.next_channel c in
          let m := Member.set_sync_waiter (Some tx) (Member.set_last_seen now m) in
          (update_group (take_channel c) group_id
             (Group.set_members (<[member_id := m]> (Group.members group)) group) [],
           Parked tx (default now (Group.sync_deadline group)))
    end
  end.

Definition check_sync (c : Coordinator.t) (group_id : string) (generation : i32) (member_id : string)
    : result ErrorCode.t SyncStanding :=
  '(group, m) ← member_standing c group_id generation member_id;
  match Group.state group with
  | Empty | PreparingRebalance => Err ErrorCode.RebalanceInProgress
  | Stable => Ok Other
  | CompletingRebalance => Ok (if decide (Group.leader group = Some member_id) then Leader else Other)
  end.

Definition assignment_refused (c : Coordinator.t) (group_id : string) (generation : i32) (member_id : string)
    (now : Instant) : Coordinator.t :=
  match Coordinator.groups c !! group_id with
  | None => c
  | Some group =>
      if decide (Group.generation group ≠ generation ∨ Group.state group ≠ CompletingRebalance ∨
                 Group.leader group ≠ Some member_id) then c
      else
        let group := Group.set_members (Member.set_in_round false <$> Group.members group) group in
        let '(group, sends) :=
          begin_round group now false (GroupConfig.initial_rebalance_delay (Coordinator.config c)) in
        update_group c group_id group sends
  end.

Definition heartbeat (c : Coordinator.t) (group_id : string) (generation : i32) (member_id : string) (now : Instant)
    : Coordinator.t * result ErrorCode.t unit :=
  match member_standing c group_id generation member_id with
  | Err error => (c, Err error)
  | Ok (group, _) =>
      (touch c group_id group member_id now,
       match Group.state group with
       | Stable | CompletingRebalance => Ok tt
       | PreparingRebalance | Empty => Err ErrorCode.RebalanceInProgress
       end)
  end.

Definition leave (c : Coordinator.t) (group_id member_id : string) (now : Instant)
    : Coordinator.t * result ErrorCode.t unit :=
  if decide (group_id = "") then (c, Err ErrorCode.InvalidGroupId)
  else match Coordinator.groups c !! group_id with
  | None => (c, Err ErrorCode.UnknownMemberId)
  | Some group =>
    match Group.members group !! member_id with
    | None => (c, Err ErrorCode.UnknownMemberId)
    | Some gone =>
        let parked := match Member.sync_waiter gone with
                      | Some tx => [SendSync tx (Err ErrorCode.UnknownMemberId)]
                      | None => []
                      end in
        let '(group, sends) := member_left (Group.set_members (delete member_id (Group.members group)) group) now
          (GroupConfig.initial_rebalance_delay (Coordinator.config c)) in
        (update_group c group_id group (parked ++ sends), Ok tt)
    end
  end.

Definition check_commit (c : Coordinator.t) (group_id : string) (generation : i32) (member_id : string)
    (now : Instant) : Coordinator.t * result ErrorCode.t unit :=
  if decide (group_id = "") then (c, Err ErrorCode.InvalidGroupId)
  else
    let simple := bool_decide (ival generation = -1 ∧ member_id = "")%Z in
    match Coordinator.groups c !! group_id with
    | None => (c, if simple then Ok tt else Err ErrorCode.IllegalGeneration)
    | Some group =>
      if simple then
        (c, if decide (Group.state group = Empty) then Ok tt else Err ErrorCode.UnknownMemberId)
      else match Group.members group !! member_id with
      | None => (c, Err ErrorCode.UnknownMemberId)
      | Some _ =>
          if decide (Group.generation group ≠ generation) then (c, Err ErrorCode.IllegalGeneration)
          else
            (touch c group_id group member_id now,
             match Group.state group with
             | Stable | PreparingRebalance => Ok tt
             | CompletingRebalance => Err ErrorCode.RebalanceInProgress
             | Empty => Err ErrorCode.UnknownMemberId
             end)
      end
    end.

(** ** The clock's work *)

Definition lapsed (group : Group.t) (now : Instant) (m : Member.t) : bool :=
  negb (bool_decide (Group.state group = PreparingRebalance) && Member.in_round m) &&
  bool_decide (Group.state group ≠ CompletingRebalance) &&
  bool_decide (Member.session_timeout m < duration_since now (Member.last_seen m))%N.

(** A member removed, with the answer to its parked sync. *)
Definition expel (id : string) (error : ErrorCode.t) (group : Group.t) : Group.t * list Send :=
  (Group.set_members (delete id (Group.members group)) group,
   match Group.members group !! id ≫= Member.sync_waiter with
   | Some tx => [SendSync tx (Err error)]
   | None => []
   end).

(** A leader that has not synced in time is out. *)
Definition expire_leader (config : GroupConfig.t) (now : Instant) (group : Group.t) : Group.t * list Send :=
  match Group.sync_deadline group with
  | Some deadline =>
      if decide (Group.state group = CompletingRebalance ∧ (deadline < now)%N) then
        let '(group, parked) := match Group.leader group with
                                | Some leader => expel leader ErrorCode.RebalanceInProgress group
                                | None => (group, [])
                                end in
        let '(group, sends) := member_left (Group.set_sync_deadline None group) now
          (GroupConfig.initial_rebalance_delay config) in
        (group, parked ++ sends)
      else (group, [])
  | None => (group, [])
  end.

Fixpoint expire_members (config : GroupConfig.t) (now : Instant) (ids : list string) (group : Group.t)
    : Group.t * list Send :=
  match ids with
  | [] => (group, [])
  | id :: ids =>
      let '(group, parked) := expel id ErrorCode.UnknownMemberId group in
      let '(group, released) := member_left group now (GroupConfig.initial_rebalance_delay config) in
      let '(group, sends) := expire_members config now ids group in
      (group, parked ++ released ++ sends)
  end.

Definition sweep_group (config : GroupConfig.t) (now : Instant) (group : Group.t) : option (Group.t * list Send) :=
  let group := Group.set_minted (unexpired now (Group.minted group)) group in
  let gone := (filter (λ p, lapsed group now p.2 = true) (hash_iter (Group.members group))).*1 in
  let '(group, first) := expire_leader config now group in
  let '(group, second) := expire_members config now gone group in
  '(group, third) ← maybe_complete group now;
  Some (group, first ++ second ++ third).

(** Whether a swept group is kept. *)
Definition kept (group : Group.t) : bool :=
  negb (bool_decide (Group.members group = ∅) && bool_decide (Group.minted group = ∅)).

Definition sweep (c : Coordinator.t) (now : Instant) : option Coordinator.t :=
  swept ← mapM (λ '(id, group), '(group, sends) ← sweep_group (Coordinator.config c) now group; Some (id, group, sends))
    (hash_iter (Coordinator.groups c));
  let groups : gmap string Group.t := list_to_map (fst <$> swept) in
  Some (Coordinator.mk (Coordinator.config c) (filter (λ p, kept p.2 = true) groups) (Coordinator.closed c)
    (Coordinator.next_channel c) (Coordinator.sent c ++ concat (snd <$> swept))).

Definition shutdown (c : Coordinator.t) : Coordinator.t :=
  let released := concat ((λ '(_, group), release_syncs (Group.members group)) <$> hash_iter (Coordinator.groups c)) in
  Coordinator.mk (Coordinator.config c) ∅ true (Coordinator.next_channel c) (Coordinator.sent c ++ released).
End coordinator.
