(* ===== verification/KafkaRounds.v ===== *)
(** The invariant of a consumer group and what each change of a group does to it: what
    begins and ends a round, who is waiting on which channel and until when, and how the
    generation advances. *)

From stdpp Require Import prelude strings list gmap pretty.
From Stdlib Require Import ZArith Lia.
From S2P Require Import Prelude Wire Flow KafkaGroups.
#[local] Open Scope nat_scope.

(** ** Traversals and choices *)

Section iteration.
Context {order : HashOrder} {order_laws : HashOrderLaws}.

Lemma elem_of_hash_iter {A} (m : gmap string A) k x : (k, x) ∈ hash_iter m ↔ m !! k = Some x.
Proof. by rewrite hash_iter_perm, elem_of_map_to_list. Qed.

Lemma hash_iter_keys_NoDup {A} (m : gmap string A) : NoDup (hash_iter m).*1.
Proof. rewrite hash_iter_perm. apply NoDup_fst_map_to_list. Qed.

Lemma hash_iter_empty {A} (m : gmap string A) : hash_iter m = [] ↔ m = ∅.
Proof.
  split; [|intros ->; apply Permutation_nil; by rewrite hash_iter_perm, map_to_list_empty].
  intros H. apply map_to_list_empty_iff. apply Permutation_nil. by rewrite <-hash_iter_perm, H.
Qed.

Lemma forallb_hash_iter {A} (P : A → bool) (m : gmap string A) :
  forallb (λ '(_, x), P x) (hash_iter m) = true ↔ map_Forall (λ _ x, P x = true) m.
Proof.
  rewrite forallb_forall. split.
  - intros H k x Hx. apply (H (k, x)), list_elem_of_In, elem_of_hash_iter, Hx.
  - intros H [k x] Hx%list_elem_of_In%elem_of_hash_iter. by apply (H k).
Qed.

Lemma elem_of_omap_iter {A B} (f : string * A → option B) (m : gmap string A) y :
  y ∈ omap f (hash_iter m) ↔ ∃ k x, m !! k = Some x ∧ f (k, x) = Some y.
Proof.
  rewrite list_elem_of_omap. split.
  - intros ([k x] & Hx%elem_of_hash_iter & Hy). by exists k, x.
  - intros (k & x & Hx & Hy). exists (k, x). by rewrite elem_of_hash_iter.
Qed.
End iteration.

Lemma min_by_key_elem {A} (key : A → Z) l x :
  min_by_key key l = Some x → x ∈ l ∧ Forall (λ y, key x <= key y)%Z l.
Proof.
  revert x. induction l as [|y l IH]; intros x; simpl; [done|].
  destruct (min_by_key key l) as [z|] eqn:Hz.
  - destruct (IH z eq_refl) as [Hin Hle]. case_decide; intros [= <-].
    + split; [by right|]. constructor; [lia|done].
    + split; [by left|]. constructor; [lia|]. eapply Forall_impl; [exact Hle|]. simpl. lia.
  - intros [= <-]. split; [by left|]. constructor; [lia|]. destruct l as [|z l]; [done|].
    simpl in Hz. destruct (min_by_key key l); [|done]. by case_decide.
Qed.
Lemma min_by_key_Some {A} (key : A → Z) l : l ≠ [] → is_Some (min_by_key key l).
Proof. destruct l as [|x l]; [done|]. intros _. simpl. destruct (min_by_key key l); [case_decide|]; by eexists. Qed.

Lemma max_by_key_elem {A} (key : A → Z) l x :
  max_by_key key l = Some x → x ∈ l ∧ Forall (λ y, key y <= key x)%Z l.
Proof.
  revert x. induction l as [|y l IH]; intros x; simpl; [done|].
  destruct (max_by_key key l) as [z|] eqn:Hz.
  - destruct (IH z eq_refl) as [Hin Hle]. case_decide; intros [= <-].
    + split; [by right|]. constructor; [lia|done].
    + split; [by left|]. constructor; [lia|]. eapply Forall_impl; [exact Hle|]. simpl. lia.
  - intros [= <-]. split; [by left|]. constructor; [lia|]. destruct l as [|z l]; [done|].
    simpl in Hz. destruct (max_by_key key l); [|done]. by case_decide.
Qed.
Lemma max_by_key_Some {A} (key : A → Z) l : l ≠ [] → is_Some (max_by_key key l).
Proof. destruct l as [|x l]; [done|]. intros _. simpl. destruct (max_by_key key l); [case_decide|]; by eexists. Qed.

Lemma supports_elem m name : Member.supports m name = true ↔ name ∈ (Member.protocols m).*1.
Proof.
  unfold Member.supports. rewrite existsb_exists, list_elem_of_fmap. split.
  - intros (p & Hp%list_elem_of_In & <-%bool_decide_eq_true). by exists p.
  - intros (p & -> & Hp). exists p. split; [by apply list_elem_of_In|by apply bool_decide_eq_true].
Qed.

Section groups.
Context {order : HashOrder} {order_laws : HashOrderLaws} (config : GroupConfig.t).

(** ** The invariant of a group *)

(** Everybody has the protocol. *)
Definition shared (members : gmap string Member.t) (p : string) : Prop :=
  map_Forall (λ _ m, p ∈ (Member.protocols m).*1) members.

Record member_ok (st : State) (m : Member.t) : Prop := {
  mk_joined : Member.in_round m = true ↔ is_Some (Member.join_waiter m);
  mk_synced : is_Some (Member.sync_waiter m) → st = CompletingRebalance;
  mk_session : (GroupConfig.min_session_timeout config <= Member.session_timeout m
                <= GroupConfig.max_session_timeout config)%N;
  mk_rebalance : (Member.rebalance_timeout m <= GroupConfig.max_rebalance_timeout config)%N;
}.

(** What holds also between the steps of an operation. *)
Record group_base (g : Group.t) : Prop := {
  gb_members : map_Forall (λ _ m, member_ok (Group.state g) m) (Group.members g);
  gb_shared : Group.members g ≠ ∅ → ∃ p, shared (Group.members g) p;
  gb_preparing : Group.state g = PreparingRebalance → is_Some (Group.round g) ∧ Group.sync_deadline g = None;
  gb_generation : (0 <= ival (Group.generation g))%Z;
  gb_size : size (Group.members g) + size (Group.minted g) <= GroupConfig.max_members config;
}.

(** Nobody is in a round unless one is under way. *)
Definition idle (g : Group.t) : Prop :=
  Group.state g ≠ PreparingRebalance → map_Forall (λ _ m, Member.in_round m = false) (Group.members g).

(** The outcome of the last round. *)
Record chosen (g : Group.t) (l p : string) : Prop := {
  ch_leader : Group.leader g = Some l;
  ch_member : is_Some (Group.members g !! l);
  ch_protocol : Group.protocol_name g = Some p;
  ch_shared : shared (Group.members g) p;
}.

Record group_ok (g : Group.t) : Prop := {
  gk_base : group_base g;
  gk_idle : idle g;
  gk_empty : Group.state g = Empty ↔ Group.members g = ∅;
  gk_round : is_Some (Group.round g) → Group.state g = PreparingRebalance;
  gk_completing : Group.state g = CompletingRebalance →
    is_Some (Group.sync_deadline g) ∧ (∃ l p, chosen g l p) ∧ (1 <= ival (Group.generation g))%Z;
  gk_stable : Group.state g = Stable →
    Group.sync_deadline g = None ∧ (∃ l p, chosen g l p) ∧ (1 <= ival (Group.generation g))%Z ∧
    map_Forall (λ _ m, is_Some (Member.assignment m)) (Group.members g);
}.

Lemma new_ok : group_ok Group.new.
Proof. split; try done. split; try done. simpl. rewrite !map_size_empty. lia. by intros []. Qed.

(** What the invariant depends on. *)
Lemma group_ok_same g g' :
  Group.state g' = Group.state g → Group.members g' = Group.members g →
  Group.generation g' = Group.generation g → Group.leader g' = Group.leader g →
  Group.protocol_name g' = Group.protocol_name g → Group.sync_deadline g' = Group.sync_deadline g →
  (is_Some (Group.round g') ↔ is_Some (Group.round g)) →
  size (Group.members g) + size (Group.minted g') <= GroupConfig.max_members config →
  group_ok g → group_ok g'.
Proof.
  intros Hst Hm Hg Hl Hp Hd Hr Hn [[? ? ? ? ?] Hi ? ? Hc Hs].
  assert (∀ l p, chosen g l p → chosen g' l p) as Hch by (intros l p [? ? ? ?]; split; by rewrite ?Hl, ?Hm, ?Hp).
  split; [split|unfold idle|..]; rewrite ?Hst, ?Hm, ?Hg, ?Hd, ?Hr; try done.
  - intros H. destruct (Hc H) as (? & (l & p & ?) & ?). eauto 10.
  - intros H. destruct (Hs H) as (? & (l & p & ?) & ? & ?). eauto 10.
Qed.

(** ** Waiters *)

(** The channel of a parked join ([true]) or sync ([false]). *)
Definition waiter (b : bool) (m : Member.t) : option channel :=
  if b then Member.join_waiter m else Member.sync_waiter m.
Definition holds (members : gmap string Member.t) (id : string) (b : bool) (tx : channel) : Prop :=
  ∃ m, members !! id = Some m ∧ waiter b m = Some tx.
(** Until when they wait. *)
Definition deadline_of (b : bool) (g : Group.t) : option Instant :=
  if b then Round.deadline <$> Group.round g else Group.sync_deadline g.
Definition channel_of (s : Send) : channel := match s with SendJoin tx _ | SendSync tx _ => tx end.
Definition unique (members : gmap string Member.t) : Prop :=
  ∀ id b id' b' tx, holds members id b tx → holds members id' b' tx → id = id' ∧ b = b'.
(** The ids with which a member may speak or join. *)
Definition known (g : Group.t) (id : string) : Prop :=
  is_Some (Group.members g !! id) ∨ is_Some (Group.minted g !! id).

Lemma elem_of_waiters b (f : string → Member.t → channel → Send) (ms : gmap string Member.t) tx :
  (∀ id m tx, channel_of (f id m tx) = tx) →
  tx ∈ channel_of <$> omap (λ '(id, m), f id m <$> waiter b m) (hash_iter ms) ↔ ∃ id, holds ms id b tx.
Proof.
  intros Hf. rewrite list_elem_of_fmap. setoid_rewrite elem_of_omap_iter. split.
  - intros (s & -> & id & m & Hm & Hs). apply fmap_Some in Hs as (tx & Hw & ->). exists id, m. by rewrite Hf.
  - intros (id & m & Hm & Hw). exists (f id m tx). split; [by rewrite Hf|]. exists id, m. by rewrite Hw.
Qed.

Lemma waiters_NoDup b (f : string → Member.t → channel → Send) (ms : gmap string Member.t) :
  unique ms → (∀ id m tx, channel_of (f id m tx) = tx) →
  NoDup (channel_of <$> omap (λ '(id, m), f id m <$> waiter b m) (hash_iter ms)).
Proof.
  intros Hu Hf.
  assert (∀ l, NoDup l.*1 → (∀ id m, (id, m) ∈ l → ms !! id = Some m) →
    NoDup (channel_of <$> omap (λ '(id, m), f id m <$> waiter b m) l)) as H.
  2: { apply H; [apply hash_iter_keys_NoDup|]. intros id m. by rewrite elem_of_hash_iter. }
  induction l as [|[id m] l IH]; [constructor|]. cbn [fmap list_fmap fst].
  intros [Hnew Hnd]%NoDup_cons Hl.
  assert (NoDup (channel_of <$> omap (λ '(id, m), f id m <$> waiter b m) l)) as Hrest
    by (apply IH; [done|]; intros; apply Hl; by right).
  cbn [omap list_omap]. destruct (waiter b m) as [tx|] eqn:Hw; [|done]. cbn [fmap option_fmap option_map list_fmap].
  apply NoDup_cons. split; [|done]. rewrite Hf. intros (s & Htx & Hs)%list_elem_of_fmap.
  apply list_elem_of_omap in Hs as ([id' m'] & Hin & Hs). apply fmap_Some in Hs as (tx' & Hw' & ->).
  rewrite Hf in Htx. subst tx'. destruct (Hu id b id' b tx) as [-> _].
  - exists m. split; [apply Hl; by left|done].
  - exists m'. split; [apply Hl; by right|done].
  - apply Hnew. apply list_elem_of_fmap. by exists (id', m').
Qed.

(** ** Changes of a group *)

Definition phase (st : State) : nat :=
  match st with CompletingRebalance => 0 | Stable => 1 | PreparingRebalance | Empty => 2 end.

(** Within a generation a group only moves on from awaiting its assignment to having it to
    rebalancing, and keeps its leader, protocol and assignments until it moves. *)
Record stays (g g' : Group.t) : Prop := {
  sy_generation : Group.generation g' = Group.generation g;
  sy_phase : phase (Group.state g) <= phase (Group.state g');
  sy_same : phase (Group.state g) = phase (Group.state g') → phase (Group.state g) < 2 →
    Group.leader g' = Group.leader g ∧ Group.protocol_name g' = Group.protocol_name g ∧
    ∀ id m', Group.members g' !! id = Some m' →
      ∃ m, Group.members g !! id = Some m ∧ Member.assignment m' = Member.assignment m;
}.
Definition progress (g g' : Group.t) : Prop :=
  stays g g' ∨ Group.generation g' = next_generation (Group.generation g).

(** A change that may admit the id [fid] and park a request on a new channel [ftx]. *)
Record moves (fid : option string) (ftx : option (string * bool * channel)) (g g' : Group.t) (sends : list Send)
    : Prop := {
  mv_progress : progress g g';
  mv_known id : known g' id → known g id ∨ fid = Some id;
  mv_held id b tx : holds (Group.members g') id b tx →
    (holds (Group.members g) id b tx ∧ deadline_of b g' = deadline_of b g) ∨ ftx = Some (id, b, tx);
  mv_sent tx : tx ∈ channel_of <$> sends →
    (∃ id b, holds (Group.members g) id b tx) ∨ (∃ id b, ftx = Some (id, b, tx));
  mv_once : unique (Group.members g) →
    (∀ id b tx id' b', ftx = Some (id, b, tx) → ¬ holds (Group.members g) id' b' tx) →
    NoDup (channel_of <$> sends) ∧
    ∀ tx id b, tx ∈ channel_of <$> sends → ¬ holds (Group.members g') id b tx;
}.

Lemma stays_refl g : stays g g.
Proof. split; [done..|]. intros _ _. split_and!; [done|done|]. intros id m' Hm. by exists m'. Qed.

Lemma stays_trans g1 g2 g3 : stays g1 g2 → stays g2 g3 → stays g1 g3.
Proof.
  intros [Hg Hp Hs] [Hg' Hp' Hs']. split; [congruence|lia|]. intros Heq Hlt.
  destruct (Hs ltac:(lia) Hlt) as (Hl & Hn & Hm). destruct (Hs' ltac:(lia) ltac:(lia)) as (Hl' & Hn' & Hm').
  split_and!; [congruence|congruence|]. intros id m Hid. destruct (Hm' id m Hid) as (m2 & Hid2 & Ha2).
  destruct (Hm id m2 Hid2) as (m1 & Hid1 & Ha1). exists m1. split; [done|congruence].
Qed.

Lemma moves_unique fid ftx g g' sends :
  moves fid ftx g g' sends → unique (Group.members g) →
  (∀ id b tx id' b', ftx = Some (id, b, tx) → ¬ holds (Group.members g) id' b' tx) → unique (Group.members g').
Proof.
  intros Hm Hu Hf id b id' b' tx H1 H2.
  destruct (mv_held _ _ _ _ _ Hm _ _ _ H1) as [[H1' _]|H1'], (mv_held _ _ _ _ _ Hm _ _ _ H2) as [[H2' _]|H2'].
  - by eapply Hu.
  - by destruct (Hf _ _ _ _ _ H2' H1').
  - by destruct (Hf _ _ _ _ _ H1' H2').
  - rewrite H1' in H2'. by injection H2'.
Qed.

Lemma moves_trans fid ftx g1 g2 g3 s1 s2 :
  moves fid ftx g1 g2 s1 → stays g1 g2 → moves None None g2 g3 s2 → moves fid ftx g1 g3 (s1 ++ s2).
Proof.
  intros H1 Hst H2. split.
  - destruct (mv_progress _ _ _ _ _ H2) as [Hs|Hb]; [left; by eapply stays_trans|right].
    by rewrite Hb, (sy_generation _ _ Hst).
  - intros id Hk. destruct (mv_known _ _ _ _ _ H2 _ Hk) as [Hk2|[=]]. by apply (mv_known _ _ _ _ _ H1).
  - intros id b tx Hh. destruct (mv_held _ _ _ _ _ H2 _ _ _ Hh) as [[Hh2 Hd2]|[=]].
    destruct (mv_held _ _ _ _ _ H1 _ _ _ Hh2) as [[Hh1 Hd1]|Hf]; [|by right]. left. split; [done|congruence].
  - intros tx. rewrite fmap_app, elem_of_app. intros [Hs|Hs]; [by apply (mv_sent _ _ _ _ _ H1)|].
    destruct (mv_sent _ _ _ _ _ H2 _ Hs) as [(id & b & Hh)|(? & ? & [=])].
    destruct (mv_held _ _ _ _ _ H1 _ _ _ Hh) as [[Hh1 _]|Hf]; [left|right]; by exists id, b.
  - intros Hu Hf. destruct (mv_once _ _ _ _ _ H1 Hu Hf) as [Hn1 Ho1].
    pose proof (moves_unique _ _ _ _ _ H1 Hu Hf) as Hu2.
    destruct (mv_once _ _ _ _ _ H2 Hu2 ltac:(done)) as [Hn2 Ho2]. split.
    + rewrite fmap_app. apply NoDup_app. split_and!; [done| |done]. intros tx Hin Hin2.
      destruct (mv_sent _ _ _ _ _ H2 _ Hin2) as [(id & b & Hh)|(? & ? & [=])]. by apply (Ho1 tx id b Hin).
    + intros tx id b. rewrite fmap_app, elem_of_app. intros [Hin|Hin] Hh; [|by eapply Ho2].
      destruct (mv_held _ _ _ _ _ H2 _ _ _ Hh) as [[Hh2 _]|[=]]. by eapply Ho1.
Qed.

(** A change that answers nobody and parks nobody. *)
Lemma moves_calm fid g g' :
  Group.generation g' = Group.generation g → Group.state g' = Group.state g →
  Group.leader g' = Group.leader g → Group.protocol_name g' = Group.protocol_name g →
  (∀ b, deadline_of b g' = deadline_of b g) →
  (∀ id m', Group.members g' !! id = Some m' → ∃ m, Group.members g !! id = Some m ∧
     Member.assignment m' = Member.assignment m ∧ ∀ b tx, waiter b m' = Some tx → waiter b m = Some tx) →
  (∀ id, known g' id → known g id ∨ fid = Some id) →
  moves fid None g g' [] ∧ stays g g'.
Proof.
  intros Hg Hst Hl Hp Hd Hm Hk. assert (stays g g') as Hstays.
  { split; [done|by rewrite Hst|]. intros _ _. split_and!; [done|done|]. intros id m' Hid.
    destruct (Hm id m' Hid) as (m & ? & ? & _). by exists m. }
  split; [|done]. split.
  - by left.
  - done.
  - intros id b tx (m' & Hid & Hw). left. destruct (Hm id m' Hid) as (m & Hm' & _ & Hw'). split; [|done].
    exists m. auto.
  - by intros tx ?%not_elem_of_nil.
  - intros _ _. split; [constructor|]. by intros tx id b ?%not_elem_of_nil.
Qed.

(** ** Beginning a round *)

Lemma release_syncs_waiters (ms : gmap string Member.t) :
  release_syncs ms
  = omap (λ '(id, m), (λ tx, SendSync tx (Err ErrorCode.RebalanceInProgress)) <$> waiter false m) (hash_iter ms).
Proof. done. Qed.

Lemma elem_of_release_syncs (ms : gmap string Member.t) tx :
  tx ∈ channel_of <$> release_syncs ms ↔ ∃ id, holds ms id false tx.
Proof. by apply (elem_of_waiters false (λ _ _ tx, SendSync tx (Err ErrorCode.RebalanceInProgress))). Qed.

Lemma release_syncs_NoDup (ms : gmap string Member.t) : unique ms → NoDup (channel_of <$> release_syncs ms).
Proof. intros Hu. by apply (waiters_NoDup false (λ _ _ tx, SendSync tx (Err ErrorCode.RebalanceInProgress))). Qed.

Lemma holds_released (ms : gmap string Member.t) id b tx :
  holds (Member.set_sync_waiter None <$> ms) id b tx ↔ b = true ∧ holds ms id true tx.
Proof.
  unfold holds. setoid_rewrite lookup_fmap_Some. split.
  - intros (m' & (m & <- & Hm) & Hw). destruct b; [|done]. split; [done|]. by exists m.
  - intros [-> (m & Hm & Hw)]. exists (Member.set_sync_waiter None m). split; [by exists m|done].
Qed.

Lemma idle_no_joins g id tx :
  group_base g → idle g → Group.state g ≠ PreparingRebalance → ¬ holds (Group.members g) id true tx.
Proof.
  intros Hb Hi Hst (m & Hm & Hw). pose proof (gb_members _ Hb id m Hm) as Hok. pose proof (Hi Hst id m Hm) as Hr.
  cbn [waiter] in Hw. assert (Member.in_round m = true) by (apply (mk_joined _ _ Hok); by rewrite Hw). congruence.
Qed.

Lemma preparing_no_syncs g id tx :
  group_base g → Group.state g ≠ CompletingRebalance → ¬ holds (Group.members g) id false tx.
Proof.
  intros Hb Hst (m & Hm & Hw). apply Hst, (mk_synced _ _ (gb_members _ Hb id m Hm)). cbn [waiter] in Hw. by rewrite Hw.
Qed.

Lemma member_ok_released st st' m : member_ok st m → member_ok st' (Member.set_sync_waiter None m).
Proof. intros [? _ ? ?]. split; try done. by intros [? [=]]. Qed.

Lemma shared_released (ms : gmap string Member.t) p : shared (Member.set_sync_waiter None <$> ms) p ↔ shared ms p.
Proof. unfold shared. rewrite map_Forall_fmap. done. Qed.

Lemma begin_round_ok g now w d :
  group_base g → Group.members g ≠ ∅ →
  group_ok (begin_round g now w d).1 ∧ Group.state (begin_round g now w d).1 = PreparingRebalance.
Proof.
  intros [Hm Hs Hp Hg Hn] Hne. unfold begin_round.
  destruct (decide (Group.state g = PreparingRebalance)) as [Hst|Hst].
  - rewrite Hst. cbn [fst]. split; [|done]. split; try (by rewrite Hst); [by split|by intros []].
  - assert (∀ st, group_ok (Group.mk (Group.generation g) PreparingRebalance (Group.protocol_type g)
      (Group.protocol_name g) (Group.leader g) (Member.set_sync_waiter None <$> Group.members g) (Group.minted g)
      (Some st) None (Group.next_join_seq g))) as Hok.
    { intros st. split; cbn; try done; [split; cbn; try done| |].
      - apply map_Forall_fmap. intros id m Hid. simpl. by eapply member_ok_released, Hm.
      - intros _. destruct (Hs Hne) as [p Hsh]. exists p. by rewrite shared_released.
      - by rewrite map_size_fmap.
      - intros Hne'. by destruct Hne'.
      - split; [done|]. by intros ?%fmap_empty_iff. }
    by destruct (Group.state g); [split; [apply Hok|done]..|done|split; [apply Hok|done]|split; [apply Hok|done]].
Qed.

Lemma begin_round_moves g now w d :
  group_base g → idle g →
  moves None None g (begin_round g now w d).1 (begin_round g now w d).2 ∧ stays g (begin_round g now w d).1.
Proof.
  intros Hb Hi. unfold begin_round. destruct (decide (Group.state g = PreparingRebalance)) as [Hst|Hst].
  { rewrite Hst. cbn [fst snd]. apply moves_calm; try done; [|by left]. intros id m' Hm. by exists m'. }
  set (round := Round.mk _ _).
  set (g' := Group.mk (Group.generation g) PreparingRebalance (Group.protocol_type g)
    (Group.protocol_name g) (Group.leader g) (Member.set_sync_waiter None <$> Group.members g) (Group.minted g)
    (Some round) None (Group.next_join_seq g)).
  assert (stays g g') as Hstays.
  { split; [done|by destruct (Group.state g); simpl; lia|]. intros Heq Hlt. cbn in Heq. lia. }
  assert (moves None None g g' (release_syncs (Group.members g))) as Hmoves.
  2: { by destruct (Group.state g). }
  split.
  - by left.
  - intros id [Hk|Hk]; left; [left|by right]. unfold g' in Hk. cbn in Hk. by rewrite lookup_fmap, fmap_is_Some in Hk.
  - intros id b tx [-> Hh]%holds_released. by destruct (idle_no_joins g id tx Hb Hi Hst).
  - intros tx [id Hh]%elem_of_release_syncs. left. by exists id, false.
  - intros Hu _. split; [by apply release_syncs_NoDup|].
    intros tx id b _ [-> Hh]%holds_released. by destruct (idle_no_joins g id tx Hb Hi Hst).
Qed.

(** ** A member gone *)

Definition loose (g : Group.t) : Prop := group_base g ∧ idle g.

Lemma ok_loose g : group_ok g → loose g.
Proof. intros [Hb Hi _ _ _ _]. by split. Qed.

Lemma member_left_spec g now d :
  loose g →
  group_ok (member_left g now d).1 ∧
  moves None None g (member_left g now d).1 (member_left g now d).2 ∧ stays g (member_left g now d).1.
Proof.
  intros [Hb Hi]. unfold member_left. destruct (decide (Group.members g = ∅)) as [He|He].
  { cbn [fst snd]. assert (stays g (Group.rest g)) as Hs.
    { split; [done|by destruct (Group.state g); simpl; lia|]. intros Heq Hlt. cbn in Heq. lia. }
    destruct Hb as [Hm Hs' Hp Hg Hn]. split_and!; [|split|done].
    - split; cbn; try done; [split; cbn; try done|intros _; cbn]; by rewrite He.
    - by left.
    - by left.
    - intros id b tx (m & Hid & _). cbn in Hid. by rewrite He in Hid.
    - by intros tx ?%not_elem_of_nil.
    - intros _ _. split; [constructor|]. by intros tx id b ?%not_elem_of_nil. }
  case_decide as Hst.
  2: { cbn [fst snd]. destruct (moves_calm None g g) as [? ?]; try done; [|by left|].
       - intros id m Hm. by exists m.
       - split_and!; [|done|done]. split; try (by rewrite Hst); done. }
  set (g1 := Group.set_members _ g).
  assert (group_base g1) as Hb1.
  { destruct Hb as [Hm Hs Hp Hg Hn]. split; try done; cbn.
    - apply map_Forall_fmap. intros id m Hid. destruct (Hm id m Hid) as [Hj ? ? ?]. split; try done. cbn.
      split; [done|]. intros Hw. apply Hj in Hw. rewrite (Hi Hst id m Hid) in Hw. done.
    - intros _. destruct (Hs He) as [p Hsh]. exists p. unfold shared. rewrite map_Forall_fmap. done.
    - by rewrite map_size_fmap. }
  assert (idle g1) as Hi1 by (intros _; apply map_Forall_fmap; by intros id m _).
  destruct (moves_calm None g g1) as [Hmv Hsy]; try done.
  { intros id m' Hid. cbn in Hid. apply lookup_fmap_Some in Hid as (m & <- & Hid). by exists m. }
  { intros id [Hk|Hk]; left; [left|by right]. cbn in Hk. by rewrite lookup_fmap, fmap_is_Some in Hk. }
  destruct (begin_round_moves g1 now false d Hb1 Hi1) as [Hmv2 Hsy2].
  split_and!; [| |by eapply stays_trans].
  - apply begin_round_ok; [done|]. cbn. by intros ?%fmap_empty_iff.
  - change (begin_round g1 now false d).2 with ([] ++ (begin_round g1 now false d).2). by eapply moves_trans.
Qed.

Lemma shared_delete (ms : gmap string Member.t) id p : shared ms p → shared (delete id ms) p.
Proof. intros H. by apply map_Forall_delete. Qed.

(** Removing a member, with the answer to its parked sync. *)
Lemma expel_spec id e g :
  loose g →
  loose (expel id e g).1 ∧ moves None None g (expel id e g).1 (expel id e g).2 ∧ stays g (expel id e g).1.
Proof.
  intros [[Hm Hs Hp Hg Hn] Hi]. unfold expel. cbn [fst snd].
  set (g' := Group.set_members (delete id (Group.members g)) g).
  assert (stays g g') as Hstays.
  { split; [done|done|]. intros _ _. split_and!; [done|done|]. intros id' m' Hid. cbn in Hid.
    apply lookup_delete_Some in Hid as [_ Hid]. by exists m'. }
  assert (∀ id' b tx, holds (Group.members g') id' b tx → id' ≠ id ∧ holds (Group.members g) id' b tx) as Hh.
  { intros id' b tx (m & Hid & Hw). cbn in Hid. apply lookup_delete_Some in Hid as [? Hid]. split; [done|]. by exists m. }
  split_and!; [split; [split|]|split|done]; try done; cbn.
  - by apply map_Forall_delete.
  - intros Hne. destruct Hs as [p Hsh]; [|exists p; by apply shared_delete].
    intros He. apply Hne. by rewrite He, delete_empty.
  - pose proof (map_size_delete id (Group.members g)) as Hsz. destruct (Group.members g !! id); simpl in Hsz; lia.
  - intros Hst. apply map_Forall_delete. by apply Hi.
  - by left.
  - intros id' [Hk|Hk]; left; [left|by right]. cbn in Hk. destruct Hk as [m Hk].
    apply lookup_delete_Some in Hk as [_ Hk]. by eexists.
  - intros id' b tx Hh'. left. split; [by apply Hh in Hh' as [_ ?]|done].
  - intros tx Htx. left. destruct (Group.members g !! id) as [m|] eqn:Hid; simpl in Htx; [|by apply not_elem_of_nil in Htx].
    destruct (Member.sync_waiter m) as [tx'|] eqn:Hw; [|by apply not_elem_of_nil in Htx].
    cbn in Htx. apply list_elem_of_singleton in Htx as ->. exists id, false, m. done.
  - intros Hu _. split.
    + destruct (Group.members g !! id) as [m|]; simpl; [|constructor].
      destruct (Member.sync_waiter m); [apply NoDup_singleton|constructor].
    + intros tx id' b Htx Hh'. apply Hh in Hh' as [Hne Hh'].
      destruct (Group.members g !! id) as [m|] eqn:Hid; simpl in Htx; [|by apply not_elem_of_nil in Htx].
      destruct (Member.sync_waiter m) as [tx'|] eqn:Hw; [|by apply not_elem_of_nil in Htx].
      cbn in Htx. apply list_elem_of_singleton in Htx as ->.
      destruct (Hu id' b id false tx') as [-> _]; [done| |done]. by exists m.
Qed.

(** ** Completing a round *)

Definition rejoined (g : Group.t) : gmap string Member.t := filter (λ p, Member.in_round p.2 = true) (Group.members g).

Lemma rejoined_lookup g id m :
  rejoined g !! id = Some m ↔ Group.members g !! id = Some m ∧ Member.in_round m = true.
Proof. unfold rejoined. by rewrite map_lookup_filter_Some. Qed.

Lemma choose_leader_spec g :
  Group.members g ≠ ∅ → ∃ l m, choose_leader g = Some (l, m) ∧ Group.members g !! l = Some m ∧
    (Group.leader g = Some l ∨
     map_Forall (λ _ m', (ival (Member.joined_at m) <= ival (Member.joined_at m'))%Z) (Group.members g)).
Proof.
  intros Hne. unfold choose_leader. destruct (Group.leader g) as [l|]; cbn [mbind option_bind].
  1: destruct (Group.members g !! l) as [m|] eqn:Hm; cbn [mbind option_bind]; [exists l, m; by auto|].
  all: destruct (min_by_key_Some (λ '(_, m), ival (Member.joined_at m)) (hash_iter (Group.members g))) as [[l' m'] Hmin];
    [by rewrite hash_iter_empty|]; exists l', m'; split; [done|];
    apply min_by_key_elem in Hmin as [Hin Hall]; rewrite elem_of_hash_iter in Hin; split; [done|right];
    intros id m2 Hm2; rewrite Forall_forall in Hall; apply (Hall (id, m2)), elem_of_hash_iter, Hm2.
Qed.

Lemma elem_of_candidates (ms : gmap string Member.t) m p :
  p ∈ candidates ms m ↔ p ∈ (Member.protocols m).*1 ∧ shared ms p.
Proof.
  unfold candidates. rewrite list_elem_of_filter, Is_true_true, (forallb_hash_iter (λ m, Member.supports m p)).
  assert (map_Forall (λ _ m, Member.supports m p = true) ms ↔ shared ms p) as ->; [|tauto].
  split; intros H id m' Hm'; specialize (H id m' Hm'); by apply supports_elem.
Qed.

(** The protocol is shared, and none has more votes. *)
Lemma choose_protocol_spec (ms : gmap string Member.t) l m :
  ms !! l = Some m → (∃ p, shared ms p) → ∃ p, choose_protocol ms m = Some p ∧ shared ms p ∧
    ∀ q, shared ms q → votes ms (candidates ms m) q <= votes ms (candidates ms m) p.
Proof.
  intros Hm [p Hp]. unfold choose_protocol. cbv zeta.
  assert (p ∈ candidates ms m) as Hin by (apply elem_of_candidates; split; [by apply (Hp l)|done]).
  destruct (max_by_key_Some (λ name, Z.of_nat (votes ms (candidates ms m) name)) (reverse (candidates ms m)))
    as [q Hq].
  { intros Hnil%(f_equal reverse). rewrite reverse_involutive in Hnil. rewrite Hnil in Hin. by apply not_elem_of_nil in Hin. }
  exists q. split; [done|]. apply max_by_key_elem in Hq as [Hel Hall]. rewrite elem_of_reverse in Hel.
  split; [by apply elem_of_candidates in Hel as [_ ?]|]. intros q' Hq'. rewrite Forall_forall in Hall.
  specialize (Hall q'). rewrite elem_of_reverse in Hall.
  assert (q' ∈ candidates ms m) as Hin' by (apply elem_of_candidates; split; [by apply (Hq' l)|done]).
  specialize (Hall Hin'). simpl in Hall. lia.
Qed.

(** The group whose round completed. *)
Definition completed (g : Group.t) (now : Instant) (l p : string) : Group.t :=
  Group.mk (next_generation (Group.generation g)) CompletingRebalance (Group.protocol_type g) (Some p) (Some l)
    (after_round now <$> rejoined g) (Group.minted g) None
    (Some (now + longest_rebalance (rejoined g))%N) (Group.next_join_seq g).
Definition deserted (g : Group.t) : Group.t :=
  Group.rest (Group.mk (next_generation (Group.generation g)) (Group.state g) (Group.protocol_type g)
    (Group.protocol_name g) (Group.leader g) ∅ (Group.minted g) None (Group.sync_deadline g) (Group.next_join_seq g)).

(** The leader and the protocol of a round. *)
Record elected (g : Group.t) (l p : string) : Prop := {
  el_member : is_Some (rejoined g !! l);
  el_leader : Group.leader g = Some l ∨
    ∃ m, rejoined g !! l = Some m ∧
      map_Forall (λ _ m', (ival (Member.joined_at m) <= ival (Member.joined_at m'))%Z) (rejoined g);
  el_shared : shared (rejoined g) p;
  el_votes : ∃ m, rejoined g !! l = Some m ∧
    ∀ q, shared (rejoined g) q →
      votes (rejoined g) (candidates (rejoined g) m) q <= votes (rejoined g) (candidates (rejoined g) m) p;
}.

Inductive round_result (g : Group.t) (now : Instant) : Group.t → list Send → Prop :=
  | round_waits :
      (∀ round, Group.round g = Some round → completes g round now = false) → round_result g now g []
  | round_deserted round :
      Group.round g = Some round → completes g round now = true → rejoined g = ∅ →
      round_result g now (deserted g) []
  | round_completed round l p :
      Group.round g = Some round → completes g round now = true → elected g l p →
      round_result g now (completed g now l p)
        (join_answers (rejoined g) (next_generation (Group.generation g)) p l).

Lemma maybe_complete_result g now :
  group_ok g → ∃ g' sends, maybe_complete g now = Some (g', sends) ∧ round_result g now g' sends.
Proof.
  intros Hok. pose proof (gk_base _ Hok) as [Hm Hs Hp Hg Hn]. unfold maybe_complete. case_decide as Hst.
  { exists g, []. split; [done|]. apply round_waits. intros round Hr. destruct Hst. apply (gk_round _ Hok). by rewrite Hr. }
  destruct (Group.round g) as [round|] eqn:Hr; [|exists g, []; split; [done|]; apply round_waits; by rewrite Hr].
  destruct (completes g round now) eqn:Hc; cbn [negb].
  2: { exists g, []. split; [done|]. apply round_waits. intros r Hr'. rewrite Hr' in Hr. by injection Hr as <-. }
  cbv zeta. fold (rejoined g). case_decide as He.
  { exists (deserted g), []. split; [|by eapply round_deserted]. by rewrite He. }
  set (g1 := Group.mk _ _ _ _ _ _ _ _ _ _).
  destruct (choose_leader_spec g1) as (l & m & Hl & Hlm & Hlead); [done|]. rewrite Hl. cbn [mbind option_bind].
  change (Group.members g1) with (rejoined g) in *.
  destruct (choose_protocol_spec (rejoined g) l m Hlm) as (p & Hcp & Hsh & Hv).
  { destruct Hs as [p Hsh].
    - intros Hem. apply He. unfold rejoined. by rewrite Hem, map_filter_empty.
    - exists p. intros id m' Hm'. apply rejoined_lookup in Hm' as [Hm' _]. by apply (Hsh id). }
  rewrite Hcp. exists (completed g now l p), (join_answers (rejoined g) (next_generation (Group.generation g)) p l).
  split; [done|]. eapply round_completed; [done|done|]. split; [by rewrite Hlm| |done|by exists m].
  destruct Hlead as [Hld|Hearly]; [by left|right]. by exists m.
Qed.

Lemma next_generation_pos n : (1 <= ival (next_generation n))%Z.
Proof. unfold next_generation. cbv zeta. case_decide; [by rewrite ival_one|]. lia. Qed.

Lemma next_generation_succ n : (0 <= ival n < int_max I32)%Z → ival (next_generation n) = (ival n + 1)%Z.
Proof.
  intros Hn. unfold next_generation. cbv zeta. unfold wrapping_add. rewrite ival_one.
  change (int_max I32) with 2147483647%Z in Hn.
  assert (ival (wrap_int I32 (ival n + 1)) = ival n + 1)%Z as Hw
    by (apply wrap_int_small; change (int_min I32) with (-2147483648)%Z; change (int_max I32) with 2147483647%Z; lia).
  by rewrite decide_False by lia.
Qed.

Lemma rejoined_size g : size (rejoined g) <= size (Group.members g).
Proof. apply map_subseteq_size, map_filter_subseteq. Qed.

Lemma round_result_ok g now g' sends : group_ok g → round_result g now g' sends → group_ok g'.
Proof.
  intros Hok Hr. destruct Hr as [|round Hr Hc He|round l p Hr Hc Hel]; [done| |].
  - destruct (gk_base _ Hok) as [Hm Hs Hp Hg Hn]. split; cbn; try done. split; cbn; try done.
    + pose proof (next_generation_pos (Group.generation g)). lia.
    + rewrite map_size_empty. lia.
  - destruct (gk_base _ Hok) as [Hm Hs Hp Hg Hn].
    assert (Group.state g = PreparingRebalance) as Hst by (apply (gk_round _ Hok); by rewrite Hr).
    pose proof (next_generation_pos (Group.generation g)) as Hpos.
    assert (shared (after_round now <$> rejoined g) p) as Hsh.
    { unfold shared. apply map_Forall_fmap. intros id m Hid. exact (el_shared _ _ _ Hel id m Hid). }
    split; cbn; try done.
    + split; cbn; try done; [|by exists p|lia|rewrite map_size_fmap; pose proof (rejoined_size g); lia].
      apply map_Forall_fmap. intros id m [Hid _]%rejoined_lookup. destruct (Hm id m Hid) as [_ Hsy ? ?].
      split; try done. cbn. split; [done|by intros []].
    + intros _. apply map_Forall_fmap. by intros id m _.
    + split; [done|]. intros He%fmap_empty_iff. destruct (el_member _ _ _ Hel) as [m Hl]. by rewrite He in Hl.
    + intros _. split_and!; [done| |done]. exists l, p. split; try done. cbn. rewrite lookup_fmap. apply fmap_is_Some, Hel.
Qed.

Lemma join_answers_channels (ms : gmap string Member.t) n p l :
  channel_of <$> join_answers ms n p l
  = channel_of <$> omap (λ '(id, m), (λ tx, SendJoin tx (Ok (JoinOutcome.mk n p l id
      (if decide (id = l) then round_members ms p else [])))) <$> waiter true m) (hash_iter ms).
Proof. done. Qed.

Lemma rejoined_holds g id b tx : holds (rejoined g) id b tx → holds (Group.members g) id b tx.
Proof. intros (m & [Hm _]%rejoined_lookup & Hw). by exists m. Qed.

Lemma round_result_moves g now g' sends : group_ok g → round_result g now g' sends → moves None None g g' sends.
Proof.
  intros Hok Hr. destruct Hr as [|round Hr Hc He|round l p Hr Hc Hel].
  - apply moves_calm; try done; [|by left]. intros id m Hm. by exists m.
  - split.
    + by right.
    + intros id [[m Hk]|Hk]; [|left; by right]. cbn in Hk. by rewrite lookup_empty in Hk.
    + intros id b tx (m & Hk & _). cbn in Hk. by rewrite lookup_empty in Hk.
    + by intros tx ?%not_elem_of_nil.
    + intros _ _. split; [constructor|]. by intros tx id b ?%not_elem_of_nil.
  - assert (∀ id b tx, ¬ holds (Group.members (completed g now l p)) id b tx) as Hno.
    { intros id b tx (m' & Hid & Hw). cbn in Hid. apply lookup_fmap_Some in Hid as (m & <- & Hid).
      apply rejoined_lookup in Hid as [Hid _]. destruct b; [done|]. cbn in Hw.
      apply (preparing_no_syncs g id tx (gk_base _ Hok)); [|by exists m].
      assert (Group.state g = PreparingRebalance) as -> by (apply (gk_round _ Hok); by rewrite Hr). done. }
    split.
    + by right.
    + intros id [Hk|Hk]; left; [left|by right]. cbn in Hk. rewrite lookup_fmap, fmap_is_Some in Hk.
      destruct Hk as [m Hk]. apply rejoined_lookup in Hk as [Hk _]. by eexists.
    + intros id b tx Hh. by destruct (Hno id b tx).
    + intros tx Htx. left. rewrite join_answers_channels in Htx.
      apply (elem_of_waiters true (λ id _ tx, SendJoin tx _)) in Htx as [id Hh]; [|done].
      exists id, true. by apply rejoined_holds.
    + intros Hu _. split; [|by intros tx id b _; apply Hno]. rewrite join_answers_channels.
      apply (waiters_NoDup true (λ id _ tx, SendJoin tx _)); [|done]. intros id b id' b' tx H1%rejoined_holds H2%rejoined_holds.
      by eapply Hu.
Qed.
End groups.
