(* ===== verification/KafkaMembers.v ===== *)
(** What each request and each sweep does to a group: joining, the leader's assignment,
    parking on it, leaving and expiring. *)

From stdpp Require Import prelude strings list gmap pretty.
From Stdlib Require Import ZArith Lia.
From S2P Require Import Prelude Wire Flow KafkaGroups KafkaRounds.
#[local] Open Scope nat_scope.

Section groups.
Context {order : HashOrder} {order_laws : HashOrderLaws} {fmt : Fmt} (config : GroupConfig.t).
#[local] Abbreviation group_ok := (KafkaRounds.group_ok config).
#[local] Abbreviation group_base := (KafkaRounds.group_base config).

(** ** Joining *)

Lemma foldl_filter_supports (l : list (string * Member.t)) (names : list string) p :
  p ∈ foldl (λ common '(_, m), filter (λ name, Member.supports m name) common) names l ↔
  p ∈ names ∧ ∀ id m, (id, m) ∈ l → p ∈ (Member.protocols m).*1.
Proof.
  revert names. induction l as [|[id m] l IH]; intros names; simpl.
  { split; [intros Hp; split; [done|by intros ? ? ?%not_elem_of_nil]|by intros [? _]]. }
  rewrite IH, list_elem_of_filter, Is_true_true, supports_elem. setoid_rewrite elem_of_cons. split.
  - intros [[Hm Hp] Hl]. split; [done|]. intros id' m' [[= -> ->]|Hin]; [done|by eapply Hl].
  - intros [Hp Hl]. split_and!; [by apply (Hl id); left|done|]. intros id' m' Hin. apply (Hl id'). by right.
Qed.

Lemma elem_of_common g id names p :
  p ∈ common_protocols g id names ↔
  p ∈ names ∧ ∀ id' m, Group.members g !! id' = Some m → id' ≠ id → p ∈ (Member.protocols m).*1.
Proof.
  unfold common_protocols. rewrite foldl_filter_supports. setoid_rewrite list_elem_of_filter.
  setoid_rewrite elem_of_hash_iter. simpl. naive_solver.
Qed.

(** A join that the checks let through. *)
Record admissible (g : Group.t) (id : string) (request : JoinRequest.t) : Prop := {
  ad_session : (GroupConfig.min_session_timeout config <= JoinRequest.session_timeout request
                <= GroupConfig.max_session_timeout config)%N;
  ad_common : common_protocols g id (JoinRequest.protocols request).*1 ≠ [];
  ad_room : is_Some (Group.members g !! id) ∨
    size (Group.members g) + size (Group.minted g) < GroupConfig.max_members config;
}.

Section joining.
Context (g : Group.t) (id : string) (request : JoinRequest.t) (now : Instant) (tx : channel).
Context (Hok : group_ok g) (Had : admissible g id request).

Definition inserted : Group.t :=
  Group.mk (Group.generation g) (Group.state g) (Some (JoinRequest.protocol_type request))
    (Group.protocol_name g) (Group.leader g)
    (<[id := joined_member config g id request now tx]> (Group.members g))
    (Group.minted g) (Group.round g) (Group.sync_deadline g) (wrapping_add (Group.next_join_seq g) one).

Lemma inserted_base : group_base inserted.
Proof.
  destruct (gk_base _ _ Hok) as [Hm Hs Hp Hg Hn], Had as [Hsess Hcom Hroom]. split; cbn; try done.
  - apply map_Forall_insert_2; [|done]. split; cbn; try done; lia.
  - intros _. destruct (common_protocols g id (JoinRequest.protocols request).*1) as [|p ps] eqn:Hps; [done|].
    exists p. assert (p ∈ common_protocols g id (JoinRequest.protocols request).*1) as Hin by (rewrite Hps; by left).
    apply elem_of_common in Hin as [Hin Hall]. intros id' m [[<- <-]|[Hne Hid]]%lookup_insert_Some; [done|].
    by eapply Hall.
  - rewrite map_size_insert. destruct Hroom as [[m ->]|Hlt]; simpl; [done|].
    destruct (Group.members g !! id); simpl; lia.
Qed.

Lemma inserted_holds id' b tx' :
  holds (Group.members inserted) id' b tx' ↔
  (id' = id ∧ b = true ∧ tx' = tx) ∨ (id' ≠ id ∧ holds (Group.members g) id' b tx').
Proof.
  unfold holds. cbn. split.
  - intros (m & [[<- <-]|[Hne Hid]]%lookup_insert_Some & Hw); [left|right; split; [done|]; by exists m].
    destruct b; cbn in Hw; [by injection Hw as <-|done].
  - intros [(-> & -> & ->)|[Hne (m & Hm & Hw)]]; eexists; rewrite lookup_insert_Some; eauto.
Qed.

Definition superseded : list Send :=
  match Group.members g !! id ≫= Member.sync_waiter with
  | Some parked => [SendSync parked (Err ErrorCode.RebalanceInProgress)]
  | None => []
  end.

Lemma elem_of_superseded tx' : tx' ∈ channel_of <$> superseded ↔ holds (Group.members g) id false tx'.
Proof.
  unfold superseded, holds. destruct (Group.members g !! id) as [m|]; cbn; [|set_solver].
  destruct (Member.sync_waiter m) as [p|] eqn:Hw; cbn.
  - rewrite list_elem_of_singleton. naive_solver.
  - split; [by intros ?%not_elem_of_nil|]. naive_solver.
Qed.

Lemma inserted_moves w d :
  let g' := (begin_round inserted now w d).1 in
  moves (Some id) (Some (id, true, tx)) g g' (superseded ++ (begin_round inserted now w d).2) ∧ stays g g'.
Proof.
  cbv zeta. pose proof (gk_base _ _ Hok) as Hb. pose proof (gk_idle _ _ Hok) as Hi.
  assert (∀ id', known inserted id' → known g id' ∨ Some id = Some id') as Hk.
  { intros id' [[m Hid]|Hk]; [|left; by right]. cbn in Hid.
    apply lookup_insert_Some in Hid as [[<- _]|[_ Hid]]; [by right|left; left; by eexists]. }
  unfold begin_round. change (Group.state inserted) with (Group.state g).
  destruct (decide (Group.state g = PreparingRebalance)) as [Hst|Hst].
  - rewrite Hst. cbn [fst snd]. assert (superseded = []) as ->.
    { assert (∀ tx', tx' ∉ channel_of <$> superseded) as Hno.
      { intros tx' Hin%elem_of_superseded. revert Hin. by apply (preparing_no_syncs config g); [|by rewrite Hst]. }
      destruct superseded as [|s ss]; [done|]. destruct (Hno (channel_of s)). by left. }
    assert (stays g inserted) as Hstays.
    { split; [done|done|]. rewrite Hst. simpl. lia. }
    split; [|done]. split.
    + by left.
    + done.
    + intros id' b tx' [(-> & -> & ->)|[Hne Hh]]%inserted_holds; [by right|by left].
    + by intros tx' ?%not_elem_of_nil.
    + intros _ _. split; [constructor|]. by intros tx' id' b ?%not_elem_of_nil.
  - set (g' := Group.mk _ PreparingRebalance _ _ _ _ _ _ _ _).
    assert (stays g g') as Hstays.
    { split; [done|by destruct (Group.state g); simpl; lia|]. intros Heq Hlt. cbn in Heq. lia. }
    assert (∀ id' b tx', holds (Group.members g') id' b tx' → id' = id ∧ b = true ∧ tx' = tx) as Honly.
    { intros id' b tx' [-> Hh]%holds_released. apply (inserted_holds id' true tx') in Hh as [?|[_ Hh]]; [naive_solver|].
      by destruct (idle_no_joins config g id' tx' Hb Hi Hst). }
    assert (∀ tx', tx' ∈ channel_of <$> release_syncs (Group.members inserted) ↔
      ∃ id', id' ≠ id ∧ holds (Group.members g) id' false tx') as Hrel.
    { intros tx'. rewrite elem_of_release_syncs. setoid_rewrite inserted_holds. naive_solver. }
    assert (moves (Some id) (Some (id, true, tx)) g g' (superseded ++ release_syncs (Group.members inserted))) as Hmv.
    2: { by destruct (Group.state g). }
    split.
    + by left.
    + intros id' [Hk'|Hk']; apply Hk; [left|by right]. cbn in Hk'. by rewrite lookup_fmap, fmap_is_Some in Hk'.
    + intros id' b tx' (-> & -> & ->)%Honly. by right.
    + intros tx'. rewrite fmap_app, elem_of_app, elem_of_superseded, Hrel. intros [Hh|(id' & _ & Hh)]; left; eauto.
    + intros Hu Hf. split.
      * rewrite fmap_app. apply NoDup_app. split_and!.
        -- unfold superseded. destruct (_ ≫= _); [apply NoDup_singleton|constructor].
        -- intros tx' H1%elem_of_superseded (id' & Hne & H2)%Hrel. by destruct (Hu id' false id false tx').
        -- apply release_syncs_NoDup. intros i1 b1 i2 b2 tx'.
           intros [(-> & -> & ->)|[? H1]]%inserted_holds [(-> & -> & ?)|[? H2]]%inserted_holds; subst.
           ++ done.
           ++ by destruct (Hf id true tx i2 b2).
           ++ by destruct (Hf id true tx i1 b1).
           ++ by eapply Hu.
      * intros tx' id' b Hin (-> & -> & ->)%Honly. destruct (Hf id true tx id false eq_refl).
        rewrite fmap_app, elem_of_app, elem_of_superseded, Hrel in Hin. destruct Hin as [Hh|(id' & _ & Hh)]; [done|].
        by destruct (Hf id true tx id' false eq_refl).
Qed.
Lemma extend_window_ok is_new g0 : group_ok g0 → group_ok (extend_window config is_new now g0).
Proof.
  intros H0. unfold extend_window. destruct (Group.round g0) as [r|] eqn:Hr; [|done]. case_decide; [|done].
  apply (group_ok_same config g0); cbn; try done. apply H0.
Qed.

Lemma extend_window_moves is_new g0 :
  moves None None g0 (extend_window config is_new now g0) [] ∧ stays g0 (extend_window config is_new now g0).
Proof.
  unfold extend_window. destruct (Group.round g0) as [r|] eqn:Hr; [case_decide|].
  all: apply moves_calm; try done; try (by left); try (intros id' m Hm; by exists m).
  intros []; [cbn|done]. by rewrite Hr.
Qed.

(** Enrolling a member parks its request until the round's deadline. *)
Lemma enroll_spec :
  ∃ g' sends d, enroll config g id request now tx = Some (g', sends, d) ∧ group_ok g' ∧
    moves (Some id) (Some (id, true, tx)) g g' sends ∧
    (holds (Group.members g') id true tx → deadline_of true g' = Some d).
Proof.
  unfold enroll. fold superseded. fold inserted. cbv zeta.
  set (w := bool_decide (Group.members g = ∅)). set (delay := GroupConfig.initial_rebalance_delay config).
  destruct (begin_round_ok config inserted now w delay) as [Hok2 Hst2];
    [apply inserted_base|cbn; apply insert_non_empty|].
  pose proof (inserted_moves w delay) as [Hmv2 Hsy2]. cbv zeta in Hmv2, Hsy2.
  destruct (begin_round inserted now w delay) as [g2 released]. cbn [fst snd] in *.
  set (is_new := bool_decide _). pose proof (extend_window_ok is_new g2 Hok2) as Hok3.
  destruct (extend_window_moves is_new g2) as [Hmv3 Hsy3].
  set (g3 := extend_window config is_new now g2) in *.
  destruct (maybe_complete_result config g3 now Hok3) as (g4 & answers & -> & Hres). cbn [mbind option_bind].
  exists g4, (superseded ++ released ++ answers). eexists. split; [done|]. split; [by eapply round_result_ok|]. split.
  - rewrite (assoc_L (++)). eapply moves_trans; [|by eapply stays_trans|by eapply round_result_moves].
    rewrite <-(app_nil_r (superseded ++ released)). by eapply moves_trans.
  - intros Hh. destruct (mv_held _ _ _ _ _ (round_result_moves config _ _ _ _ Hok3 Hres) _ _ _ Hh) as [[_ ->]|[=]].
    assert (Group.state g3 = PreparingRebalance) as Hst3.
    { unfold g3, extend_window. destruct (Group.round g2); [case_decide|]; done. }
    destruct (gb_preparing _ _ (gk_base _ _ Hok3) Hst3) as [[r Hr] _]. cbn. by rewrite Hr.
Qed.
End joining.

(** The id a request may bring into the group. *)
Definition minted_by (request : JoinRequest.t) (uuid : Uuid) : option string :=
  if decide (JoinRequest.member_id request = "") then Some (mint (JoinRequest.client_id request) uuid) else None.

Lemma moves_set_minted fid ftx id g minted g' sends :
  moves (Some id) ftx (Group.set_minted minted g) g' sends →
  (∀ k, is_Some (minted !! k) → known g k ∨ fid = Some k) → known g id ∨ fid = Some id →
  moves fid ftx g g' sends.
Proof.
  intros [Hp Hk Hh Hs Ho] Hm Hid. split; try done.
  - destruct Hp as [Hst|Hb]; [left|by right]. destruct Hst as [? ? ?]. by split.
  - intros k Hk'. destruct (Hk k Hk') as [[Hk1|Hk1]|[= <-]]; [left; by left|by apply Hm|done].
Qed.

Lemma set_minted_ok g minted :
  group_ok g → size (Group.members g) + size minted <= GroupConfig.max_members config →
  group_ok (Group.set_minted minted g).
Proof.
  intros Hok Hsz. by apply (group_ok_same config g).
Qed.

Lemma unexpired_known now (minted : gmap string Instant) k : is_Some (unexpired now minted !! k) → is_Some (minted !! k).
Proof. intros [t [? _]%map_lookup_filter_Some]. by eexists. Qed.
Lemma unexpired_size now (minted : gmap string Instant) : size (unexpired now minted) <= size minted.
Proof. apply map_subseteq_size, map_filter_subseteq. Qed.

(** Who is admitted: the group keeps its invariant, and there is room for the id. *)
Lemma admit_member_spec g0 g request uuid now :
  group_ok g0 → g = Group.set_minted (unexpired now (Group.minted g0)) g0 →
  ∃ minted, (admit_member config g request uuid now).1 = Group.set_minted minted g0 ∧
    group_ok (Group.set_minted minted g0) ∧
    (∀ k, is_Some (minted !! k) → known g0 k ∨ minted_by request uuid = Some k) ∧
    ∀ id, (admit_member config g request uuid now).2 = Welcome id →
      (known g0 id ∨ minted_by request uuid = Some id) ∧
      (is_Some (Group.members g0 !! id) ∨ size (Group.members g0) + size minted < GroupConfig.max_members config).
Proof.
  intros Hok ->. unfold admit_member, minted_by. cbv zeta. cbn [Group.members Group.minted Group.set_minted].
  pose proof (unexpired_size now (Group.minted g0)) as Hsz. pose proof (gb_size _ _ (gk_base _ _ Hok)) as Hmax.
  assert (∀ k, is_Some (unexpired now (Group.minted g0) !! k) → known g0 k ∨ minted_by request uuid = Some k) as Hun
    by (intros k Hk%unexpired_known; left; by right).
  unfold minted_by in Hun.
  assert (group_ok (Group.set_minted (unexpired now (Group.minted g0)) g0)) as Hok1 by (apply set_minted_ok; [done|lia]).
  set (minted := unexpired now (Group.minted g0)) in *.
  case_decide as Hid; [|case_decide as Hmem; [|case_decide as Hmin]].
  - case_decide as Hfull; [by exists minted|]. destruct (JoinRequest.require_member_id request); cbn [fst snd].
    + eexists. split; [done|]. split.
      * apply set_minted_ok; [done|]. rewrite map_size_insert.
        destruct (minted !! mint _ _); simpl; lia.
      * split; [|done]. intros k [t [[<- _]|[_ Hk]]%lookup_insert_Some]; [by right|]. apply Hun. by eexists.
    + exists minted. split_and!; [done|done|done|]. intros id [= <-]. split; [by right|]. right. lia.
  - exists minted. split_and!; [done|done|done|]. intros id [= <-]. split; [left; by left|by left].
  - assert (size minted = S (size (delete (JoinRequest.member_id request) minted))) as Hdel.
    { rewrite map_size_delete. destruct Hmin as [t Ht]. rewrite Ht. simpl.
      assert (size minted ≠ 0); [|lia]. intros He%map_size_empty_iff. by rewrite He in Ht. }
    assert (∀ k, is_Some (delete (JoinRequest.member_id request) minted !! k) → known g0 k ∨ None = Some k) as Hdk.
    { intros k [t [_ Hk]%lookup_delete_Some]. apply Hun. by eexists. }
    assert (group_ok (Group.set_minted (delete (JoinRequest.member_id request) minted) g0)) as Hok2
      by (apply set_minted_ok; [done|lia]).
    case_decide; (eexists; split; [done|]); (split_and!; [done|done|]); [done|].
    intros id [= <-]. split; [left; right; by apply unexpired_known in Hmin|]. right. lia.
  - by exists minted.
Qed.

(** ** Members seen, assigned and parked *)

Lemma seen_lookup (ms : gmap string Member.t) id now id' m' :
  alter (Member.set_last_seen now) id ms !! id' = Some m' →
  ∃ m, ms !! id' = Some m ∧ (m' = m ∨ m' = Member.set_last_seen now m).
Proof. intros [(-> & m & ? & ->)|[? ?]]%lookup_alter_Some; eauto. Qed.

Lemma seen_spec g id now :
  group_ok g →
  let g' := Group.set_members (alter (Member.set_last_seen now) id (Group.members g)) g in
  group_ok g' ∧ moves None None g g' [] ∧ stays g g'.
Proof.
  intros Hok g'. split; [|apply moves_calm; try done].
  - assert (∀ (P : Member.t → Prop), (∀ m, P m → P (Member.set_last_seen now m)) →
      map_Forall (λ _ m, P m) (Group.members g) → map_Forall (λ _ m, P m) (Group.members g')) as Hall.
    { intros P Hset HP id' m' (m & Hm & [->| ->])%seen_lookup; [|apply Hset]; by eapply HP. }
    assert (∀ l p, chosen g l p → chosen g' l p) as Hch.
    { intros l p [? [m Hm] ? ?]. split; try done; [cbn; by rewrite lookup_alter_is_Some, Hm|]. by apply Hall. }
    assert (Group.members g' = ∅ ↔ Group.members g = ∅) as Hem 
      by (cbn; rewrite !map_empty; by setoid_rewrite lookup_alter_None).
    destruct Hok as [[Hm Hs ? ? ?] Hi ? ? Hc Hst]. split; [split|..]; try done.
    + apply (Hall (member_ok config (Group.state g))); [|done]. intros m [? ? ? ?]. by split.
    + intros Hne. destruct Hs as [p Hp]; [by rewrite <-Hem|]. exists p. by apply Hall.
    + cbn. by rewrite <-size_dom, dom_alter_L, size_dom.
    + intros H1. apply (Hall (λ m, Member.in_round m = false)); [done|]. by apply Hi.
    + by rewrite Hem.
    + intros H1. destruct (Hc H1) as (? & (l & p & ?) & ?). eauto 10.
    + intros H1. destruct (Hst H1) as (? & (l & p & ?) & ? & ?). split_and!; [done|by eauto|done|]. by apply Hall.
  - intros id' m' (m & Hm & [->| ->])%seen_lookup; by exists m.
  - intros id' [Hk|Hk]; left; [left|by right]. cbn in Hk. by rewrite lookup_alter_is_Some in Hk.
Qed.

Lemma apply_assignments_lookup g assignments clock id m' :
  Group.members (apply_assignments g assignments clock).1 !! id = Some m' ↔
  ∃ m, Group.members g !! id = Some m ∧
    m' = Member.mk (Member.session_timeout m) (Member.rebalance_timeout m) (clock id) (Member.joined_at m)
      (Member.protocols m) (Some (default [] ((list_to_map (reverse assignments) : gmap string (list u8)) !! id)))
      (Member.in_round m) (Member.join_waiter m) None.
Proof.
  cbn. rewrite map_lookup_imap. destruct (Group.members g !! id) as [m|]; cbn; [|naive_solver].
  split; [intros [= <-]; by exists m|]. intros (m1 & [= <-] & ->). done.
Qed.

(** The leader's assignment ends the wait of everybody parked on it. *)
Lemma apply_assignments_spec g assignments clock :
  group_ok g → Group.state g = CompletingRebalance →
  let g' := (apply_assignments g assignments clock).1 in
  group_ok g' ∧ moves None None g g' (apply_assignments g assignments clock).2 ∧ stays g g'.
Proof.
  intros Hok Hst g'. set (sends := (apply_assignments g assignments clock).2).
  pose proof (gk_base _ _ Hok) as Hb. pose proof (gk_idle _ _ Hok) as Hi.
  assert (∀ id m', Group.members g' !! id = Some m' → ∃ m, Group.members g !! id = Some m ∧
    Member.protocols m' = Member.protocols m ∧ Member.in_round m' = Member.in_round m ∧
    Member.join_waiter m' = Member.join_waiter m ∧ Member.sync_waiter m' = None ∧ is_Some (Member.assignment m') ∧
    Member.session_timeout m' = Member.session_timeout m ∧ Member.rebalance_timeout m' = Member.rebalance_timeout m) as Hl.
  { intros id m' (m & Hm & ->)%apply_assignments_lookup. exists m. by eauto 10. }
  assert (∀ id, is_Some (Group.members g !! id) → is_Some (Group.members g' !! id)) as Hdom.
  { intros id [m Hm]. eexists. apply apply_assignments_lookup. by exists m. }
  assert (∀ id b tx, ¬ holds (Group.members g') id b tx) as Hno.
  { intros id b tx (m' & Hm' & Hw). destruct (Hl id m' Hm') as (m & Hm & _ & _ & Hj & Hs & _). destruct b; cbn in Hw; [|congruence].
    apply (idle_no_joins config g id tx Hb Hi); [by rewrite Hst|]. exists m. split; [done|]. cbn. congruence. }
  assert (stays g g') as Hstays by (split; [done|cbn; rewrite Hst; simpl; lia|cbn; by rewrite Hst]).
  destruct (gk_completing _ _ Hok Hst) as (_ & (l & p & Hch) & Hgen).
  assert (∀ q, shared (Group.members g) q → shared (Group.members g') q) as Hsh.
  { intros q Hq id m' Hm'. destruct (Hl id m' Hm') as (m & Hm & Hp & _). rewrite Hp. by apply (Hq id). }
  assert (Group.members g' = ∅ ↔ Group.members g = ∅) as Hem.
  { rewrite !map_empty. split; intros He id; specialize (He id); rewrite eq_None_not_Some in *.
    - intros ?%Hdom. done.
    - intros [m' Hm']. destruct (Hl id m' Hm') as (m & Hm & _). apply He. by eexists. }
  assert (Group.members g ≠ ∅) as Hne by (intros He; apply (gk_empty _ _ Hok) in He; congruence).
  split_and!; [|split|done].
  - destruct Hok as [[Hm Hs ? ? Hn] _ ? ? _ _]. split; [split|..]; try done.
    + intros id m' Hm'. destruct (Hl id m' Hm') as (m & Hid & _ & Hr & Hj & Hsw & _ & Hse & Hrb).
      destruct (Hm id m Hid) as [Hjo _ ? ?]. split; [by rewrite Hr, Hj|by rewrite Hsw; intros []|by rewrite Hse|by rewrite Hrb].
    + intros _. exists p. apply Hsh, Hch.
    + assert (dom (Group.members g') = dom (Group.members g)) as Hd.
      { apply set_eq. intros id. rewrite !elem_of_dom. split; [|apply Hdom]. intros [m' Hm'].
        destruct (Hl id m' Hm') as (m & Hid & _). by eexists. }
      rewrite <-size_dom, Hd, size_dom. done.
    + intros _ id m' Hm'. destruct (Hl id m' Hm') as (m & Hid & _ & Hr & _). rewrite Hr. apply (Hi ltac:(by rewrite Hst) id m Hid).
    + split; [done|]. intros He. by apply Hem in He.
    + intros Hr. cbn in Hr. assert (Group.state g = PreparingRebalance) by auto. congruence.
    + intros _. split_and!; [done| |done|].
      * exists l, p. destruct Hch as [? ? ? ?]. split; [done|by apply Hdom|done|by apply Hsh].
      * intros id m' Hm'. destruct (Hl id m' Hm') as (m & _ & _ & _ & _ & _ & ? & _). done.
  - by left.
  - intros id [[m' Hk]|Hk]; left; [left|by right]. destruct (Hl id m' Hk) as (m & ? & _). by eexists.
  - intros id b tx Hh. by destruct (Hno id b tx).
  - intros tx Htx. left. apply (elem_of_waiters false (λ id _ tx, SendSync tx _)) in Htx as [id Hh]; [|done]. by exists id, false.
  - intros Hu _. split; [|by intros tx id b _; apply Hno]. by apply (waiters_NoDup false (λ id _ tx, SendSync tx _)).
Qed.

(** A follower parks until the leader's deadline. *)
Lemma park_spec g id m now tx :
  group_ok g → Group.state g = CompletingRebalance → Group.members g !! id = Some m →
  let m' := Member.set_sync_waiter (Some tx) (Member.set_last_seen now m) in
  let g' := Group.set_members (<[id := m']> (Group.members g)) g in
  group_ok g' ∧ moves None (Some (id, false, tx)) g g' [] ∧ stays g g'.
Proof.
  intros Hok Hst Hm m' g'.
  assert (stays g g') as Hstays.
  { split; [done|done|]. intros _ _. split_and!; [done|done|]. intros id' m2 Hid. cbn in Hid.
    apply lookup_insert_Some in Hid as [[<- <-]|[_ Hid]]; [by exists m|by exists m2]. }
  assert (∀ (P : Member.t → Prop), (P m → P m') →
      map_Forall (λ _ m, P m) (Group.members g) → map_Forall (λ _ m, P m) (Group.members g')) as Hall.
  { intros P Hset HP. apply map_Forall_insert_2; [|done]. by apply Hset, (HP id). }
  split_and!; [|split|done].
  - destruct Hok as [[Hms Hs ? ? Hn] Hi He ? Hc _]. split; [split|..]; try done.
    + apply (Hall (member_ok config (Group.state g))); [|done]. intros [? ? ? ?]. by split.
    + intros _. destruct Hs as [p Hp]; [|exists p; by apply Hall]. intros Hem. by rewrite Hem in Hm.
    + cbn. by rewrite map_size_insert, Hm.
    + intros H1. apply (Hall (λ m, Member.in_round m = false)); [done|]. by apply Hi.
    + cbn. rewrite Hst. split; [done|]. by intros ?%insert_non_empty.
    + intros H1. destruct (Hc H1) as (? & (l & p & [? [ml Hml] ? ?]) & ?). split_and!; [done| |done].
      exists l, p. split; try done; [cbn; rewrite lookup_insert_is_Some; destruct (decide (id = l)); eauto|]. by apply Hall.
    + cbn. by rewrite Hst.
  - by left.
  - intros id' [[m2 Hk]|Hk]; left; [left|by right]. cbn in Hk.
    apply lookup_insert_Some in Hk as [[<- _]|[_ Hk]]; by eexists.
  - intros id' b tx' (m2 & Hid & Hw). cbn in Hid. apply lookup_insert_Some in Hid as [[<- <-]|[Hne Hid]].
    + destruct b; cbn in Hw; [|right; by injection Hw as <-]. left. split; [|done]. by exists m.
    + left. split; [|done]. by exists m2.
  - by intros tx' ?%not_elem_of_nil.
  - intros _ _. split; [constructor|]. by intros tx' id' b ?%not_elem_of_nil.
Qed.

(** ** Leaving and expiring *)

Lemma begin_round_members g now w d id :
  is_Some (Group.members (begin_round g now w d).1 !! id) → is_Some (Group.members g !! id).
Proof. unfold begin_round. destruct (Group.state g); cbn; rewrite ?lookup_fmap, ?fmap_is_Some; done. Qed.

Lemma member_left_members g now d id :
  is_Some (Group.members (member_left g now d).1 !! id) → is_Some (Group.members g !! id).
Proof.
  unfold member_left. repeat case_decide; cbn [fst]; try done. intros Hm%begin_round_members. cbn in Hm.
  by rewrite lookup_fmap, fmap_is_Some in Hm.
Qed.

Lemma begin_round_state g now w d : Group.state (begin_round g now w d).1 = PreparingRebalance.
Proof. unfold begin_round. by destruct (Group.state g) eqn:Hst. Qed.

Lemma member_left_state g now d : Group.state (member_left g now d).1 ≠ CompletingRebalance.
Proof.
  unfold member_left. repeat case_decide; cbn [fst]; try done; [by rewrite begin_round_state|].
  destruct (Group.state g); naive_solver.
Qed.

(** A member expelled and the group told. *)
Lemma expel_left_spec id e g now d :
  loose config g →
  let '(g1, parked) := expel id e g in
  let '(g2, released) := member_left g1 now d in
  group_ok g2 ∧ moves None None g g2 (parked ++ released) ∧ stays g g2 ∧ Group.state g2 ≠ CompletingRebalance ∧
  (∀ id', is_Some (Group.members g2 !! id') → id' ≠ id ∧ is_Some (Group.members g !! id')).
Proof.
  intros Hl. destruct (expel_spec config id e g Hl) as (Hl1 & Hm1 & Hs1).
  assert (∀ id', is_Some (Group.members (expel id e g).1 !! id') → id' ≠ id ∧ is_Some (Group.members g !! id')) as Hd1.
  { intros id' [m Hm]. cbn in Hm. apply lookup_delete_Some in Hm as [? ?]. split; [done|by eexists]. }
  destruct (expel id e g) as [g1 parked]. cbn [fst snd] in *.
  destruct (member_left_spec config g1 now d Hl1) as (Hok2 & Hm2 & Hs2).
  pose proof (member_left_members g1 now d) as Hd2. pose proof (member_left_state g1 now d) as Hst2.
  destruct (member_left g1 now d) as [g2 released]. cbn [fst snd] in *.
  split_and!; [done|by eapply moves_trans|by eapply stays_trans|done|by auto].
Qed.

Lemma expire_members_spec now ids g :
  group_ok g →
  let '(g', sends) := expire_members config now ids g in
  group_ok g' ∧ moves None None g g' sends ∧ stays g g' ∧ (Group.state g' = CompletingRebalance → g' = g) ∧
  (∀ id, is_Some (Group.members g' !! id) → id ∉ ids ∧ is_Some (Group.members g !! id)).
Proof.
  revert g. induction ids as [|id ids IH]; intros g Hok; cbn [expire_members].
  { destruct (moves_calm None g g) as [? ?]; try done; [intros id m Hm; by exists m|by left|].
    split_and!; try done. intros id Hid. split; [apply not_elem_of_nil|done]. }
  pose proof (expel_left_spec id ErrorCode.UnknownMemberId g now (GroupConfig.initial_rebalance_delay config)
    (ok_loose _ _ Hok)) as H1.
  destruct (expel id _ g) as [g1 parked]. destruct (member_left g1 now _) as [g2 released].
  destruct H1 as (Hok2 & Hm2 & Hs2 & Hst2 & Hd2). specialize (IH g2 Hok2).
  destruct (expire_members config now ids g2) as [g3 sends]. destruct IH as (Hok3 & Hm3 & Hs3 & Hc3 & Hd3).
  cbn beta iota. split_and!; [done| |by eapply stays_trans| |].
  - rewrite (assoc_L (++)). by eapply moves_trans.
  - intros Hst. rewrite (Hc3 Hst) in Hst. done.
  - intros id' Hid. destruct (Hd3 id' Hid) as [Hn Hi]. destruct (Hd2 id' Hi) as [Hne Hi'].
    split; [by rewrite not_elem_of_cons|done].
Qed.

Lemma set_sync_deadline_loose g x :
  loose config g → Group.state g = CompletingRebalance → loose config (Group.set_sync_deadline x g).
Proof. intros [[? ? ? ? ?] Hi] Hst. split; [split; try done; cbn; by rewrite Hst|done]. Qed.

Lemma expire_leader_spec now g :
  group_ok g →
  let '(g', sends) := expire_leader config now g in
  group_ok g' ∧ moves None None g g' sends ∧ stays g g' ∧
  (Group.state g' = CompletingRebalance → ∀ d, Group.sync_deadline g' = Some d → (now <= d)%N) ∧
  (∀ id, is_Some (Group.members g' !! id) → is_Some (Group.members g !! id)).
Proof.
  intros Hok. unfold expire_leader.
  assert (moves None None g g [] ∧ stays g g) as [Hm0 Hs0]
    by (apply moves_calm; try done; [intros id m Hm; by exists m|by left]).
  destruct (Group.sync_deadline g) as [dl|] eqn:Hd; [|by split_and!; try done; rewrite Hd].
  case_decide as Hlate.
  2: { split_and!; try done. intros Hst d. rewrite Hd. intros [= <-]. destruct (decide (dl < now)%N) as [?|?]; [naive_solver|lia]. }
  destruct Hlate as [Hst Hlt]. destruct (gk_completing _ _ Hok Hst) as (_ & (l & p & Hch) & _).
  rewrite (ch_leader _ _ _ Hch).
  destruct (expel_spec config l ErrorCode.RebalanceInProgress g (ok_loose _ _ Hok)) as (Hl1 & Hm1 & Hs1).
  assert (∀ id, is_Some (Group.members (expel l ErrorCode.RebalanceInProgress g).1 !! id) → is_Some (Group.members g !! id)) as Hd1.
  { intros id [m Hm]. cbn in Hm. apply lookup_delete_Some in Hm as [_ ?]. by eexists. }
  assert (Group.state (expel l ErrorCode.RebalanceInProgress g).1 = CompletingRebalance) as Hst1 by done.
  destruct (expel l ErrorCode.RebalanceInProgress g) as [g1 parked]. cbn [fst snd] in *.
  pose proof (set_sync_deadline_loose g1 None Hl1 Hst1) as Hl2.
  destruct (member_left_spec config (Group.set_sync_deadline None g1) now (GroupConfig.initial_rebalance_delay config) Hl2)
    as (Hok2 & Hm2 & Hs2).
  pose proof (member_left_members (Group.set_sync_deadline None g1) now (GroupConfig.initial_rebalance_delay config)) as Hd2.
  pose proof (member_left_state (Group.set_sync_deadline None g1) now (GroupConfig.initial_rebalance_delay config)) as Hst2.
  destruct (member_left _ now _) as [g2 released]. cbn [fst snd] in *.
  assert (stays g1 g2) as Hs12 by (destruct Hs2 as [? ? ?]; by split).
  split_and!; [done| |by eapply stays_trans|done|by auto].
  eapply moves_trans; [done|done|]. destruct Hm2 as [Hp Hk Hh Hse Ho]. split; try done; [by left|].
  intros id b tx Hh2. destruct (Hh id b tx Hh2) as [[Hh1 Heq]|[=]]. left. split; [done|].
  (* no parked sync outlives the round *)
  exfalso. destruct b.
  - by apply (idle_no_joins config g1 id tx (proj1 Hl1) (proj2 Hl1)); [rewrite Hst1|].
  - by apply (preparing_no_syncs config g2 id tx (gk_base _ _ Hok2)).
Qed.

(** A sweep of a group: nobody waits past a deadline, and whoever lapsed is out. *)
Lemma sweep_group_spec now g :
  group_ok g → ∃ g' sends, sweep_group config now g = Some (g', sends) ∧ group_ok g' ∧ moves None None g g' sends ∧
    (∀ d, deadline_of true g' = Some d → (now < d)%N) ∧
    (Group.state g' = CompletingRebalance → ∀ d, Group.sync_deadline g' = Some d → (now <= d)%N) ∧
    (∀ id, is_Some (Group.members g' !! id) →
       ∃ m, Group.members g !! id = Some m ∧ lapsed g now m = false).
Proof.
  intros Hok. unfold sweep_group. cbv zeta. set (g0 := Group.set_minted (unexpired now (Group.minted g)) g).
  assert (group_ok g0) as Hok0.
  { apply set_minted_ok; [done|]. pose proof (gb_size _ _ (gk_base _ _ Hok)). pose proof (unexpired_size now (Group.minted g)). lia. }
  destruct (moves_calm None g g0) as [Hm0 Hs0]; try done.
  { intros id m Hm. by exists m. }
  { intros id [Hk|Hk]; left; [by left|right]. by apply unexpired_known in Hk. }
  set (gone := (filter _ _).*1). pose proof (expire_leader_spec now g0 Hok0) as H1.
  destruct (expire_leader config now g0) as [g1 first]. destruct H1 as (Hok1 & Hm1 & Hs1 & Hc1 & Hd1).
  pose proof (expire_members_spec now gone g1 Hok1) as H2.
  destruct (expire_members config now gone g1) as [g2 second]. destruct H2 as (Hok2 & Hm2 & Hs2 & Hc2 & Hd2).
  destruct (maybe_complete_result config g2 now Hok2) as (g3 & third & -> & Hres). cbn [mbind option_bind].
  exists g3, (first ++ second ++ third).
  pose proof (round_result_moves config _ _ _ _ Hok2 Hres) as Hm3.
  split; [done|]. split; [by eapply round_result_ok|]. split_and!.
  - change (first ++ second ++ third) with ([] ++ (first ++ second ++ third)).
    eapply moves_trans; [done|done|]. rewrite (assoc_L (++)). eapply moves_trans; [|by eapply stays_trans|done].
    by eapply moves_trans.
  - intros d Hd. destruct Hres as [Hw| |]; [|done..]. cbn in Hd.
    destruct (Group.round g2) as [r|] eqn:Hr; [|done]. injection Hd as <-. specialize (Hw r eq_refl).
    unfold completes in Hw. apply orb_false_iff in Hw as [Hw%bool_decide_eq_false _]. lia.
  - intros Hst d Hd. destruct Hres as [Hw| |]; [|done|].
    + pose proof (Hc2 Hst) as Heq. rewrite Heq in Hst, Hd. by eapply Hc1.
    + cbn in Hd. injection Hd as <-. lia.
  - intros id Hid. assert (is_Some (Group.members g2 !! id)) as Hid2.
    { destruct Hres as [| |]; [done|cbn in Hid; by rewrite lookup_empty in Hid; destruct Hid|].
      cbn in Hid. rewrite lookup_fmap, fmap_is_Some in Hid. destruct Hid as [m Hid].
      apply rejoined_lookup in Hid as [? _]. by eexists. }
    destruct (Hd2 id Hid2) as [Hn Hid1]. destruct (Hd1 id Hid1) as [m Hm]. exists m. split; [done|].
    destruct (lapsed g now m) eqn:Hl; [|done]. destruct Hn. unfold gone. apply list_elem_of_fmap. exists (id, m).
    split; [done|]. apply list_elem_of_filter. split; [done|]. by apply elem_of_hash_iter.
Qed.
End groups.
