(* ===== verification/KafkaCoordinator.v ===== *)
(** Runs of the group coordinator: its invariant over any requests and sweeps, the fencing
    of members the group has left behind, the one assignment of a generation, and the bound
    on every wait. *)

From stdpp Require Import prelude strings list gmap pretty.
From Stdlib Require Import ZArith Lia.
From S2P Require Import Prelude Wire Flow KafkaGroups KafkaRounds KafkaMembers.
#[local] Open Scope nat_scope.

Section coordinator.
Context {order : HashOrder} {order_laws : HashOrderLaws} {fmt : Fmt}.

(** ** Requests *)

Inductive Request :=
  | AskJoin (request : JoinRequest.t) (uuid : Uuid) (now : Instant)
  | AskSync (group_id : string) (generation : i32) (member_id : string) (assignments : list (string * list u8))
      (now : Instant) (clock : string → Instant)
  | RefuseAssignment (group_id : string) (generation : i32) (member_id : string) (now : Instant)
  | AskHeartbeat (group_id : string) (generation : i32) (member_id : string) (now : Instant)
  | AskLeave (group_id member_id : string) (now : Instant)
  | AskCommit (group_id : string) (generation : i32) (member_id : string) (now : Instant)
  | Sweep (now : Instant)
  | Shutdown.

Definition serve (c : Coordinator.t) (r : Request) : option Coordinator.t :=
  match r with
  | AskJoin request uuid now => fst <$> join c request uuid now
  | AskSync group_id generation member_id assignments now clock =>
      Some (sync c group_id generation member_id assignments now clock).1
  | RefuseAssignment group_id generation member_id now => Some (assignment_refused c group_id generation member_id now)
  | AskHeartbeat group_id generation member_id now => Some (heartbeat c group_id generation member_id now).1
  | AskLeave group_id member_id now => Some (leave c group_id member_id now).1
  | AskCommit group_id generation member_id now => Some (check_commit c group_id generation member_id now).1
  | Sweep now => sweep c now
  | Shutdown => Some (shutdown c)
  end.
Fixpoint serve_all (c : Coordinator.t) (rs : list Request) : option Coordinator.t :=
  match rs with
  | [] => Some c
  | r :: rs => c ← serve c r; serve_all c rs
  end.

(** The member id a request mints. *)
Definition mints (r : Request) : option string :=
  match r with AskJoin request uuid _ => minted_by request uuid | _ => None end.

(** ** The invariant *)

Definition waits (c : Coordinator.t) (gid id : string) (b : bool) (tx : channel) : Prop :=
  ∃ g, Coordinator.groups c !! gid = Some g ∧ holds (Group.members g) id b tx.
Definition answered (c : Coordinator.t) : list channel := channel_of <$> Coordinator.sent c.

Record coordinator_ok (c : Coordinator.t) : Prop := {
  ck_groups : map_Forall (λ _ g, group_ok (Coordinator.config c) g) (Coordinator.groups c);
  ck_size : size (Coordinator.groups c) <= GroupConfig.max_groups (Coordinator.config c);
  ck_closed : Coordinator.closed c = true → Coordinator.groups c = ∅;
  ck_unique gid id b gid' id' b' tx :
    waits c gid id b tx → waits c gid' id' b' tx → gid = gid' ∧ id = id' ∧ b = b';
  ck_waiting gid id b tx : waits c gid id b tx → tx < Coordinator.next_channel c ∧ tx ∉ answered c;
  ck_answered : Forall (λ tx, tx < Coordinator.next_channel c) (answered c);
  ck_once : NoDup (answered c);
}.

Lemma new_coordinator_ok config : coordinator_ok (Coordinator.new config).
Proof.
  assert (∀ gid id b tx, ¬ waits (Coordinator.new config) gid id b tx) as Hno
    by (intros gid id b tx (g & Hg & _); cbn in Hg; by rewrite lookup_empty in Hg).
  split; cbn; try done.
  - rewrite map_size_empty. lia.
  - intros gid id b gid' id' b' tx Hw. by apply Hno in Hw.
  - intros gid id b tx Hw. by apply Hno in Hw.
  - constructor.
Qed.

(** What a step does to one group; a group that is not there is a new one. *)
Definition group_at (c : Coordinator.t) (gid : string) : Group.t := default Group.new (Coordinator.groups c !! gid).
Definition group_step (fid : option string) (c c' : Coordinator.t) (gid : string) : Prop :=
  Coordinator.groups c' !! gid = None ∨
  ∃ g' ftx sends, Coordinator.groups c' !! gid = Some g' ∧ moves fid ftx (group_at c gid) g' sends ∧
    (∀ id b tx, ftx = Some (id, b, tx) → Coordinator.next_channel c <= tx).

Lemma group_at_ok c gid : coordinator_ok c → group_ok (Coordinator.config c) (group_at c gid).
Proof.
  intros Hok. unfold group_at. destruct (Coordinator.groups c !! gid) as [g|] eqn:Hg; [|apply new_ok].
  by apply (ck_groups _ Hok gid).
Qed.

Lemma group_at_waits c gid id b tx : holds (Group.members (group_at c gid)) id b tx ↔ waits c gid id b tx.
Proof.
  unfold group_at, waits. destruct (Coordinator.groups c !! gid) as [g|]; cbn; [|split].
  - naive_solver.
  - intros (m & Hm & _). by rewrite lookup_empty in Hm.
  - by intros (g & [=] & _).
Qed.

Lemma group_at_unique c gid : coordinator_ok c → unique (Group.members (group_at c gid)).
Proof. intros Hok id b id' b' tx H1%group_at_waits H2%group_at_waits. by apply (ck_unique _ Hok gid id b gid id' b' tx). Qed.

Lemma group_step_refl fid c gid : group_step fid c c gid.
Proof.
  destruct (Coordinator.groups c !! gid) as [g|] eqn:Hg; [right|by left]. exists g, None, []. split; [done|].
  unfold group_at. rewrite Hg. split; [|done].
  apply moves_calm; try done; [intros id m Hm; by exists m|by left].
Qed.

(** A step that replaces one group and may take a channel. *)
Lemma update_group_ok c gid g' sends fid (park : bool) ftx :
  coordinator_ok c → group_ok (Coordinator.config c) g' → moves fid ftx (group_at c gid) g' sends →
  match ftx with Some (_, _, tx) => park = true ∧ tx = Coordinator.next_channel c | None => True end →
  is_Some (Coordinator.groups c !! gid) ∨
    (Coordinator.closed c = false ∧ size (Coordinator.groups c) < GroupConfig.max_groups (Coordinator.config c)) →
  let c' := update_group (if park then take_channel c else c) gid g' sends in
  coordinator_ok c' ∧ ∀ gid', group_step fid c c' gid'.
Proof.
  intros Hok Hg' Hmv Hftx Hroom c'.
  assert (Coordinator.config c' = Coordinator.config c ∧ Coordinator.closed c' = Coordinator.closed c ∧
    Coordinator.groups c' = <[gid := g']> (Coordinator.groups c) ∧ answered c' = answered c ++ (channel_of <$> sends) ∧
    Coordinator.next_channel c' = (if park then S (Coordinator.next_channel c) else Coordinator.next_channel c)) as
    (Hcfg & Hcl & Hgr & Han & Hnx).
  { unfold c', answered. cbn. rewrite fmap_app. by destruct park. }
  assert (∀ id b tx id' b', ftx = Some (id, b, tx) → ¬ holds (Group.members (group_at c gid)) id' b' tx) as Hfresh.
  { intros id b tx id' b' -> Hh%group_at_waits. destruct Hftx as [_ ->]. apply (ck_waiting _ Hok) in Hh. lia. }
  destruct (mv_once _ _ _ _ _ Hmv (group_at_unique c gid Hok) Hfresh) as [Hnd Hgone].
  assert (∀ gid1 id b tx, waits c' gid1 id b tx →
    waits c gid1 id b tx ∨ (gid1 = gid ∧ ftx = Some (id, b, tx))) as Hw.
  { intros gid1 id b tx (g1 & Hg1 & Hh). rewrite Hgr in Hg1. apply lookup_insert_Some in Hg1 as [[<- <-]|[Hne Hg1]].
    - destruct (mv_held _ _ _ _ _ Hmv id b tx Hh) as [[Hh' _]|Hf]; [left; by apply group_at_waits|by right].
    - left. by exists g1. }
  assert (∀ tx, tx ∈ channel_of <$> sends → (∃ id b, waits c gid id b tx) ∨ ∃ id b, ftx = Some (id, b, tx)) as Hsent.
  { intros tx Htx. destruct (mv_sent _ _ _ _ _ Hmv tx Htx) as [(id & b & Hh)|Hf]; [left|by right].
    exists id, b. by apply group_at_waits. }
  assert (∀ id b tx, ftx = Some (id, b, tx) → tx = Coordinator.next_channel c ∧ park = true) as Hf
    by (intros id b tx ->; naive_solver).
  split.
  - split; rewrite ?Hcfg, ?Hcl, ?Hgr, ?Hnx.
    + apply map_Forall_insert_2; [done|apply Hok].
    + rewrite map_size_insert. pose proof (ck_size _ Hok) as Hsz.
      destruct Hroom as [[g ->]|[_ Hlt]]; simpl; [done|]. destruct (Coordinator.groups c !! gid); simpl; lia.
    + intros Hclosed. pose proof (ck_closed _ Hok Hclosed) as He. rewrite He in Hroom.
      destruct Hroom as [[g Hg]|[Hop _]]; [by rewrite lookup_empty in Hg|congruence].
    + intros gid1 id1 b1 gid2 id2 b2 tx H1 H2. destruct (Hw _ _ _ _ H1) as [H1'|[-> H1']], (Hw _ _ _ _ H2) as [H2'|[-> H2']].
      * by eapply ck_unique.
      * apply Hf in H2' as [-> _]. apply (ck_waiting _ Hok) in H1'. lia.
      * apply Hf in H1' as [-> _]. apply (ck_waiting _ Hok) in H2'. lia.
      * rewrite H1' in H2'. by injection H2' as <- <-.
    + intros gid1 id b tx H1. rewrite Han, not_elem_of_app. destruct (Hw _ _ _ _ H1) as [H1'|[-> H1']].
      * destruct (ck_waiting _ Hok _ _ _ _ H1') as [Hlt Hna]. split_and!; [destruct park; lia|done|].
        intros Hin. destruct (Hsent tx Hin) as [(id' & b' & H2)|(id' & b' & H2)].
        -- destruct (ck_unique _ Hok _ _ _ _ _ _ _ H1' H2) as (-> & -> & ->). destruct H1 as (g1 & Hg1 & Hh).
           rewrite Hgr, lookup_insert_eq in Hg1. injection Hg1 as <-. by apply (Hgone tx id' b').
        -- apply Hf in H2 as [-> _]. lia.
      * destruct (Hf _ _ _ H1') as [-> ->]. split_and!; [lia| |].
        -- intros Hin. pose proof (ck_answered _ Hok) as Hlt. rewrite Forall_forall in Hlt. specialize (Hlt _ Hin). lia.
        -- intros Hin. destruct H1 as (g1 & Hg1 & Hh). rewrite Hgr, lookup_insert_eq in Hg1. injection Hg1 as <-.
           by apply (Hgone _ id b Hin).
    + rewrite Han. apply Forall_app. split.
      * eapply Forall_impl; [apply Hok|]. simpl. intros tx. destruct park; lia.
      * apply Forall_forall. intros tx Hin. destruct (Hsent tx Hin) as [(id' & b' & H2)|(id' & b' & H2)].
        -- apply (ck_waiting _ Hok) in H2. destruct park; lia.
        -- apply Hf in H2 as [-> ->]. lia.
    + rewrite Han. apply NoDup_app. split_and!; [apply Hok| |done]. intros tx Hin Hin2.
      destruct (Hsent tx Hin2) as [(id' & b' & H2)|(id' & b' & H2)].
      * apply (ck_waiting _ Hok) in H2 as [_ H2]. done.
      * apply Hf in H2 as [-> _]. pose proof (ck_answered _ Hok) as Hlt. rewrite Forall_forall in Hlt. specialize (Hlt _ Hin). lia.
  - intros gid'. destruct (decide (gid' = gid)) as [->|Hne].
    + right. exists g', ftx, sends. split; [by rewrite Hgr, lookup_insert_eq|]. split; [done|].
      intros id b tx [-> _]%Hf. done.
    + pose proof (group_step_refl fid c gid') as [Hs|(g & ftx' & s' & Hg & Hm & _)]; [left|right].
      * by rewrite Hgr, lookup_insert_ne.
      * exists g, None, []. split; [by rewrite Hgr, lookup_insert_ne|]. split; [|done].
        unfold group_at. rewrite Hg. apply moves_calm; try done; [intros id m Hid; by exists m|by left].
Qed.

(** ** Each request *)

(** A step that keeps the invariant and moves every group on. *)
Definition steps (fid : option string) (c c' : Coordinator.t) : Prop :=
  coordinator_ok c' ∧ Coordinator.next_channel c <= Coordinator.next_channel c' ∧ ∀ gid, group_step fid c c' gid.

Lemma steps_refl fid c : coordinator_ok c → steps fid c c.
Proof. intros Hok. split_and!; [done|done|]. intros gid. apply group_step_refl. Qed.

Lemma group_at_Some c gid g : Coordinator.groups c !! gid = Some g → group_at c gid = g.
Proof. unfold group_at. by intros ->. Qed.

(** An existing group replaced. *)
Lemma update_steps c gid g g' sends :
  coordinator_ok c → Coordinator.groups c !! gid = Some g → group_ok (Coordinator.config c) g' →
  moves None None g g' sends → steps None c (update_group c gid g' sends).
Proof.
  intros Hok Hg Hg' Hmv. destruct (update_group_ok c gid g' sends None false None) as [Hok' Hst]; try done.
  - by rewrite (group_at_Some _ _ _ Hg).
  - left. by rewrite Hg.
Qed.

Lemma join_group_spec c request uuid now :
  coordinator_ok c → check_join (Coordinator.config c) request = Ok tt →
  is_Some (Coordinator.groups c !! JoinRequest.group_id request) ∨
    (Coordinator.closed c = false ∧ size (Coordinator.groups c) < GroupConfig.max_groups (Coordinator.config c)) →
  ∃ c' r, join_group c (group_at c (JoinRequest.group_id request)) request uuid now = Some (c', r) ∧
    steps (minted_by request uuid) c c' ∧
    ∀ tx d, r = Parked tx d → tx < Coordinator.next_channel c' ∧
      ∀ gid id b, waits c' gid id b tx → b = true ∧ deadline_of true (group_at c' gid) = Some d.
Proof.
  intros Hok Hchk Hroom. set (gid := JoinRequest.group_id request) in *. set (config := Coordinator.config c) in *.
  pose proof (group_at_ok c gid Hok) as Hg. set (g0 := group_at c gid) in *.
  unfold join_group. cbv zeta. fold config.
  destruct (admit_member_spec config g0 _ request uuid now Hg eq_refl) as (minted & Hadm & Hok1 & Hmint & Hadmit).
  destruct (admit_member _ _ _ _ _) as [g1 admission]. cbn [fst snd] in *. subst g1.
  assert (∀ g' (r : result ErrorCode.t Joined) sends, group_ok config g' → moves (minted_by request uuid) None g0 g' sends →
    ∃ c' r', Some (update_group c gid g' sends, Answered r) = Some (c', r') ∧ steps (minted_by request uuid) c c' ∧
    ∀ tx d, r' = Parked tx d → tx < Coordinator.next_channel c' ∧
      ∀ gid id b, waits c' gid id b tx → b = true ∧ deadline_of true (group_at c' gid) = Some d) as Hanswer.
  { intros g' r sends Hg' Hmv. eexists _, _. split; [done|]. split; [|done].
    destruct (update_group_ok c gid g' sends _ false None Hok Hg' Hmv) as [? ?]; try done. }
  assert (∀ k, known (Group.set_minted minted g0) k → known g0 k ∨ minted_by request uuid = Some k) as Hk
    by (intros k [Hk|Hk]; [left; by left|by apply Hmint]).
  destruct (moves_calm (minted_by request uuid) g0 (Group.set_minted minted g0)) as [Hmv1 Hsy1]; try done.
  { intros id m Hm. by exists m. }
  destruct admission as [e|id|id]; [by apply Hanswer..|].
  destruct (Hadmit id eq_refl) as [Hid Hsize].
  destruct (compatible _ _ _) eqn:Hcompat; cbn [negb]; [|by apply Hanswer].
  destruct (replays _ _ _).
  - destruct (seen_spec config (Group.set_minted minted g0) id now Hok1) as (Hok2 & Hmv2 & Hsy2).
    apply Hanswer; [done|]. by apply (moves_trans _ _ _ _ _ [] [] Hmv1 Hsy1 Hmv2).
  - destruct (enroll_spec config (Group.set_minted minted g0) id request now (Coordinator.next_channel c) Hok1)
      as (g' & sends & d & Hen & Hok2 & Hmv2 & Hd).
    { unfold compatible in Hcompat. apply andb_prop in Hcompat as [_ Hcom%bool_decide_eq_true].
      unfold check_join in Hchk. repeat case_decide; try done. split; [lia|done|done]. }
    rewrite Hen. cbn [mbind option_bind]. apply moves_set_minted with (fid := minted_by request uuid) in Hmv2; [|done|done].
    destruct (update_group_ok c gid g' sends _ true (Some (id, true, Coordinator.next_channel c)) Hok Hok2 Hmv2)
      as [Hok3 Hst3]; [done|done|].
    eexists _, _. split; [done|]. split; [split_and!; [done|cbn; lia|done]|]. intros tx d' [= <- <-]. split; [cbn; lia|].
    intros gid' id' b (g1 & Hg1 & Hh). cbn in Hg1. apply lookup_insert_Some in Hg1 as [[<- <-]|[Hne Hg1]].
    + destruct (mv_held _ _ _ _ _ Hmv2 _ _ _ Hh) as [[Hh' _]|[= <- <-]].
      * apply group_at_waits, (ck_waiting _ Hok) in Hh'. lia.
      * split; [done|]. rewrite (group_at_Some _ gid g') by (cbn; by rewrite lookup_insert_eq). by apply Hd.
    + assert (waits c gid' id' b (Coordinator.next_channel c)) as Hw by (by exists g1).
      apply (ck_waiting _ Hok) in Hw. lia.
Qed.

Lemma join_spec c request uuid now :
  coordinator_ok c → ∃ c' r, join c request uuid now = Some (c', r) ∧ steps (minted_by request uuid) c c' ∧
    ∀ tx d, r = Parked tx d → tx < Coordinator.next_channel c' ∧
      ∀ gid id b, waits c' gid id b tx → b = true ∧ deadline_of true (group_at c' gid) = Some d.
Proof.
  intros Hok. unfold join.
  assert (∀ r : result ErrorCode.t Joined, ∃ c' r', Some (c, Answered r) = Some (c', r') ∧ steps (minted_by request uuid) c c' ∧
    ∀ tx d, r' = Parked tx d → tx < Coordinator.next_channel c' ∧
      ∀ gid id b, waits c' gid id b tx → b = true ∧ deadline_of true (group_at c' gid) = Some d) as Hsame.
  { intros r. eexists _, _. split; [done|]. split; [by apply steps_refl|done]. }
  destruct (check_join _ _) as [[]|e] eqn:Hchk; [|apply Hsame].
  destruct (Coordinator.closed c) eqn:Hcl; [apply Hsame|].
  destruct (Coordinator.groups c !! JoinRequest.group_id request) as [g|] eqn:Hg.
  - rewrite <-(group_at_Some _ _ _ Hg). apply join_group_spec; [done|done|left; by rewrite Hg].
  - case_decide as Hfull; [apply Hsame|].
    assert (Group.new = group_at c (JoinRequest.group_id request)) as -> by (unfold group_at; by rewrite Hg).
    apply join_group_spec; [done|done|right]. split; [done|lia].
Qed.

Lemma member_standing_inv c gid n id g m :
  member_standing c gid n id = Ok (g, m) →
  Coordinator.groups c !! gid = Some g ∧ Group.members g !! id = Some m ∧ Group.generation g = n.
Proof.
  unfold member_standing. case_decide; [done|]. destruct (Coordinator.groups c !! gid) as [g'|]; [|done].
  destruct (Group.members g' !! id) eqn:Hm; [|done]. case_decide; [done|]. intros [= -> ->]. done.
Qed.

Lemma touch_steps c gid g id now :
  coordinator_ok c → Coordinator.groups c !! gid = Some g → steps None c (touch c gid g id now).
Proof.
  intros Hok Hg. destruct (seen_spec (Coordinator.config c) g id now) as (Hok1 & Hmv & _); [by apply (ck_groups _ Hok gid)|].
  by apply update_steps with (g := g).
Qed.

Lemma sync_spec c gid n id assignments now clock :
  coordinator_ok c → let '(c', r) := sync c gid n id assignments now clock in
  steps None c c' ∧
  ∀ tx d, r = Parked tx d → tx < Coordinator.next_channel c' ∧
    ∀ gid' id' b, waits c' gid' id' b tx → b = false ∧ deadline_of false (group_at c' gid') = Some d.
Proof.
  intros Hok. unfold sync. destruct (member_standing c gid n id) as [[g m]|e] eqn:Hms.
  2: { split; [by apply steps_refl|done]. }
  apply member_standing_inv in Hms as (Hg & Hm & Hn). pose proof (ck_groups _ Hok gid g Hg) as Hgok. simpl in Hgok.
  destruct (Group.state g) eqn:Hst; [split; [by apply steps_refl|done]..| |].
  2: { split; [by apply touch_steps|done]. }
  case_decide as Hl.
  - destruct (apply_assignments_spec _ g assignments clock Hgok Hst) as (Hok1 & Hmv & _).
    destruct (apply_assignments g assignments clock) as [g' sends]. cbn [fst snd] in *.
    split; [by apply update_steps with (g := g)|done].
  - destruct (park_spec _ g id m now (Coordinator.next_channel c) Hgok Hst Hm) as (Hok1 & Hmv & _).
    set (g' := Group.set_members _ g) in *.
    destruct (update_group_ok c gid g' [] None true (Some (id, false, Coordinator.next_channel c))) as [Hok2 Hst2]; try done.
    { by rewrite (group_at_Some _ _ _ Hg). } { left. by rewrite Hg. }
    split; [split_and!; [done|cbn; lia|done]|]. intros tx d [= <- <-]. split; [cbn; lia|].
    intros gid' id' b (g1 & Hg1 & Hh). cbn in Hg1. apply lookup_insert_Some in Hg1 as [[<- <-]|[Hne Hg1]].
    + destruct (mv_held _ _ _ _ _ Hmv _ _ _ Hh) as [[Hh' _]|[= <- <-]].
      * assert (waits c gid id' b (Coordinator.next_channel c)) as Hw by (by exists g).
        apply (ck_waiting _ Hok) in Hw. lia.
      * split; [done|]. rewrite (group_at_Some _ gid g') by (cbn; by rewrite lookup_insert_eq).
        destruct (gk_completing _ _ Hgok Hst) as ([d Hd] & _). cbn. by rewrite Hd.
    + assert (waits c gid' id' b (Coordinator.next_channel c)) as Hw by (by exists g1).
      apply (ck_waiting _ Hok) in Hw. lia.
Qed.

Lemma assignment_refused_spec c gid n id now :
  coordinator_ok c → steps None c (assignment_refused c gid n id now).
Proof.
  intros Hok. unfold assignment_refused. destruct (Coordinator.groups c !! gid) as [g|] eqn:Hg; [|by apply steps_refl].
  case_decide as Hno; [by apply steps_refl|].
  assert (Group.state g = CompletingRebalance) as Hst by (destruct (Group.state g); naive_solver).
  pose proof (ck_groups _ Hok gid g Hg) as Hgok. simpl in Hgok.
  set (d := GroupConfig.initial_rebalance_delay (Coordinator.config c)).
  (* as if a member had left *)
  pose proof (member_left_spec _ g now d (ok_loose _ _ Hgok)) as (Hok1 & Hmv & _). revert Hok1 Hmv. unfold member_left.
  rewrite decide_False by (intros He; apply (gk_empty _ _ Hgok) in He; congruence).
  rewrite decide_True by (by rewrite Hst).
  destruct (begin_round _ now false d) as [g' sends]. cbn [fst snd]. intros Hok1 Hmv. by apply update_steps with (g := g).
Qed.

Lemma leave_spec c gid id now : coordinator_ok c → steps None c (leave c gid id now).1.
Proof.
  intros Hok. unfold leave. case_decide; [by apply steps_refl|].
  destruct (Coordinator.groups c !! gid) as [g|] eqn:Hg; [|by apply steps_refl].
  destruct (Group.members g !! id) as [m|] eqn:Hm; [|by apply steps_refl].
  pose proof (ck_groups _ Hok gid g Hg) as Hgok. simpl in Hgok.
  pose proof (expel_left_spec _ id ErrorCode.UnknownMemberId g now
    (GroupConfig.initial_rebalance_delay (Coordinator.config c)) (ok_loose _ _ Hgok)) as H1.
  unfold expel in H1. rewrite Hm in H1. cbn [mbind option_bind] in H1.
  destruct (member_left _ now _) as [g2 released]. destruct H1 as (Hok2 & Hmv & _).
  cbn [fst]. by apply update_steps with (g := g).
Qed.

(** ** All groups at once *)

(** Answers to distinct waiters of distinct groups. *)
Lemma concat_sends c (l : list (string * list Send)) :
  coordinator_ok c → NoDup l.*1 →
  (∀ gid sends, (gid, sends) ∈ l → NoDup (channel_of <$> sends) ∧
     ∀ tx, tx ∈ channel_of <$> sends → ∃ id b, waits c gid id b tx) →
  NoDup (channel_of <$> concat l.*2) ∧
  ∀ tx, tx ∈ channel_of <$> concat l.*2 →
    ∃ gid sends id b, (gid, sends) ∈ l ∧ tx ∈ channel_of <$> sends ∧ waits c gid id b tx.
Proof.
  intros Hok. induction l as [|[gid sends] l IH]; cbn [fmap list_fmap fst snd concat].
  { intros _ _. split; [constructor|]. by intros tx ?%not_elem_of_nil. }
  intros [Hnew Hnd]%NoDup_cons Hl. destruct IH as [IH1 IH2]; [done|intros; apply Hl; by right|].
  destruct (Hl gid sends) as [H1 H2]; [by left|]. rewrite fmap_app. split.
  - apply NoDup_app. split_and!; [done| |done]. intros tx Hin Hin'.
    destruct (H2 tx Hin) as (id & b & Hw). destruct (IH2 tx Hin') as (gid' & sends' & id' & b' & Hl' & _ & Hw').
    destruct (ck_unique _ Hok _ _ _ _ _ _ _ Hw Hw') as (-> & _). apply Hnew, list_elem_of_fmap. by exists (gid', sends').
  - intros tx [Hin|Hin]%elem_of_app.
    + destruct (H2 tx Hin) as (id & b & Hw). exists gid, sends, id, b. split_and!; [by left|done|done].
    + destruct (IH2 tx Hin) as (gid' & sends' & id' & b' & Hl' & Ht & Hw').
      exists gid', sends', id', b'. split_and!; [by right|done|done].
Qed.

(** A step in which groups only lose waiters, to the answers sent. *)
Lemma answer_all_ok c c' (l : list (string * list Send)) :
  coordinator_ok c → NoDup l.*1 →
  (∀ gid sends, (gid, sends) ∈ l → NoDup (channel_of <$> sends) ∧
     ∀ tx, tx ∈ channel_of <$> sends → (∃ id b, waits c gid id b tx) ∧ ∀ id b, ¬ waits c' gid id b tx) →
  (∀ gid id b tx, waits c' gid id b tx → waits c gid id b tx) →
  map_Forall (λ _ g, group_ok (Coordinator.config c) g) (Coordinator.groups c') →
  size (Coordinator.groups c') <= size (Coordinator.groups c) → Coordinator.config c' = Coordinator.config c →
  (Coordinator.closed c' = true → Coordinator.groups c' = ∅) →
  Coordinator.next_channel c' = Coordinator.next_channel c →
  Coordinator.sent c' = Coordinator.sent c ++ concat l.*2 → coordinator_ok c'.
Proof.
  intros Hok Hnd Hl Hw Hg Hsz Hcfg Hcl Hnx Hsent.
  assert (answered c' = answered c ++ (channel_of <$> concat l.*2)) as Han by (unfold answered; by rewrite Hsent, fmap_app).
  destruct (concat_sends c l Hok Hnd) as [Hnd' Hin].
  { intros gid sends Hel. destruct (Hl gid sends Hel) as [? H2]. split; [done|]. intros tx Htx. by apply H2. }
  split.
  - by rewrite Hcfg.
  - rewrite Hcfg. pose proof (ck_size _ Hok). lia.
  - done.
  - intros gid id b gid' id' b' tx H1%Hw H2%Hw. by eapply ck_unique.
  - intros gid id b tx H1. pose proof (Hw _ _ _ _ H1) as H1'. destruct (ck_waiting _ Hok _ _ _ _ H1') as [Hlt Hna].
    rewrite Hnx, Han, not_elem_of_app. split_and!; [done|done|]. intros Htx.
    destruct (Hin tx Htx) as (gid' & sends' & id' & b' & Hel & Ht & Hw').
    destruct (ck_unique _ Hok _ _ _ _ _ _ _ H1' Hw') as (-> & -> & ->).
    destruct (Hl gid' sends' Hel) as [_ H2]. by apply (H2 tx Ht) in H1.
  - rewrite Hnx, Han. apply Forall_app. split; [apply Hok|]. apply Forall_forall. intros tx Htx.
    destruct (Hin tx Htx) as (gid' & sends' & id' & b' & _ & _ & Hw'). by apply (ck_waiting _ Hok) in Hw' as [? _].
  - rewrite Han. apply NoDup_app. split_and!; [apply Hok| |done]. intros tx Ha Htx.
    destruct (Hin tx Htx) as (gid' & sends' & id' & b' & _ & _ & Hw'). by apply (ck_waiting _ Hok) in Hw' as [_ ?].
Qed.

Lemma shutdown_spec c : coordinator_ok c → steps None c (shutdown c).
Proof.
  intros Hok. set (l := (λ '(gid, g), (gid, release_syncs (Group.members g))) <$> hash_iter (Coordinator.groups c)).
  assert (l.*1 = (hash_iter (Coordinator.groups c)).*1) as Hkeys.
  { unfold l. rewrite <-list_fmap_compose. apply list_fmap_ext. by intros _ [? ?] _. }
  assert (∀ gid id b tx, ¬ waits (shutdown c) gid id b tx) as Hno.
  { intros gid id b tx (g & Hg & _). cbn in Hg. by rewrite lookup_empty in Hg. }
  split_and!; [|done|intros gid; left; cbn; apply lookup_empty].
  apply (answer_all_ok c (shutdown c) l); try done.
  - rewrite Hkeys. apply hash_iter_keys_NoDup.
  - intros gid sends ([gid' g] & [= -> ->] & Hel)%list_elem_of_fmap. apply elem_of_hash_iter in Hel. split.
    + apply release_syncs_NoDup. intros id b id' b' tx H1 H2.
      destruct (ck_unique _ Hok gid' id b gid' id' b' tx) as (_ & ? & ?); [by exists g..|done].
    + intros tx [id Hh]%elem_of_release_syncs. split; [exists id, false; by exists g|]. intros id' b. apply Hno.
  - intros gid id b tx Hw. by apply Hno in Hw.
  - cbn. rewrite map_size_empty. lia.
  - cbn. unfold l. rewrite <-list_fmap_compose. do 2 f_equal. apply list_fmap_ext. by intros _ [? ?] _.
Qed.

(** What a sweep leaves of the groups. *)
Lemma sweep_spec c now :
  coordinator_ok c → ∃ c', sweep c now = Some c' ∧ steps None c c' ∧
    ∀ gid g', Coordinator.groups c' !! gid = Some g' → ∃ g sends, Coordinator.groups c !! gid = Some g ∧
      sweep_group (Coordinator.config c) now g = Some (g', sends).
Proof.
  intros Hok. unfold sweep.
  set (f := λ '(id, group), _). set (l := hash_iter (Coordinator.groups c)).
  assert (∀ gid g, (gid, g) ∈ l → Coordinator.groups c !! gid = Some g) as Hel by (intros gid g; apply elem_of_hash_iter).
  assert (∃ swept, mapM f l = Some swept) as [swept Hswept].
  { apply mapM_is_Some. apply Forall_forall. intros [gid g] Hin. apply Hel in Hin.
    destruct (sweep_group_spec _ now g (ck_groups _ Hok gid g Hin)) as (g' & sends & Heq & _).
    unfold f, compose. rewrite Heq. by eexists. }
  rewrite Hswept. cbn [mbind option_bind]. apply mapM_Some in Hswept. eexists. split; [done|].
  assert ((fst <$> swept).*1 = l.*1) as Hkeys.
  { clear -Hswept. induction Hswept as [|[gid g] [[gid' g'] s] l1 l2 Hf _ IH]; [done|]. cbn [fmap list_fmap fst].
    unfold f in Hf. destruct (sweep_group _ now g) as [[? ?]|]; [|done]. cbn in Hf. injection Hf as <- <- <-.
    f_equal. exact IH. }
  assert (NoDup l.*1) as Hnd by apply hash_iter_keys_NoDup.
  assert (∀ gid g' sends, (gid, g', sends) ∈ swept → ∃ g, Coordinator.groups c !! gid = Some g ∧
    sweep_group (Coordinator.config c) now g = Some (g', sends)) as Hsw.
  { intros gid g' sends Hin. apply list_elem_of_lookup in Hin as [n Hn].
    destruct (Forall2_lookup_r _ _ _ _ _ Hswept Hn) as ([gid0 g] & Hin0%list_elem_of_lookup_2 & Hf).
    exists g. unfold f in Hf. destruct (sweep_group _ now g) as [[? ?]|]; [|done]. cbn in Hf. injection Hf as -> -> ->.
    split; [by apply Hel|done]. }
  set (c' := Coordinator.mk _ _ _ _ _).
  assert (∀ gid g', Coordinator.groups c' !! gid = Some g' → ∃ sends, (gid, g', sends) ∈ swept) as Hin'.
  { intros gid g' Hg'. cbn in Hg'. apply map_lookup_filter_Some in Hg' as [Hg' _].
    apply elem_of_list_to_map_2 in Hg'. apply list_elem_of_fmap in Hg' as ([[gid1 g1] s1] & [= -> ->] & Hin). by exists s1. }
  assert (∀ gid g' sends, (gid, g', sends) ∈ swept → ∀ g1, Coordinator.groups c' !! gid = Some g1 → g1 = g') as Hone.
  { intros gid g' sends Hin g1 Hg1. destruct (Hin' gid g1 Hg1) as [s1 Hin1].
    destruct (Hsw _ _ _ Hin) as (ga & Ha & Hsa), (Hsw _ _ _ Hin1) as (gb & Hb & Hsb). congruence. }
  split; [|intros gid g' (sends & Hin)%Hin'; destruct (Hsw _ _ _ Hin) as (g & ? & ?); by exists g, sends].
  assert (∀ gid g g' sends, Coordinator.groups c !! gid = Some g →
    sweep_group (Coordinator.config c) now g = Some (g', sends) →
    group_ok (Coordinator.config c) g' ∧ moves None None g g' sends) as Hspec.
  { intros gid g g' sends Hg Hs. destruct (sweep_group_spec _ now g (ck_groups _ Hok gid g Hg))
      as (g1 & s1 & Heq & ? & ? & _). rewrite Hs in Heq. by injection Heq as <- <-. }
  split_and!; [|done|].
  - apply (answer_all_ok c c' ((λ p, (p.1.1, p.2)) <$> swept)); try done.
    + by rewrite <-list_fmap_compose, <-(list_fmap_compose fst fst swept) in *; rewrite <-Hkeys in Hnd.
    + intros gid sends ([[gid1 g'] s1] & [= -> ->] & Hin)%list_elem_of_fmap. cbn [fst snd] in *.
      destruct (Hsw _ _ _ Hin) as (g & Hg & Hs). destruct (Hspec _ _ _ _ Hg Hs) as [_ Hmv].
      assert (unique (Group.members g)) as Hu.
      { rewrite <-(group_at_Some _ _ _ Hg). by apply group_at_unique. }
      destruct (mv_once _ _ _ _ _ Hmv Hu ltac:(done)) as [H1 H2]. split; [done|]. intros tx Htx. split.
      * destruct (mv_sent _ _ _ _ _ Hmv tx Htx) as [(id & b & Hh)|(? & ? & [=])]. exists id, b. by exists g.
      * intros id b (g1 & Hg1 & Hh). rewrite (Hone _ _ _ Hin g1 Hg1) in Hh. by eapply H2.
    + intros gid id b tx (g' & Hg' & Hh). destruct (Hin' gid g' Hg') as [sends Hin].
      destruct (Hsw _ _ _ Hin) as (g & Hg & Hs). destruct (Hspec _ _ _ _ Hg Hs) as [_ Hmv].
      destruct (mv_held _ _ _ _ _ Hmv _ _ _ Hh) as [[Hh' _]|[=]]. by exists g.
    + intros gid g' Hg'. destruct (Hin' gid g' Hg') as [sends Hin]. destruct (Hsw _ _ _ Hin) as (g & Hg & Hs).
      by destruct (Hspec _ _ _ _ Hg Hs).
    + rewrite <-!size_dom. apply subseteq_size. intros gid [g' Hg']%elem_of_dom. apply elem_of_dom.
      destruct (Hin' gid g' Hg') as [sends Hin]. destruct (Hsw _ _ _ Hin) as (g & Hg & _). by exists g.
    + intros Hcl. pose proof (ck_closed _ Hok Hcl) as He. apply map_empty. intros gid.
      destruct (Coordinator.groups c' !! gid) as [g'|] eqn:Hg'; [|done]. destruct (Hin' gid g' Hg') as [sends Hin].
      destruct (Hsw _ _ _ Hin) as (g & Hg & _). by rewrite He, lookup_empty in Hg.
    + cbn. by rewrite <-list_fmap_compose.
  - intros gid. destruct (Coordinator.groups c' !! gid) as [g'|] eqn:Hg'; [right|by left].
    destruct (Hin' gid g' Hg') as [sends Hin]. destruct (Hsw _ _ _ Hin) as (g & Hg & Hs).
    destruct (Hspec _ _ _ _ Hg Hs) as [_ Hmv]. exists g', None, sends. rewrite (group_at_Some _ _ _ Hg). by split_and!.
Qed.

(** ** Runs *)

Lemma serve_spec c r : coordinator_ok c → ∃ c', serve c r = Some c' ∧ steps (mints r) c c'.
Proof.
  intros Hok. destruct r as [request uuid now|gid n id a now clock|gid n id now|gid n id now|gid id now|gid n id now|now|];
    cbn [serve mints].
  - destruct (join_spec c request uuid now Hok) as (c' & r & -> & Hs & _). by exists c'.
  - pose proof (sync_spec c gid n id a now clock Hok) as H. destruct (sync _ _ _ _ _ _ _) as [c' r].
    exists c'. split; [done|]. apply H.
  - eexists. split; [done|]. by apply assignment_refused_spec.
  - eexists. split; [done|]. unfold heartbeat. destruct (member_standing c gid n id) as [[g m]|e] eqn:Hm; [|by apply steps_refl].
    apply member_standing_inv in Hm as (Hg & _). by apply touch_steps.
  - eexists. split; [done|]. by apply leave_spec.
  - eexists. split; [done|]. unfold check_commit. case_decide; [by apply steps_refl|]. cbv zeta.
    destruct (Coordinator.groups c !! gid) as [g|] eqn:Hg; [|by apply steps_refl].
    destruct (bool_decide _); [by apply steps_refl|]. destruct (Group.members g !! id); [|by apply steps_refl].
    case_decide; [by apply steps_refl|]. by apply touch_steps.
  - destruct (sweep_spec c now Hok) as (c' & -> & Hs & _). by exists c'.
  - eexists. split; [done|]. by apply shutdown_spec.
Qed.

(** What is kept by every step is kept by a run. *)
Lemma serve_all_ind (P : Coordinator.t → list Request → Prop) rs c c' :
  coordinator_ok c → serve_all c rs = Some c' → P c rs →
  (∀ c r rs c', coordinator_ok c → steps (mints r) c c' → P c (r :: rs) → P c' rs) →
  coordinator_ok c' ∧ P c' [].
Proof.
  intros Hok Hrun HP Hstep. revert c Hok Hrun HP. induction rs as [|r rs IH]; intros c Hok Hrun HP; simpl in Hrun.
  { injection Hrun as <-. done. }
  destruct (serve_spec c r Hok) as (c1 & Hs & Hst). rewrite Hs in Hrun. cbn [mbind option_bind] in Hrun.
  apply (IH c1); [apply Hst|done|]. by apply (Hstep c r rs).
Qed.

Lemma serve_all_total rs c : coordinator_ok c → ∃ c', serve_all c rs = Some c' ∧ coordinator_ok c'.
Proof.
  revert c. induction rs as [|r rs IH]; intros c Hok; [by exists c|]. simpl.
  destruct (serve_spec c r Hok) as (c1 & -> & Hst & _). cbn [mbind option_bind]. by apply IH.
Qed.

(** C12. The coordinator never panics and keeps its invariant, whatever it is asked: groups and
    members stay within their bounds, a group has members exactly when it is not empty, a
    round is under way exactly when somebody may be waiting to join, a group that has an
    outcome has a leader among its members and a protocol they all have, everybody in a
    stable group has an assignment, and no request is answered twice. *)
Theorem coordinator_sound (config : GroupConfig.t) (rs : list Request) :
  ∃ c, serve_all (Coordinator.new config) rs = Some c ∧ coordinator_ok c.
Proof. apply serve_all_total, new_coordinator_ok. Qed.

(** ** Generations *)

Definition generation_at (c : Coordinator.t) (gid : string) : Z := ival (Group.generation (group_at c gid)).

(** The group has left the member behind: it does not know the id, or its generation has
    passed the one the member names. *)
Definition left_behind (c : Coordinator.t) (gid : string) (n : i32) (id : string) : Prop :=
  ¬ known (group_at c gid) id ∨ (ival n < generation_at c gid)%Z.

Lemma step_generation fid c c' gid :
  coordinator_ok c → (generation_at c gid < int_max I32)%Z → group_step fid c c' gid →
  Coordinator.groups c' !! gid = None ∨
  ∃ g' ftx sends, Coordinator.groups c' !! gid = Some g' ∧ group_at c' gid = g' ∧
    moves fid ftx (group_at c gid) g' sends ∧
    (stays (group_at c gid) g' ∨ generation_at c' gid = generation_at c gid + 1)%Z.
Proof.
  intros Hok Hlt [Hn|(g' & ftx & sends & Hg & Hmv & _)]; [by left|right].
  exists g', ftx, sends. split; [done|]. rewrite (group_at_Some _ _ _ Hg). split_and!; [done|done|].
  destruct (mv_progress _ _ _ _ _ Hmv) as [Hs|Hb]; [by left|right]. unfold generation_at.
  rewrite (group_at_Some _ _ _ Hg), Hb. apply next_generation_succ. split; [|done].
  apply (gb_generation _ _ (gk_base _ _ (group_at_ok c gid Hok))).
Qed.

Lemma group_at_None c gid : Coordinator.groups c !! gid = None → group_at c gid = Group.new.
Proof. unfold group_at. by intros ->. Qed.

Lemma new_unknown id : ¬ known Group.new id.
Proof. by intros [[? H]|[? H]]; cbn in H; rewrite lookup_empty in H. Qed.

(** The rounds that are left before generations wrap around. *)
Definition rounds_left (c : Coordinator.t) (gid : string) (n : nat) : Prop :=
  (generation_at c gid + Z.of_nat n <= int_max I32)%Z.

Lemma rounds_left_step fid c c' gid n :
  coordinator_ok c → rounds_left c gid (S n) → group_step fid c c' gid → rounds_left c' gid n.
Proof.
  intros Hok Hr Hst. unfold rounds_left in *. change (int_max I32) with 2147483647%Z in *.
  pose proof (gb_generation _ _ (gk_base _ _ (group_at_ok c gid Hok))) as Hpos. fold (generation_at c gid) in Hpos.
  destruct (step_generation fid c c' gid Hok) as [Hn|(g' & ftx & sends & Hg & Hat & _ & [Hs|Hb])]; try done.
  - change (int_max I32) with 2147483647%Z. lia.
  - unfold generation_at at 1. rewrite (group_at_None _ _ Hn). cbn. rewrite ival_zero. lia.
  - unfold generation_at at 1. rewrite Hat, (sy_generation _ _ Hs). fold (generation_at c gid). lia.
  - lia.
Qed.

Lemma left_behind_step fid c c' gid n id :
  coordinator_ok c → (generation_at c gid < int_max I32)%Z → fid ≠ Some id → group_step fid c c' gid →
  left_behind c gid n id → left_behind c' gid n id.
Proof.
  intros Hok Hlt Hfid Hst Hb.
  destruct (step_generation fid c c' gid Hok Hlt Hst) as [Hn|(g' & ftx & sends & Hg & Hat & Hmv & Hp)].
  { left. rewrite (group_at_None _ _ Hn). apply new_unknown. }
  destruct Hb as [Hk|Hgen].
  - left. rewrite Hat. intros Hk'. by destruct (mv_known _ _ _ _ _ Hmv id Hk').
  - right. destruct Hp as [Hs|Hb]; [|lia]. unfold generation_at at 1. by rewrite Hat, (sy_generation _ _ Hs).
Qed.

Lemma left_behind_refused c gid n id :
  left_behind c gid n id → id ≠ "" →
  (∃ e, member_standing c gid n id = Err e) ∧ ∀ now, ∃ e, check_commit c gid n id now = (c, Err e).
Proof.
  intros Hb Hid. unfold member_standing, check_commit. case_decide; [by eauto|]. cbv zeta.
  rewrite bool_decide_eq_false_2 by naive_solver. unfold left_behind, generation_at, group_at in Hb.
  destruct (Coordinator.groups c !! gid) as [g|]; simpl in Hb; [|by eauto].
  destruct (Group.members g !! id) as [m|] eqn:Hm; [|by eauto].
  assert (Group.generation g ≠ n) as Hne.
  { destruct Hb as [Hk|Hgen]; [destruct Hk; left; by rewrite Hm|]. intros Heq. rewrite Heq in Hgen. lia. }
  split; [rewrite decide_True by done; by eauto|]. intros now. rewrite decide_True by done. by eauto.
Qed.

(** C10. Fencing.  Once a group has left a member behind, nothing the member says under that
    generation is heard again: its commits, heartbeats and syncs are refused and change
    nothing, whatever else happened in between, as long as the id is not minted again and
    the generations do not wrap around. *)
Theorem stale_member_fenced (c c' : Coordinator.t) (rs : list Request) (gid : string) (n : i32) (id : string) :
  coordinator_ok c → serve_all c rs = Some c' → left_behind c gid n id → id ≠ "" →
  Forall (λ r, mints r ≠ Some id) rs → rounds_left c gid (length rs) →
  ∀ now assignments clock, ∃ e1 e2,
    check_commit c' gid n id now = (c', Err e1) ∧
    heartbeat c' gid n id now = (c', Err e2) ∧
    sync c' gid n id assignments now clock = (c', Answered (Err e2)).
Proof.
  intros Hok Hrun Hb Hid Hm Hr now assignments clock.
  destruct (serve_all_ind (λ c rs, left_behind c gid n id ∧ Forall (λ r, mints r ≠ Some id) rs ∧
    rounds_left c gid (length rs)) rs c c' Hok Hrun) as [_ (Hb' & _)]; [done| |].
  { clear. intros c r rs c' Hok (_ & _ & Hst) (Hb & [Hr Hm]%Forall_cons & Hl). split_and!; [|done|].
    - eapply left_behind_step; [done| |done|apply Hst|done]. unfold rounds_left in Hl. simpl in Hl. lia.
    - by eapply rounds_left_step. }
  destruct (left_behind_refused c' gid n id Hb' Hid) as [[e2 He2] Hc]. destruct (Hc now) as [e1 He1].
  exists e1, e2. unfold heartbeat, sync. by rewrite He2.
Qed.

(** ** Assignments *)

(** Where the assignment of a member in a generation stands: the group is stable with it,
    or has moved on. *)
Definition assigned_or_past (a : list u8) (gid : string) (n : i32) (id : string) (c : Coordinator.t) : Prop :=
  (Group.generation (group_at c gid) = n ∧ Group.state (group_at c gid) = Stable ∧
   ∀ m, Group.members (group_at c gid) !! id = Some m → Member.assignment m = Some a) ∨
  left_behind c gid n id ∨
  (Group.generation (group_at c gid) = n ∧ phase (Group.state (group_at c gid)) = 2).

Lemma assigned_or_past_step a fid c c' gid n id :
  coordinator_ok c → (generation_at c gid < int_max I32)%Z → fid ≠ Some id → group_step fid c c' gid →
  assigned_or_past a gid n id c → assigned_or_past a gid n id c'.
Proof.
  intros Hok Hlt Hfid Hst [(Hn & Hs & Ha)|[Hb|[Hn Hp]]].
  2: { right. left. by eapply left_behind_step. }
  all: destruct (step_generation fid c c' gid Hok Hlt Hst) as [Hnone|(g' & ftx & sends & Hg & Hat & Hmv & [Hsy|Hb])].
  all: try (right; left; left; rewrite (group_at_None _ _ Hnone); apply new_unknown).
  all: try (right; left; right; rewrite <-Hn; unfold generation_at in *; lia).
  - pose proof (sy_phase _ _ Hsy) as Hph. rewrite Hs in Hph. simpl in Hph.
    destruct (Group.state g') eqn:Hs'; simpl in Hph; try lia.
    + right. right. rewrite Hat, Hs', (sy_generation _ _ Hsy). done.
    + right. right. rewrite Hat, Hs', (sy_generation _ _ Hsy). done.
    + left. rewrite Hat, (sy_generation _ _ Hsy). split_and!; [done|done|]. intros m' Hm'.
      destruct (sy_same _ _ Hsy) as (_ & _ & Hkeep); [by rewrite Hs, Hs'|rewrite Hs; simpl; lia|].
      destruct (Hkeep id m' Hm') as (m & Hm & ->). by apply Ha.
  - right. right. rewrite Hat, (sy_generation _ _ Hsy). split; [done|].
    pose proof (sy_phase _ _ Hsy). destruct (Group.state g'); simpl in *; lia.
Qed.

Lemma sync_assigned c gid n id assignments now clock c' a :
  coordinator_ok c → sync c gid n id assignments now clock = (c', Answered (Ok a)) → assigned_or_past a gid n id c'.
Proof.
  intros Hok. unfold sync. destruct (member_standing c gid n id) as [[g m]|e] eqn:Hms; [|done].
  apply member_standing_inv in Hms as (Hg & Hm & Hn). pose proof (ck_groups _ Hok gid g Hg) as Hgok. simpl in Hgok.
  destruct (Group.state g) eqn:Hst; [done..| |].
  - case_decide as Hl; [|done]. intros [= <- <-]. left.
    rewrite (group_at_Some _ gid (apply_assignments g assignments clock).1) by (cbn; by rewrite lookup_insert_eq).
    split_and!; [done|done|]. intros m' Hm'. pose proof Hm' as (m0 & Hm0 & ->)%apply_assignments_lookup.
    cbn in Hm'. rewrite Hm'. done.
  - intros [= <- <-]. left. unfold touch.
    rewrite (group_at_Some _ gid (Group.set_members (alter (Member.set_last_seen now) id (Group.members g)) g))
      by (cbn; by rewrite lookup_insert_eq).
    split_and!; [done|done|]. intros m' Hm'. cbn in Hm'. rewrite lookup_alter_eq, Hm in Hm'. cbn in Hm'. injection Hm' as <-.
    destruct (gk_stable _ _ Hgok Hst) as (_ & _ & _ & Has). destruct (Has id m Hm) as [a Ha]. cbn. by rewrite Ha.
Qed.


(** ** Waiting *)

(** Whoever waits on the channel waits for the deadline it was told. *)
Definition waits_until (b : bool) (tx : channel) (d : Instant) (c : Coordinator.t) : Prop :=
  tx < Coordinator.next_channel c ∧
  ∀ gid id b', waits c gid id b' tx → b' = b ∧ deadline_of b (group_at c gid) = Some d.

Lemma waits_until_step b tx d fid c c' : steps fid c c' → waits_until b tx d c → waits_until b tx d c'.
Proof.
  intros (_ & Hnx & Hst) [Hlt Hw]. split; [lia|]. intros gid id b' (g & Hg & Hh).
  destruct (Hst gid) as [Hn|(g' & ftx & sends & Hg' & Hmv & Hf)]; [congruence|].
  rewrite Hg in Hg'. injection Hg' as <-. rewrite (group_at_Some _ _ _ Hg).
  destruct (mv_held _ _ _ _ _ Hmv _ _ _ Hh) as [[Hh' Hd]|Hfresh]; [|specialize (Hf _ _ _ Hfresh); lia].
  apply group_at_waits in Hh'. destruct (Hw _ _ _ Hh') as [-> Hdl]. split; [done|]. by rewrite Hd.
Qed.

Lemma sweep_ends_waits c now c' b tx d :
  coordinator_ok c → sweep c now = Some c' → waits_until b tx d c → (d < now)%N →
  ∀ gid id b', ¬ waits c' gid id b' tx.
Proof.
  intros Hok Hsw Hw Hlt gid id b' Hwait. destruct (sweep_spec c now Hok) as (c1 & Heq & Hst & Hgr).
  rewrite Hsw in Heq. injection Heq as <-. destruct (waits_until_step _ _ _ _ _ _ Hst Hw) as [_ Hw'].
  destruct (Hw' gid id b' Hwait) as [-> Hd]. destruct Hwait as (g' & Hg' & Hh). rewrite (group_at_Some _ _ _ Hg') in Hd.
  destruct (Hgr gid g' Hg') as (g & sends & Hg & Hsweep).
  destruct (sweep_group_spec _ now g (ck_groups _ Hok gid g Hg)) as (g1 & s1 & Heq & Hok1 & _ & Hj & Hs & _).
  rewrite Hsweep in Heq. injection Heq as <- <-. destruct b; cbn in Hd.
  - specialize (Hj d Hd). lia.
  - destruct Hh as (m & Hm & Hwt).
    assert (Group.state g' = CompletingRebalance) as Hcs.
    { apply (mk_synced _ _ _ (gb_members _ _ (gk_base _ _ Hok1) id m Hm)). cbn in Hwt. by rewrite Hwt. }
    specialize (Hs Hcs d Hd). lia.
Qed.

(** C13. Nobody waits past a deadline.  A join or a sync that is parked until [d] is no longer
    waiting after a sweep later than [d], whatever was asked in between: it was answered,
    or its sender is gone. *)
Theorem bounded_wait (c c1 c2 c3 : Coordinator.t) (rs : list Request) (tx : channel) (d now : Instant) :
  coordinator_ok c →
  (∃ request uuid now, join c request uuid now = Some (c1, Parked tx d)) ∨
  (∃ gid n id assignments now clock, sync c gid n id assignments now clock = (c1, Parked tx d)) →
  serve_all c1 rs = Some c2 → sweep c2 now = Some c3 → (d < now)%N →
  ∀ gid id b, ¬ waits c3 gid id b tx.
Proof.
  intros Hok Hpark Hrun Hsw Hlt.
  assert (∃ b fid, steps fid c c1 ∧ waits_until b tx d c1) as (b & fid & Hst & Hw).
  { destruct Hpark as [(request & uuid & t & Hj)|(gid & n & id & assignments & t & clock & Hs)].
    - destruct (join_spec c request uuid t Hok) as (c' & r & Hj' & Hst & Hp). rewrite Hj in Hj'. injection Hj' as <- <-.
      destruct (Hp tx d eq_refl) as [Htx Hd]. exists true, (minted_by request uuid). split; [done|]. by split.
    - pose proof (sync_spec c gid n id assignments t clock Hok) as Hp. rewrite Hs in Hp. destruct Hp as [Hst Hp].
      destruct (Hp tx d eq_refl) as [Htx Hd]. exists false, None. split; [done|]. by split. }
  destruct (serve_all_ind (λ c _, waits_until b tx d c) rs c1 c2 (proj1 Hst) Hrun Hw) as [Hok2 Hw2].
  { clear. intros c r rs c' _ Hst Hw. by eapply waits_until_step. }
  by apply (sweep_ends_waits c2 now c3 b tx d).
Qed.

(** ** Rounds *)

(** The outcome a member hears when its round completes. *)
Definition outcome_of (g : Group.t) (l p id : string) (all : list (string * list u8)) : JoinOutcome.t :=
  JoinOutcome.mk (next_generation (Group.generation g)) p l id (if decide (id = l) then all else []).

(** C14. A round agrees.  When the deadline of a round has passed, or everybody is in it and its
    window is open, it completes: whoever did not rejoin is out, the generation advances,
    and everybody who joined hears the same generation, leader and protocol.  The leader is
    the previous one if it rejoined, or else the earliest joiner; the protocol is one that
    everybody has, and none that everybody has got more votes; only the leader hears of the
    members, each with its metadata.  Otherwise nothing changes and nobody hears anything. *)
Theorem round_agrees (config : GroupConfig.t) (g : Group.t) (round : Round.t) (now : Instant) :
  group_ok config g → Group.round g = Some round →
  ∃ g' sends, maybe_complete g now = Some (g', sends) ∧
    if decide ((Round.deadline round <= now)%N ∨
               (map_Forall (λ _ m, Member.in_round m = true) (Group.members g) ∧
                (Round.not_before round <= now)%N)) then
      Group.generation g' = next_generation (Group.generation g) ∧
      (rejoined g = ∅ ∧ Group.state g' = Empty ∧ sends = [] ∨
       ∃ l p all, elected g l p ∧ Group.state g' = CompletingRebalance ∧
         dom (Group.members g') = dom (rejoined g) ∧
         all ≡ₚ (λ '(id, m), (id, Member.metadata p m)) <$> map_to_list (rejoined g) ∧
         ∀ s, s ∈ sends ↔ ∃ id m tx, rejoined g !! id = Some m ∧ Member.join_waiter m = Some tx ∧
           s = SendJoin tx (Ok (outcome_of g l p id all)))
    else g' = g ∧ sends = [].
Proof.
  intros Hok Hround. destruct (maybe_complete_result config g now Hok) as (g' & sends & Heq & Hres).
  exists g', sends. split; [done|].
  assert (completes g round now = true ↔ (Round.deadline round <= now)%N ∨
    (map_Forall (λ _ m, Member.in_round m = true) (Group.members g) ∧ (Round.not_before round <= now)%N)) as Hc.
  { unfold completes. by rewrite orb_true_iff, andb_true_iff, !bool_decide_eq_true, forallb_hash_iter. }
  destruct Hres as [Hw|round' Hr Hc' He|round' l p Hr Hc' Hel].
  - rewrite decide_False; [done|]. rewrite <-Hc, (Hw round Hround). done.
  - rewrite Hround in Hr. injection Hr as <-. rewrite decide_True by (by apply Hc). split; [done|]. by left.
  - rewrite Hround in Hr. injection Hr as <-. rewrite decide_True by (by apply Hc). split; [done|]. right.
    exists l, p, (round_members (rejoined g) p). split_and!; [done|done| | |].
    + cbn. by rewrite dom_fmap_L.
    + unfold round_members. by rewrite hash_iter_perm.
    + intros s. unfold join_answers. rewrite elem_of_omap_iter. split.
      * intros (id & m & Hm & Hs). apply fmap_Some in Hs as (tx & Htx & ->). by exists id, m, tx.
      * intros (id & m & tx & Hm & Htx & ->). exists id, m. by rewrite Htx.
Qed.
End coordinator.
