(* ===== verification/KafkaScenario.v ===== *)
(** A consumer group at work: two members form a generation, share an assignment and
    rebalance, with the theorems about the coordinator applied to the run, and a run in
    which a healthy member is put out of its group. *)

From stdpp Require Import prelude strings list gmap pretty.
From Stdlib Require Import ZArith Lia.
From S2P Require Import Prelude Wire Flow KafkaGroups KafkaRounds KafkaMembers KafkaCoordinator.
#[local] Open Scope nat_scope.

#[local] Instance kafka_order : HashOrder := λ A m, map_to_list m.
#[local] Instance kafka_order_laws : HashOrderLaws.
Proof. done. Qed.
#[local] Instance kafka_fmt : Fmt := {| uuid_display n := pretty (ival n); str_debug s := s |}.

Definition at_ms (n : N) : Instant := from_millis n.
Definition asks (client id : string) : JoinRequest.t :=
  JoinRequest.mk "orders" id client "consumer" [("range", as_bytes client); ("sticky", [])] (from_secs 10) (from_secs 60) false.
Definition uuid_n (n : Z) : Uuid := wrap_int U128 n.

(** The state after some requests. *)
Definition after (rs : list Request) : Coordinator.t :=
  default (Coordinator.new GroupConfig.default) (serve_all (Coordinator.new GroupConfig.default) rs).

Lemma after_ok rs : coordinator_ok (after rs).
Proof.
  unfold after. destruct (serve_all_total rs _ (new_coordinator_ok GroupConfig.default)) as (c & -> & Hok). exact Hok.
Qed.

(** Two members join; the window closes. *)
Definition first_round : list Request :=
  [AskJoin (asks "a" "") (uuid_n 1) (at_ms 0); AskJoin (asks "b" "") (uuid_n 2) (at_ms 100); Sweep (at_ms 1000)].
Definition shares : list (string * list u8) := [("a-1", as_bytes "0,1"); ("b-2", as_bytes "2")].
(** The leader assigns; a third member joins and the others rejoin. *)
Definition second_round : list Request :=
  [AskSync "orders" (wrap_int I32 1) "a-1" shares (at_ms 1100) (λ _, at_ms 1100);
   AskJoin (asks "c" "") (uuid_n 3) (at_ms 5000); AskJoin (asks "a" "a-1") (uuid_n 4) (at_ms 5100);
   AskJoin (asks "b" "b-2") (uuid_n 5) (at_ms 5200)].

(** ** The invariant *)

(** The run of both rounds ends in a state that has the invariant, in its second generation. *)
Lemma coordinator_sound_witness :
  ∃ c, serve_all (Coordinator.new GroupConfig.default) (first_round ++ second_round) = Some c ∧ coordinator_ok c ∧
    generation_at c "orders" = 2%Z.
Proof.
  destruct (coordinator_sound GroupConfig.default (first_round ++ second_round)) as (c & Hrun & Hok).
  exists c. split; [exact Hrun|]. split; [exact Hok|].
  assert (((λ c, generation_at c "orders") <$> serve_all (Coordinator.new GroupConfig.default) (first_round ++ second_round))
    = Some 2%Z) as Hgen by (vm_compute; reflexivity).
  rewrite Hrun in Hgen. injection Hgen as Hgen. exact Hgen.
Defined.

(** ** Fencing *)

Definition fenced_later : list Request :=
  [AskLeave "orders" "c-3" (at_ms 6000); AskHeartbeat "orders" (wrap_int I32 2) "a-1" (at_ms 6100); Sweep (at_ms 90000)].

Lemma stale_member_fenced_witness :
  ∃ c', serve_all (after (first_round ++ second_round)) fenced_later = Some c' ∧
    ∀ now assignments clock, ∃ e1 e2,
      check_commit c' "orders" (wrap_int I32 1) "b-2" now = (c', Err e1) ∧
      heartbeat c' "orders" (wrap_int I32 1) "b-2" now = (c', Err e2) ∧
      sync c' "orders" (wrap_int I32 1) "b-2" assignments now clock = (c', Answered (Err e2)).
Proof.
  destruct (serve_all_total fenced_later _ (after_ok (first_round ++ second_round))) as (c' & Hrun & _).
  exists c'. split; [exact Hrun|].
  apply (stale_member_fenced (after (first_round ++ second_round)) c' fenced_later "orders" (wrap_int I32 1) "b-2").
  - apply after_ok.
  - exact Hrun.
  - right. vm_compute. reflexivity.
  - discriminate.
  - repeat constructor; discriminate.
  - vm_compute. discriminate.
Defined.

(** ** Assignments *)

Definition assigned_state : Coordinator.t := after (first_round ++ take 1 second_round).
Definition told (r : Coordinator.t * Reply (list u8)) : option (list u8) :=
  match r.2 with Answered (Ok a) => Some a | _ => None end.


(** ** Waiting *)

Definition parked_join : option (Coordinator.t * Reply Joined) :=
  join (Coordinator.new GroupConfig.default) (asks "a" "") (uuid_n 1) (at_ms 0).
Definition parked_state : Coordinator.t := after [AskJoin (asks "a" "") (uuid_n 1) (at_ms 0)].

Lemma bounded_wait_witness :
  ∃ c2 c3, serve_all parked_state [AskJoin (asks "b" "") (uuid_n 2) (at_ms 100)] = Some c2 ∧
    sweep c2 (at_ms 60001) = Some c3 ∧ ∀ gid id b, ¬ waits c3 gid id b 0.
Proof.
  assert (parked_join = Some (parked_state, Parked 0 (at_ms 60000))) as Hpark by (vm_compute; reflexivity).
  destruct (serve_all_total [AskJoin (asks "b" "") (uuid_n 2) (at_ms 100)] parked_state (after_ok _))
    as (c2 & Hrun & Hok).
  destruct (sweep_spec c2 (at_ms 60001) Hok) as (c3 & Hsweep & _). exists c2, c3. split; [exact Hrun|]. split; [exact Hsweep|].
  apply (bounded_wait (Coordinator.new GroupConfig.default) parked_state c2 c3
    [AskJoin (asks "b" "") (uuid_n 2) (at_ms 100)] 0 (at_ms 60000) (at_ms 60001)).
  - apply new_coordinator_ok.
  - left. exists (asks "a" ""), (uuid_n 1), (at_ms 0). exact Hpark.
  - exact Hrun.
  - exact Hsweep.
  - reflexivity.
Defined.

(** ** A round *)

Definition waiting_group : Group.t := group_at (after (take 2 first_round)) "orders".
Definition waiting_round : Round.t := default (Round.mk 0%N 0%N) (Group.round waiting_group).

Lemma round_agrees_witness :
  ∃ g' sends, maybe_complete waiting_group (at_ms 1000) = Some (g', sends) ∧
    Group.generation g' = wrap_int I32 1 ∧ length sends = 2.
Proof.
  assert (Group.round waiting_group = Some waiting_round) as Hround by (vm_compute; reflexivity).
  destruct (round_agrees GroupConfig.default waiting_group waiting_round (at_ms 1000)) as (g' & sends & Heq & _).
  - assert (Coordinator.config (after (take 2 first_round)) = GroupConfig.default) as <- by (vm_compute; reflexivity).
    apply group_at_ok, after_ok.
  - exact Hround.
  - exists g', sends. split; [exact Heq|].
    assert (match maybe_complete waiting_group (at_ms 1000) with
            | Some (g, s) => bool_decide (Group.generation g = wrap_int I32 1) && bool_decide (length s = 2)
            | None => false end = true) as Hall by (vm_compute; reflexivity).
    rewrite Heq in Hall. apply andb_prop in Hall as [H1%bool_decide_eq_true H2%bool_decide_eq_true]. split; assumption.
Defined.

(** ** A healthy member put out

    The leader of a round never assigns.  The other member is parked on the assignment, so
    it cannot send heartbeats; when the round times out it is told to rejoin, but its
    session is still counted from before it was parked. *)
Definition unsynced_round : list Request :=
  first_round ++ [AskSync "orders" (wrap_int I32 1) "b-2" [] (at_ms 1100) (λ _, at_ms 1100); Sweep (at_ms 61250)].
Definition rejoin (rs : list Request) (now : Instant) : option (Reply Joined) :=
  snd <$> join (after rs) (asks "b" "b-2") (uuid_n 9) now.

(** The member is told to rejoin at the sweep; if it has not by the next one, a quarter of a
    second later, the group no longer knows it. *)
Theorem released_follower_expelled :
  drop 2 (Coordinator.sent (after unsynced_round)) = [SendSync 2 (Err ErrorCode.RebalanceInProgress)] ∧
  rejoin unsynced_round (at_ms 61260) = Some (Parked 3 (at_ms 121250)) ∧
  rejoin (unsynced_round ++ [Sweep (at_ms 61500)]) (at_ms 61510) = Some (Answered (Err ErrorCode.UnknownMemberId)).
Proof. split; [|split]; vm_compute; reflexivity. Qed.
